(* ===== verification/_CoqProject ===== *)
-Q . S2P
Prelude.v
HsTypes.v
ConsensusTypes.v
HsVerifier.v
HsCore.v
HsAgreement.v
HsFork.v
HsPendingVotes.v
HsNode.v
HsStorage.v
HsRoundManager.v
HsNodeProps.v
HsRounds.v
HsNodeTheorems.v
HsConsensus.v
HsPeer.v
HsPeerProps.v
LedgerTrie.v
LedgerTrieProps.v
ValidatedLedger.v
LedgerTrieSpec.v
LedgerTriePreferred.v
Validations.v
ValidationsProps.v
ValidationsTheorems.v
LedgerTiming.v
RpcaTypes.v
Rpca.v
RpcaProps.v
RpcaInvariant.v
RpcaSteps.v
RpcaTimer.v
RpcaAccept.v
RpcaTheorems.v
ViewChange.v
ViewChangeProps.v
Pop.v
PopProps.v
PopRound.v
PopTheorems.v
Rlp.v
RlpProps.v
RlpItems.v
RlpTheorems.v
ShaMapNode.v
ShaMap.v
ShaMapRep.v
ShaMapProps.v
ShaMapOps.v
ShaMapHash.v
ShaMapInj.v
ShaMapIter.v
ShaMapProof.v
ShaMapDelta.v
ShaMapCodec.v
ShaMapRun.v
ShaMapStore.v
TxSetMap.v
ShaMapTheorems.v
ShaMapSync.v
ShaMapPart.v
ShaMapFill.v
ShaMapReply.v
ShaMapComplete.v
ShaMapSyncTheorems.v
StateManager.v
TxPool.v
TxPoolProps.v
TxPoolSystem.v
TxPoolTheorems.v
Serializer.v
Hex.v
Bloom.v
LogFilter.v
BloomProps.v
MatcherProps.v
FilterProps.v
FilterApi.v
FilterApiProps.v
BloomTheorems.v
