(* ===== verification/Prelude.v ===== *)
(** * chainsqld: verification of consensus, pool, state tree, log index and codecs

    This library models the consensus layer of chainsqld, the pool of transactions it takes
    its sets from, the tree that holds ledgers and transaction sets, the index of the logs
    of contracts, and the codecs of its data, and proves what makes each part correct.
    Paths are relative to the repository's [src/src]; [H/] stands for
    [peersafe/consensus/hotstuff/impl], [R/] for [peersafe/consensus/rpca] and [P/] for
    [peersafe/consensus/pop].

    ** The program

    A node runs one of several consensus protocols behind one interface.  HotStuff: blocks
    carry quorum certificates, a validator votes by the safety rules of [HotstuffCore],
    votes are gathered in [PendingVotes], [BlockStorage] commits by the 3-chain rule,
    [RoundManager] handles events, and [HotstuffConsensus] connects the instance to ledgers,
    pool and peers.  RPCA: nodes exchange positions on a transaction set and a close time,
    dispute single transactions, and accept when enough agree; which ledger a round is based
    on is asked of [Validations], which counts the latest validation of every trusted node
    in a [LedgerTrie].  Proof of peers: a leader chosen by ledger number and view proposes a
    transaction set, validators vote for it, and ask for the next view when a quorum is not
    in on time.  Ledgers and the transaction sets the protocols agree on are kept in a
    [SHAMap], a tree of sixteen-way inner nodes whose root hash stands for its items; a node
    that lacks a tree fetches its nodes from peers by their hashes.  Submitted transactions
    wait in a [TxPool], checked in the order of their account's sequences, until a validated
    ledger has them.  Beside these, the node carries an Ethereum machine, whose data is
    encoded by the RLP codec of [eth/tools].  Contracts leave logs; a ledger's header has a
    Bloom filter of its logs, [BloomIndexer] keeps the filters of sections of 4096 ledgers
    by bits, and [Filter] and [FilterApi] answer queries for logs.

    ** Files

    - Prelude: machine integers, big-endian byte strings, boolean reflection, loops.
    - HsTypes: the data of HotStuff ([H/BlockInfo.h], [VoteData], [QuorumCert],
      [Vote], [Block], [SyncInfo], [EpochChange], ...) with their digests.
    - ConsensusTypes: modes, phases and timers shared by the protocols
      ([peersafe/consensus/ConsensusTypes.h]).
    - HsVerifier: verification of certificates against the interface
      [ValidatorVerifier], and its implementation over a set of trusted keys, with
      quorums and leaders ([H/HotstuffConsensus.cpp],
      [ripple/app/misc/impl/ValidatorList.cpp]).
    - HsCore: [H/HotstuffCore.cpp], state [SafetyData].  HsAgreement: a network of
      validators voting by it.  HsFork: the run that breaks agreement when blocks of
      the first rounds come out of order.
    - HsPendingVotes: [H/PendingVotes.cpp] and [H/RoundState.cpp].
    - HsNode: the state of an instance and the state-and-log monad its handlers are
      written in.  HsStorage: [H/BlockStorage.cpp].  HsRoundManager:
      [H/RoundManager.cpp], [H/ProposalGenerator.cpp], [H/Hotstuff.cpp].  HsNodeProps,
      HsRounds, HsNodeTheorems: what holds over every sequence of events.
    - HsConsensus, HsPeer: [H/HotstuffConsensus.cpp], state [Hc], handlers of
      messages, timers and recovery, and the configuration read by
      [H/HotstuffAdaptor.cpp].  HsPeerProps: their properties.
    - LedgerTrie: [peersafe/consensus/LedgerTrie.h] over the class [LedgerOps].
      ValidatedLedger: the instance [RCLValidatedLedger]
      ([ripple/app/consensus/RCLValidations.cpp]).  LedgerTrieProps, LedgerTrieSpec,
      LedgerTriePreferred: representation, refinement and the preferred ledger.
    - Validations: [peersafe/consensus/Validations.h], with [getPrevLedger] of
      [peersafe/consensus/impl/RpcaPopAdaptor.cpp].  ValidationsProps,
      ValidationsTheorems: what the trie counts after any history.
    - LedgerTiming: [peersafe/consensus/LedgerTiming.h].
    - RpcaTypes: [R/DisputedTx.h], [R/RpcaConsensusParams.h], proposals
      ([peersafe/protocol/STProposeSet.h]), transaction sets, and the decisions that
      are functions of counts and times.  Rpca: [R/impl/RpcaConsensus.cpp], state
      [Rpca].  RpcaProps, RpcaInvariant, RpcaSteps: the invariant of disputes and that
      every operation keeps it.  RpcaTimer: the nested calls of the timer.  RpcaAccept:
      close times and acceptance.  RpcaTheorems: the theorems.
    - ViewChange: [P/impl/ViewChangeManager.cpp].  ViewChangeProps: what it counts.
      Pop: [P/impl/PopConsensus.cpp], state [Pop], with the parameters, the collection
      of transactions and the mode changes of [P/impl/PopAdaptor.cpp].  PopProps: the
      invariant on where votes, results and views come from, kept by every operation.
      PopRound: a round that succeeds.  PopTheorems: the theorems.
    - Rlp: [eth/tools/RLP.h] and [RLP.cpp] with what they use of [vector_ref.h] and
      [CommonData.h]: the reader [RLP], its subscript cache and iterators, the
      conversions, and the writer [RLPStream].  RlpProps: one encoded item as a frame.
      RlpItems: the frames of a list, by iteration and by subscripts.  RlpTheorems:
      nested items and integers.
    - ShaMapNode: nodes, positions, hashes and encodings ([ripple/shamap/impl/]
      [SHAMapTreeNode.cpp], [SHAMapNodeID.cpp]).  ShaMap: the operations of [SHAMap.cpp]
      and [SHAMapDelta.cpp] on the state [SHAMap] and a node store, with the verification
      of proofs in [ripple/rpc/handlers/Tx.cpp].  ShaMapRep: when a node holds a finite map
      of items.  ShaMapProps, ShaMapOps: lookup and changes.  ShaMapHash: hashing and
      copies.  ShaMapInj: hashes determine items.  ShaMapIter, ShaMapDelta, ShaMapProof,
      ShaMapCodec: iteration, comparison, proofs, encodings.  ShaMapRun: sequences of
      operations.  ShaMapStore: what is in the store after a flush.  TxSetMap: [RCLTxSet]
      on a tree ([ripple/app/consensus/RCLCxTx.h]).  ShaMapTheorems: the theorems.
    - ShaMapSync: adding nodes sent by peers, replies to peers, traversals and fetch packs
      ([ripple/shamap/impl/SHAMapSync.cpp], [SHAMapAddNode.h]), with the filters
      [AccountStateSF], [TransactionStateSF] and [ConsensusTransSetSF] of
      [ripple/app/ledger].  ShaMapPart: when a node is a part of a tree, and the class
      [Lawful] of filters.  ShaMapFill: nodes that arrive in any order.  ShaMapReply: what
      replies and fetch packs hold.  ShaMapComplete: rounds with an honest peer.
      ShaMapSyncTheorems: the theorems.
    - StateManager: [peersafe/app/misc/impl/StateManager.cpp].  TxPool:
      [peersafe/app/misc/impl/TxPool.cpp], state [TxPool], with [doTransactionCheck] of
      [ripple/app/misc/NetworkOPs.cpp] and [checkSeq2] of [ripple/app/tx/impl/Transactor.cpp].
      TxPoolProps: the invariant and each operation.  TxPoolSystem: pool, account
      sequences, ledger view and validated ledgers as one step relation, and catching up
      with missed ledgers.  TxPoolTheorems: the theorems.
    - Serializer: [ripple/protocol/impl/Serializer.cpp], writer and reader.  Hex: texts of
      [base_uint] ([ripple/basics/base_uint.h], [strHex.h]).
    - Bloom: [Bloom.cpp], [BloomIndexer.cpp] and [BloomManager.cpp] of
      [peersafe/app/bloom], states [BloomIndexer] and [BloomManager].  LogFilter:
      [BloomHelper.cpp], [FilterHelper.cpp], [Matcher.cpp] and [Filter.cpp], with
      [parseContractLogs] of [eth/api/utils/Helpers.cpp] and [doEthGetLogs] of
      [eth/api/handlers/EthRpcApi.cpp].  FilterApi: [FilterApi.cpp], state [FilterApi].
      BloomProps: the bits of filters and the invariant of the index.  MatcherProps: the
      search.  FilterProps: filters cover logs, and the answer to a query.  FilterApiProps:
      polling.  BloomTheorems: the theorems.

    ** How code is modelled

    A class is a record, an enumeration an inductive type, an optional an [option],
    a map a [gmap].  Integers are [Z] or [N] with the wrap-around of their width
    written where it can matter; the [float] arithmetic of RPCA's pause is IEEE
    binary32.  A method is a function from the state to the state and its result;
    the handlers of a HotStuff instance are written in the monad of HsNode, and what
    leaves the node (messages, timers, jobs, notifications) is a log.  A lock makes a
    method atomic.  Hash maps are iterated in the order of [map_to_list].  The nodes of a
    [SHAMap] are values; which of them several maps share, and so may not be changed, is
    what their sequence numbers say, as in the code: every change of a node with a foreign
    number is a copy.  The one change in place of a node whose hash stays is written out
    ([place]).

    Code outside the parts above is a parameter: signature schemes and hash functions, the
    application behind HotStuff, the ledger operations of the adaptor (class [Adaptor]),
    what the adaptors of RPCA and of proof of peers answer during a call (records [RpcaEnv]
    and [PopEnv]), the ledgers at hand ([acquire]), and for RPCA the identifier of a
    transaction set and its comparison when cut off (class [TxSetOps]), which TxSetMap has
    for sets on a tree.  The node store under a tree and under the index of logs is a map
    from hashes to bytes in which a write replaces what was there, as with RocksDB (a NuDB
    back end ignores a write under a hash it has; only the count of stored sections is
    written twice with different bytes).  Theorems that need hashes to be free of collisions
    say for which strings.

    ** What the theorems show

    - HotStuff safety: agreement of the 3-chain commit rule within the fault bound, as long
      as the certificates in signed blocks verify and name true rounds, which the code does
      not check; votes of a validator have increasing rounds and respect its lock; quorums
      of [calculateQuorum] intersect in a correct validator; a freshly signed vote commits
      exactly on consecutive rounds.
    - HotStuff nodes: whatever is sent to a node, its votes come from the safety rules,
      stored votes are verified, its round follows its highest certificate while
      certificates, votes and blocks name true rounds, proposals are made once per round;
      votes of a quorum are aggregated into a certificate that verifies.
    - What the code lets through: certificates whose commit info or round is not
      signed, unverified commit certificates, equivocation masked by a timeout count,
      a proposal counter that falls, votes forgotten after a partition.
    - Ledger trie: it implements a map from ledgers to counts, and the compressed search
      for the preferred ledger equals a walk ledger by ledger.
    - Validations: the trie counts nodes after any history; trusted validations are
      counted once their ledger is at hand; support can outlive trust.
    - RPCA: disputes record the votes of the peers whose sets are known, and all the
      differences with these sets up to the 65536 at which comparisons are cut off; the timer
      terminates, composed with the validations; acceptance is justified by fresh
      positions; which close time is settled on; agreed close times are accepted
      unrounded.
    - Proof of peers: whatever reaches a node, what it accepts follows a leader of the
      ledger and view and, if by votes, a quorum on one set; it leaves view 0 only for
      a view a quorum asked for; a follower that gets a quorum of votes in any order
      accepts.  What the code lets through: acceptance without votes while a validator
      list is missing, votes for one set accepting another, falling back to an earlier
      view, votes of validators that lost their trust, forged ledger numbers.
    - Close times: resolutions, nearest rounding, strictly later effective times, and
      times that are not set.
    - RLP: nested items and integers round-trip; what the strict reader accepts is what
      the writer writes; subscripts in any order agree with iteration.
    - State tree: it never fails and is the plain map of its items under any sequence of
      operations; equal hashes are equal items; iteration is complete and in order; the
      comparison that skips equal hashes finds all differences; proofs are made for
      exactly the items and an accepted proof is one of an item; nodes survive their
      encodings and a tree flushed before it is hashed or copied is had back from its root
      hash; transaction sets on it are the sets of the consensus model.  What the code gets
      wrong: a removal changes the kind of a lone neighbour, in every tree.
    - Filling a tree from peers: whatever is sent, lookups never give other data than the
      tree with the wanted root hash; with an honest peer the tree is complete after as
      many rounds as it has nodes; a fetch pack and the nodes the receiver has make up the
      tree.  What the code gets wrong: an inner node that names a branch twice is taken
      with its right hash and keeps the tree from being completed.
    - Transaction pool: whatever its users do it stays ordered, indexed and within its
      capacity; what a batch leaves out of an account's sequences is in progress, validated,
      removed or expired; validated ledgers are taken out, and missed ones are caught up
      with.  What the code gets wrong: an iterator read after its entry is erased,
      transactions of two sets in progress, a count that wraps, sequences signed twice.
    - Logs of contracts: the index holds the transposed filters of its sections through
      restarts; a query over its range returns exactly the logs it selects when the first
      indexed ledger is a multiple of 8; polls deliver every log of the ledgers published
      while the timer does not hold the filters once.  What the code gets
      wrong: with the first ledger 1 logs are skipped, ranges that begin before it and
      queries without criteria are answered wrongly, logs of inner calls are not in the
      filter, and filters are away while the timer runs.
    - Serializer: field identifiers and lengths have one accepted form and are read back.

    ** Bounds and fuel

    [timerEntry] of Rpca takes fuel for its nested calls; [timer_terminates] shows that 3 is
    enough.  The loops of the RLP reader take the length of their data as fuel, since every
    turn consumes a byte: [rlp_canonical] shows that reading never runs out of it,
    [rlp_subscript] that subscripts and the item count of an accepted list do not.  The walk
    over abandoned ledgers in Pop takes one more than their highest number as fuel, enough
    by [clear_avoids_fuel] as ledger numbers start from 1.  The loops that go down a tree
    take its depth, 64, the number of nibbles of a key; the tree's theorems show that no
    operation on a well-formed tree runs out of it.  A node from a peer is looked for in as
    many turns as its place is deep, and the rounds of [sync_completes] are at least the
    nodes of the tree.  The walk over a section of the log index takes the number of its
    ledgers, enough by [scan_spec]; loops over 32-bit numbers that never end are undefined
    ([u32_loop]), and the theorems show when queries and the job return.  The other
    recursions are structural or on lists that the state holds.

    ** Not modelled

    Views on the ledger state, the back ends and caches of the node store, transactors (all
    act on those views), the search for the nodes a tree lacks ([getMissingNodes] of
    [SHAMapSync.cpp] reads asynchronously and in random order; the theorems on filling a
    tree take any request of a missing node) and the acquisition of ledgers that drives it,
    the SQL and table engine, smart contract machines, the overlay, RPC but for the calls on
    logs, and cryptography: the modelled parts reach them only through the parameters above.
    Decoding of messages (protobuf and serialization libraries), JSON dumps, logging and the
    writing of stale validations to the database are left out of the parts that are
    modelled, as are threads: a handler runs to its end, but for the timer of FilterApi,
    which lets others in between its two critical sections.  *)

From stdpp Require Export base numbers gmap list strings fin_maps.
From Stdlib Require Export ZArith Lia Sorted.

#[export] Set Default Goal Selector "!".

#[local] Open Scope Z_scope.

(** ** Machine integers

    [u32 z] and [u64 z] are the values a C++ unsigned conversion keeps;
    [i64 z] is the two's-complement reading of a 64-bit pattern, what an
    implicit conversion from [std::size_t] to [std::int64_t] yields, [i32 z] that
    of the low 32 bits, a conversion to [int]. *)

Definition u32 (z : Z) : Z := z mod 2 ^ 32.
Definition u64 (z : Z) : Z := z mod 2 ^ 64.
Definition i64 (z : Z) : Z := (z + 2 ^ 63) mod 2 ^ 64 - 2 ^ 63.
Definition i32 (z : Z) : Z := (z + 2 ^ 31) mod 2 ^ 32 - 2 ^ 31.

Lemma u32_range z : 0 <= u32 z < 2 ^ 32.
Proof. apply Z.mod_pos_bound. lia. Qed.

Lemma u32_small z : 0 <= z < 2 ^ 32 -> u32 z = z.
Proof. apply Z.mod_small. Qed.

Lemma u64_range z : 0 <= u64 z < 2 ^ 64.
Proof. apply Z.mod_pos_bound. lia. Qed.

Lemma u64_small z : 0 <= z < 2 ^ 64 -> u64 z = z.
Proof. apply Z.mod_small. Qed.

Lemma i64_small z : - 2 ^ 63 <= z < 2 ^ 63 -> i64 z = z.
Proof. intros H. unfold i64. rewrite Z.mod_small; lia. Qed.

Lemma i32_small z : - 2 ^ 31 <= z < 2 ^ 31 -> i32 z = z.
Proof. intros H. unfold i32. rewrite Z.mod_small; lia. Qed.

Lemma i64_range z : - 2 ^ 63 <= i64 z < 2 ^ 63.
Proof.
  unfold i64. pose proof (Z.mod_pos_bound (z + 2 ^ 63) (2 ^ 64) ltac:(lia)). lia.
Qed.

(** ** Byte strings

    A byte string is a list of integers; [be_bytes n z] is the big-endian
    image of [z] on [n] bytes, [be_value] reads it back. *)

Abbreviation Bytes := (list Z).

Fixpoint be_bytes (n : nat) (z : Z) : Bytes :=
  match n with
  | O => []
  | S n' => be_bytes n' (z / 256) ++ [z mod 256]
  end.

Definition be_value (bs : Bytes) : Z := fold_left (fun acc b => acc * 256 + b) bs 0.

Lemma be_bytes_length n z : length (be_bytes n z) = n.
Proof.
  revert z. induction n as [|n IH]; intros z; simpl; [done|].
  rewrite length_app, IH. simpl. lia.
Qed.

Lemma be_value_snoc bs b : be_value (bs ++ [b]) = be_value bs * 256 + b.
Proof. unfold be_value. by rewrite fold_left_app. Qed.

Lemma be_value_bytes n z : be_value (be_bytes n z) = z mod 256 ^ Z.of_nat n.
Proof.
  revert z. induction n as [|n IH]; intros z.
  - simpl. by rewrite Z.mod_1_r.
  - cbn [be_bytes]. rewrite be_value_snoc, IH.
    rewrite Nat2Z.inj_succ, Z.pow_succ_r by lia.
    rewrite (Z.rem_mul_r z 256) by lia. lia.
Qed.

(** A value that fits its width is determined by its image. *)
Lemma be_bytes_inj n x y :
  0 <= x < 256 ^ Z.of_nat n -> 0 <= y < 256 ^ Z.of_nat n ->
  be_bytes n x = be_bytes n y -> x = y.
Proof.
  intros Hx Hy H. apply (f_equal be_value) in H.
  by rewrite !be_value_bytes, !Z.mod_small in H by done.
Qed.

(** ** Booleans

    [bsolve] turns the boolean tests of a goal and its hypotheses into
    propositions, splits the conditionals of the goal, and closes what
    arithmetic and congruence can. *)

Create Rewrite HintDb tests.
#[export] Hint Rewrite andb_true_iff andb_false_iff orb_true_iff orb_false_iff
  negb_true_iff negb_false_iff bool_decide_eq_true bool_decide_eq_false
  Z.eqb_eq Z.eqb_neq Z.ltb_lt Z.ltb_ge Z.leb_le Z.leb_gt Z.gtb_lt Z.gtb_ltb Z.geb_leb
  Nat.ltb_lt Nat.ltb_ge Nat.leb_le Nat.leb_gt Nat.eqb_eq Nat.eqb_neq : tests.

Ltac btests := autorewrite with tests in *.

(** Case analysis on the innermost boolean test of a conditional. *)
Ltac split_if :=
  match goal with
  | |- context [if ?b then _ else _] =>
      lazymatch b with
      | context [if _ then _ else _] => fail
      | _ => destruct b eqn:?
      end
  | H : context [if ?b then _ else _] |- _ =>
      lazymatch b with
      | context [if _ then _ else _] => fail
      | _ => destruct b eqn:?
      end
  end.

Ltac bsolve := repeat split_if; btests; try done; try lia; try congruence.

(** ** Finite sets: the intersection of two large subsets *)

Lemma size_intersection_ge `{Countable A} (U X Y : gset A) :
  X ⊆ U -> Y ⊆ U -> (size X + size Y <= size U + size (X ∩ Y))%nat.
Proof.
  intros HX HY.
  assert (size (X ∪ Y) <= size U)%nat by (apply subseteq_size; set_solver).
  pose proof (size_union_alt X Y). pose proof (size_difference_alt Y X).
  assert (size (Y ∩ X) <= size Y)%nat by (apply subseteq_size; set_solver).
  rewrite (intersection_comm_L X Y). lia.
Qed.

(** Byte strings behind a leading 1 are determined by their value. *)
Definition is_byte (b : Z) : Prop := 0 <= b < 256.

Lemma be_bytes_bytes n z : Forall is_byte (be_bytes n z).
Proof.
  revert z. induction n as [|n IH]; intros z; simpl; [constructor|].
  apply Forall_app. split; [done|]. apply Forall_singleton. apply Z.mod_pos_bound. lia.
Qed.

Lemma be_value_bound l : Forall is_byte l -> 0 <= be_value l < 256 ^ Z.of_nat (length l).
Proof.
  induction l as [|b l IH] using rev_ind; intros H; [by split|]. apply Forall_app in H as [H1 H2].
  rewrite Forall_singleton in H2. unfold is_byte in H2. specialize (IH H1).
  rewrite be_value_snoc, length_app. simpl length. rewrite Nat.add_1_r, Nat2Z.inj_succ, Z.pow_succ_r by lia. lia.
Qed.

Lemma be_bytes_value l : Forall is_byte l -> be_bytes (length l) (be_value l) = l.
Proof.
  induction l as [|b l IH] using rev_ind; intros H; [done|]. apply Forall_app in H as [H1 H2].
  rewrite Forall_singleton in H2. unfold is_byte in H2. rewrite be_value_snoc, length_app. simpl length.
  rewrite Nat.add_1_r. cbn [be_bytes]. rewrite Z.div_add_l, Z.div_small, Z.add_0_r, IH by (done || lia).
  by rewrite Z.add_comm, Z.mod_add, Z.mod_small by lia.
Qed.

Lemma be_value_one_pos bs : Forall is_byte bs -> 1 <= be_value (1 :: bs).
Proof.
  induction bs as [|b bs IH] using rev_ind; [done|].
  intros [H1 H2]%Forall_app. rewrite app_comm_cons, be_value_snoc.
  rewrite Forall_singleton in H2. unfold is_byte in H2. specialize (IH H1). lia.
Qed.

Lemma be_value_one_inj x y :
  Forall is_byte x -> Forall is_byte y -> be_value (1 :: x) = be_value (1 :: y) -> x = y.
Proof.
  revert y. induction x as [|a x IH] using rev_ind; intros y Hx Hy;
    destruct y as [|b y _] using rev_ind; [done|..].
  - apply Forall_app in Hy as [H1 H2]. rewrite Forall_singleton in H2.
    rewrite app_comm_cons, be_value_snoc. pose proof (be_value_one_pos y H1).
    unfold is_byte in *. change (be_value [1]) with 1. lia.
  - apply Forall_app in Hx as [H1 H2]. rewrite Forall_singleton in H2.
    rewrite app_comm_cons, be_value_snoc. pose proof (be_value_one_pos x H1).
    unfold is_byte in *. change (be_value [1]) with 1. lia.
  - apply Forall_app in Hx as [H1 H2], Hy as [H3 H4].
    rewrite Forall_singleton in H2, H4. unfold is_byte in H2, H4.
    rewrite !app_comm_cons, !be_value_snoc. intros E.
    assert (be_value (1 :: x) = be_value (1 :: y) /\ a = b) as [E' ->] by lia.
    by rewrite (IH y H1 H3 E').
Qed.

(** ** Loops *)

Section Loops.

Context {A S : Type} (f : S -> A -> S).

Lemma fold_left_keeps (I : S -> Prop) l s : (forall s a, I s -> I (f s a)) -> I s -> I (fold_left f l s).
Proof. intros Hf. revert s. induction l as [|a l IH]; intros s Hs; simpl; [done|]. apply IH, Hf, Hs. Qed.

Lemma fold_left_id l s : (forall a, a ∈ l -> f s a = s) -> fold_left f l s = s.
Proof.
  induction l as [|a l IH]; intros H; simpl; [done|]. rewrite H by (by left). apply IH. intros. apply H. by right.
Qed.

End Loops.

Section Entries.

Context {K A S : Type} `{Countable K} (get : S -> gmap K A) (f : S -> K * A -> S) (I : S -> Prop).

(** A loop whose turns change at most their own entry meets every entry as it
    was at the start. *)
Lemma fold_entries s :
  (forall s k a, I s -> get s !! k = Some a ->
     I (f s (k, a)) /\ forall k', k' <> k -> get (f s (k, a)) !! k' = get s !! k') ->
  I s -> I (fold_left f (map_to_list (get s)) s).
Proof.
  intros Hf. assert (forall l s, NoDup l.*1 -> (forall k a, (k, a) ∈ l -> get s !! k = Some a) ->
    I s -> I (fold_left f l s)) as Hgen.
  { intros l. induction l as [|[k a] l IH]; intros s0 Hn Hl Hs; simpl; [done|].
    apply NoDup_cons in Hn as [Hk Hn]. destruct (Hf s0 k a Hs) as [H1 H2]; [apply Hl; by left|].
    apply IH; [done | | done]. intros k' a' Hin. rewrite H2; [apply Hl; by right|].
    intros ->. apply Hk, list_elem_of_fmap. by exists (k, a'). }
  intros Hs. apply Hgen; [apply NoDup_fst_map_to_list | | done]. intros k a. apply elem_of_map_to_list.
Qed.

End Entries.
