(* ===== verification/HsTypes.v ===== *)
(** * HotStuff data model

    The message and certificate types of
    [src/src/peersafe/consensus/hotstuff/impl]: block infos, vote data, votes,
    quorum and timeout certificates, sync infos, blocks and executed blocks,
    with the digests the validators sign.  A C++ class is a record whose fields
    carry a short prefix; a [boost::optional] is an [option]; a
    [std::map<Author, Signature>] is a [gmap].

    The hash function (SHA-512 half) is external: it is the operation of the
    class [Digest].  The bytes handed to it are modelled exactly, as
    [beast::hash_append] lays them out for a big-endian hasher. *)

From S2P Require Import Prelude.

#[local] Open Scope Z_scope.

(** ** Types.h *)

(** A [uint256], read as a big-endian number. *)
Abbreviation HashValue := Z.
(** A public key or a signature: its bytes.  The default [PublicKey] is empty. *)
Abbreviation Author := Bytes.
Abbreviation Signature := Bytes.
(** [int64_t] counters. *)
Abbreviation Epoch := Z.
Abbreviation Round := Z.
(** The id of a transaction set. *)
Abbreviation Command := HashValue.
Abbreviation Signatures := (gmap Author Signature).

Definition ZeroHash : HashValue := 0.

(** The digest of a byte string. *)
Class Digest := sha512_half : Bytes -> HashValue.

(** [hash_append] of the scalar types that occur in digests. *)
Definition append_uint256 (h : HashValue) : Bytes := be_bytes 32 h.
Definition append_int64 (z : Z) : Bytes := be_bytes 8 z.
Definition append_enum (z : Z) : Bytes := be_bytes 4 z.

(** ** ripple::LedgerInfo (ripple/ledger/ReadView.h) *)

Record LedgerInfo := mkLedgerInfo {
  li_seq : Z;
  li_parentCloseTime : Z;
  li_hash : HashValue;
  li_txHash : HashValue;
  li_accountHash : HashValue;
  li_parentHash : HashValue;
  li_bloom : Z;
  li_drops : Z;
  li_validated : bool;
  li_accepted : bool;
  li_bloomEnabled : bool;
  li_closeFlags : Z;
  li_closeTimeResolution : Z;
  li_closeTime : Z
}.

Definition LedgerInfo_default : LedgerInfo :=
  mkLedgerInfo 0 0 0 0 0 0 0 0 false false false 0 0 0.

#[export] Instance LedgerInfo_eq_dec : EqDecision LedgerInfo.
Proof. solve_decision. Defined.

(** ** EpochState.h

    The [verifier] pointer always designates the node's own verifier object, an
    argument of the operations that use it; only the number is data. *)
Record EpochState := mkEpochState { es_epoch : Epoch }.

#[export] Instance EpochState_eq_dec : EqDecision EpochState.
Proof. solve_decision. Defined.

(** ** BlockInfo.h *)

Record BlockInfo := mkBlockInfo {
  bi_epoch : Epoch;
  bi_round : Round;
  bi_id : HashValue;
  bi_ledger_info : LedgerInfo;
  bi_version : Z;
  bi_timestamp_msecs : Z;
  bi_next_epoch_state : option EpochState
}.

#[export] Instance BlockInfo_eq_dec : EqDecision BlockInfo.
Proof. solve_decision. Defined.

Definition BlockInfo_new (block_hash : HashValue) : BlockInfo :=
  mkBlockInfo 0 0 block_hash LedgerInfo_default 0 0 None.

Definition BlockInfo_empty (b : BlockInfo) : bool :=
  (bi_id b =? 0)
  && (li_txHash (bi_ledger_info b) =? 0)
  && (li_hash (bi_ledger_info b) =? 0)
  && (li_accountHash (bi_ledger_info b) =? 0)
  && (li_parentHash (bi_ledger_info b) =? 0)
  && (li_seq (bi_ledger_info b) =? 0).

Definition hasReconfiguration (b : BlockInfo) : bool :=
  match bi_next_epoch_state b with Some _ => true | None => false end.

(** ** VoteData.h, VoteData.cpp *)

Record VoteData := mkVoteData {
  vd_proposed : BlockInfo;
  vd_parent : BlockInfo;
  vd_tc : Z  (* std::size_t: the timeout count *)
}.

#[export] Instance VoteData_eq_dec : EqDecision VoteData.
Proof. solve_decision. Defined.

Definition VoteData_New (proposed parent : BlockInfo) (tc : Z) : VoteData :=
  mkVoteData proposed parent tc.

Definition epoch_suffix (b : BlockInfo) : Bytes :=
  match bi_next_epoch_state b with
  | Some s => append_int64 (es_epoch s)
  | None => []
  end.

(** The bytes a validator signs when it votes. *)
Definition VoteData_preimage (v : VoteData) : Bytes :=
  append_uint256 (bi_id (vd_proposed v))
  ++ append_uint256 (bi_id (vd_parent v))
  ++ append_uint256 (li_hash (bi_ledger_info (vd_proposed v)))
  ++ append_uint256 (li_hash (bi_ledger_info (vd_parent v)))
  ++ append_int64 (vd_tc v)
  ++ epoch_suffix (vd_proposed v)
  ++ epoch_suffix (vd_parent v).

Definition VoteData_hash {D : Digest} (v : VoteData) : HashValue :=
  sha512_half (VoteData_preimage v).

Definition VoteData_Verify (v : VoteData) : bool :=
  if negb (bi_epoch (vd_parent v) =? bi_epoch (vd_proposed v)) then false
  else if bi_round (vd_parent v) >=? bi_round (vd_proposed v) then false
  else if bi_timestamp_msecs (vd_parent v) >? bi_timestamp_msecs (vd_proposed v) then false
  else if bi_version (vd_parent v) >? bi_version (vd_proposed v) then false
  else true.

(** ** timeout.h *)

Record Timeout := mkTimeout { to_epoch : Epoch; to_round : Round }.

#[export] Instance Timeout_eq_dec : EqDecision Timeout.
Proof. solve_decision. Defined.

Definition Timeout_hash {D : Digest} (t : Timeout) : HashValue :=
  sha512_half (append_int64 (to_epoch t) ++ append_int64 (to_round t)).

(** ** QuorumCert.h: the signed ledger info, quorum and timeout certificates *)

(** [LedgerInfoWithSignatures::LedgerInfo]. *)
Record CommitLedgerInfo := mkCommitLedgerInfo {
  commit_info : BlockInfo;
  consensus_data_hash : HashValue
}.

#[export] Instance CommitLedgerInfo_eq_dec : EqDecision CommitLedgerInfo.
Proof. solve_decision. Defined.

Record LedgerInfoWithSignatures := mkLedgerInfoWithSignatures {
  ls_ledger_info : CommitLedgerInfo;
  ls_signatures : Signatures
}.

#[export] Instance LedgerInfoWithSignatures_eq_dec : EqDecision LedgerInfoWithSignatures.
Proof. solve_decision. Defined.

Definition LedgerInfoWithSignatures_new (li : CommitLedgerInfo) : LedgerInfoWithSignatures :=
  mkLedgerInfoWithSignatures li ∅.

Definition addSignature (l : LedgerInfoWithSignatures) (author : Author) (s : Signature)
  : LedgerInfoWithSignatures :=
  mkLedgerInfoWithSignatures (ls_ledger_info l) (<[author := s]> (ls_signatures l)).

Record QuorumCertificate := mkQuorumCertificate {
  qc_vote_data : VoteData;
  qc_signed_ledger_info : LedgerInfoWithSignatures
}.

#[export] Instance QuorumCertificate_eq_dec : EqDecision QuorumCertificate.
Proof. solve_decision. Defined.

Definition QuorumCertificate_default : QuorumCertificate :=
  mkQuorumCertificate
    (VoteData_New (BlockInfo_new ZeroHash) (BlockInfo_new ZeroHash) 0)
    (LedgerInfoWithSignatures_new (mkCommitLedgerInfo (BlockInfo_new ZeroHash) ZeroHash)).

Definition certified_block (q : QuorumCertificate) : BlockInfo := vd_proposed (qc_vote_data q).
Definition parent_block (q : QuorumCertificate) : BlockInfo := vd_parent (qc_vote_data q).
Definition qc_ledger_info (q : QuorumCertificate) : CommitLedgerInfo :=
  ls_ledger_info (qc_signed_ledger_info q).
Definition qc_commit_info (q : QuorumCertificate) : BlockInfo := commit_info (qc_ledger_info q).
Definition qc_signatures (q : QuorumCertificate) : Signatures :=
  ls_signatures (qc_signed_ledger_info q).

Definition endsEpoch (q : QuorumCertificate) : bool := hasReconfiguration (qc_commit_info q).

Record TimeoutCertificate := mkTimeoutCertificate {
  tc_timeout : Timeout;
  tc_signatures : Signatures
}.

#[export] Instance TimeoutCertificate_eq_dec : EqDecision TimeoutCertificate.
Proof. solve_decision. Defined.

Definition TimeoutCertificate_new (t : Timeout) : TimeoutCertificate :=
  mkTimeoutCertificate t ∅.

(** Only the first signature of an author is kept. *)
Definition TimeoutCertificate_addSignature (c : TimeoutCertificate) (author : Author)
    (s : Signature) : TimeoutCertificate :=
  match tc_signatures c !! author with
  | Some _ => c
  | None => mkTimeoutCertificate (tc_timeout c) (<[author := s]> (tc_signatures c))
  end.

(** ** Vote.h, Vote.cpp *)

Record Vote := mkVote {
  vt_vote_data : VoteData;
  vt_author : Author;
  vt_ledger_info : CommitLedgerInfo;
  vt_signature : Signature;
  vt_timestamp_msecs : Z;
  vt_timeout_signature : option Signature
}.

#[export] Instance Vote_eq_dec : EqDecision Vote.
Proof. solve_decision. Defined.

Definition Vote_default : Vote :=
  mkVote (VoteData_New (BlockInfo_new ZeroHash) (BlockInfo_new ZeroHash) 0) []
    (mkCommitLedgerInfo (BlockInfo_new ZeroHash) ZeroHash) [] 0 None.

(** [now] is the system clock in milliseconds. *)
Definition Vote_New (now : Z) (author : Author) (vd : VoteData) (li : CommitLedgerInfo)
    (s : Signature) : Vote :=
  mkVote vd author li s now None.

Definition addTimeoutSignature (v : Vote) (s : Signature) : Vote :=
  mkVote (vt_vote_data v) (vt_author v) (vt_ledger_info v) (vt_signature v)
    (vt_timestamp_msecs v) (Some s).

Definition isTimeout (v : Vote) : bool :=
  match vt_timeout_signature v with Some _ => true | None => false end.

Definition Vote_timeout (v : Vote) : Timeout :=
  mkTimeout (bi_epoch (vd_proposed (vt_vote_data v))) (bi_round (vd_proposed (vt_vote_data v))).

(** Accessors used throughout. *)
Definition vote_round (v : Vote) : Round := bi_round (vd_proposed (vt_vote_data v)).
Definition vote_parent_round (v : Vote) : Round := bi_round (vd_parent (vt_vote_data v)).
Definition vote_digest (v : Vote) : HashValue := consensus_data_hash (vt_ledger_info v).

(** ** Block.h, Block.cpp *)

Inductive BlockType := Proposal | NilBlock | Genesis.

#[export] Instance BlockType_eq_dec : EqDecision BlockType.
Proof. solve_decision. Defined.

(** The enumerator's value. *)
Definition BlockType_value (t : BlockType) : Z :=
  match t with Proposal => 0 | NilBlock => 1 | Genesis => 2 end.

Record Payload := mkPayload { pl_cmd : Command; pl_author : Author }.

#[export] Instance Payload_eq_dec : EqDecision Payload.
Proof. solve_decision. Defined.

Record BlockData := mkBlockData {
  bd_epoch : Epoch;
  bd_round : Round;
  bd_timestamp_msecs : Z;
  bd_quorum_cert : QuorumCertificate;
  bd_block_type : BlockType;
  bd_payload : option Payload
}.

#[export] Instance BlockData_eq_dec : EqDecision BlockData.
Proof. solve_decision. Defined.

Definition BlockData_default : BlockData :=
  mkBlockData 0 0 0 QuorumCertificate_default NilBlock None.

(** [NONEAUTHOR] is the empty key. *)
Definition bd_author (d : BlockData) : Author :=
  match bd_payload d with Some p => pl_author p | None => [] end.

(** The ledger a proposal announces travels in the commit info of its QC. *)
Definition getLedgerInfo (d : BlockData) : LedgerInfo :=
  bi_ledger_info (qc_commit_info (bd_quorum_cert d)).

Definition set_bi_ledger_info (b : BlockInfo) (li : LedgerInfo) : BlockInfo :=
  mkBlockInfo (bi_epoch b) (bi_round b) (bi_id b) li (bi_version b) (bi_timestamp_msecs b)
    (bi_next_epoch_state b).

(** Assignment through the non-const [getLedgerInfo()]. *)
Definition set_ledger_info (d : BlockData) (li : LedgerInfo) : BlockData :=
  let q := bd_quorum_cert d in
  let s := qc_signed_ledger_info q in
  let c := ls_ledger_info s in
  mkBlockData (bd_epoch d) (bd_round d) (bd_timestamp_msecs d)
    (mkQuorumCertificate (qc_vote_data q)
       (mkLedgerInfoWithSignatures
          (mkCommitLedgerInfo (set_bi_ledger_info (commit_info c) li) (consensus_data_hash c))
          (ls_signatures s)))
    (bd_block_type d) (bd_payload d).

Definition BlockData_preimage (d : BlockData) : Bytes :=
  append_int64 (bd_epoch d)
  ++ append_int64 (bd_round d)
  ++ append_int64 (bd_timestamp_msecs d)
  ++ append_enum (BlockType_value (bd_block_type d))
  ++ match bd_block_type d, bd_payload d with
     | Proposal, Some p =>
         append_uint256 (pl_cmd p) ++ append_uint256 (li_hash (getLedgerInfo d))
     | _, _ => append_uint256 (li_hash (getLedgerInfo d))
     end.

Definition BlockData_hash {D : Digest} (d : BlockData) : HashValue :=
  sha512_half (BlockData_preimage d).

Record Block := mkBlock {
  bk_id : HashValue;
  bk_block_data : BlockData;
  bk_signature : option Signature
}.

#[export] Instance Block_eq_dec : EqDecision Block.
Proof. solve_decision. Defined.

Definition Block_empty : Block := mkBlock ZeroHash BlockData_default None.

Abbreviation bk_round b := (bd_round (bk_block_data b)).
Abbreviation bk_qc b := (bd_quorum_cert (bk_block_data b)).

Definition nil_block {D : Digest} (round : Round) (hqc : QuorumCertificate) : Block :=
  let d := set_ledger_info (mkBlockData 0 round 0 hqc NilBlock None)
             (bi_ledger_info (certified_block hqc)) in
  mkBlock (BlockData_hash d) d None.

Definition new_genesis_block {D : Digest} (ledger_info : LedgerInfo) (epoch : Epoch) : Block :=
  let genesis_block_info := mkBlockInfo epoch 0 ZeroHash ledger_info 0 0 None in
  let genesis_vote_data := VoteData_New genesis_block_info genesis_block_info 0 in
  let genesis_ledger := mkCommitLedgerInfo genesis_block_info (VoteData_hash genesis_vote_data) in
  let genesis_qc :=
    mkQuorumCertificate genesis_vote_data (LedgerInfoWithSignatures_new genesis_ledger) in
  let genesis_block_data :=
    mkBlockData (bi_epoch genesis_block_info) (bi_round genesis_block_info)
      (bi_timestamp_msecs genesis_block_info) genesis_qc Genesis None in
  mkBlock (BlockData_hash genesis_block_data) genesis_block_data None.

Definition gen_block_info (b : Block) (li : LedgerInfo) (next : option EpochState) : BlockInfo :=
  mkBlockInfo (bd_epoch (bk_block_data b)) (bk_round b) (bk_id b) li 0
    (bd_timestamp_msecs (bk_block_data b)) next.

(** ** StateCompute.h, ExecuteBlock.h *)

Record StateComputeResult := mkStateComputeResult {
  sc_ledger_info : LedgerInfo;
  sc_parent_ledger_info : LedgerInfo;
  sc_epoch_state : option EpochState
}.

#[export] Instance StateComputeResult_eq_dec : EqDecision StateComputeResult.
Proof. solve_decision. Defined.

Definition StateComputeResult_default : StateComputeResult :=
  mkStateComputeResult LedgerInfo_default LedgerInfo_default None.

Record ExecutedBlock := mkExecutedBlock {
  eb_block : Block;
  eb_result : StateComputeResult
}.

#[export] Instance ExecutedBlock_eq_dec : EqDecision ExecutedBlock.
Proof. solve_decision. Defined.

Definition ExecutedBlock_default : ExecutedBlock :=
  mkExecutedBlock Block_empty StateComputeResult_default.

(** ** SyncInfo.h, SyncInfo.cpp: the data and its accessors *)

Record SyncInfo := mkSyncInfo {
  si_highest_quorum_cert : QuorumCertificate;
  si_highest_commit_cert : option QuorumCertificate;
  si_highest_timeout_cert : option TimeoutCertificate;
  si_verified : bool
}.

#[export] Instance SyncInfo_eq_dec : EqDecision SyncInfo.
Proof. solve_decision. Defined.

Definition SyncInfo_new (hqc hcc : QuorumCertificate) (htc : option TimeoutCertificate)
  : SyncInfo :=
  mkSyncInfo hqc
    (if negb (bi_round (certified_block hqc) =? bi_round (certified_block hcc))
     then None else Some hcc)
    (match htc with
     | Some t => if to_round (tc_timeout t) >? bi_round (certified_block hqc)
                 then Some t else None
     | None => None
     end)
    false.

Definition HighestRound (s : SyncInfo) : Round :=
  match si_highest_timeout_cert s with
  | Some t => Z.max (bi_round (certified_block (si_highest_quorum_cert s)))
                (to_round (tc_timeout t))
  | None => bi_round (certified_block (si_highest_quorum_cert s))
  end.

Definition si_HighestCommitCert (s : SyncInfo) : QuorumCertificate :=
  match si_highest_commit_cert s with
  | Some c => c
  | None => si_highest_quorum_cert s
  end.

Definition si_HighestTimeoutCert (s : SyncInfo) : TimeoutCertificate :=
  match si_highest_timeout_cert s with
  | Some t => t
  | None => TimeoutCertificate_new (mkTimeout 0 0)
  end.

Definition hasNewerCertificate (s other : SyncInfo) : bool :=
  (bi_round (certified_block (si_highest_quorum_cert s))
     >? bi_round (certified_block (si_highest_quorum_cert other)))
  || (bi_round (qc_commit_info (si_HighestCommitCert s))
        >? bi_round (qc_commit_info (si_HighestCommitCert other)))
  || (to_round (tc_timeout (si_HighestTimeoutCert s))
        >? to_round (tc_timeout (si_HighestTimeoutCert other))).

(** ** EpochChange.h *)

Record EpochChange := mkEpochChange {
  ec_ledger_info : LedgerInfoWithSignatures;
  ec_author : Author;
  ec_epoch : Epoch;
  ec_round : Round;
  ec_signature : Signature
}.

#[export] Instance EpochChange_eq_dec : EqDecision EpochChange.
Proof. solve_decision. Defined.
