(* ===== verification/ConsensusTypes.v ===== *)
(** * Types shared by the consensus protocols (ConsensusTypes)

    The modes, phases and timers of [src/src/peersafe/consensus/ConsensusTypes.h].
    [NetClock] times are 32-bit counts of seconds, readings of the steady clock
    are in nanoseconds and the durations measured with it in milliseconds. *)

From S2P Require Import Prelude HsTypes.

#[local] Open Scope Z_scope.

Inductive ConsensusMode := proposing | observing | wrongLedger | switchedLedger.

#[export] Instance ConsensusMode_eq_dec : EqDecision ConsensusMode.
Proof. solve_decision. Defined.

Inductive ConsensusPhase := ph_open | ph_establish | ph_accepted.

#[export] Instance ConsensusPhase_eq_dec : EqDecision ConsensusPhase.
Proof. solve_decision. Defined.

Inductive ConsensusState := cs_No | cs_MovedOn | cs_Yes.

#[export] Instance ConsensusState_eq_dec : EqDecision ConsensusState.
Proof. solve_decision. Defined.

Record ConsensusTimer := mkTimer {
  tm_start : Z;
  tm_dur : Z
}.

Definition tick_fixed (t : ConsensusTimer) (fixed : Z) : ConsensusTimer :=
  mkTimer (tm_start t) (tm_dur t + fixed).
Definition timer_reset (tp : Z) : ConsensusTimer := mkTimer tp 0.
Definition tick (t : ConsensusTimer) (tp : Z) : ConsensusTimer :=
  mkTimer (tm_start t) (Z.quot (tp - tm_start t) 1000000).

(** The close time estimates of the peers, with their multiplicities, and ours. *)
Record ConsensusCloseTimes := mkCloseTimes {
  ct_peers : gmap Z Z;
  ct_self : Z
}.

Definition closeAgree (l : LedgerInfo) : bool := Z.land (li_closeFlags l) 1 =? 0.
