(* ===== verification/HsVerifier.v ===== *)
(** * Verification of certificates

    [ValidatorVerifier] is the interface of ValidatorVerifier.h: what the
    HotStuff library asks of the application to sign, to check signatures and
    to weigh a set of signers.  The checks of certificates
    ([QuorumCertificate::Verify], [TimeoutCertificate::Verify],
    [SyncInfo::Verify], [EpochChange::verify]) are written against it, and
    [HotstuffVerifier] is the implementation [HotstuffConsensus] supplies, over
    the trusted keys and the quorum of [ValidatorList]. *)

From S2P Require Import Prelude HsTypes.

#[local] Open Scope Z_scope.

(** ** ValidatorVerifier.h *)

Class ValidatorVerifier := {
  Self : Author;
  signature : HashValue -> option Signature;
  verifySignature : Author -> Signature -> HashValue -> bool;
  verifySignature_block : Author -> Signature -> Block -> bool;
  verifySignature_vote : Author -> Signature -> Vote -> bool;
  verifyLedgerInfo : BlockInfo -> HashValue -> Signatures -> bool;
  checkVotingPower : Signatures -> bool
}.

(** A check over every entry of a [std::map], in the loop's conjunctive form. *)
Definition forall_sigs (f : Author -> Signature -> bool) (m : Signatures) : bool :=
  forallb (fun p => f p.1 p.2) (map_to_list m).

Lemma forall_sigs_spec f m :
  forall_sigs f m = true <-> forall a s, m !! a = Some s -> f a s = true.
Proof.
  unfold forall_sigs. rewrite forallb_forall. split.
  - intros H a s Hm. apply (H (a, s)).
    by apply list_elem_of_In, elem_of_map_to_list.
  - intros H [a s] Hin%list_elem_of_In%elem_of_map_to_list. by apply H.
Qed.

Section Checks.

Context {D : Digest} {V : ValidatorVerifier}.

(** ** timeout.h *)

Definition Timeout_sign (t : Timeout) : option Signature := signature (Timeout_hash t).

Definition Timeout_verify (t : Timeout) (author : Author) (s : Signature) : bool :=
  verifySignature author s (Timeout_hash t).

(** ** QuorumCert.cpp *)

Definition LedgerInfoWithSignatures_Verify (l : LedgerInfoWithSignatures) : bool :=
  verifyLedgerInfo (commit_info (ls_ledger_info l)) (consensus_data_hash (ls_ledger_info l))
    (ls_signatures l).

Definition QuorumCertificate_Verify (q : QuorumCertificate) : bool :=
  let vote_hash := VoteData_hash (qc_vote_data q) in
  if negb (consensus_data_hash (qc_ledger_info q) =? vote_hash) then false
  else if bi_round (certified_block q) =? 0 then
    if negb (bi_id (parent_block q) =? bi_id (certified_block q)) then false
    else if negb (bi_id (certified_block q) =? bi_id (qc_commit_info q)) then false
    else if negb (bool_decide (qc_signatures q = ∅)) then false
    else true
  else if negb (LedgerInfoWithSignatures_Verify (qc_signed_ledger_info q)) then false
  else if negb (VoteData_Verify (qc_vote_data q)) then false
  else true.

Definition TimeoutCertificate_Verify (c : TimeoutCertificate) : bool :=
  if bool_decide (tc_signatures c = ∅) then false
  else if negb (checkVotingPower (tc_signatures c)) then false
  else forall_sigs (Timeout_verify (tc_timeout c)) (tc_signatures c).

(** ** SyncInfo.cpp

    The result and the object afterwards: success is remembered in
    [verified]. *)

Definition SyncInfo_Verify (s : SyncInfo) : bool * SyncInfo :=
  if si_verified s then (true, s)
  else
    let hqc := si_highest_quorum_cert s in
    let hcc := si_HighestCommitCert s in
    let epoch := bi_epoch (certified_block hqc) in
    if negb (epoch =? bi_epoch (certified_block hcc)) then (false, s)
    else if match si_highest_timeout_cert s with
            | Some t => negb (epoch =? to_epoch (tc_timeout t))
            | None => false
            end then (false, s)
    else if bi_round (certified_block hqc) <? bi_round (certified_block hcc) then (false, s)
    else if negb (QuorumCertificate_Verify hqc) then (false, s)
    else if match si_highest_timeout_cert s with
            | Some t => negb (TimeoutCertificate_Verify t)
            | None => false
            end then (false, s)
    else (true, mkSyncInfo hqc (si_highest_commit_cert s) (si_highest_timeout_cert s) true).

(** ** EpochChange.cpp

    [serialize] is the boost archive of an [EpochChange] (external). *)

Definition EpochChange_hash (serialize : EpochChange -> Bytes) (e : EpochChange) : HashValue :=
  sha512_half (serialize e).

Definition EpochChange_verify (serialize : EpochChange -> Bytes) (e : EpochChange) : bool :=
  verifySignature (ec_author e) (ec_signature e)
    (EpochChange_hash serialize
       (mkEpochChange (ec_ledger_info e) (ec_author e) (ec_epoch e) (ec_round e) [])).

(** ** Block.cpp: a signed block *)

Definition new_from_block_data (d : BlockData) : Block :=
  let id := BlockData_hash d in
  mkBlock id d (signature id).

End Checks.

(** ** ValidatorList.cpp: quorum and leader schedule *)

(** [calculateQuorum]: [available] are the flags of the publisher lists; an
    unavailable list makes the quorum unreachable ([size_t] maximum). *)
Definition calculateQuorum (available : list bool) (unlSize : Z) : Z :=
  if forallb id available then
    if unlSize <? 4 then unlSize
    else
      let faultsSize := (unlSize - 1) / 3 in
      unlSize - faultsSize
  else 2 ^ 64 - 1.

(** [getLeaderPubKey] takes a 32-bit [LedgerIndex]: a round is truncated. *)
Definition getLeaderPubKey (validators : list Author) (seq : Z) : Author :=
  if (0 <? length validators)%nat then
    nth (Z.to_nat (u32 seq mod Z.of_nat (length validators))) validators []
  else [].

(** ** HotstuffConsensus.cpp: the verifier the node supplies

    [Keys] is what it takes from its collaborators: the node's key and signing
    primitive, the digest verification of [PublicKey.cpp], the ledger hash,
    and the trusted master keys, manifests and quorum of [ValidatorList]. *)

Record Keys := mkKeys {
  k_valPublic : Author;
  k_signDigest : HashValue -> Signature;
  k_verifyDigest : Author -> HashValue -> Signature -> bool;
  k_calculateLedgerHash : LedgerInfo -> HashValue;
  k_getMasterKey : Author -> Author;
  k_trustedMasterKeys : gset Author;
  k_quorum : Z
}.

Definition trusted (K : Keys) (identity : Author) : bool :=
  bool_decide (k_getMasterKey K identity ∈ k_trustedMasterKeys K).

Definition getTrustedKey (K : Keys) (identity : Author) : option Author :=
  let pubKey := k_getMasterKey K identity in
  if bool_decide (pubKey ∈ k_trustedMasterKeys K) then Some pubKey else None.

Definition Hc_verifySignature (K : Keys) (author : Author) (s : Signature) (digest : HashValue)
  : bool :=
  if trusted K author then k_verifyDigest K author digest s else false.

Definition Hc_verifySignature_block {D : Digest} (K : Keys) (author : Author) (s : Signature)
    (b : Block) : bool :=
  if negb (k_calculateLedgerHash K (getLedgerInfo (bk_block_data b))
             =? li_hash (getLedgerInfo (bk_block_data b))) then false
  else if negb (BlockData_hash (bk_block_data b) =? bk_id b) then false
  else k_verifyDigest K author (bk_id b) s.

Definition Hc_verifySignature_vote {D : Digest} (K : Keys) (author : Author) (s : Signature)
    (v : Vote) : bool :=
  if negb (VoteData_hash (vt_vote_data v) =? vote_digest v) then false
  else k_verifyDigest K author (vote_digest v) s.

Definition Hc_verifyLedgerInfo (K : Keys) (ci : BlockInfo) (digest : HashValue)
    (sigs : Signatures) : bool :=
  if negb (forall_sigs (fun a s =>
             match getTrustedKey K a with
             | None => false
             | Some _ => k_verifyDigest K a digest s
             end) sigs) then false
  else if Z.of_nat (size sigs) <? k_quorum K then false
  else true.

Definition Hc_checkVotingPower (K : Keys) (sigs : Signatures) : bool :=
  Z.of_nat (size sigs) >=? k_quorum K.

Definition HotstuffVerifier {D : Digest} (K : Keys) : ValidatorVerifier := {|
  Self := k_valPublic K;
  signature digest := Some (k_signDigest K digest);
  verifySignature := Hc_verifySignature K;
  verifySignature_block := Hc_verifySignature_block K;
  verifySignature_vote := Hc_verifySignature_vote K;
  verifyLedgerInfo := Hc_verifyLedgerInfo K;
  checkVotingPower := Hc_checkVotingPower K
|}.

(** * Properties *)

(** ** The digest of a vote *)

Lemma be_bytes_app_inj n x y l1 l2 :
  be_bytes n x ++ l1 = be_bytes n y ++ l2 -> be_bytes n x = be_bytes n y /\ l1 = l2.
Proof. intros H. apply app_inj_1 in H; [done|]. by rewrite !be_bytes_length. Qed.

(** A vote's fields fit the widths they are hashed at. *)
Definition hash_range (h : HashValue) : Prop := 0 <= h < 256 ^ 32.

Definition VoteData_ranges (v : VoteData) : Prop :=
  hash_range (bi_id (vd_proposed v)) /\ hash_range (bi_id (vd_parent v))
  /\ hash_range (li_hash (bi_ledger_info (vd_proposed v)))
  /\ hash_range (li_hash (bi_ledger_info (vd_parent v)))
  /\ 0 <= vd_tc v < 256 ^ 8.

Lemma VoteData_preimage_inj v w :
  VoteData_ranges v -> VoteData_ranges w ->
  VoteData_preimage v = VoteData_preimage w ->
  bi_id (vd_proposed v) = bi_id (vd_proposed w)
  /\ bi_id (vd_parent v) = bi_id (vd_parent w)
  /\ li_hash (bi_ledger_info (vd_proposed v)) = li_hash (bi_ledger_info (vd_proposed w))
  /\ li_hash (bi_ledger_info (vd_parent v)) = li_hash (bi_ledger_info (vd_parent w))
  /\ vd_tc v = vd_tc w
  /\ epoch_suffix (vd_proposed v) ++ epoch_suffix (vd_parent v)
     = epoch_suffix (vd_proposed w) ++ epoch_suffix (vd_parent w).
Proof.
  intros (A1 & A2 & A3 & A4 & A5) (B1 & B2 & B3 & B4 & B5) H.
  unfold VoteData_preimage, append_uint256, append_int64, hash_range in *.
  apply be_bytes_app_inj in H as [H1 H]. apply be_bytes_app_inj in H as [H2 H].
  apply be_bytes_app_inj in H as [H3 H]. apply be_bytes_app_inj in H as [H4 H].
  apply be_bytes_app_inj in H as [H5 H].
  repeat split; [eapply (be_bytes_inj 32).. | eapply (be_bytes_inj 8) |]; eauto.
Qed.

(** ** Quorum certificates *)

Lemma QuorumCertificate_Verify_spec {D : Digest} {V : ValidatorVerifier} q :
  QuorumCertificate_Verify q = true <->
  consensus_data_hash (qc_ledger_info q) = VoteData_hash (qc_vote_data q)
  /\ if decide (bi_round (certified_block q) = 0)
     then bi_id (parent_block q) = bi_id (certified_block q)
          /\ bi_id (certified_block q) = bi_id (qc_commit_info q)
          /\ qc_signatures q = ∅
     else LedgerInfoWithSignatures_Verify (qc_signed_ledger_info q) = true
          /\ VoteData_Verify (qc_vote_data q) = true.
Proof.
  unfold QuorumCertificate_Verify. case_decide as Hr; split.
  - repeat split_if; btests; done.
  - intros (-> & -> & -> & ->). rewrite !Z.eqb_refl. by rewrite (proj2 (Z.eqb_eq _ _) Hr).
  - repeat split_if; btests; naive_solver.
  - intros (-> & -> & ->). rewrite Z.eqb_refl. by rewrite (proj2 (Z.eqb_neq _ _) Hr).
Qed.

Lemma VoteData_Verify_spec v :
  VoteData_Verify v = true <->
  bi_epoch (vd_parent v) = bi_epoch (vd_proposed v)
  /\ bi_round (vd_parent v) < bi_round (vd_proposed v)
  /\ bi_timestamp_msecs (vd_parent v) <= bi_timestamp_msecs (vd_proposed v)
  /\ bi_version (vd_parent v) <= bi_version (vd_proposed v).
Proof. unfold VoteData_Verify. split; bsolve; intuition lia. Qed.

Lemma Hc_verifyLedgerInfo_spec K ci digest sigs :
  Hc_verifyLedgerInfo K ci digest sigs = true <->
  (forall a s, sigs !! a = Some s ->
     trusted K a = true /\ k_verifyDigest K a digest s = true)
  /\ k_quorum K <= Z.of_nat (size sigs).
Proof.
  assert (Hf : forall a s,
    match getTrustedKey K a with None => false | Some _ => k_verifyDigest K a digest s end = true
    <-> trusted K a = true /\ k_verifyDigest K a digest s = true).
  { intros a s. unfold getTrustedKey, trusted. case_bool_decide; naive_solver. }
  unfold Hc_verifyLedgerInfo.
  destruct (forall_sigs _ _) eqn:E; simpl.
  - rewrite forall_sigs_spec in E. destruct (Z.ltb_spec (Z.of_nat (size sigs)) (k_quorum K)).
    + split; [done | lia].
    + split; [|done]. intros _. split; [|done]. intros a s Ha. by apply Hf, E.
  - split; [done|]. intros [Hs _]. apply not_true_iff_false in E as [].
    apply forall_sigs_spec. intros a s Ha. by apply Hf, Hs.
Qed.

(** The certificate with another commit info, and with another round for the
    block it certifies: nothing else changes. *)
Definition with_commit_info (q : QuorumCertificate) (ci : BlockInfo) : QuorumCertificate :=
  mkQuorumCertificate (qc_vote_data q)
    (mkLedgerInfoWithSignatures (mkCommitLedgerInfo ci (consensus_data_hash (qc_ledger_info q)))
       (qc_signatures q)).

Definition with_round (b : BlockInfo) (r : Round) : BlockInfo :=
  mkBlockInfo (bi_epoch b) r (bi_id b) (bi_ledger_info b) (bi_version b)
    (bi_timestamp_msecs b) (bi_next_epoch_state b).

Definition with_certified_round (q : QuorumCertificate) (r : Round) : QuorumCertificate :=
  mkQuorumCertificate
    (VoteData_New (with_round (certified_block q) r) (parent_block q) (vd_tc (qc_vote_data q)))
    (qc_signed_ledger_info q).

Lemma with_certified_round_verify {D : Digest} K q r :
  bi_round (certified_block q) <> 0 -> r <> 0 -> bi_round (parent_block q) < r ->
  QuorumCertificate_Verify (V := HotstuffVerifier K) q = true ->
  QuorumCertificate_Verify (V := HotstuffVerifier K) (with_certified_round q r) = true.
Proof.
  intros Hr Hr' Hlt. rewrite !QuorumCertificate_Verify_spec.
  rewrite decide_False by done. rewrite decide_False by done.
  rewrite !VoteData_Verify_spec. unfold with_certified_round, parent_block, certified_block in *.
  simpl. intuition.
Qed.

(** ** Quorums and leaders *)

Lemma calculateQuorum_available n :
  calculateQuorum [] n = if n <? 4 then n else n - (n - 1) / 3.
Proof. done. Qed.

Lemma quorum_overlap (U X Y : gset Author) :
  (0 < size U)%nat -> X ⊆ U -> Y ⊆ U ->
  calculateQuorum [] (Z.of_nat (size U)) <= Z.of_nat (size X) ->
  calculateQuorum [] (Z.of_nat (size U)) <= Z.of_nat (size Y) ->
  (Z.of_nat (size U) - 1) / 3 < Z.of_nat (size (X ∩ Y)).
Proof.
  rewrite calculateQuorum_available. intros HU HX HY Hx Hy.
  pose proof (size_intersection_ge U X Y HX HY).
  destruct (Z.ltb_spec (Z.of_nat (size U)) 4) as [Hs|Hs].
  - assert ((Z.of_nat (size U) - 1) / 3 < Z.of_nat (size U)); [|lia].
    apply Z.div_lt_upper_bound; lia.
  - pose proof (Z.mul_div_le (Z.of_nat (size U) - 1) 3 ltac:(lia)). lia.
Qed.

(** An honest member in the intersection, when faults stay within the bound
    the quorum was computed for. *)
Lemma quorum_honest (U X Y byz : gset Author) :
  (0 < size U)%nat -> X ⊆ U -> Y ⊆ U ->
  Z.of_nat (size byz) <= (Z.of_nat (size U) - 1) / 3 ->
  calculateQuorum [] (Z.of_nat (size U)) <= Z.of_nat (size X) ->
  calculateQuorum [] (Z.of_nat (size U)) <= Z.of_nat (size Y) ->
  exists a, a ∈ X /\ a ∈ Y /\ a ∉ byz.
Proof.
  intros HU HX HY Hb Hx Hy.
  pose proof (quorum_overlap U X Y HU HX HY Hx Hy) as Ho.
  destruct (decide (X ∩ Y ⊆ byz)) as [Hsub|Hn].
  - apply subseteq_size in Hsub. lia.
  - destruct (set_choose_L ((X ∩ Y) ∖ byz)) as [a Ha]; [|set_solver].
    intros He. apply Hn. set_solver.
Qed.

Lemma getLeaderPubKey_mem vs r : vs <> [] -> getLeaderPubKey vs r ∈ vs.
Proof.
  intros Hv. unfold getLeaderPubKey.
  destruct vs as [|v vs]; [done|].
  replace (0 <? length (v :: vs))%nat with true by done.
  apply list_elem_of_In, nth_In.
  pose proof (Z.mod_pos_bound (u32 r) (Z.of_nat (length (v :: vs))) ltac:(simpl; lia)). lia.
Qed.

Lemma getLeaderPubKey_index vs r i v :
  0 <= r < 2 ^ 32 -> r mod Z.of_nat (length vs) = Z.of_nat i -> vs !! i = Some v ->
  getLeaderPubKey vs r = v.
Proof.
  intros Hr Hm Hi. pose proof (lookup_lt_Some _ _ _ Hi) as Hl.
  unfold getLeaderPubKey. rewrite u32_small by done.
  destruct (Nat.ltb_spec 0 (length vs)); [|lia].
  rewrite Hm, Nat2Z.id. apply nth_lookup_Some with (d := []) in Hi. done.
Qed.

(** ** A small network, for evaluation

    Four validators with one-byte keys; the signature of [a] on [d] is [a]
    followed by [d]; the digest reads a byte string as a number. *)

Module Toy.

Definition digest : Digest := fun bs => be_value (1 :: bs).

Definition validators : list Author := [[1]; [2]; [3]; [4]].

Definition sign (a : Author) (d : HashValue) : Signature := a ++ [d].

Definition keys (self : Author) : Keys :=
  mkKeys self (sign self) (fun a d s => bool_decide (s = sign a d)) (fun li => li_hash li)
    id (list_to_set validators) (calculateQuorum [] 4).

(** The certificate of the first three validators on [vd], committing [ci]. *)
Definition certificate (vd : VoteData) (ci : BlockInfo) : QuorumCertificate :=
  let d := VoteData_hash (D := digest) vd in
  mkQuorumCertificate vd
    (mkLedgerInfoWithSignatures (mkCommitLedgerInfo ci d)
       (list_to_map ((fun a => (a, sign a d)) <$> [[1]; [2]; [3]]))).

Definition block_info (round id : Z) : BlockInfo :=
  mkBlockInfo 0 round id LedgerInfo_default 0 0 None.

Definition vote_data : VoteData := VoteData_New (block_info 2 22) (block_info 1 11) 0.

End Toy.

(** ** Theorems *)

(** A certificate of a block after genesis passes
    [QuorumCertificate::Verify] exactly when its digest is that of its vote
    data, every signer is a trusted validator whose signature on that digest
    is valid, at least a quorum signed, and the certified block follows its
    parent in the same epoch with a larger round and no earlier timestamp or
    version. *)
Theorem qc_verify_iff {D : Digest} (K : Keys) (q : QuorumCertificate) :
  bi_round (certified_block q) <> 0 ->
  QuorumCertificate_Verify (V := HotstuffVerifier K) q = true <->
  consensus_data_hash (qc_ledger_info q) = VoteData_hash (qc_vote_data q)
  /\ (forall a s, qc_signatures q !! a = Some s ->
        trusted K a = true
        /\ k_verifyDigest K a (VoteData_hash (qc_vote_data q)) s = true)
  /\ k_quorum K <= Z.of_nat (size (qc_signatures q))
  /\ bi_epoch (parent_block q) = bi_epoch (certified_block q)
  /\ bi_round (parent_block q) < bi_round (certified_block q)
  /\ bi_timestamp_msecs (parent_block q) <= bi_timestamp_msecs (certified_block q)
  /\ bi_version (parent_block q) <= bi_version (certified_block q).
Proof.
  intros Hr. rewrite QuorumCertificate_Verify_spec, decide_False by done.
  rewrite VoteData_Verify_spec. unfold LedgerInfoWithSignatures_Verify. simpl.
  rewrite Hc_verifyLedgerInfo_spec. unfold qc_ledger_info, qc_signatures.
  split.
  - intros (E & (Hs & Hq) & Hv). rewrite <- E. done.
  - intros (E & Hs & Hq & Hv). rewrite <- E in Hs. done.
Qed.

Lemma qc_verify_iff_witness :
  QuorumCertificate_Verify (D := Toy.digest) (V := HotstuffVerifier (D := Toy.digest) (Toy.keys [1]))
    (Toy.certificate Toy.vote_data (Toy.block_info 0 0)) = true
  /\ 3 <= Z.of_nat (size (qc_signatures (Toy.certificate Toy.vote_data (Toy.block_info 0 0)))).
Proof.
  split; [by vm_compute|].
  apply (qc_verify_iff (D := Toy.digest) (Toy.keys [1])
           (Toy.certificate Toy.vote_data (Toy.block_info 0 0))); [done | by vm_compute].
Defined.

(** The commit info of a certificate is not covered by what the
    validators sign: after genesis, replacing it by any block info leaves the
    outcome of the verification unchanged. *)
Theorem qc_verify_ignores_commit_info {D : Digest} (K : Keys) (q : QuorumCertificate)
    (ci : BlockInfo) :
  bi_round (certified_block q) <> 0 ->
  QuorumCertificate_Verify (V := HotstuffVerifier K) (with_commit_info q ci)
  = QuorumCertificate_Verify (V := HotstuffVerifier K) q.
Proof.
  intros Hr. unfold QuorumCertificate_Verify, with_commit_info. simpl.
  apply Z.eqb_neq in Hr. unfold certified_block in *. simpl. by rewrite Hr.
Qed.

Lemma qc_verify_ignores_commit_info_witness :
  QuorumCertificate_Verify (D := Toy.digest) (V := HotstuffVerifier (D := Toy.digest) (Toy.keys [1]))
    (with_commit_info (Toy.certificate Toy.vote_data (Toy.block_info 0 0)) (Toy.block_info 7 99))
  = true.
Proof.
  rewrite (qc_verify_ignores_commit_info (D := Toy.digest) (Toy.keys [1])); [by vm_compute | done].
Defined.

(** Any two quorums of a validator list intersect in a validator outside
    any set of at most [(n - 1) / 3] faulty ones: the threshold
    [calculateQuorum] computes is a Byzantine quorum, for every size of the
    list. *)
Theorem quorum_intersection (U X Y byz : gset Author) :
  (0 < size U)%nat -> X ⊆ U -> Y ⊆ U ->
  Z.of_nat (size byz) <= (Z.of_nat (size U) - 1) / 3 ->
  calculateQuorum [] (Z.of_nat (size U)) <= Z.of_nat (size X) ->
  calculateQuorum [] (Z.of_nat (size U)) <= Z.of_nat (size Y) ->
  exists a, a ∈ X /\ a ∈ Y /\ a ∉ byz.
Proof. apply quorum_honest. Qed.

Lemma quorum_intersection_witness :
  exists a, a ∈ ({[ [1]; [2]; [3] ]} : gset Author) /\ a ∈ ({[ [2]; [3]; [4] ]} : gset Author)
            /\ a ∉ ({[ [3] ]} : gset Author).
Proof.
  apply (quorum_intersection {[ [1]; [2]; [3]; [4] ]});
    [vm_compute; lia | set_solver | set_solver | vm_compute; discriminate ..].
Defined.

(** Leadership rotates: below the 32-bit bound of [LedgerIndex], every
    validator leads one of any [n] consecutive rounds of a list of [n]
    validators. *)
Theorem leader_rotation (vs : list Author) (v : Author) (r : Round) :
  v ∈ vs -> 0 <= r -> r + Z.of_nat (length vs) < 2 ^ 32 ->
  exists k, (k < length vs)%nat /\ getLeaderPubKey vs (r + Z.of_nat k) = v.
Proof.
  intros [i Hi]%list_elem_of_lookup Hr Hb.
  pose proof (lookup_lt_Some _ _ _ Hi) as Hl.
  set (n := Z.of_nat (length vs)) in *.
  pose proof (Z.mod_pos_bound (Z.of_nat i - r) n ltac:(lia)) as Hk.
  exists (Z.to_nat ((Z.of_nat i - r) mod n)). rewrite Z2Nat.id by lia. split; [lia|].
  eapply getLeaderPubKey_index; [lia | | exact Hi]. fold n.
  rewrite Zplus_mod_idemp_r. replace (r + (Z.of_nat i - r)) with (Z.of_nat i) by lia.
  apply Z.mod_small. lia.
Qed.

Lemma leader_rotation_witness :
  exists k, (k < 4)%nat /\ getLeaderPubKey Toy.validators (10 + Z.of_nat k) = [2].
Proof.
  apply (leader_rotation Toy.validators [2] 10);
    [apply list_elem_of_In; simpl; auto | done | done].
Defined.
