(* ===== verification/HsCore.v ===== *)
(** * The safety rules (HotstuffCore)

    [HotstuffCore] decides what a validator signs.  Its state is [SafetyData]:
    the epoch, the last voted round, the preferred round (the round of the
    grandparent a certified chain has locked the validator on) and the last
    vote.  Every operation below is the method of the same name of
    HotstuffCore.cpp, over the verifier interface and the [verify] callback of
    the application. *)

From S2P Require Import Prelude HsTypes HsVerifier.

#[local] Open Scope Z_scope.

Record SafetyData := mkSafetyData {
  sd_epoch : Epoch;
  sd_last_voted_round : Round;
  sd_preferred_round : Round;
  sd_last_vote : option Vote
}.

Definition SafetyData_default : SafetyData := mkSafetyData 0 0 0 None.

Definition set_last_voted_round (sd : SafetyData) (r : Round) : SafetyData :=
  mkSafetyData (sd_epoch sd) r (sd_preferred_round sd) (sd_last_vote sd).

Definition set_preferred_round (sd : SafetyData) (r : Round) : SafetyData :=
  mkSafetyData (sd_epoch sd) (sd_last_voted_round sd) r (sd_last_vote sd).

Definition set_last_vote (sd : SafetyData) (v : Vote) : SafetyData :=
  mkSafetyData (sd_epoch sd) (sd_last_voted_round sd) (sd_preferred_round sd) (Some v).

Section Core.

Context {D : Digest} {V : ValidatorVerifier}.
(** [StateCompute::verify], and the epoch state the core was given. *)
Context (app_verify : Block -> StateComputeResult -> bool) (epoch_state : EpochState).

Definition Initialize (sd : SafetyData) (epoch : Epoch) (round : Round) : SafetyData :=
  mkSafetyData epoch round round None.

Definition VerifyEpoch (epoch : Epoch) : bool := es_epoch epoch_state =? epoch.

Definition SignProposal (sd : SafetyData) (proposal : BlockData) : Block :=
  if negb (VerifyEpoch (bd_epoch proposal)) then Block_empty
  else if bd_round proposal <=? sd_last_voted_round sd then Block_empty
  else new_from_block_data proposal.

Definition VerifyQC (qc : QuorumCertificate) : bool :=
  let hash := VoteData_hash (qc_vote_data qc) in
  if (bi_round (certified_block qc) >? 0)
     && negb (consensus_data_hash (qc_ledger_info qc) =? hash) then false
  else forall_sigs (fun a s => verifySignature a s hash) (qc_signatures qc).

Definition VerifyAndUpdatePreferredRound (sd : SafetyData) (qc : QuorumCertificate)
  : bool * SafetyData :=
  let preferred_round := sd_preferred_round sd in
  let one_chain_round := bi_round (certified_block qc) in
  let two_chain_round := bi_round (parent_block qc) in
  if one_chain_round <? preferred_round then (false, sd)
  else if two_chain_round >? preferred_round then (true, set_preferred_round sd two_chain_round)
  else (true, sd).

Definition VerifyAndUpdateLastVoteRound (sd : SafetyData) (round : Round) : bool * SafetyData :=
  if round >? sd_last_voted_round sd then (true, set_last_voted_round sd round)
  else (false, sd).

Definition ExtensionCheck (eb : ExecutedBlock) : bool * VoteData :=
  let proposed_block := eb_block eb in
  if negb (app_verify proposed_block (eb_result eb)) then
    (false, VoteData_New (BlockInfo_new ZeroHash) (BlockInfo_new ZeroHash) 0)
  else
    (true,
     VoteData_New
       (gen_block_info proposed_block (sc_ledger_info (eb_result eb))
          (sc_epoch_state (eb_result eb)))
       (certified_block (bk_qc proposed_block))
       (vd_tc (qc_vote_data (bk_qc proposed_block)))).

(** The 3-chain rule: the grandparent is committed when the three rounds are
    consecutive. *)
Definition ConstructLedgerInfo (proposed_block : Block) : CommitLedgerInfo :=
  let block2 := bk_round proposed_block in
  let block1 := bi_round (certified_block (bk_qc proposed_block)) in
  let block0 := bi_round (parent_block (bk_qc proposed_block)) in
  let commit := (block0 + 1 =? block1) && (block1 + 1 =? block2) in
  if commit then mkCommitLedgerInfo (parent_block (bk_qc proposed_block)) ZeroHash
  else mkCommitLedgerInfo (BlockInfo_new ZeroHash) ZeroHash.

(** The part of [ConstructAndSignVote] after the voting rules: build, sign and
    remember the vote. *)
Definition signVote (now : Z) (sd : SafetyData) (eb : ExecutedBlock)
  : option Vote * SafetyData :=
  let result := ExtensionCheck eb in
  if negb result.1 then (None, sd)
  else
    let vote_data := result.2 in
    let ledger_info := ConstructLedgerInfo (eb_block eb) in
    let hash := VoteData_hash vote_data in
    match signature hash with
    | None => (None, sd)
    | Some s =>
        let vote :=
          Vote_New now Self vote_data (mkCommitLedgerInfo (commit_info ledger_info) hash) s in
        (Some vote, set_last_vote sd vote)
    end.

Definition ConstructAndSignVote (now : Z) (sd : SafetyData) (eb : ExecutedBlock)
  : option Vote * SafetyData :=
  let d := bk_block_data (eb_block eb) in
  if negb (VerifyEpoch (bd_epoch d)) then (None, sd)
  else if negb (VerifyQC (bd_quorum_cert d)) then (None, sd)
  else
    let (ok, sd1) := VerifyAndUpdatePreferredRound sd (bd_quorum_cert d) in
    if negb ok then (None, sd1)
    else
      match sd_last_vote sd1 with
      | Some last_vote =>
          if vote_parent_round last_vote >? 0 then
            if vote_round last_vote =? bd_round d then
              (Some last_vote, set_last_voted_round sd1 (bd_round d))
            else
              let (ok2, sd2) := VerifyAndUpdateLastVoteRound sd1 (bd_round d) in
              if negb ok2 then (None, sd2) else signVote now sd2 eb
          else signVote now sd1 eb
      | None => signVote now sd1 eb
      end.

(** The vote re-signed with another timeout count; a failed signature leaves
    the empty buffer. *)
Definition resetVoteTimeoutCount (now : Z) (vote : Vote) (tc : Z) : Vote :=
  let vote_data :=
    VoteData_New (vd_proposed (vt_vote_data vote)) (vd_parent (vt_vote_data vote)) tc in
  let hash := VoteData_hash vote_data in
  let s := match signature hash with Some s => s | None => [] end in
  Vote_New now Self vote_data (mkCommitLedgerInfo (commit_info (vt_ledger_info vote)) hash) s.

(** Whether the call answers with the remembered vote instead of signing. *)
Definition repeats (sd : SafetyData) (eb : ExecutedBlock) : bool :=
  match sd_last_vote sd with
  | Some lv => (vote_parent_round lv >? 0) && (vote_round lv =? bk_round (eb_block eb))
  | None => false
  end.

(** A run of the core: the state after a sequence of calls of
    [ConstructAndSignVote], each with the time it happens; the votes returned;
    and the freshly signed ones with the blocks they were signed for. *)
Definition voteStep (sd : SafetyData) (call : Z * ExecutedBlock) : SafetyData :=
  (ConstructAndSignVote call.1 sd call.2).2.

Definition voteState : SafetyData -> list (Z * ExecutedBlock) -> SafetyData :=
  foldl voteStep.

Fixpoint voteRun (sd : SafetyData) (calls : list (Z * ExecutedBlock)) : list Vote :=
  match calls with
  | [] => []
  | call :: calls' =>
      option_list (ConstructAndSignVote call.1 sd call.2).1 ++ voteRun (voteStep sd call) calls'
  end.

Definition signStep (sd : SafetyData) (call : Z * ExecutedBlock) : list (Block * Vote) :=
  if repeats sd call.2 then []
  else (fun v => (eb_block call.2, v)) <$> option_list (ConstructAndSignVote call.1 sd call.2).1.

Fixpoint signLog (sd : SafetyData) (calls : list (Z * ExecutedBlock)) : list (Block * Vote) :=
  match calls with
  | [] => []
  | call :: calls' => signStep sd call ++ signLog (voteStep sd call) calls'
  end.

(** ** The outcomes of a call *)

(** What every vote requires of its block. *)
Record admissible (sd : SafetyData) (b : Block) : Prop := {
  adm_epoch : bd_epoch (bk_block_data b) = es_epoch epoch_state;
  adm_qc : VerifyQC (bk_qc b) = true;
  adm_preferred : sd_preferred_round sd <= bi_round (certified_block (bk_qc b))
}.

(** The lock after a block was admitted. *)
Definition locked (sd : SafetyData) (b : Block) : Round :=
  Z.max (sd_preferred_round sd) (bi_round (parent_block (bk_qc b))).

(** The vote signed for an executed block. *)
Record signs (eb : ExecutedBlock) (v : Vote) : Prop := {
  sg_app : app_verify (eb_block eb) (eb_result eb) = true;
  sg_vote_data : vt_vote_data v = (ExtensionCheck eb).2;
  sg_author : vt_author v = Self;
  sg_digest : vote_digest v = VoteData_hash (vt_vote_data v);
  sg_commit : commit_info (vt_ledger_info v) = commit_info (ConstructLedgerInfo (eb_block eb));
  sg_signature : signature (VoteData_hash (vt_vote_data v)) = Some (vt_signature v);
  sg_timeout : vt_timeout_signature v = None
}.

Inductive outcome (sd : SafetyData) (eb : ExecutedBlock) : option Vote -> SafetyData -> Prop :=
| out_refused sd' :
    sd_last_vote sd' = sd_last_vote sd ->
    sd_preferred_round sd <= sd_preferred_round sd' ->
    sd_last_voted_round sd <= sd_last_voted_round sd' ->
    outcome sd eb None sd'
| out_repeated lv :
    repeats sd eb = true ->
    sd_last_vote sd = Some lv ->
    admissible sd (eb_block eb) ->
    outcome sd eb (Some lv)
      (mkSafetyData (sd_epoch sd) (bk_round (eb_block eb)) (locked sd (eb_block eb)) (Some lv))
| out_signed v lvr :
    repeats sd eb = false ->
    admissible sd (eb_block eb) ->
    signs eb v ->
    match sd_last_vote sd with
    | Some lv =>
        if decide (0 < vote_parent_round lv)
        then sd_last_voted_round sd < bk_round (eb_block eb) /\ lvr = bk_round (eb_block eb)
        else lvr = sd_last_voted_round sd
    | None => lvr = sd_last_voted_round sd
    end ->
    outcome sd eb (Some v) (mkSafetyData (sd_epoch sd) lvr (locked sd (eb_block eb)) (Some v)).

Lemma preferred_round_update sd qc :
  VerifyAndUpdatePreferredRound sd qc =
  if bi_round (certified_block qc) <? sd_preferred_round sd then (false, sd)
  else (true, set_preferred_round sd (Z.max (sd_preferred_round sd) (bi_round (parent_block qc)))).
Proof.
  unfold VerifyAndUpdatePreferredRound. destruct sd as [e l p v]; simpl.
  destruct (Z.ltb_spec (bi_round (certified_block qc)) p); [done|].
  rewrite Z.gtb_ltb. destruct (Z.ltb_spec p (bi_round (parent_block qc)));
    unfold set_preferred_round; simpl; do 2 f_equal; lia.
Qed.

Lemma signVote_outcome now sd eb :
  match signVote now sd eb with
  | (None, sd') => sd' = sd
  | (Some v, sd') => signs eb v /\ sd' = set_last_vote sd v
  end.
Proof.
  unfold signVote. destruct (ExtensionCheck eb) as [ok vd] eqn:E. simpl.
  destruct ok; simpl; [|done].
  destruct (signature (VoteData_hash vd)) as [s|] eqn:Es; [|done].
  split; [|done]. unfold ExtensionCheck in E.
  destruct (app_verify (eb_block eb) (eb_result eb)) eqn:Ea; simpl in E; [|done].
  injection E as <-. split; simpl; try done. unfold ExtensionCheck. by rewrite Ea.
Qed.

(** Signing after the checks: [sd2] is the state the checks left. *)
Lemma signVote_after_checks now sd sd2 eb :
  sd_epoch sd2 = sd_epoch sd -> sd_preferred_round sd2 = locked sd (eb_block eb) ->
  sd_last_vote sd2 = sd_last_vote sd -> sd_last_voted_round sd <= sd_last_voted_round sd2 ->
  repeats sd eb = false -> admissible sd (eb_block eb) ->
  match sd_last_vote sd with
  | Some lv =>
      if decide (0 < vote_parent_round lv)
      then sd_last_voted_round sd < bk_round (eb_block eb)
           /\ sd_last_voted_round sd2 = bk_round (eb_block eb)
      else sd_last_voted_round sd2 = sd_last_voted_round sd
  | None => sd_last_voted_round sd2 = sd_last_voted_round sd
  end ->
  outcome sd eb (signVote now sd2 eb).1 (signVote now sd2 eb).2.
Proof.
  intros E1 E2 E3 E4 Hr Ha Hl. pose proof (signVote_outcome now sd2 eb) as Hs.
  destruct (signVote now sd2 eb) as [[v|] sd']; simpl; [destruct Hs as [Hs ->] | subst sd'].
  - unfold set_last_vote. rewrite E1, E2. by constructor.
  - constructor; rewrite ?E2; try done. unfold locked. lia.
Qed.

Lemma ConstructAndSignVote_outcome now sd eb :
  outcome sd eb (ConstructAndSignVote now sd eb).1 (ConstructAndSignVote now sd eb).2.
Proof.
  unfold ConstructAndSignVote. set (b := eb_block eb).
  assert (Hrefuse : outcome sd eb None sd) by (apply out_refused; [done | lia | lia]).
  destruct (VerifyEpoch _) eqn:He; simpl; [|done].
  destruct (VerifyQC _) eqn:Hq; simpl; [|done].
  rewrite preferred_round_update.
  destruct (Z.ltb_spec (bi_round (certified_block (bk_qc b))) (sd_preferred_round sd)) as [|Hp];
    simpl; [done|].
  assert (Ha : admissible sd b).
  { split; [|done|done]. symmetry. by apply Z.eqb_eq. }
  fold (locked sd b). set (sd1 := set_preferred_round sd (locked sd b)).
  destruct (sd_last_vote sd) as [lv|] eqn:El; last first.
  { apply signVote_after_checks; rewrite ?El; try done. unfold repeats. by rewrite El. }
  rewrite Z.gtb_ltb. destruct (Z.ltb_spec 0 (vote_parent_round lv)) as [Hlt|Hge].
  - destruct (Z.eqb_spec (vote_round lv) (bd_round (bk_block_data b))) as [Heq|Hne]; simpl.
    + unfold set_last_voted_round. simpl. rewrite El. constructor; try done.
      unfold repeats. rewrite El. apply andb_true_iff. split; [lia|]. by apply Z.eqb_eq.
    + unfold VerifyAndUpdateLastVoteRound. simpl. rewrite Z.gtb_ltb.
      destruct (Z.ltb_spec (sd_last_voted_round sd) (bd_round (bk_block_data b))); simpl.
      * apply signVote_after_checks; rewrite ?El; simpl; try done; try lia;
          [|by rewrite decide_True].
        unfold repeats. rewrite El. apply andb_false_iff. right. by apply Z.eqb_neq.
      * constructor; simpl; try done; unfold locked; lia.
  - apply signVote_after_checks; rewrite ?El; simpl; try done; try lia;
      [|rewrite decide_False; [done | lia]].
    unfold repeats. rewrite El. apply andb_false_iff. left. lia.
Qed.

(** ** Invariants of a run *)

(** The rules are armed once the last vote extends a block after genesis, its
    round is recorded, and the lock has left genesis. *)
Definition armed (sd : SafetyData) : Prop :=
  0 < sd_preferred_round sd
  /\ exists lv, sd_last_vote sd = Some lv /\ 0 < vote_parent_round lv
                /\ vote_round lv <= sd_last_voted_round sd.

Lemma signs_round eb v : signs eb v -> vote_round v = bk_round (eb_block eb).
Proof.
  intros [Ha Hv _ _ _ _ _]. unfold vote_round. rewrite Hv.
  unfold ExtensionCheck. by rewrite Ha.
Qed.

Lemma signs_proposed eb v :
  signs eb v -> vd_proposed (vt_vote_data v)
  = gen_block_info (eb_block eb) (sc_ledger_info (eb_result eb)) (sc_epoch_state (eb_result eb)).
Proof. intros [Ha Hv _ _ _ _ _]. rewrite Hv. unfold ExtensionCheck. by rewrite Ha. Qed.

Lemma signs_parent eb v :
  signs eb v -> vd_parent (vt_vote_data v) = certified_block (bk_qc (eb_block eb)).
Proof. intros [Ha Hv _ _ _ _ _]. rewrite Hv. unfold ExtensionCheck. by rewrite Ha. Qed.

Lemma signs_parent_round eb v :
  signs eb v -> vote_parent_round v = bi_round (certified_block (bk_qc (eb_block eb))).
Proof. intros H. unfold vote_parent_round. by rewrite (signs_parent _ _ H). Qed.

Lemma voteStep_outcome sd call :
  outcome sd call.2 (ConstructAndSignVote call.1 sd call.2).1 (voteStep sd call).
Proof. apply ConstructAndSignVote_outcome. Qed.

Lemma voteStep_preferred sd call :
  sd_preferred_round sd <= sd_preferred_round (voteStep sd call).
Proof.
  destruct (voteStep_outcome sd call); simpl; unfold locked; lia.
Qed.

Lemma voteStep_armed sd call : armed sd -> armed (voteStep sd call).
Proof.
  intros (Hp & lv & El & Hpar & Hl). unfold armed.
  pose proof (voteStep_preferred sd call). split; [lia|].
  destruct (voteStep_outcome sd call) as [sd' E1 E2 E3 | lv' Hr El' [_ _ Ha] | v lvr Hr [_ _ Ha] Hs Hlv];
    simpl in *.
  - exists lv. rewrite E1. repeat split; try done. lia.
  - simplify_eq. exists lv. unfold repeats in Hr. rewrite El in Hr. btests. repeat split; try done; lia.
  - exists v. rewrite El, decide_True in Hlv by done. destruct Hlv as [Hlt ->].
    rewrite (signs_parent_round _ _ Hs), (signs_round _ _ Hs). repeat split; try done; lia.
Qed.

(** A call that is in order although the rules are not armed: it is not behind
    the last vote, and strictly ahead of a vote that extends genesis. *)
Definition in_order (sd : SafetyData) (eb : ExecutedBlock) : Prop :=
  match sd_last_vote sd with
  | Some lv =>
      vote_round lv <= bk_round (eb_block eb)
      /\ (vote_parent_round lv <= 0 -> vote_round lv < bk_round (eb_block eb))
  | None => True
  end.

Fixpoint safe_calls (sd : SafetyData) (calls : list (Z * ExecutedBlock)) : Prop :=
  match calls with
  | [] => True
  | call :: calls' => (armed sd \/ in_order sd call.2) /\ safe_calls (voteStep sd call) calls'
  end.

Lemma armed_safe_calls sd calls : armed sd -> safe_calls sd calls.
Proof.
  revert sd. induction calls as [|call calls IH]; intros sd Ha; simpl; [done|].
  split; [by left|]. by apply IH, voteStep_armed.
Qed.

(** Every round up to [r] is behind the state's last vote. *)
Definition voted_at_least (sd : SafetyData) (r : Round) : Prop :=
  exists lv, sd_last_vote sd = Some lv /\ r <= vote_round lv.

Lemma signed_ahead sd call v r :
  armed sd \/ in_order sd call.2 -> voted_at_least sd r ->
  (eb_block call.2, v) ∈ signStep sd call -> r < vote_round v.
Proof.
  intros Hsafe (lv & El & Hr). unfold signStep. intros Hin.
  destruct (voteStep_outcome sd call) as [sd' | lv' Hrep | w lvr Hrep Ha Hs Hlv];
    [by destruct (repeats _ _); simpl in Hin; apply elem_of_nil in Hin
    | by rewrite Hrep in Hin; apply elem_of_nil in Hin |].
  rewrite Hrep in Hin. simpl in Hin. apply list_elem_of_singleton in Hin. simplify_eq.
  rewrite (signs_round _ _ Hs). unfold repeats in Hrep. rewrite El in Hrep, Hlv.
  destruct Hsafe as [(_ & lv'' & El' & Hp & Hle) | Ho].
  - simplify_eq. rewrite decide_True in Hlv by done. lia.
  - unfold in_order in Ho. rewrite El in Ho. case_decide; btests; lia.
Qed.

Lemma voteStep_voted sd call r :
  (armed sd \/ in_order sd call.2) -> voted_at_least sd r -> voted_at_least (voteStep sd call) r.
Proof.
  intros Hsafe Hv. pose proof Hv as (lv & El & Hr).
  pose proof (signed_ahead sd call) as Hahead. unfold signStep, voted_at_least in *.
  destruct (voteStep_outcome sd call) as [sd' E1 | lv' Hrep El' | w lvr Hrep Ha Hs Hlv]; simpl in *.
  - exists lv. by rewrite E1.
  - exists lv. by simplify_eq.
  - exists w. split; [done|]. apply Z.lt_le_incl, (Hahead w r); [done | by exists lv |].
    rewrite Hrep. simpl. by apply list_elem_of_singleton.
Qed.

Lemma signStep_spec sd call b v :
  (b, v) ∈ signStep sd call ->
  b = eb_block call.2 /\ signs call.2 v /\ admissible sd b
  /\ sd_last_vote (voteStep sd call) = Some v
  /\ sd_preferred_round (voteStep sd call) = locked sd b.
Proof.
  unfold signStep. intros Hin.
  destruct (voteStep_outcome sd call) as [sd' | lv' Hrep | w lvr Hrep Ha Hs Hlv];
    [by destruct (repeats _ _); simpl in Hin; apply elem_of_nil in Hin
    | by rewrite Hrep in Hin; apply elem_of_nil in Hin |].
  rewrite Hrep in Hin. simpl in Hin. apply list_elem_of_singleton in Hin. by simplify_eq.
Qed.

(** The log is strictly ordered by round, and ahead of what was voted before. *)
Lemma signLog_ahead sd calls r b v :
  safe_calls sd calls -> voted_at_least sd r -> (b, v) ∈ signLog sd calls -> r < vote_round v.
Proof.
  revert sd. induction calls as [|call calls IH]; intros sd Hs Hv Hin; simpl in *;
    [by apply elem_of_nil in Hin|].
  destruct Hs as [Hc Hs]. apply elem_of_app in Hin as [Hin|Hin].
  - destruct (signStep_spec _ _ _ _ Hin) as (-> & _). by eapply signed_ahead.
  - eapply IH; [done | by apply voteStep_voted | done].
Qed.

(** The lock only rises, so a later block's certificate is at or above it. *)
Lemma signLog_preferred sd calls b v :
  (b, v) ∈ signLog sd calls -> sd_preferred_round sd <= bi_round (certified_block (bk_qc b)).
Proof.
  revert sd. induction calls as [|call calls IH]; intros sd Hin; simpl in *;
    [by apply elem_of_nil in Hin|].
  apply elem_of_app in Hin as [Hin|Hin].
  - by destruct (signStep_spec _ _ _ _ Hin) as (_ & _ & [_ _ ?] & _).
  - pose proof (voteStep_preferred sd call). apply IH in Hin. lia.
Qed.

Lemma signLog_signs sd calls b v :
  (b, v) ∈ signLog sd calls -> exists eb, eb_block eb = b /\ signs eb v /\ VerifyQC (bk_qc b) = true.
Proof.
  revert sd. induction calls as [|call calls IH]; intros sd Hin; simpl in *;
    [by apply elem_of_nil in Hin|].
  apply elem_of_app in Hin as [Hin|Hin]; [|by eapply IH].
  destruct (signStep_spec _ _ _ _ Hin) as (-> & Hs & [_ Hq _] & _). by exists call.2.
Qed.

(** Two entries of a log: the same, or one before the other. *)
Definition before (x y : Block * Vote) : Prop :=
  vote_round x.2 < vote_round y.2
  /\ bi_round (parent_block (bk_qc x.1)) <= bi_round (certified_block (bk_qc y.1)).

Lemma signStep_before sd call calls x y :
  safe_calls (voteStep sd call) calls -> x ∈ signStep sd call ->
  y ∈ signLog (voteStep sd call) calls -> before x y.
Proof.
  destruct x as [b1 v1], y as [b2 v2]. intros Hs H1 H2.
  destruct (signStep_spec _ _ _ _ H1) as (-> & Hsg & Ha & El & Hp). split; simpl.
  - eapply signLog_ahead; [done | | done]. exists v1. split; [done | lia].
  - apply signLog_preferred in H2. rewrite Hp in H2. unfold locked in H2. lia.
Qed.

Lemma signStep_unique sd call x y : x ∈ signStep sd call -> y ∈ signStep sd call -> x = y.
Proof.
  unfold signStep. destruct (repeats _ _); [by intros ?%elem_of_nil|].
  destruct (ConstructAndSignVote _ _ _).1; simpl; [|by intros ?%elem_of_nil].
  by intros ->%list_elem_of_singleton ->%list_elem_of_singleton.
Qed.

Lemma signLog_ordered sd calls x y :
  safe_calls sd calls -> x ∈ signLog sd calls -> y ∈ signLog sd calls ->
  x = y \/ before x y \/ before y x.
Proof.
  revert sd. induction calls as [|call calls IH]; intros sd Hs Hx Hy; simpl in *;
    [by apply elem_of_nil in Hx|].
  destruct Hs as [Hc Hs].
  apply elem_of_app in Hx as [Hx|Hx]; apply elem_of_app in Hy as [Hy|Hy].
  - left. by eapply signStep_unique.
  - right. left. by eapply signStep_before.
  - right. right. by eapply signStep_before.
  - by eapply IH.
Qed.

Lemma signLog_sorted sd calls :
  safe_calls sd calls -> StronglySorted before (signLog sd calls).
Proof.
  revert sd. induction calls as [|call calls IH]; intros sd Hs; simpl in *; [constructor|].
  destruct Hs as [Hc Hs].
  destruct (signStep sd call) as [|x [|y l]] eqn:E; simpl.
  - by apply IH.
  - constructor; [by apply IH|]. apply List.Forall_forall. intros y Hy%list_elem_of_In.
    eapply signStep_before; [done | | done]. rewrite E. by apply list_elem_of_singleton.
  - unfold signStep in E. destruct (repeats _ _); [done|].
    by destruct (ConstructAndSignVote _ _ _).1.
Qed.

(** What an armed run returns, compared with the vote it started from. *)
Lemma voteRun_after sd calls lv v :
  armed sd -> sd_last_vote sd = Some lv -> v ∈ voteRun sd calls ->
  vote_round lv < vote_round v \/ v = lv.
Proof.
  revert sd lv. induction calls as [|call calls IH]; intros sd lv Ha El Hin; simpl in *;
    [by apply elem_of_nil in Hin|].
  pose proof (voteStep_armed sd call Ha) as Ha1.
  assert (Hnext : exists lv1, sd_last_vote (voteStep sd call) = Some lv1
    /\ (vote_round lv < vote_round lv1 \/ lv1 = lv)
    /\ forall w, w ∈ option_list (ConstructAndSignVote call.1 sd call.2).1 -> w = lv1).
  { pose proof (signed_ahead sd call) as Hahead. unfold signStep in Hahead.
    destruct (voteStep_outcome sd call) as [sd' E1 | lv' Hrep El' | w lvr Hrep Hadm Hs Hlv];
      simpl in *.
    - exists lv. rewrite E1. split; [done|]. split; [by right|]. by intros w ?%elem_of_nil.
    - simplify_eq. exists lv. split; [done|]. split; [by right|].
      by intros w ->%list_elem_of_singleton.
    - exists w. split; [done|]. split; [|by intros w' ->%list_elem_of_singleton].
      left. apply (Hahead w); [by left | by exists lv; split; [|lia] |].
      rewrite Hrep. by apply list_elem_of_singleton. }
  destruct Hnext as (lv1 & E1 & Hle & Hw).
  apply elem_of_app in Hin as [Hin|Hin].
  - apply Hw in Hin as ->. naive_solver.
  - destruct (IH _ _ Ha1 E1 Hin) as [? | ->]; [|naive_solver].
    left. destruct Hle as [? | ->]; lia.
Qed.

Definition later_or_same (a b : Vote) : Prop := vote_round a < vote_round b \/ b = a.

Lemma voteRun_sorted sd calls : armed sd -> StronglySorted later_or_same (voteRun sd calls).
Proof.
  revert sd. induction calls as [|call calls IH]; intros sd Ha; simpl; [constructor|].
  pose proof (voteStep_armed sd call Ha) as Ha1.
  destruct (ConstructAndSignVote call.1 sd call.2).1 as [v|] eqn:E; simpl; [|by apply IH].
  constructor; [by apply IH|]. apply List.Forall_forall. intros w Hw%list_elem_of_In.
  eapply voteRun_after; [done | | done].
  pose proof (voteStep_outcome sd call) as Ho. rewrite E in Ho. by inversion Ho.
Qed.

End Core.

(** A validator whose last vote does not bind it (there is none, or it extends
    genesis) signs every admissible block the application accepts. *)
Lemma unbound_signs {D : Digest} {V : ValidatorVerifier}
    (app_verify : Block -> StateComputeResult -> bool) (es : EpochState)
    (now : Z) (sd : SafetyData) (eb : ExecutedBlock) (s : Signature) :
  match sd_last_vote sd with Some lv => vote_parent_round lv <= 0 | None => True end ->
  admissible es sd (eb_block eb) ->
  app_verify (eb_block eb) (eb_result eb) = true ->
  signature (VoteData_hash (ExtensionCheck app_verify eb).2) = Some s ->
  exists v, (ConstructAndSignVote app_verify es now sd eb).1 = Some v
            /\ bi_id (vd_proposed (vt_vote_data v)) = bk_id (eb_block eb)
            /\ vote_round v = bk_round (eb_block eb).
Proof.
  intros El [He Hq Ha] Hv Hs. unfold ConstructAndSignVote, VerifyEpoch.
  rewrite He, Z.eqb_refl, Hq. simpl. rewrite preferred_round_update.
  rewrite (proj2 (Z.ltb_ge _ _) Ha). simpl. fold (locked sd (eb_block eb)).
  pose proof (signVote_outcome app_verify now
    (set_preferred_round sd (locked sd (eb_block eb))) eb) as Ho.
  assert (Hsig : exists v, (signVote app_verify now
      (set_preferred_round sd (locked sd (eb_block eb))) eb).1 = Some v
      /\ bi_id (vd_proposed (vt_vote_data v)) = bk_id (eb_block eb)
      /\ vote_round v = bk_round (eb_block eb)).
  { destruct (signVote _ _ _ _) as [[v|] sd'] eqn:E.
    - destruct Ho as [Ho _]. exists v. split; [done|].
      by rewrite (signs_proposed _ _ _ Ho), (signs_round _ _ _ Ho).
    - unfold signVote in E. revert Hs. unfold ExtensionCheck in *. rewrite Hv in *. simpl in *.
      intros Hs. by rewrite Hs in E. }
  destruct (sd_last_vote sd) as [lv|]; [|done].
  by replace (vote_parent_round lv >? 0) with false by (symmetry; lia).
Qed.

(** ** A chain on the small network, for evaluation *)

Module ToyChain.

Definition app_verify (b : Block) (r : StateComputeResult) : bool := true.

Definition epoch : EpochState := mkEpochState 0.

Definition info (round : Z) : BlockInfo :=
  Toy.block_info round (if round =? 0 then 0 else 10 + round).

Definition genesis_qc : QuorumCertificate :=
  mkQuorumCertificate (VoteData_New (info 0) (info 0) 0)
    (LedgerInfoWithSignatures_new
       (mkCommitLedgerInfo (info 0) (VoteData_hash (D := Toy.digest) (VoteData_New (info 0) (info 0) 0)))).

(** The certificate of the block of round [r], whose parent has round [r - 1]. *)
Definition qc (r : Z) : QuorumCertificate :=
  if r =? 0 then genesis_qc
  else Toy.certificate (VoteData_New (info r) (info (r - 1)) 0) (info 0).

Definition block (r id : Z) : Block :=
  mkBlock id (mkBlockData 0 r 0 (qc (r - 1)) Proposal (Some (mkPayload 7 [2]))) None.

Definition call (r id : Z) : Z * ExecutedBlock :=
  (0, mkExecutedBlock (block r id) StateComputeResult_default).

(** A block of round 9 on an unsigned certificate of round 8. *)
Definition forged : ExecutedBlock :=
  let vd := VoteData_New (info 8) (info 7) 0 in
  mkExecutedBlock
    (mkBlock 77
       (mkBlockData 0 9 0
          (mkQuorumCertificate vd
             (LedgerInfoWithSignatures_new
                (mkCommitLedgerInfo (info 0) (VoteData_hash (D := Toy.digest) vd))))
          Proposal (Some (mkPayload 7 [2]))) None)
    StateComputeResult_default.

(** The first validator votes for the chain of rounds 1, 2, 3. *)
Definition calls : list (Z * ExecutedBlock) := [call 1 11; call 2 12; call 3 13].

Definition state (n : nat) : SafetyData :=
  voteState (D := Toy.digest) (V := HotstuffVerifier (D := Toy.digest) (Toy.keys [1]))
    app_verify epoch SafetyData_default (take n calls).

End ToyChain.

(** ** Theorems *)

(** One vote per round.  Once a validator's rules are armed, whatever
    blocks are put to it and in whatever order, the votes it returns have
    increasing rounds, and two of them in the same round are one vote. *)
Theorem armed_votes_once {D : Digest} {V : ValidatorVerifier}
    (app_verify : Block -> StateComputeResult -> bool) (es : EpochState)
    (sd : SafetyData) (calls : list (Z * ExecutedBlock)) :
  armed sd ->
  StronglySorted later_or_same (voteRun app_verify es sd calls)
  /\ armed (voteState app_verify es sd calls).
Proof.
  intros Ha. split; [by apply voteRun_sorted|]. unfold voteState. revert sd Ha.
  induction calls as [|call calls IH]; intros sd Ha; simpl; [done|].
  by apply IH, voteStep_armed.
Qed.

Lemma armed_votes_once_witness :
  StronglySorted later_or_same
    (voteRun (D := Toy.digest) (V := HotstuffVerifier (D := Toy.digest) (Toy.keys [1]))
       ToyChain.app_verify ToyChain.epoch (ToyChain.state 3)
       [ToyChain.call 3 99; ToyChain.call 4 14; ToyChain.call 2 98]).
Proof.
  apply (armed_votes_once (D := Toy.digest) (V := HotstuffVerifier (D := Toy.digest) (Toy.keys [1]))).
  split; [by vm_compute|]. eexists. split; [vm_compute; reflexivity|]. by vm_compute.
Defined.

(** The locking rule.  In a run whose calls are in order (or whose rules
    are armed), the votes freshly signed have strictly increasing rounds, and
    the certificate of each later block is at or above the grandparent of
    every earlier one. *)
Theorem signed_votes_locked {D : Digest} {V : ValidatorVerifier}
    (app_verify : Block -> StateComputeResult -> bool) (es : EpochState)
    (sd : SafetyData) (calls : list (Z * ExecutedBlock)) :
  safe_calls app_verify es sd calls ->
  StronglySorted before (signLog app_verify es sd calls).
Proof. apply signLog_sorted. Qed.

Lemma signed_votes_locked_witness :
  StronglySorted before
    (signLog (D := Toy.digest) (V := HotstuffVerifier (D := Toy.digest) (Toy.keys [1]))
       ToyChain.app_verify ToyChain.epoch SafetyData_default ToyChain.calls).
Proof.
  apply (signed_votes_locked (D := Toy.digest) (V := HotstuffVerifier (D := Toy.digest) (Toy.keys [1]))).
  split; [right; done|]. split; [right; vm_compute; intuition discriminate|].
  split; [right; vm_compute; intuition discriminate | done].
Defined.

(** the 3-chain commit rule.  A freshly signed vote proposes the commit of
    the certified block's parent exactly when the rounds of the three blocks
    are consecutive; otherwise it carries the empty block info. *)
Theorem vote_commits_three_chain {D : Digest} {V : ValidatorVerifier}
    (app_verify : Block -> StateComputeResult -> bool) (es : EpochState)
    (now : Z) (sd sd' : SafetyData) (eb : ExecutedBlock) (v : Vote) :
  ConstructAndSignVote app_verify es now sd eb = (Some v, sd') ->
  repeats sd eb = false ->
  let qc := bk_qc (eb_block eb) in
  commit_info (vt_ledger_info v)
  = if decide (bi_round (certified_block qc) = bi_round (parent_block qc) + 1
               /\ bk_round (eb_block eb) = bi_round (parent_block qc) + 2)
    then parent_block qc else BlockInfo_new ZeroHash.
Proof.
  intros E Hr qc. pose proof (ConstructAndSignVote_outcome app_verify es now sd eb) as Ho.
  rewrite E in Ho. simpl in Ho. inversion Ho as [|? Hr'|? ? _ _ Hs]; [congruence|]. subst.
  rewrite (sg_commit _ _ _ Hs). unfold ConstructLedgerInfo. fold qc.
  case_decide as Hd.
  - rewrite (proj2 (Z.eqb_eq _ _)), (proj2 (Z.eqb_eq _ _)) by lia. done.
  - destruct (_ && _) eqn:Eb; [|done]. btests. lia.
Qed.

Lemma vote_commits_three_chain_witness :
  exists v sd',
    ConstructAndSignVote (D := Toy.digest) (V := HotstuffVerifier (D := Toy.digest) (Toy.keys [1]))
      ToyChain.app_verify ToyChain.epoch 0 (ToyChain.state 2) (ToyChain.call 3 13).2 = (Some v, sd')
    /\ commit_info (vt_ledger_info v) = ToyChain.info 1.
Proof.
  eexists. eexists. split; [vm_compute; reflexivity|].
  refine (eq_trans (vote_commits_three_chain (D := Toy.digest) (V := HotstuffVerifier (D := Toy.digest) (Toy.keys [1]))
    ToyChain.app_verify ToyChain.epoch 0 (ToyChain.state 2) _ (ToyChain.call 3 13).2 _ _ _) _);
    [vm_compute; reflexivity | by vm_compute | by vm_compute].
Defined.

(** A vote that extends genesis does not bind its author.  When the last
    vote's parent has round 0 (or below), the validator signs any further
    admissible block, one of the same round included. *)
Theorem genesis_child_revote {D : Digest} {V : ValidatorVerifier}
    (app_verify : Block -> StateComputeResult -> bool) (es : EpochState)
    (now : Z) (sd : SafetyData) (lv : Vote) (eb : ExecutedBlock) (s : Signature) :
  sd_last_vote sd = Some lv -> vote_parent_round lv <= 0 ->
  admissible es sd (eb_block eb) ->
  app_verify (eb_block eb) (eb_result eb) = true ->
  signature (VoteData_hash (ExtensionCheck app_verify eb).2) = Some s ->
  exists v, (ConstructAndSignVote app_verify es now sd eb).1 = Some v
            /\ bi_id (vd_proposed (vt_vote_data v)) = bk_id (eb_block eb)
            /\ vote_round v = bk_round (eb_block eb).
Proof.
  intros El Hp Ha Hv Hs. eapply unbound_signs; [|done..]. by rewrite El.
Qed.

Lemma genesis_child_revote_witness :
  exists lv v,
    sd_last_vote (ToyChain.state 1) = Some lv
    /\ vote_round lv = 1 /\ bi_id (vd_proposed (vt_vote_data lv)) = 11
    /\ (ConstructAndSignVote (D := Toy.digest) (V := HotstuffVerifier (D := Toy.digest) (Toy.keys [1]))
          ToyChain.app_verify ToyChain.epoch 5 (ToyChain.state 1) (ToyChain.call 1 99).2).1 = Some v
    /\ bi_id (vd_proposed (vt_vote_data v)) = 99 /\ vote_round v = 1.
Proof.
  set (lv := default Vote_default (sd_last_vote (ToyChain.state 1))).
  destruct (genesis_child_revote (D := Toy.digest) (V := HotstuffVerifier (D := Toy.digest) (Toy.keys [1]))
    ToyChain.app_verify ToyChain.epoch 5 (ToyChain.state 1) lv (ToyChain.call 1 99).2
    (Toy.sign [1] (VoteData_hash (D := Toy.digest)
       (ExtensionCheck ToyChain.app_verify (ToyChain.call 1 99).2).2)))
    as (v & H1 & H2 & H3);
    [by vm_compute | by vm_compute | split; by vm_compute | done | done |].
  exists lv, v. split; [by vm_compute|]. split; [by vm_compute|]. split; [by vm_compute|].
  split; [exact H1|]. by split.
Defined.

(** The voting rules ask for no quorum.  A validator that has not voted
    signs a block of its epoch whose certificate carries no signature at all,
    whatever that certificate claims to certify, as long as its digest is the
    hash of the claim and its round is not below the preferred round. *)
Theorem vote_needs_no_quorum {D : Digest} {V : ValidatorVerifier}
    (app_verify : Block -> StateComputeResult -> bool) (es : EpochState)
    (now : Z) (sd : SafetyData) (eb : ExecutedBlock) (s : Signature) (vd : VoteData)
    (ci : BlockInfo) :
  sd_last_vote sd = None ->
  bd_epoch (bk_block_data (eb_block eb)) = es_epoch es ->
  bk_qc (eb_block eb)
  = mkQuorumCertificate vd
      (LedgerInfoWithSignatures_new (mkCommitLedgerInfo ci (VoteData_hash vd))) ->
  sd_preferred_round sd <= bi_round (vd_proposed vd) ->
  app_verify (eb_block eb) (eb_result eb) = true ->
  signature (VoteData_hash (ExtensionCheck app_verify eb).2) = Some s ->
  exists v, (ConstructAndSignVote app_verify es now sd eb).1 = Some v
            /\ bi_id (vd_proposed (vt_vote_data v)) = bk_id (eb_block eb).
Proof.
  intros El He Hq Hp Hv Hs.
  destruct (unbound_signs app_verify es now sd eb s) as (v & H1 & H2 & _);
    [by rewrite El | | done | done | by exists v].
  split; [done | | by rewrite Hq]. rewrite Hq. unfold VerifyQC, qc_ledger_info. simpl.
  by rewrite Z.eqb_refl, andb_false_r.
Qed.

Lemma vote_needs_no_quorum_witness :
  exists v,
    (ConstructAndSignVote (D := Toy.digest) (V := HotstuffVerifier (D := Toy.digest) (Toy.keys [1]))
       ToyChain.app_verify ToyChain.epoch 0 SafetyData_default ToyChain.forged).1 = Some v
    /\ bi_id (vd_proposed (vt_vote_data v)) = 77.
Proof.
  apply (vote_needs_no_quorum (D := Toy.digest)
           (V := HotstuffVerifier (D := Toy.digest) (Toy.keys [1]))
           ToyChain.app_verify ToyChain.epoch 0 SafetyData_default ToyChain.forged
           (Toy.sign [1] (VoteData_hash (D := Toy.digest)
              (ExtensionCheck ToyChain.app_verify ToyChain.forged).2))
           (VoteData_New (ToyChain.info 8) (ToyChain.info 7) 0) (ToyChain.info 0));
    [reflexivity | reflexivity | reflexivity | by vm_compute | reflexivity | reflexivity].
Defined.
