(* ===== verification/HsAgreement.v ===== *)
(** * Agreement of the 3-chain commit rule

    A network of validators, of which at most [(n - 1) / 3] are faulty, each
    honest one running the safety rules of [HsCore] over whatever blocks reach
    it.  The theorem: when a chain of two certificates of consecutive rounds
    commits a block, every certificate of a later round extends that block; so
    no two committed blocks conflict.

    The assumptions are gathered in [network_ok].  Three of them are standard
    (the fault bound, unforgeable signatures, a collision-free digest).  Two
    say what the code leaves to the proposer and to the delivery order, as
    HsCore.v and HsVerifier.v show: the blocks honest validators sign carry
    certificates that verify and whose rounds are those of the blocks they
    name, and calls that reach rules not yet armed are in order. *)

From S2P Require Import Prelude HsTypes HsVerifier HsCore.

#[local] Open Scope Z_scope.

(** One honest validator: its signing function, the application's check, its
    epoch and the blocks put to it, in time order. *)
Record HonestNode := mkHonestNode {
  hn_sign : HashValue -> Signature;
  hn_app_verify : Block -> StateComputeResult -> bool;
  hn_epoch : EpochState;
  hn_calls : list (Z * ExecutedBlock)
}.

Section Agreement.

Context {D : Digest} (K : Keys) (U byz : gset Author) (node : Author -> HonestNode).
(** The round of the block a hash names. *)
Context (round_of : HashValue -> Round).

(** The key material of validator [a]: the shared lists, its own key. *)
Definition keys_of (a : Author) : Keys :=
  mkKeys a (hn_sign (node a)) (k_verifyDigest K) (k_calculateLedgerHash K) (k_getMasterKey K)
    (k_trustedMasterKeys K) (k_quorum K).

Definition start (a : Author) : SafetyData :=
  Initialize SafetyData_default (es_epoch (hn_epoch (node a))) 0.

(** What [a] signed, block by block. *)
Definition log (a : Author) : list (Block * Vote) :=
  signLog (V := HotstuffVerifier (keys_of a)) (hn_app_verify (node a)) (hn_epoch (node a))
    (start a) (hn_calls (node a)).

Definition honest (a : Author) : Prop := a ∈ U /\ a ∉ byz.

(** Block infos that name blocks by their own rounds. *)
Definition truthful (vd : VoteData) : Prop :=
  bi_round (vd_proposed vd) = round_of (bi_id (vd_proposed vd))
  /\ bi_round (vd_parent vd) = round_of (bi_id (vd_parent vd))
  /\ VoteData_ranges vd.

(** An accepted certificate of a block after genesis. *)
Definition certified (q : QuorumCertificate) : Prop :=
  QuorumCertificate_Verify (V := HotstuffVerifier K) q = true
  /\ bi_round (certified_block q) <> 0
  /\ truthful (qc_vote_data q).

Record network_ok : Prop := {
  nk_nonempty : (0 < size U)%nat;
  nk_faults : Z.of_nat (size byz) <= (Z.of_nat (size U) - 1) / 3;
  nk_quorum : k_quorum K = calculateQuorum [] (Z.of_nat (size U));
  nk_trusted : forall a, trusted K a = true -> a ∈ U;
  nk_collision_free : forall v w,
    VoteData_hash v = VoteData_hash w -> VoteData_preimage v = VoteData_preimage w;
  (* a valid signature of an honest validator on a vote's digest was made for
     a vote it signed, possibly re-signed with another timeout count *)
  nk_unforgeable : forall a vd s,
    honest a -> k_verifyDigest K a (VoteData_hash vd) s = true ->
    exists b v tc, (b, v) ∈ log a /\ 0 <= tc < 256 ^ 8
      /\ VoteData_hash vd
         = VoteData_hash (VoteData_New (vd_proposed (vt_vote_data v)) (vd_parent (vt_vote_data v)) tc);
  nk_in_order : forall a, honest a ->
    safe_calls (V := HotstuffVerifier (keys_of a)) (hn_app_verify (node a)) (hn_epoch (node a))
      (start a) (hn_calls (node a));
  nk_blocks : forall a b v, honest a -> (b, v) ∈ log a ->
    truthful (vt_vote_data v) /\ truthful (qc_vote_data (bk_qc b))
    /\ QuorumCertificate_Verify (V := HotstuffVerifier K) (bk_qc b) = true
}.

Hypothesis Hok : network_ok.

(** ** Certificates and logs *)

Lemma certified_spec q :
  certified q ->
  (forall a s, qc_signatures q !! a = Some s ->
     trusted K a = true /\ k_verifyDigest K a (VoteData_hash (qc_vote_data q)) s = true)
  /\ k_quorum K <= Z.of_nat (size (qc_signatures q))
  /\ bi_round (parent_block q) < bi_round (certified_block q).
Proof.
  intros (Hv & Hr & _). apply QuorumCertificate_Verify_spec in Hv as [Hh Hv].
  rewrite decide_False in Hv by done. destruct Hv as [Hl Hv].
  apply VoteData_Verify_spec in Hv. unfold LedgerInfoWithSignatures_Verify in Hl.
  simpl in Hl. apply Hc_verifyLedgerInfo_spec in Hl. unfold qc_ledger_info in Hh.
  rewrite Hh in Hl. intuition.
Qed.

(** The entry of a log that a certificate's signature stands for. *)
Definition entry_of (q : QuorumCertificate) (e : Block * Vote) : Prop :=
  bi_id (vd_proposed (vt_vote_data e.2)) = bi_id (certified_block q)
  /\ bi_id (vd_parent (vt_vote_data e.2)) = bi_id (parent_block q)
  /\ vote_round e.2 = bi_round (certified_block q).

Lemma signer_entry q a s :
  certified q -> honest a -> qc_signatures q !! a = Some s ->
  exists e, e ∈ log a /\ entry_of q e.
Proof.
  intros Hq Ha Hs. destruct (certified_spec q Hq) as (Hsig & _ & _).
  destruct (Hsig a s Hs) as [_ Hd].
  destruct (nk_unforgeable Hok a _ _ Ha Hd) as (b & v & tc & Hin & Htc & Hh).
  exists (b, v). split; [done|]. destruct Hq as (_ & _ & Ht1 & Ht2 & Hrg).
  destruct (nk_blocks Hok a b v Ha Hin) as ((Hv1 & Hv2 & Hv3) & _ & _).
  apply (nk_collision_free Hok), VoteData_preimage_inj in Hh.
  - unfold entry_of, vote_round, certified_block, parent_block. simpl in *.
    destruct Hh as (E1 & E2 & _). rewrite Hv1, Ht1, E1. done.
  - done.
  - unfold VoteData_ranges in *. simpl. intuition.
Qed.

(** Two certificates share an honest signer. *)
Lemma common_signer p q :
  certified p -> certified q ->
  exists a e f, honest a /\ e ∈ log a /\ f ∈ log a /\ entry_of p e /\ entry_of q f.
Proof.
  intros Hp Hq.
  destruct (certified_spec p Hp) as (Sp & Np & _), (certified_spec q Hq) as (Sq & Nq & _).
  assert (Hdom : forall (m : Signatures),
    (forall a s, m !! a = Some s -> trusted K a = true /\ True) -> dom m ⊆ U).
  { intros m Hm a [s Hs]%elem_of_dom. by apply (nk_trusted Hok), (Hm a s). }
  destruct (quorum_honest U (dom (qc_signatures p)) (dom (qc_signatures q)) byz) as (a & Hap & Haq & Hb).
  - apply (nk_nonempty Hok).
  - apply Hdom. intros a s Hs. split; [|done]. by apply (Sp a s).
  - apply Hdom. intros a s Hs. split; [|done]. by apply (Sq a s).
  - apply (nk_faults Hok).
  - rewrite size_dom, <- (nk_quorum Hok). done.
  - rewrite size_dom, <- (nk_quorum Hok). done.
  - assert (Ha : honest a).
    { split; [|done]. apply elem_of_dom in Hap as [s Hs]. apply (nk_trusted Hok), (Sp a s Hs). }
    apply elem_of_dom in Hap as [s Hs]. apply elem_of_dom in Haq as [t Ht].
    destruct (signer_entry p a s Hp Ha Hs) as (e & He & Hpe).
    destruct (signer_entry q a t Hq Ha Ht) as (f & Hf & Hqf).
    by exists a, e, f.
Qed.

Lemma log_ordered a e f :
  honest a -> e ∈ log a -> f ∈ log a -> e = f \/ before e f \/ before f e.
Proof. intros Ha He Hf. eapply signLog_ordered; [by apply (nk_in_order Hok) | done | done]. Qed.

Lemma entry_parent a e :
  honest a -> e ∈ log a -> vd_parent (vt_vote_data e.2) = certified_block (bk_qc e.1).
Proof.
  destruct e as [b v]. intros Ha He. apply signLog_signs in He as (eb & <- & Hs & _).
  by eapply signs_parent.
Qed.

(** One certified block per round. *)
Lemma same_round p q :
  certified p -> certified q -> bi_round (certified_block p) = bi_round (certified_block q) ->
  bi_id (certified_block p) = bi_id (certified_block q)
  /\ bi_id (parent_block p) = bi_id (parent_block q).
Proof.
  intros Hp Hq Hr.
  destruct (common_signer p q Hp Hq) as (a & e & f & Ha & He & Hf & (E1 & E2 & E3) & (F1 & F2 & F3)).
  destruct (log_ordered a e f Ha He Hf) as [->|[[Hlt _]|[Hlt _]]]; [|lia|lia].
  split; congruence.
Qed.

(** ** The chain below a certificate *)

(** [descends h q]: the chain of certificates from [q] downwards reaches the
    block [h] strictly below [q]'s. *)
Inductive descends (h : HashValue) : QuorumCertificate -> Prop :=
| descends_parent q : bi_id (parent_block q) = h -> descends h q
| descends_step q p :
    certified p -> bi_id (certified_block p) = bi_id (parent_block q) ->
    descends h p -> descends h q.

(** Two certificates of consecutive rounds commit the block below them: [p]
    certifies the child of block [h], [q] the child of that child. *)
Record three_chain (p q : QuorumCertificate) : Prop := {
  tch_p : certified p;
  tch_q : certified q;
  tch_link : bi_id (parent_block q) = bi_id (certified_block p);
  tch_round0 : 0 < bi_round (parent_block p);
  tch_round1 : bi_round (certified_block p) = bi_round (parent_block p) + 1;
  tch_round2 : bi_round (certified_block q) = bi_round (parent_block p) + 2
}.

(** The certificate inside a signed block, when it is above genesis. *)
Lemma inner_certified a e :
  honest a -> e ∈ log a -> bi_round (certified_block (bk_qc e.1)) <> 0 -> certified (bk_qc e.1).
Proof.
  destruct e as [b v]. intros Ha He Hr.
  by destruct (nk_blocks Hok a b v Ha He) as (_ & Ht & Hv).
Qed.

Lemma inner_entry q a e :
  certified q -> honest a -> e ∈ log a -> entry_of q e ->
  bi_id (certified_block (bk_qc e.1)) = bi_id (parent_block q)
  /\ bi_round (certified_block (bk_qc e.1)) = bi_round (parent_block q).
Proof.
  destruct e as [b v]. intros Hq Ha He (_ & E & _). simpl in *.
  pose proof (entry_parent a (b, v) Ha He) as Hp. simpl in Hp.
  rewrite Hp in E. split; [done|].
  destruct (nk_blocks Hok a b v Ha He) as (_ & (Ht & _) & _).
  destruct Hq as (_ & _ & (_ & Hq2 & _)).
  unfold certified_block, parent_block in *. by rewrite Ht, Hq2, E.
Qed.

(** The locked round of an honest voter for the top of a 3-chain. *)
Lemma locked_round p q a e :
  three_chain p q -> honest a -> e ∈ log a -> entry_of q e ->
  bi_round (parent_block (bk_qc e.1)) = bi_round (parent_block p).
Proof.
  intros [Hp Hq Hl R0 R1 R2] Ha He Eq.
  destruct (inner_entry q a e Hq Ha He Eq) as [Ei Er].
  assert (Hrq : bi_round (parent_block q) = bi_round (certified_block p)).
  { destruct Hq as (_ & _ & (_ & Q & _)), Hp as (_ & _ & (P & _ & _)).
    unfold certified_block, parent_block in *. by rewrite Q, P, Hl. }
  assert (Hc : certified (bk_qc e.1)) by (eapply inner_certified; [done..|lia]).
  destruct (same_round (bk_qc e.1) p Hc Hp) as [_ Hpar]; [lia|].
  destruct Hc as (_ & _ & (_ & C & _)), Hp as (_ & _ & (_ & P & _)).
  unfold certified_block, parent_block in *. by rewrite C, P, Hpar.
Qed.

Lemma later_descends p q c :
  three_chain p q -> certified c -> bi_round (parent_block p) < bi_round (certified_block c) ->
  descends (bi_id (parent_block p)) c.
Proof.
  intros Ht. remember (Z.to_nat (bi_round (certified_block c))) as n eqn:Hn.
  revert c Hn. induction n as [n IH] using lt_wf_ind. intros c Hn Hc Hlt.
  pose proof Ht as [Hp Hq Hl R0 R1 R2].
  destruct (decide (bi_round (certified_block c) = bi_round (certified_block p))) as [E|N1].
  { apply descends_parent. by apply (same_round c p). }
  destruct (decide (bi_round (certified_block c) = bi_round (certified_block q))) as [E|N2].
  { destruct (same_round c q Hc Hq E) as [_ Ep].
    eapply descends_step; [exact Hp | congruence | by apply descends_parent]. }
  destruct (common_signer q c Hq Hc) as (a & e & f & Ha & He & Hf & Eq & Ec).
  pose proof Eq as (_ & _ & Req). pose proof Ec as (_ & _ & Rec).
  destruct (log_ordered a e f Ha He Hf) as [->|[[Hb Hlock]|[Hb _]]]; [lia| |lia].
  rewrite (locked_round p q a e) in Hlock by done.
  destruct (inner_entry c a f Hc Ha Hf Ec) as [Fi Fr].
  assert (Hcf : certified (bk_qc f.1)) by (eapply inner_certified; [done..|lia]).
  destruct (certified_spec c Hc) as (_ & _ & Hord).
  destruct (decide (bi_round (parent_block c) = bi_round (parent_block p))) as [E|N3].
  - apply descends_parent.
    destruct (common_signer p p Hp Hp) as (a1 & e1 & _ & Ha1 & He1 & _ & Ep1 & _).
    destruct (inner_entry p a1 e1 Hp Ha1 He1 Ep1) as [Gi Gr].
    assert (Hg : certified (bk_qc e1.1)) by (eapply inner_certified; [done..|lia]).
    destruct (same_round (bk_qc f.1) (bk_qc e1.1) Hcf Hg) as [Es _]; [lia|]. congruence.
  - eapply descends_step; [exact Hcf | done|].
    eapply IH; [| reflexivity | done | lia]. lia.
Qed.

End Agreement.

(** ** A network of one validator, for evaluation *)

Module ToyNet.

Definition vote_data (r : Z) : VoteData :=
  VoteData_New (ToyChain.info r) (ToyChain.info (r - 1)) 0.

Definition digest_of (r : Z) : HashValue := VoteData_hash (D := Toy.digest) (vote_data r).

(** The digests the validator has signed: those of rounds 1 to 4. *)
Definition signed : list HashValue := digest_of <$> [1; 2; 3; 4].

Definition keys : Keys :=
  mkKeys [1] (Toy.sign [1])
    (fun a d s => bool_decide (a = [1]) && bool_decide (d ∈ signed)
                  && bool_decide (s = Toy.sign [1] d))
    (fun li => li_hash li) id {[ [1] ]} 1.

Definition qc (r : Z) : QuorumCertificate :=
  if r =? 0 then ToyChain.genesis_qc
  else
    mkQuorumCertificate (vote_data r)
      (mkLedgerInfoWithSignatures (mkCommitLedgerInfo (ToyChain.info 0) (digest_of r))
         {[ [1] := Toy.sign [1] (digest_of r) ]}).

Definition call (r : Z) : Z * ExecutedBlock :=
  (0, mkExecutedBlock
        (mkBlock (10 + r) (mkBlockData 0 r 0 (qc (r - 1)) Proposal (Some (mkPayload 7 [1]))) None)
        StateComputeResult_default).

Definition node (a : Author) : HonestNode :=
  mkHonestNode (Toy.sign a) ToyChain.app_verify ToyChain.epoch (call <$> [1; 2; 3; 4]).

Definition round_of (h : HashValue) : Round := if h =? 0 then 0 else h - 10.

End ToyNet.

#[local] Existing Instance Toy.digest.

#[local] Instance truthful_dec round_of vd : Decision (truthful round_of vd).
Proof. unfold truthful, VoteData_ranges, hash_range. apply _. Defined.

Lemma toy_collision_free v w :
  VoteData_hash (D := Toy.digest) v = VoteData_hash (D := Toy.digest) w ->
  VoteData_preimage v = VoteData_preimage w.
Proof.
  assert (Hb : forall u, Forall is_byte (VoteData_preimage u)).
  { intros u. unfold VoteData_preimage, append_uint256, append_int64.
    assert (He : forall b, Forall is_byte (epoch_suffix b)).
    { intros b. unfold epoch_suffix. destruct (bi_next_epoch_state b);
        [apply be_bytes_bytes | constructor]. }
    rewrite !Forall_app. repeat split; apply be_bytes_bytes || apply He. }
  apply be_value_one_inj; apply Hb.
Qed.

(** The checks of [network_ok] on the log, by evaluation. *)
Definition toy_entry_ok (e : Block * Vote) : bool :=
  bool_decide (truthful ToyNet.round_of (vt_vote_data e.2))
  && bool_decide (truthful ToyNet.round_of (qc_vote_data (bk_qc e.1)))
  && QuorumCertificate_Verify (V := HotstuffVerifier ToyNet.keys) (bk_qc e.1).

Lemma toy_network_ok :
  network_ok ToyNet.keys {[ [1] ]} ∅ ToyNet.node ToyNet.round_of.
Proof.
  assert (Hlog : forall a, honest {[ [1] ]} ∅ a -> a = [1]) by (intros a [Ha _]; set_solver).
  split.
  - vm_compute. lia.
  - vm_compute. discriminate.
  - by vm_compute.
  - intros a Ha. unfold trusted in Ha. simpl in Ha. btests. set_solver.
  - apply toy_collision_free.
  - intros a vd s ->%Hlog Hv. unfold ToyNet.keys, k_verifyDigest in Hv.
    rewrite !andb_true_iff, !bool_decide_eq_true in Hv. destruct Hv as [[_ Hd] _].
    unfold ToyNet.signed in Hd. apply list_elem_of_fmap in Hd as (r & Hd & Hr).
    assert (Hin : exists b v, (b, v) ∈ log ToyNet.keys ToyNet.node [1]
              /\ vt_vote_data v = ToyNet.vote_data r).
    { assert (Hall : forallb (fun r => existsb
                (fun e => bool_decide (vt_vote_data e.2 = ToyNet.vote_data r))
                (log ToyNet.keys ToyNet.node [1])) [1; 2; 3; 4] = true) by (by vm_compute).
      rewrite forallb_forall in Hall. apply list_elem_of_In, Hall, existsb_exists in Hr.
      destruct Hr as ([b v] & Hin & Ev). apply bool_decide_eq_true in Ev.
      exists b, v. split; [by apply list_elem_of_In | exact Ev]. }
    destruct Hin as (b & v & Hin & Ev). exists b, v, 0. split; [done|]. split; [lia|].
    rewrite Ev, Hd. unfold ToyNet.digest_of. f_equal.
  - intros a ->%Hlog. split; [right; done|].
    repeat (split; [right; vm_compute; intuition discriminate|]). done.
  - intros a b v ->%Hlog Hin.
    assert (Hall : forallb toy_entry_ok (log ToyNet.keys ToyNet.node [1]) = true) by (by vm_compute).
    rewrite forallb_forall in Hall. apply list_elem_of_In in Hin. apply Hall in Hin.
    unfold toy_entry_ok in Hin. rewrite !andb_true_iff, !bool_decide_eq_true in Hin.
    cbn [fst snd] in Hin. tauto.
Qed.

Lemma toy_three_chain r :
  r = 2 \/ r = 3 -> three_chain ToyNet.keys ToyNet.round_of (ToyNet.qc r) (ToyNet.qc (r + 1)).
Proof.
  assert (Hc : forall r, r ∈ [2; 3; 4] -> certified ToyNet.keys ToyNet.round_of (ToyNet.qc r)).
  { intros k Hk. rewrite !elem_of_cons, elem_of_nil in Hk.
    destruct Hk as [->|[->|[->|[]]]];
      (split; [by vm_compute|]; split; [done|]; apply (bool_decide_unpack _); by vm_compute). }
  intros [->| ->]; split; try (apply Hc; set_solver); by vm_compute.
Qed.

(** ** Theorem *)

(** C1: agreement.  Let two 3-chains each commit the block below them, in a
    network within its fault bound, with signatures that cannot be forged and
    digests that do not collide, whose correct validators call
    [ConstructAndSignVote] in order.  The certificates of the 3-chains, and the
    votes and the certificates of the blocks that correct validators sign, name
    blocks by their true rounds, and the latter certificates verify: the code
    checks neither before it votes, and rounds are not part of what is signed.
    Then the two committed blocks are the same, or the one of the higher round
    is certified and its chain of certificates descends to the other: committed
    blocks never conflict. *)
Theorem agreement {D : Digest} (K : Keys) (U byz : gset Author) (node : Author -> HonestNode)
    (round_of : HashValue -> Round) (p q p' q' : QuorumCertificate) :
  network_ok K U byz node round_of ->
  three_chain K round_of p q -> three_chain K round_of p' q' ->
  bi_round (parent_block p) <= bi_round (parent_block p') ->
  bi_id (parent_block p) = bi_id (parent_block p')
  \/ exists c, certified K round_of c
               /\ bi_id (certified_block c) = bi_id (parent_block p')
               /\ descends K round_of (bi_id (parent_block p)) c.
Proof.
  intros Hok H H' Hle. destruct H' as [Hp' _ _ _ R1' _]. pose proof H as [Hp _ _ _ R1 _].
  destruct (decide (bi_round (parent_block p) = bi_round (parent_block p'))) as [E|N].
  - left. eapply same_round; [done..|lia].
  - pose proof (later_descends K U byz node round_of Hok p q p' H Hp' ltac:(lia)) as Hd.
    inversion Hd as [? E | ? c Hc Ec Hdc]; subst; [by left | right; by exists c].
Qed.

Lemma agreement_witness :
  bi_id (parent_block (ToyNet.qc 2)) = bi_id (parent_block (ToyNet.qc 3))
  \/ exists c, certified ToyNet.keys ToyNet.round_of c
               /\ bi_id (certified_block c) = bi_id (parent_block (ToyNet.qc 3))
               /\ descends ToyNet.keys ToyNet.round_of (bi_id (parent_block (ToyNet.qc 2))) c.
Proof.
  apply (agreement ToyNet.keys {[ [1] ]} ∅ ToyNet.node ToyNet.round_of
           (ToyNet.qc 2) (ToyNet.qc 3) (ToyNet.qc 3) (ToyNet.qc 4));
    [apply toy_network_ok | apply (toy_three_chain 2); by left
    | apply (toy_three_chain 3); by right | by vm_compute].
Defined.
