(* ===== verification/HsFork.v ===== *)
(** * Why agreement needs votes in order

    The agreement theorem of HsAgreement.v asks that a validator be shown the
    blocks of its first rounds in order.  This file exhibits the run that the
    code's rules otherwise allow: four correct validators vote twice in round 1,
    since a last vote that extends genesis does not bind them, and two
    conflicting blocks are committed by valid certificates. *)

From S2P Require Import Prelude HsTypes HsVerifier HsCore HsAgreement.

#[local] Open Scope Z_scope.

Module Fork.

(** The blocks, each with its parent; the last digit of an id is its round.
    Blocks 11 and 21 both extend genesis in round 1. *)
Definition chain : list (Z * Z) :=
  [(11, 0); (21, 0); (12, 11); (13, 12); (24, 21); (25, 24); (26, 25)].

Definition round_of (id : HashValue) : Round := id mod 10.

Definition info (id : HashValue) : BlockInfo := Toy.block_info (round_of id) id.

Definition vote_data (b : Z * Z) : VoteData := VoteData_New (info b.1) (info b.2) 0.

Definition signed : list HashValue :=
  (fun b => VoteData_hash (D := Toy.digest) (vote_data b)) <$> chain.

(** A signature of a validator is valid on the digests it signed only. *)
Definition keys (self : Author) : Keys :=
  mkKeys self (Toy.sign self)
    (fun a d s => bool_decide (d ∈ signed) && bool_decide (s = Toy.sign a d))
    (fun li => li_hash li) id (list_to_set Toy.validators) (calculateQuorum [] 4).

Definition qc (b : Z * Z) : QuorumCertificate := Toy.certificate (vote_data b) (info 0).

(** The certificate of a parent. *)
Definition qc_of (id : HashValue) : QuorumCertificate :=
  match filter (fun b => b.1 = id) chain with
  | b :: _ => qc b
  | [] => ToyChain.genesis_qc
  end.

Definition call (b : Z * Z) : Z * ExecutedBlock :=
  (0, mkExecutedBlock
        (mkBlock b.1 (mkBlockData 0 (round_of b.1) 0 (qc_of b.2) Proposal (Some (mkPayload 7 [2])))
           None)
        StateComputeResult_default).

(** What validator [a] signs when it is shown the seven blocks. *)
Definition log (a : Author) : list (Block * Vote) :=
  signLog (D := Toy.digest) (V := HotstuffVerifier (D := Toy.digest) (keys a))
    ToyChain.app_verify ToyChain.epoch (Initialize SafetyData_default 0 0) (call <$> chain).

End Fork.

#[local] Existing Instance Toy.digest.

#[local] Instance ranges_dec v : Decision (VoteData_ranges v).
Proof. unfold VoteData_ranges, hash_range. apply _. Defined.

Lemma fork_ranges : Forall (fun b => VoteData_ranges (Fork.vote_data b)) Fork.chain.
Proof. apply (bool_decide_unpack _). by vm_compute. Qed.

Lemma fork_valid a d s :
  k_verifyDigest (Fork.keys [1]) a d s = true -> exists b, b ∈ Fork.chain /\ d = VoteData_hash (Fork.vote_data b).
Proof.
  intros [H%bool_decide_eq_true _]%andb_true_iff.
  apply list_elem_of_fmap in H as (b & Hd & Hb).
  exists b. split; [exact Hb | exact Hd].
Qed.

(** A certificate accepted in this network is for one of the seven blocks. *)
Lemma fork_certified c :
  certified (Fork.keys [1]) Fork.round_of c ->
  (bi_id (certified_block c), bi_id (parent_block c)) ∈ Fork.chain.
Proof.
  intros Hc. destruct (certified_spec _ _ _ Hc) as (Hs & Hq & _). destruct Hc as (_ & _ & Ht).
  destruct (map_choose (qc_signatures c)) as (a & s & Ha).
  { intros E. rewrite E, map_size_empty in Hq. by vm_compute in Hq. }
  destruct (Hs a s Ha) as [_ Hv]. apply fork_valid in Hv as (b & Hb & Hd). pose proof (toy_collision_free _ _ Hd) as Hp.
  destruct Ht as (_ & _ & Hr).
  pose proof fork_ranges as Hall. rewrite Forall_forall in Hall.
  destruct (VoteData_preimage_inj _ _ Hr (Hall b Hb) Hp) as (E1 & E2 & _).
  unfold certified_block, parent_block. rewrite E1, E2. by destruct b.
Qed.

(** Decided by evaluation, for each of the seven. *)
Lemma fork_qc_certified b :
  b ∈ Fork.chain -> certified (Fork.keys [1]) Fork.round_of (Fork.qc b).
Proof.
  assert (H : Forall (fun b => QuorumCertificate_Verify
      (V := HotstuffVerifier (Fork.keys [1])) (Fork.qc b) = true
    /\ bi_round (certified_block (Fork.qc b)) <> 0
    /\ truthful Fork.round_of (qc_vote_data (Fork.qc b))) Fork.chain).
  { unfold truthful. apply (bool_decide_unpack _). by vm_compute. }
  rewrite Forall_forall in H. apply H.
Qed.

(** Block 24 does not descend from block 11. *)
Lemma fork_not_descends c :
  certified (Fork.keys [1]) Fork.round_of c -> bi_id (certified_block c) = 24 ->
  ~ descends (Fork.keys [1]) Fork.round_of 11 c.
Proof.
  assert (Hp : forall c, certified (Fork.keys [1]) Fork.round_of c ->
    (bi_id (certified_block c) = 24 -> bi_id (parent_block c) = 21)
    /\ (bi_id (certified_block c) = 21 -> bi_id (parent_block c) = 0)
    /\ bi_id (certified_block c) <> 0).
  { intros c0 Hc%fork_certified. unfold Fork.chain in Hc. rewrite !elem_of_cons, elem_of_nil in Hc.
    intuition (simplify_eq; lia). }
  intros Hc E Hd. destruct (Hp c Hc) as (H24 & _ & _). specialize (H24 E).
  inversion Hd as [? Ep | ? p Hcp Ep Hdp]; subst; [lia|].
  destruct (Hp p Hcp) as (_ & H21 & _). rewrite H24 in Ep. specialize (H21 Ep).
  inversion Hdp as [? Ep' | ? p' Hcp' Ep' _]; subst; [lia|].
  destruct (Hp p' Hcp') as (_ & _ & H0). lia.
Qed.

(** ** Theorem *)

(** C36: without that order, agreement fails.  Four correct validators that are
    shown two blocks of round 1 and then extensions of both sign all of them by
    the code's rules; the certificates are valid; two 3-chains commit the
    blocks 11 and 24, and neither extends the other. *)
Theorem genesis_revote_forks :
  Forall (fun a => (fun e => bk_id e.1) <$> Fork.log a = [11; 21; 12; 13; 24; 25; 26])
    Toy.validators
  /\ three_chain (Fork.keys [1]) Fork.round_of (Fork.qc (12, 11)) (Fork.qc (13, 12))
  /\ three_chain (Fork.keys [1]) Fork.round_of (Fork.qc (25, 24)) (Fork.qc (26, 25))
  /\ bi_id (parent_block (Fork.qc (12, 11))) = 11
  /\ bi_id (parent_block (Fork.qc (25, 24))) = 24
  /\ forall c, certified (Fork.keys [1]) Fork.round_of c -> bi_id (certified_block c) = 24 ->
       ~ descends (Fork.keys [1]) Fork.round_of 11 c.
Proof.
  split; [repeat constructor; by vm_compute|].
  split; [split; try (apply fork_qc_certified; set_solver); by vm_compute|].
  split; [split; try (apply fork_qc_certified; set_solver); by vm_compute|].
  do 2 (split; [by vm_compute|]). apply fork_not_descends.
Qed.
