(* ===== verification/HsPendingVotes.v ===== *)
(** * Vote collection (PendingVotes) and the round state (RoundState)

    [PendingVotes] gathers the votes of one round until a quorum of signatures
    on the same digest forms a quorum certificate, and holds back the votes
    whose proposal has not arrived.  [RoundState] is the current round with its
    pending votes, the vote sent in it, and the leader offset.

    The two mutexes of [PendingVotes] make its operations atomic; the timers of
    [RoundState] are effects of the round manager and are modelled there. *)

From S2P Require Import Prelude HsTypes HsVerifier.

#[local] Open Scope Z_scope.

(** ** PendingVotes.h *)

Inductive VoteReceptionResult :=
  | VoteAdded
  | DuplicateVote
  | EquivocateVote
  | NewQuorumCertificate
  | NewTimeoutCertificate
  | ErrorAddingVote
  | UnexpectedRound
  | QCHasAlreadyProcessed.

#[export] Instance VoteReceptionResult_eq_dec : EqDecision VoteReceptionResult.
Proof. solve_decision. Defined.

(** The enumerators' values, the [int] the callers compare. *)
Definition VoteReceptionResult_value (r : VoteReceptionResult) : Z :=
  match r with
  | VoteAdded => 0
  | DuplicateVote => 1
  | EquivocateVote => 2
  | NewQuorumCertificate => 3
  | NewTimeoutCertificate => 4
  | ErrorAddingVote => 5
  | UnexpectedRound => 6
  | QCHasAlreadyProcessed => 7
  end.

Record PendingVotes := mkPendingVotes {
  pv_author_to_vote : gmap Author Vote;
  pv_li_digest_to_votes : gmap HashValue LedgerInfoWithSignatures;
  pv_quorum_certificate_record : gmap HashValue QuorumCertificate;
  pv_maybe_partial_timeout_cert : option TimeoutCertificate;
  pv_cache_votes : gmap HashValue (list Vote)
}.

Definition PendingVotes_New : PendingVotes := mkPendingVotes ∅ ∅ ∅ None ∅.

(** ** PendingVotes.cpp *)

Section Votes.

Context {V : ValidatorVerifier}.

(** The entry of the vote's digest: the one present, or a new one holding the
    vote's ledger info. *)
Definition digest_entry (pv : PendingVotes) (vote : Vote) : LedgerInfoWithSignatures :=
  match pv_li_digest_to_votes pv !! vote_digest vote with
  | Some l => l
  | None => LedgerInfoWithSignatures_new (vt_ledger_info vote)
  end.

(** What [insertVote] does once the vote is not refused: the author's vote is
    stored, its signature is added to the entry of its digest, and a quorum
    certificate is made when the signers have the voting power.  [quorumCert]
    is the caller's out parameter. *)
Definition store_vote (pv : PendingVotes) (vote : Vote) (quorumCert : QuorumCertificate)
  : VoteReceptionResult * QuorumCertificate * PendingVotes :=
  let li_digest := vote_digest vote in
  let l := addSignature (digest_entry pv vote) (vt_author vote) (vt_signature vote) in
  let author_to_vote := <[vt_author vote := vote]> (pv_author_to_vote pv) in
  let li_digest_to_votes := <[li_digest := l]> (pv_li_digest_to_votes pv) in
  if checkVotingPower (ls_signatures l) then
    let quorumCert := mkQuorumCertificate (vt_vote_data vote) l in
    (NewQuorumCertificate, quorumCert,
     mkPendingVotes author_to_vote li_digest_to_votes
       (<[li_digest := quorumCert]> (pv_quorum_certificate_record pv))
       (pv_maybe_partial_timeout_cert pv) (pv_cache_votes pv))
  else
    (VoteAdded, quorumCert,
     mkPendingVotes author_to_vote li_digest_to_votes (pv_quorum_certificate_record pv)
       (pv_maybe_partial_timeout_cert pv) (pv_cache_votes pv)).

(** A previous vote of the author is replaced when its timeout count differs,
    or when the new vote only adds the timeout signature.  The timeout
    certificate out parameter of the code is never assigned. *)
Definition insertVote (pv : PendingVotes) (vote : Vote) (quorumCert : QuorumCertificate)
  : VoteReceptionResult * QuorumCertificate * PendingVotes :=
  let li_digest := vote_digest vote in
  match pv_quorum_certificate_record pv !! li_digest with
  | Some _ => (QCHasAlreadyProcessed, quorumCert, pv)
  | None =>
      match pv_author_to_vote pv !! vt_author vote with
      | Some seen =>
          if negb (vd_tc (vt_vote_data vote) =? vd_tc (vt_vote_data seen)) then
            store_vote pv vote quorumCert
          else if negb (li_digest =? vote_digest seen) then (EquivocateVote, quorumCert, pv)
          else if isTimeout seen || negb (isTimeout vote) then (DuplicateVote, quorumCert, pv)
          else store_vote pv vote quorumCert
      | None => store_vote pv vote quorumCert
      end
  end.

Definition cacheVote (pv : PendingVotes) (vote : Vote) : nat * PendingVotes :=
  let block_id := bi_id (vd_proposed (vt_vote_data vote)) in
  let votes := default [] (pv_cache_votes pv !! block_id) ++ [vote] in
  (length votes,
   mkPendingVotes (pv_author_to_vote pv) (pv_li_digest_to_votes pv)
     (pv_quorum_certificate_record pv) (pv_maybe_partial_timeout_cert pv)
     (<[block_id := votes]> (pv_cache_votes pv))).

(** The cached votes are swapped with an empty vector, which stays. *)
Definition getAndRemoveCachedVotes (pv : PendingVotes) (id : HashValue)
  : list Vote * PendingVotes :=
  match pv_cache_votes pv !! id with
  | Some votes =>
      (votes,
       mkPendingVotes (pv_author_to_vote pv) (pv_li_digest_to_votes pv)
         (pv_quorum_certificate_record pv) (pv_maybe_partial_timeout_cert pv)
         (<[id := []]> (pv_cache_votes pv)))
  | None => ([], pv)
  end.

End Votes.

(** ** RoundState.h, RoundState.cpp *)

Inductive NewRoundReason := QCRead | TimeoutReason.

Record NewRoundEvent := mkNewRoundEvent { ev_round : Round; ev_reason : NewRoundReason }.

(** The pending votes pointer is null only before [Hotstuff::start] resets the
    state, when there is no round manager to use it. *)
Record RoundState := mkRoundState {
  rs_current_round : Round;
  rs_pending_votes : PendingVotes;
  rs_send_vote : option Vote;
  rs_offset_round : Round
}.

Definition RoundState_reset (rs : RoundState) : RoundState :=
  mkRoundState 0 PendingVotes_New None 0.

(** A higher round drops the votes of the previous one; [None] leaves the
    state as it is. *)
Definition RoundState_ProcessCertificates (rs : RoundState) (sync_info : SyncInfo)
  : option NewRoundEvent * RoundState :=
  let new_round := HighestRound sync_info + 1 in
  if new_round >? rs_current_round rs then
    (Some (mkNewRoundEvent new_round QCRead), mkRoundState new_round PendingVotes_New None 0)
  else (None, rs).

Definition recordVote (rs : RoundState) (vote : Vote) : RoundState :=
  mkRoundState (rs_current_round rs) (rs_pending_votes rs) (Some vote) (rs_offset_round rs).

Definition set_pending_votes (rs : RoundState) (pv : PendingVotes) : RoundState :=
  mkRoundState (rs_current_round rs) pv (rs_send_vote rs) (rs_offset_round rs).

(** A vote of another round yields the bare number 1. *)
Definition RoundState_insertVote {V : ValidatorVerifier} (rs : RoundState) (vote : Vote)
    (quorumCert : QuorumCertificate) : Z * QuorumCertificate * RoundState :=
  if negb (vote_round vote =? rs_current_round rs) then (1, quorumCert, rs)
  else
    let '(r, q, pv) := insertVote (rs_pending_votes rs) vote quorumCert in
    (VoteReceptionResult_value r, q, set_pending_votes rs pv).

Definition RoundState_cacheVote (rs : RoundState) (vote : Vote) : nat * RoundState :=
  if negb (vote_round vote =? rs_current_round rs) then (0%nat, rs)
  else
    let '(n, pv) := cacheVote (rs_pending_votes rs) vote in
    (n, set_pending_votes rs pv).

Definition RoundState_getAndRemoveCachedVotes (rs : RoundState) (id : HashValue)
  : list Vote * RoundState :=
  let '(votes, pv) := getAndRemoveCachedVotes (rs_pending_votes rs) id in
  (votes, set_pending_votes rs pv).

Definition increaseOffsetRound (rs : RoundState) : RoundState :=
  mkRoundState (rs_current_round rs) (rs_pending_votes rs) (rs_send_vote rs)
    (rs_offset_round rs + 1).

Definition resetOffsetRound (rs : RoundState) : RoundState :=
  mkRoundState (rs_current_round rs) (rs_pending_votes rs) (rs_send_vote rs) 0.

(** * Properties *)

(** ** The invariant

    [P] is the set of votes accepted so far. *)

Section Invariant.

Context {V : ValidatorVerifier}.

(** A signature under a digest comes from a vote on that digest. *)
Definition entry_ok (P : Vote -> Prop) (d : HashValue) (l : LedgerInfoWithSignatures) : Prop :=
  consensus_data_hash (ls_ledger_info l) = d
  /\ (exists v, P v /\ vt_ledger_info v = ls_ledger_info l)
  /\ forall a s, ls_signatures l !! a = Some s ->
       exists v, P v /\ vt_author v = a /\ vote_digest v = d /\ vt_signature v = s.

Record pending_ok (P : Vote -> Prop) (pv : PendingVotes) : Prop := {
  po_author : forall a v, pv_author_to_vote pv !! a = Some v -> P v /\ vt_author v = a;
  po_entry : forall d l, pv_li_digest_to_votes pv !! d = Some l -> entry_ok P d l;
  po_cache : forall d vs v, pv_cache_votes pv !! d = Some vs -> v ∈ vs -> P v
}.

Lemma pending_ok_new P : pending_ok P PendingVotes_New.
Proof. split; intros *; simpl; by rewrite lookup_empty. Qed.

Lemma pending_ok_mono (P Q : Vote -> Prop) pv :
  (forall v, P v -> Q v) -> pending_ok P pv -> pending_ok Q pv.
Proof.
  intros HPQ [Ha He Hc]. split; [naive_solver| |naive_solver].
  intros d l Hl. destruct (He d l Hl) as (? & (v & ? & ?) & Hs).
  split; [done|]. split; [eauto|]. intros a s Has. destruct (Hs a s Has) as (w & ? & ?). eauto.
Qed.

Lemma entry_ok_digest P pv vote :
  pending_ok P pv -> P vote -> entry_ok P (vote_digest vote) (digest_entry pv vote).
Proof.
  intros Hok HP. unfold digest_entry.
  destruct (pv_li_digest_to_votes pv !! _) as [l|] eqn:El; [by apply (po_entry _ _ Hok)|].
  split; [done|]. split; [eauto|]. intros a s. simpl. by rewrite lookup_empty.
Qed.

Lemma entry_ok_add P vote l :
  P vote -> entry_ok P (vote_digest vote) l ->
  entry_ok P (vote_digest vote) (addSignature l (vt_author vote) (vt_signature vote)).
Proof.
  intros HP (Hd & Hv & Hs). split; [done|]. split; [done|].
  intros a s. simpl. intros [[<- <-]|[_ Hl]]%lookup_insert_Some; [by exists vote | eauto].
Qed.

(** What storing a vote yields, on both branches. *)
Lemma store_vote_spec P pv vote q r q' pv' :
  pending_ok P pv -> P vote -> store_vote pv vote q = (r, q', pv') ->
  pending_ok P pv'
  /\ ((r = VoteAdded /\ q' = q)
      \/ (r = NewQuorumCertificate /\ qc_vote_data q' = vt_vote_data vote
          /\ entry_ok P (vote_digest vote) (qc_signed_ledger_info q')
          /\ checkVotingPower (qc_signatures q') = true)).
Proof.
  intros Hok HP. pose proof (entry_ok_add _ _ _ HP (entry_ok_digest _ _ _ Hok HP)) as He.
  unfold store_vote.
  assert (Hpv : forall rec, pending_ok P
    (mkPendingVotes (<[vt_author vote := vote]> (pv_author_to_vote pv))
       (<[vote_digest vote := addSignature (digest_entry pv vote) (vt_author vote)
                                (vt_signature vote)]> (pv_li_digest_to_votes pv))
       rec (pv_maybe_partial_timeout_cert pv) (pv_cache_votes pv))).
  { intros rec. split; simpl.
    - intros a v [[<- <-]|[_ Hl]]%lookup_insert_Some; [done|]. by apply (po_author _ _ Hok).
    - intros d l [[<- <-]|[_ Hl]]%lookup_insert_Some; [done|]. by apply (po_entry _ _ Hok).
    - apply (po_cache _ _ Hok). }
  destruct (checkVotingPower _) eqn:Ev; intros [= <- <- <-]; (split; [apply Hpv|]).
  - right. done.
  - by left.
Qed.

Lemma insertVote_spec P pv vote q r q' pv' :
  pending_ok P pv -> P vote -> insertVote pv vote q = (r, q', pv') ->
  pending_ok P pv'
  /\ (r = NewQuorumCertificate ->
        qc_vote_data q' = vt_vote_data vote
        /\ entry_ok P (vote_digest vote) (qc_signed_ledger_info q')
        /\ checkVotingPower (qc_signatures q') = true)
  /\ (r <> NewQuorumCertificate -> q' = q).
Proof.
  intros Hok HP. unfold insertVote.
  repeat case_match; try (intros [= <- <- <-]; done);
    intros (Hok' & [[-> ->]|(-> & Hq)])%(store_vote_spec P); done.
Qed.

Lemma cacheVote_ok (P : Vote -> Prop) pv vote :
  pending_ok P pv -> P vote -> pending_ok P (cacheVote pv vote).2.
Proof.
  intros Hok HP. split; simpl; [apply Hok | apply Hok|].
  intros d vs v [[<- <-]|[_ Hl]]%lookup_insert_Some Hin; [|by eapply (po_cache _ _ Hok)].
  apply elem_of_app in Hin as [Hin|Hin%list_elem_of_singleton]; [|by subst].
  destruct (pv_cache_votes pv !! _) as [vs'|] eqn:E; simpl in Hin; [|by apply elem_of_nil in Hin].
  by eapply (po_cache _ _ Hok).
Qed.

Lemma getAndRemoveCachedVotes_ok (P : Vote -> Prop) pv id :
  pending_ok P pv ->
  pending_ok P (getAndRemoveCachedVotes pv id).2
  /\ Forall P (getAndRemoveCachedVotes pv id).1.
Proof.
  intros Hok. unfold getAndRemoveCachedVotes.
  destruct (pv_cache_votes pv !! id) as [vs|] eqn:E; simpl; [|done]. split.
  - split; simpl; [apply Hok | apply Hok|].
    intros d ws v [[<- <-]|[_ Hl]]%lookup_insert_Some Hin; [by apply elem_of_nil in Hin|].
    by eapply (po_cache _ _ Hok).
  - apply Forall_forall. intros v Hv. by eapply (po_cache _ _ Hok).
Qed.

End Invariant.

(** ** Runs

    The votes of a round arriving one after the other, with what each call
    returned. *)

Section Runs.

Context {V : ValidatorVerifier}.

Fixpoint insertVotes (pv : PendingVotes) (votes : list Vote)
  : list (VoteReceptionResult * QuorumCertificate) * PendingVotes :=
  match votes with
  | [] => ([], pv)
  | vote :: votes =>
      let '(r, q, pv) := insertVote pv vote QuorumCertificate_default in
      let '(rest, pv) := insertVotes pv votes in
      ((r, q) :: rest, pv)
  end.

(** A certificate the run returned, with the vote that completed it. *)
Definition completes (P : Vote -> Prop) (q : QuorumCertificate) : Prop :=
  exists vote, P vote /\ qc_vote_data q = vt_vote_data vote
    /\ entry_ok P (vote_digest vote) (qc_signed_ledger_info q)
    /\ checkVotingPower (qc_signatures q) = true.

Lemma insertVotes_spec P pv votes :
  pending_ok P pv -> Forall P votes ->
  pending_ok P (insertVotes pv votes).2
  /\ forall q, (NewQuorumCertificate, q) ∈ (insertVotes pv votes).1 -> completes P q.
Proof.
  revert pv. induction votes as [|vote votes IH]; intros pv Hok HP; simpl.
  { split; [done|]. by intros q ?%elem_of_nil. }
  destruct (insertVote pv vote _) as [[r q0] pv'] eqn:Ei.
  apply Forall_cons in HP as [Hv HP].
  destruct (insertVote_spec P pv vote _ r q0 pv' Hok Hv Ei) as (Hok' & Hq & _).
  destruct (insertVotes pv' votes) as [rest pv''] eqn:Er. specialize (IH pv' Hok' HP).
  rewrite Er in IH. destruct IH as [IH1 IH2]. split; [done|].
  intros q [Heq|Hin]%elem_of_cons; [|by apply IH2].
  injection Heq as <- <-. destruct (Hq eq_refl) as (? & ? & ?). by exists vote.
Qed.

End Runs.

(** Distinct authors that vote for one digest, collected from a state in which
    no certificate exists for it and none of them has voted. *)
Lemma insertVotes_done {V : ValidatorVerifier} pv votes d q :
  pv_quorum_certificate_record pv !! d = Some q ->
  (forall v, v ∈ votes -> vote_digest v = d) ->
  (insertVotes pv votes).1.*1 = replicate (length votes) QCHasAlreadyProcessed.
Proof.
  intros Hq. induction votes as [|v votes IH]; intros Hd; simpl; [done|].
  unfold insertVote. rewrite (Hd v), Hq by set_solver.
  destruct (insertVotes pv votes) as [rest pv'] eqn:E. simpl in *. f_equal. apply IH.
  intros w Hw. apply Hd. set_solver.
Qed.

(** The number of signatures collected for a digest. *)
Definition collected (pv : PendingVotes) (d : HashValue) : nat :=
  match pv_li_digest_to_votes pv !! d with
  | Some l => size (ls_signatures l)
  | None => 0%nat
  end.

(** The signers of a digest are among those whose vote is stored. *)
Definition signers_stored (pv : PendingVotes) (d : HashValue) : Prop :=
  forall l a s, pv_li_digest_to_votes pv !! d = Some l -> ls_signatures l !! a = Some s ->
    is_Some (pv_author_to_vote pv !! a).

Lemma insertVote_fresh {V : ValidatorVerifier} pv v q :
  pv_quorum_certificate_record pv !! vote_digest v = None ->
  pv_author_to_vote pv !! vt_author v = None ->
  insertVote pv v q = store_vote pv v q.
Proof. intros Hq Ha. unfold insertVote. by rewrite Hq, Ha. Qed.

Lemma store_vote_collects {D : Digest} K pv v q :
  signers_stored pv (vote_digest v) ->
  pv_author_to_vote pv !! vt_author v = None ->
  exists q' pv', store_vote (V := HotstuffVerifier K) pv v q
    = (if k_quorum K <=? Z.of_nat (collected pv (vote_digest v)) + 1
       then NewQuorumCertificate else VoteAdded, q', pv')
    /\ collected pv' (vote_digest v) = S (collected pv (vote_digest v))
    /\ pv_author_to_vote pv' = <[vt_author v := v]> (pv_author_to_vote pv)
    /\ signers_stored pv' (vote_digest v)
    /\ (if k_quorum K <=? Z.of_nat (collected pv (vote_digest v)) + 1
        then pv_quorum_certificate_record pv' !! vote_digest v = Some q'
        else pv_quorum_certificate_record pv' = pv_quorum_certificate_record pv).
Proof.
  intros Hs Ha. set (d := vote_digest v) in *.
  set (l := addSignature (digest_entry pv v) (vt_author v) (vt_signature v)).
  assert (Hl : size (ls_signatures l) = S (collected pv d)).
  { unfold l, collected, digest_entry. fold d. simpl.
    destruct (pv_li_digest_to_votes pv !! d) as [l0|] eqn:El.
    - apply map_size_insert_None. apply eq_None_not_Some. intros [s Hsig].
      destruct (Hs l0 _ s El Hsig) as [w Hw]. congruence.
    - simpl. by rewrite map_size_insert_None, map_size_empty by apply lookup_empty. }
  assert (Hst : forall rec, signers_stored
    (mkPendingVotes (<[vt_author v := v]> (pv_author_to_vote pv))
       (<[d := l]> (pv_li_digest_to_votes pv)) rec
       (pv_maybe_partial_timeout_cert pv) (pv_cache_votes pv)) d).
  { intros rec l' a s. simpl. rewrite lookup_insert_eq. intros [= <-] Hsig.
    destruct (decide (a = vt_author v)) as [->|Hn]; [rewrite lookup_insert_eq; eauto|].
    rewrite lookup_insert_ne by done. unfold l in Hsig. simpl in Hsig.
    rewrite lookup_insert_ne in Hsig by done. unfold digest_entry in Hsig. fold d in Hsig.
    destruct (pv_li_digest_to_votes pv !! d) as [l0|] eqn:El; [by eapply Hs|].
    simpl in Hsig. by rewrite lookup_empty in Hsig. }
  unfold store_vote. fold d. change (addSignature _ _ _) with l.
  change (checkVotingPower (ls_signatures l))
    with (Z.of_nat (size (ls_signatures l)) >=? k_quorum K). rewrite Hl.
  replace (Z.of_nat (S (collected pv d)) >=? k_quorum K)
    with (k_quorum K <=? Z.of_nat (collected pv d) + 1)
    by (rewrite Z.geb_leb; f_equal; lia).
  destruct (k_quorum K <=? _); do 2 eexists; (split; [reflexivity|]); simpl;
    unfold collected; cbn [pv_li_digest_to_votes pv_author_to_vote pv_quorum_certificate_record];
    rewrite ?lookup_insert_eq, ?Hl; repeat split; apply Hst.
Qed.

(** What a run of [n] fresh votes returns when [k] more are needed. *)
Definition quorum_trace (k n : nat) : list VoteReceptionResult :=
  take n (replicate (k - 1) VoteAdded ++ NewQuorumCertificate :: replicate n QCHasAlreadyProcessed).

Lemma quorum_trace_more k n :
  (1 < k)%nat -> quorum_trace k (S n) = VoteAdded :: quorum_trace (k - 1) n.
Proof.
  intros Hk. unfold quorum_trace. destruct k as [|[|k]]; [lia..|]. simpl. f_equal.
  rewrite Nat.sub_0_r. rewrite !take_app, !length_replicate. f_equal.
  destruct (n - k)%nat as [|m] eqn:E; simpl; [done|]. f_equal.
  destruct n as [|n]; [lia|]. change (QCHasAlreadyProcessed :: replicate (S n) QCHasAlreadyProcessed)
    with (replicate (S (S n)) QCHasAlreadyProcessed). rewrite !take_replicate. f_equal. lia.
Qed.

Lemma insertVotes_collect {D : Digest} K d votes pv :
  pv_quorum_certificate_record pv !! d = None -> signers_stored pv d ->
  (forall v, v ∈ votes -> vote_digest v = d /\ pv_author_to_vote pv !! vt_author v = None) ->
  NoDup (vt_author <$> votes) -> Z.of_nat (collected pv d) < k_quorum K ->
  (insertVotes (V := HotstuffVerifier K) pv votes).1.*1
  = quorum_trace (Z.to_nat (k_quorum K) - collected pv d) (length votes).
Proof.
  revert pv. induction votes as [|v votes IH]; intros pv Hq Hs Hv Hnd Hlt; simpl; [done|].
  destruct (Hv v) as [Hd Ha]; [set_solver|]. apply NoDup_cons in Hnd as [Hni Hnd]. subst d.
  rewrite insertVote_fresh by done.
  destruct (store_vote_collects K pv v QuorumCertificate_default Hs Ha)
    as (q' & pv' & -> & Hc & Hat & Hs' & Hr).
  destruct (insertVotes pv' votes) as [rest pv''] eqn:E.
  assert (Er : rest.*1 = (insertVotes (V := HotstuffVerifier K) pv' votes).1.*1) by (by rewrite E).
  simpl. destruct (Z.leb_spec (k_quorum K) (Z.of_nat (collected pv (vote_digest v)) + 1)) as [Hle|Hgt].
  - replace (Z.to_nat (k_quorum K) - collected pv (vote_digest v))%nat with 1%nat by lia.
    unfold quorum_trace. simpl. f_equal. fold (@fmap list _ _ _ (@fst VoteReceptionResult QuorumCertificate) rest).
    rewrite Er. rewrite (insertVotes_done pv' votes (vote_digest v) q' Hr) by set_solver.
    change (QCHasAlreadyProcessed :: replicate (length votes) QCHasAlreadyProcessed)
      with (replicate (S (length votes)) QCHasAlreadyProcessed).
    rewrite take_replicate. f_equal. lia.
  - rewrite quorum_trace_more by lia. f_equal.
    fold (@fmap list _ _ _ (@fst VoteReceptionResult QuorumCertificate) rest). rewrite Er, IH;
      [f_equal; lia | by rewrite Hr | done | | done | lia].
    intros w Hw. destruct (Hv w) as [Hwd Hwa]; [set_solver|]. split; [done|].
    rewrite Hat, lookup_insert_ne; [done|]. intros Heq. apply Hni.
    rewrite Heq. apply list_elem_of_fmap. eauto.
Qed.

(** The ledger info of a digest's entry is the first vote's. *)
Lemma insertVotes_ledger_info {V : ValidatorVerifier} pv votes l0 d q :
  (forall l, pv_li_digest_to_votes pv !! d = Some l -> ls_ledger_info l = l0) ->
  is_Some (pv_li_digest_to_votes pv !! d) ->
  (forall v, v ∈ votes -> vote_digest v = d) ->
  (NewQuorumCertificate, q) ∈ (insertVotes pv votes).1 -> qc_ledger_info q = l0.
Proof.
  revert pv. induction votes as [|v votes IH]; intros pv Hl Hd Hv; simpl; [by intros ?%elem_of_nil|].
  assert (Hvd : vote_digest v = d) by (apply Hv; set_solver).
  destruct (insertVote pv v _) as [[r q0] pv'] eqn:Ei.
  destruct (insertVotes pv' votes) as [rest pv''] eqn:Er. simpl.
  assert (Hs : (r = NewQuorumCertificate -> qc_ledger_info q0 = l0)
    /\ (forall l, pv_li_digest_to_votes pv' !! d = Some l -> ls_ledger_info l = l0)
    /\ is_Some (pv_li_digest_to_votes pv' !! d)).
  { destruct Hd as [l Hd]. pose proof (Hl l Hd) as El.
    unfold insertVote, store_vote, digest_entry in Ei. rewrite Hvd, Hd in Ei.
    repeat case_match; injection Ei as <- <- <-; simpl;
      rewrite ?lookup_insert_eq; (split; [done|]); (split; [|eauto]); naive_solver. }
  destruct Hs as (Hq & Hl' & Hd').
  intros [Heq|Hin]%elem_of_cons; [injection Heq as <- <-; by apply Hq|].
  apply (IH pv' Hl' Hd'); [intros w Hw; apply Hv; set_solver | by rewrite Er].
Qed.

(** ** Votes for evaluation *)

Module ToyVotes.

(** A vote of [a] for the block [id] of round 2, with commit info [ci]. *)
Definition vote_for (a : Author) (id tc : Z) (ci : BlockInfo) : Vote :=
  let vd := VoteData_New (Toy.block_info 2 id) (Toy.block_info 1 11) tc in
  let d := VoteData_hash (D := Toy.digest) vd in
  Vote_New 0 a vd (mkCommitLedgerInfo ci d) (Toy.sign a d).

Definition votes : list Vote :=
  (fun a => vote_for a 22 0 (Toy.block_info 0 7)) <$> Toy.validators.

End ToyVotes.

(** ** Theorems *)

(** A certificate a leader aggregates is accepted by every validator.
    When every vote it collected passed [verifySignature], came from a trusted
    author and was for a well-formed block after genesis, the certificate
    [PendingVotes::insertVote] returns passes [QuorumCertificate::Verify], and
    each of its signatures is that of a collected vote on the same digest. *)
Theorem aggregated_qc_verifies {D : Digest} (K : Keys) (votes : list Vote)
    (q : QuorumCertificate) :
  (forall v, v ∈ votes ->
     trusted K (vt_author v) = true
     /\ Hc_verifySignature_vote K (vt_author v) (vt_signature v) v = true
     /\ VoteData_Verify (vt_vote_data v) = true /\ vote_round v <> 0) ->
  (NewQuorumCertificate, q)
    ∈ (insertVotes (V := HotstuffVerifier K) PendingVotes_New votes).1 ->
  QuorumCertificate_Verify (V := HotstuffVerifier K) q = true
  /\ forall a s, qc_signatures q !! a = Some s ->
       exists v, v ∈ votes /\ vt_author v = a /\ vt_signature v = s
                 /\ vote_digest v = VoteData_hash (qc_vote_data q).
Proof.
  intros Hv Hq. destruct (insertVotes_spec (V := HotstuffVerifier K) (fun v => v ∈ votes)
    PendingVotes_New votes) as [_ Hc]; [apply pending_ok_new | by apply Forall_forall|].
  destruct (Hc q Hq) as (w & Hw & Ew & (Eh & _ & Hs) & Hp). simpl in Hp.
  assert (Hdig : forall v, v ∈ votes -> vote_digest v = VoteData_hash (vt_vote_data v)
    /\ k_verifyDigest K (vt_author v) (vote_digest v) (vt_signature v) = true).
  { intros v Hin. destruct (Hv v Hin) as (_ & Hsig & _). unfold Hc_verifySignature_vote in Hsig.
    repeat split_if; btests; by split. }
  destruct (Hdig w Hw) as [Edw _]. rewrite Ew, <- Edw.
  split; [|intros a s Has; destruct (Hs a s Has) as (v & ? & ? & ? & ?); eauto].
  apply QuorumCertificate_Verify_spec. unfold certified_block. rewrite Ew, <- Edw.
  split; [exact Eh|]. destruct (Hv w Hw) as (_ & _ & Hvd & Hr).
  rewrite decide_False by exact Hr. split; [|done].
  apply Hc_verifyLedgerInfo_spec. split.
  - intros a s Has. rewrite Eh. destruct (Hs a s Has) as (v & Hin & <- & Ed & <-).
    rewrite <- Ed. split; [apply (Hv v Hin) | apply (Hdig v Hin)].
  - unfold Hc_checkVotingPower in Hp. btests. unfold qc_signatures in Hp. lia.
Qed.

Lemma aggregated_qc_verifies_witness :
  exists q, QuorumCertificate_Verify (D := Toy.digest)
              (V := HotstuffVerifier (D := Toy.digest) (Toy.keys [1])) q = true.
Proof.
  eexists. apply (aggregated_qc_verifies (D := Toy.digest) (Toy.keys [1]) ToyVotes.votes
    (mkQuorumCertificate Toy.vote_data
       (mkLedgerInfoWithSignatures
          (mkCommitLedgerInfo (Toy.block_info 0 7) (VoteData_hash (D := Toy.digest) Toy.vote_data))
          (list_to_map ((fun a => (a, Toy.sign a (VoteData_hash (D := Toy.digest) Toy.vote_data)))
                          <$> [[3]; [2]; [1]]))))).
  - apply Forall_forall, Forall_fmap. repeat constructor; vm_compute; done.
  - vm_compute. apply list_elem_of_In. simpl. auto.
Defined.

(** Votes of distinct authors on one digest form a certificate exactly
    when the quorum is reached: before, each vote is added; the vote that
    completes the quorum returns the certificate; later ones are told it has
    been processed. *)
Theorem votes_reach_quorum {D : Digest} (K : Keys) (votes : list Vote) (d : HashValue) :
  (forall v, v ∈ votes -> vote_digest v = d) -> NoDup (vt_author <$> votes) -> 0 < k_quorum K ->
  (insertVotes (V := HotstuffVerifier K) PendingVotes_New votes).1.*1
  = quorum_trace (Z.to_nat (k_quorum K)) (length votes).
Proof.
  intros Hd Hnd Hq. rewrite (insertVotes_collect K d); [| | | |done|done].
  - unfold collected. simpl. rewrite lookup_empty. f_equal. lia.
  - apply lookup_empty.
  - intros l a s. simpl. by rewrite lookup_empty.
  - intros v Hv. split; [by apply Hd | apply lookup_empty].
Qed.

Lemma votes_reach_quorum_witness :
  quorum_trace 3 4 = [VoteAdded; VoteAdded; NewQuorumCertificate; QCHasAlreadyProcessed]
  /\ (insertVotes (V := HotstuffVerifier (D := Toy.digest) (Toy.keys [1]))
        PendingVotes_New ToyVotes.votes).1.*1 = quorum_trace 3 4.
Proof.
  split; [reflexivity|].
  apply (votes_reach_quorum (D := Toy.digest) (Toy.keys [1]) ToyVotes.votes
           (VoteData_hash (D := Toy.digest) Toy.vote_data)).
  - apply Forall_forall, Forall_fmap. repeat constructor; vm_compute; done.
  - apply (bool_decide_unpack _). by vm_compute.
  - by vm_compute.
Defined.

(** The commit info of an aggregated certificate is that of the first
    vote collected on its digest, whatever the other voters' ledger infos
    say: the digest the validators sign does not cover it. *)
Theorem qc_ledger_info_first_vote {V : ValidatorVerifier} (first : Vote) (votes : list Vote)
    (q : QuorumCertificate) :
  (forall v, v ∈ votes -> vote_digest v = vote_digest first) ->
  (NewQuorumCertificate, q) ∈ (insertVotes PendingVotes_New (first :: votes)).1 ->
  qc_ledger_info q = vt_ledger_info first.
Proof.
  intros Hd. simpl. rewrite insertVote_fresh by apply lookup_empty.
  unfold store_vote, digest_entry. simpl. rewrite lookup_empty. simpl.
  destruct (checkVotingPower _); simpl;
  match goal with |- context [insertVotes ?pv votes] => remember pv as pv0 eqn:Epv end;
  destruct (insertVotes pv0 votes) as [rest pv'] eqn:Er; intros [Heq|Hin]%elem_of_cons;
    try (injection Heq as ->; reflexivity); try discriminate Heq;
  apply (insertVotes_ledger_info pv0 votes (vt_ledger_info first) (vote_digest first) q);
    try done; try (by rewrite Er); subst pv0; simpl; rewrite lookup_insert_eq; naive_solver.
Qed.

Lemma qc_ledger_info_first_vote_witness :
  let bad := ToyVotes.vote_for [4] 22 0 (Toy.block_info 9 66) in
  let honest := take 2 ToyVotes.votes in
  exists q, (NewQuorumCertificate, q)
              ∈ (insertVotes (V := HotstuffVerifier (D := Toy.digest) (Toy.keys [1]))
                   PendingVotes_New (bad :: honest)).1
            /\ qc_ledger_info q = vt_ledger_info bad.
Proof.
  intros bad honest.
  exists (mkQuorumCertificate Toy.vote_data
       (mkLedgerInfoWithSignatures (vt_ledger_info bad)
          (list_to_map ((fun a => (a, Toy.sign a (VoteData_hash (D := Toy.digest) Toy.vote_data)))
                          <$> [[2]; [1]; [4]])))).
  assert (Hin : (NewQuorumCertificate, mkQuorumCertificate Toy.vote_data
       (mkLedgerInfoWithSignatures (vt_ledger_info bad)
          (list_to_map ((fun a => (a, Toy.sign a (VoteData_hash (D := Toy.digest) Toy.vote_data)))
                          <$> [[2]; [1]; [4]]))))
     ∈ (insertVotes (V := HotstuffVerifier (D := Toy.digest) (Toy.keys [1]))
          PendingVotes_New (bad :: honest)).1).
  { vm_compute. apply list_elem_of_In. simpl. auto. }
  split; [exact Hin|].
  apply (qc_ledger_info_first_vote (V := HotstuffVerifier (D := Toy.digest) (Toy.keys [1]))
           bad honest); [|exact Hin].
  apply Forall_forall. repeat constructor; vm_compute; done.
Defined.

(** Equivocation is only compared with the author's latest vote.  A vote
    for another block at the same timeout count is refused, but the same two
    votes are both counted when a vote with another timeout count comes
    between them. *)
Theorem equivocation_masked {V : ValidatorVerifier} (v1 v2 v3 : Vote) :
  vt_author v2 = vt_author v1 -> vt_author v3 = vt_author v1 ->
  vd_tc (vt_vote_data v3) = vd_tc (vt_vote_data v1) ->
  vd_tc (vt_vote_data v2) <> vd_tc (vt_vote_data v1) ->
  vote_digest v1 <> vote_digest v2 -> vote_digest v1 <> vote_digest v3 ->
  vote_digest v2 <> vote_digest v3 ->
  (forall s, checkVotingPower {[vt_author v1 := s]} = false) ->
  (insertVotes PendingVotes_New [v1; v3]).1.*1 = [VoteAdded; EquivocateVote]
  /\ (insertVotes PendingVotes_New [v1; v2; v3]).1.*1 = [VoteAdded; VoteAdded; VoteAdded].
Proof.
  intros A2 A3 T3 T2 N12 N13 N23 Hp.
  assert (Hp' : forall s, checkVotingPower (<[vt_author v1 := s]> ∅) = false) by (intros s; apply Hp).
  apply Z.eqb_neq in T2. assert (T12 : (vd_tc (vt_vote_data v1) =? vd_tc (vt_vote_data v2)) = false)
    by (rewrite Z.eqb_sym; exact T2).
  assert (N31 : (vote_digest v3 =? vote_digest v1) = false) by (apply Z.eqb_neq; congruence).
  split; simpl; unfold insertVote, store_vote, digest_entry; simpl;
    repeat progress (simpl; rewrite ?A2, ?A3, ?lookup_empty, ?lookup_insert_eq, ?Hp', ?T3,
      ?Z.eqb_refl, ?T2, ?T12, ?N31; rewrite ?lookup_insert_ne by congruence); done.
Qed.

Lemma equivocation_masked_witness :
  let ci := Toy.block_info 0 7 in
  let v1 := ToyVotes.vote_for [4] 22 0 ci in
  let v2 := ToyVotes.vote_for [4] 22 1 ci in
  let v3 := ToyVotes.vote_for [4] 33 0 ci in
  (insertVotes (V := HotstuffVerifier (D := Toy.digest) (Toy.keys [1]))
     PendingVotes_New [v1; v2; v3]).1.*1 = [VoteAdded; VoteAdded; VoteAdded].
Proof.
  intros ci v1 v2 v3.
  apply (equivocation_masked (V := HotstuffVerifier (D := Toy.digest) (Toy.keys [1])) v1 v2 v3);
    try (vm_compute; congruence).
Defined.
