(* ===== verification/HsNode.v ===== *)
(** * The state of a HotStuff instance

    [Node] gathers what [Hotstuff.h] owns: the safety rules, the block
    storage, the round state, the proposal generator's counter and the flags of
    the round manager, with the application behind the [StateCompute] and
    [CommandManager] interfaces, the clock, and the log of what the node did to
    the outside: messages and timers.

    A handler of the code is a computation of the state monad [M]; a call of
    the network interface or of a timer is an [Effect] appended to the log.
    Handlers are atomic here: the vote jobs of the code hold the consensus
    mutex, while proposal jobs and timers do not, and interleavings inside a
    handler are not modelled.  A message to the node itself is posted as a job,
    so that a handler is never re-entered. *)

From S2P Require Import Prelude HsTypes HsVerifier HsCore HsPendingVotes.

#[local] Open Scope Z_scope.

(** ** Interfaces *)

(** What the callback handed to [asyncBlock] captured: the message whose
    certified block is missing. *)
Inductive Continuation :=
  | CheckedProposal (proposal : Block) (sync_info : SyncInfo)
  | CheckedVote (vote : Vote) (sync_info : SyncInfo).

(** StateCompute.h and CommandManager (ProposalGenerator.h).  [compute] fills a
    result and says whether it succeeded; [extract] may rewrite the block data
    it is given. *)
Class Application (A : Type) := {
  compute : A -> Block -> bool * StateComputeResult * A;
  verify : Block -> StateComputeResult -> bool;
  app_commit : A -> ExecutedBlock -> A;
  syncState : A -> BlockInfo -> bool * A;
  syncBlock : A -> HashValue -> Author -> option ExecutedBlock * A;
  asyncBlock : A -> HashValue -> Author -> Continuation -> A;
  canExtract : A -> bool * A;
  extract : A -> BlockData -> option Command * BlockData * A
}.

(** ProposerElection.h *)
Class ProposerElection := GetValidProposer : Round -> Author.

(** The boost archive of an [EpochChange]. *)
Class Archive := serialize_epoch_change : EpochChange -> Bytes.

Definition IsValidProposer {PE : ProposerElection} (author : Author) (round : Round) : bool :=
  bool_decide (GetValidProposer round = author).

(** A round plus a timeout count: [int64_t + size_t] is computed unsigned and
    converted back. *)
Definition add_tc (round tc : Z) : Round := i64 (u64 (u64 round + tc)).

(** A payload is dereferenced without a test; a proposal without one has no
    author. *)
Definition IsValidProposal {PE : ProposerElection} (block : Block) : bool :=
  match bd_block_type (bk_block_data block) with
  | Proposal =>
      IsValidProposer (bd_author (bk_block_data block))
        (add_tc (bk_round block) (vd_tc (qc_vote_data (bk_qc block))))
  | _ => false
  end.

(** ** Config.h *)

Record Config := mkConfig {
  cf_id : Author;
  cf_epoch : Epoch;
  cf_timeout : Z;
  cf_interval_extract : Z;
  cf_disable_nil_block : bool
}.

(** ** Effects *)

Inductive Effect :=
  | BroadcastProposal (proposal : Block) (sync_info : SyncInfo)
  | BroadcastVote (vote : Vote) (sync_info : SyncInfo)
  | SendVote (author : Author) (vote : Vote) (sync_info : SyncInfo)
  | BroadcastEpochChange (epoch_change : EpochChange) (sync_info : SyncInfo)
  | SetRoundTimer (seconds : Z) (round : Round)
  | SetProposalTimer (msecs : Z) (event : NewRoundEvent)
  | CancelRoundTimer
  | CancelProposalTimer.

(** ** BlockStorage.h: the state *)

Record BlockStorage := mkBlockStorage {
  bs_genesis_block_id : HashValue;
  bs_cache_blocks : gmap HashValue ExecutedBlock;
  bs_highest_quorum_cert : QuorumCertificate;
  bs_highest_commit_cert : QuorumCertificate;
  bs_highest_timeout_cert : option TimeoutCertificate;
  bs_committed_round : Round
}.

(** ** The node *)

Record Node (A : Type) := mkNode {
  nd_config : Config;
  nd_epoch_state : EpochState;
  nd_storage : BlockStorage;
  nd_round_state : RoundState;
  nd_safety : SafetyData;
  nd_last_round_generated : Round;
  nd_stop : bool;
  nd_validating : bool;
  nd_started : bool;  (* round_manager_ != nullptr *)
  nd_app : A;
  nd_now : Z;
  nd_out : list Effect
}.

Arguments mkNode {A}.
Arguments nd_config {A}.
Arguments nd_epoch_state {A}.
Arguments nd_storage {A}.
Arguments nd_round_state {A}.
Arguments nd_safety {A}.
Arguments nd_last_round_generated {A}.
Arguments nd_stop {A}.
Arguments nd_validating {A}.
Arguments nd_started {A}.
Arguments nd_app {A}.
Arguments nd_now {A}.
Arguments nd_out {A}.

Section Setters.

Context {A : Type} (n : Node A).

Definition with_storage (s : BlockStorage) : Node A :=
  mkNode (nd_config n) (nd_epoch_state n) s (nd_round_state n) (nd_safety n)
    (nd_last_round_generated n) (nd_stop n) (nd_validating n) (nd_started n) (nd_app n)
    (nd_now n) (nd_out n).

Definition with_round_state (r : RoundState) : Node A :=
  mkNode (nd_config n) (nd_epoch_state n) (nd_storage n) r (nd_safety n)
    (nd_last_round_generated n) (nd_stop n) (nd_validating n) (nd_started n) (nd_app n)
    (nd_now n) (nd_out n).

Definition with_safety (s : SafetyData) : Node A :=
  mkNode (nd_config n) (nd_epoch_state n) (nd_storage n) (nd_round_state n) s
    (nd_last_round_generated n) (nd_stop n) (nd_validating n) (nd_started n) (nd_app n)
    (nd_now n) (nd_out n).

Definition with_last_round_generated (r : Round) : Node A :=
  mkNode (nd_config n) (nd_epoch_state n) (nd_storage n) (nd_round_state n) (nd_safety n)
    r (nd_stop n) (nd_validating n) (nd_started n) (nd_app n) (nd_now n) (nd_out n).

Definition with_flags (stop validating started : bool) : Node A :=
  mkNode (nd_config n) (nd_epoch_state n) (nd_storage n) (nd_round_state n) (nd_safety n)
    (nd_last_round_generated n) stop validating started (nd_app n) (nd_now n) (nd_out n).

Definition with_epoch_state (e : EpochState) : Node A :=
  mkNode (nd_config n) e (nd_storage n) (nd_round_state n) (nd_safety n)
    (nd_last_round_generated n) (nd_stop n) (nd_validating n) (nd_started n) (nd_app n)
    (nd_now n) (nd_out n).

Definition with_app (a : A) : Node A :=
  mkNode (nd_config n) (nd_epoch_state n) (nd_storage n) (nd_round_state n) (nd_safety n)
    (nd_last_round_generated n) (nd_stop n) (nd_validating n) (nd_started n) a
    (nd_now n) (nd_out n).

Definition with_now (t : Z) : Node A :=
  mkNode (nd_config n) (nd_epoch_state n) (nd_storage n) (nd_round_state n) (nd_safety n)
    (nd_last_round_generated n) (nd_stop n) (nd_validating n) (nd_started n) (nd_app n)
    t (nd_out n).

Definition with_effect (e : Effect) : Node A :=
  mkNode (nd_config n) (nd_epoch_state n) (nd_storage n) (nd_round_state n) (nd_safety n)
    (nd_last_round_generated n) (nd_stop n) (nd_validating n) (nd_started n) (nd_app n)
    (nd_now n) (nd_out n ++ [e]).

End Setters.

(** ** The state monad *)

Definition M (A T : Type) : Type := Node A -> T * Node A.

#[export] Instance M_ret A : MRet (M A) := fun T x n => (x, n).
#[export] Instance M_bind A : MBind (M A) := fun T U f m n => f (m n).1 (m n).2.

Definition get {A T} (f : Node A -> T) : M A T := fun n => (f n, n).
Definition modify {A} (f : Node A -> Node A) : M A unit := fun n => (tt, f n).
Definition emit {A} (e : Effect) : M A unit := modify (fun n => with_effect n e).

(** A component's operation, lifted to the node. *)
Definition on_round_state {A T} (f : RoundState -> T * RoundState) : M A T :=
  fun n => ((f (nd_round_state n)).1, with_round_state n (f (nd_round_state n)).2).
Definition on_app {A T} (f : A -> T * A) : M A T :=
  fun n => ((f (nd_app n)).1, with_app n (f (nd_app n)).2).
Definition on_storage {A} (f : BlockStorage -> BlockStorage) : M A unit :=
  modify (fun n => with_storage n (f (nd_storage n))).
