(* ===== verification/HsStorage.v ===== *)
(** * Block storage (BlockStorage)

    The cache of executed blocks, the highest certificates, the commit of a
    block when a certificate announces it, and the collection of old blocks. *)

From S2P Require Import Prelude HsTypes HsVerifier HsCore HsPendingVotes HsNode.

#[local] Open Scope Z_scope.

(** ** Operations on the storage alone *)

Definition set_cache_blocks (s : BlockStorage) (m : gmap HashValue ExecutedBlock) : BlockStorage :=
  mkBlockStorage (bs_genesis_block_id s) m (bs_highest_quorum_cert s) (bs_highest_commit_cert s)
    (bs_highest_timeout_cert s) (bs_committed_round s).

Definition set_committed_round (s : BlockStorage) (r : Round) : BlockStorage :=
  mkBlockStorage (bs_genesis_block_id s) (bs_cache_blocks s) (bs_highest_quorum_cert s)
    (bs_highest_commit_cert s) (bs_highest_timeout_cert s) r.

(** [emplace] keeps the block already stored under the id. *)
Definition emplace_block (s : BlockStorage) (eb : ExecutedBlock) : BlockStorage :=
  match bs_cache_blocks s !! bk_id (eb_block eb) with
  | Some _ => s
  | None => set_cache_blocks s (<[bk_id (eb_block eb) := eb]> (bs_cache_blocks s))
  end.

Definition addExecutedBlock (s : BlockStorage) (eb : ExecutedBlock) : BlockStorage :=
  emplace_block s eb.

Definition blockOf (s : BlockStorage) (hash : HashValue) : option ExecutedBlock :=
  bs_cache_blocks s !! hash.

Definition safetyBlockOf (s : BlockStorage) (hash : HashValue) : option ExecutedBlock :=
  blockOf s hash.

Definition existsBlock (s : BlockStorage) (hash : HashValue) : bool :=
  match bs_cache_blocks s !! hash with Some _ => true | None => false end.

Definition sync_info (s : BlockStorage) : SyncInfo :=
  SyncInfo_new (bs_highest_quorum_cert s) (bs_highest_commit_cert s) (bs_highest_timeout_cert s).

Definition updateQuorumCert (s : BlockStorage) (round : Round) (quorumCert : QuorumCertificate)
  : BlockStorage :=
  mkBlockStorage (bs_genesis_block_id s) (bs_cache_blocks s)
    (if round >? bi_round (certified_block (bs_highest_quorum_cert s))
     then quorumCert else bs_highest_quorum_cert s)
    (if bi_round (qc_commit_info (bs_highest_commit_cert s)) <? bi_round (qc_commit_info quorumCert)
     then quorumCert else bs_highest_commit_cert s)
    (bs_highest_timeout_cert s) (bs_committed_round s).

Definition insertTimeoutCert (s : BlockStorage) (timeoutCert : TimeoutCertificate) : BlockStorage :=
  let replaced :=
    match bs_highest_timeout_cert s with
    | Some t => if to_round (tc_timeout t) <? to_round (tc_timeout timeoutCert)
                then timeoutCert else t
    | None => timeoutCert
    end in
  mkBlockStorage (bs_genesis_block_id s) (bs_cache_blocks s) (bs_highest_quorum_cert s)
    (bs_highest_commit_cert s) (Some replaced) (bs_committed_round s).

(** ** Garbage collection

    The map is ordered by id.  First every block of an older epoch goes; then,
    for each of the fifty rounds that end ten rounds below [round], the first
    block of that epoch and round in the order of the map. *)

Definition older_epoch (epoch : Epoch) (p : HashValue * ExecutedBlock) : Prop :=
  bd_epoch (bk_block_data (eb_block p.2)) < epoch.

#[export] Instance older_epoch_dec epoch p : Decision (older_epoch epoch p).
Proof. unfold older_epoch. apply _. Defined.

Definition at_round (epoch : Epoch) (r : Round) (eb : ExecutedBlock) : bool :=
  (bd_epoch (bk_block_data (eb_block eb)) =? epoch) && (bk_round (eb_block eb) =? r).

(** The smallest id whose block satisfies the test. *)
Definition first_block (test : ExecutedBlock -> bool) (m : gmap HashValue ExecutedBlock)
  : option HashValue :=
  foldr (fun p acc =>
           if test p.2 then
             match acc with Some h => Some (Z.min h p.1) | None => Some p.1 end
           else acc)
    None (map_to_list m).

Definition gc_round (epoch : Epoch) (m : gmap HashValue ExecutedBlock) (r : Round)
  : gmap HashValue ExecutedBlock :=
  match first_block (at_round epoch r) m with
  | Some h => delete h m
  | None => m
  end.

Definition gcBlocks (s : BlockStorage) (epoch : Epoch) (round : Round) : BlockStorage :=
  let m := filter (fun p => ~ older_epoch epoch p) (bs_cache_blocks s) in
  let end_round := round - 10 in
  let begin_round := round - 10 - 50 in
  if end_round <=? 0 then set_cache_blocks s m
  else if begin_round <? 0 then set_cache_blocks s m
  else set_cache_blocks s (foldl (gc_round epoch) m (seqZ begin_round (end_round - begin_round))).

(** ** Operations that reach the application and the network *)

Section Storage.

Context {D : Digest} {V : ValidatorVerifier} {A : Type} {App : Application A}
  {PE : ProposerElection} {Ar : Archive}.

(** A block whose computation fails is not stored; the caller gets an empty
    block with the result as far as it was filled. *)
Definition executeAndAddBlock (block : Block) : M A ExecutedBlock :=
  cached ← get (fun n => blockOf (nd_storage n) (bk_id block));
  match cached with
  | Some eb => mret eb
  | None =>
      r ← on_app (fun a => compute a block);
      if (r.1 : bool) then
        on_storage (fun s => addExecutedBlock s (mkExecutedBlock block r.2));;
        mret (mkExecutedBlock block r.2)
      else mret (mkExecutedBlock Block_empty r.2)
  end.

Definition updateCeritificates (block : Block) : M A unit :=
  on_storage (fun s =>
    mkBlockStorage (bk_id block) ∅ (bk_qc block) (bk_qc block) (bs_highest_timeout_cert s)
      (bk_round block));;
  _ ← executeAndAddBlock block;
  mret tt.

Definition expectBlock (hash : HashValue) (author : Author) : M A (option ExecutedBlock) :=
  cached ← get (fun n => blockOf (nd_storage n) hash);
  match cached with
  | Some eb => mret (Some eb)
  | None =>
      synced ← on_app (fun a => syncBlock a hash author);
      match synced with
      | Some eb => on_storage (fun s => emplace_block s eb);; mret (Some eb)
      | None => mret None
      end
  end.

Definition asyncExpectBlock (hash : HashValue) (author : Author) (k : Continuation) : M A unit :=
  on_app (fun a => (tt, asyncBlock a hash author k)).

(** The committed round becomes that of the block found. *)
Definition commit (l : LedgerInfoWithSignatures) : M A unit :=
  genesis ← get (fun n => bs_genesis_block_id (nd_storage n));
  let ci := commit_info (ls_ledger_info l) in
  let block_hash :=
    if (bi_id ci =? 0) && negb (BlockInfo_empty ci) then genesis else bi_id ci in
  if block_hash =? 0 then mret tt
  else
    found ← get (fun n => safetyBlockOf (nd_storage n) block_hash);
    match found with
    | Some eb =>
        on_app (fun a => (tt, app_commit a eb));;
        on_storage (fun s => set_committed_round s (bk_round (eb_block eb)))
    | None => mret tt
    end.

(** The epoch change a leader announces, before it is signed. *)
Definition epoch_change_of (quorumCert : QuorumCertificate) (next : EpochState) : EpochChange :=
  mkEpochChange (qc_signed_ledger_info quorumCert) Self (es_epoch next)
    (bi_round (certified_block quorumCert)) [].

(** [false] when signing failed, and the collection is skipped. *)
Definition announce_epoch (quorumCert : QuorumCertificate) : M A bool :=
  match bi_next_epoch_state (qc_commit_info quorumCert) with
  | Some next =>
      if IsValidProposer Self (bi_round (certified_block quorumCert) + 1) then
        let e := epoch_change_of quorumCert next in
        match signature (EpochChange_hash serialize_epoch_change e) with
        | Some s =>
            si ← get (fun n => sync_info (nd_storage n));
            emit (BroadcastEpochChange
                    (mkEpochChange (ec_ledger_info e) (ec_author e) (ec_epoch e) (ec_round e) s)
                    si);;
            mret true
        | None => mret false
        end
      else mret true
  | None => mret true
  end.

Definition preCommit (quorumCert : QuorumCertificate) : M A unit :=
  committed ← get (fun n => bs_committed_round (nd_storage n));
  if committed <? bi_round (qc_commit_info quorumCert) then
    commit (qc_signed_ledger_info quorumCert);;
    signed ← announce_epoch quorumCert;
    if (signed : bool) then
      on_storage (fun s =>
        gcBlocks s (bi_epoch (qc_commit_info quorumCert)) (bi_round (qc_commit_info quorumCert)))
    else mret tt
  else mret tt.

(** 0 on success, 1 when the certified block is not cached. *)
Definition insertQuorumCert (quorumCert : QuorumCertificate) : M A Z :=
  found ← get (fun n => safetyBlockOf (nd_storage n) (bi_id (certified_block quorumCert)));
  match found with
  | Some eb =>
      on_storage (fun s => updateQuorumCert s (bk_round (eb_block eb)) quorumCert);;
      preCommit quorumCert;;
      mret 0
  | None => mret 1
  end.

Definition addCerts (si : SyncInfo) : M A Z :=
  _ ← insertQuorumCert (si_HighestCommitCert si);
  _ ← insertQuorumCert (si_highest_quorum_cert si);
  mret 0.

End Storage.

(** * Properties *)

(** ** Garbage collection *)

Lemma first_block_spec test m h :
  first_block test m = Some h ->
  exists eb, m !! h = Some eb /\ test eb = true
    /\ forall h' eb', m !! h' = Some eb' -> test eb' = true -> h <= h'.
Proof.
  unfold first_block. intros H.
  assert (Hl : exists eb, (h, eb) ∈ map_to_list m /\ test eb = true
    /\ forall h' eb', (h', eb') ∈ map_to_list m -> test eb' = true -> h <= h').
  { revert h H. induction (map_to_list m) as [|[k e] l IH]; intros h H; simpl in H; [done|].
    destruct (test e) eqn:Et.
    - destruct (foldr _ None l) as [h0|] eqn:Ef.
      + injection H as <-. destruct (IH h0 eq_refl) as (eb & Hin & Hte & Hmin).
        destruct (Z.min_spec h0 k) as [[Hlt ->]|[Hge ->]].
        * exists eb. split; [set_solver|]. split; [done|].
          intros h' eb' [Heq|Hin']%elem_of_cons Ht; [injection Heq as -> ->; lia | eauto].
        * exists e. split; [set_solver|]. split; [done|].
          intros h' eb' [Heq|Hin']%elem_of_cons Ht; [injection Heq as -> ->; lia|].
          pose proof (Hmin h' eb' Hin' Ht). lia.
      + injection H as <-. exists e. split; [set_solver|]. split; [done|].
        intros h' eb' [Heq|Hin']%elem_of_cons Ht; [injection Heq as -> ->; lia|].
        exfalso. revert Ef. clear -Hin' Ht. induction l as [|[k' e'] l IHl]; simpl;
          [by apply elem_of_nil in Hin'|].
        apply elem_of_cons in Hin' as [Heq|Hin'].
        * injection Heq as <- <-. rewrite Ht. by destruct (foldr _ None l).
        * destruct (test e'); [by destruct (foldr _ None l) | auto].
    - destruct (IH h H) as (eb & Hin & Hte & Hmin). exists eb. split; [set_solver|]. split; [done|].
      intros h' eb' [Heq|Hin']%elem_of_cons Ht; [injection Heq as -> ->; congruence | eauto]. }
  destruct Hl as (eb & Hin & Hte & Hmin). exists eb.
  rewrite <- elem_of_map_to_list. repeat split; try done.
  intros h' eb' Hm. apply Hmin. by apply elem_of_map_to_list.
Qed.

Lemma first_block_None test m h eb :
  first_block test m = None -> m !! h = Some eb -> test eb = false.
Proof.
  unfold first_block. rewrite <- elem_of_map_to_list.
  induction (map_to_list m) as [|[k e] l IH]; intros H Hin; simpl in H; [by apply elem_of_nil in Hin|].
  destruct (test e) eqn:Et; [by destruct (foldr _ None l)|].
  apply elem_of_cons in Hin as [Heq|Hin]; [by injection Heq as -> -> | auto].
Qed.

Lemma gc_round_sub epoch m r h eb : gc_round epoch m r !! h = Some eb -> m !! h = Some eb.
Proof.
  unfold gc_round. destruct (first_block _ m) as [h0|]; [|done].
  by intros [_ ?]%lookup_delete_Some.
Qed.

Lemma gc_rounds_sub epoch rs m h eb :
  foldl (gc_round epoch) m rs !! h = Some eb -> m !! h = Some eb.
Proof. revert m. induction rs as [|r rs IH]; intros m; simpl; [done|]. intros ?%IH%gc_round_sub. done. Qed.

(** Collection only removes, and keeps every other field. *)
Lemma gcBlocks_sub s epoch round h eb :
  bs_cache_blocks (gcBlocks s epoch round) !! h = Some eb -> bs_cache_blocks s !! h = Some eb.
Proof.
  unfold gcBlocks. repeat split_if; simpl; [| |intros H%gc_rounds_sub; revert H];
    intros [? _]%map_lookup_filter_Some; done.
Qed.

Lemma gcBlocks_frame s epoch round : exists m, gcBlocks s epoch round = set_cache_blocks s m.
Proof. unfold gcBlocks. repeat split_if; eauto. Qed.

(** A block outside the window of a round survives its collection. *)
Lemma gc_rounds_keep epoch rs m h eb :
  m !! h = Some eb -> (forall r, r ∈ rs -> at_round epoch r eb = false) ->
  foldl (gc_round epoch) m rs !! h = Some eb.
Proof.
  revert m. induction rs as [|r rs IH]; intros m Hm Hr; simpl; [done|].
  apply IH; [|intros r' Hr'; apply Hr; set_solver]. unfold gc_round.
  destruct (first_block _ m) as [h0|] eqn:Ef; [|done].
  apply first_block_spec in Ef as (e & He & Ht & _). apply lookup_delete_Some.
  split; [|done]. intros ->. simplify_eq. rewrite (Hr r) in Ht by set_solver. done.
Qed.

(** The blocks of a round in the window: the one with the least id goes. *)
Lemma gc_rounds_collect epoch rs m r h eb :
  r ∈ rs -> m !! h = Some eb -> at_round epoch r eb = true ->
  (forall h' eb', m !! h' = Some eb' -> at_round epoch r eb' = true -> h <= h') ->
  foldl (gc_round epoch) m rs !! h = None.
Proof.
  intros Hin Hm Ht Hmin. apply eq_None_not_Some. intros [e He].
  revert m Hin Hm Hmin He. induction rs as [|r' rs IH]; intros m Hin Hm Hmin He;
    [by apply elem_of_nil in Hin|]. simpl in He.
  assert (Hsub : forall h' eb', gc_round epoch m r' !! h' = Some eb' -> m !! h' = Some eb')
    by apply gc_round_sub.
  destruct (decide (r' = r)) as [->|Hne].
  - pose proof (gc_rounds_sub _ _ _ _ _ He) as Hg. revert Hg. unfold gc_round.
    destruct (first_block _ m) as [h0|] eqn:Ef.
    + apply first_block_spec in Ef as (e0 & He0 & Ht0 & Hmin0).
      assert (h0 = h) as -> by (pose proof (Hmin0 h eb Hm Ht); pose proof (Hmin h0 e0 He0 Ht0); lia).
      by rewrite lookup_delete_eq.
    + rewrite (first_block_None _ _ _ _ Ef Hm) in Ht. done.
  - apply elem_of_cons in Hin as [->|Hin]; [done|].
    destruct (gc_round epoch m r' !! h) as [e'|] eqn:Eg.
    + pose proof (Hsub _ _ Eg) as He'. simplify_eq. apply (IH _ Hin Eg); [eauto | done].
    + apply gc_rounds_sub in He. congruence.
Qed.

(** ** Theorem *)

(** What collection removes and keeps.  A block survives when its epoch is
    newer, or when it is of the collected epoch and its round is not one of the
    fifty that end ten rounds below the committed one (none are collected
    before round 60); a block of an older epoch is removed; and of the blocks
    of one round in the window, the one with the least id is removed. *)
Theorem gcBlocks_window (s : BlockStorage) (epoch : Epoch) (round : Round)
    (h : HashValue) (eb : ExecutedBlock) :
  bs_cache_blocks s !! h = Some eb ->
  let e := bd_epoch (bk_block_data (eb_block eb)) in
  let r := bk_round (eb_block eb) in
  let after := bs_cache_blocks (gcBlocks s epoch round) in
  (epoch < e \/ (e = epoch /\ (round < 60 \/ r < round - 60 \/ round - 10 <= r)) ->
     after !! h = Some eb)
  /\ (e < epoch -> after !! h = None)
  /\ (60 <= round -> e = epoch -> round - 60 <= r < round - 10 ->
      (forall h' eb', bs_cache_blocks s !! h' = Some eb' -> at_round epoch r eb' = true -> h <= h') ->
      after !! h = None).
Proof.
  intros Hm e r after.
  set (m := filter (fun p => ~ older_epoch epoch p) (bs_cache_blocks s)).
  assert (Ha : after = if round <? 60 then m
    else foldl (gc_round epoch) m (seqZ (round - 60) 50)).
  { unfold after, gcBlocks. fold m. replace (round - 10 - 50) with (round - 60) by lia.
    replace (round - 10 - (round - 60)) with 50 by lia. bsolve. }
  assert (Hk : epoch <= e -> m !! h = Some eb).
  { intros. apply map_lookup_filter_Some. split; [done|]. unfold older_epoch. simpl. lia. }
  rewrite Ha. repeat split.
  - intros Hc. split_if; [apply Hk; lia|]. apply gc_rounds_keep; [apply Hk; lia|].
    intros r' Hr'%elem_of_seqZ. unfold at_round. btests. fold e r. lia.
  - intros Hlt. assert (Hn : m !! h = None).
    { apply map_lookup_filter_None. right. intros eb' Hm' Hno. apply Hno. simplify_eq. exact Hlt. }
    split_if; [done|]. apply eq_None_not_Some. intros [eb' Hg%gc_rounds_sub]. congruence.
  - intros H60 He Hr Hmin. rewrite (proj2 (Z.ltb_ge _ _) H60).
    apply (gc_rounds_collect epoch _ m r h eb); [apply elem_of_seqZ; lia | apply Hk; lia | |].
    + unfold at_round. btests. done.
    + intros h' eb' [Hm' _]%map_lookup_filter_Some. by apply Hmin.
Qed.

Lemma gcBlocks_window_witness :
  let eb r := mkExecutedBlock (mkBlock r (mkBlockData 0 r 0 QuorumCertificate_default Proposal None)
                                 None) StateComputeResult_default in
  let s := mkBlockStorage 0 {[ 45 := eb 45; 92 := eb 92 ]} QuorumCertificate_default
             QuorumCertificate_default None 0 in
  bs_cache_blocks (gcBlocks s 0 100) !! 92 = Some (eb 92)
  /\ bs_cache_blocks (gcBlocks s 0 100) !! 45 = None.
Proof.
  intros eb s. split.
  - apply (gcBlocks_window s 0 100 92 (eb 92)); [reflexivity | right; simpl; lia].
  - apply (gcBlocks_window s 0 100 45 (eb 45)); [reflexivity | lia | reflexivity | simpl; lia|].
    intros h' eb' Hl Ht. unfold s in Hl. simpl in Hl.
    apply lookup_insert_Some in Hl as [[<- <-]|[_ Hl]]; [lia|].
    apply lookup_singleton_Some in Hl as [<- <-]. by vm_compute in Ht.
Defined.
