(* ===== verification/HsRoundManager.v ===== *)
(** * The round manager (RoundManager, ProposalGenerator, Hotstuff)

    The event handlers of a HotStuff instance: proposals, votes, epoch
    changes, timers and the completion of a block request, with the start and
    stop of the instance.  Each definition is the method of the same name. *)

From S2P Require Import Prelude HsTypes HsVerifier HsCore HsPendingVotes HsNode HsStorage.

#[local] Open Scope Z_scope.

(** StateCompute.h *)
Inductive AsyncBlockResult :=
  PROPOSAL_SUCCESS | PROPOSAL_FAILURE | VOTE_SUCCESS | VOTE_FAILURE | UNKOWN_ERROR.

Inductive AsyncBlockErrorCode := ASYNC_SUCCESS | ASYNC_FAILURE | ASYNC_TIMEOUT.

(** RecoverData.h *)
Record RecoverData := mkRecoverData {
  rd_init_ledger_info : LedgerInfo;
  rd_epoch_state : EpochState;
  rd_validating : bool
}.

Section Manager.

Context {D : Digest} {V : ValidatorVerifier} {A : Type} {App : Application A}
  {PE : ProposerElection} {Ar : Archive}.

Definition current_round : M A Round := get (fun n => rs_current_round (nd_round_state n)).
Definition local_sync_info : M A SyncInfo := get (fun n => sync_info (nd_storage n)).
Definition highest_quorum_cert : M A QuorumCertificate :=
  get (fun n => bs_highest_quorum_cert (nd_storage n)).
Definition author : M A Author := get (fun n => cf_id (nd_config n)).

(** ** ProposalGenerator.cpp *)

Definition EnsureHighestQuorumCert (round : Round) : M A (option QuorumCertificate) :=
  hqc ← highest_quorum_cert;
  if bi_round (certified_block hqc) >=? round then mret None
  else if endsEpoch hqc then mret None
  else mret (Some hqc).

Definition GenerateNilBlock (round : Round) : M A (option Block) :=
  hqc ← EnsureHighestQuorumCert round;
  match hqc with
  | Some hqc => mret (Some (nil_block round hqc))
  | None => mret None
  end.

Definition set_payload (d : BlockData) (p : Payload) : BlockData :=
  mkBlockData (bd_epoch d) (bd_round d) (bd_timestamp_msecs d) (bd_quorum_cert d)
    (bd_block_type d) (Some p).

(** [last_round_generated_.exchange(round)]: the counter is overwritten, also
    by a lower round. *)
Definition ProposalGenerator_Proposal (round : Round) : M A (option BlockData) :=
  last ← get nd_last_round_generated;
  modify (fun n => with_last_round_generated n round);;
  if last >=? round then mret None
  else
    hqc ← EnsureHighestQuorumCert round;
    match hqc with
    | Some hqc =>
        a ← author;
        now ← get nd_now;
        let cb := certified_block hqc in
        let blockData := mkBlockData (bi_epoch cb) round now hqc Proposal None in
        if hasReconfiguration cb then
          mret (Some (mkBlockData (bi_epoch cb) round (bi_timestamp_msecs cb) hqc Proposal
                        (Some (mkPayload ZeroHash a))))
        else
          r ← on_app (fun s => extract s blockData);
          match r.1 with
          | Some cmd => mret (Some (set_payload r.2 (mkPayload cmd a)))
          | None => mret None
          end
    | None => mret None
    end.

(** ** Proposing *)

Definition GenerateProposal (event : NewRoundEvent) : M A (option Block) :=
  proposal ← ProposalGenerator_Proposal (ev_round event);
  match proposal with
  | Some d =>
      b ← get (fun n => SignProposal (nd_epoch_state n) (nd_safety n) d);
      mret (Some b)
  | None => mret None
  end.

Definition broadcast_proposal (proposal : option Block) : M A unit :=
  match proposal with
  | Some b => si ← local_sync_info; emit (BroadcastProposal b si)
  | None => mret tt
  end.

Definition GenerateThenBroadCastProposalInTimer (event : NewRoundEvent) : M A unit :=
  can ← on_app canExtract;
  if (can : bool) then
    proposal ← GenerateProposal event;
    broadcast_proposal proposal
  else
    interval ← get (fun n => cf_interval_extract (nd_config n));
    emit (SetProposalTimer interval event).

(** [ec] is set when the timer was cancelled. *)
Definition GenerateThenBroadCastProposal (ec : bool) (event : NewRoundEvent) : M A unit :=
  if ec then mret tt else GenerateThenBroadCastProposalInTimer event.

(** ** Rounds *)

Definition setup_round_timer (round : Round) : M A unit :=
  seconds ← get (fun n => cf_timeout (nd_config n));
  emit (SetRoundTimer seconds round).

Definition ProcessNewRoundEvent (event : NewRoundEvent) : M A Z :=
  setup_round_timer (ev_round event);;
  hqc ← highest_quorum_cert;
  synced ← on_app (fun a => syncState a (certified_block hqc));
  if negb synced then mret 1
  else
    a ← author;
    if negb (IsValidProposer a (add_tc (ev_round event) (vd_tc (qc_vote_data hqc)))) then mret 1
    else GenerateThenBroadCastProposalInTimer event;; mret 0.

(** [RoundState::ProcessCertificates] with the timers it cancels. *)
Definition open_round : M A (option NewRoundEvent) :=
  si ← local_sync_info;
  event ← on_round_state (fun rs => RoundState_ProcessCertificates rs si);
  match event with
  | Some e => emit CancelRoundTimer;; emit CancelProposalTimer;; mret (Some e)
  | None => mret None
  end.

Definition ProcessCertificates : M A Z :=
  event ← open_round;
  match event with
  | Some e => _ ← ProcessNewRoundEvent e; mret 0
  | None => mret 0
  end.

Definition RoundManager_start (validating : bool) : M A Z :=
  modify (fun n => with_flags n false validating (nd_started n));;
  event ← open_round;
  match event with
  | Some e => ProcessNewRoundEvent e
  | None => mret 1
  end.

Definition RoundManager_stop : M A unit :=
  stop ← get nd_stop;
  if (stop : bool) then mret tt
  else
    modify (fun n => with_flags n true (nd_validating n) (nd_started n));;
    emit CancelRoundTimer.

(** ** Synchronisation *)

(** The verified mark is set on the caller's object. *)
Definition preCheck (round : Round) (si : SyncInfo) : M A (bool * SyncInfo) :=
  current ← current_round;
  if round <? current then mret (false, si)
  else
    local ← local_sync_info;
    if hasNewerCertificate si local then mret (SyncInfo_Verify si) else mret (true, si).

Definition SyncUp (si : SyncInfo) : M A Z :=
  local ← local_sync_info;
  if hasNewerCertificate si local then
    if negb (SyncInfo_Verify si).1 then mret 1
    else
      _ ← addCerts si;
      _ ← ProcessCertificates;
      mret 0
  else mret 0.

Definition EnsureRoundAndSyncUp (round : Round) (si : SyncInfo) : M A bool :=
  current ← current_round;
  if round <? current then mret false
  else
    r ← SyncUp si;
    if negb (r =? 0) then mret false
    else
      current ← current_round;
      mret (round =? current).

(** ** Proposals *)

(** The signature of a proposal is only checked when it carries one. *)
Definition preProcessProposal (proposal : Block) (si : SyncInfo) : M A Z :=
  ok ← EnsureRoundAndSyncUp (bk_round proposal) si;
  if negb ok then mret 1
  else
    match bk_signature proposal with
    | Some s =>
        if negb (verifySignature_block (bd_author (bk_block_data proposal)) s proposal)
        then mret 1 else mret 0
    | None => mret 0
    end.

Definition CheckProposal (proposal : Block) (si : SyncInfo) : M A bool :=
  stop ← get nd_stop;
  if (stop : bool) then mret false
  else
    let id := bi_id (certified_block (si_highest_quorum_cert si)) in
    exists_block ← get (fun n => existsBlock (nd_storage n) id);
    if negb (id =? 0) && negb exists_block then
      r ← preCheck (bk_round proposal) si;
      if negb (r.1 : bool) then mret false
      else
        asyncExpectBlock id (bd_author (bk_block_data proposal)) (CheckedProposal proposal r.2);;
        mret false
    else
      r ← preProcessProposal proposal si;
      mret (r =? 0).

Definition RoundManager_IsValidProposal (proposal : Block) : M A bool :=
  disable ← get (fun n => cf_disable_nil_block (nd_config n));
  if (disable : bool) then
    offset ← get (fun n => rs_offset_round (nd_round_state n));
    mret (bool_decide (GetValidProposer (bk_round proposal + offset)
                       = bd_author (bk_block_data proposal)))
  else mret (IsValidProposal proposal).

(** A vote for the executed block, when the node validates and the rules
    allow it. *)
Definition ExecuteAndVote (proposal : Block) : M A (option Vote) :=
  eb ← executeAndAddBlock proposal;
  validating ← get nd_validating;
  if negb validating then mret None
  else
    n ← get (fun n => n);
    let r := ConstructAndSignVote verify (nd_epoch_state n) (nd_now n) (nd_safety n) eb in
    modify (fun n => with_safety n r.2);;
    mret r.1.

Definition record_vote (vote : Vote) : M A unit :=
  on_round_state (fun rs => (tt, recordVote rs vote)).

Definition ProcessProposal (proposal : Block) : M A Z :=
  valid ← RoundManager_IsValidProposal proposal;
  if negb valid then mret 1
  else if bd_timestamp_msecs (bk_block_data proposal)
          <=? bi_timestamp_msecs (certified_block (bk_qc proposal)) then mret 1
  else
    vote ← ExecuteAndVote proposal;
    match vote with
    | None => mret 1
    | Some v =>
        let next_leader :=
          GetValidProposer (add_tc (bk_round proposal + 1) (vd_tc (qc_vote_data (bk_qc proposal)))) in
        record_vote v;;
        si ← local_sync_info;
        emit (SendVote next_leader v si);;
        mret 0
    end.

(** ** Votes *)

Definition NewQCAggregated (quorumCert : QuorumCertificate) : M A Z :=
  r ← insertQuorumCert quorumCert;
  if r =? 0 then _ ← ProcessCertificates; mret 0 else mret 0.

Definition NewTCAggregated (timeoutCert : TimeoutCertificate) : M A Z :=
  on_storage (fun s => insertTimeoutCert s timeoutCert);;
  _ ← ProcessCertificates;
  mret 0.

(** Whether this node collects the votes of [vote]'s round. *)
Definition IsValidProposer_vote (vote : Vote) : M A bool :=
  disable ← get (fun n => cf_disable_nil_block (nd_config n));
  offset ← get (fun n => rs_offset_round (nd_round_state n));
  a ← author;
  let next_round := vote_round vote + (if (disable : bool) then offset else 1) in
  mret (IsValidProposer a (add_tc next_round (vd_tc (vt_vote_data vote)))).

(** The timeout certificate is never filled in: that branch would read an empty
    optional. *)
Definition ProcessVote (vote : Vote) : M A Z :=
  valid ← (if isTimeout vote then mret true else IsValidProposer_vote vote);
  if negb valid then mret 1
  else
    let timeoutCertResult : option TimeoutCertificate := None in
    r ← on_round_state (fun rs => RoundState_insertVote rs vote QuorumCertificate_default);
    let '(ret, quorumCertResult) := r in
    if ret =? VoteReceptionResult_value NewQuorumCertificate then
      _ ← NewQCAggregated quorumCertResult; mret 0
    else if ret =? VoteReceptionResult_value NewTimeoutCertificate then
      match timeoutCertResult with
      | Some tc => _ ← NewTCAggregated tc; mret 0
      | None => mret 0
      end
    else if ret =? VoteReceptionResult_value VoteAdded then mret 0
    else mret 1.

Fixpoint ProcessVotes (votes : list Vote) : M A unit :=
  match votes with
  | [] => mret tt
  | vote :: votes => _ ← ProcessVote vote; ProcessVotes votes
  end.

Definition HandleCacheVotes (id : HashValue) : M A unit :=
  votes ← on_round_state (fun rs => RoundState_getAndRemoveCachedVotes rs id);
  ProcessVotes votes.

Definition AddVoteToCache (vote : Vote) : M A unit :=
  _ ← on_round_state (fun rs => RoundState_cacheVote rs vote);
  mret tt.

Definition ReceivedProposedBlock (id : HashValue) : M A bool :=
  found ← get (fun n => safetyBlockOf (nd_storage n) id);
  mret (match found with Some _ => true | None => false end).

Definition preProcessVote (vote : Vote) (si : SyncInfo) : M A Z :=
  ok ← EnsureRoundAndSyncUp (vote_round vote) si;
  if negb ok then mret 1
  else if negb (verifySignature_vote (vt_author vote) (vt_signature vote) vote) then mret 1
  else
    let proposed_id := bi_id (vd_proposed (vt_vote_data vote)) in
    received ← ReceivedProposedBlock proposed_id;
    if negb received then AddVoteToCache vote;; mret 0
    else
      HandleCacheVotes proposed_id;;
      ProcessVote vote.

(** A failed [preCheck] returns [false], which is the success code 0. *)
Definition ProcessVote_sync (vote : Vote) (si : SyncInfo) : M A Z :=
  stop ← get nd_stop;
  if (stop : bool) then mret 1
  else
    let hqc := bi_id (certified_block (si_highest_quorum_cert si)) in
    exists_block ← get (fun n => existsBlock (nd_storage n) hqc);
    if negb (hqc =? 0) && negb exists_block then
      r ← preCheck (vote_round vote) si;
      if negb (r.1 : bool) then mret 0
      else asyncExpectBlock hqc (vt_author vote) (CheckedVote vote r.2);; mret (-1)
    else preProcessVote vote si.

(** ** The completion of a block request

    The result, and the proposal that became admissible. *)
Definition asyncCompleted (k : Continuation) (ec : AsyncBlockErrorCode) (eb : ExecutedBlock)
  : M A (AsyncBlockResult * option Block) :=
  match ec with
  | ASYNC_SUCCESS =>
      on_storage (fun s => addExecutedBlock s eb);;
      match k with
      | CheckedProposal proposal si =>
          r ← preProcessProposal proposal si;
          if r =? 0 then mret (PROPOSAL_SUCCESS, Some proposal)
          else mret (PROPOSAL_FAILURE, None)
      | CheckedVote vote si =>
          r ← preProcessVote vote si;
          if r =? 0 then mret (VOTE_SUCCESS, None) else mret (VOTE_FAILURE, None)
      end
  | _ => mret (UNKOWN_ERROR, Some (eb_block eb))
  end.

(** ** Epoch changes *)

Definition CheckEpochChange (e : EpochChange) (si : SyncInfo) : M A bool :=
  a ← author;
  if bool_decide (ec_author e = a) then mret true
  else
    es ← get nd_epoch_state;
    if negb (ec_epoch e =? es_epoch es) then mret false
    else if negb (EpochChange_verify serialize_epoch_change e) then mret false
    else
      let hash := consensus_data_hash (ls_ledger_info (ec_ledger_info e)) in
      if negb (hash =? consensus_data_hash (qc_ledger_info (si_HighestCommitCert si)))
         && negb (hash =? consensus_data_hash (qc_ledger_info (si_highest_quorum_cert si)))
      then mret false
      else if negb (checkVotingPower (ls_signatures (ec_ledger_info e))) then mret false
      else EnsureRoundAndSyncUp (ec_round e + 1) si.

(** ** Timeouts *)

(** Sign the timeout, remember the vote and broadcast it. *)
Definition broadcast_timeout_vote (vote : Vote) : M A unit :=
  let vote :=
    if isTimeout vote then vote
    else match Timeout_sign (Vote_timeout vote) with
         | Some s => addTimeoutSignature vote s
         | None => vote
         end in
  record_vote vote;;
  si ← local_sync_info;
  emit (BroadcastVote vote si).

(** The backup vote, for a nil block. *)
Definition vote_nil_block (round : Round) : M A unit :=
  nil_block ← GenerateNilBlock round;
  match nil_block with
  | Some b =>
      vote ← ExecuteAndVote b;
      match vote with
      | Some v => broadcast_timeout_vote v
      | None => mret tt
      end
  | None => mret tt
  end.

(** A vote already sent in this round is repeated with the next timeout count,
    unless it extends genesis; otherwise a nil block is voted for. *)
Definition UseNilBlockProcessLocalTimeout (round : Round) : M A unit :=
  n ← get (fun n => n);
  let hqc := si_highest_quorum_cert (sync_info (nd_storage n)) in
  let tc := u64 (vd_tc (qc_vote_data hqc) + 1) in
  match rs_send_vote (nd_round_state n) with
  | Some sent =>
      if vote_parent_round sent >? 0 then
        broadcast_timeout_vote
          (if negb (vd_tc (vt_vote_data sent) =? tc)
           then resetVoteTimeoutCount (nd_now n) sent tc else sent)
      else vote_nil_block round
  | None => vote_nil_block round
  end.

Definition NotUseNilBlockProcessLocalTimeout (round : Round) : M A unit :=
  send_vote ← get (fun n => rs_send_vote (nd_round_state n));
  match send_vote with
  | Some vote => broadcast_timeout_vote vote
  | None =>
      on_round_state (fun rs => (tt, increaseOffsetRound rs));;
      offset ← get (fun n => rs_offset_round (nd_round_state n));
      a ← author;
      if bool_decide (GetValidProposer (round + offset) = a) then
        proposal ← GenerateProposal (mkNewRoundEvent round TimeoutReason);
        broadcast_proposal proposal
      else mret tt
  end.

Definition ProcessLocalTimeout (ec : bool) (round : Round) : M A unit :=
  if ec then mret tt
  else
    current ← current_round;
    if negb (round =? current) then mret tt
    else
      disable ← get (fun n => cf_disable_nil_block (nd_config n));
      (if (disable : bool) then NotUseNilBlockProcessLocalTimeout round
       else UseNilBlockProcessLocalTimeout round);;
      setup_round_timer round.

(** ** Hotstuff.cpp *)

(** [Hotstuff::start] up to the round manager's own start. *)
Definition Hotstuff_reset (d : RecoverData) : M A unit :=
  updateCeritificates (new_genesis_block (rd_init_ledger_info d) (es_epoch (rd_epoch_state d)));;
  modify (fun n => with_epoch_state n (rd_epoch_state d));;
  modify (fun n => with_safety n (Initialize (nd_safety n) (es_epoch (rd_epoch_state d)) 0));;
  on_round_state (fun rs => (tt, RoundState_reset rs));;
  modify (fun n => with_last_round_generated n 0);;
  modify (fun n => with_flags n (nd_stop n) (nd_validating n) true).

Definition Hotstuff_start (d : RecoverData) : M A Z :=
  Hotstuff_reset d;;
  RoundManager_start (rd_validating d).

Definition Hotstuff_stop : M A unit :=
  started ← get nd_started;
  if (started : bool) then RoundManager_stop else mret tt.

Definition Hotstuff_CheckProposal (proposal : Block) (si : SyncInfo) : M A bool :=
  started ← get nd_started;
  if negb started then mret false else CheckProposal proposal si.

Definition handleProposal (proposal : Block) : M A Z :=
  started ← get nd_started;
  if negb started then mret 1 else ProcessProposal proposal.

Definition handleVote (vote : Vote) (si : SyncInfo) : M A Z :=
  started ← get nd_started;
  if negb started then mret 1 else ProcessVote_sync vote si.

Definition Hotstuff_expectBlock (id : HashValue) : M A (option ExecutedBlock) :=
  started ← get nd_started;
  if negb started then mret None else get (fun n => safetyBlockOf (nd_storage n) id).

Definition checkEpochChange (e : EpochChange) (si : SyncInfo) : M A bool :=
  started ← get nd_started;
  if negb started then mret false else CheckEpochChange e si.

(** ** Events

    What reaches an instance between two starts, each at its clock reading. *)

Inductive Event :=
  | OnProposal (proposal : Block) (si : SyncInfo)
  | OnHandleProposal (proposal : Block)
  | OnVote (vote : Vote) (si : SyncInfo)
  | OnEpochChange (e : EpochChange) (si : SyncInfo)
  | OnAsyncBlock (k : Continuation) (ec : AsyncBlockErrorCode) (eb : ExecutedBlock)
  | OnRoundTimer (ec : bool) (round : Round)
  | OnProposalTimer (ec : bool) (event : NewRoundEvent)
  | OnStop.

Definition handle (e : Event) : M A unit :=
  match e with
  | OnProposal b si => _ ← Hotstuff_CheckProposal b si; mret tt
  | OnHandleProposal b => _ ← handleProposal b; mret tt
  | OnVote v si => _ ← handleVote v si; mret tt
  | OnEpochChange e si => _ ← checkEpochChange e si; mret tt
  | OnAsyncBlock k ec eb => _ ← asyncCompleted k ec eb; mret tt
  | OnRoundTimer ec r => ProcessLocalTimeout ec r
  | OnProposalTimer ec ev => GenerateThenBroadCastProposal ec ev
  | OnStop => Hotstuff_stop
  end.

Fixpoint run (events : list (Z * Event)) : M A unit :=
  match events with
  | [] => mret tt
  | (now, e) :: events => modify (fun n => with_now n now);; handle e;; run events
  end.

End Manager.
