(* ===== verification/HsNodeProps.v ===== *)
(** * Properties of a running node

    Invariants of the handlers of HsRoundManager.v, over every sequence of
    events: the round only rises and follows the highest certificate, the
    pending votes are verified ones, and what the node signs is what the safety
    rules of HsCore.v produce. *)

From S2P Require Import Prelude HsTypes HsVerifier HsCore HsPendingVotes HsNode HsStorage.
From S2P Require Import HsRoundManager.

#[local] Open Scope Z_scope.

(** ** Reasoning about handlers *)

(** [triple P m Q]: from a state in [P], [m] ends in [Q] of its result. *)
Definition triple {A T} (P : Node A -> Prop) (m : M A T) (Q : T -> Node A -> Prop) : Prop :=
  forall n, P n -> Q (m n).1 (m n).2.

Definition stable {A T} (P : Node A -> Prop) (m : M A T) : Prop := triple P m (fun _ => P).

Section Triples.

Context {A : Type} (P : Node A -> Prop).

Lemma triple_bind {T U} (m : M A T) (f : T -> M A U) R (Q : U -> Node A -> Prop) :
  triple P m R -> (forall x, triple (R x) (f x) Q) -> triple P (m ≫= f) Q.
Proof. intros Hm Hf n HP. apply Hf, Hm, HP. Qed.

Lemma stable_ret {T} (x : T) : stable P (mret (M := M A) x).
Proof. by intros n. Qed.

Lemma stable_get {T} (f : Node A -> T) : stable P (get f).
Proof. by intros n. Qed.

Lemma stable_bind {T U} (m : M A T) (f : T -> M A U) :
  stable P m -> (forall x, stable P (f x)) -> stable P (m ≫= f).
Proof. intros Hm Hf. by eapply triple_bind. Qed.

End Triples.

Create HintDb stable.
#[export] Hint Resolve stable_ret stable_get : stable.
(** An operation that leaves alone what the predicate looks at. *)
#[export] Hint Extern 2 (stable _ (on_app _)) => intros ? ?; assumption : stable.
#[export] Hint Extern 2 (stable _ (on_storage _)) => intros ? ?; assumption : stable.
#[export] Hint Extern 2 (stable _ (on_round_state _)) => intros ? ?; assumption : stable.
#[export] Hint Extern 2 (stable _ (emit _)) => intros ? ?; assumption : stable.
#[export] Hint Extern 2 (stable _ (modify _)) => intros ? ?; assumption : stable.

Ltac head_of m := lazymatch m with ?f _ => head_of f | _ => m end.

(** Unfold the handler a goal is about; the primitives of the monad stay. *)
Ltac unfold_handler :=
  match goal with
  | |- stable _ ?m =>
      let h := head_of m in
      lazymatch h with
      | @get => fail | @modify => fail | @emit => fail | @on_app => fail
      | @on_storage => fail | @on_round_state => fail | @mret => fail | @mbind => fail
      | @ProcessVotes => fail
      | _ => unfold h
      end
  end.

(** Walk through a handler: binds, conditionals, matches and the handlers it
    calls, with the database for the operations on the state. *)
Ltac walk :=
  repeat (cbv zeta; cbn [negb]; first
    [ solve [auto with stable nocore]
    | apply stable_bind; [|intros ?]
    | match goal with
      | |- stable _ (match ?x with _ => _ end) => destruct x
      end
    | unfold_handler ]).

(** ** The round only rises *)

Section RoundMonotone.

Context {D : Digest} {V : ValidatorVerifier} {A : Type} {App : Application A}
  {PE : ProposerElection} {Ar : Archive} (r0 : Round).

Definition round_at_least (n : Node A) : Prop := r0 <= rs_current_round (nd_round_state n).

Lemma ral_open si :
  stable round_at_least (on_round_state (fun rs => RoundState_ProcessCertificates rs si)).
Proof.
  intros n Hn. unfold round_at_least in *. simpl. unfold RoundState_ProcessCertificates.
  split_if; btests; simpl; lia.
Qed.
Lemma ral_insert v q : stable round_at_least (on_round_state (fun rs => RoundState_insertVote rs v q)).
Proof. intros n Hn. unfold round_at_least in *. simpl. unfold RoundState_insertVote. by repeat case_match. Qed.
Lemma ral_cache v : stable round_at_least (on_round_state (fun rs => RoundState_cacheVote rs v)).
Proof. intros n Hn. unfold round_at_least in *. simpl. unfold RoundState_cacheVote. by repeat case_match. Qed.
Lemma ral_remove id :
  stable round_at_least (on_round_state (fun rs => RoundState_getAndRemoveCachedVotes rs id)).
Proof.
  intros n Hn. unfold round_at_least in *. simpl. unfold RoundState_getAndRemoveCachedVotes.
  by repeat case_match.
Qed.
#[local] Hint Resolve ral_open ral_insert ral_cache ral_remove : stable.

Lemma ral_votes votes : stable round_at_least (ProcessVotes votes).
Proof. induction votes as [|v votes IH]; simpl; [|apply stable_bind; [|done]]; walk. Qed.

#[local] Hint Resolve ral_votes : stable.

Lemma ral_handle e : stable round_at_least (handle e).
Proof. destruct e; simpl; walk. Qed.

Lemma ral_run events : stable round_at_least (run events).
Proof.
  induction events as [|[t e] events IH]; simpl; [walk|].
  apply stable_bind; [walk | intros _]. apply stable_bind; [apply ral_handle | done].
Qed.

End RoundMonotone.

(** ** The pending votes are verified *)

Section PendingVerified.

Context {D : Digest} {V : ValidatorVerifier} {A : Type} {App : Application A}
  {PE : ProposerElection} {Ar : Archive}.

Definition verified_vote (v : Vote) : Prop :=
  verifySignature_vote (vt_author v) (vt_signature v) v = true.

Definition pending_verified (n : Node A) : Prop :=
  pending_ok verified_vote (rs_pending_votes (nd_round_state n)).

Lemma pvf_open si :
  stable pending_verified (on_round_state (fun rs => RoundState_ProcessCertificates rs si)).
Proof.
  intros n Hn. unfold pending_verified in *. simpl. unfold RoundState_ProcessCertificates.
  split_if; simpl; [apply pending_ok_new | done].
Qed.

Lemma pvf_insert v q :
  verified_vote v -> stable pending_verified (on_round_state (fun rs => RoundState_insertVote rs v q)).
Proof.
  intros Hv n Hn. unfold pending_verified in *. simpl. unfold RoundState_insertVote.
  split_if; [done|]. destruct (insertVote _ v q) as [[r q'] pv'] eqn:E. simpl.
  by apply (insertVote_spec verified_vote _ _ _ _ _ _ Hn Hv E).
Qed.

Lemma pvf_cache v :
  verified_vote v -> stable pending_verified (on_round_state (fun rs => RoundState_cacheVote rs v)).
Proof.
  intros Hv n Hn. unfold pending_verified in *. simpl. unfold RoundState_cacheVote.
  split_if; [done|]. by apply (cacheVote_ok verified_vote).
Qed.

#[local] Hint Resolve pvf_open pvf_insert pvf_cache : stable.

Lemma pvf_vote v : verified_vote v -> stable pending_verified (ProcessVote v).
Proof. intros Hv. walk. Qed.

Lemma pvf_votes votes : Forall verified_vote votes -> stable pending_verified (ProcessVotes votes).
Proof.
  induction 1 as [|v votes Hv _ IH]; simpl; [walk|].
  apply stable_bind; [by apply pvf_vote | done].
Qed.

Lemma pvf_cached id : stable pending_verified (HandleCacheVotes id).
Proof.
  unfold HandleCacheVotes, stable. apply (triple_bind _ _ _ (fun votes n => pending_verified n /\ Forall verified_vote votes)).
  - intros n Hn. unfold pending_verified in *. simpl. unfold RoundState_getAndRemoveCachedVotes.
    destruct (getAndRemoveCachedVotes_ok _ (rs_pending_votes (nd_round_state n)) id Hn) as [H1 H2].
    by destruct (getAndRemoveCachedVotes _ id).
  - intros votes n [Hn Hv]. by apply pvf_votes.
Qed.

#[local] Hint Resolve pvf_cached : stable.

(** The guard of [preProcessVote] supplies the verification. *)
Lemma pvf_preProcessVote v si : stable pending_verified (preProcessVote v si).
Proof.
  unfold preProcessVote. apply stable_bind; [walk | intros ok]. destruct ok; [|walk].
  cbn [negb]. destruct (verifySignature_vote _ _ v) eqn:E; [|walk].
  assert (Hv : verified_vote v) by exact E. walk.
Qed.

#[local] Hint Resolve pvf_preProcessVote : stable.

Lemma pvf_handle e : stable pending_verified (handle e).
Proof. destruct e; simpl; walk. Qed.

Lemma pvf_run events : stable pending_verified (run events).
Proof.
  induction events as [|[t e] events IH]; simpl; [walk|].
  apply stable_bind; [walk | intros _]. apply stable_bind; [apply pvf_handle | done].
Qed.

(** A start empties the pending votes. *)
Lemma pvf_start d n : pending_verified ((Hotstuff_start (A := A) d n).2).
Proof.
  assert (H : stable pending_verified (RoundManager_start (A := A) (rd_validating d))) by walk.
  apply H, pending_ok_new.
Qed.

End PendingVerified.

(** ** What the node signs is what the safety rules produced *)

Section VotesFromCore.

Context {D : Digest} {V : ValidatorVerifier} {A : Type} {App : Application A}
  {PE : ProposerElection} {Ar : Archive}.

(** The epoch of the instance, its safety data at the start, and the effects
    that precede it. *)
Context (es : EpochState) (sd0 : SafetyData) (out0 : list Effect).

Definition vote_of (e : Effect) : option Vote :=
  match e with
  | BroadcastVote v _ | SendVote _ v _ => Some v
  | _ => None
  end.

(** A vote for what a signed vote of the log was for, possibly re-signed with
    another timeout count and completed by a timeout signature. *)
Definition derived (log : list (Block * Vote)) (v : Vote) : Prop :=
  exists b w tc, (b, w) ∈ log
    /\ vt_vote_data v = VoteData_New (vd_proposed (vt_vote_data w)) (vd_parent (vt_vote_data w)) tc
    /\ commit_info (vt_ledger_info v) = commit_info (vt_ledger_info w)
    /\ vt_author v = Self
    /\ vote_digest v = VoteData_hash (vt_vote_data v)
    /\ vt_signature v = default [] (signature (vote_digest v)).

Definition core_log (calls : list (Z * ExecutedBlock)) : list (Block * Vote) :=
  signLog verify es sd0 calls.

Record traced (calls : list (Z * ExecutedBlock)) (n : Node A) : Prop := {
  tr_epoch : nd_epoch_state n = es;
  tr_safety : nd_safety n = voteState verify es sd0 calls;
  tr_last : forall v, sd_last_vote (nd_safety n) = Some v -> derived (core_log calls) v;
  tr_sent : forall v, rs_send_vote (nd_round_state n) = Some v -> derived (core_log calls) v;
  tr_out : forall e v, e ∈ nd_out n -> vote_of e = Some v -> e ∈ out0 \/ derived (core_log calls) v
}.

Definition core (n : Node A) : Prop := exists calls, traced calls n.
Definition core_with (v : Vote) (n : Node A) : Prop :=
  exists calls, traced calls n /\ derived (core_log calls) v.

Lemma derived_mono l1 l2 v : l1 ⊆ l2 -> derived l1 v -> derived l2 v.
Proof. intros Hs (b & w & tc & Hin & ?). exists b, w, tc. auto. Qed.

Lemma derived_signed eb v log : (eb_block eb, v) ∈ log -> signs verify eb v -> derived log v.
Proof.
  intros Hin [_ Hd Ha Hdig _ Hs _]. exists (eb_block eb), v, (vd_tc (vt_vote_data v)).
  rewrite Hdig, Hs. repeat split; try done. by destruct (vt_vote_data v).
Qed.

Lemma derived_timeout log v s : derived log v -> derived log (addTimeoutSignature v s).
Proof. done. Qed.

Lemma derived_reset log now v tc : derived log v -> derived log (resetVoteTimeoutCount now v tc).
Proof.
  intros (b & w & tc' & Hin & Hd & Hc & _). exists b, w, tc. split; [done|].
  unfold resetVoteTimeoutCount. simpl. rewrite Hd. simpl. repeat split; done.
Qed.

Lemma signLog_snoc calls call :
  core_log (calls ++ [call])
  = core_log calls ++ signStep verify es (voteState verify es sd0 calls) call.
Proof.
  unfold core_log. generalize sd0 as sd. induction calls as [|c calls IH]; intros sd; simpl.
  - by rewrite app_nil_r.
  - by rewrite IH, app_assoc.
Qed.

(** A call of the core extends the log. *)
Lemma traced_vote calls n now eb :
  traced calls n ->
  let r := ConstructAndSignVote verify es now (nd_safety n) eb in
  exists calls', traced calls' (with_safety n r.2)
    /\ forall v, r.1 = Some v -> derived (core_log calls') v.
Proof.
  intros [He Hs Hl Hse Ho] r. exists (calls ++ [(now, eb)]).
  assert (Hsub : core_log calls ⊆ core_log (calls ++ [(now, eb)])).
  { rewrite signLog_snoc. set_solver. }
  assert (Hr : r.2 = voteState verify es sd0 (calls ++ [(now, eb)])).
  { unfold voteState. rewrite foldl_app. unfold r. by rewrite Hs. }
  pose proof (ConstructAndSignVote_outcome verify es now (nd_safety n) eb) as Hout.
  fold r in Hout.
  assert (Hv : forall v, r.1 = Some v -> derived (core_log (calls ++ [(now, eb)])) v).
  { intros v Hv. destruct (repeats (nd_safety n) eb) eqn:Hrep.
    - rewrite Hv in Hout. inversion Hout as [| lv _ El _ | w lvr Hrep' ]; subst; [|congruence].
      eapply derived_mono; [exact Hsub | by apply Hl].
    - rewrite Hv in Hout. inversion Hout as [| lv Hrep' | w lvr _ _ Hsg ]; subst; [congruence|].
      eapply derived_signed; [|exact Hsg]. rewrite signLog_snoc. apply elem_of_app. right.
      unfold signStep. simpl. rewrite <- Hs, Hrep. fold r. rewrite Hv. simpl.
      by apply list_elem_of_singleton. }
  split; [|exact Hv]. split; simpl; try done.
  - intros v Hlast. destruct Hout as [sd' E _ _ | lv Hrep El _ | w lvr _ _ Hsg]; simpl in *.
    + rewrite E in Hlast. eapply derived_mono; [exact Hsub | by apply Hl].
    + injection Hlast as ->. by apply Hv.
    + injection Hlast as ->. by apply Hv.
  - intros v Hv'. eapply derived_mono; [exact Hsub | by apply Hse].
  - intros e v Hin Hev. destruct (Ho e v Hin Hev) as [|Hd]; [by left|right].
    by eapply derived_mono.
Qed.

Lemma core_with_core v n : core_with v n -> core n.
Proof. intros (calls & Ht & _). by exists calls. Qed.

(** Operations that keep the epoch, the safety data, the vote sent and the
    votes emitted. *)
Lemma traced_frame calls n n' :
  nd_epoch_state n' = nd_epoch_state n -> nd_safety n' = nd_safety n ->
  (rs_send_vote (nd_round_state n') = rs_send_vote (nd_round_state n)
   \/ rs_send_vote (nd_round_state n') = None) ->
  (forall e v, e ∈ nd_out n' -> vote_of e = Some v -> e ∈ nd_out n) ->
  traced calls n -> traced calls n'.
Proof.
  intros E1 E2 E3 E4 [He Hs Hl Hse Ho]. split; rewrite ?E1, ?E2; try done.
  - destruct E3 as [-> | ->]; [done|]. discriminate.
  - eauto.
Qed.

Lemma core_frame {T} (m : M A T) :
  (forall n, nd_epoch_state (m n).2 = nd_epoch_state n /\ nd_safety (m n).2 = nd_safety n
     /\ (rs_send_vote (nd_round_state (m n).2) = rs_send_vote (nd_round_state n)
         \/ rs_send_vote (nd_round_state (m n).2) = None)
     /\ (forall e v, e ∈ nd_out (m n).2 -> vote_of e = Some v -> e ∈ nd_out n)) ->
  stable core m /\ forall v, stable (core_with v) m.
Proof.
  intros H. split.
  - intros n (calls & Ht). destruct (H n) as (? & ? & ? & ?). exists calls.
    by eapply traced_frame.
  - intros v n (calls & Ht & Hd). destruct (H n) as (? & ? & ? & ?). exists calls.
    split; [by eapply traced_frame | done].
Qed.

Lemma core_app {T} (f : A -> T * A) : stable core (on_app f).
Proof. apply core_frame. naive_solver. Qed.

Lemma core_storage f : stable core (on_storage f).
Proof. apply core_frame. naive_solver. Qed.

Lemma core_emit e : vote_of e = None -> stable core (emit e).
Proof.
  intros He. apply core_frame. intros n. simpl. repeat split; auto.
  intros e' v [Hin|<-%list_elem_of_singleton]%elem_of_app Hv; [done | congruence].
Qed.

Lemma core_generated r : stable core (modify (fun n => with_last_round_generated n r)).
Proof. apply core_frame. naive_solver. Qed.

Lemma core_flags f g h : stable core (modify (fun n => with_flags n (f n) (g n) (h n))).
Proof. apply core_frame. naive_solver. Qed.

Lemma core_now t : stable core (modify (fun n => with_now n t)).
Proof. apply core_frame. naive_solver. Qed.

Lemma core_round_state {T} (f : RoundState -> T * RoundState) :
  (forall rs, rs_send_vote (f rs).2 = rs_send_vote rs \/ rs_send_vote (f rs).2 = None) ->
  stable core (on_round_state f).
Proof. intros H. apply core_frame. intros n. simpl. naive_solver. Qed.

Lemma core_open si : stable core (on_round_state (fun rs => RoundState_ProcessCertificates rs si)).
Proof. apply core_round_state. intros rs. unfold RoundState_ProcessCertificates. split_if; auto. Qed.

Lemma core_insert v q : stable core (on_round_state (fun rs => RoundState_insertVote rs v q)).
Proof. apply core_round_state. intros rs. unfold RoundState_insertVote. repeat case_match; auto. Qed.

Lemma core_cache v : stable core (on_round_state (fun rs => RoundState_cacheVote rs v)).
Proof. apply core_round_state. intros rs. unfold RoundState_cacheVote. repeat case_match; auto. Qed.

Lemma core_remove id :
  stable core (on_round_state (fun rs => RoundState_getAndRemoveCachedVotes rs id)).
Proof.
  apply core_round_state. intros rs. unfold RoundState_getAndRemoveCachedVotes.
  repeat case_match; auto.
Qed.

Lemma core_offset : stable core (on_round_state (fun rs => (tt, increaseOffsetRound rs))).
Proof. apply core_round_state. auto. Qed.

#[local] Hint Resolve core_app core_storage core_generated core_flags core_now core_open core_insert
  core_cache core_remove core_offset : stable.
#[local] Hint Extern 1 (stable core (emit _)) => apply core_emit; reflexivity : stable.

Lemma core_vote b :
  triple core (ExecuteAndVote b)
    (fun r n => match r with Some v => core_with v n | None => core n end).
Proof.
  apply (triple_bind _ _ _ (fun _ => core)); [change (stable core (executeAndAddBlock b)); walk | intros eb].
  intros n (calls & Ht). simpl. unfold get, mbind, M_bind. simpl.
  destruct (nd_validating n); simpl; [|by exists calls].
  destruct (traced_vote calls n (nd_now n) eb Ht) as (calls' & Ht' & Hv).
  rewrite (tr_epoch _ _ Ht).
  destruct (ConstructAndSignVote _ _ _ _ _) as [[v|] sd'] eqn:E; simpl in *;
    [exists calls'; auto | by exists calls'].
Qed.

(** Remembering and sending a vote of the core. *)
Lemma core_send v (e : SyncInfo -> Effect) :
  (forall si, vote_of (e si) = Some v) ->
  triple (core_with v) (record_vote v;; si ← local_sync_info; emit (e si)) (fun _ => core).
Proof.
  intros He n (calls & [? ? ? ? Ho] & Hd). exists calls. split; simpl; try done.
  - by intros w [= <-].
  - intros e' w [Hin | ->%list_elem_of_singleton]%elem_of_app Hw; [by eapply Ho|].
    right. rewrite He in Hw. congruence.
Qed.

Lemma core_timeout_vote v : triple (core_with v) (broadcast_timeout_vote v) (fun _ => core).
Proof.
  intros n Hn. unfold broadcast_timeout_vote.
  set (w := if isTimeout v then v else _).
  apply (core_send w (BroadcastVote w)); [done|].
  destruct Hn as (calls & Ht & Hd). exists calls. split; [done|]. unfold w.
  by repeat case_match.
Qed.

Lemma core_nil_vote round : stable core (vote_nil_block round).
Proof.
  apply stable_bind; [walk | intros [b|]]; [|walk].
  eapply triple_bind; [apply core_vote|].
  intros [v|]; [apply core_timeout_vote | apply stable_ret].
Qed.

Lemma core_nil_timeout round : stable core (UseNilBlockProcessLocalTimeout round).
Proof.
  intros n Hn. unfold UseNilBlockProcessLocalTimeout, mbind at 1, M_bind at 1, get at 1.
  cbn [fst snd]. cbv zeta.
  destruct (rs_send_vote (nd_round_state n)) as [sent|] eqn:Es; [|by apply core_nil_vote].
  destruct (vote_parent_round sent >? 0); [|by apply core_nil_vote].
  apply core_timeout_vote. destruct Hn as (calls & Ht). exists calls. split; [done|].
  pose proof (tr_sent _ _ Ht _ Es) as Hd. by case_match; [apply derived_reset|].
Qed.

Lemma core_notnil_timeout round : stable core (NotUseNilBlockProcessLocalTimeout round).
Proof.
  intros n Hn. unfold NotUseNilBlockProcessLocalTimeout, mbind at 1, M_bind at 1, get at 1.
  cbn [fst snd].
  destruct (rs_send_vote (nd_round_state n)) as [sent|] eqn:Es.
  - apply core_timeout_vote. destruct Hn as (calls & Ht). exists calls. split; [done|].
    by apply (tr_sent _ _ Ht).
  - assert (Hm : stable core (on_round_state (fun rs => (tt, increaseOffsetRound rs));;
      offset ← get (fun n => rs_offset_round (nd_round_state n));
      a ← author;
      if bool_decide (GetValidProposer (round + offset) = a) then
        proposal ← GenerateProposal (mkNewRoundEvent round TimeoutReason);
        broadcast_proposal proposal
      else mret tt)) by walk.
    by apply Hm.
Qed.

Lemma core_proposal b : stable core (ProcessProposal b).
Proof.
  apply stable_bind; [walk | intros valid]. destruct valid; [|walk]. cbn [negb].
  case_match; [walk|]. eapply triple_bind; [apply core_vote|].
  intros [v|]; [|apply stable_ret]. cbv zeta.
  set (leader := GetValidProposer _).
  intros n Hn.
  by apply (core_send v (SendVote leader v) (fun _ => eq_refl) n).
Qed.

#[local] Hint Resolve core_nil_timeout core_notnil_timeout core_proposal : stable.

Lemma core_votes votes : stable core (ProcessVotes votes).
Proof. induction votes as [|v votes IH]; simpl; [walk|]. apply stable_bind; [walk | done]. Qed.

#[local] Hint Resolve core_votes : stable.

Lemma core_handle e : stable core (handle e).
Proof. destruct e; simpl; walk. Qed.

Lemma core_run events : stable core (run events).
Proof.
  induction events as [|[t e] events IH]; simpl; [walk|].
  apply stable_bind; [walk | intros _]. apply stable_bind; [apply core_handle | done].
Qed.

Lemma core_start d (n : Node A) :
  core (Hotstuff_reset d n).2 -> core (Hotstuff_start d n).2.
Proof.
  assert (H : stable core (RoundManager_start (rd_validating d))) by walk. apply H.
Qed.

End VotesFromCore.
