(* ===== verification/HsRounds.v ===== *)
(** * Rounds follow certificates

    A node whose messages name blocks by their own rounds is always in the
    round after its highest certificate, and neither that certificate nor the
    committed round ever goes back.

    [round_of] is the round of the block a hash names. *)

From S2P Require Import Prelude HsTypes HsVerifier HsCore HsPendingVotes HsNode HsStorage.
From S2P Require Import HsRoundManager HsNodeProps.

#[local] Open Scope Z_scope.

Section Rounds.

Context {D : Digest} {V : ValidatorVerifier} {A : Type} {App : Application A}
  {PE : ProposerElection} {Ar : Archive}.
Context (round_of : HashValue -> Round).

(** ** Truthful data *)

Definition info_true (b : BlockInfo) : Prop := bi_round b = round_of (bi_id b).
Definition qc_true (q : QuorumCertificate) : Prop :=
  info_true (certified_block q) /\ info_true (qc_commit_info q).
Definition si_true (si : SyncInfo) : Prop :=
  qc_true (si_highest_quorum_cert si) /\ qc_true (si_HighestCommitCert si).
Definition vote_true (v : Vote) : Prop :=
  info_true (vd_proposed (vt_vote_data v)) /\ info_true (commit_info (vt_ledger_info v)).
Definition block_true (b : Block) : Prop := bk_round b = round_of (bk_id b).

(** A timeout at round [r] may make the node store a nil block of that round. *)
Definition event_true (e : Event) : Prop :=
  match e with
  | OnProposal _ si | OnEpochChange _ si => si_true si
  | OnHandleProposal b => block_true b
  | OnVote v si => vote_true v /\ si_true si
  | OnAsyncBlock k _ eb =>
      block_true (eb_block eb)
      /\ match k with
         | CheckedProposal _ si => si_true si
         | CheckedVote v si => vote_true v /\ si_true si
         end
  | OnRoundTimer _ r => forall q, block_true (nil_block r q)
  | OnProposalTimer _ _ | OnStop => True
  end.

(** ** The invariant *)

Definition hqc_round (n : Node A) : Round :=
  bi_round (certified_block (bs_highest_quorum_cert (nd_storage n))).

Context (c0 h0 : Round).

Record tracks_at (s : BlockStorage) (rs : RoundState) : Prop := {
  tk_cache : forall h eb, bs_cache_blocks s !! h = Some eb ->
               bk_id (eb_block eb) = h /\ block_true (eb_block eb);
  tk_votes : pending_ok vote_true (rs_pending_votes rs);
  tk_timeout : bs_highest_timeout_cert s = None;
  tk_round : rs_current_round rs <= bi_round (certified_block (bs_highest_quorum_cert s)) + 1;
  tk_committed : c0 <= bs_committed_round s;
  tk_hqc : h0 <= bi_round (certified_block (bs_highest_quorum_cert s))
}.

Definition tracks (n : Node A) : Prop := tracks_at (nd_storage n) (nd_round_state n).

Definition in_step (n : Node A) : Prop :=
  tracks n /\ rs_current_round (nd_round_state n) = hqc_round n + 1.

Lemma highest_round n :
  tracks n -> HighestRound (sync_info (nd_storage n)) = hqc_round n.
Proof. intros Ht. unfold HighestRound, sync_info, SyncInfo_new. simpl. by rewrite (tk_timeout _ _ Ht). Qed.

(** Opening a round puts the node in step. *)
Lemma open_in_step : triple tracks open_round (fun _ => in_step).
Proof.
  intros n Ht. unfold open_round, local_sync_info, get, mbind, M_bind. cbn [fst snd].
  pose proof (highest_round n Ht) as Hh. pose proof (tk_round _ _ Ht) as Hr.
  unfold on_round_state, RoundState_ProcessCertificates. rewrite Hh. cbn [fst snd].
  destruct (Z.gtb_spec (hqc_round n + 1) (rs_current_round (nd_round_state n))) as [Hlt|Hge];
    cbn [fst snd]; (split; [|unfold hqc_round in *; simpl; lia]);
    destruct Ht; split; simpl; try done; unfold hqc_round in *; simpl in *; try lia.
Qed.

Lemma tracks_step n : in_step n -> tracks n.
Proof. by intros [? _]. Qed.

(** Both predicates look at the storage and the round state only. *)
Lemma tracks_insert v q :
  vote_true v -> stable in_step (on_round_state (fun rs => RoundState_insertVote rs v q)).
Proof.
  intros Hv n [[? Hp ? ? ? ?] He]. unfold in_step, hqc_round in *. simpl.
  unfold RoundState_insertVote. split_if; [done|].
  destruct (insertVote _ v q) as [[r q'] pv'] eqn:E. simpl.
  split; [|done]. split; try done. by apply (insertVote_spec vote_true _ _ _ _ _ _ Hp Hv E).
Qed.

Lemma insert_certificate v q :
  vote_true v ->
  triple in_step (on_round_state (fun rs => RoundState_insertVote rs v q))
    (fun r n => in_step n
       /\ (r.1 = VoteReceptionResult_value NewQuorumCertificate -> qc_true r.2)).
Proof.
  intros Hv n Hn. split; [by apply tracks_insert|]. destruct Hn as [[? Hp ? ? ? ?] _]. simpl.
  unfold RoundState_insertVote. split_if; [done|].
  destruct (insertVote _ v q) as [[r q'] pv'] eqn:E. simpl. intros Er.
  destruct (insertVote_spec vote_true _ _ _ _ _ _ Hp Hv E) as (_ & Hq & _).
  destruct r; try discriminate Er. destruct (Hq eq_refl) as (Ed & (_ & (w & [_ Hw] & Ew) & _) & _).
  split.
  - unfold certified_block. rewrite Ed. apply Hv.
  - unfold qc_commit_info, qc_ledger_info. by rewrite <- Ew.
Qed.

Lemma step_cache v :
  vote_true v -> stable in_step (on_round_state (fun rs => RoundState_cacheVote rs v)).
Proof.
  intros Hv n [[? Hp ? ? ? ?] He]. unfold in_step, hqc_round in *. simpl.
  unfold RoundState_cacheVote. split_if; [done|]. split; [|done]. split; try done.
  by apply (cacheVote_ok vote_true).
Qed.

Lemma step_record v : stable in_step (on_round_state (fun rs => (tt, recordVote rs v))).
Proof. intros n [[? ? ? ? ? ?] He]. split; [by split | exact He]. Qed.

Lemma step_offset : stable in_step (on_round_state (fun rs => (tt, increaseOffsetRound rs))).
Proof. intros n [[? ? ? ? ? ?] He]. split; [by split | exact He]. Qed.

Lemma step_remove id :
  triple in_step (on_round_state (fun rs => RoundState_getAndRemoveCachedVotes rs id))
    (fun votes n => in_step n /\ Forall vote_true votes).
Proof.
  intros n [[? Hp ? ? ? ?] He]. unfold in_step, hqc_round in *. simpl.
  unfold RoundState_getAndRemoveCachedVotes.
  destruct (getAndRemoveCachedVotes_ok vote_true _ id Hp) as [H1 H2].
  destruct (getAndRemoveCachedVotes _ id) as [votes pv]. simpl in *.
  split; [|done]. split; [|done]. by split.
Qed.

(** Storing a truthful block. *)
Lemma emplace_step eb :
  block_true (eb_block eb) -> stable in_step (on_storage (fun s => addExecutedBlock s eb)).
Proof.
  intros Hb n [[Hc ? ? ? ? ?] He]. unfold in_step, hqc_round in *. simpl.
  unfold addExecutedBlock, emplace_block. case_match; [done|]. simpl. split; [|done].
  split; simpl; try done. intros h e [[<- <-]|[_ Hl]]%lookup_insert_Some; [done | by apply Hc].
Qed.

(** ** Certificates and commits *)

Hypothesis round_zero : round_of 0 = 0.
Hypothesis c0_nonneg : 0 <= c0.

Lemma tracks_update n q eb :
  tracks n -> qc_true q ->
  bs_cache_blocks (nd_storage n) !! bi_id (certified_block q) = Some eb ->
  tracks (with_storage n (updateQuorumCert (nd_storage n) (bk_round (eb_block eb)) q)).
Proof.
  intros [Hc ? ? Hr ? Hh] [Hq _] Hl. destruct (Hc _ _ Hl) as [Hid Hb].
  unfold block_true in Hb. rewrite Hid, <- Hq in Hb.
  split; simpl; try done; unfold hqc_round in *; simpl; rewrite Hb;
    destruct (Z.gtb_spec (bi_round (certified_block q))
                (bi_round (certified_block (bs_highest_quorum_cert (nd_storage n))))); lia.
Qed.

Lemma tracks_commit l n :
  tracks n -> info_true (commit_info (ls_ledger_info l)) ->
  bs_committed_round (nd_storage n) < bi_round (commit_info (ls_ledger_info l)) ->
  tracks (commit l n).2.
Proof.
  intros Ht Hi Hlt. unfold commit, get, mbind, M_bind. cbn [fst snd].
  set (ci := commit_info (ls_ledger_info l)) in *.
  destruct ((if (bi_id ci =? 0) && negb (BlockInfo_empty ci)
             then bs_genesis_block_id (nd_storage n) else bi_id ci) =? 0); [done|].
  assert (Hne : bi_id ci <> 0).
  { intros E. unfold info_true in Hi. rewrite E, round_zero in Hi.
    pose proof (tk_committed _ _ Ht). lia. }
  rewrite (proj2 (Z.eqb_neq _ _) Hne). cbn [andb]. unfold safetyBlockOf, blockOf.
  destruct (bs_cache_blocks (nd_storage n) !! bi_id ci) as [eb|] eqn:El; [|done].
  destruct (tk_cache _ _ Ht _ _ El) as [Hid Hb].
  destruct Ht as [? ? ? ? Hc ?]. split; simpl; try done.
  unfold block_true in Hb. rewrite Hb, Hid, <- Hi. lia.
Qed.

Lemma tracks_gc n epoch round :
  tracks n -> tracks (with_storage n (gcBlocks (nd_storage n) epoch round)).
Proof.
  intros [Hc ? ? ? ? ?]. destruct (gcBlocks_frame (nd_storage n) epoch round) as [m Hm].
  split; simpl; unfold hqc_round; simpl; try done; try (rewrite Hm; done).
  intros h eb Hl%gcBlocks_sub. by apply Hc.
Qed.

Lemma tracks_announce q : stable tracks (announce_epoch q).
Proof.
  walk; intros n [? ? ? ? ? ?]; by split.
Qed.

Lemma tracks_preCommit q : qc_true q -> stable tracks (preCommit q).
Proof.
  intros [_ Hq] n Ht. unfold preCommit, mbind at 1, M_bind at 1, get. cbn [fst snd].
  destruct (Z.ltb_spec (bs_committed_round (nd_storage n)) (bi_round (qc_commit_info q)));
    [|done].
  refine (triple_bind (fun n => tracks n /\ bs_committed_round (nd_storage n)
            < bi_round (qc_commit_info q)) _ _ (fun _ => tracks) (fun _ => tracks) _ _ n (conj Ht _));
    [by intros n' []; apply tracks_commit | intros _ | done].
  apply stable_bind; [apply tracks_announce | intros signed].
  destruct signed; [|apply stable_ret]. intros n' Ht'. by apply tracks_gc.
Qed.

Lemma insertQuorumCert_eq q (n : Node A) :
  insertQuorumCert q n =
  match bs_cache_blocks (nd_storage n) !! bi_id (certified_block q) with
  | Some eb =>
      (0, (preCommit q
             (with_storage n (updateQuorumCert (nd_storage n) (bk_round (eb_block eb)) q))).2)
  | None => (1, n)
  end.
Proof.
  unfold insertQuorumCert, mbind, M_bind, get, safetyBlockOf, blockOf. cbn [fst snd].
  by destruct (_ !! _).
Qed.

Lemma stable_insertQC q : qc_true q -> stable tracks (insertQuorumCert q).
Proof.
  intros Hq n Hn. rewrite insertQuorumCert_eq. case_match; [|done].
  apply (tracks_preCommit q Hq). by apply tracks_update.
Qed.

Lemma tracks_insertQC q :
  qc_true q -> triple in_step (insertQuorumCert q) (fun r n => tracks n /\ (r <> 0 -> in_step n)).
Proof.
  intros Hq n Hn. split; [by apply stable_insertQC, tracks_step|].
  rewrite insertQuorumCert_eq. by case_match.
Qed.

(** ** Handlers *)

#[local] Hint Resolve step_cache emplace_step step_record step_offset : stable.

Lemma step_new_round e : stable in_step (ProcessNewRoundEvent e).
Proof. walk. Qed.

Lemma certificates_in_step : triple tracks ProcessCertificates (fun _ => in_step).
Proof.
  apply (triple_bind _ _ _ (fun _ => in_step)); [apply open_in_step | intros [e|]];
    [|apply stable_ret].
  apply stable_bind; [apply step_new_round | intros; apply stable_ret].
Qed.

Lemma certificates_return {T} (x : T) :
  triple tracks (_ ← ProcessCertificates; mret x) (fun _ => in_step).
Proof.
  apply (triple_bind _ _ _ (fun _ => in_step)); [apply certificates_in_step | intros _; apply stable_ret].
Qed.

Lemma tracks_addCerts si : si_true si -> stable tracks (addCerts si).
Proof.
  intros [Hq Hc]. apply stable_bind; [by apply stable_insertQC | intros _].
  apply stable_bind; [by apply stable_insertQC | intros _; apply stable_ret].
Qed.

Lemma step_SyncUp si : si_true si -> stable in_step (SyncUp si).
Proof.
  intros Hsi. apply stable_bind; [walk | intros local].
  case_match; [|apply stable_ret]. destruct (negb _); [apply stable_ret|].
  apply (triple_bind _ _ _ (fun _ => tracks)); [|intros _].
  - intros n Hn. by apply tracks_addCerts, tracks_step.
  - apply certificates_return.
Qed.

#[local] Hint Resolve step_new_round step_SyncUp : stable.

Lemma step_NewQC q : qc_true q -> stable in_step (NewQCAggregated q).
Proof.
  intros Hq. apply (triple_bind _ _ _ _ _ (tracks_insertQC q Hq)). intros r.
  destruct (Z.eqb_spec r 0) as [->|Hr].
  - intros n [Hn _]. by apply (certificates_return 0).
  - intros n [_ Hn]. by apply Hn.
Qed.

Lemma step_vote v : vote_true v -> stable in_step (ProcessVote v).
Proof.
  intros Hv. apply stable_bind; [walk | intros valid]. destruct valid; [|walk]. cbn [negb].
  apply (triple_bind _ _ _ _ _ (insert_certificate v _ Hv)). intros [ret q]. simpl.
  destruct (Z.eqb_spec ret 3) as [->|_].
  - intros n [Hn Hq]. revert n Hn.
    change (stable in_step (_ ← NewQCAggregated q; mret 0)).
    apply stable_bind; [by apply step_NewQC, Hq | intros _; apply stable_ret].
  - assert (Hs : stable in_step (if ret =? 4 then mret 0 else if ret =? 0 then mret 0 else mret 1))
      by walk. intros n [Hn _]. by apply Hs.
Qed.

Lemma step_votes votes : Forall vote_true votes -> stable in_step (ProcessVotes votes).
Proof.
  induction 1 as [|v votes Hv _ IH]; simpl; [walk|].
  apply stable_bind; [by apply step_vote | done].
Qed.

Lemma step_cached id : stable in_step (HandleCacheVotes id).
Proof.
  apply (triple_bind _ _ _ _ _ (step_remove id)). intros votes n [Hn Hv]. by apply step_votes.
Qed.

#[local] Hint Resolve step_vote step_cached : stable.

Lemma step_execute b : block_true b -> stable in_step (executeAndAddBlock b).
Proof.
  intros Hb. apply stable_bind; [walk | intros [eb|]]; [walk|].
  apply stable_bind; [walk | intros [[] r]; simpl]; [|walk].
  apply stable_bind; [by apply emplace_step | walk].
Qed.

#[local] Hint Resolve step_execute : stable.

Lemma step_nil_vote round :
  (forall q, block_true (nil_block round q)) -> stable in_step (vote_nil_block round).
Proof.
  intros Hb. apply (triple_bind _ _ _ (fun r n => in_step n
    /\ forall b, r = Some b -> block_true b)).
  - intros n Hn. unfold GenerateNilBlock, EnsureHighestQuorumCert, highest_quorum_cert, get, mbind,
      M_bind. simpl. by repeat (case_match; simpl); (split; [done|]); intros ? [= <-].
  - intros [b|] n [Hn Hr]; [|done]. specialize (Hr b eq_refl). revert n Hn.
    match goal with |- forall n, _ -> in_step (?m n).2 => assert (Hm : stable in_step m) by walk end.
    exact Hm.
Qed.

#[local] Hint Resolve step_nil_vote : stable.

Lemma step_handle e : event_true e -> stable in_step (handle e).
Proof.
  destruct e as [| | | |[p si|v si] ? ?| | |]; simpl; intros He;
    repeat match goal with H : _ /\ _ |- _ => destruct H end; walk.
Qed.

Lemma step_run events : Forall (fun e => event_true e.2) events -> stable in_step (run events).
Proof.
  induction 1 as [|[t e] events He _ IH]; simpl; [walk|].
  apply stable_bind; [walk | intros _]. apply stable_bind; [by apply step_handle | done].
Qed.

End Rounds.

(** ** From a start *)

Section Start.

Context {D : Digest} {V : ValidatorVerifier} {A : Type} {App : Application A}
  {PE : ProposerElection} {Ar : Archive} (round_of : HashValue -> Round).

Definition genesis_of (d : RecoverData) : Block :=
  new_genesis_block (rd_init_ledger_info d) (es_epoch (rd_epoch_state d)).

Lemma reset_tracks d (n : Node A) :
  bs_highest_timeout_cert (nd_storage n) = None -> block_true round_of (genesis_of d) ->
  tracks round_of 0 0 (Hotstuff_reset d n).2.
Proof.
  intros Ht Hg. unfold Hotstuff_reset, updateCeritificates, executeAndAddBlock, get, mbind, M_bind.
  simpl. unfold blockOf. simpl. rewrite lookup_empty. simpl.
  destruct (compute (nd_app n) _) as [[[] r] a]; simpl.
  - unfold addExecutedBlock, emplace_block. simpl. rewrite lookup_empty.
    split; simpl; try done. intros h eb [<- <-]%lookup_singleton_Some. done.
  - split; simpl; done.
Qed.

Lemma start_in_step d (n : Node A) :
  bs_highest_timeout_cert (nd_storage n) = None -> block_true round_of (genesis_of d) ->
  in_step round_of 0 0 (Hotstuff_start d n).2.
Proof.
  intros Ht Hg.
  assert (H : triple (tracks round_of 0 0) (RoundManager_start (rd_validating d))
                (fun _ => in_step round_of 0 0)).
  { apply (triple_bind _ _ _ (fun _ => tracks round_of 0 0)); [by intros m | intros _].
    apply (triple_bind _ _ _ (fun _ => in_step round_of 0 0)); [apply open_in_step|].
    intros [e|]; [apply step_new_round | apply stable_ret]. }
  apply H. by apply reset_tracks.
Qed.

(** The bounds may be raised to the present values. *)
Lemma in_step_now c h (n : Node A) :
  in_step round_of c h n ->
  in_step round_of (bs_committed_round (nd_storage n)) (hqc_round n) n.
Proof. intros [[? ? ? ? ? ?] He]. split; [|done]. by split. Qed.

End Start.

(** ** A node for evaluation *)

(** An application that accepts every block and records what is committed. *)
Module ToyApp.

#[export] Instance app : Application (list ExecutedBlock) := {|
  compute a b := (true, StateComputeResult_default, a);
  verify b r := true;
  app_commit a eb := a ++ [eb];
  syncState a bi := (true, a);
  syncBlock a h au := (None, a);
  asyncBlock a h au k := a;
  canExtract a := (true, a);
  extract a d := (Some 7, d, a)
|}.

Definition election : ProposerElection := fun r => getLeaderPubKey Toy.validators r.
Definition archive : Archive := fun e => [ec_epoch e; ec_round e].

Definition storage0 : BlockStorage :=
  mkBlockStorage 0 ∅ QuorumCertificate_default QuorumCertificate_default None 0.

(** Validator [a] before its start. *)
Definition cold (a : Author) : Node (list ExecutedBlock) :=
  mkNode (mkConfig a 0 5 200 false) (mkEpochState 0) storage0
    (mkRoundState 0 PendingVotes_New None 0) SafetyData_default 0 false false false [] 100 [].

Definition recover : RecoverData := mkRecoverData LedgerInfo_default (mkEpochState 0) true.

Definition verifier (a : Author) : ValidatorVerifier :=
  HotstuffVerifier (D := Toy.digest) (Toy.keys a).

Definition start (a : Author) : Node (list ExecutedBlock) :=
  (Hotstuff_start (D := Toy.digest) (V := verifier a) (PE := election) recover (cold a)).2.

Definition after (a : Author) (events : list (Z * Event)) : Node (list ExecutedBlock) :=
  (run (D := Toy.digest) (V := verifier a) (PE := election) (Ar := archive) events (start a)).2.

Definition genesis_qc : QuorumCertificate := bk_qc (genesis_of (D := Toy.digest) recover).

(** The proposal of round 1, by the second validator. *)
Definition block1 : Block :=
  mkBlock 12 (mkBlockData 0 1 50 genesis_qc Proposal (Some (mkPayload 7 [2]))) None.

Definition data1 : VoteData :=
  VoteData_New (gen_block_info block1 LedgerInfo_default None) (certified_block genesis_qc) 0.

(** [a]'s vote for it. *)
Definition vote1 (a : Author) : Vote :=
  let d := VoteData_hash (D := Toy.digest) data1 in
  Vote_New 60 a data1 (mkCommitLedgerInfo (BlockInfo_new 0) d) (Toy.sign a d).

Definition sync0 : SyncInfo := SyncInfo_new genesis_qc genesis_qc None.

(** The third validator, leader of round 2, sees the proposal and three votes. *)
Definition events : list (Z * Event) :=
  [(60, OnHandleProposal block1); (61, OnVote (vote1 [1]) sync0);
   (62, OnVote (vote1 [2]) sync0); (63, OnVote (vote1 [4]) sync0)].

Definition round_of (h : HashValue) : Round := if h =? 12 then 1 else 0.

End ToyApp.

(** ** Theorem *)

(** C33: rounds follow certificates.  From a start without a timeout
    certificate, while the certificates, votes and blocks a node is given name
    blocks by their own rounds, which the signatures do not cover, the node
    is after every event in the round that follows its highest certificate, and
    its highest certificate and its committed round never go back. *)
Theorem rounds_follow_certificates {D : Digest} {V : ValidatorVerifier} {A : Type}
    {App : Application A} {PE : ProposerElection} {Ar : Archive} (round_of : HashValue -> Round)
    (d : RecoverData) (n : Node A) (before after : list (Z * Event)) :
  round_of 0 = 0 -> block_true round_of (genesis_of d) ->
  bs_highest_timeout_cert (nd_storage n) = None ->
  Forall (fun e => event_true round_of e.2) (before ++ after) ->
  let n1 := (run before (Hotstuff_start d n).2).2 in
  let n2 := (run after n1).2 in
  rs_current_round (nd_round_state n1) = hqc_round n1 + 1
  /\ rs_current_round (nd_round_state n2) = hqc_round n2 + 1
  /\ hqc_round n1 <= hqc_round n2
  /\ bs_committed_round (nd_storage n1) <= bs_committed_round (nd_storage n2).
Proof.
  intros Hz Hg Ht Hev n1 n2. apply Forall_app in Hev as [He1 He2].
  assert (H1 : in_step round_of 0 0 n1)
    by (apply step_run; [done | lia | done | by apply start_in_step]).
  assert (H2 : in_step round_of (bs_committed_round (nd_storage n1)) (hqc_round n1) n2).
  { apply step_run; [done | destruct H1 as [[] _]; lia | done|]. by eapply in_step_now. }
  destruct H1 as [_ E1], H2 as [[? ? ? ? Hc Hh] E2]. by repeat split.
Qed.

Lemma rounds_follow_certificates_witness :
  let n1 := ToyApp.after [3] ToyApp.events in
  rs_current_round (nd_round_state n1) = 2 /\ rs_current_round (nd_round_state n1) = hqc_round n1 + 1.
Proof.
  split; [by vm_compute|].
  refine (proj1 (rounds_follow_certificates (D := Toy.digest) (V := ToyApp.verifier [3])
    (App := ToyApp.app) (PE := ToyApp.election) (Ar := ToyApp.archive) ToyApp.round_of ToyApp.recover
    (ToyApp.cold [3]) ToyApp.events [] _ _ _ _)); [reflexivity | by vm_compute | reflexivity|].
  rewrite app_nil_r. repeat (apply Forall_cons; split; [vm_compute; tauto|]). apply Forall_nil, I.
Defined.
