(* ===== verification/HsNodeTheorems.v ===== *)
(** * What a node does, whatever it is sent

    Theorems over every sequence of events, with no assumption on the senders,
    and the two ways in which an unauthenticated field of a message moves a
    node's state. *)

From S2P Require Import Prelude HsTypes HsVerifier HsCore HsPendingVotes HsNode HsStorage.
From S2P Require Import HsRoundManager HsNodeProps HsRounds.

#[local] Open Scope Z_scope.

(** ** Preparation *)

Section Prepare.

Context {D : Digest} {V : ValidatorVerifier} {A : Type} {App : Application A}
  {PE : ProposerElection} {Ar : Archive}.

(** The safety data a start leaves. *)
Definition initial_safety (d : RecoverData) : SafetyData :=
  mkSafetyData (es_epoch (rd_epoch_state d)) 0 0 None.

Lemma reset_frame d (n : Node A) :
  nd_epoch_state (Hotstuff_reset d n).2 = rd_epoch_state d
  /\ nd_safety (Hotstuff_reset d n).2 = initial_safety d
  /\ nd_out (Hotstuff_reset d n).2 = nd_out n
  /\ rs_send_vote (nd_round_state (Hotstuff_reset d n).2) = None.
Proof.
  unfold Hotstuff_reset, updateCeritificates, executeAndAddBlock, get, mbind, M_bind.
  simpl. unfold blockOf. simpl. rewrite lookup_empty. simpl.
  by destruct (compute (nd_app n) _) as [[[] r] a].
Qed.

Lemma start_core d (n : Node A) :
  core (rd_epoch_state d) (initial_safety d) (nd_out n) (Hotstuff_start d n).2.
Proof.
  apply core_start. exists []. destruct (reset_frame d n) as (He & Hs & Ho & Hv).
  split; [exact He | exact Hs | | | intros e v; rewrite Ho; auto].
  - intros v. by rewrite Hs.
  - intros v. by rewrite Hv.
Qed.

(** ** Certificates the node adopts

    The highest certificate after the handlers that follow its adoption. *)

Context (q : QuorumCertificate).

Definition adopted (n : Node A) : Prop :=
  bs_highest_quorum_cert (nd_storage n) = q /\ bs_highest_timeout_cert (nd_storage n) = None.

Definition adopted_at (r : Round) (n : Node A) : Prop :=
  adopted n /\ rs_current_round (nd_round_state n) = r.

Lemma adopted_gc epoch round : stable adopted (on_storage (fun s => gcBlocks s epoch round)).
Proof.
  intros n Hn. unfold adopted in *. simpl.
  by destruct (gcBlocks_frame (nd_storage n) epoch round) as [m ->].
Qed.

Lemma adopted_preCommit q' : stable adopted (preCommit q').
Proof. pose proof adopted_gc. walk. Qed.

Lemma adopted_insert : stable adopted (insertQuorumCert q).
Proof.
  intros n Hn. rewrite insertQuorumCert_eq. case_match; [|done].
  apply adopted_preCommit. destruct Hn as [Hq Ht]. split; [|done]. simpl. rewrite Hq.
  by destruct (_ >? _).
Qed.

Lemma insert_adopts n eb :
  bs_highest_timeout_cert (nd_storage n) = None ->
  bs_cache_blocks (nd_storage n) !! bi_id (certified_block q) = Some eb ->
  hqc_round n < bk_round (eb_block eb) ->
  adopted (insertQuorumCert q n).2.
Proof.
  intros Ht Hl Hlt. rewrite insertQuorumCert_eq, Hl. apply adopted_preCommit.
  split; [|done]. simpl. unfold hqc_round in Hlt.
  by destruct (Z.gtb_spec (bk_round (eb_block eb))
    (bi_round (certified_block (bs_highest_quorum_cert (nd_storage n))))); [|lia].
Qed.

(** The round that opens is that of the adopted certificate. *)
Lemma adopted_round n :
  adopted n -> rs_current_round (nd_round_state n) <= bi_round (certified_block q) ->
  rs_current_round (nd_round_state (ProcessCertificates n).2) = bi_round (certified_block q) + 1.
Proof.
  intros [Hq Ht] Hr.
  assert (H : triple (fun n => adopted n
      /\ rs_current_round (nd_round_state n) <= bi_round (certified_block q)) ProcessCertificates
    (fun _ => adopted_at (bi_round (certified_block q) + 1))); [|by apply H].
  apply (triple_bind _ _ _ (fun _ => adopted_at (bi_round (certified_block q) + 1))).
  - intros m [[Hmq Hmt] Hmr]. unfold open_round, local_sync_info, get, mbind, M_bind.
    cbn [fst snd]. unfold on_round_state, RoundState_ProcessCertificates, HighestRound, sync_info,
      SyncInfo_new. rewrite Hmt, Hmq. cbn [fst snd si_highest_timeout_cert si_highest_quorum_cert].
    destruct (Z.gtb_spec (bi_round (certified_block q) + 1) (rs_current_round (nd_round_state m)));
      [|lia]. by cbn.
  - intros [e|]; [|apply stable_ret]. apply stable_bind; [walk | intros _; apply stable_ret].
Qed.

End Prepare.

(** ** Votes and rounds *)

(** C34: what a node signs is what its safety rules produced.  Whatever events
    reach a node after its start, its safety data is the result of a sequence
    of calls of [ConstructAndSignVote] from the initial state, and every vote
    it has sent or broadcast since is for the block of a vote that this
    sequence signed: the same parent, commit info and author, its signature on
    its own digest, and at most another timeout count. *)
Theorem node_votes_from_core {D : Digest} {V : ValidatorVerifier} {A : Type} {App : Application A}
    {PE : ProposerElection} {Ar : Archive} (d : RecoverData) (n : Node A)
    (events : list (Z * Event)) :
  let m := (run events (Hotstuff_start d n).2).2 in
  exists calls,
    nd_safety m = voteState verify (rd_epoch_state d) (initial_safety d) calls
    /\ forall e v, e ∈ nd_out m -> vote_of e = Some v ->
         e ∈ nd_out n \/ derived (core_log (rd_epoch_state d) (initial_safety d) calls) v.
Proof.
  intros m.
  assert (H : core (rd_epoch_state d) (initial_safety d) (nd_out n) m)
    by (apply core_run, start_core).
  destruct H as (calls & [_ Hs _ _ Ho]). by exists calls.
Qed.

(** whatever events reach a node after its start, every vote it has stored
    or holds back passed the verification of its signature, and every signature
    it has collected under a digest is that of such a vote on that digest. *)
Theorem pending_votes_verified {D : Digest} {V : ValidatorVerifier} {A : Type}
    {App : Application A} {PE : ProposerElection} {Ar : Archive} (d : RecoverData) (n : Node A)
    (events : list (Z * Event)) :
  let pv := rs_pending_votes (nd_round_state (run events (Hotstuff_start d n).2).2) in
  (forall a v, pv_author_to_vote pv !! a = Some v ->
     verifySignature_vote a (vt_signature v) v = true)
  /\ (forall id votes v, pv_cache_votes pv !! id = Some votes -> v ∈ votes ->
        verifySignature_vote (vt_author v) (vt_signature v) v = true)
  /\ (forall digest l a s, pv_li_digest_to_votes pv !! digest = Some l ->
        ls_signatures l !! a = Some s ->
        exists v, verifySignature_vote a s v = true /\ vt_author v = a /\ vote_digest v = digest).
Proof.
  intros pv. assert (H : pending_ok verified_vote pv) by apply pvf_run, pvf_start.
  destruct H as [Ha He Hc]. repeat split.
  - intros a v Hl. destruct (Ha a v Hl) as [Hv <-]. exact Hv.
  - intros id votes v Hl Hin. by eapply Hc.
  - intros digest l a s Hl Hs. destruct (He digest l Hl) as (_ & _ & Hsig).
    destruct (Hsig a s Hs) as (v & Hv & <- & Hd & <-). by exists v.
Qed.

(** The round of a node never falls, whatever events reach it. *)
Theorem round_never_falls {D : Digest} {V : ValidatorVerifier} {A : Type} {App : Application A}
    {PE : ProposerElection} {Ar : Archive} (n : Node A) (events : list (Z * Event)) :
  rs_current_round (nd_round_state n) <= rs_current_round (nd_round_state (run events n).2).
Proof. apply (ral_run (rs_current_round (nd_round_state n)) events n). unfold round_at_least. lia. Qed.

(** ** Unauthenticated fields *)

(** A sync info that carries one certificate. *)
Definition sync_of (q : QuorumCertificate) : SyncInfo := mkSyncInfo q None None false.

Section Unauthenticated.

Context {D : Digest} {V : ValidatorVerifier} {A : Type} {App : Application A}
  {PE : ProposerElection} {Ar : Archive}.

Lemma sync_of_verify q : (SyncInfo_Verify (sync_of q)).1 = QuorumCertificate_Verify q.
Proof.
  unfold SyncInfo_Verify, sync_of. simpl. rewrite Z.eqb_refl, Z.ltb_irrefl. simpl.
  by destruct (QuorumCertificate_Verify q).
Qed.

(** Catching up with a verified certificate of a cached block. *)
Lemma SyncUp_round q eb (n : Node A) :
  bs_highest_timeout_cert (nd_storage n) = None -> QuorumCertificate_Verify q = true ->
  bs_cache_blocks (nd_storage n) !! bi_id (certified_block q) = Some eb ->
  hqc_round n < bk_round (eb_block eb) -> hqc_round n < bi_round (certified_block q) ->
  rs_current_round (nd_round_state n) <= bi_round (certified_block q) ->
  (SyncUp (sync_of q) n).1 = 0
  /\ rs_current_round (nd_round_state (SyncUp (sync_of q) n).2) = bi_round (certified_block q) + 1.
Proof.
  intros Ht Hv Hl Hlt Hn Hr.
  assert (Hnew : hasNewerCertificate (sync_of q) (sync_info (nd_storage n)) = true).
  { unfold hasNewerCertificate, sync_of, hqc_round in *. simpl. btests. lia. }
  unfold SyncUp, local_sync_info, get. unfold mbind at 1 4, M_bind at 1 4. cbn [fst snd].
  rewrite Hnew, sync_of_verify, Hv. cbn [negb]. split; [done|].
  apply (adopted_round q).
  - unfold addCerts, mbind, M_bind. cbn [snd fst]. apply (adopted_insert q).
    by apply (insert_adopts q n eb).
  - assert (Hs : stable (fun n => rs_current_round (nd_round_state n) <= bi_round (certified_block q))
      (addCerts (A := A) (sync_of q))) by walk.
    by apply Hs.
Qed.

End Unauthenticated.

(** the round a certificate claims for its block is believed.  A node that
    has a block of a later round than its highest certificate moves to any
    round [r + 1] on one message: the block's own valid certificate, with the
    round of the certified block replaced by [r]. *)
Theorem forged_round_jump {D : Digest} (K : Keys) {A : Type} {App : Application A}
    {PE : ProposerElection} {Ar : Archive} (n : Node A) (q : QuorumCertificate)
    (eb : ExecutedBlock) (v : Vote) (r : Round) :
  nd_started n = true -> nd_stop n = false -> bs_highest_timeout_cert (nd_storage n) = None ->
  QuorumCertificate_Verify (V := HotstuffVerifier K) q = true ->
  bi_round (certified_block q) <> 0 ->
  bs_cache_blocks (nd_storage n) !! bi_id (certified_block q) = Some eb ->
  hqc_round n < bk_round (eb_block eb) ->
  rs_current_round (nd_round_state n) <= vote_round v <= r ->
  0 <= hqc_round n < r -> bi_round (parent_block q) < r ->
  rs_current_round (nd_round_state
    (handle (V := HotstuffVerifier K) (OnVote v (sync_of (with_certified_round q r))) n).2)
  = r + 1.
Proof.
  intros Hst Hsp Ht Hq Hz Hl Hlt Hv Hr Hp. set (q' := with_certified_round q r).
  assert (Hq' : QuorumCertificate_Verify (V := HotstuffVerifier K) q' = true)
    by (apply with_certified_round_verify; [done | lia | done | done]).
  destruct (SyncUp_round (V := HotstuffVerifier K) q' eb n Ht Hq' Hl Hlt) as [H0 Hround];
    [simpl; lia | simpl; lia|].
  unfold handle, handleVote, get, mbind, M_bind. cbn [fst snd]. rewrite Hst. cbn [negb].
  unfold ProcessVote_sync, get, mbind, M_bind. cbn [fst snd]. rewrite Hsp.
  unfold existsBlock. change (bi_id (certified_block (si_highest_quorum_cert (sync_of q'))))
    with (bi_id (certified_block q)). rewrite Hl. cbn [negb]. rewrite andb_false_r.
  unfold preProcessVote, EnsureRoundAndSyncUp, current_round, get, mbind, M_bind. cbn [fst snd].
  rewrite (proj2 (Z.ltb_ge _ _) (proj1 Hv)). cbn [fst snd].
  rewrite H0. cbn [Z.eqb negb fst snd]. rewrite Hround. change (bi_round (certified_block q')) with r.
  rewrite (proj2 (Z.eqb_neq (vote_round v) (r + 1))) by lia. exact Hround.
Qed.

Lemma forged_round_jump_witness :
  let n := ToyApp.after [1] [(60, OnHandleProposal ToyApp.block1)] in
  let q := Toy.certificate ToyApp.data1 (BlockInfo_new 0) in
  rs_current_round (nd_round_state n) = 1
  /\ rs_current_round (nd_round_state
       (handle (D := Toy.digest) (V := HotstuffVerifier (D := Toy.digest) (Toy.keys [1]))
          (App := ToyApp.app) (PE := ToyApp.election) (Ar := ToyApp.archive)
          (OnVote (ToyApp.vote1 [2]) (sync_of (with_certified_round q 1000000))) n).2) = 1000000 + 1.
Proof.
  intros n q. split; [by vm_compute|].
  apply (forged_round_jump (D := Toy.digest) (Toy.keys [1]) (App := ToyApp.app)
           (PE := ToyApp.election) (Ar := ToyApp.archive) n q
           (mkExecutedBlock ToyApp.block1 StateComputeResult_default));
    try (vm_compute; done); vm_compute; split; done.
Defined.

(** the highest commit certificate of a sync info is believed unverified.
    When the rest of a newer sync info verifies, a commit certificate that
    carries no valid signature makes the node commit the cached block it
    names, before anything else is looked at. *)
Theorem unverified_commit_cert {D : Digest} {V : ValidatorVerifier} {A : Type}
    {App : Application A} {PE : ProposerElection} {Ar : Archive} (n : Node A) (si : SyncInfo)
    (c : QuorumCertificate) (ceb eb : ExecutedBlock) :
  hasNewerCertificate si (sync_info (nd_storage n)) = true ->
  (SyncInfo_Verify si).1 = true -> si_highest_commit_cert si = Some c ->
  bs_cache_blocks (nd_storage n) !! bi_id (certified_block c) = Some ceb ->
  bi_id (qc_commit_info c) <> 0 ->
  bs_cache_blocks (nd_storage n) !! bi_id (qc_commit_info c) = Some eb ->
  bs_committed_round (nd_storage n) < bi_round (qc_commit_info c) ->
  let n' := (insertQuorumCert c n).2 in
  nd_app n' = app_commit (nd_app n) eb
  /\ SyncUp si n = (_ ← insertQuorumCert (si_highest_quorum_cert si);
                    _ ← ProcessCertificates; mret 0) n'.
Proof.
  intros Hnew Hver Hc Hceb Hid Heb Hlt n'. split.
  - unfold n'. rewrite insertQuorumCert_eq, Hceb. cbn [snd].
    set (m := with_storage n _).
    assert (Hlt' : (bs_committed_round (nd_storage m) <? bi_round (qc_commit_info c)) = true)
      by (apply Z.ltb_lt; exact Hlt).
    unfold preCommit, get. unfold mbind at 1, M_bind at 1. cbn [fst snd]. rewrite Hlt'.
    assert (Hm : nd_app (commit (qc_signed_ledger_info c) m).2 = app_commit (nd_app n) eb).
    { unfold commit, get, mbind, M_bind. cbn [fst snd].
      change (commit_info (ls_ledger_info (qc_signed_ledger_info c))) with (qc_commit_info c).
      rewrite (proj2 (Z.eqb_neq _ _) Hid). cbn [andb]. rewrite (proj2 (Z.eqb_neq _ _) Hid).
      unfold safetyBlockOf, blockOf, m. simpl. by rewrite Heb. }
    set (P := fun k : Node A => nd_app k = app_commit (nd_app n) eb).
    assert (Hs : stable P (signed ← announce_epoch c;
        if (signed : bool) then on_storage (fun s =>
          gcBlocks s (bi_epoch (qc_commit_info c)) (bi_round (qc_commit_info c))) else mret tt))
      by walk.
    by apply Hs.
  - unfold SyncUp, local_sync_info, get, mbind, M_bind. cbn [fst snd]. rewrite Hnew, Hver.
    cbn [negb]. unfold addCerts, mbind, M_bind. cbn [fst snd]. unfold si_HighestCommitCert.
    by rewrite Hc.
Qed.

(** A second cached block of round 1, and a commit certificate without any
    signature that names it. *)
Lemma unverified_commit_cert_witness :
  let block2 := mkBlock 13 (mkBlockData 0 1 55 ToyApp.genesis_qc Proposal (Some (mkPayload 8 [2])))
                  None in
  let n := ToyApp.after [1]
             [(60, OnHandleProposal ToyApp.block1); (61, OnHandleProposal block2)] in
  let q := Toy.certificate ToyApp.data1 (BlockInfo_new 0) in
  let c := mkQuorumCertificate ToyApp.data1
             (LedgerInfoWithSignatures_new (mkCommitLedgerInfo (Toy.block_info 1 13) 0)) in
  let si := mkSyncInfo q (Some c) None false in
  nd_app (insertQuorumCert (D := Toy.digest) (V := ToyApp.verifier [1]) (App := ToyApp.app)
            (PE := ToyApp.election) (Ar := ToyApp.archive) c n).2
  = app_commit (Application := ToyApp.app) (nd_app n)
      (mkExecutedBlock block2 StateComputeResult_default).
Proof.
  intros block2 n q c si.
  refine (proj1 (unverified_commit_cert (D := Toy.digest) (V := ToyApp.verifier [1])
    (App := ToyApp.app) (PE := ToyApp.election) (Ar := ToyApp.archive) n si c
    (mkExecutedBlock ToyApp.block1 StateComputeResult_default)
    (mkExecutedBlock block2 StateComputeResult_default) _ _ _ _ _ _ _)); by vm_compute.
Defined.

(** ** Proposals *)

Section Proposals.

Context {A : Type} {App : Application A}.

(** The rounds in which a sequence of calls of the generator produced a
    proposal; [between] is what the node does before each call. *)
Fixpoint proposed_rounds (calls : list (Round * (Node A -> Node A))) (n : Node A) : list Round :=
  match calls with
  | [] => []
  | (r, between) :: calls =>
      let (result, n') := ProposalGenerator_Proposal r (between n) in
      match result with
      | Some _ => r :: proposed_rounds calls n'
      | None => proposed_rounds calls n'
      end
  end.

Definition generator_idle (f : Node A -> Node A) : Prop :=
  forall n, nd_last_round_generated (f n) = nd_last_round_generated n.

Lemma Proposal_refused r (n : Node A) :
  r <= nd_last_round_generated n ->
  ProposalGenerator_Proposal r n = (None, with_last_round_generated n r).
Proof.
  intros H. unfold ProposalGenerator_Proposal, get, modify, mbind, M_bind. cbn [fst snd].
  destruct (Z.geb_spec (nd_last_round_generated n) r); [done | lia].
Qed.

Lemma Proposal_last r (n : Node A) :
  nd_last_round_generated (ProposalGenerator_Proposal r n).2 = r.
Proof.
  set (P := fun k : Node A => nd_last_round_generated k = r).
  unfold ProposalGenerator_Proposal, modify, mbind at 1 2, M_bind at 1 2. cbn [fst snd].
  match goal with |- nd_last_round_generated (?m _).2 = r =>
    assert (H : stable P m) by walk; by apply H end.
Qed.

Lemma proposed_rounds_above calls (n : Node A) r :
  Forall (fun c => generator_idle c.2) calls -> StronglySorted Z.le (calls.*1) ->
  Forall (fun c => nd_last_round_generated n <= c) (calls.*1) ->
  r ∈ proposed_rounds calls n -> nd_last_round_generated n < r.
Proof.
  revert n. induction calls as [|[r0 f] calls IH]; intros n Hi Hs Ha Hin; simpl in *;
    [by apply elem_of_nil in Hin|].
  apply Forall_cons in Hi as [Hf Hi]. apply StronglySorted_inv in Hs as [Hs Hr].
  apply Forall_cons in Ha as [H0 Ha]. simpl in Hf.
  pose proof (Proposal_last r0 (f n)) as Hl.
  destruct (ProposalGenerator_Proposal r0 (f n)) as [[d|] n'] eqn:E; simpl in Hl.
  - assert (Hlt : nd_last_round_generated n < r0).
    { destruct (Z_lt_le_dec (nd_last_round_generated n) r0) as [|Hge]; [done|].
      rewrite Proposal_refused in E; [discriminate | by rewrite Hf]. }
    apply elem_of_cons in Hin as [->|Hin]; [done|].
    apply IH in Hin; [lia | done | done | by rewrite Hl].
  - apply IH in Hin; [lia | done | done | by rewrite Hl].
Qed.

End Proposals.

(** One proposal per round.  While the generator is asked for rounds in
    non-decreasing order, it produces at most one proposal for each round, in
    increasing order, whatever the node does between the calls. *)
Theorem proposals_once {A : Type} {App : Application A}
    (calls : list (Round * (Node A -> Node A))) (n : Node A) :
  Forall (fun c => generator_idle c.2) calls -> StronglySorted Z.le (calls.*1) ->
  StronglySorted Z.lt (proposed_rounds calls n).
Proof.
  revert n. induction calls as [|[r f] calls IH]; intros n Hi Hs; simpl in *; [constructor|].
  apply Forall_cons in Hi as [Hf Hi]. apply StronglySorted_inv in Hs as [Hs Hr].
  pose proof (Proposal_last r (f n)) as Hl.
  destruct (ProposalGenerator_Proposal r (f n)) as [[d|] n'] eqn:E; simpl in Hl; [|by apply IH].
  constructor; [by apply IH|]. apply Forall_forall. intros r' Hin.
  rewrite <- Hl. eapply proposed_rounds_above; [done | done | by rewrite Hl | done].
Qed.

Lemma proposals_once_witness :
  StronglySorted Z.lt (proposed_rounds (App := ToyApp.app) [(1, id); (1, id); (2, id)] (ToyApp.after [1] [])).
Proof.
  apply (proposals_once (App := ToyApp.app)
           [(1, id); (1, id); (2, id)]); [repeat constructor|].
  repeat constructor; simpl; lia.
Defined.

(** Asking for an earlier round disarms that rule.  After a refused call
    for a lower round the generator behaves for round [r], in which it had
    already proposed, as if it had proposed nothing. *)
Theorem proposal_counter_falls {A : Type} {App : Application A} (n : Node A) (r r' : Round) :
  r <= nd_last_round_generated n -> 0 <= r' < r ->
  (ProposalGenerator_Proposal r n).1 = None
  /\ ProposalGenerator_Proposal r (ProposalGenerator_Proposal r' n).2
     = ProposalGenerator_Proposal r (with_last_round_generated n 0).
Proof.
  intros Hr Hr'. rewrite (Proposal_refused r n), (Proposal_refused r' n) by lia.
  split; [done|]. cbn [snd].
  unfold ProposalGenerator_Proposal, get, modify, mbind, M_bind. cbn [fst snd].
  change (nd_last_round_generated (with_last_round_generated n r')) with r'.
  change (nd_last_round_generated (with_last_round_generated n 0)) with 0.
  destruct (Z.geb_spec r' r); [lia|]. by destruct (Z.geb_spec 0 r); [lia|].
Qed.

Lemma proposal_counter_falls_witness :
  let n := (ProposalGenerator_Proposal (App := ToyApp.app) 2 (ToyApp.after [3] [])).2 in
  (ProposalGenerator_Proposal (App := ToyApp.app) 2 n).1
  = None.
Proof.
  intros n.
  apply (proposal_counter_falls (App := ToyApp.app)
           n 2 1); vm_compute; [discriminate | split; [discriminate | reflexivity]].
Defined.
