(* ===== verification/HsConsensus.v ===== *)
(** * The HotStuff consensus object (HotstuffConsensus)

    [HotstuffConsensus] owns a HotStuff instance and is its application: it
    extracts transactions, computes and verifies ledgers, follows the chain of
    ledgers, and feeds the instance with the messages of its peers.  Its state
    is [Hc]; the interfaces [StateCompute] and [CommandManager] it implements
    are the instance [hotstuff_app] of the class [Application], so that the
    whole object is a [Node Hc] and its handlers are computations of the same
    monad as the instance's.

    The adaptor (ledger master, transaction pool, network) is the class
    [Adaptor]: its operations are parameters.  Times are [NetClock] seconds,
    whose differences wrap at 32 bits. *)

From S2P Require Import Prelude HsTypes HsVerifier HsCore HsPendingVotes HsNode HsStorage.
From S2P Require Import HsRoundManager ConsensusTypes.
From stdpp Require Import sorting.
From coqutil Require Import Datatypes.RecordSetters.
Import DoubleBraceUpdate.

#[local] Open Scope Z_scope.

(** ** HotstuffConsensusParams.h *)

Record HotstuffConsensusParms := mkParms {
  minBLOCK_TIME : Z;
  maxBLOCK_TIME : Z;
  maxTXS_IN_LEDGER : Z;
  omitEMPTY : bool;
  consensusTIMEOUT : Z;   (* milliseconds *)
  initTIME : Z;           (* seconds *)
  extractINTERVAL : Z     (* milliseconds *)
}.

Definition Parms_default : HotstuffConsensusParms := mkParms 1000 1000 10000 true 5000 90 200.

Definition minTXS_IN_LEDGER_ADVANCE : Z := 5000.
Definition timeoutCOUNT_ROLLBACK : Z := 5.
Definition initANNOUNCE_INTERVAL : Z := 1.

(** The values of the configuration section, where present. *)
Record ConsensusSection := mkSection {
  cs_min_block_time : option Z;
  cs_max_block_time : option Z;
  cs_max_txs_per_ledger : option Z;
  cs_time_out : option Z;
  cs_init_time : option Z;
  cs_omit_empty_block : option bool
}.

(** The constructor of [HotstuffAdaptor], when the configuration has a consensus
    section: [unsigned] products wrap. *)
Definition load_section (p : HotstuffConsensusParms) (txPOOL_CAPACITY ledgerGRANULARITY : Z)
    (c : ConsensusSection) : HotstuffConsensusParms :=
  let min_block := Z.max (minBLOCK_TIME p) (default (minBLOCK_TIME p) (cs_min_block_time c)) in
  let max_block := Z.max (maxBLOCK_TIME p) (default (maxBLOCK_TIME p) (cs_max_block_time c)) in
  let max_block := Z.max min_block max_block in
  let max_txs := Z.min (default (maxTXS_IN_LEDGER p) (cs_max_txs_per_ledger c)) txPOOL_CAPACITY in
  let timeout := Z.max (consensusTIMEOUT p) (default (consensusTIMEOUT p) (cs_time_out c)) in
  let floor := u32 (u32 (2 * max_block) + 1000) in
  let timeout := if timeout <? floor then floor else timeout in
  let init := Z.max (timeout / 1000 * 2) (default (initTIME p) (cs_init_time c)) in
  let omit := default (omitEMPTY p) (cs_omit_empty_block c) in
  mkParms min_block max_block max_txs omit timeout init ledgerGRANULARITY.

Definition load_parms (txPOOL_CAPACITY ledgerGRANULARITY : Z) (c : option ConsensusSection)
  : HotstuffConsensusParms :=
  match c with
  | Some c => load_section Parms_default txPOOL_CAPACITY ledgerGRANULARITY c
  | None => Parms_default
  end.

(** ** Messages *)

Record STProposal := mkSTProposal {
  sp_block : Block;
  sp_syncInfo : SyncInfo;
  sp_nodePublic : Author
}.

(** A job that hands a proposal to the instance. *)
Inductive Job := HandleProposal (b : Block).

(** ** The adaptor

    A ledger is its header, [LedgerInfo].  [doAccept] may begin a consensus
    round through the network operations; the arguments of that
    [startRound] are returned. *)

Record RoundStart := mkRoundStart {
  st_now : Z;
  st_prevLedgerID : HashValue;
  st_prevLedger : LedgerInfo;
  st_proposing : bool
}.

Class Adaptor (E : Type) := {
  ad_parms : HotstuffConsensusParms;
  ad_validating : E -> bool;
  ad_closeTime : E -> Z;
  ad_utcTime : E -> Z;
  ad_getPoolQueuedTxCount : E -> Z;
  ad_onExtractTransactions : E -> LedgerInfo -> ConsensusMode -> HashValue * E;
  ad_share : E -> HashValue -> E;
  (* the header of the successor of a ledger, closed and accepted *)
  ad_buildHeader : LedgerInfo -> Z -> Z -> LedgerInfo;
  (* the ledger after a transaction set *)
  ad_buildLCL : E -> LedgerInfo -> Command -> Z -> Z -> LedgerInfo * E;
  ad_checkLedgerAccept : E -> LedgerInfo -> option LedgerInfo * E;
  ad_doValidLedger : E -> LedgerInfo -> E;
  ad_doAccept : E -> HashValue -> option (option RoundStart) * E;
  ad_onConsensusReached : E -> bool -> LedgerInfo -> Round -> E;
  ad_acquireLedger : E -> HashValue -> option LedgerInfo * E;
  ad_removePoolTxs : E -> LedgerInfo -> E;
  ad_touchAcquringLedger : E -> HashValue -> E;
  ad_acquireTxSet : E -> HashValue -> bool * E;
  ad_acquireBlock : E -> Author -> HashValue -> E;
  ad_sendBlock : E -> ExecutedBlock -> E;
  ad_InitAnnounce : E -> Z -> HashValue -> Z -> E;
  (* the blocks still acquired after a sweep of the tagged cache *)
  ad_sweep : E -> gmap HashValue (list Continuation) -> gmap HashValue (list Continuation)
}.

Section Consensus.

Context {E : Type} {Ad : Adaptor E}.
(** [epochChangeHash_], the digest of a constant string; and [closeResolution_]. *)
Context (epochChangeHash : HashValue) (closeResolution : Z).

(** ** HotstuffConsensus.h

    A cached proposal is a pointer, which may be null. *)
Record Hc := mkHc {
  hc_env : E;
  hc_startup : bool;
  hc_startTime : Z;
  hc_initAnnounceTime : Z;
  hc_now : Z;
  hc_consensusTime : Z;
  hc_openTime : Z;
  hc_consensusTimeMil : Z;
  hc_sweepTime : Z;
  hc_txQueuedCount : Z;
  hc_epoch : Epoch;
  hc_configChanged : bool;
  hc_newRound : Round;
  hc_waitingConsensusReach : bool;
  hc_mode : ConsensusMode;
  hc_prevLedgerID : HashValue;
  hc_previousLedger : LedgerInfo;
  hc_acquired : gset HashValue;
  hc_curProposalCache : gmap HashValue (gmap Author (option STProposal));
  hc_nextProposalCache : gmap Z (gmap Author (option STProposal));
  hc_blockAcquiring : gmap HashValue (list Continuation);
  hc_jobs : list Job
}.

Definition waitingForInit (h : Hc) : bool :=
  u32 (hc_now h - hc_startTime h) <? initTIME ad_parms.

(** ** Extraction *)

(** Milliseconds; negative when the last close is in the future. *)
Definition timeSinceLastClose (h : Hc) : Z :=
  let prev := hc_previousLedger h in
  let previousCloseCorrect :=
    negb (bool_decide (hc_mode h = wrongLedger)) && closeAgree prev
    && negb (li_closeTime prev =? 0) in
  let lastCloseTime := if previousCloseCorrect then li_closeTime prev else hc_consensusTime h in
  if hc_now h >=? lastCloseTime then (hc_now h - lastCloseTime) * 1000
  else - ((lastCloseTime - hc_now h) * 1000).

Definition Hc_canExtract (h : Hc) : bool * Hc :=
  if negb (ad_validating (hc_env h)) then (false, h)
  else
    let sinceClose := timeSinceLastClose h in
    let sinceClose :=
      if sinceClose <=? 0 then u32 (ad_closeTime (hc_env h) - hc_consensusTime h) * 1000
      else sinceClose in
    let txQueuedCount := ad_getPoolQueuedTxCount (hc_env h) in
    let sinceConsensus := u32 (hc_now h - hc_consensusTime h) * 1000 in
    if (if hc_openTime h <? hc_consensusTimeMil h
        then sinceConsensus >=? maxBLOCK_TIME ad_parms
        else sinceClose >=? maxBLOCK_TIME ad_parms) then (true, h)
    else if (maxTXS_IN_LEDGER ad_parms >=? minTXS_IN_LEDGER_ADVANCE)
            && (txQueuedCount >=? maxTXS_IN_LEDGER ad_parms)
            && (sinceClose >=? minBLOCK_TIME ad_parms / 2) then (true, h)
    else if (hc_txQueuedCount h >? 0) && (hc_txQueuedCount h =? txQueuedCount)
            && (sinceClose >=? minBLOCK_TIME ad_parms) then (true, h)
    else (false, h {{ hc_txQueuedCount := txQueuedCount }}).

Definition Hc_extract (h : Hc) (d : BlockData) : option Command * BlockData * Hc :=
  if hc_configChanged h then
    (Some epochChangeHash, set_ledger_info d (hc_previousLedger h), h)
  else
    let '(cmd, env) := ad_onExtractTransactions (hc_env h) (hc_previousLedger h) (hc_mode h) in
    let h :=
      if bool_decide (cmd ∈ hc_acquired h) then h {{ hc_env := env }}
      else h {{ hc_env := ad_share env cmd; hc_acquired := {[cmd]} ∪ hc_acquired h }} in
    if (cmd =? 0) && omitEMPTY ad_parms then
      (Some cmd, set_ledger_info d (hc_previousLedger h), h)
    else
      let closeTime :=
        Z.max (ad_closeTime (hc_env h))
          (u32 (li_closeTime (hc_previousLedger h) + minBLOCK_TIME ad_parms / 1000)) in
      (Some cmd, set_ledger_info d (ad_buildHeader (hc_previousLedger h) closeTime closeResolution), h).

(** ** Computing and verifying blocks *)

Definition Hc_compute (h : Hc) (block : Block) : bool * StateComputeResult * Hc :=
  let failed := (false, StateComputeResult_default, h) in
  let d := bk_block_data block in
  let info := getLedgerInfo d in
  let parent := bi_ledger_info (certified_block (bd_quorum_cert d)) in
  if bool_decide (hc_mode h = wrongLedger) then failed
  else if bool_decide (bd_block_type d = Genesis) then (true, StateComputeResult_default, h)
  else if waitingForInit h then failed
  else if bool_decide (bd_block_type d = NilBlock) then
    (true, mkStateComputeResult info parent None, h)
  else
    match bd_payload d with
    | None => failed
    | Some payload =>
        if pl_cmd payload =? epochChangeHash then
          if negb (li_hash info =? li_hash (hc_previousLedger h)) then failed
          else (true, mkStateComputeResult (hc_previousLedger h) parent
                        (Some (mkEpochState (bd_epoch d))), h)
        else if omitEMPTY ad_parms && (pl_cmd payload =? 0) then
          if negb (li_hash info =? li_hash (hc_previousLedger h)) then failed
          else (true, mkStateComputeResult (hc_previousLedger h) parent None, h)
        else if negb (bool_decide (pl_cmd payload ∈ hc_acquired h)) then failed
        else
          let '(built, env) :=
            ad_buildLCL (hc_env h) (hc_previousLedger h) (pl_cmd payload) (li_closeTime info)
              (li_closeTimeResolution info) in
          (true, mkStateComputeResult built parent None, h {{ hc_env := env }})
    end.

(** Sequence numbers are 32-bit. *)
Definition Hc_verify (block : Block) (result : StateComputeResult) : bool :=
  let d := bk_block_data block in
  let same :=
    (li_seq (sc_ledger_info result) =? li_seq (sc_parent_ledger_info result))
    && (li_hash (sc_ledger_info result) =? li_hash (sc_parent_ledger_info result)) in
  if bk_id block =? 0 then false
  else if negb (li_hash (sc_parent_ledger_info result)
                =? li_hash (bi_ledger_info (certified_block (bd_quorum_cert d)))) then false
  else
    match bd_block_type d with
    | Proposal =>
        match bd_payload d with
        | None => false
        | Some payload =>
            if (omitEMPTY ad_parms && (pl_cmd payload =? 0)) || (pl_cmd payload =? epochChangeHash)
            then same
            else (li_seq (sc_ledger_info result)
                  =? u32 (li_seq (sc_parent_ledger_info result) + 1))
                 && (li_parentHash (sc_ledger_info result)
                     =? li_hash (sc_parent_ledger_info result))
        end
    | NilBlock => same
    | Genesis => false
    end.

Definition Hc_commit (h : Hc) (eb : ExecutedBlock) : Hc :=
  let '(ledger, env) := ad_checkLedgerAccept (hc_env h) (sc_ledger_info (eb_result eb)) in
  match ledger with
  | Some l => h {{ hc_env := ad_doValidLedger env l }}
  | None => h {{ hc_env := env }}
  end.

(** ** Cached proposals *)

(** The order of [std::map<PublicKey, _>]: keys compare byte by byte. *)
Fixpoint author_leb (a b : Author) : bool :=
  match a, b with
  | [], _ => true
  | _ :: _, [] => false
  | x :: a', y :: b' => if x =? y then author_leb a' b' else x <? y
  end.

Definition author_order {X} (p q : Author * X) : Prop := author_leb p.1 q.1 = true.

#[export] Instance author_order_dec {X} (p q : Author * X) : Decision (author_order p q).
Proof. unfold author_order. apply _. Defined.

Definition by_author {X} (m : gmap Author X) : list (Author * X) :=
  merge_sort author_order (map_to_list m).

(** [cache[k1][k2] = p], creating the inner map. *)
Definition cache_put {K} `{Countable K} (m : gmap K (gmap Author (option STProposal))) (k : K)
    (a : Author) (p : option STProposal) : gmap K (gmap Author (option STProposal)) :=
  <[k := <[a := p]> (default ∅ (m !! k))]> m.

(** The highest sequence among the cached proposals, 0 when there is none. *)
Definition max_seq (m : gmap Z (gmap Author (option STProposal))) : Z :=
  foldr Z.max 0 ((map_to_list m).*1).

Definition block_seq (b : Block) : Z := li_seq (getLedgerInfo (bk_block_data b)).

Definition post_proposal (h : Hc) (b : Block) : Hc :=
  h {{ hc_jobs := hc_jobs h ++ [HandleProposal b] }}.

(** A null pointer in the cache would be dereferenced; no job is posted for it
    here. *)
Definition gotTxSet (h : Hc) (id : HashValue) : Hc :=
  let curMaxSeq := max_seq (hc_nextProposalCache h) in
  let proposals := default ∅ (hc_curProposalCache h !! id) in
  let h := h {{ hc_acquired := {[id]} ∪ hc_acquired h;
                hc_curProposalCache := <[id := proposals]> (hc_curProposalCache h) }} in
  fold_left (fun h p =>
    match p.2 with
    | Some sp => if block_seq (sp_block sp) >=? curMaxSeq then post_proposal h (sp_block sp) else h
    | None => h
    end) (by_author proposals) h.

Definition peerProposalInternal (h : Hc) (proposal : STProposal) : Hc :=
  let d := bk_block_data (sp_block proposal) in
  let info := getLedgerInfo d in
  let prev_seq := li_seq (hc_previousLedger h) in
  if li_seq info <? prev_seq then h
  else
    match bd_payload d with
    | None => h
    | Some payload =>
        if (li_seq info =? prev_seq)
           && (negb (omitEMPTY ad_parms) || negb (pl_cmd payload =? 0)) then h
        else if li_seq info >? u32 (prev_seq + 1) then
          let '(_, env) := ad_acquireLedger (hc_env h) (li_parentHash info) in
          h {{ hc_prevLedgerID := li_parentHash info;
               hc_env := env;
               hc_nextProposalCache :=
                 cache_put (hc_nextProposalCache h) (li_seq info) (pl_author payload)
                   (Some proposal) }}
        else if bool_decide (pl_cmd payload ∈ hc_acquired h) then
          post_proposal h (sp_block proposal)
        else
          let '(available, env) := ad_acquireTxSet (hc_env h) (pl_cmd payload) in
          let h :=
            h {{ hc_env := env;
                 hc_curProposalCache :=
                   cache_put (hc_curProposalCache h) (pl_cmd payload) (pl_author payload)
                     (Some proposal) }} in
          if (available : bool) then gotTxSet h (pl_cmd payload) else h
    end.

Definition hqc_id (sp : STProposal) : HashValue :=
  bi_id (certified_block (si_highest_quorum_cert (sp_syncInfo sp))).

(** The proposals of the next ledger, then the old ones dropped; the bound of
    the loop is a 32-bit difference. *)
Definition checkCache (h : Hc) : Hc :=
  let curSeq := u32 (li_seq (hc_previousLedger h) + 1) in
  let h :=
    match hc_nextProposalCache h !! curSeq with
    | Some proposals =>
        fold_left (fun h p =>
          match p.2 with
          | Some sp =>
              match hc_blockAcquiring h !! hqc_id sp with
              | Some _ => h
              | None => peerProposalInternal h sp
              end
          | None => h
          end) (by_author proposals) h
    | None => h
    end in
  h {{ hc_nextProposalCache :=
         filter (fun p => ~ p.1 < u32 (curSeq - 1)) (hc_nextProposalCache h) }}.

(** ** Following the chain of ledgers *)

(** [startRoundInternal] before its recovery. *)
Definition begin_round (h : Hc) (now : Z) (prevLgrId : HashValue) (prevLgr : LedgerInfo)
    (mode : ConsensusMode) : Hc :=
  h {{ hc_now := now;
       hc_openTime := ad_utcTime (hc_env h);
       hc_mode := mode;
       hc_prevLedgerID := prevLgrId;
       hc_previousLedger := prevLgr;
       hc_acquired := ∅;
       hc_curProposalCache := ∅;
       hc_txQueuedCount := 0 }}.

(** And after it. *)
Definition end_round_start (mode : ConsensusMode) (h : Hc) : Hc :=
  if bool_decide (mode = wrongLedger) then h else checkCache h.

(** [startRoundInternal] without recovery. *)
Definition startRound_continue (h : Hc) (now : Z) (prevLgrId : HashValue) (prevLgr : LedgerInfo)
    (mode : ConsensusMode) : Hc :=
  end_round_start mode (begin_round h now prevLgrId prevLgr mode).

(** [startRound] up to [startRoundInternal]: the ledger and mode to use. *)
Definition resolve_start (h : Hc) (s : RoundStart) : LedgerInfo * ConsensusMode * Hc :=
  let mode := if st_proposing s then proposing else observing in
  if li_hash (st_prevLedger s) =? st_prevLedgerID s then (st_prevLedger s, mode, h)
  else
    let '(ledger, env) := ad_acquireLedger (hc_env h) (st_prevLedgerID s) in
    match ledger with
    | Some l => (l, mode, h {{ hc_env := env }})
    | None => (st_prevLedger s, wrongLedger, h {{ hc_env := env }})
    end.

(** The outcome of [handleWrongLedger] before it starts a round: settled with a
    result, or a ledger to start from. *)
Inductive WrongLedger := Settled (result : bool) | SwitchTo (ledger : LedgerInfo).

Definition wrong_ledger (h : Hc) (lgrId : HashValue) : WrongLedger * Hc :=
  let h :=
    h {{ hc_mode := if bool_decide (hc_mode h = proposing) then observing else hc_mode h;
         hc_prevLedgerID := lgrId }} in
  if li_hash (hc_previousLedger h) =? hc_prevLedgerID h then (Settled true, h)
  else
    let '(ledger, env) := ad_acquireLedger (hc_env h) (hc_prevLedgerID h) in
    match ledger with
    | Some l => (SwitchTo l, h {{ hc_env := ad_removePoolTxs env l }})
    | None => (Settled false, h {{ hc_env := env; hc_mode := wrongLedger }})
    end.

(** [handleWrongLedger] where no recovery is due. *)
Definition handleWrongLedger_continue (h : Hc) (lgrId : HashValue) : bool * Hc :=
  match wrong_ledger h lgrId with
  | (Settled r, h) => (r, h)
  | (SwitchTo l, h) => (true, startRound_continue h (hc_now h) lgrId l switchedLedger)
  end.

(** The initial time is over when a ledger is switched here, and the object has
    started: neither branch recovers. *)
Definition Hc_syncState (h : Hc) (prevInfo : BlockInfo) : bool * Hc :=
  let h := h {{ hc_newRound := bi_round prevInfo + 1 }} in
  if waitingForInit h then (false, h)
  else
    let h := h {{ hc_consensusTime := hc_now h; hc_consensusTimeMil := ad_utcTime (hc_env h) }} in
    let seq := li_seq (bi_ledger_info prevInfo) in
    if seq >? li_seq (hc_previousLedger h) then
      let '(accepted, env) := ad_doAccept (hc_env h) (li_hash (bi_ledger_info prevInfo)) in
      let h := h {{ hc_env := env }} in
      match accepted with
      | None => handleWrongLedger_continue h (li_hash (bi_ledger_info prevInfo))
      | Some None => (true, h)
      | Some (Some s) =>
          let '(l, mode, h) := resolve_start h s in
          (true, startRound_continue h (st_now s) (st_prevLedgerID s) l mode)
      end
    else if (seq =? li_seq (hc_previousLedger h)) && omitEMPTY ad_parms && (bi_round prevInfo >? 0)
    then
      (true, h {{ hc_env := ad_onConsensusReached (hc_env h) (hc_waitingConsensusReach h)
                              (hc_previousLedger h) (hc_newRound h);
                  hc_waitingConsensusReach := false }})
    else (true, h).

Definition Hc_asyncBlock (h : Hc) (id : HashValue) (author : Author) (k : Continuation) : Hc :=
  h {{ hc_env := ad_acquireBlock (hc_env h) author id;
       hc_blockAcquiring :=
         <[id := default [] (hc_blockAcquiring h !! id) ++ [k]]> (hc_blockAcquiring h) }}.

(** [syncBlock] is deprecated and always fails. *)
#[export] Instance hotstuff_app : Application Hc := {|
  compute := Hc_compute;
  verify := Hc_verify;
  app_commit := Hc_commit;
  syncState := Hc_syncState;
  syncBlock h id author := (None, h);
  asyncBlock := Hc_asyncBlock;
  canExtract := Hc_canExtract;
  extract := Hc_extract
|}.

End Consensus.

Arguments Hc : clear implicits.
