(* ===== verification/HsPeer.v ===== *)
(** * Messages, timers and recovery (HotstuffConsensus)

    The handlers of the consensus object that drive its HotStuff instance: the
    messages of peers, the timer, the start of a round with its recovery, and
    the jobs it posts.  A received message is what its decoding yields, [None]
    when decoding throws; [isTrusted] is what the overlay computed for the
    message's signer. *)

From S2P Require Import Prelude HsTypes HsVerifier HsCore HsPendingVotes HsNode HsStorage.
From S2P Require Import HsRoundManager ConsensusTypes HsNodeProps HsConsensus.
From coqutil Require Import Datatypes.RecordSetters.
Import DoubleBraceUpdate.

#[local] Open Scope Z_scope.

Section Peer.

Context {D : Digest} {V : ValidatorVerifier} {PE : ProposerElection} {Ar : Archive}.
Context {E : Type} {Ad : Adaptor E} (epochChangeHash : HashValue) (closeResolution : Z).

#[local] Instance consensus_app : Application (Hc E) :=
  hotstuff_app epochChangeHash closeResolution.

Abbreviation C T := (M (Hc E) T).

Definition hc : C (Hc E) := get nd_app.
Definition modify_hc (f : Hc E -> Hc E) : C unit := on_app (fun h => (tt, f h)).

(** ** Rounds and recovery *)

Definition recover_instance (now : Z) : C unit :=
  h ← hc;
  (if hc_startup h then Hotstuff_stop
   else modify_hc (fun h => h {{ hc_startup := true; hc_startTime := now; hc_consensusTime := now;
                              hc_sweepTime := now }}));;
  h ← hc;
  _ ← Hotstuff_start (mkRecoverData (hc_previousLedger h) (mkEpochState (hc_epoch h))
                        (ad_validating (hc_env h)));
  modify_hc (fun h => h {{ hc_nextProposalCache := ∅ }}).

Definition startRoundInternal (now : Z) (prevLgrId : HashValue) (prevLgr : LedgerInfo)
    (mode : ConsensusMode) (recover : bool) : C unit :=
  modify_hc (fun h => begin_round h now prevLgrId prevLgr mode);;
  (if recover then recover_instance now else mret tt);;
  modify_hc (end_round_start mode).

Definition startRound (s : RoundStart) : C unit :=
  r ← on_app (fun h => resolve_start h s);
  h ← hc;
  startRoundInternal (st_now s) (st_prevLedgerID s) r.1 r.2 (negb (hc_startup h)).

Definition handleWrongLedger (lgrId : HashValue) : C bool :=
  r ← on_app (fun h => wrong_ledger h lgrId);
  match r with
  | Settled b => mret b
  | SwitchTo l =>
      h ← hc;
      startRoundInternal (hc_now h) lgrId l switchedLedger (waitingForInit h);;
      mret true
  end.

(** The round of the present ledger starts again from scratch. *)
Definition restart : C unit :=
  h ← hc;
  startRoundInternal (hc_now h) (hc_prevLedgerID h) (hc_previousLedger h) switchedLedger true.

(** ** The timer *)

Definition initAnnounce (h : Hc E) : Hc E :=
  if u32 (hc_now h - hc_initAnnounceTime h) <? initANNOUNCE_INTERVAL then h
  else h {{ hc_initAnnounceTime := hc_now h;
            hc_env := ad_InitAnnounce (hc_env h) (li_seq (hc_previousLedger h))
                        (hc_prevLedgerID h) (ad_closeTime (hc_env h)) }}.

Definition sweep (h : Hc E) : Hc E :=
  if u32 (hc_now h - hc_sweepTime h) >=? 10 then
    h {{ hc_blockAcquiring := ad_sweep (hc_env h) (hc_blockAcquiring h);
         hc_sweepTime := hc_now h }}
  else h.

Definition partitioned (h : Hc E) : bool :=
  u32 (hc_now h - hc_consensusTime h) * 1000
    >? consensusTIMEOUT ad_parms * timeoutCOUNT_ROLLBACK.

Definition timerEntry (now : Z) : C unit :=
  h ← hc;
  if negb (hc_startup h) then mret tt
  else
    modify_hc (fun h => sweep (h {{ hc_now := now }}));;
    h ← hc;
    if bool_decide (hc_mode h = wrongLedger) then
      ledger ← on_app (fun h =>
        let '(l, env) := ad_acquireLedger (hc_env h) (hc_prevLedgerID h) in
        (l, h {{ hc_env := env }}));
      match ledger with
      | Some l =>
          modify_hc (fun h => h {{ hc_env := ad_removePoolTxs (hc_env h) l }});;
          h ← hc;
          startRoundInternal (hc_now h) (hc_prevLedgerID h) l switchedLedger (waitingForInit h)
      | None => mret tt
      end
    else if waitingForInit h && ad_validating (hc_env h) then
      modify_hc (fun h => initAnnounce (h {{ hc_consensusTime := hc_now h }}))
    else if partitioned h then restart
    else mret tt.

(** ** Messages *)

(** While the node initialises, a message that builds on a later ledger makes
    it follow that ledger. *)
Definition follow_network (l : LedgerInfo) : C unit :=
  h ← hc;
  if waitingForInit h && (li_seq l >? li_seq (hc_previousLedger h)) then
    _ ← handleWrongLedger (li_hash l); mret tt
  else mret tt.

Definition peerProposal (isTrusted : bool) (m : option STProposal) : C unit :=
  if negb isTrusted then mret tt
  else
    match m with
    | None => mret tt
    | Some p =>
        let d := bk_block_data (sp_block p) in
        if negb (bool_decide (sp_nodePublic p = bd_author d)) then mret tt
        else
          follow_network (bi_ledger_info (certified_block (bd_quorum_cert d)));;
          checked ← Hotstuff_CheckProposal (sp_block p) (sp_syncInfo p);
          if (checked : bool) then modify_hc (fun h => peerProposalInternal h p)
          else
            modify_hc (fun h =>
              match hc_blockAcquiring h !! hqc_id p, bd_payload d with
              | Some _, Some payload =>
                  h {{ hc_nextProposalCache :=
                         cache_put (hc_nextProposalCache h) (block_seq (sp_block p))
                           (pl_author payload) (Some p) }}
              | _, _ => h
              end)
    end.

(** A vote with its sync info and the key the message is signed with. *)
Definition peerVote (isTrusted : bool) (m : option (Vote * SyncInfo * Author)) : C unit :=
  if negb isTrusted then mret tt
  else
    match m with
    | None => mret tt
    | Some (v, si, nodePublic) =>
        if negb (bool_decide (nodePublic = vt_author v)) then mret tt
        else
          follow_network (bi_ledger_info (vd_parent (vt_vote_data v)));;
          _ ← handleVote v si;
          mret tt
    end.

Definition peerAcquireBlock (id : HashValue) : C unit :=
  found ← Hotstuff_expectBlock id;
  match found with
  | Some eb => modify_hc (fun h => h {{ hc_env := ad_sendBlock (hc_env h) eb }})
  | None => mret tt
  end.

(** The cached proposal a completed request was for: the lookup creates a null
    entry when there is none. *)
Definition resume_proposal (b : Block) : C unit :=
  match bd_payload (bk_block_data b) with
  | None => mret tt
  | Some payload =>
      modify_hc (fun h =>
        let seq := block_seq b in
        let a := pl_author payload in
        match hc_nextProposalCache h !! seq ≫= (fun m => m !! a) with
        | Some (Some p) =>
            if bk_id (sp_block p) =? bk_id b then peerProposalInternal h p else h
        | Some None => h
        | None => h {{ hc_nextProposalCache := cache_put (hc_nextProposalCache h) seq a None }}
        end)
  end.

Fixpoint run_continuations (ks : list Continuation) (eb : ExecutedBlock) : C unit :=
  match ks with
  | [] => mret tt
  | k :: ks =>
      r ← asyncCompleted k ASYNC_SUCCESS eb;
      (match r with
       | (PROPOSAL_SUCCESS, Some b) => resume_proposal b
       | _ => mret tt
       end);;
      run_continuations ks eb
  end.

Definition peerBlockData (isTrusted : bool) (m : option ExecutedBlock) : C unit :=
  if negb isTrusted then mret tt
  else
    match m with
    | None => mret tt
    | Some eb =>
        if negb (verify (eb_block eb) (eb_result eb)) then mret tt
        else
          let id := bk_id (eb_block eb) in
          h ← hc;
          match hc_blockAcquiring h !! id with
          | Some ks =>
              run_continuations ks eb;;
              modify_hc (fun h => h {{ hc_blockAcquiring := delete id (hc_blockAcquiring h) }})
          | None => mret tt
          end
    end.

Definition epoch_changed (e : EpochChange) (si : SyncInfo) : C unit :=
  checked ← checkEpochChange e si;
  if (checked : bool) then
    modify_hc (fun h => h {{ hc_configChanged := false }});;
    restart
  else mret tt.

Definition peerEpochChange (isTrusted : bool) (m : option (EpochChange * SyncInfo * Author))
  : C unit :=
  if negb isTrusted then mret tt
  else
    match m with
    | None => mret tt
    | Some (e, si, nodePublic) =>
        if negb (bool_decide (nodePublic = ec_author e)) then mret tt
        else epoch_changed e si
    end.

Definition peerInitAnnounceInternal (prevSeq : Z) (prevHash : HashValue) : C unit :=
  h ← hc;
  if negb (waitingForInit h) then mret tt
  else if prevSeq >? li_seq (hc_previousLedger h) then
    if negb (bool_decide (hc_mode h = wrongLedger)) then
      _ ← handleWrongLedger prevHash; mret tt
    else if prevHash =? hc_prevLedgerID h then
      modify_hc (fun h => h {{ hc_env := ad_touchAcquringLedger (hc_env h) (hc_prevLedgerID h) }})
    else mret tt
  else mret tt.

Definition peerInitAnnounce (isTrusted : bool) (m : option (Z * HashValue)) : C unit :=
  if negb isTrusted then mret tt
  else
    match m with
    | None => mret tt
    | Some (seq, hash) => peerInitAnnounceInternal seq hash
    end.

Inductive Message :=
  | mtPROPOSAL (m : option STProposal)
  | mtVOTE (m : option (Vote * SyncInfo * Author))
  | mtACQUIREBLOCK (id : HashValue)
  | mtBLOCKDATA (m : option ExecutedBlock)
  | mtEPOCHCHANGE (m : option (EpochChange * SyncInfo * Author))
  | mtINITANNOUNCE (m : option (Z * HashValue)).

Definition peerConsensusMessage (isTrusted : bool) (m : Message) : C unit :=
  h ← hc;
  if negb (hc_startup h) then mret tt
  else
    match m with
    | mtPROPOSAL m => peerProposal isTrusted m
    | mtVOTE m => peerVote isTrusted m
    | mtACQUIREBLOCK id => peerAcquireBlock id
    | mtBLOCKDATA m => peerBlockData isTrusted m
    | mtEPOCHCHANGE m => peerEpochChange isTrusted m
    | mtINITANNOUNCE m => peerInitAnnounce isTrusted m
    end.

(** ** Messages of the instance

    What [broadcast] and [sendVote] hand back to the node itself, and the vote
    they send to a peer. *)

Inductive OwnJob :=
  | OwnProposal (b : Block)
  | OwnVote (v : Vote) (si : SyncInfo)
  | OwnEpochChange (e : EpochChange) (si : SyncInfo).

Definition own_jobs (e : Effect) : list OwnJob :=
  match e with
  | BroadcastProposal b _ => [OwnProposal b]
  | BroadcastVote v si => [OwnVote v si]
  | SendVote a v si => if bool_decide (a = Self) then [OwnVote v si] else []
  | BroadcastEpochChange e si => [OwnEpochChange e si]
  | _ => []
  end.

Definition run_own (j : OwnJob) : C unit :=
  match j with
  | OwnProposal b => _ ← handleProposal b; mret tt
  | OwnVote v si => _ ← handleVote v si; mret tt
  | OwnEpochChange e si => epoch_changed e si
  end.

Definition run_job (j : Job) : C unit :=
  match j with HandleProposal b => _ ← handleProposal b; mret tt end.

End Peer.
