(* ===== verification/HsPeerProps.v ===== *)
(** * Properties of the consensus object

    What it accepts to execute, the blocks a timeout votes for, its recovery,
    and its parameters. *)

From S2P Require Import Prelude HsTypes HsVerifier HsCore HsPendingVotes HsNode HsStorage.
From S2P Require Import HsRoundManager ConsensusTypes HsNodeProps HsRounds HsNodeTheorems HsConsensus HsPeer.
From coqutil Require Import Datatypes.RecordSetters.
Import DoubleBraceUpdate.

#[local] Open Scope Z_scope.

Section Props.

Context {D : Digest} {V : ValidatorVerifier} {PE : ProposerElection} {Ar : Archive}.
Context {E : Type} {Ad : Adaptor E} (epochChangeHash : HashValue) (closeResolution : Z).

#[local] Instance props_app : Application (Hc E) := consensus_app epochChangeHash closeResolution.

(** ** Recovery

    Switching ledgers recovers the instance only while the node initialises;
    the application's own [syncState] runs after that, when the node-level
    handler and the one without recovery coincide. *)

Lemma wrong_ledger_times (h : Hc E) lgrId :
  hc_now (wrong_ledger h lgrId).2 = hc_now h
  /\ hc_startTime (wrong_ledger h lgrId).2 = hc_startTime h.
Proof. unfold wrong_ledger. simpl. by repeat (case_match; simpl). Qed.

Lemma handleWrongLedger_no_recovery lgrId (n : Node (Hc E)) :
  waitingForInit (nd_app n) = false ->
  handleWrongLedger epochChangeHash closeResolution lgrId n
  = on_app (fun h => handleWrongLedger_continue h lgrId) n.
Proof.
  intros Hw. destruct (wrong_ledger_times (nd_app n) lgrId) as [Hn Hs].
  unfold handleWrongLedger, handleWrongLedger_continue, on_app, mbind, M_bind. cbn [fst snd].
  destruct (wrong_ledger (nd_app n) lgrId) as [[b|l] h] eqn:Ew; cbn [fst snd]; [done|].
  unfold hc, get. cbn [fst snd nd_app with_app]. simpl in Hn, Hs.
  unfold waitingForInit in *. rewrite Hn, Hs, Hw. done.
Qed.

(** A restart forgets the votes. *)
Lemma start_safety d (n : Node (Hc E)) :
  nd_safety (Hotstuff_start d n).2 = initial_safety d.
Proof.
  set (P := fun m : Node (Hc E) => nd_safety m = initial_safety d).
  assert (H : stable P (RoundManager_start (rd_validating d))) by walk.
  apply H. apply reset_frame.
Qed.

Lemma recover_safety now e :
  triple (fun m : Node (Hc E) => hc_epoch (nd_app m) = e)
    (recover_instance epochChangeHash closeResolution now)
    (fun _ m => nd_safety m = mkSafetyData e 0 0 None).
Proof.
  set (P := fun m : Node (Hc E) => hc_epoch (nd_app m) = e).
  apply (triple_bind _ _ _ (fun _ => P)); [by intros m | intros h].
  apply (triple_bind _ _ _ (fun _ => P)); [destruct (hc_startup h) | intros _].
  - change (stable P Hotstuff_stop). walk.
  - by intros m.
  - apply (triple_bind _ _ _ (fun h _ => hc_epoch h = e)); [by intros m | intros h'].
    apply (triple_bind _ _ _ (fun _ m => nd_safety m = mkSafetyData e 0 0 None)); [|by intros _ m].
    intros m <-. apply start_safety.
Qed.

Lemma startRound_safety now lgrId l mode (n : Node (Hc E)) :
  nd_safety (startRoundInternal epochChangeHash closeResolution now lgrId l mode true n).2
  = mkSafetyData (hc_epoch (nd_app n)) 0 0 None.
Proof.
  set (e := hc_epoch (nd_app n)).
  enough (H : triple (fun m => hc_epoch (nd_app m) = e)
           (startRoundInternal epochChangeHash closeResolution now lgrId l mode true)
           (fun _ m => nd_safety m = mkSafetyData e 0 0 None)) by by apply H.
  apply (triple_bind _ _ _ (fun _ m => hc_epoch (nd_app m) = e)); [by intros m | intros _].
  apply (triple_bind _ _ _ (fun _ m => nd_safety m = mkSafetyData e 0 0 None));
    [apply recover_safety | by intros _ m].
Qed.

(** ** Executing blocks *)

(** [buildLCL] returns a successor of the ledger it is given. *)
Definition builds_successor : Prop :=
  forall env prev cmd closeTime resolution,
    let l := (ad_buildLCL env prev cmd closeTime resolution).1 in
    li_parentHash l = li_hash prev /\ li_seq l = u32 (li_seq prev + 1).

(** The result of an executed proposal: the node's own ledger for an empty set
    or an epoch change, else the ledger built on it. *)
Lemma compute_proposal (h h' : Hc E) b r :
  bd_block_type (bk_block_data b) = Proposal ->
  Hc_compute epochChangeHash h b = (true, r, h') ->
  sc_parent_ledger_info r = bi_ledger_info (certified_block (bk_qc b))
  /\ exists p, bd_payload (bk_block_data b) = Some p
     /\ if (omitEMPTY ad_parms && (pl_cmd p =? 0)) || (pl_cmd p =? epochChangeHash)
        then sc_ledger_info r = hc_previousLedger h
        else exists env t res,
               sc_ledger_info r = (ad_buildLCL env (hc_previousLedger h) (pl_cmd p) t res).1.
Proof.
  intros Ht. unfold Hc_compute. rewrite Ht. rewrite !(bool_decide_eq_false_2 (Proposal = _)) by done.
  destruct (bool_decide (hc_mode h = _)); [discriminate|].
  destruct (waitingForInit h); [discriminate|].
  destruct (bd_payload (bk_block_data b)) as [p|]; [|discriminate].
  destruct (pl_cmd p =? epochChangeHash) eqn:He.
  - destruct (negb _); [discriminate|]. intros [= <- <-]. split; [done|]. exists p.
    by rewrite He, orb_true_r.
  - destruct (omitEMPTY ad_parms && (pl_cmd p =? 0)) eqn:Ho.
    + destruct (negb _); [discriminate|]. intros [= <- <-]. split; [done|]. exists p.
      by rewrite Ho.
    + destruct (negb _); [discriminate|]. destruct (ad_buildLCL _ _ _ _ _) as [l env] eqn:Eb.
      intros [= <- <-]. split; [done|]. exists p. rewrite Ho, He. split; [done|].
      do 3 eexists. by rewrite Eb.
Qed.

(** a proposal that a node computes and then accepts for a vote extends the
    node's own last closed ledger: the ledger its certificate certifies has that
    ledger's hash.  Conversely a computed proposal is accepted whenever its id is
    set and the certified ledger has the hash and sequence of the node's own. *)
Theorem accepted_proposal_extends_ledger (h h' : Hc E) b r :
  builds_successor ->
  bd_block_type (bk_block_data b) = Proposal ->
  Hc_compute epochChangeHash h b = (true, r, h') ->
  let certified := bi_ledger_info (certified_block (bk_qc b)) in
  (Hc_verify epochChangeHash b r = true -> li_hash certified = li_hash (hc_previousLedger h))
  /\ (bk_id b <> 0 -> li_hash certified = li_hash (hc_previousLedger h) ->
     li_seq certified = li_seq (hc_previousLedger h) ->
     Hc_verify epochChangeHash b r = true).
Proof.
  intros Hb Ht (Hp & p & Ep & Hr)%compute_proposal; [|done]. cbv zeta.
  unfold Hc_verify. rewrite Ht, Ep, Hp.
  rewrite Z.eqb_refl. simpl negb. cbv iota.
  destruct (_ || _) eqn:Hc; [rewrite Hr | destruct Hr as (env & t & res & ->);
    destruct (Hb env (hc_previousLedger h) (pl_cmd p) t res) as [-> ->]];
    (split; [destruct (bk_id b =? 0); [discriminate|];
             intros [_ ?%Z.eqb_eq]%andb_true_iff; congruence |]);
    intros Hid -> ->; rewrite (proj2 (Z.eqb_neq _ _) Hid); simpl; by rewrite !Z.eqb_refl.
Qed.

(** the block a timed-out round votes for is computed and accepted by every
    node that is neither initialising nor on a wrong ledger, whatever its own
    ledger, and leaves the ledger the certificate certifies; but it carries epoch
    0, so that a node of any later epoch never signs a vote for it. *)
Theorem nil_block_accepted (h : Hc E) round q :
  hc_mode h <> wrongLedger ->
  waitingForInit h = false ->
  bk_id (nil_block round q) <> 0 ->
  let b := nil_block round q in
  exists r, Hc_compute epochChangeHash h b = (true, r, h)
    /\ sc_ledger_info r = bi_ledger_info (certified_block q)
    /\ Hc_verify epochChangeHash b r = true
    /\ forall es now sd, es_epoch es <> 0 ->
         ConstructAndSignVote (Hc_verify epochChangeHash) es now sd (mkExecutedBlock b r) = (None, sd).
Proof.
  intros Hm Hw Hid b. eexists. split.
  { unfold Hc_compute. rewrite bool_decide_eq_false_2, Hw by done. reflexivity. }
  split; [done|]. split.
  - unfold Hc_verify. subst b. rewrite (proj2 (Z.eqb_neq _ _) Hid). simpl.
    by rewrite !Z.eqb_refl.
  - intros es now sd He. unfold ConstructAndSignVote, VerifyEpoch. simpl.
    by rewrite (proj2 (Z.eqb_neq _ _) He).
Qed.

(** when the timer finds that no round closed for five consensus timeouts,
    it restarts the instance with empty safety data: the last vote, the last
    voted round and the preferred round are forgotten, whatever they were. *)
Theorem partition_forgets_votes (now : Z) (n : Node (Hc E)) :
  hc_startup (nd_app n) = true ->
  hc_mode (nd_app n) <> wrongLedger ->
  let h := sweep ((nd_app n) {{ hc_now := now }}) in
  waitingForInit h && ad_validating (hc_env h) = false ->
  partitioned h = true ->
  nd_safety (timerEntry epochChangeHash closeResolution now n).2
  = mkSafetyData (hc_epoch (nd_app n)) 0 0 None.
Proof.
  intros Hs Hm h Hi Hp.
  assert (Hm' : hc_mode h = hc_mode (nd_app n)) by (unfold h, sweep; by case_match).
  assert (He : hc_epoch h = hc_epoch (nd_app n)) by (unfold h, sweep; by case_match).
  assert (Ht : (timerEntry epochChangeHash closeResolution now n).2
               = (restart epochChangeHash closeResolution (with_app n h)).2).
  { unfold timerEntry, hc, modify_hc, on_app, get, mbind, M_bind. cbn [fst snd].
    rewrite Hs. cbn [negb fst snd nd_app with_app]. fold h.
    rewrite bool_decide_eq_false_2, Hi, Hp by congruence. reflexivity. }
  rewrite Ht, <- He. apply startRound_safety.
Qed.

End Props.

(** ** Parameters *)

(** The bounds every configuration ends up with, as long as twice the longest
    block time fits 32 bits: block times of at least a second and in order, a
    timeout of at least 5 s and two longest block times plus a second, an
    initialisation of at least two timeouts. The timeout floor is reached, so that
    it may be below two longest block times plus 3 s. *)
Theorem load_parms_bounds cap gran c :
  maxBLOCK_TIME (load_parms cap gran c) <= 2147483147 ->
  let p := load_parms cap gran c in
  1000 <= minBLOCK_TIME p <= maxBLOCK_TIME p
  /\ 5000 <= consensusTIMEOUT p
  /\ (c = None \/ 2 * maxBLOCK_TIME p + 1000 <= consensusTIMEOUT p)
  /\ 2 * (consensusTIMEOUT p / 1000) <= initTIME p
  /\ (forall s, c = Some s -> maxTXS_IN_LEDGER p <= cap)
  /\ (forall s, c = Some s -> cs_time_out s = None -> 2500 <= maxBLOCK_TIME p ->
       consensusTIMEOUT p < 2 * maxBLOCK_TIME p + 3000).
Proof.
  destruct c as [s|]; cbn zeta.
  - unfold load_parms, load_section. cbn -[u32 Z.div Z.max Z.min default].
    set (mn := Z.max 1000 _). set (mx := Z.max mn _). intros Hmx.
    assert (H1 : 1000 <= mn) by lia. assert (H2 : mn <= mx) by lia.
    assert (Hf : u32 (u32 (2 * mx) + 1000) = 2 * mx + 1000) by (rewrite (u32_small (2 * mx)), u32_small; lia).
    rewrite Hf. set (t := Z.max 5000 _).
    assert (H3 : 5000 <= t) by lia.
    split; [lia|]. split; [destruct (Z.ltb_spec t (2 * mx + 1000)); lia|].
    split; [right; destruct (Z.ltb_spec t (2 * mx + 1000)); lia|].
    split; [lia|]. split; [intros; lia|].
    intros ? [= <-] Hn. subst t. rewrite Hn. simpl default. intros.
    destruct (Z.ltb_spec (Z.max 5000 5000) (2 * mx + 1000)); lia.
  - intros _. simpl. repeat split; try lia; try (by left); intros; discriminate.
Qed.

Lemma load_parms_bounds_witness :
  let p := load_parms 10000 200 (Some (mkSection None (Some 4000) None None None None)) in
  consensusTIMEOUT p = 9000 /\ 1000 <= minBLOCK_TIME p <= maxBLOCK_TIME p.
Proof.
  split; [reflexivity|].
  apply (load_parms_bounds 10000 200 (Some (mkSection None (Some 4000) None None None None))).
  vm_compute. discriminate.
Defined.

(** ** Examples *)

(** A chain of ledgers numbered by their hashes, whose transactions are ready. *)
Module ToyPeer.

Definition ledger (seq hash parent : Z) : LedgerInfo :=
  mkLedgerInfo seq 0 hash 0 0 parent 0 0 false false false 0 0 0.

#[export] Instance adaptor : Adaptor unit := {|
  ad_parms := Parms_default;
  ad_validating env := true;
  ad_closeTime env := 0;
  ad_utcTime env := 0;
  ad_getPoolQueuedTxCount env := 0;
  ad_onExtractTransactions env l mode := (7, env);
  ad_share env h := env;
  ad_buildHeader l closeTime resolution := ledger (u32 (li_seq l + 1)) (li_hash l + 1) (li_hash l);
  ad_buildLCL env l cmd closeTime resolution :=
    (ledger (u32 (li_seq l + 1)) (li_hash l + 1) (li_hash l), env);
  ad_checkLedgerAccept env l := (Some l, env);
  ad_doValidLedger env l := env;
  ad_doAccept env h := (None, env);
  ad_onConsensusReached env b l r := env;
  ad_acquireLedger env h := (None, env);
  ad_removePoolTxs env l := env;
  ad_touchAcquringLedger env h := env;
  ad_acquireTxSet env h := (true, env);
  ad_acquireBlock env a h := env;
  ad_sendBlock env eb := env;
  ad_InitAnnounce env seq h t := env;
  ad_sweep env m := m
|}.

(** At ledger 5, five minutes after its start, with transaction set 7 at hand. *)
Definition state : Hc unit :=
  mkHc tt true 0 0 300 0 0 0 0 0 0 false 0 false observing 55 (ledger 5 55 54) {[7]} ∅ ∅ ∅ [].

(** A certificate of ledger 5. *)
Definition qc5 : QuorumCertificate :=
  mkQuorumCertificate
    (VoteData_New (mkBlockInfo 0 3 21 (ledger 5 55 54) 0 0 None) (BlockInfo_new 20) 0)
    (LedgerInfoWithSignatures_new (mkCommitLedgerInfo (BlockInfo_new 0) 0)).

Definition block6 : Block :=
  mkBlock 22 (mkBlockData 0 4 60 qc5 Proposal (Some (mkPayload 7 [2]))) None.

End ToyPeer.

#[local] Existing Instance ToyPeer.adaptor.

Lemma accepted_proposal_extends_ledger_witness :
  let r := mkStateComputeResult (ToyPeer.ledger 6 56 55) (ToyPeer.ledger 5 55 54) None in
  Hc_compute 99 ToyPeer.state ToyPeer.block6 = (true, r, ToyPeer.state)
  /\ Hc_verify 99 ToyPeer.block6 r = true.
Proof.
  split; [by vm_compute|].
  refine (proj2 (accepted_proposal_extends_ledger 99 ToyPeer.state ToyPeer.state ToyPeer.block6 _ _ _ _)
            _ _ _); [by intros env prev cmd t res | by vm_compute..].
Defined.

Lemma nil_block_accepted_witness :
  exists r, Hc_compute 99 ToyPeer.state (nil_block (D := Toy.digest) 4 ToyPeer.qc5)
            = (true, r, ToyPeer.state).
Proof.
  refine (match nil_block_accepted (D := Toy.digest) (V := ToyApp.verifier [1]) 99 ToyPeer.state 4
                  ToyPeer.qc5 _ _ _ with
          | ex_intro _ r (conj Hr _) => ex_intro _ r Hr
          end); by vm_compute.
Defined.

(** A node that has voted in round 3 and heard nothing since. *)
Module ToyPartition.

Definition node : Node (Hc unit) :=
  mkNode (mkConfig [1] 0 5 200 false) (mkEpochState 0) ToyApp.storage0
    (mkRoundState 3 PendingVotes_New None 0) (mkSafetyData 0 3 2 (Some (ToyApp.vote1 [1])))
    0 false true true ToyPeer.state 100 [].

End ToyPartition.

Lemma partition_forgets_votes_witness :
  nd_safety (timerEntry (D := Toy.digest) (V := ToyApp.verifier [1]) (PE := ToyApp.election)
               99 0 400 ToyPartition.node).2
  = mkSafetyData 0 0 0 None.
Proof.
  refine (partition_forgets_votes (D := Toy.digest) (V := ToyApp.verifier [1]) (PE := ToyApp.election)
            99 0 400 ToyPartition.node _ _ _ _); by vm_compute.
Defined.
