(* ===== verification/LedgerTrie.v ===== *)
(** * The trie of supported ledgers (LedgerTrie)

    [LedgerTrie] keeps the number of validators whose last validation is for
    each ledger, in a compressed trie over the ledgers' ancestries, and from it
    chooses the ledger to work on.  The definitions are those of
    [src/src/peersafe/consensus/LedgerTrie.h], over the interface that file
    documents for its [Ledger] parameter.

    A [Node*] is a path from the root: the indices of the children to follow.
    Parent pointers are the prefixes of the path.  Sequence numbers and supports
    are unsigned; LedgerTrieProps.v shows that no support exceeds the sum of the
    counts inserted, so that they stay within 32 bits when that sum does. *)

From S2P Require Import Prelude.
From stdpp Require Import sorting.

#[local] Open Scope N_scope.

(** ** The ledger interface

    [lg_ancestor] is [operator[]]. *)

Class LedgerOps (L : Type) := {
  lg_genesis : L;
  lg_seq : L -> N;
  lg_id : L -> Z;
  lg_ancestor : L -> N -> Z;
  mismatch : L -> L -> N
}.

(** ** Loops over the children of a node *)

Section Loops.

Context {A B : Type} (f : A -> option B).

(** The first element on which [f] succeeds, and its index. *)
Fixpoint first_index (i : nat) (cs : list A) : option (nat * B) :=
  match cs with
  | [] => None
  | c :: cs => match f c with Some b => Some (i, b) | None => first_index (S i) cs end
  end.

End Loops.

Section Sums.

Context {A : Type} (f : A -> N).

Fixpoint sum_by (cs : list A) : N :=
  match cs with
  | [] => 0
  | c :: cs => f c + sum_by cs
  end.

End Sums.

Section Pick.

Context {A B : Type} (f : A -> B).

Fixpoint pick (i : nat) (cs : list A) {struct cs} : option B :=
  match cs, i with
  | [], _ => None
  | c :: _, O => Some (f c)
  | _ :: cs, S i => pick i cs
  end.

End Pick.

Section Trie.

Context {L : Type} {LO : LedgerOps L}.

(** ** Spans *)

Record SpanTip := mkSpanTip {
  st_seq : N;
  st_id : Z;
  st_ledger : L
}.

Definition SpanTip_ancestor (t : SpanTip) (s : N) : Z := lg_ancestor (st_ledger t) s.

(** The half-open interval [start, end) of a ledger's ancestry. *)
Record Span := mkSpan {
  sp_start : N;
  sp_end : N;
  sp_ledger : L
}.

Definition Span_default : Span := mkSpan 0 1 lg_genesis.
Definition Span_of (l : L) : Span := mkSpan 0 (lg_seq l + 1) l.

Definition clamp (s : Span) (val : N) : N := N.min (N.max (sp_start s) val) (sp_end s).

Definition sub (s : Span) (from to : N) : option Span :=
  let newFrom := clamp s from in
  let newTo := clamp s to in
  if newFrom <? newTo then Some (mkSpan newFrom newTo (sp_ledger s)) else None.

Definition from (s : Span) (spot : N) : option Span := sub s spot (sp_end s).
Definition before (s : Span) (spot : N) : option Span := sub s (sp_start s) spot.
Definition startID (s : Span) : Z := lg_ancestor (sp_ledger s) (sp_start s).
Definition diff (s : Span) (o : L) : N := clamp s (mismatch (sp_ledger s) o).

Definition tip (s : Span) : SpanTip :=
  let tipSeq := sp_end s - 1 in
  mkSpanTip tipSeq (lg_ancestor (sp_ledger s) tipSeq) (sp_ledger s).

Definition merge (a b : Span) : Span :=
  if sp_end a <? sp_end b
  then mkSpan (N.min (sp_start a) (sp_start b)) (sp_end b) (sp_ledger b)
  else mkSpan (N.min (sp_start a) (sp_start b)) (sp_end a) (sp_ledger a).

(** ** Nodes *)

Inductive Node := mkTNode (span : Span) (tipSupport branchSupport : N) (children : list Node).

Definition n_span (t : Node) : Span := let 'mkTNode s _ _ _ := t in s.
Definition n_tip (t : Node) : N := let 'mkTNode _ n _ _ := t in n.
Definition n_branch (t : Node) : N := let 'mkTNode _ _ n _ := t in n.
Definition n_children (t : Node) : list Node := let 'mkTNode _ _ _ cs := t in cs.

Definition set_children (t : Node) (cs : list Node) : Node :=
  mkTNode (n_span t) (n_tip t) (n_branch t) cs.

(** [Node::erase]: the child is swapped with the last one, which is dropped. *)
Definition erase {A} (i : nat) (cs : list A) : list A :=
  match last cs with
  | Some back => take (length cs - 1) (<[i := back]> cs)
  | None => []
  end.

(** The node a path leads to. *)
Fixpoint node_at (t : Node) (p : list nat) : option Node :=
  match p with
  | [] => Some t
  | i :: p => c ← n_children t !! i; node_at c p
  end.

(** [at_end] is applied to the node a path leads to, [above] to every node
    before it. *)
Fixpoint update_path (at_end above : Node -> Node) (p : list nat) (t : Node) : Node :=
  match p with
  | [] => at_end t
  | i :: p => above (set_children t (alter (update_path at_end above p) i (n_children t)))
  end.

Record LedgerTrie := mkLedgerTrie {
  lt_root : Node;
  lt_seqSupport : gmap N N
}.

Definition LedgerTrie_empty : LedgerTrie := mkLedgerTrie (mkTNode Span_default 0 0 []) ∅.

(** ** Searches *)

(** The loop of [find] from a node and the position reached in it. *)
Fixpoint find_from (ledger : L) (curr : Node) (pos : N) : list nat * N :=
  let 'mkTNode span _ _ children := curr in
  if pos =? sp_end span then
    match
      first_index (fun child =>
        let childPos := diff (n_span child) ledger in
        if pos <? childPos then Some (find_from ledger child childPos) else None) 0 children
    with
    | Some (i, (p, d)) => (i :: p, d)
    | None => ([], pos)
    end
  else ([], pos).

Definition find (t : LedgerTrie) (ledger : L) : list nat * N :=
  find_from ledger (lt_root t) (diff (n_span (lt_root t)) ledger).

Fixpoint findByLedgerID (ledger : L) (parent : Node) : option (list nat) :=
  let 'mkTNode span _ _ children := parent in
  if (lg_id ledger =? st_id (tip span))%Z then Some []
  else
    match first_index (findByLedgerID ledger) 0 children with
    | Some (i, p) => Some (i :: p)
    | None => None
    end.

(** ** Insertion *)

(** What [insert] does to the node it found, the increments of that node's
    supports included. *)
Definition insert_here (ledger : L) (diffSeq count : N) (loc : Node) : Node :=
  let prefix := before (n_span loc) diffSeq in
  let oldSuffix := from (n_span loc) diffSeq in
  let newSuffix := from (Span_of ledger) diffSeq in
  let loc :=
    match oldSuffix with
    | Some old =>
        mkTNode (default (n_span loc) prefix) 0 (n_branch loc)
          [mkTNode old (n_tip loc) (n_branch loc) (n_children loc)]
    | None => loc
    end in
  match newSuffix with
  | Some new =>
      mkTNode (n_span loc) (n_tip loc) (n_branch loc + count)
        (n_children loc ++ [mkTNode new count count []])
  | None => mkTNode (n_span loc) (n_tip loc + count) (n_branch loc + count) (n_children loc)
  end.

Definition add_branch (count : N) (t : Node) : Node :=
  mkTNode (n_span t) (n_tip t) (n_branch t + count) (n_children t).

Definition insert (t : LedgerTrie) (ledger : L) (count : N) : LedgerTrie :=
  let '(loc, diffSeq) := find t ledger in
  mkLedgerTrie
    (update_path (insert_here ledger diffSeq count) (add_branch count) loc (lt_root t))
    (<[lg_seq ledger := default 0 (lt_seqSupport t !! lg_seq ledger) + count]> (lt_seqSupport t)).

(** ** Removal *)

(** One turn of the compressing loop: child [i] of [t], without tip support, is
    erased or combined with its only child; the flag says whether the loop goes
    on to [t]. *)
Definition compress_child (t : Node) (i : nat) (loc : Node) : Node * bool :=
  match n_children loc with
  | [] => (set_children t (erase i (n_children t)), true)
  | [child] =>
      let child :=
        mkTNode (merge (n_span loc) (n_span child)) (n_tip child) (n_branch child)
          (n_children child) in
      (set_children t (erase i (n_children t ++ [child])), true)
  | _ => (t, false)
  end.

(** The supports decreased along the path, and then the compressing loop back
    up: the flag says that it reached this node. *)
Fixpoint remove_at (count : N) (p : list nat) (t : Node) : Node * bool :=
  match p with
  | [] => (mkTNode (n_span t) (n_tip t - count) (n_branch t - count) (n_children t), true)
  | i :: p =>
      match n_children t !! i with
      | None => (t, false)
      | Some c =>
          let '(loc, reached) := remove_at count p c in
          let t := mkTNode (n_span t) (n_tip t) (n_branch t - count) (<[i := loc]> (n_children t)) in
          if reached && (n_tip loc =? 0) then compress_child t i loc else (t, false)
      end
  end.

Definition remove (t : LedgerTrie) (ledger : L) (count : N) : bool * LedgerTrie :=
  match findByLedgerID ledger (lt_root t) with
  | None => (false, t)
  | Some p =>
      match node_at (lt_root t) p with
      | None => (false, t)
      | Some loc =>
          if n_tip loc =? 0 then (false, t)
          else
            let count := N.min count (n_tip loc) in
            let support := default 0 (lt_seqSupport t !! lg_seq ledger) - count in
            (true,
             mkLedgerTrie (remove_at count p (lt_root t)).1
               (if support =? 0 then delete (lg_seq ledger) (lt_seqSupport t)
                else <[lg_seq ledger := support]> (lt_seqSupport t)))
      end
  end.

(** ** Queries *)

Definition tipSupport (t : LedgerTrie) (ledger : L) : N :=
  match p ← findByLedgerID ledger (lt_root t); node_at (lt_root t) p with
  | Some loc => n_tip loc
  | None => 0
  end.

Definition branchSupport (t : LedgerTrie) (ledger : L) : N :=
  match p ← findByLedgerID ledger (lt_root t); node_at (lt_root t) p with
  | Some loc => n_branch loc
  | None =>
      let '(p, diffSeq) := find t ledger in
      match node_at (lt_root t) p with
      | Some loc =>
          if (lg_seq ledger <? diffSeq) && (lg_seq ledger <? sp_end (n_span loc))
          then n_branch loc else 0
      | None => 0
      end
  end.

Definition empty (t : LedgerTrie) : bool := n_branch (lt_root t) =? 0.

(** ** The preferred ledger

    [it] is the rest of [seqSupport] after the iterator, in order. *)

Fixpoint add_uncommitted (bound uncommitted : N) (it : list (N * N)) : N * list (N * N) :=
  match it with
  | (s, n) :: rest =>
      if s <? bound then add_uncommitted bound (uncommitted + n) rest else (uncommitted, it)
  | [] => (uncommitted, [])
  end.

(** The loop that advances along a span. *)
Fixpoint advance (span_end branch nextSeq uncommitted : N) (it : list (N * N))
  : N * N * list (N * N) :=
  if (nextSeq <? span_end) && (uncommitted <? branch) then
    match it with
    | (s, n) :: rest =>
        if s <? span_end then advance span_end branch (s + 1) (uncommitted + n) rest
        else (span_end, uncommitted, it)
    | [] => (span_end, uncommitted, [])
    end
  else (nextSeq, uncommitted, it).

(** The order of [partial_sort]: larger support first, then larger start. *)
Definition child_before (a b : Node) : bool :=
  (n_branch b <? n_branch a)
  || ((n_branch a =? n_branch b) && (startID (n_span b) <? startID (n_span a))%Z).

(** The first child in that order and its index. *)
Fixpoint front (cs : list Node) : option (nat * Node) :=
  match cs with
  | [] => None
  | c :: cs =>
      match front cs with
      | Some (i, b) => if child_before b c then Some (S i, b) else Some (O, c)
      | None => Some (O, c)
      end
  end.

(** The index of the best child and its margin over the second one.  The
    sorting permutes the children; no result depends on their order. *)
Definition best_child (cs : list Node) : option (nat * N) :=
  match cs with
  | [best] => Some (O, n_branch best)
  | _ =>
      '(i, best) ← front cs;
      '(_, second) ← front (delete i cs);
      let margin := n_branch best - n_branch second in
      Some (i, if (startID (n_span second) <? startID (n_span best))%Z then margin + 1 else margin)
  end.

Fixpoint preferred_from (largestIssued : N) (curr : Node) (uncommitted : N) (it : list (N * N))
  : SpanTip :=
  let 'mkTNode span _ branch children := curr in
  let nextSeq := sp_start span + 1 in
  let '(uncommitted, it) := add_uncommitted (N.max nextSeq largestIssued) uncommitted it in
  let '(nextSeq, uncommitted, it) := advance (sp_end span) branch nextSeq uncommitted it in
  if nextSeq <? sp_end span then
    match before span nextSeq with Some s => tip s | None => tip span end
  else
    match best_child children with
    | Some (i, margin) =>
        if (uncommitted <? margin) || (uncommitted =? 0)
        then default (tip span) (pick (fun c => preferred_from largestIssued c uncommitted it) i children)
        else tip span
    | None => tip span
    end.

(** The entries of an ordered map. *)
Definition seq_order (p q : N * N) : Prop := p.1 <= q.1.

#[export] Instance seq_order_dec (p q : N * N) : Decision (seq_order p q).
Proof. unfold seq_order. apply _. Defined.

Definition in_order (m : gmap N N) : list (N * N) := merge_sort seq_order (map_to_list m).

Definition getPreferred (t : LedgerTrie) (largestIssued : N) : option SpanTip :=
  if empty t then None
  else Some (preferred_from largestIssued (lt_root t) 0 (in_order (lt_seqSupport t))).

(** ** [checkInvariants] *)

Fixpoint nodes (t : Node) : list Node :=
  let 'mkTNode _ _ _ children := t in t :: mjoin (map nodes children).

Definition check_support (t : Node) : bool :=
  n_tip t + sum_by n_branch (n_children t) =? n_branch t.

Definition check_compressed (t : Node) : bool :=
  negb ((n_tip t =? 0) && (length (n_children t) <? 2)%nat).

Definition expectedSeqSupport (ns : list Node) : gmap N N :=
  foldr (fun t m =>
    let s := sp_end (n_span t) - 1 in
    if n_tip t =? 0 then m else <[s := default 0 (m !! s) + n_tip t]> m) ∅ ns.

Definition checkInvariants (t : LedgerTrie) : bool :=
  let root := lt_root t in
  forallb check_compressed (mjoin (map nodes (n_children root)))
  && forallb check_support (nodes root)
  && bool_decide (expectedSeqSupport (nodes root) = lt_seqSupport t).

End Trie.

Arguments SpanTip L : clear implicits.
Arguments Span L : clear implicits.
Arguments Node L : clear implicits.
Arguments LedgerTrie L : clear implicits.
