(* ===== verification/LedgerTrieProps.v ===== *)
(** * The trie of supported ledgers: what its operations do

    A trie is well formed ([wf]) when its spans cover the ancestries of its
    ledgers without overlap.  Its meaning is the support it holds: [weight P] is
    the sum of the tip supports of the ledgers that satisfy [P].  The
    specification is a map from ledger ids to counts; every sequence of
    insertions and removals leaves the trie representing that map, and each
    query returns what the map says. *)

From S2P Require Import Prelude LedgerTrie.

#[local] Open Scope N_scope.

(** ** The documented laws of ledgers

    For ledgers of a class [ok]: an id identifies a ledger with its sequence
    number and its whole history, genesis comes before all, and [mismatch] is the
    first sequence number at which two ledgers differ. *)
Class LedgerLaws {L : Type} {LO : LedgerOps L} (ok : L -> Prop) : Prop := {
  ok_genesis : ok lg_genesis;
  genesis_seq : lg_seq lg_genesis = 0;
  genesis_first : forall a, ok a -> lg_ancestor a 0 = lg_ancestor lg_genesis 0;
  id_ancestor : forall a, ok a -> lg_id a = lg_ancestor a (lg_seq a);
  id_unique : forall a b s t, ok a -> ok b -> s <= lg_seq a -> t <= lg_seq b ->
    lg_ancestor a s = lg_ancestor b t -> s = t /\ forall p, p <= s -> lg_ancestor a p = lg_ancestor b p;
  mismatch_bound : forall a b, ok a -> ok b ->
    mismatch a b <= lg_seq a + 1 /\ mismatch a b <= lg_seq b + 1;
  mismatch_below : forall a b s, ok a -> ok b -> s < mismatch a b -> lg_ancestor a s = lg_ancestor b s;
  mismatch_at : forall a b, ok a -> ok b -> mismatch a b <= lg_seq a -> mismatch a b <= lg_seq b ->
    lg_ancestor a (mismatch a b) <> lg_ancestor b (mismatch a b)
}.

(** ** Sums and searches over lists *)

Section Lists.

Context {A : Type}.
Implicit Types (cs : list A) (f g : A -> N).

Lemma sum_by_app f cs ds : sum_by f (cs ++ ds) = sum_by f cs + sum_by f ds.
Proof. induction cs; simpl; lia. Qed.

Lemma sum_by_perm f cs ds : cs ≡ₚ ds -> sum_by f cs = sum_by f ds.
Proof. induction 1; simpl; lia. Qed.

Lemma sum_by_ext f g cs : Forall (fun c => f c = g c) cs -> sum_by f cs = sum_by g cs.
Proof. induction 1; simpl; lia. Qed.

Lemma sum_by_zero f cs : Forall (fun c => f c = 0) cs -> sum_by f cs = 0.
Proof. induction 1; simpl; lia. Qed.

Lemma sum_by_pos f cs : 0 < sum_by f cs -> exists c, c ∈ cs /\ 0 < f c.
Proof.
  induction cs as [|c cs IH]; simpl; [lia|]. intros H.
  destruct (N.eq_dec (f c) 0) as [E|E].
  - destruct IH as (c' & Hin & Hc'); [lia|]. exists c'. split; [by right | done].
  - exists c. split; [left | lia].
Qed.

Lemma sum_by_insert f cs i x y :
  cs !! i = Some x -> sum_by f (<[i := y]> cs) + f x = sum_by f cs + f y.
Proof.
  intros H. rewrite <- (take_drop_middle cs i x H) at 2.
  rewrite insert_take_drop by by eapply lookup_lt_Some.
  rewrite !sum_by_app. simpl. lia.
Qed.

Lemma list_alter_Some (h : A -> A) i cs c : cs !! i = Some c -> alter h i cs = <[i := h c]> cs.
Proof.
  intros H. apply list_eq. intros j. destruct (decide (i = j)) as [<-|Hj].
  - rewrite list_lookup_alter_eq, list_lookup_insert_eq, H; [done|]. by eapply lookup_lt_Some.
  - by rewrite list_lookup_alter_ne, list_lookup_insert_ne.
Qed.

Lemma sum_by_in f cs c : c ∈ cs -> f c <= sum_by f cs.
Proof. induction 1; simpl; lia. Qed.

Lemma sum_by_only f cs i c :
  cs !! i = Some c -> (forall j c', j <> i -> cs !! j = Some c' -> f c' = 0) -> sum_by f cs = f c.
Proof.
  revert i. induction cs as [|c' cs IH]; intros [|i] Hi H; simplify_eq/=.
  - rewrite sum_by_zero; [lia|]. apply Forall_lookup. intros j c' Hj. by apply (H (S j)).
  - rewrite (H O c') by done. rewrite (IH i Hi); [done|]. intros j c'' Hj Hc. by apply (H (S j)); [lia|].
Qed.

(** Erasing takes out one element, up to order. *)
Lemma erase_perm cs i x : cs !! i = Some x -> x :: erase i cs ≡ₚ cs.
Proof.
  intros H. destruct cs as [|b ds _] using rev_ind; [done|].
  unfold erase. rewrite last_snoc, length_app. simpl.
  replace (length ds + 1 - 1)%nat with (length ds) by lia.
  destruct (decide (i < length ds)%nat) as [Hi|Hi].
  - rewrite lookup_app_l in H by done.
    rewrite insert_app_l, take_app_length' by (rewrite ?length_insert; done).
    rewrite insert_take_drop by done. rewrite <- (take_drop_middle ds i x H) at 3.
    solve_Permutation.
  - rewrite lookup_app_r in H by lia. apply list_lookup_singleton_Some in H as [Hi' <-].
    rewrite insert_app_r_alt by lia. rewrite take_app_length. solve_Permutation.
Qed.

Lemma delete_insert_list cs i x : delete i (<[i := x]> cs) = delete i cs.
Proof. revert i. induction cs as [|c cs IH]; intros [|i]; f_equal/=; auto. Qed.

Lemma erase_insert cs i x y :
  cs !! i = Some x -> erase i (<[i := y]> cs) ≡ₚ delete i cs.
Proof.
  intros H. pose proof (lookup_lt_Some _ _ _ H).
  apply (Permutation_cons_inv (a := y)). rewrite (erase_perm _ _ y) by by apply list_lookup_insert_eq.
  rewrite (delete_Permutation (<[i := y]> cs) i y) by by apply list_lookup_insert_eq.
  by rewrite delete_insert_list.
Qed.

Lemma erase_moved cs i x y z :
  cs !! i = Some x -> erase i (<[i := y]> cs ++ [z]) ≡ₚ z :: delete i cs.
Proof.
  intros H. pose proof (lookup_lt_Some _ _ _ H).
  apply (Permutation_cons_inv (a := y)).
  rewrite (erase_perm _ _ y) by (rewrite lookup_app_l; [by apply list_lookup_insert_eq | by rewrite length_insert]).
  rewrite (delete_Permutation (<[i := y]> cs) i y) by by apply list_lookup_insert_eq.
  rewrite delete_insert_list. solve_Permutation.
Qed.

Lemma first_index_Some {B} (f : A -> option B) k cs i b :
  first_index f k cs = Some (i, b) ->
  exists j c, i = (k + j)%nat /\ cs !! j = Some c /\ f c = Some b
    /\ forall j' c', (j' < j)%nat -> cs !! j' = Some c' -> f c' = None.
Proof.
  revert k. induction cs as [|c cs IH]; intros k; simpl; [done|].
  destruct (f c) as [b'|] eqn:E.
  - intros [= <- <-]. exists O, c. split; [lia|]. split; [done|]. split; [done|]. intros; lia.
  - intros (j & c' & -> & Hj & Hf & Hb)%IH. exists (S j), c'. split; [lia|]. split; [done|].
    split; [done|]. intros [|j'] c'' Hlt Hc; [by simplify_eq/=|]. eapply Hb; [|done]. lia.
Qed.

Lemma pick_lookup {B} (h : A -> B) i cs : pick h i cs = h <$> cs !! i.
Proof. revert i. induction cs as [|c cs IH]; intros [|i]; simpl; auto. Qed.

Lemma first_index_None {B} (f : A -> option B) k cs :
  first_index f k cs = None -> Forall (fun c => f c = None) cs.
Proof.
  revert k. induction cs as [|c cs IH]; intros k; simpl; [done|].
  destruct (f c) eqn:E; [done|]. intros H. constructor; [done|]. by eapply IH.
Qed.

End Lists.

Section Props.

Context {L : Type} {LO : LedgerOps L} (ok : L -> Prop) {LL : LedgerLaws ok}.
Implicit Types (t c : Node L) (cs : list (Node L)) (l m : L) (P : L -> N -> bool).

Lemma Node_nested_ind (Q : Node L -> Prop) :
  (forall s n b cs, Forall Q cs -> Q (mkTNode s n b cs)) -> forall t, Q t.
Proof.
  intros H. fix IH 1. intros [s n b cs]. apply H.
  induction cs as [|c cs IHcs]; constructor; [apply IH | apply IHcs].
Qed.

(** ** Well-formed tries *)

Abbreviation t_start t := (sp_start (n_span t)).
Abbreviation t_end t := (sp_end (n_span t)).
Abbreviation t_ledger t := (sp_ledger (n_span t)).

Definition span_ok (s : Span L) : Prop :=
  ok (sp_ledger s) /\ sp_start s < sp_end s /\ sp_end s <= lg_seq (sp_ledger s) + 1.

(** A child goes on where its parent's span ends, on a ledger that extends it. *)
Definition linked (s s' : Span L) : Prop :=
  sp_start s' = sp_end s
  /\ lg_ancestor (sp_ledger s') (sp_end s - 1) = lg_ancestor (sp_ledger s) (sp_end s - 1).

(** A node without tip support has several children. *)
Definition compact t : Prop := n_tip t = 0 -> (2 <= length (n_children t))%nat.

Definition start_ids cs : list Z := (fun c => startID (n_span c)) <$> cs.

Inductive wf : Node L -> Prop :=
| wf_node s n b cs :
    span_ok s ->
    b = n + sum_by n_branch cs ->
    NoDup (start_ids cs) ->
    Forall (fun c => linked s (n_span c)) cs ->
    Forall compact cs ->
    Forall wf cs ->
    wf (mkTNode s n b cs).

(** ** Points

    The point [s] of ledger [m] is its ancestor with that sequence number. A
    predicate on points may not depend on the ledger a point is seen from. *)

Definition respects P : Prop :=
  forall a b s, ok a -> ok b -> s <= lg_seq a -> s <= lg_seq b ->
    lg_ancestor a s = lg_ancestor b s -> P a s = P b s.

(** The point is [l], descends from [l], has sequence number [q]. *)
Definition is_point l : L -> N -> bool := fun m s => (lg_ancestor m s =? lg_id l)%Z.
Definition descends l : L -> N -> bool :=
  fun m s => (lg_seq l <=? s) && (lg_ancestor m (lg_seq l) =? lg_id l)%Z.
Definition at_seq (q : N) : L -> N -> bool := fun _ s => s =? q.

Fixpoint weight P t : N :=
  let 'mkTNode s n _ cs := t in
  (if P (sp_ledger s) (sp_end s - 1) then n else 0) + sum_by (weight P) cs.

(** The points whose path leads through the start of a span. *)
Definition through (s : Span L) m (q : N) : Prop :=
  ok m /\ q <= lg_seq m /\ sp_start s <= q /\ lg_ancestor m (sp_start s) = startID s.

Lemma through_linked s s' m q : span_ok s -> span_ok s' -> linked s s' -> through s' m q -> through s m q.
Proof.
  intros (Hs & Hlt & Hle) (Hs' & Hlt' & Hle') [Hst Hanc] (Hm & Hq & Hge & Hid). split; [done|].
  split; [done|]. split; [lia|]. unfold startID in *.
  destruct (id_unique m (sp_ledger s') (sp_start s') (sp_start s')) as [_ H1]; [done | done | lia | lia | done |].
  rewrite H1 by lia.
  destruct (id_unique (sp_ledger s') (sp_ledger s) (sp_end s - 1) (sp_end s - 1)) as [_ H2];
    [done | done | lia | lia | done |].
  apply H2. lia.
Qed.

Lemma through_tip s : span_ok s -> through s (sp_ledger s) (sp_end s - 1).
Proof. intros (H & Hlt & Hle). split; [done|]. split; [lia|]. split; [lia | done]. Qed.

(** The points of the nodes of a subtree also lead through the tip of its root. *)
Definition beyond (s : Span L) m (q : N) : Prop :=
  ok m /\ q <= lg_seq m /\ sp_end s - 1 <= q
  /\ forall p, p < sp_end s -> lg_ancestor m p = lg_ancestor (sp_ledger s) p.

Lemma beyond_linked s s' m q : span_ok s -> span_ok s' -> linked s s' -> beyond s' m q -> beyond s m q.
Proof.
  intros (Hs & Hlt & Hle) (Hs' & Hlt' & Hle') [Hst Hanc] (Hm & Hq & Hge & Ha). split; [done|].
  split; [done|]. split; [lia|]. intros p Hp. rewrite Ha by lia.
  destruct (id_unique (sp_ledger s') (sp_ledger s) (sp_end s - 1) (sp_end s - 1)) as [_ H2];
    [done | done | lia | lia | done |].
  apply H2. lia.
Qed.

Lemma beyond_tip s : span_ok s -> beyond s (sp_ledger s) (sp_end s - 1).
Proof. intros (H & Hlt & Hle). split; [done|]. split; [lia|]. split; [lia | done]. Qed.

Lemma beyond_through s m q : span_ok s -> beyond s m q -> through s m q.
Proof. intros (H & Hlt & Hle) (Hm & Hq & Hge & Ha). split; [done|]. split; [lia|]. split; [lia|]. apply Ha. lia. Qed.

Lemma weight_beyond P Q t :
  wf t -> (forall m q, beyond (n_span t) m q -> P m q = Q m q) -> weight P t = weight Q t.
Proof.
  induction t as [s n b cs IH] using Node_nested_ind. intros Hwf H.
  inversion Hwf as [? ? ? ? Hs Hb Hnd Hlk Hcp Hw]; subst. simpl.
  rewrite (H _ _ (beyond_tip s Hs)). f_equal. apply sum_by_ext.
  rewrite Forall_forall in *. intros c Hin. apply IH; [done | by apply Hw |].
  intros m q Hm. apply H. eapply beyond_linked; [done | | by apply Hlk | done].
  specialize (Hw c Hin). by inversion Hw.
Qed.

Lemma weight_ext P Q t :
  wf t -> (forall m q, through (n_span t) m q -> P m q = Q m q) -> weight P t = weight Q t.
Proof.
  intros Hwf H. apply weight_beyond; [done|]. intros m q Hm. apply H, beyond_through; [|done].
  by inversion Hwf.
Qed.

Lemma weight_none t : weight (fun _ _ => false) t = 0.
Proof.
  induction t as [s n b cs IH] using Node_nested_ind. simpl. rewrite sum_by_zero; [done|].
  eapply Forall_impl; [exact IH | done].
Qed.

Lemma weight_all t : wf t -> weight (fun _ _ => true) t = n_branch t.
Proof.
  induction t as [s n b cs IH] using Node_nested_ind. intros Hwf.
  inversion Hwf as [? ? ? ? Hs Hb Hnd Hl Hc Hw]; subst. simpl. f_equal. apply sum_by_ext.
  rewrite Forall_forall in *. intros c Hin. apply IH; [done | by apply Hw].
Qed.

Lemma weight_le P t : wf t -> weight P t <= n_branch t.
Proof.
  intros Hwf. rewrite <- (weight_all t Hwf). clear Hwf.
  induction t as [s n b cs IH] using Node_nested_ind. simpl.
  assert (sum_by (weight P) cs <= sum_by (weight (fun _ _ => true)) cs); [|case_match; lia].
  induction IH; simpl; lia.
Qed.

Lemma wf_span t : wf t -> span_ok (n_span t).
Proof. by inversion 1. Qed.

(** ** Spans and positions *)

Lemma from_spec (s : Span L) d :
  sp_start s <= d -> from s d = if d <? sp_end s then Some (mkSpan d (sp_end s) (sp_ledger s)) else None.
Proof.
  intros H. unfold from, sub, clamp.
  destruct (N.ltb_spec d (sp_end s)).
  - replace (N.min (N.max (sp_start s) d) (sp_end s)) with d by lia.
    replace (N.min (N.max (sp_start s) (sp_end s)) (sp_end s)) with (sp_end s) by lia.
    by rewrite (proj2 (N.ltb_lt _ _)).
  - rewrite (proj2 (N.ltb_ge _ _)); [done | lia].
Qed.

Lemma before_spec (s : Span L) d :
  sp_start s < d -> d <= sp_end s -> before s d = Some (mkSpan (sp_start s) d (sp_ledger s)).
Proof.
  intros H H'. unfold before, sub, clamp.
  replace (N.min (N.max (sp_start s) (sp_start s)) (sp_end s)) with (sp_start s) by lia.
  replace (N.min (N.max (sp_start s) d) (sp_end s)) with d by lia.
  by rewrite (proj2 (N.ltb_lt _ _)).
Qed.

Lemma diff_bounds (s : Span L) l : span_ok s -> sp_start s <= diff s l <= sp_end s.
Proof. intros (_ & H & _). unfold diff, clamp. lia. Qed.

(** A position past the start: the ledgers agree below it, ... *)
Lemma diff_below (s : Span L) l q :
  span_ok s -> ok l -> sp_start s < diff s l -> q < diff s l ->
  q <= lg_seq l /\ lg_ancestor (sp_ledger s) q = lg_ancestor l q.
Proof.
  intros (Hs & Hlt & Hle) Hl. unfold diff, clamp. intros H1 H2.
  pose proof (mismatch_bound _ l Hs Hl). split; [lia|]. apply mismatch_below; [done | done | lia].
Qed.

(** ... and differ at it and above when it is inside both, ... *)
Lemma diff_above (s : Span L) l q :
  span_ok s -> ok l -> diff s l < sp_end s -> diff s l <= q -> q <= lg_seq (sp_ledger s) -> q <= lg_seq l ->
  lg_ancestor (sp_ledger s) q <> lg_ancestor l q.
Proof.
  intros (Hs & Hlt & Hle) Hl. unfold diff, clamp. intros H1 H2 Hq Hq' E.
  apply (mismatch_at (sp_ledger s) l); [done | done | lia | lia |].
  destruct (id_unique (sp_ledger s) l q q) as [_ Hp]; [done..|]. apply Hp. lia.
Qed.

(** ... so that a ledger that does not enter a span differs from it at its start. *)
Lemma diff_outside (s : Span L) l :
  span_ok s -> ok l -> diff s l <= sp_start s -> sp_start s <= lg_seq l ->
  lg_ancestor l (sp_start s) <> startID s.
Proof.
  intros Hs Hl H Hq E. pose proof Hs as (_ & Hlt & Hle).
  eapply (diff_above s l (sp_start s)); [done | done | lia | lia | lia | lia |]. by symmetry.
Qed.

(** ** Insertion *)

Definition same_top (s s' : Span L) : Prop := sp_start s' = sp_start s /\ sp_ledger s' = sp_ledger s.

(** What an insertion does to a subtree that the ledger enters. *)
Record inserted (l : L) (count : N) (t t' : Node L) : Prop := {
  ins_wf : wf t';
  ins_top : same_top (n_span t) (n_span t');
  ins_end : t_end t' <= t_end t;
  ins_branch : n_branch t' = n_branch t + count;
  ins_compact : compact t -> compact t';
  ins_weight : forall P, respects P ->
    weight P t' = weight P t + if P l (lg_seq l) then count else 0
}.

(** The ledger ends at the tip of the node, or goes on in a new child. *)
Definition add_ledger l (count : N) t : Node L :=
  match from (Span_of l) (t_end t) with
  | Some new =>
      mkTNode (n_span t) (n_tip t) (n_branch t + count)
        (n_children t ++ [mkTNode new count count []])
  | None => mkTNode (n_span t) (n_tip t + count) (n_branch t + count) (n_children t)
  end.

Lemma add_ledger_ok l count t :
  wf t -> ok l -> 0 < count ->
  t_end t - 1 <= lg_seq l -> lg_ancestor (t_ledger t) (t_end t - 1) = lg_ancestor l (t_end t - 1) ->
  (t_end t <= lg_seq l -> lg_ancestor l (t_end t) ∉ start_ids (n_children t)) ->
  inserted l count t (add_ledger l count t)
  /\ (0 < n_tip (add_ledger l count t)
      \/ length (n_children (add_ledger l count t)) = S (length (n_children t))).
Proof.
  intros Hwf Hl Hc Hq Ha Hn. destruct t as [s n b cs]. simpl in *.
  inversion Hwf as [? ? ? ? Hs Hb Hnd Hlk Hcp Hw]; subst. pose proof Hs as (Hsl & Hlt & Hle).
  unfold add_ledger. simpl. rewrite from_spec by (simpl; lia). simpl.
  destruct (N.ltb_spec (sp_end s) (lg_seq l + 1)) as [Hd|Hd]; (split; [split|]); simpl.
  - constructor.
    + done.
    + rewrite sum_by_app. simpl. lia.
    + unfold start_ids in *. rewrite fmap_app. apply NoDup_app. split; [done|]. split.
      * intros x Hx Hin%list_elem_of_singleton. subst x. apply Hn; [lia | done].
      * simpl. apply NoDup_singleton.
    + apply Forall_app. split; [done|]. constructor; [|done]. split; simpl; [done | by symmetry].
    + apply Forall_app. split; [done|]. constructor; [|done]. intros H. simpl in H. lia.
    + apply Forall_app. split; [done|]. constructor; [|done]. constructor; try constructor; simpl;
        try done; lia.
  - done.
  - lia.
  - done.
  - unfold compact. simpl. rewrite length_app. simpl. intros H1 H2. specialize (H1 H2). lia.
  - intros P HP. rewrite sum_by_app. simpl. replace (lg_seq l + 1 - 1) with (lg_seq l) by lia.
    repeat case_match; lia.
  - right. rewrite length_app. simpl. lia.
  - constructor; try done. lia.
  - done.
  - lia.
  - done.
  - unfold compact. simpl. lia.
  - intros P HP. rewrite (HP _ l) by (done || lia).
    replace (sp_end s - 1) with (lg_seq l) by lia. case_match; lia.
  - left. lia.
Qed.

(** A span cut in two. *)
Definition cut (d : N) t : Node L :=
  mkTNode (mkSpan (t_start t) d (t_ledger t)) 0 (n_branch t)
    [mkTNode (mkSpan d (t_end t) (t_ledger t)) (n_tip t) (n_branch t) (n_children t)].

Lemma cut_ok d t :
  wf t -> compact t -> t_start t < d -> d < t_end t ->
  wf (cut d t) /\ forall P, weight P (cut d t) = weight P t.
Proof.
  intros Hwf Hcp Hd Hd'. destruct t as [s n b cs].
  inversion Hwf as [? ? ? ? Hs Hb Hnd Hlk Hcs Hw]; subst. destruct Hs as (Hsl & Hlt & Hle).
  unfold cut. simpl in *. split.
  - constructor; simpl.
    + split; simpl; [done | lia].
    + lia.
    + apply NoDup_singleton.
    + constructor; [done | done].
    + constructor; [exact Hcp | done].
    + constructor; [|done]. constructor; [|done..]. split; simpl; [done | lia].
  - intros P. case_match; case_match; lia.
Qed.

Lemma insert_here_ok l count t :
  let d := diff (n_span t) l in
  wf t -> ok l -> 0 < count -> t_start t < d -> (compact t \/ d = t_end t) ->
  (d = t_end t -> Forall (fun c => diff (n_span c) l <= d) (n_children t)) ->
  inserted l count t (insert_here l d count t).
Proof.
  intros d Hwf Hl Hc Hd Hcp Hch. pose proof (wf_span _ Hwf) as Hs.
  destruct (diff_bounds (n_span t) l Hs) as [_ Hde]. fold d in Hde.
  destruct (diff_below (n_span t) l (d - 1) Hs Hl) as [Hdl Hda]; [done | fold d; lia |].
  destruct (N.eq_dec d (t_end t)) as [E|E].
  - assert (Hh : insert_here l d count t = add_ledger l count t).
    { unfold insert_here, add_ledger. rewrite (from_spec (n_span t)) by lia. rewrite E, N.ltb_irrefl.
      by destruct t. }
    rewrite Hh. rewrite E in Hdl, Hda. apply add_ledger_ok; [done..|].
    intros Hq (c & Hid & Hin)%list_elem_of_fmap. specialize (Hch E).
    inversion Hwf as [? ? ? ? _ _ _ Hlk _ Hw]; subst. simpl in *. rewrite Forall_forall in *.
    destruct (Hlk c Hin) as [Hst _]. specialize (Hch c Hin). rewrite E in Hch.
    apply (diff_outside (n_span c) l); [by apply wf_span, Hw | done | lia | lia |]. by rewrite Hst.
  - destruct Hcp as [Hcp|]; [|done]. destruct (cut_ok d t Hwf Hcp Hd) as [Hw1 Hw2]; [lia|].
    assert (Hh : insert_here l d count t = add_ledger l count (cut d t)).
    { unfold insert_here, add_ledger. rewrite (from_spec (n_span t)), before_spec by lia.
      by rewrite (proj2 (N.ltb_lt d (t_end t))) by lia. }
    rewrite Hh. destruct (add_ledger_ok l count (cut d t)) as [[H1 H2 HE H3 H4 H5] H6]; [done..| |].
    + intros Hq Hin%list_elem_of_singleton. simpl in *. revert Hin. unfold startID. simpl.
      intros Hin. destruct Hs as (Hsl & Hlt & Hle).
      eapply (diff_above (n_span t) l d); [done | done | fold d; lia | fold d; lia | lia | lia | done].
    + split; [done | done | simpl in *; lia | done | |].
      * intros _ Hz. destruct H6 as [H6|H6]; [lia|]. rewrite H6. simpl. lia.
      * intros P HP. rewrite H5, Hw2 by done. done.
Qed.

(** A child replaced by one with the same start. *)
Lemma wf_replace s n b b' cs i c c' :
  wf (mkTNode s n b cs) -> cs !! i = Some c -> wf c' -> compact c' ->
  linked s (n_span c') -> startID (n_span c') = startID (n_span c) ->
  b' + n_branch c = b + n_branch c' ->
  wf (mkTNode s n b' (<[i := c']> cs)).
Proof.
  intros Hwf Hi Hw' Hcp' Hlk' Hid Hb'. inversion Hwf as [? ? ? ? Hs Hb Hnd Hlk Hcp Hw]; subst.
  pose proof (sum_by_insert n_branch cs i c c' Hi). constructor.
  - done.
  - lia.
  - unfold start_ids in *. rewrite list_fmap_insert. rewrite list_insert_id; [done|].
    rewrite list_lookup_fmap, Hi. simpl. by rewrite Hid.
  - by apply Forall_insert.
  - by apply Forall_insert.
  - by apply Forall_insert.
Qed.

Lemma linked_top s s' s'' : linked s s' -> same_top s' s'' -> linked s s'' /\ startID s'' = startID s'.
Proof. intros [H1 H2] [E1 E2]. unfold linked, startID. by rewrite E1, E2. Qed.

Lemma insert_path_ok l count t :
  ok l -> 0 < count -> wf t -> t_start t < diff (n_span t) l ->
  (compact t \/ t_end t = t_start t + 1) ->
  let '(p, d) := find_from l t (diff (n_span t) l) in
  inserted l count t (update_path (insert_here l d count) (add_branch count) p t).
Proof.
  intros Hl Hc. induction t as [s n b cs IH] using Node_nested_ind. intros Hwf Hd Hcp. simpl in *.
  pose proof (diff_bounds s l (wf_span _ Hwf)) as [_ Hde]. simpl in Hde.
  destruct (N.eqb_spec (diff s l) (sp_end s)) as [E|E].
  - destruct (first_index _ 0 cs) as [[i [p d]]|] eqn:Ef.
    + apply first_index_Some in Ef as (j & c & -> & Hj & Hf & _). simpl in *.
      destruct (N.ltb_spec (diff s l) (diff (n_span c) l)) as [Hlt|]; [|done].
      injection Hf as Hf. inversion Hwf as [? ? ? ? Hs Hb Hnd Hlk Hcs Hw]; subst.
      rewrite Forall_lookup in IH, Hlk, Hcs, Hw.
      specialize (IH j c Hj (Hw _ _ Hj)). rewrite Hf in IH.
      destruct IH as [I1 I2 IE I3 I4 I5]; [destruct (Hlk _ _ Hj); lia | left; by apply (Hcs j) |].
      unfold add_branch, set_children. simpl. rewrite (list_alter_Some _ _ _ c) by done.
      destruct (linked_top s _ _ (Hlk _ _ Hj) I2) as [L1 L2].
      set (c' := update_path _ _ p c) in *.
      split; cbn [n_span n_tip n_branch n_children weight].
      * eapply wf_replace; [done | done | done | by apply I4, (Hcs j) | done | done |].
        rewrite I3. lia.
      * done.
      * lia.
      * done.
      * unfold compact. simpl. by rewrite length_insert.
      * intros P HP. pose proof (sum_by_insert (weight P) cs j c c' Hj) as Hsum.
        rewrite (I5 P HP) in Hsum. lia.
    + apply first_index_None in Ef. simpl.
      apply (insert_here_ok l count (mkTNode s n b cs)); simpl; try done; [by right|].
      intros _. eapply Forall_impl; [exact Ef|]. simpl. intros c. case_match; [done|]. intros _.
      by apply N.ltb_ge.
  - simpl. apply (insert_here_ok l count (mkTNode s n b cs)); simpl; try done.
    destruct Hcp as [Hcp|Hcp]; [by left|]. right. lia.
Qed.

(** ** Searching by id *)

Lemma through_ledger s m q l :
  through s m q -> ok l -> lg_seq l <= q -> lg_ancestor m (lg_seq l) = lg_id l ->
  sp_start s <= lg_seq l -> through s l (lg_seq l).
Proof.
  intros (Hm & Hq & Hge & Hid) Hl Hle Hlid Hst. split; [done|]. split; [lia|]. split; [done|].
  rewrite (id_ancestor l Hl) in Hlid.
  destruct (id_unique m l (lg_seq l) (lg_seq l)) as [_ H]; [done | done | lia | lia | done |].
  by rewrite <- H.
Qed.

(** A predicate that holds only of [l] and its descendants. *)
Definition below l P : Prop :=
  forall m q, ok m -> q <= lg_seq m -> P m q = true ->
    lg_seq l <= q /\ lg_ancestor m (lg_seq l) = lg_id l.

Lemma below_descends l : below l (descends l).
Proof.
  intros m q _ _ [H1 H2]%andb_true_iff. split; [by apply N.leb_le | by apply Z.eqb_eq].
Qed.

Lemma below_point l : ok l -> below l (is_point l).
Proof.
  intros Hl m q Hm Hq H%Z.eqb_eq. rewrite (id_ancestor l Hl) in H.
  destruct (id_unique m l q (lg_seq l)) as [-> _]; [done | done | done | lia | done |].
  by rewrite (id_ancestor l Hl).
Qed.

Lemma weight_outside l P t :
  wf t -> ok l -> below l P -> t_start t <= lg_seq l -> ~ through (n_span t) l (lg_seq l) ->
  weight P t = 0.
Proof.
  intros Hwf Hl HP Hst Hno. rewrite <- (weight_none t). apply weight_ext; [done|].
  intros m q Hm. destruct (P m q) eqn:E; [|done]. exfalso. pose proof Hm as (Hok & Hq & _).
  destruct (HP m q Hok Hq E). by eapply Hno, through_ledger.
Qed.

(** All of a subtree descends from a ledger of its root's span. *)
Lemma weight_inside l t :
  wf t -> lg_seq l < t_end t -> lg_ancestor (t_ledger t) (lg_seq l) = lg_id l ->
  weight (descends l) t = n_branch t.
Proof.
  intros Hwf Hq Hid. rewrite <- (weight_all t) by done. apply weight_beyond; [done|].
  intros m q (_ & _ & Hge & Ha). unfold descends.
  by rewrite Ha, Hid, (proj2 (N.leb_le _ _)), Z.eqb_refl by lia.
Qed.

(** A node's own tip is not the tip of a node below it. *)
Lemma weight_own l s n b cs :
  wf (mkTNode s n b cs) -> ok l -> lg_id l = lg_ancestor (sp_ledger s) (sp_end s - 1) ->
  weight (is_point l) (mkTNode s n b cs) = n.
Proof.
  intros Hwf Hl E. pose proof (wf_span _ Hwf) as (Hok & Hlt & Hle). simpl in *.
  inversion Hwf as [? ? ? ? _ Hb Hnd Hlk Hcp Hw]; subst.
  unfold is_point at 1. rewrite E, Z.eqb_refl, sum_by_zero; [lia|].
  rewrite Forall_forall in *. intros c Hin. rewrite <- (weight_none c).
  apply weight_ext; [by apply Hw|]. intros m q (Hm & Hq & Hge & _).
  destruct (Hlk c Hin) as [L1 _]. destruct (is_point l m q) eqn:Ep; [|done].
  apply Z.eqb_eq in Ep. rewrite E in Ep.
  destruct (id_unique m (sp_ledger s) q (sp_end s - 1)) as [Habs _]; [done | done | done | lia | done |]. lia.
Qed.

(** Two children have no point in common. *)
Lemma through_disjoint s n b cs i j c c' m q :
  wf (mkTNode s n b cs) -> cs !! i = Some c -> cs !! j = Some c' ->
  through (n_span c) m q -> through (n_span c') m q -> i = j.
Proof.
  intros Hwf Hi Hj (_ & _ & _ & E1) (_ & _ & _ & E2).
  inversion Hwf as [? ? ? ? Hs Hb Hnd Hlk Hcp Hw]; subst. rewrite Forall_lookup in Hlk.
  destruct (Hlk _ _ Hi) as [S1 _], (Hlk _ _ Hj) as [S2 _]. rewrite S1 in E1. rewrite S2 in E2.
  eapply (NoDup_lookup (start_ids cs)); [done | |]; unfold start_ids; rewrite list_lookup_fmap.
  - by rewrite Hi.
  - rewrite Hj. simpl. congruence.
Qed.

(** What is below [l] is in the child that [l] goes through. *)
Lemma weight_focus l P s n b cs i c :
  wf (mkTNode s n b cs) -> ok l -> below l P -> cs !! i = Some c -> through (n_span c) l (lg_seq l) ->
  weight P (mkTNode s n b cs) = weight P c.
Proof.
  intros Hwf Hl HP Hi Ht. pose proof Hwf as Hwf'.
  inversion Hwf as [? ? ? ? Hs Hb Hnd Hlk Hcp Hw]; subst. rewrite Forall_lookup in Hlk, Hw.
  pose proof Ht as (_ & _ & Hge & _). destruct (Hlk _ _ Hi) as [Hst _]. destruct Hs as (Hok & Hlt & Hle).
  simpl. destruct (P (sp_ledger s) (sp_end s - 1)) eqn:E.
  { destruct (HP (sp_ledger s) (sp_end s - 1) Hok) as [H _]; [lia | done | lia]. }
  simpl. apply (sum_by_only _ _ i c Hi). intros j c' Hj Hc'.
  destruct (Hlk _ _ Hc') as [Hst' _].
  apply (weight_outside l); [by apply (Hw j) | done | done | lia |].
  intros Ht'. apply Hj. by eapply through_disjoint.
Qed.

Lemma node_at_through p t loc :
  wf t -> node_at t p = Some loc ->
  wf loc /\ forall m q, through (n_span loc) m q -> through (n_span t) m q.
Proof.
  revert t. induction p as [|i p IH]; intros t Hwf; simpl; [by intros [= <-]|].
  destruct (n_children t !! i) as [c|] eqn:Hi; [simpl | done]. intros Hn.
  inversion Hwf as [? ? ? ? Hs Hb Hnd Hlk Hcp Hw]; subst. simpl in *. rewrite Forall_lookup in Hlk, Hw.
  destruct (IH c) as [H1 H2]; [by apply (Hw i) | done |]. split; [done|]. intros m q H.
  eapply through_linked; [done | by eapply wf_span, (Hw i) | by apply (Hlk i) | by apply H2].
Qed.

Lemma find_id_absent l t :
  findByLedgerID l t = None -> weight (is_point l) t = 0.
Proof.
  induction t as [s n b cs IH] using Node_nested_ind. simpl.
  destruct (Z.eqb_spec (lg_id l) (lg_ancestor (sp_ledger s) (sp_end s - 1))) as [E|E]; [done|].
  destruct (first_index _ 0 cs) as [[i p]|] eqn:Ef; [done|]. intros _.
  unfold is_point at 1. rewrite (proj2 (Z.eqb_neq _ _)) by congruence. simpl.
  apply sum_by_zero. apply first_index_None in Ef. rewrite Forall_forall in *. auto.
Qed.

Lemma find_id_found l t p :
  wf t -> ok l -> findByLedgerID l t = Some p ->
  exists loc, node_at t p = Some loc /\ through (n_span t) l (lg_seq l)
    /\ lg_seq l = t_end loc - 1 /\ lg_ancestor (t_ledger loc) (lg_seq l) = lg_id l
    /\ n_tip loc = weight (is_point l) t /\ n_branch loc = weight (descends l) t.
Proof.
  intros Hwf Hl. revert p. induction t as [s n b cs IH] using Node_nested_ind. intros p. simpl.
  pose proof (wf_span _ Hwf) as Hs. simpl in Hs. pose proof Hs as (Hok & Hlt & Hle).
  inversion Hwf as [? ? ? ? _ Hb Hnd Hlk Hcp Hw]; subst.
  destruct (Z.eqb_spec (lg_id l) (lg_ancestor (sp_ledger s) (sp_end s - 1))) as [E|E].
  - intros [= <-]. exists (mkTNode s n (n + sum_by n_branch cs) cs). split; [done|].
    pose proof E as E'. rewrite (id_ancestor l Hl) in E'.
    destruct (id_unique l (sp_ledger s) (lg_seq l) (sp_end s - 1)) as [Hq Ha]; [done | done | lia | lia | done |].
    assert (Ht : through s l (lg_seq l)).
    { eapply through_ledger; [by apply through_tip | done | lia | by rewrite Hq, E | lia]. }
    split; [done|]. split; [done|]. split; [by rewrite Hq|].
    split; symmetry; [exact (weight_own l s n _ cs Hwf Hl E)|].
    apply (weight_inside l (mkTNode s n _ cs)); simpl; [done | lia | by rewrite Hq].
  - destruct (first_index _ 0 cs) as [[i p']|] eqn:Ef; [|done]. intros [= <-].
    apply first_index_Some in Ef as (j & c & -> & Hj & Hf & _). rewrite Forall_lookup in IH, Hw, Hlk.
    destruct (IH j c Hj (Hw _ _ Hj) p' Hf) as (loc & Hn & Ht & Hq & Ha & H1 & H2).
    exists loc. simpl. rewrite Hj. split; [done|]. split.
    { eapply through_linked; [done | by eapply wf_span, (Hw j) | by apply (Hlk j) | done]. }
    split; [done|]. split; [done|]. rewrite H1, H2. split; symmetry.
    + eapply (weight_focus l); [done | done | by apply below_point | done | done].
    + eapply (weight_focus l); [done | done | apply below_descends | done | done].
Qed.

(** ** Removal *)

(** What a removal does to a subtree. *)
Record removed (at_loc : (L -> N -> bool) -> bool) (count : N) (reached : bool) (t t' : Node L)
  : Prop := {
  rem_wf : wf t';
  rem_span : n_span t' = n_span t;
  rem_branch : n_branch t' + count = n_branch t;
  rem_compact : reached = false -> compact t -> compact t';
  rem_weight : forall P, weight P t' + (if at_loc P then count else 0) = weight P t
}.

Lemma wf_perm s n b cs ds : cs ≡ₚ ds -> wf (mkTNode s n b cs) -> wf (mkTNode s n b ds).
Proof.
  intros Hp. inversion 1 as [? ? ? ? Hs Hb Hnd Hlk Hcp Hw]; subst.
  constructor; try done; try (by rewrite <- Hp).
  - by rewrite (sum_by_perm _ _ _ Hp).
  - unfold start_ids in *. by rewrite <- Hp.
Qed.

Lemma wf_tail s n b b' c cs :
  wf (mkTNode s n b (c :: cs)) -> b' + n_branch c = b -> wf (mkTNode s n b' cs).
Proof.
  inversion 1 as [? ? ? ? Hs Hb Hnd Hlk Hcp Hw]; subst. simpl. intros Hb'.
  apply Forall_cons in Hlk as [_ Hlk], Hcp as [_ Hcp], Hw as [_ Hw].
  unfold start_ids in Hnd. simpl in Hnd. apply NoDup_cons in Hnd as [_ Hnd].
  constructor; try done. lia.
Qed.

(** A node without tip support takes over its only child. *)
Lemma merge_ok s loc c :
  wf loc -> linked s (n_span loc) -> span_ok s -> n_children loc = [c] -> n_tip loc = 0 ->
  let c' := mkTNode (merge (n_span loc) (n_span c)) (n_tip c) (n_branch c) (n_children c) in
  wf c' /\ compact c' /\ linked s (n_span c') /\ startID (n_span c') = startID (n_span loc)
  /\ n_branch c' = n_branch loc /\ forall P, weight P c' = weight P loc.
Proof.
  intros Hw [L1 L2] Hs Hch Hn c'. destruct loc as [ls ln lb lcs]. simpl in *. subst lcs ln.
  inversion Hw as [? ? ? ? Hls Hlb _ Hlk Hcp Hwc]; subst.
  apply Forall_cons in Hlk as [[M1 M2] _], Hcp as [Hcp _], Hwc as [Hwc _]. subst c'. destruct c as [cspan cn cb ccs].
  inversion Hwc as [? ? ? ? Hcs ? ? Hclk ? ?]; subst. simpl in *.
  pose proof Hls as (O1 & A1 & B1). pose proof Hcs as (O2 & A2 & B2). pose proof Hs as (O3 & A3 & B3).
  unfold merge. rewrite (proj2 (N.ltb_lt _ _)) by lia. rewrite N.min_l by lia.
  destruct (id_unique (sp_ledger cspan) (sp_ledger ls) (sp_end ls - 1) (sp_end ls - 1)) as [_ Ha];
    [done | done | lia | lia | done |].
  split; [|split; [|split; [|split; [|split]]]].
  - constructor; try done. split; simpl; [done | lia].
  - done.
  - split; simpl; [done|]. rewrite Ha by lia. done.
  - unfold startID. simpl. apply Ha. lia.
  - simpl. lia.
  - intros P. simpl. case_match; case_match; lia.
Qed.

(** One turn of the compressing loop. *)
Lemma compress_ok at_loc count s n b cs i c loc :
  wf (mkTNode s n b cs) -> cs !! i = Some c -> removed at_loc count true c loc -> n_tip loc = 0 ->
  let '(t', reached) := compress_child (mkTNode s n (b - count) (<[i := loc]> cs)) i loc in
  removed at_loc count reached (mkTNode s n b cs) t'.
Proof.
  intros Hwf Hi [R1 R2 R3 _ R5] Hz.
  pose proof (wf_perm _ _ _ _ _ (delete_Permutation cs i c Hi) Hwf) as Hwp.
  pose proof (wf_span _ Hwf) as Hs. simpl in Hs.
  inversion Hwf as [? ? ? ? _ Hb _ Hlk Hcp _]; subst.
  rewrite Forall_lookup in Hlk, Hcp. specialize (Hlk _ _ Hi). specialize (Hcp _ _ Hi). rewrite <- R2 in Hlk.
  assert (Hwt : forall P, sum_by (weight P) cs = weight P c + sum_by (weight P) (delete i cs))
    by (intros P; by rewrite (sum_by_perm _ _ _ (delete_Permutation cs i c Hi))).
  assert (Hbt : sum_by n_branch cs = n_branch c + sum_by n_branch (delete i cs))
    by by rewrite (sum_by_perm _ _ _ (delete_Permutation cs i c Hi)).
  unfold compress_child, set_children. cbn [n_span n_tip n_branch n_children].
  destruct (n_children loc) as [|x [|x' xs]] eqn:Hx.
  - assert (Hb0 : n_branch loc = 0) by (inversion R1; subst; simpl in *; subst; simpl in *; lia).
    split; cbn [n_span n_tip n_branch n_children weight]; [|done | lia | done |].
    + eapply wf_perm; [symmetry; by eapply erase_insert|].
      eapply wf_tail; [exact Hwp |].
      lia.
    + intros P. specialize (R5 P). specialize (Hwt P).
      rewrite (sum_by_perm _ _ _ (erase_insert _ _ _ loc Hi)).
      pose proof (weight_le P loc R1). lia.
  - destruct (merge_ok s loc x R1 Hlk Hs Hx Hz) as (M1 & M2 & M3 & M4 & M5 & M6).
    set (x' := mkTNode (merge _ _) _ _ _) in *.
    split; cbn [n_span n_tip n_branch n_children weight]; [|done | lia | done |].
    + eapply wf_perm; [symmetry; by eapply erase_moved|].
      apply (wf_replace _ _ _ _ _ O c x' Hwp); [done | done | done | done | |].
      * rewrite M4. by rewrite R2.
      * lia.
    + intros P. specialize (R5 P). specialize (Hwt P). specialize (M6 P).
      rewrite (sum_by_perm _ _ _ (erase_moved _ _ _ loc x' Hi)). cbn [sum_by]. lia.
  - split; cbn [n_span n_tip n_branch n_children weight]; [|done | lia | |].
    + apply (wf_replace _ _ _ _ _ i c loc Hwf); [done | done | | done | by rewrite R2 | lia].
      intros _. rewrite Hx. simpl. lia.
    + intros _. unfold compact. simpl. by rewrite length_insert.
    + intros P. specialize (R5 P). pose proof (sum_by_insert (weight P) cs i c loc Hi). lia.
Qed.

Lemma remove_at_ok count p t loc :
  wf t -> node_at t p = Some loc -> count <= n_tip loc ->
  let '(t', reached) := remove_at count p t in
  removed (fun P => P (t_ledger loc) (t_end loc - 1)) count reached t t'.
Proof.
  revert t. induction p as [|i p IH]; intros [s n b cs] Hwf; simpl.
  - intros [= <-] Hc. inversion Hwf as [? ? ? ? Hs Hb Hnd Hlk Hcp Hw]; subst. simpl in *.
    split; simpl; [|done | lia | done |].
    + constructor; try done. lia.
    + intros P. case_match; lia.
  - destruct (cs !! i) as [c|] eqn:Hi; [simpl | done]. intros Hn Hc.
    inversion Hwf as [? ? ? ? Hs Hb Hnd Hlk Hcp Hw]; subst. rewrite Forall_lookup in Hlk, Hcp, Hw.
    specialize (IH c (Hw _ _ Hi) Hn Hc). destruct (remove_at count p c) as [c' reached].
    destruct (reached && (n_tip c' =? 0)) eqn:Er.
    + apply andb_true_iff in Er as [-> Hz%N.eqb_eq]. by eapply compress_ok.
    + destruct IH as [R1 R2 R3 R4 R5]. pose proof (sum_by_in n_branch cs c ltac:(by eapply list_elem_of_lookup_2)).
      split; cbn [n_span n_tip n_branch n_children weight]; [|done | lia | |].
      * eapply wf_replace; [exact Hwf | done | done | | by rewrite R2; apply (Hlk i) | by rewrite R2 | lia].
        destruct reached; simpl in Er; [|by apply R4, (Hcp i)].
        intros Hz. by rewrite Hz in Er.
      * intros _. unfold compact. simpl. by rewrite length_insert.
      * intros P. specialize (R5 P). pose proof (sum_by_insert (weight P) cs i c c' Hi). lia.
Qed.

(** ** Searching by ancestry *)

Lemma find_misses l t :
  let d := diff (n_span t) l in
  wf t -> ok l -> t_start t < d -> d <= lg_seq l ->
  (d = t_end t -> Forall (fun c => diff (n_span c) l <= d) (n_children t)) ->
  weight (descends l) t = 0.
Proof.
  intros d Hwf Hl Hd Hq Hch. pose proof (wf_span _ Hwf) as Hs. pose proof Hs as (Hok & Hlt & Hle).
  destruct (diff_bounds _ l Hs) as [_ Hde]. fold d in Hde.
  destruct (N.eq_dec d (t_end t)) as [E|E].
  - specialize (Hch E). destruct t as [s n b cs]. simpl in *.
    inversion Hwf as [? ? ? ? _ Hb Hnd Hlk Hcp Hw]; subst.
    unfold descends at 1. rewrite (proj2 (N.leb_gt _ _)) by lia. simpl. apply sum_by_zero.
    rewrite Forall_forall in *. intros c Hin. destruct (Hlk c Hin) as [L1 _]. specialize (Hch c Hin).
    apply (weight_outside l); [by apply Hw | done | apply below_descends | lia |].
    intros (_ & _ & _ & Hid). apply (diff_outside (n_span c) l); [by apply wf_span, Hw | done | lia | lia | done].
  - rewrite <- (weight_none t). apply weight_beyond; [done|]. intros m q (Hm & Hqm & Hge & Ha).
    destruct (descends l m q) eqn:Ed; [|done]. exfalso.
    destruct (below_descends l m q Hm Hqm Ed) as [H1 H2]. rewrite (id_ancestor l Hl) in H2.
    destruct (id_unique m l (lg_seq l) (lg_seq l)) as [_ H3]; [done | done | lia | lia | done |].
    eapply (diff_above (n_span t) l d); [done | done | fold d; lia | fold d; lia | lia | lia |].
    rewrite <- Ha, H3 by lia. done.
Qed.

Lemma find_branch l t :
  ok l -> wf t -> t_start t < diff (n_span t) l ->
  let '(p, d) := find_from l t (diff (n_span t) l) in
  exists loc, node_at t p = Some loc
    /\ weight (descends l) t
       = if (lg_seq l <? d) && (lg_seq l <? t_end loc) then n_branch loc else 0.
Proof.
  intros Hl. induction t as [s n b cs IH] using Node_nested_ind. intros Hwf Hd.
  pose proof (wf_span _ Hwf) as Hs. cbn [n_span] in *. cbn [find_from].
  assert (Hhere : (diff s l = sp_end s -> Forall (fun c => diff (n_span c) l <= diff s l) cs) ->
    exists loc, node_at (mkTNode s n b cs) [] = Some loc
    /\ weight (descends l) (mkTNode s n b cs)
       = if (lg_seq l <? diff s l) && (lg_seq l <? t_end loc) then n_branch loc else 0).
  { intros Hch. eexists. split; [done|]. cbn [n_span n_branch]. destruct (diff_bounds s l Hs) as [_ Hde].
    destruct (N.ltb_spec (lg_seq l) (diff s l)) as [Hq|Hq]; cbn [andb].
    - rewrite (proj2 (N.ltb_lt _ _)) by lia. apply weight_inside; [done | simpl; lia |].
      rewrite (id_ancestor l Hl). by apply diff_below.
    - by apply find_misses. }
  destruct (N.eqb_spec (diff s l) (sp_end s)) as [E|E]; [|by apply Hhere].
  destruct (first_index _ 0 cs) as [[i [p d]]|] eqn:Ef.
  - apply first_index_Some in Ef as (j & c & -> & Hj & Hf & _).
    destruct (N.ltb_spec (diff s l) (diff (n_span c) l)) as [Hlt|]; [|done]. injection Hf as Hf.
    inversion Hwf as [? ? ? ? _ Hb Hnd Hlk Hcs Hw]; subst. rewrite Forall_lookup in IH, Hlk, Hw.
    destruct (Hlk _ _ Hj) as [L1 _]. specialize (IH j c Hj (Hw _ _ Hj) ltac:(lia)). rewrite Hf in IH.
    destruct IH as (loc & Hn & Hwt). exists loc. cbn [node_at n_children Nat.add]. rewrite Hj. split; [done|].
    rewrite <- Hwt. pose proof (wf_span _ (Hw _ _ Hj)) as Hsc.
    destruct (diff_below (n_span c) l (t_start c)) as [H1 H2]; [done | done | lia | lia |].
    eapply (weight_focus l); [done | done | apply below_descends | done |].
    split; [done|]. split; [lia|]. split; [done|]. by symmetry.
  - apply Hhere. intros _. apply first_index_None in Ef. eapply Forall_impl; [exact Ef|].
    simpl. intros c. case_match; [done|]. intros _. by apply N.ltb_ge.
Qed.

End Props.
