(* ===== verification/ValidatedLedger.v ===== *)
(** * Validated ledgers (RCLValidatedLedger)

    The ledger type of the trie: a hash, a sequence number and the hashes of the
    ledgers before it that the ledger's skip list holds, the latest last
    ([src/src/ripple/app/consensus/RCLValidations.cpp]).  When the skip lists
    reach back to the first ledger and hashes identify histories, it satisfies
    the laws the trie relies on. *)

From S2P Require Import Prelude LedgerTrie LedgerTrieProps.

#[local] Open Scope N_scope.

Record RCLValidatedLedger := mkValidatedLedger {
  vl_ledgerID : Z;
  vl_ledgerSeq : N;
  vl_ancestors : list Z
}.

Definition MakeGenesis : RCLValidatedLedger := mkValidatedLedger 0 0 [].

(** From a ledger's hash, sequence number and skip list, if it could be read. *)
Definition RCLValidatedLedger_of (hash : Z) (seq : N) (skip : option (list Z)) : RCLValidatedLedger :=
  mkValidatedLedger hash seq (if 1 <? seq then default [] skip else []).

Definition vl_size (l : RCLValidatedLedger) : N := N.of_nat (length (vl_ancestors l)).

Definition minSeq (l : RCLValidatedLedger) : N :=
  vl_ledgerSeq l - N.min (vl_ledgerSeq l) (vl_size l).

Definition vl_ancestor (l : RCLValidatedLedger) (s : N) : Z :=
  if (minSeq l <=? s) && (s <=? vl_ledgerSeq l) then
    if s =? vl_ledgerSeq l then vl_ledgerID l
    else
      let diff := vl_ledgerSeq l - s in
      default 0%Z (vl_ancestors l !! N.to_nat (vl_size l - diff))
  else 0%Z.

(** The loop of [mismatch]. *)
Fixpoint last_match (a b : RCLValidatedLedger) (lower : N) (curr : nat) : N :=
  match curr with
  | O => 0
  | S below =>
      let s := N.of_nat curr in
      if negb (vl_ancestor a s =? vl_ancestor b s)%Z && (lower <=? s)
      then last_match a b lower below else s
  end.

Definition vl_mismatch (a b : RCLValidatedLedger) : N :=
  let lower := N.max (minSeq a) (minSeq b) in
  let upper := N.min (vl_ledgerSeq a) (vl_ledgerSeq b) in
  let curr := last_match a b lower (N.to_nat upper) in
  if curr <? lower then 1 else curr + 1.

#[export] Instance validated_ledger_ops : LedgerOps RCLValidatedLedger := {|
  lg_genesis := MakeGenesis;
  lg_seq := vl_ledgerSeq;
  lg_id := vl_ledgerID;
  lg_ancestor := vl_ancestor;
  mismatch := vl_mismatch
|}.

(** ** Histories

    [hist h] is the sequence of hashes from the first ledger to the one with
    hash [h]: a hash identifies its ledger and so its history. *)
Class HashChain (hist : Z -> list Z) : Prop := {
  hist_prefix : forall h k x, hist h !! k = Some x -> hist x = take (S k) (hist h);
  hist_nonzero : forall h, 0%Z ∉ hist h
}.

(** A ledger whose skip list holds its whole history. *)
Definition complete (hist : Z -> list Z) (l : RCLValidatedLedger) : Prop :=
  l = MakeGenesis
  \/ (vl_ledgerSeq l = vl_size l + 1 /\ vl_ancestors l ++ [vl_ledgerID l] = hist (vl_ledgerID l)).

Section Laws.

Context {hist : Z -> list Z} {HC : HashChain hist}.
Implicit Types a b : RCLValidatedLedger.

Lemma ancestor_zero a : complete hist a -> vl_ancestor a 0 = 0%Z.
Proof.
  intros [->|[Hq _]]; [done|]. unfold vl_ancestor, minSeq. rewrite Hq.
  by rewrite (proj2 (N.leb_gt _ 0)) by lia.
Qed.

Lemma ancestor_hist a s :
  complete hist a -> 0 < s -> s <= vl_ledgerSeq a ->
  hist (vl_ledgerID a) !! N.to_nat (s - 1) = Some (vl_ancestor a s).
Proof.
  intros [->|[Hq Hh]] H0 Hs; [simpl in Hs; lia|]. unfold vl_ancestor, minSeq. rewrite Hq in *.
  rewrite (proj2 (N.leb_le _ _)), (proj2 (N.leb_le s _)) by lia. cbn [andb]. rewrite <- Hh.
  unfold vl_size in *. destruct (N.eqb_spec s (N.of_nat (length (vl_ancestors a)) + 1)) as [->|Hne].
  - rewrite lookup_app_r by lia. replace (N.to_nat _ - _)%nat with O by lia. done.
  - rewrite lookup_app_l by lia.
    replace (N.of_nat (length (vl_ancestors a)) - (N.of_nat (length (vl_ancestors a)) + 1 - s))
      with (s - 1) by lia.
    destruct (lookup_lt_is_Some_2 (vl_ancestors a) (N.to_nat (s - 1))) as [x ->]; [lia | done].
Qed.

Lemma ancestor_nonzero a s : complete hist a -> 0 < s -> s <= vl_ledgerSeq a -> vl_ancestor a s <> 0%Z.
Proof.
  intros Ha H0 Hs E. pose proof (ancestor_hist a s Ha H0 Hs) as H. rewrite E in H.
  by apply (hist_nonzero (vl_ledgerID a)), (list_elem_of_lookup_2 _ _ _ H).
Qed.

Lemma hist_length a : complete hist a -> 0 < vl_ledgerSeq a ->
  length (hist (vl_ledgerID a)) = N.to_nat (vl_ledgerSeq a).
Proof.
  intros [->|[Hq Hh]] H0; [simpl in H0; lia|]. rewrite <- Hh, length_app, Hq. unfold vl_size. simpl. lia.
Qed.

(** Equal ancestors have equal sequence numbers and histories. *)
Lemma ancestor_unique a b s t :
  complete hist a -> complete hist b -> s <= vl_ledgerSeq a -> t <= vl_ledgerSeq b ->
  vl_ancestor a s = vl_ancestor b t ->
  s = t /\ forall p, p <= s -> vl_ancestor a p = vl_ancestor b p.
Proof.
  intros Ha Hb Hs Ht E.
  destruct (N.eq_dec s 0) as [->|Hs0], (N.eq_dec t 0) as [->|Ht0].
  - split; [done|]. intros p Hp. replace p with 0 by lia. by rewrite !ancestor_zero.
  - rewrite (ancestor_zero a Ha) in E. by edestruct (ancestor_nonzero b t); [done | lia | done |].
  - rewrite (ancestor_zero b Hb) in E. by edestruct (ancestor_nonzero a s); [done | lia | done |].
  - pose proof (ancestor_hist a s Ha ltac:(lia) Hs) as Ga. pose proof (ancestor_hist b t Hb ltac:(lia) Ht) as Gb.
    rewrite E in Ga. pose proof (hist_prefix _ _ _ Ga) as Pa. rewrite (hist_prefix _ _ _ Gb) in Pa.
    replace (S (N.to_nat (s - 1))) with (N.to_nat s) in Pa by lia.
    replace (S (N.to_nat (t - 1))) with (N.to_nat t) in Pa by lia.
    pose proof (f_equal length Pa) as Hlen.
    rewrite !length_take, (hist_length a), (hist_length b) in Hlen by (done || lia).
    assert (s = t) as <- by lia. split; [done|]. intros p Hp.
    destruct (N.eq_dec p 0) as [->|Hp0]; [by rewrite !ancestor_zero|].
    pose proof (ancestor_hist a p Ha ltac:(lia) ltac:(lia)) as Qa.
    pose proof (ancestor_hist b p Hb ltac:(lia) ltac:(lia)) as Qb.
    rewrite <- (lookup_take_lt _ (N.to_nat s)) in Qa by lia.
    rewrite <- (lookup_take_lt _ (N.to_nat s)) in Qb by lia. congruence.
Qed.

Lemma last_match_spec a b lower n :
  let c := last_match a b lower n in
  c <= N.of_nat n
  /\ (0 < c -> lower <= c -> vl_ancestor a c = vl_ancestor b c)
  /\ (forall s, c < s -> s <= N.of_nat n -> vl_ancestor a s <> vl_ancestor b s).
Proof.
  induction n as [|n IH]; cbn [last_match]; [simpl; repeat split; lia|].
  destruct (Z.eqb_spec (vl_ancestor a (N.of_nat (S n))) (vl_ancestor b (N.of_nat (S n)))) as [E|E]; cbn [negb andb].
  - repeat split; [lia | done | lia].
  - destruct (N.leb_spec lower (N.of_nat (S n))).
    + destruct IH as (I1 & I2 & I3). repeat split; [lia | done |]. intros s Hs Hs'.
      destruct (N.eq_dec s (N.of_nat (S n))) as [->|]; [done | apply I3; lia].
    + repeat split; lia.
Qed.

Lemma minSeq_complete a : complete hist a -> minSeq a = N.min 1 (vl_ledgerSeq a).
Proof. intros [->|[Hq _]]; [done|]. unfold minSeq. lia. Qed.

(** [mismatch] is one above the last common ancestor. *)
Lemma mismatch_spec a b :
  complete hist a -> complete hist b ->
  let k := vl_mismatch a b in
  0 < k /\ k <= N.min (vl_ledgerSeq a) (vl_ledgerSeq b) + 1
  /\ vl_ancestor a (k - 1) = vl_ancestor b (k - 1)
  /\ (k <= N.min (vl_ledgerSeq a) (vl_ledgerSeq b) -> vl_ancestor a k <> vl_ancestor b k).
Proof.
  intros Ha Hb. unfold vl_mismatch. rewrite (minSeq_complete a Ha), (minSeq_complete b Hb).
  set (upper := N.min (vl_ledgerSeq a) (vl_ledgerSeq b)). set (lower := N.max _ _).
  assert (Hlow : lower <= 1) by (unfold lower; lia).
  pose proof (last_match_spec a b lower (N.to_nat upper)) as (H1 & H2 & H3).
  set (c := last_match a b lower (N.to_nat upper)) in *.
  assert (Hz : vl_ancestor a 0 = vl_ancestor b 0) by by rewrite !ancestor_zero.
  destruct (N.ltb_spec c lower) as [Hl|Hl].
  - split; [lia|]. split; [lia|]. split; [done|]. intros Hu. apply H3; lia.
  - split; [lia|]. split; [lia|]. replace (c + 1 - 1) with c by lia. split.
    + destruct (N.eq_dec c 0) as [->|]; [done | apply H2; lia].
    + intros Hu. apply H3; lia.
Qed.

#[export] Instance validated_ledger_laws : LedgerLaws (complete hist).
Proof.
  split; simpl.
  - by left.
  - done.
  - intros a Ha. by rewrite ancestor_zero.
  - intros a Ha. unfold vl_ancestor. rewrite N.leb_refl, N.eqb_refl.
    rewrite (proj2 (N.leb_le _ _)); [done|]. unfold minSeq. lia.
  - intros a b s t. apply ancestor_unique.
  - intros a b Ha Hb. destruct (mismatch_spec a b Ha Hb) as (_ & H & _). lia.
  - intros a b s Ha Hb Hs. destruct (mismatch_spec a b Ha Hb) as (H0 & H1 & H2 & _).
    set (k := vl_mismatch a b) in *.
    destruct (ancestor_unique a b (k - 1) (k - 1)) as [_ H]; [done | done | lia | lia | done |].
    apply H. lia.
  - intros a b Ha Hb Hs Ht. destruct (mismatch_spec a b Ha Hb) as (_ & _ & _ & H). apply H. lia.
Qed.

End Laws.
