(* ===== verification/LedgerTrieSpec.v ===== *)
(** * The trie of supported ledgers: specification and refinement

    The specification keeps, for each supported ledger, its count.  Whatever is
    inserted and removed, the trie answers every query as the specification
    does, and its own invariant check succeeds. *)

From S2P Require Import Prelude LedgerTrie LedgerTrieProps ValidatedLedger.

#[local] Open Scope N_scope.

Section Spec.

Context {L : Type} {LO : LedgerOps L} (ok : L -> Prop) {LL : LedgerLaws ok}.
Implicit Types (t c : Node L) (T : LedgerTrie L) (l m : L) (P : L -> N -> bool).

(** ** The specification *)

Abbreviation Support := (gmap Z (L * N)).
Implicit Type σ : Support.

Definition count σ l : N := match σ !! lg_id l with Some (_, n) => n | None => 0 end.

Definition spec_insert σ l (k : N) : Support := <[lg_id l := (l, count σ l + k)]> σ.

Definition spec_remove σ l (k : N) : bool * Support :=
  let n := count σ l in
  if n =? 0 then (false, σ)
  else (true, if n <=? k then delete (lg_id l) σ else <[lg_id l := (l, n - k)]> σ).

(** The support of the ledgers that satisfy [P]. *)
Definition share P (e : L * N) : N := if P e.1 (lg_seq e.1) then e.2 else 0.
Definition total P σ : N := sum_by (share P) (map_to_list σ).*2.

Inductive Op := Insert (l : L) (k : N) | Remove (l : L) (k : N).

Definition op_ok (o : Op) : Prop :=
  match o with Insert l k => ok l /\ 0 < k | Remove l _ => ok l end.

(** A sequence of operations, with the results of the removals. *)
Fixpoint spec_run (ops : list Op) σ : list bool * Support :=
  match ops with
  | [] => ([], σ)
  | Insert l k :: ops => spec_run ops (spec_insert σ l k)
  | Remove l k :: ops =>
      let '(b, σ) := spec_remove σ l k in let '(bs, σ) := spec_run ops σ in (b :: bs, σ)
  end.

Fixpoint trie_run (ops : list Op) T : list bool * LedgerTrie L :=
  match ops with
  | [] => ([], T)
  | Insert l k :: ops => trie_run ops (insert T l k)
  | Remove l k :: ops =>
      let '(b, T) := remove T l k in let '(bs, T) := trie_run ops T in (b :: bs, T)
  end.

(** ** Totals *)

Lemma total_fresh P σ i e : σ !! i = None -> total P (<[i := e]> σ) = share P e + total P σ.
Proof. intros H. unfold total. by rewrite (sum_by_perm _ _ _ (fmap_Permutation _ _ _ (map_to_list_insert σ i e H))). Qed.

Lemma total_delete P σ i e : σ !! i = Some e -> total P σ = share P e + total P (delete i σ).
Proof. intros H. rewrite <- (insert_delete_id σ i e H) at 1. apply total_fresh, lookup_delete_eq. Qed.

Lemma total_insert P σ i e : total P (<[i := e]> σ) = share P e + total P (delete i σ).
Proof. rewrite <- insert_delete_eq. apply total_fresh, lookup_delete_eq. Qed.

Definition good σ : Prop := map_Forall (fun i e => ok e.1 /\ lg_id e.1 = i /\ 0 < e.2) σ.

Lemma id_seq l m : ok l -> ok m -> lg_id l = lg_id m -> lg_seq l = lg_seq m.
Proof.
  intros Hl Hm. rewrite (id_ancestor l Hl), (id_ancestor m Hm). intros E.
  by destruct (id_unique l m (lg_seq l) (lg_seq m)) as [H _]; [done | done | lia | lia | done |].
Qed.

Lemma respects_id P l m : respects ok P -> ok l -> ok m -> lg_id l = lg_id m -> P l (lg_seq l) = P m (lg_seq m).
Proof.
  intros HP Hl Hm E. pose proof (id_seq l m Hl Hm E) as Hq.
  rewrite (id_ancestor l Hl), (id_ancestor m Hm) in E. rewrite <- Hq in *. apply HP; [done | done | lia | lia | done].
Qed.

(** The entry of [l] weighs what [count] says. *)
Lemma total_split P σ l :
  good σ -> respects ok P -> ok l ->
  total P σ = (if P l (lg_seq l) then count σ l else 0) + total P (delete (lg_id l) σ).
Proof.
  intros Hg HP Hl. unfold count. destruct (σ !! lg_id l) as [[m n]|] eqn:E.
  - rewrite (total_delete P σ _ _ E). destruct (Hg _ _ E) as (Hm & Hid & _). simpl in *.
    unfold share. simpl. by rewrite (respects_id P m l).
  - rewrite delete_id by done. case_match; lia.
Qed.

Lemma respects_point l : ok l -> respects ok (is_point l).
Proof. intros Hl a b s Ha Hb Hsa Hsb E. unfold is_point. by rewrite E. Qed.

Lemma respects_descends l : ok l -> respects ok (descends l).
Proof.
  intros Hl a b s Ha Hb Hsa Hsb E. unfold descends.
  destruct (N.leb_spec (lg_seq l) s) as [H|H]; [|done]. cbn [andb].
  destruct (id_unique a b s s) as [_ Hp]; [done..|]. by rewrite Hp.
Qed.

Lemma respects_seq q : respects ok (at_seq q).
Proof. by intros a b s _ _ _ _ _. Qed.

Lemma respects_all : respects ok (fun _ _ => true).
Proof. done. Qed.

Lemma count_point σ l : good σ -> ok l -> total (is_point l) σ = count σ l.
Proof.
  intros Hg Hl. rewrite (total_split _ σ l Hg (respects_point l Hl) Hl).
  unfold is_point at 1. rewrite (id_ancestor l Hl) at 1. rewrite Z.eqb_refl.
  enough (total (is_point l) (delete (lg_id l) σ) = 0) by lia.
  apply sum_by_zero, Forall_forall. intros ? ([i e] & -> & Hin)%list_elem_of_fmap.
  apply elem_of_map_to_list, lookup_delete_Some in Hin as [Hne Hi].
  destruct (Hg _ _ Hi) as (Hm & Hid & _). unfold share, is_point. simpl in *.
  rewrite <- (id_ancestor _ Hm). rewrite (proj2 (Z.eqb_neq _ _)); [done|]. congruence.
Qed.

(** ** Representation *)

Definition nonzero (n : N) : option N := if n =? 0 then None else Some n.

Record represents T σ : Prop := {
  rep_wf : wf ok (lt_root T);
  rep_span : n_span (lt_root T) = Span_default;
  rep_good : good σ;
  rep_weight : forall P, respects ok P -> weight P (lt_root T) = total P σ;
  rep_seq : forall q, lt_seqSupport T !! q = nonzero (total (at_seq q) σ)
}.

Lemma represents_empty : represents LedgerTrie_empty ∅.
Proof.
  split; simpl.
  - constructor; try done; [|apply NoDup_nil_2]. split; [apply ok_genesis | simpl; lia].
  - done.
  - apply map_Forall_empty.
  - intros P _. by case_match.
  - done.
Qed.

(** Every ledger enters the root. *)
Lemma enters_root l : ok l -> diff Span_default l = 1.
Proof.
  intros Hl. unfold diff, clamp. simpl.
  assert (1 <= mismatch lg_genesis l); [|lia].
  destruct (N.eq_dec (mismatch lg_genesis l) 0) as [E|E]; [|lia]. exfalso.
  eapply (mismatch_at lg_genesis l); [apply ok_genesis | done | lia | lia |].
  rewrite E. symmetry. by apply genesis_first.
Qed.

Lemma represents_insert T σ l k :
  represents T σ -> ok l -> 0 < k -> represents (insert T l k) (spec_insert σ l k).
Proof.
  intros [R1 R2 R3 R4 R5] Hl Hk. unfold insert, find.
  pose proof (insert_path_ok ok l k (lt_root T) Hl Hk R1) as Hins. rewrite R2 in *.
  rewrite (enters_root l Hl) in *. destruct (find_from l (lt_root T) 1) as [p d].
  destruct Hins as [I1 I2 IE I3 I4 I5]; [simpl; lia | by right |].
  assert (Hg : good (spec_insert σ l k)).
  { apply map_Forall_insert_2; [|done]. simpl. split; [done|]. split; [done | lia]. }
  assert (Ht : forall P, respects ok P -> total P (spec_insert σ l k)
                = total P σ + if P l (lg_seq l) then k else 0).
  { intros P HP. unfold spec_insert. rewrite total_insert, (total_split P σ l R3 HP Hl).
    unfold share. simpl. case_match; lia. }
  split; simpl; [done | | done | |].
  - destruct I2 as [E1 E2]. pose proof (wf_span ok _ I1) as (_ & Hlt & _).
    rewrite R2 in IE, E1, E2. destruct (n_span (update_path _ _ _ _)) as [s e lg]. simpl in *. subst.
    unfold Span_default. f_equal. lia.
  - intros P HP. by rewrite I5, Ht, R4.
  - intros q. rewrite (Ht _ (respects_seq q)). unfold at_seq at 2.
    destruct (N.eqb_spec (lg_seq l) q) as [<-|Hq].
    + rewrite lookup_insert_eq, R5. unfold nonzero.
      rewrite (proj2 (N.eqb_neq (total (at_seq (lg_seq l)) σ + k) 0)) by lia.
      destruct (N.eqb_spec (total (at_seq (lg_seq l)) σ) 0) as [->|]; done.
    + by rewrite lookup_insert_ne, R5, N.add_0_r.
Qed.

(** A removal decreases the support of one ledger, by at most what it has. *)
Lemma spec_remove_total P σ l k :
  good σ -> respects ok P -> ok l -> count σ l <> 0 ->
  good (spec_remove σ l k).2
  /\ total P (spec_remove σ l k).2 + (if P l (lg_seq l) then N.min k (count σ l) else 0) = total P σ.
Proof.
  intros Hg HP Hl H0. unfold spec_remove. rewrite (proj2 (N.eqb_neq _ _) H0). cbn [snd].
  rewrite (total_split P σ l Hg HP Hl). destruct (N.leb_spec (count σ l) k) as [H|H].
  - split; [by apply map_Forall_delete|]. rewrite N.min_r by done. case_match; lia.
  - split.
    + apply map_Forall_insert_2; [|done]. simpl. split; [done|]. split; [done | lia].
    + rewrite total_insert. unfold share. simpl. rewrite N.min_l by lia. case_match; lia.
Qed.

Lemma represents_remove T σ l k :
  represents T σ -> ok l ->
  (remove T l k).1 = (spec_remove σ l k).1 /\ represents (remove T l k).2 (spec_remove σ l k).2.
Proof.
  intros HR Hl. pose proof HR as [R1 R2 R3 R4 R5].
  pose proof (count_point σ l R3 Hl) as Hc. rewrite <- (R4 _ (respects_point l Hl)) in Hc.
  unfold remove. destruct (findByLedgerID l (lt_root T)) as [p|] eqn:Ef.
  2: { apply find_id_absent in Ef. unfold spec_remove. by rewrite <- Hc, Ef. }
  destruct (find_id_found ok l (lt_root T) p R1 Hl Ef) as (loc & Hn & _ & Hq & Hid & Htip & _).
  rewrite Hn, Htip, Hc. destruct (N.eqb_spec (count σ l) 0) as [E0|E0].
  { unfold spec_remove. by rewrite E0. }
  split; [unfold spec_remove; by rewrite (proj2 (N.eqb_neq _ _) E0)|]. cbn [snd].
  set (j := N.min k (count σ l)).
  pose proof (remove_at_ok ok j p (lt_root T) loc R1 Hn ltac:(lia)) as Hrem.
  destruct (remove_at j p (lt_root T)) as [t' reached]. destruct Hrem as [M1 M2 M3 _ M5].
  destruct (node_at_through ok p _ loc R1 Hn) as [Hw _]. destruct (wf_span ok _ Hw) as (Hok & Hlt & Hle).
  assert (Ht : forall P, respects ok P ->
            total P (spec_remove σ l k).2 + (if P l (lg_seq l) then j else 0) = total P σ)
    by (intros P HP; by apply spec_remove_total).
  assert (Hwt : forall P, respects ok P -> weight P t' = total P (spec_remove σ l k).2).
  { intros P HP. specialize (M5 P). rewrite (R4 P HP), <- (Ht P HP), <- Hq in M5.
    rewrite (HP _ l (lg_seq l)) in M5; [lia | done | done | lia | lia |]. by rewrite <- (id_ancestor l Hl). }
  split; cbn [lt_root lt_seqSupport fst]; [done | by rewrite M2 | | done |].
  - by apply (spec_remove_total (at_seq 0)); [| apply respects_seq | |].
  - intros q. specialize (Ht _ (respects_seq q)). rewrite R5. unfold at_seq at 2 in Ht.
    destruct (N.eqb_spec (lg_seq l) q) as [Eq|Hne]; [subst q|].
    + assert (default 0 (nonzero (total (at_seq (lg_seq l)) σ)) = total (at_seq (lg_seq l)) σ) as ->
        by (unfold nonzero; destruct (N.eqb_spec (total (at_seq (lg_seq l)) σ) 0) as [->|]; done).
      replace (total (at_seq (lg_seq l)) σ - j) with (total (at_seq (lg_seq l)) (spec_remove σ l k).2) by lia.
      unfold nonzero. case_match; [apply lookup_delete_eq | apply lookup_insert_eq].
    + rewrite N.add_0_r in Ht. rewrite Ht. case_match;
        [rewrite lookup_delete_ne by done | rewrite lookup_insert_ne by done]; apply R5.
Qed.

(** ** Queries *)

Lemma represents_tip T σ l : represents T σ -> ok l -> tipSupport T l = count σ l.
Proof.
  intros [R1 R2 R3 R4 R5] Hl. rewrite <- (count_point σ l R3 Hl), <- (R4 _ (respects_point l Hl)).
  unfold tipSupport. destruct (findByLedgerID l (lt_root T)) as [p|] eqn:Ef; simpl.
  - destruct (find_id_found ok l (lt_root T) p R1 Hl Ef) as (loc & -> & _ & _ & _ & Htip & _). done.
  - by rewrite (find_id_absent l _ Ef).
Qed.

Lemma represents_branch T σ l : represents T σ -> ok l -> branchSupport T l = total (descends l) σ.
Proof.
  intros [R1 R2 R3 R4 R5] Hl. rewrite <- (R4 _ (respects_descends l Hl)).
  unfold branchSupport. destruct (findByLedgerID l (lt_root T)) as [p|] eqn:Ef; simpl.
  - destruct (find_id_found ok l (lt_root T) p R1 Hl Ef) as (loc & -> & _ & _ & _ & _ & Hb). done.
  - pose proof (find_branch ok l (lt_root T) Hl R1) as Hf. unfold find. rewrite R2 in *.
    rewrite (enters_root l Hl) in *. destruct (find_from l (lt_root T) 1) as [p d].
    by destruct Hf as (loc & -> & ->); [simpl; lia|].
Qed.

Lemma represents_total T σ : represents T σ -> n_branch (lt_root T) = total (fun _ _ => true) σ.
Proof. intros [R1 R2 R3 R4 R5]. rewrite <- (weight_all ok _ R1). by apply R4. Qed.

Lemma represents_run ops T σ :
  represents T σ -> Forall op_ok ops ->
  (trie_run ops T).1 = (spec_run ops σ).1 /\ represents (trie_run ops T).2 (spec_run ops σ).2.
Proof.
  revert T σ. induction ops as [|[l k|l k] ops IH]; intros T σ HR Hops; simpl; [done | |];
    apply Forall_cons in Hops as [Ho Hops]; simpl in Ho.
  - destruct Ho as [Hl Hk]. by apply IH; [apply represents_insert|].
  - destruct (represents_remove T σ l k HR Ho) as [Hb HR'].
    destruct (remove T l k) as [b T'], (spec_remove σ l k) as [b' σ']. simpl in *. subst b'.
    specialize (IH T' σ' HR' Hops). destruct (trie_run ops T') as [bs T''], (spec_run ops σ') as [bs' σ''].
    simpl in *. destruct IH as [-> IH]. done.
Qed.

(** ** The invariant check *)

Lemma weight_nodes P t :
  weight P t
  = sum_by (fun n => if P (sp_ledger (n_span n)) (sp_end (n_span n) - 1) then n_tip n else 0) (nodes t).
Proof.
  induction t as [s n b cs IH] using Node_nested_ind. simpl. f_equal.
  induction IH as [|c cs IHc _ IHcs]; simpl; [done|]. by rewrite sum_by_app, IHc, IHcs.
Qed.

Lemma expected_lookup (ns : list (Node L)) q :
  expectedSeqSupport ns !! q
  = nonzero (sum_by (fun n => if sp_end (n_span n) - 1 =? q then n_tip n else 0) ns).
Proof.
  induction ns as [|n ns IH]; simpl; [done|].
  destruct (N.eqb_spec (n_tip n) 0) as [->|H0]; [rewrite IH; by case_match|].
  destruct (N.eqb_spec (sp_end (n_span n) - 1) q) as [<-|Hq].
  - rewrite lookup_insert_eq, IH. set (w := sum_by _ _). unfold nonzero.
    rewrite (proj2 (N.eqb_neq (n_tip n + w) 0)) by lia.
    destruct (N.eqb_spec w 0) as [->|]; simpl; f_equal; lia.
  - by rewrite lookup_insert_ne, IH.
Qed.

Lemma nodes_ok t :
  wf ok t ->
  Forall (fun n => check_support n = true /\ n_branch n <= n_branch t) (nodes t)
  /\ Forall (fun n => check_compressed n = true) (mjoin (map nodes (n_children t))).
Proof.
  induction t as [s n b cs IH] using Node_nested_ind. intros Hwf. simpl.
  inversion Hwf as [? ? ? ? Hs Hb Hnd Hlk Hcp Hw]; subst.
  assert (Hch : Forall (fun c => Forall (fun n' => check_support n' = true /\ n_branch n' <= n_branch c) (nodes c)
      /\ Forall (fun n' => check_compressed n' = true) (nodes c)) cs).
  { rewrite Forall_forall in *. intros c Hin. destruct (IH c Hin (Hw c Hin)) as [H1 H2]. split; [done|].
    specialize (Hcp c Hin). destruct c as [cs' cn cb ccs]. simpl in *. constructor; [|done].
    unfold check_compressed. simpl. destruct (N.eqb_spec cn 0) as [->|]; [|done]. simpl.
    specialize (Hcp eq_refl). simpl in Hcp. by rewrite (proj2 (Nat.ltb_ge _ _)). }
  split.
  - constructor; [split; [apply N.eqb_refl | done]|]. simpl.
    clear -Hch. induction cs as [|c cs IHc]; simpl; [done|]. apply Forall_cons in Hch as [[H1 _] Hch].
    apply Forall_app. split.
    + eapply Forall_impl; [exact H1|]. simpl. intros ? [? ?]. split; [done | lia].
    + eapply Forall_impl; [by apply IHc|]. simpl. intros ? [? ?]. split; [done | lia].
  - clear -Hch. induction cs as [|c cs IHc]; simpl; [done|]. apply Forall_cons in Hch as [[_ H2] Hch].
    apply Forall_app. split; [done | by apply IHc].
Qed.

Lemma represents_expected T σ : represents T σ -> lt_seqSupport T = expectedSeqSupport (nodes (lt_root T)).
Proof.
  intros [R1 R2 R3 R4 R5]. apply map_eq. intros q. rewrite expected_lookup, R5. f_equal.
  by rewrite <- (R4 _ (respects_seq q)), weight_nodes.
Qed.

Lemma represents_check T σ : represents T σ -> checkInvariants T = true.
Proof.
  intros HR. destruct (nodes_ok _ (rep_wf _ _ HR)) as [H1 H2]. unfold checkInvariants.
  rewrite !andb_true_iff, !forallb_forall, bool_decide_eq_true.
  rewrite !Forall_forall in *. split_and!.
  - intros n Hn%list_elem_of_In. by apply H2.
  - intros n Hn%list_elem_of_In. by apply H1.
  - symmetry. by eapply represents_expected.
Qed.

End Spec.

(** ** Example: a chain with a fork *)

Module ToyLedgers.

(** Ledgers 21 and 22 extend ledger 11; ledger 32 extends ledger 22. *)
Definition hist (h : Z) : list Z :=
  if (h =? 11)%Z then [11%Z]
  else if (h =? 21)%Z then [11%Z; 21%Z]
  else if (h =? 22)%Z then [11%Z; 22%Z]
  else if (h =? 32)%Z then [11%Z; 22%Z; 32%Z]
  else [].

#[export] Instance chain : HashChain hist.
Proof.
  split.
  - intros h k x. unfold hist. repeat case_match; btests; subst;
      destruct k as [|[|[|k]]]; intros ?; simplify_eq/=; reflexivity.
  - intros h. unfold hist. repeat case_match; set_solver.
Qed.

Definition l11 := mkValidatedLedger 11 1 [].
Definition l21 := mkValidatedLedger 21 2 [11%Z].
Definition l22 := mkValidatedLedger 22 2 [11%Z].
Definition l32 := mkValidatedLedger 32 3 [11%Z; 22%Z].

Definition ops : list (Op (L := RCLValidatedLedger)) :=
  [Insert l21 2; Insert l32 3; Insert l11 1; Remove l21 1; Remove l22 1; Insert l22 1].

Lemma ops_ok : Forall (op_ok (complete hist)) ops.
Proof. repeat (constructor; [simpl; unfold complete; simpl; split_and?; try lia; by right|]). constructor. Qed.

End ToyLedgers.

#[export] Existing Instance ToyLedgers.chain.

(** ** Theorem *)

(** C2: the trie implements its specification.  Whatever is inserted (with
    positive counts) and removed, in whatever order, each removal reports what
    the specification does; afterwards the invariant check succeeds, the tip
    support of a ledger is its count, its branch support is the sum of the counts
    of its descendants, and no support in the trie exceeds the total count. *)
Theorem trie_refines {L : Type} {LO : LedgerOps L} (ok : L -> Prop) {LL : LedgerLaws ok}
    (ops : list (Op (L := L))) :
  Forall (op_ok ok) ops ->
  let T := (trie_run ops LedgerTrie_empty).2 in
  let σ := (spec_run ops ∅).2 in
  (trie_run ops LedgerTrie_empty).1 = (spec_run ops ∅).1
  /\ checkInvariants T = true
  /\ (forall l, ok l -> tipSupport T l = count σ l /\ branchSupport T l = total (descends l) σ)
  /\ (empty T = true <-> total (fun _ _ => true) σ = 0)
  /\ (forall n, n ∈ nodes (lt_root T) -> n_tip n <= n_branch n <= total (fun _ _ => true) σ).
Proof.
  intros Hops T σ. destruct (represents_run ok ops LedgerTrie_empty ∅ (represents_empty ok) Hops) as [H1 H2].
  fold T σ in H2.
  pose proof (represents_total ok T σ H2) as Ht.
  split; [done|]. split; [by eapply represents_check|]. split; [|split].
  - intros l Hl. split; [by eapply represents_tip | by eapply represents_branch].
  - unfold empty. rewrite Ht. apply N.eqb_eq.
  - intros n Hn. destruct (nodes_ok ok _ (rep_wf _ _ _ H2)) as [Hb _]. rewrite Forall_forall in Hb.
    destruct (Hb n Hn) as [Hs%N.eqb_eq Hle]. rewrite Ht in Hle. lia.
Qed.

Lemma trie_refines_witness :
  Forall (op_ok (complete ToyLedgers.hist)) ToyLedgers.ops
  /\ (trie_run ToyLedgers.ops LedgerTrie_empty).1 = [true; false]
  /\ checkInvariants (trie_run ToyLedgers.ops LedgerTrie_empty).2 = true.
Proof.
  split; [apply ToyLedgers.ops_ok|]. split; [by vm_compute|].
  exact (proj1 (proj2 (trie_refines (complete ToyLedgers.hist) ToyLedgers.ops ToyLedgers.ops_ok))).
Defined.
