(* ===== verification/LedgerTriePreferred.v ===== *)
(** * The preferred ledger

    [getPreferred] walks the compressed trie and skips over stretches in which
    nothing changes.  The rule it implements is a walk ledger by ledger: from a
    ledger to the next one that has more support than any other next ledger
    would have with the uncommitted support added. *)

From Stdlib Require Import ZifyBool.
From stdpp Require Import sorting.
From S2P Require Import Prelude LedgerTrie LedgerTrieProps ValidatedLedger LedgerTrieSpec.

#[local] Open Scope N_scope.

Section Preferred.

Context {L : Type} {LO : LedgerOps L} (ok : L -> Prop) {LL : LedgerLaws ok}.
Implicit Types (t c : Node L) (l m : L) (P : L -> N -> bool).
Context (σ : gmap Z (L * N)) (largestIssued : N).

(** ** The rule *)

(** The ledger with id [x] and sequence number [s], or a descendant. *)
Definition at_or_after (s : N) (x : Z) : L -> N -> bool :=
  fun m q => (s <=? q) && (lg_ancestor m s =? x)%Z.

(** The support of a ledger and its descendants. *)
Definition branch_of (s : N) (x : Z) : N := total (at_or_after s x) σ.

(** The support that may yet go to any ledger of sequence number [s]: that of
    earlier ledgers, and of those not after our own last validation. *)
Definition uncommitted (s : N) : N := total (fun _ q => q <? N.max s largestIssued) σ.

(** A supported ledger goes from [x], of sequence number [s], to [y]. *)
Definition next (s : N) (x y : Z) : Prop :=
  exists i m n, σ !! i = Some (m, n) /\ s + 1 <= lg_seq m
    /\ lg_ancestor m s = x /\ lg_ancestor m (s + 1) = y.

(** The preferred ledger after [x]: it leads any other, even if that one gets
    all the uncommitted support; the larger id wins a tie. *)
Inductive prefers : N * Z -> N * Z -> Prop :=
| prefers_next s x y :
    next s x y ->
    uncommitted (s + 1) < branch_of (s + 1) y ->
    (forall z, next s x z -> z <> y ->
       uncommitted (s + 1) + branch_of (s + 1) z
       < branch_of (s + 1) y + if (z <? y)%Z then 1 else 0) ->
    prefers (s, x) (s + 1, y).

(** ** Supports seen from a node *)

Context (Hgood : good ok σ).

Definition captured t : Prop :=
  forall P, respects ok P ->
    (forall m q, ok m -> q <= lg_seq m -> P m q = true -> through ok (n_span t) m q) ->
    total P σ = weight P t.

Lemma respects_after s x : respects ok (at_or_after s x).
Proof.
  intros a b q Ha Hb Hqa Hqb E. unfold at_or_after. destruct (N.leb_spec s q) as [H|H]; [|done]. cbn [andb].
  destruct (id_unique a b q q) as [_ Hp]; [done..|]. by rewrite Hp.
Qed.

Lemma total_pos P : 0 < total P σ -> exists i m n, σ !! i = Some (m, n) /\ P m (lg_seq m) = true.
Proof.
  intros (e & Hin & He)%sum_by_pos. apply list_elem_of_fmap in Hin as ([i [m n]] & -> & Hin).
  apply elem_of_map_to_list in Hin. exists i, m, n. split; [done|].
  unfold share in He. simpl in He. case_match; [done | lia].
Qed.

Lemma at_or_after_true s x m q :
  at_or_after s x m q = true <-> s <= q /\ lg_ancestor m s = x.
Proof. unfold at_or_after. by rewrite andb_true_iff, N.leb_le, Z.eqb_eq. Qed.

(** What lies at or after a point of a span is seen from its node. *)
Lemma captured_after t m s :
  wf ok t -> captured t -> ok m -> s <= lg_seq m -> sp_start (n_span t) <= s ->
  lg_ancestor m (sp_start (n_span t)) = startID (n_span t) ->
  branch_of s (lg_ancestor m s) = weight (at_or_after s (lg_ancestor m s)) t.
Proof.
  intros Hwf Hcap Hm Hs Hst Hid. apply Hcap; [apply respects_after|].
  intros m' q Hm' Hq [H1 H2]%at_or_after_true.
  destruct (id_unique m' m s s) as [_ Hp]; [done | done | lia | done | done |].
  split; [done|]. split; [done|]. split; [lia|]. by rewrite Hp.
Qed.

Lemma captured_span t s :
  wf ok t -> captured t -> sp_start (n_span t) <= s -> s < sp_end (n_span t) ->
  branch_of s (lg_ancestor (sp_ledger (n_span t)) s) = n_branch t.
Proof.
  intros Hwf Hcap H1 H2. destruct (wf_span ok _ Hwf) as (Hok & Hlt & Hle).
  rewrite (captured_after t) by (done || lia).
  rewrite <- (weight_all ok t Hwf). apply (weight_beyond ok); [done|]. intros m q (Hm & Hq & Hge & Ha).
  apply at_or_after_true. split; [lia|]. by apply Ha.
Qed.

Lemma captured_child s n b cs c :
  wf ok (mkTNode s n b cs) -> captured (mkTNode s n b cs) -> c ∈ cs -> captured c.
Proof.
  intros Hwf Hcap Hin P HP Ht. pose proof (wf_span ok _ Hwf) as Hs. simpl in Hs.
  pose proof Hs as (Hok & Hlt & Hle).
  inversion Hwf as [? ? ? ? _ Hb Hnd Hlk Hcp Hw]; subst. rewrite Forall_forall in Hlk, Hw.
  pose proof (wf_span ok _ (Hw c Hin)) as Hsc. destruct (Hlk c Hin) as [L1 L2].
  rewrite Hcap; [| done |].
  - simpl. destruct (P (sp_ledger s) (sp_end s - 1)) eqn:E.
    { destruct (Ht (sp_ledger s) (sp_end s - 1) Hok) as (_ & _ & Hge & _); [lia | done | lia]. }
    apply list_elem_of_lookup in Hin as [i Hi]. apply (sum_by_only _ _ i c Hi).
    intros j c' Hj Hc'. rewrite <- (weight_none c'). apply (weight_ext ok); [by eapply Hw, list_elem_of_lookup_2|].
    intros m q Hm. destruct (P m q) eqn:E'; [|done]. exfalso. apply Hj.
    pose proof Hm as (Hmok & Hq & _).
    eapply (through_disjoint ok s n _ cs j i c' c); [exact Hwf | done | done | done | by apply Ht].
  - intros m q Hm Hq E. eapply (through_linked ok s (n_span c)); [done | done | by split | by apply Ht].
Qed.

(** ** Next ledgers *)

Lemma branch_pos t : wf ok t -> compact t -> 0 < n_branch t.
Proof.
  induction t as [s n b cs IH] using Node_nested_ind. intros Hwf Hc.
  inversion Hwf as [? ? ? ? Hs Hb Hnd Hlk Hcp Hw]; subst. simpl.
  destruct (N.eq_dec n 0) as [->|]; [|lia]. specialize (Hc eq_refl). simpl in Hc.
  destruct cs as [|c cs]; simpl in *; [lia|].
  apply Forall_cons in IH as [IH _], Hcp as [Hcp _], Hw as [Hw _]. specialize (IH Hw Hcp). lia.
Qed.

Lemma next_branch s x y : next s x y -> 0 < branch_of (s + 1) y.
Proof.
  intros (i & m & n & Hi & Hq & Hx & Hy). unfold branch_of. rewrite (total_delete _ σ i _ Hi).
  unfold share. simpl. rewrite (proj2 (at_or_after_true _ _ _ _)) by done.
  destruct (Hgood _ _ Hi) as (_ & _ & Hn). simpl in Hn. lia.
Qed.

Lemma branch_next m s :
  ok m -> s + 1 <= lg_seq m -> 0 < branch_of (s + 1) (lg_ancestor m (s + 1)) ->
  next s (lg_ancestor m s) (lg_ancestor m (s + 1)).
Proof.
  intros Hm Hs (i & m' & n & Hi & [Hq E]%at_or_after_true)%total_pos.
  destruct (Hgood _ _ Hi) as (Hm' & _ & _). simpl in Hm'.
  destruct (id_unique m' m (s + 1) (s + 1)) as [_ Hp]; [done..|].
  exists i, m', n. split; [done|]. split; [done|]. split; [apply Hp; lia | done].
Qed.

(** Inside a span there is one next ledger, the span's. *)
Lemma next_span t s y :
  wf ok t -> captured t -> 0 < n_branch t -> sp_start (n_span t) <= s -> s + 1 < sp_end (n_span t) ->
  next s (lg_ancestor (sp_ledger (n_span t)) s) y <-> y = lg_ancestor (sp_ledger (n_span t)) (s + 1).
Proof.
  intros Hwf Hcap Hb H1 H2. destruct (wf_span ok _ Hwf) as (Hok & Hlt & Hle). split.
  - intros Hn. pose proof (next_branch _ _ _ Hn) as Hpos. destruct Hn as (i & m & n & Hi & Hq & Hx & <-).
    destruct (Hgood _ _ Hi) as (Hm & _ & _). simpl in Hm.
    destruct (id_unique m (sp_ledger (n_span t)) s s) as [_ Hp]; [done | done | lia | lia | done |].
    rewrite (captured_after t) in Hpos; [|done | done | done | done | lia | unfold startID; apply Hp; lia].
    apply dec_stable. intros Hne. enough (weight (at_or_after (s + 1) (lg_ancestor m (s + 1))) t = 0) by lia.
    rewrite <- (weight_none t). apply (weight_beyond ok); [done|]. intros m' q (Hm' & Hq' & Hge & Ha).
    destruct (at_or_after _ _ m' q) eqn:E; [|done]. apply at_or_after_true in E as [_ E]. destruct Hne.
    rewrite <- E. apply Ha. lia.
  - intros ->. apply branch_next; [done | lia |]. by rewrite captured_span by (done || lia).
Qed.

(** After the tip of a node, they are the starts of its children. *)
Lemma next_tip s n b cs y :
  wf ok (mkTNode s n b cs) -> captured (mkTNode s n b cs) ->
  next (sp_end s - 1) (lg_ancestor (sp_ledger s) (sp_end s - 1)) y <-> y ∈ start_ids cs.
Proof.
  intros Hwf Hcap. pose proof (wf_span ok _ Hwf) as Hs. simpl in Hs. destruct Hs as (Hok & Hlt & Hle).
  inversion Hwf as [? ? ? ? _ Hb Hnd Hlk Hcp Hw]; subst. rewrite Forall_forall in Hlk, Hcp, Hw.
  assert (Hend : sp_end s - 1 + 1 = sp_end s) by lia. split.
  - intros Hn. pose proof (next_branch _ _ _ Hn) as Hpos. destruct Hn as (i & m & k & Hi & Hq & Hx & <-).
    destruct (Hgood _ _ Hi) as (Hm & _ & _). simpl in Hm.
    destruct (id_unique m (sp_ledger s) (sp_end s - 1) (sp_end s - 1)) as [_ Hp]; [done | done | lia | lia | done |].
    rewrite Hend in *.
    rewrite (captured_after (mkTNode s n (n + sum_by n_branch cs) cs)) in Hpos;
      [|done | done | done | done | simpl; lia | unfold startID; simpl; apply Hp; lia].
    simpl in Hpos. unfold at_or_after at 1 in Hpos. rewrite (proj2 (N.leb_gt _ _)) in Hpos by lia.
    simpl in Hpos. apply sum_by_pos in Hpos as (c & Hin & Hpos). apply list_elem_of_fmap. exists c. split; [|done].
    apply dec_stable. intros Hne. enough (weight (at_or_after (sp_end s) (lg_ancestor m (sp_end s))) c = 0) by lia.
    rewrite <- (weight_none c). apply (weight_ext ok); [by apply Hw|]. intros m' q (_ & _ & _ & E').
    destruct (at_or_after _ _ m' q) eqn:E; [|done]. apply at_or_after_true in E as [_ E].
    destruct (Hlk c Hin) as [L1 _]. rewrite L1 in E'. congruence.
  - intros (c & -> & Hin)%list_elem_of_fmap. destruct (Hlk c Hin) as [L1 L2].
    pose proof (wf_span ok _ (Hw c Hin)) as (Hokc & Hltc & Hlec). rewrite <- L2.
    pose proof (branch_next (sp_ledger (n_span c)) (sp_end s - 1) Hokc) as Hbn. rewrite Hend in Hbn.
    unfold startID. rewrite L1. apply Hbn; [lia|]. rewrite <- L1.
    rewrite captured_span; [| by apply Hw | by eapply captured_child | lia | lia].
    by apply branch_pos; [apply Hw | apply Hcp].
Qed.

(** ** Uncommitted support along the iteration *)

Context (order : list (N * N)).
Context (Hsorted : StronglySorted (fun p q : N * N => p.1 < q.1) order).
Context (Horder : forall f : N -> bool, sum_by (fun p : N * N => if f p.1 then p.2 else 0) order
                            = total (fun _ q => f q) σ).

(** The iterator is at the first sequence number not below [b]. *)
Definition iterates (b unc : N) (it : list (N * N)) : Prop :=
  exists seen, order = seen ++ it
    /\ Forall (fun p : N * N => p.1 < b) seen /\ Forall (fun p : N * N => b <= p.1) it
    /\ unc = sum_by snd seen.

Lemma iterates_total b unc it : iterates b unc it -> total (fun _ q => q <? b) σ = unc.
Proof.
  intros (seen & E & H1 & H2 & ->). rewrite <- (Horder (fun q => q <? b)), E, sum_by_app.
  rewrite (sum_by_zero _ it), N.add_0_r.
  - apply sum_by_ext. eapply Forall_impl; [exact H1|]. simpl. intros p Hp. by rewrite (proj2 (N.ltb_lt _ _)).
  - eapply Forall_impl; [exact H2|]. simpl. intros p Hp. by rewrite (proj2 (N.ltb_ge _ _)).
Qed.

Lemma iterates_later b b' unc it :
  iterates b unc it -> b <= b' -> Forall (fun p : N * N => b' <= p.1) it -> iterates b' unc it.
Proof.
  intros (seen & E & H1 & H2 & ->) Hb Hit. exists seen. split; [done|]. split; [|done].
  eapply Forall_impl; [exact H1|]. simpl. lia.
Qed.

(** The iterator passes one entry. *)
Lemma iterates_next b b' unc s n it :
  iterates b unc ((s, n) :: it) -> b' = s + 1 -> iterates b' (unc + n) it.
Proof.
  intros (seen & E & H1 & H2 & ->) ->. apply Forall_cons in H2 as [Hs H2]. simpl in Hs.
  exists (seen ++ [(s, n)]). split; [by rewrite <- app_assoc|]. split; [|split].
  - apply Forall_app. split; [|by constructor; [simpl; lia|]].
    eapply Forall_impl; [exact H1|]. simpl. lia.
  - rewrite E in Hsorted. apply StronglySorted_app_1_r in Hsorted. inversion Hsorted as [|? ? _ Hf]; subst.
    eapply Forall_impl; [exact Hf|]. simpl. lia.
  - rewrite sum_by_app. simpl. lia.
Qed.

Lemma iterates_head b unc s n it b' :
  iterates b unc ((s, n) :: it) -> b' <= s -> Forall (fun p : N * N => b' <= p.1) ((s, n) :: it).
Proof.
  intros (seen & E & H1 & H2 & ->) Hb. constructor; [done|].
  rewrite E in Hsorted. apply StronglySorted_app_1_r in Hsorted. inversion Hsorted as [|? ? _ Hf]; subst.
  eapply Forall_impl; [exact Hf|]. simpl. lia.
Qed.

Lemma add_uncommitted_ok b b' unc it :
  iterates b unc it -> b <= b' ->
  iterates b' (add_uncommitted b' unc it).1 (add_uncommitted b' unc it).2.
Proof.
  revert b unc. induction it as [|[s n] it IH]; intros b unc Hit Hb; simpl.
  - by eapply iterates_later.
  - destruct (N.ltb_spec s b') as [Hs|Hs].
    + apply (IH (s + 1)); [|lia]. by eapply iterates_next.
    + eapply iterates_later; [done | done |]. by eapply iterates_head.
Qed.

(** The loop along a span stops where the support does not exceed the
    uncommitted support, or at the end. *)
Lemma advance_ok e br s unc it :
  iterates (N.max s largestIssued) unc it -> s <= e ->
  let '(s', unc', it') := advance e br s unc it in
  iterates (N.max s' largestIssued) unc' it' /\ s <= s' /\ s' <= e
  /\ (forall q, s <= q -> q < s' -> uncommitted q < br)
  /\ (s' < e -> br <= uncommitted s').
Proof.
  revert s unc. induction it as [|[q n] it IH]; intros s unc Hit Hse; simpl.
  - destruct (N.ltb_spec s e) as [H1|H1]; cbn [andb]; [|repeat split; try done; lia].
    destruct (N.ltb_spec unc br) as [H2|H2].
    + assert (Hl : forall q, s <= q -> iterates (N.max q largestIssued) unc [])
        by (intros q Hq; eapply iterates_later; [exact Hit | lia | done]).
      split; [by apply Hl|]. repeat split; try lia. intros q Hq _.
      unfold uncommitted. by rewrite (iterates_total _ _ _ (Hl q Hq)).
    + repeat split; try done; try lia. intros _. unfold uncommitted. by rewrite (iterates_total _ _ _ Hit).
  - destruct (N.ltb_spec s e) as [H1|H1]; cbn [andb]; [|repeat split; try done; lia].
    destruct (N.ltb_spec unc br) as [H2|H2].
    2: { repeat split; try done; try lia. intros _. unfold uncommitted. by rewrite (iterates_total _ _ _ Hit). }
    assert (Hq : N.max s largestIssued <= q)
      by (destruct Hit as (? & _ & _ & Hf & _); apply Forall_cons in Hf as [Hf _]; exact Hf).
    assert (Hl : forall r, s <= r -> r <= q -> iterates (N.max r largestIssued) unc ((q, n) :: it))
      by (intros r Hr Hr'; eapply iterates_later; [exact Hit | lia | eapply iterates_head; [exact Hit | lia]]).
    assert (Hu : forall r, s <= r -> r <= q -> uncommitted r < br)
      by (intros r Hr Hr'; unfold uncommitted; by rewrite (iterates_total _ _ _ (Hl r Hr Hr'))).
    destruct (N.ltb_spec q e) as [H3|H3].
    + specialize (IH (q + 1) (unc + n) ltac:(eapply iterates_next; [exact Hit | lia]) ltac:(lia)).
      destruct (advance e br (q + 1) (unc + n) it) as [[s' unc'] it'].
      destruct IH as (I1 & I2 & I3 & I4 & I5). repeat split; try done; try lia.
      intros r Hr Hr'. destruct (N.le_gt_cases r q); [by apply Hu | apply I4; lia].
    + split; [apply Hl; lia|]. repeat split; try lia. intros r Hr Hr'. apply Hu; lia.
Qed.

(** ** The best child *)

Lemma front_spec cs i b :
  NoDup (start_ids cs) -> front cs = Some (i, b) ->
  cs !! i = Some b /\ forall k c, cs !! k = Some c -> k <> i -> child_before b c = true.
Proof.
  revert i b. induction cs as [|c cs IH]; intros i b Hnd; simpl; [done|].
  unfold start_ids in Hnd. simpl in Hnd. apply NoDup_cons in Hnd as [Hc Hnd].
  destruct (front cs) as [[j b']|] eqn:Ef.
  - destruct (IH j b' Hnd eq_refl) as [H1 H2].
    assert (Hne : startID (n_span c) <> startID (n_span b')).
    { intros E. apply Hc. rewrite E. apply list_elem_of_fmap. exists b'. split; [done|]. by eapply list_elem_of_lookup_2. }
    destruct (child_before b' c) eqn:E; intros [= <- <-].
    + split; [done|]. intros [|k] c' Hk Hki; [by simplify_eq/= | apply (H2 k); [done | lia]].
    + split; [done|]. intros [|k] c' Hk Hki; [done|]. simpl in Hk.
      assert (Hcb : child_before c b' = true) by (unfold child_before in *; lia).
      destruct (decide (k = j)) as [->|Hkj]; [by simplify_eq|].
      specialize (H2 k c' Hk Hkj). unfold child_before in *. lia.
  - intros [= <- <-]. split; [done|]. destruct cs as [|c' cs]; [by intros [|k]|].
    simpl in Ef. destruct (front cs) as [[]|]; [by case_match | done].
Qed.

Lemma start_id_inj cs c d :
  NoDup (start_ids cs) -> c ∈ cs -> d ∈ cs -> startID (n_span c) = startID (n_span d) -> c = d.
Proof.
  intros Hnd [i Hi]%list_elem_of_lookup [j Hj]%list_elem_of_lookup E.
  enough (i = j) by congruence. eapply (NoDup_lookup (start_ids cs)); [done | |];
    unfold start_ids; rewrite list_lookup_fmap.
  - by rewrite Hi.
  - rewrite Hj. simpl. by rewrite E.
Qed.

Lemma front_is_Some c cs : is_Some (front (c :: cs)).
Proof. simpl. destruct (front cs) as [[]|]; [case_match|]; by eexists. Qed.

Lemma best_child_None cs : NoDup (start_ids cs) -> best_child cs = None -> cs = [].
Proof.
  intros Hnd. unfold best_child. destruct cs as [|c [|c' cs]]; [done | done |].
  destruct (front_is_Some c (c' :: cs)) as [[i b] Ei]. rewrite Ei. simpl.
  destruct (front_spec _ i b Hnd Ei) as [Hi _].
  pose proof (length_delete (c :: c' :: cs) i ltac:(by eexists)) as Hlen.
  destruct (delete i (c :: c' :: cs)) as [|x ds]; [done|].
  destruct (front_is_Some x ds) as [[j b'] Ej]. by rewrite Ej.
Qed.

(** The best child leads every other by the margin. *)
Lemma best_child_spec cs i margin :
  NoDup (start_ids cs) -> Forall (fun c => 0 < n_branch c) cs -> best_child cs = Some (i, margin) ->
  exists b, cs !! i = Some b /\ margin <= n_branch b
    /\ (forall c, c ∈ cs -> startID (n_span c) <> startID (n_span b) ->
          child_before b c = true
          /\ n_branch c + margin <= n_branch b + if (startID (n_span c) <? startID (n_span b))%Z then 1 else 0)
    /\ (margin = n_branch b
        \/ exists c, c ∈ cs /\ startID (n_span c) <> startID (n_span b)
             /\ n_branch c + margin = n_branch b + if (startID (n_span c) <? startID (n_span b))%Z then 1 else 0).
Proof.
  intros Hnd Hpos. unfold best_child. destruct cs as [|c [|c' cs]]; [done | |].
  - intros [= <- <-]. exists c. split; [done|]. split; [done|]. split; [|by left].
    intros c' ->%list_elem_of_singleton. done.
  - set (ds := c :: c' :: cs) in *.
    destruct (front ds) as [[j b]|] eqn:Ef; [|done]. simpl.
    destruct (front_spec ds j b Hnd Ef) as [Hj Hb].
    pose proof (delete_Permutation ds j b Hj) as Hperm.
    assert (Hnd' : NoDup (start_ids (delete j ds))).
    { unfold start_ids in *. rewrite Hperm in Hnd. simpl in Hnd. by apply NoDup_cons in Hnd as [_ ?]. }
    destruct (front (delete j ds)) as [[j' b']|] eqn:Ef'; [|done]. simpl. intros [= <- <-].
    destruct (front_spec _ _ _ Hnd' Ef') as [Hj' Hb'].
    assert (Hin' : b' ∈ ds).
    { rewrite Hperm. right. by eapply list_elem_of_lookup_2. }
    assert (Hne : startID (n_span b') <> startID (n_span b)).
    { intros E. unfold start_ids in Hnd. rewrite Hperm in Hnd. simpl in Hnd. apply NoDup_cons in Hnd as [Hn _].
      apply Hn. rewrite <- E. apply list_elem_of_fmap. exists b'. split; [done|]. by eapply list_elem_of_lookup_2. }
    assert (Hothers : forall x, x ∈ ds -> x <> b -> child_before b x = true /\ (x = b' \/ child_before b' x = true)).
    { intros x Hx Hxb. split.
      - apply list_elem_of_lookup in Hx as [k Hk]. apply (Hb k); [done|]. intros ->. congruence.
      - rewrite Hperm in Hx. apply elem_of_cons in Hx as [->|Hx]; [done|].
        apply list_elem_of_lookup in Hx as [k Hk]. destruct (decide (k = j')) as [->|]; [left; congruence|].
        right. by apply (Hb' k). }
    destruct (Hothers b' Hin') as [Hcb _]; [congruence|]. rewrite Forall_forall in Hpos. pose proof (Hpos b' Hin').
    exists b. split; [done|]. unfold child_before in Hcb. split; [case_match; lia|]. split.
    + intros x Hx Hxb. destruct (Hothers x Hx) as [H1 H2]; [congruence|]. split; [done|].
      unfold child_before in *. destruct H2 as [->|H2]; repeat case_match; lia.
    + right. exists b'. split; [done|]. split; [done|]. repeat case_match; lia.
Qed.

(** ** The walk *)

Definition stuck (p : N * Z) : Prop := forall q, ~ prefers p q.

Lemma prefers_iff s x q y :
  prefers (s, x) (q, y) <->
  q = s + 1 /\ next s x y /\ uncommitted q < branch_of q y
  /\ forall z, next s x z -> z <> y ->
       uncommitted q + branch_of q z < branch_of q y + if (z <? y)%Z then 1 else 0.
Proof.
  split; [by inversion 1 | intros (-> & H1 & H2 & H3); by constructor].
Qed.

(** The point of a span's ledger. *)
Definition point (s : Span L) (q : N) : N * Z := (q, lg_ancestor (sp_ledger s) q).

Lemma walk_span t a b :
  wf ok t -> captured t -> 0 < n_branch t -> sp_start (n_span t) <= a -> a <= b -> b < sp_end (n_span t) ->
  (forall q, a < q -> q <= b -> uncommitted q < n_branch t) ->
  rtc prefers (point (n_span t) a) (point (n_span t) b).
Proof.
  intros Hwf Hcap Hb Ha Hab. revert b Hab. apply (N.right_induction (fun b => _ -> _ -> rtc _ _ _)).
  - intros ? ? ->. done.
  - intros _ _. apply rtc_refl.
  - intros b Hab IH He Hu. rewrite <- N.add_1_r in *. eapply rtc_r; [apply IH; [lia|]; intros; apply Hu; lia|].
    constructor.
    + apply next_span; [done | done | done | lia | lia | done].
    + rewrite captured_span by (done || lia). apply Hu; lia.
    + intros z ->%next_span Hz; [done | done | done | done | lia | lia].
Qed.

Lemma stuck_span t a :
  wf ok t -> captured t -> 0 < n_branch t -> sp_start (n_span t) <= a -> a + 1 < sp_end (n_span t) ->
  n_branch t <= uncommitted (a + 1) -> stuck (point (n_span t) a).
Proof.
  intros Hwf Hcap Hb Ha He Hu q Hq. inversion Hq as [? ? y Hn Hlt _]; subst.
  apply (next_span t) in Hn as ->; [|done | done | done | lia | lia].
  rewrite captured_span in Hlt by (done || lia). lia.
Qed.

(** The steps from the tip of a node. *)
Lemma prefers_tip s n b cs y :
  wf ok (mkTNode s n b cs) -> captured (mkTNode s n b cs) ->
  prefers (point s (sp_end s - 1)) (sp_end s, y) <->
  exists c, c ∈ cs /\ y = startID (n_span c) /\ uncommitted (sp_end s) < n_branch c
    /\ forall d, d ∈ cs -> startID (n_span d) <> y ->
         uncommitted (sp_end s) + n_branch d
         < n_branch c + if (startID (n_span d) <? y)%Z then 1 else 0.
Proof.
  intros Hwf Hcap. pose proof (fun z => next_tip s n b cs z Hwf Hcap) as Hnext.
  pose proof (wf_span ok _ Hwf) as (_ & Hlt & _). simpl in Hlt.
  pose proof Hwf as Hwf'. inversion Hwf' as [? ? ? ? _ Hb Hnd Hlk Hcp Hw]; subst.
  rewrite Forall_forall in Hlk, Hw.
  assert (Hbr : forall c, c ∈ cs -> branch_of (sp_end s) (startID (n_span c)) = n_branch c).
  { intros c Hin. destruct (Hlk c Hin) as [<- _]. destruct (wf_span ok _ (Hw c Hin)) as (_ & H & _).
    apply captured_span; [by apply Hw | by eapply captured_child | lia | lia]. }
  unfold point. rewrite prefers_iff. split.
  - intros (_ & (c & -> & Hin)%Hnext%list_elem_of_fmap & Hu & Hz). rewrite (Hbr c Hin) in Hu, Hz.
    exists c. split_and!; [done | done | done |]. intros d Hd Hne. rewrite <- (Hbr d Hd).
    apply Hz; [|done]. apply Hnext, list_elem_of_fmap. by exists d.
  - intros (c & Hin & -> & Hu & Hz). rewrite (Hbr c Hin). split_and!; [lia | | done |].
    + apply Hnext, list_elem_of_fmap. by exists c.
    + intros z (d & -> & Hd)%Hnext%list_elem_of_fmap Hne. rewrite (Hbr d Hd). by apply Hz.
Qed.

(** From the tip of a node, the walk goes on to the best child, or ends. *)
Lemma walk_child s n b cs :
  wf ok (mkTNode s n b cs) -> captured (mkTNode s n b cs) ->
  match best_child cs with
  | Some (i, margin) =>
      exists c, cs !! i = Some c
        /\ if (uncommitted (sp_end s) <? margin) || (uncommitted (sp_end s) =? 0)
           then prefers (point s (sp_end s - 1)) (sp_end s, startID (n_span c))
           else stuck (point s (sp_end s - 1))
  | None => stuck (point s (sp_end s - 1))
  end.
Proof.
  intros Hwf Hcap. pose proof (fun y => prefers_tip s n b cs y Hwf Hcap) as Hstep.
  pose proof (wf_span ok _ Hwf) as (_ & Hlt & _). simpl in Hlt.
  pose proof Hwf as Hwf'. inversion Hwf' as [? ? ? ? _ Hb Hnd Hlk Hcp Hw]; subst.
  rewrite Forall_forall in Hlk, Hcp, Hw. set (u := uncommitted (sp_end s)) in *.
  assert (Hpos : Forall (fun c => 0 < n_branch c) cs)
    by (apply Forall_forall; intros c Hin; by apply branch_pos; [apply Hw | apply Hcp]).
  assert (Hstuck : (forall y, ~ prefers (point s (sp_end s - 1)) (sp_end s, y)) -> stuck (point s (sp_end s - 1))).
  { intros H [q y] Hq. pose proof Hq as (-> & _)%prefers_iff. apply (H y).
    by replace (sp_end s) with (sp_end s - 1 + 1) at 2 by lia. }
  destruct (best_child cs) as [[i margin]|] eqn:Eb.
  - destruct (best_child_spec cs i margin Hnd Hpos Eb) as (c & Hi & Hm & Hlead & Htight).
    assert (Hin : c ∈ cs) by by eapply list_elem_of_lookup_2.
    rewrite Forall_forall in Hpos. pose proof (Hpos c Hin). exists c. split; [done|].
    destruct ((u <? margin) || (u =? 0)) eqn:E.
    + apply Hstep. exists c. split; [done|]. split; [done|]. split; [lia|].
      intros d Hd Hne. destruct (Hlead d Hd Hne) as [H1 H2].
      unfold child_before in H1. case_match; lia.
    + apply Hstuck. intros y (d & Hd & -> & Hu & Hz)%Hstep.
      destruct (Z.eq_dec (startID (n_span d)) (startID (n_span c))) as [Eid|Nid].
      * assert (d = c) as -> by (eapply (start_id_inj cs); done).
        destruct Htight as [->|(x & Hx & Hxc & Ht)]; [lia|]. specialize (Hz x Hx Hxc). lia.
      * destruct (Hlead d Hd Nid) as [H1 _]. specialize (Hz c Hin ltac:(congruence)).
        unfold child_before in H1. case_match; lia.
  - apply Hstuck. intros y (d & Hd & _)%Hstep. apply best_child_None in Eb as ->; [|done].
    by apply elem_of_nil in Hd.
Qed.

Lemma preferred_from_ok t b unc it :
  wf ok t -> captured t -> 0 < n_branch t -> iterates b unc it ->
  b <= N.max (sp_start (n_span t) + 1) largestIssued ->
  let tp := preferred_from largestIssued t unc it in
  rtc prefers (point (n_span t) (sp_start (n_span t))) (st_seq tp, st_id tp) /\ stuck (st_seq tp, st_id tp).
Proof.
  revert b unc it. induction t as [s n br cs IH] using Node_nested_ind. intros b unc it Hwf Hcap Hpos Hit Hb.
  pose proof (wf_span ok _ Hwf) as (_ & Hlt & _). cbn [n_span n_branch] in *. cbn [preferred_from].
  pose proof (add_uncommitted_ok _ _ _ _ Hit Hb) as Hit1.
  destruct (add_uncommitted _ unc it) as [unc1 it1]. cbn [fst snd] in Hit1.
  pose proof (advance_ok (sp_end s) br _ _ _ Hit1 ltac:(lia)) as Hadv.
  destruct (advance (sp_end s) br (sp_start s + 1) unc1 it1) as [[q unc2] it2].
  destruct Hadv as (Hit2 & Hq1 & Hq2 & Hu & Hstop).
  assert (Hwalk : rtc prefers (point s (sp_start s)) (point s (q - 1))).
  { apply (walk_span (mkTNode s n br cs)); simpl; try done; try lia. intros r H1 H2. apply Hu; lia. }
  destruct (N.ltb_spec q (sp_end s)) as [Hqe|Hqe].
  - rewrite before_spec by lia. simpl. split; [done|].
    apply (stuck_span (mkTNode s n br cs)); simpl; try done; try lia.
    replace (q - 1 + 1) with q by lia. by apply Hstop.
  - assert (q = sp_end s) as -> by lia.
    pose proof (walk_child s n br cs Hwf Hcap) as Hch.
    assert (Hunc : uncommitted (sp_end s) = unc2) by by apply iterates_total in Hit2.
    destruct (best_child cs) as [[i margin]|]; [|simpl; by split].
    destruct Hch as (c & Hi & Hc). rewrite Hunc in Hc. clear Hunc.
    destruct ((unc2 <? margin) || (unc2 =? 0)); [|simpl; by split].
    rewrite pick_lookup, Hi. cbn [default fmap option_fmap option_map].
    inversion Hwf as [? ? ? ? _ Hbr Hnd Hlk Hcp Hw]; subst. rewrite Forall_forall in IH, Hlk, Hcp, Hw.
    assert (Hin : c ∈ cs) by by eapply list_elem_of_lookup_2. destruct (Hlk c Hin) as [L1 _].
    destruct (IH c Hin (N.max (sp_end s) largestIssued) unc2 it2) as [H1 H2];
      [by apply Hw | by eapply captured_child | by apply branch_pos; [apply Hw | apply Hcp] | done | lia |].
    split; [|done]. etrans; [exact Hwalk|]. eapply rtc_l; [exact Hc|].
    unfold point, startID in *. by rewrite <- L1.
Qed.

(** A walk has one end. *)
Lemma prefers_deterministic p q q' : prefers p q -> prefers p q' -> q = q'.
Proof.
  destruct p as [s x], q as [s1 y], q' as [s2 z].
  intros (-> & N1 & _ & Z1)%prefers_iff (-> & N2 & _ & Z2)%prefers_iff. f_equal.
  destruct (Z.eq_dec y z) as [E|E]; [done|].
  specialize (Z1 z N2 ltac:(congruence)). specialize (Z2 y N1 E).
  destruct (Z.ltb_spec z y), (Z.ltb_spec y z); lia.
Qed.

Lemma stuck_unique p q q' : rtc prefers p q -> rtc prefers p q' -> stuck q -> stuck q' -> q = q'.
Proof.
  intros Hq. revert q'. induction Hq as [p|p p1 q H1 Hq IH]; intros q' Hq' Hs Hs'.
  - inversion Hq'; subst; [done|]. by edestruct Hs.
  - inversion Hq' as [|? p2 ? H2 Hq2]; subst; [by edestruct Hs'|].
    rewrite (prefers_deterministic _ _ _ H2 H1) in Hq2. by apply IH.
Qed.

End Preferred.

(** ** The iteration over the supports *)

Section Iteration.

Context {L : Type} {LO : LedgerOps L} (ok : L -> Prop) {LL : LedgerLaws ok}.

Lemma in_order_perm (m : gmap N N) : in_order m ≡ₚ map_to_list m.
Proof. apply merge_sort_Permutation. Qed.

Lemma in_order_sorted (m : gmap N N) : StronglySorted (fun p q : N * N => p.1 < q.1) (in_order m).
Proof.
  assert (Hs : StronglySorted seq_order (in_order m)).
  { apply StronglySorted_merge_sort; [intros p q r; unfold seq_order; lia | intros p q; unfold seq_order; lia]. }
  assert (Hnd : NoDup (in_order m).*1) by (rewrite in_order_perm; apply NoDup_fst_map_to_list).
  induction Hs as [|p ps Hs IH Hf]; [constructor|]. simpl in Hnd. apply NoDup_cons in Hnd as [Hp Hnd].
  constructor; [by apply IH|]. rewrite Forall_forall in *. intros q Hq. specialize (Hf q Hq). unfold seq_order in Hf.
  enough (p.1 <> q.1) by lia. intros E. apply Hp. rewrite E. apply list_elem_of_fmap. by exists q.
Qed.

Lemma expected_sum (f : N -> bool) (ns : list (Node L)) :
  sum_by (fun p : N * N => if f p.1 then p.2 else 0) (map_to_list (expectedSeqSupport ns))
  = sum_by (fun n => if f (sp_end (n_span n) - 1) then n_tip n else 0) ns.
Proof.
  induction ns as [|n ns IH]; simpl; [by rewrite map_to_list_empty|]. set (m := expectedSeqSupport ns) in *.
  set (g := fun p : N * N => _) in *. set (q := sp_end (n_span n) - 1).
  destruct (N.eqb_spec (n_tip n) 0) as [->|H0]; [rewrite IH; by case_match|].
  rewrite <- insert_delete_eq, (sum_by_perm _ _ _ (map_to_list_insert (delete q m) q _ (lookup_delete_eq m q))).
  rewrite <- IH. simpl. destruct (m !! q) as [k|] eqn:E.
  - rewrite <- (insert_delete_id m q k E) at 2.
    rewrite (sum_by_perm _ _ _ (map_to_list_insert (delete q m) q k (lookup_delete_eq m q))).
    unfold g. simpl. case_match; lia.
  - rewrite delete_id by done. unfold g at 1. simpl. case_match; lia.
Qed.

Lemma in_order_total T σ (f : N -> bool) :
  represents ok T σ ->
  sum_by (fun p : N * N => if f p.1 then p.2 else 0) (in_order (lt_seqSupport T)) = total (fun _ q => f q) σ.
Proof.
  intros HR. rewrite (sum_by_perm _ _ _ (in_order_perm _)), (represents_expected ok T σ HR), expected_sum.
  rewrite <- (rep_weight ok T σ HR) by done. by rewrite weight_nodes.
Qed.

Lemma root_captured T σ : represents ok T σ -> captured ok σ (lt_root T).
Proof. intros HR P HP _. symmetry. by apply (rep_weight ok T σ HR). Qed.

End Iteration.

(** The preferred ledger is a point of a ledger in the trie. *)
Section Preferred.

Context {L : Type} {LO : LedgerOps L} (ok : L -> Prop) {LL : LedgerLaws ok}.

Definition is_tip (tp : SpanTip L) : Prop :=
  exists l, ok l /\ st_seq tp <= lg_seq l /\ st_id tp = lg_ancestor l (st_seq tp).

Lemma tip_point (s : Span L) : ok (sp_ledger s) -> sp_end s <= lg_seq (sp_ledger s) + 1 -> is_tip (tip s).
Proof. intros H1 H2. exists (sp_ledger s). simpl. split_and!; [done | lia | done]. Qed.

Lemma preferred_from_tip largestIssued (t : Node L) unc it : wf ok t -> is_tip (preferred_from largestIssued t unc it).
Proof.
  revert unc it. induction t as [s n br cs IH] using Node_nested_ind. intros unc it Hwf.
  pose proof (wf_span ok _ Hwf) as (Hok & Hlt & Hle). cbn [n_span preferred_from] in *.
  destruct (add_uncommitted _ unc it) as [unc1 it1]. destruct (advance _ _ _ _ _) as [[q unc2] it2].
  pose proof (tip_point s Hok Hle) as Htip. case_match.
  - unfold before, sub. destruct (clamp s (sp_start s) <? clamp s q); [|exact Htip]. apply tip_point; [done|]. simpl. unfold clamp. lia.
  - destruct (best_child cs) as [[i margin]|]; [|done]. case_match; [|done]. rewrite pick_lookup.
    destruct (cs !! i) as [c|] eqn:Hi; [|done]. cbn [default fmap option_fmap option_map].
    inversion Hwf as [? ? ? ? _ _ _ _ _ Hw]; subst. rewrite Forall_forall in IH, Hw.
    assert (Hin : c ∈ cs) by by eapply list_elem_of_lookup_2. apply (IH c Hin). by apply Hw.
Qed.

Lemma getPreferred_tip T σ largestIssued tp :
  represents ok T σ -> getPreferred T largestIssued = Some tp -> is_tip tp.
Proof.
  intros HR. unfold getPreferred. case_match; [done|]. intros [= <-]. apply preferred_from_tip, HR.
Qed.

End Preferred.

(** ** Theorem *)

(** C7: the preferred ledger is where the rule leads.  After any insertions and
    removals, [getPreferred] finds none exactly when nothing is supported;
    otherwise it returns the one ledger at which the walk of [prefers] from
    genesis ends. *)
Theorem getPreferred_walk {L : Type} {LO : LedgerOps L} (ok : L -> Prop) {LL : LedgerLaws ok}
    (ops : list (Op (L := L))) (largestIssued : N) :
  Forall (op_ok ok) ops ->
  let T := (trie_run ops LedgerTrie_empty).2 in
  let σ := (spec_run ops ∅).2 in
  match getPreferred T largestIssued with
  | None => total (fun _ _ => true) σ = 0
  | Some tp =>
      0 < total (fun _ _ => true) σ
      /\ forall p, rtc (prefers σ largestIssued) (0, lg_ancestor lg_genesis 0) p
                   /\ (forall q, ~ prefers σ largestIssued p q)
             <-> p = (st_seq tp, st_id tp)
  end.
Proof.
  intros Hops T σ. destruct (represents_run ok ops LedgerTrie_empty ∅ (represents_empty ok) Hops) as [_ HR].
  fold T σ in HR. pose proof (represents_total ok T σ HR) as Ht. unfold getPreferred, empty. rewrite Ht.
  destruct (N.eqb_spec (total (fun _ _ => true) σ) 0) as [E|E]; [done|]. split; [lia|].
  pose proof (preferred_from_ok ok σ largestIssued (rep_good ok T σ HR) (in_order (lt_seqSupport T))
    (in_order_sorted _) (fun f => in_order_total ok T σ f HR) (lt_root T) 0 0 (in_order (lt_seqSupport T))
    (rep_wf ok T σ HR) (root_captured ok T σ HR) ltac:(lia)) as Hp.
  cbv zeta in Hp. rewrite (rep_span ok T σ HR) in Hp.
  destruct Hp as [H1 H2]; [exists []; split_and!; try done; by apply Forall_true; lia | simpl; lia |].
  intros p. split; [intros [H3 H4]; by eapply stuck_unique | intros ->; by split].
Qed.

(** Ledger 32 has three of the six validations, no more than the earlier ledgers
    have together, so that its parent 22 is preferred. *)
Lemma getPreferred_walk_witness :
  Forall (op_ok (complete ToyLedgers.hist)) ToyLedgers.ops
  /\ rtc (prefers (spec_run ToyLedgers.ops ∅).2 0) (0, 0%Z) (2, 22%Z).
Proof.
  split; [apply ToyLedgers.ops_ok|].
  pose proof (getPreferred_walk (complete ToyLedgers.hist) ToyLedgers.ops 0 ToyLedgers.ops_ok) as H.
  vm_compute (getPreferred _ _) in H. destruct H as [_ H]. apply (H (2, 22%Z)). reflexivity.
Defined.
