(* ===== verification/Validations.v ===== *)
(** * Validations of the network (Validations)

    [Validations] keeps the latest validation of each node, the recent ones by
    ledger and by sequence number, and in a [LedgerTrie] the support of the
    ledgers that the trusted nodes validated and this node has.  The definitions
    are those of [src/src/peersafe/consensus/Validations.h].

    What the adaptor knows when an operation runs is an argument of it: the
    network time [now] in seconds, the steady clock [clk] in nanoseconds, and
    [acquire], which ledgers are at hand while the operation holds the lock.
    Hash maps are iterated in the order of [map_to_list].  Validations are values:
    the trust flag, the only part that is ever changed in place, is not read from
    the copies that [bySequence_] and [lastValidations_] share with the others. *)

From S2P Require Import Prelude LedgerTrie.
From coqutil Require Import Datatypes.RecordSetters.
Import DoubleBraceUpdate.

#[local] Open Scope Z_scope.

Abbreviation NodeID := Z.
Abbreviation NodeKey := (list Z).

(** ** Parameters, in seconds *)

Record ValidationParms := mkValidationParms {
  validationCURRENT_WALL : Z;
  validationCURRENT_LOCAL : Z;
  validationCURRENT_EARLY : Z;
  validationSET_EXPIRES : Z;
  validationFRESHNESS : Z
}.

Definition ValidationParms_default : ValidationParms := mkValidationParms 300 180 180 600 20.

(** ** SeqEnforcer *)

Record SeqEnforcer := mkSeqEnforcer {
  se_seq : N;
  se_when : Z
}.

Definition SeqEnforcer_default : SeqEnforcer := mkSeqEnforcer 0 0.

Definition enforce (e : SeqEnforcer) (clk : Z) (s : N) (valSetExpires : Z) : bool * SeqEnforcer :=
  let seq := if clk >? se_when e + valSetExpires * 1000000 then 0%N else se_seq e in
  if (s <=? seq)%N then (false, mkSeqEnforcer seq (se_when e)) else (true, mkSeqEnforcer s clk).

(** The arithmetic is at 64 bits, on 32-bit times: it does not wrap. *)
Definition isCurrent (p : ValidationParms) (now signTime seenTime : Z) : bool :=
  (signTime >? now - validationCURRENT_EARLY p)
  && (signTime <? now + validationCURRENT_WALL p)
  && ((seenTime =? 0) || (seenTime <? now + validationCURRENT_LOCAL p)).

(** ** Validations *)

Inductive ValStatus := vs_current | vs_stale | vs_badSeq | vs_multiple | vs_conflicting.

Record Validation := mkValidation {
  v_ledgerID : Z;
  v_seq : N;
  v_signTime : Z;
  v_seenTime : Z;
  v_key : NodeKey;
  v_trusted : bool;
  v_full : bool;
  v_loadFee : option Z;
  v_cookie : Z
}.

Definition set_trusted (b : bool) (v : Validation) : Validation :=
  mkValidation (v_ledgerID v) (v_seq v) (v_signTime v) (v_seenTime v) (v_key v) b (v_full v)
    (v_loadFee v) (v_cookie v).

Section Validations.

Context {L : Type} {LO : LedgerOps L}.

(** An entry of an aged map carries the time it was last touched. *)
Record Validations := mkValidations {
  va_current : gmap NodeID Validation;
  va_localSeqEnforcer : SeqEnforcer;
  va_seqEnforcers : gmap NodeID SeqEnforcer;
  va_byLedger : gmap Z (Z * gmap NodeID Validation);
  va_bySequence : gmap N (Z * gmap NodeID Validation);
  va_toKeep : option N;
  va_trie : LedgerTrie L;
  va_lastLedger : gmap NodeID L;
  va_acquiring : gmap (N * Z) (gset NodeID);
  va_parms : ValidationParms;
  va_valSeqExpires : Z;
  va_lastValidations : N * Z * list Validation;
  (* what was handed to the stale policy *)
  va_onStale : list Validation
}.

Definition Validations_new (p : ValidationParms) (valSeqExpires : Z) : Validations :=
  mkValidations ∅ SeqEnforcer_default ∅ ∅ ∅ None LedgerTrie_empty ∅ ∅ p valSeqExpires (0%N, 0, []) [].

(** ** The trie *)

(** A node no longer waits for a ledger. *)
Definition stop_acquiring (va : Validations) (k : N * Z) (nodeID : NodeID) : Validations :=
  match va_acquiring va !! k with
  | Some ids =>
      let ids := ids ∖ {[nodeID]} in
      va {{ va_acquiring := if decide (ids = ∅) then delete k (va_acquiring va)
                            else <[k := ids]> (va_acquiring va) }}
  | None => va
  end.

Definition removeTrie (va : Validations) (nodeID : NodeID) (val : Validation) : Validations :=
  let va := stop_acquiring va (v_seq val, v_ledgerID val) nodeID in
  match va_lastLedger va !! nodeID with
  | Some l =>
      if lg_id l =? v_ledgerID val
      then va {{ va_trie := (remove (va_trie va) l 1).2;
                 va_lastLedger := delete nodeID (va_lastLedger va) }}
      else va
  | None => va
  end.

(** [updateTrie] with an acquired ledger. *)
Definition updateTrie (va : Validations) (nodeID : NodeID) (ledger : L) : Validations :=
  let trie :=
    match va_lastLedger va !! nodeID with
    | Some l => (remove (va_trie va) l 1).2
    | None => va_trie va
    end in
  va {{ va_trie := insert trie ledger 1;
        va_lastLedger := <[nodeID := ledger]> (va_lastLedger va) }}.

(** The pending requests that are complete. *)
Definition checkAcquired (acquire : Z -> option L) (va : Validations) : Validations :=
  fold_left (fun va '(k, ids) =>
    match acquire k.2 with
    | Some ledger =>
        let va := fold_left (fun va nodeID => updateTrie va nodeID ledger) (elements ids) va in
        va {{ va_acquiring := delete k (va_acquiring va) }}
    | None => va
    end) (map_to_list (va_acquiring va)) va.

(** [updateTrie] with a new trusted validation. *)
Definition updateTrie_val (acquire : Z -> option L) (va : Validations) (nodeID : NodeID)
    (val : Validation) (prior : option (N * Z)) : Validations :=
  let va := match prior with Some k => stop_acquiring va k nodeID | None => va end in
  let va := checkAcquired acquire va in
  let valPair := (v_seq val, v_ledgerID val) in
  match va_acquiring va !! valPair with
  | Some ids => va {{ va_acquiring := <[valPair := ids ∪ {[nodeID]}]> (va_acquiring va) }}
  | None =>
      match acquire (v_ledgerID val) with
      | Some ledger => updateTrie va nodeID ledger
      | None => va {{ va_acquiring := <[valPair := {[nodeID]}]> (va_acquiring va) }}
      end
  end.

(** [current]: the stale validations are dropped, the others returned. *)
Definition flush_stale (now : Z) (va : Validations) : Validations :=
  fold_left (fun va '(nodeID, val) =>
    if isCurrent (va_parms va) now (v_signTime val) (v_seenTime val) then va
    else
      let va := removeTrie va nodeID val in
      va {{ va_current := delete nodeID (va_current va) }})
    (map_to_list (va_current va)) va.

Definition current (now : Z) (va : Validations) : list (NodeID * Validation) * Validations :=
  let va := flush_stale now va in (map_to_list (va_current va), va).

(** The state in which [withTrie] uses the trie. *)
Definition withTrie (acquire : Z -> option L) (now : Z) (va : Validations) : Validations :=
  checkAcquired acquire (flush_stale now va).

(** ** Operations *)

Definition setValSeqExpires (va : Validations) (ms : Z) : Validations := va {{ va_valSeqExpires := ms }}.

Definition canValidateSeq (va : Validations) (clk : Z) (s : N) : bool * Validations :=
  let '(b, e) := enforce (va_localSeqEnforcer va) clk s (va_valSeqExpires va) in
  (b, va {{ va_localSeqEnforcer := e }}).

(** [operator[]] of an aged map. *)
Definition aged_get {K} `{Countable K} (clk : Z) (m : gmap K (Z * gmap NodeID Validation)) (k : K)
  : Z * gmap NodeID Validation := default (clk, ∅) (m !! k).

(** The entry of the node for the sequence number, after the emplacement and
    the replacement of one signed long enough before. *)
Definition sequence_entry (valSeqExpires : Z) (seen : option Validation) (val : Validation) : Validation :=
  match seen with
  | None => val
  | Some old =>
      let diff := Z.max (v_signTime old) (v_signTime val) - Z.min (v_signTime old) (v_signTime val) in
      if (diff * 1000 >? valSeqExpires) && (v_signTime val >? v_signTime old) then val else old
  end.

Definition add (acquire : Z -> option L) (now clk : Z) (va : Validations) (nodeID : NodeID)
    (val : Validation) : ValStatus * Validations :=
  if negb (isCurrent (va_parms va) now (v_signTime val) (v_seenTime val)) then (vs_stale, va)
  else
    let '(when, bySeq) := aged_get clk (va_bySequence va) (v_seq val) in
    let seen := sequence_entry (va_valSeqExpires va) (bySeq !! nodeID) val in
    let '(ok, enf) :=
      enforce (default SeqEnforcer_default (va_seqEnforcers va !! nodeID)) clk (v_seq val)
        (va_valSeqExpires va) in
    let va :=
      va {{ va_bySequence := <[v_seq val := (when, <[nodeID := seen]> bySeq)]> (va_bySequence va);
            va_seqEnforcers := <[nodeID := enf]> (va_seqEnforcers va) }} in
    if negb ok then
      (if (v_seq seen =? v_seq val)%N then
         if negb (v_ledgerID seen =? v_ledgerID val) then vs_conflicting
         else if negb (v_cookie seen =? v_cookie val) then vs_multiple
         else vs_badSeq
       else vs_badSeq, va)
    else
      let '(when, byLedger) := aged_get clk (va_byLedger va) (v_ledgerID val) in
      let va :=
        va {{ va_byLedger := <[v_ledgerID val := (when, <[nodeID := val]> byLedger)]> (va_byLedger va) }} in
      match va_current va !! nodeID with
      | Some oldVal =>
          if v_signTime val >? v_signTime oldVal then
            let va := va {{ va_current := <[nodeID := val]> (va_current va) }} in
            let va :=
              if v_trusted val
              then updateTrie_val acquire va nodeID val (Some (v_seq oldVal, v_ledgerID oldVal))
              else va in
            (vs_current, va {{ va_onStale := va_onStale va ++ [val] }})
          else (vs_stale, va)
      | None =>
          let va := va {{ va_current := <[nodeID := val]> (va_current va) }} in
          let va := if v_trusted val then updateTrie_val acquire va nodeID val None else va in
          (vs_current, va {{ va_onStale := va_onStale va ++ [val] }})
      end.

Definition setSeqToKeep (va : Validations) (s : N) : Validations := va {{ va_toKeep := Some s }}.

Definition setLastValidations (va : Validations) (vals : list Validation) : Validations :=
  match vals with
  | [] => va
  | v :: _ =>
      let '(seq, _, cached) := va_lastValidations va in
      match cached with
      | [] => va {{ va_lastValidations := (v_seq v, v_ledgerID v, vals) }}
      | _ =>
          if (seq <=? v_seq v)%N then va {{ va_lastValidations := (v_seq v, v_ledgerID v, vals) }} else va
      end
  end.

Definition getLastValidationsFromCache (va : Validations) (seq : N) (id : Z) : list Validation :=
  let '(s, i, cached) := va_lastValidations va in
  if (seq =? s)%N && (id =? i) then cached else [].

(** [touch] of the entries that [keep] selects, then [beast::expire]. *)
Definition expire_aged {K} `{Countable K} (clk age : Z) (keep : K -> gmap NodeID Validation -> bool)
    (m : gmap K (Z * gmap NodeID Validation)) : gmap K (Z * gmap NodeID Validation) :=
  filter (fun e => (e.2).1 > clk - age)
    (map_imap (fun k e => Some (if keep k e.2 then clk else e.1, e.2)) m).

Definition expire (clk : Z) (va : Validations) : Validations :=
  let keep_ledger (_ : Z) (vals : gmap NodeID Validation) :=
    match va_toKeep va, map_to_list vals with
    | Some s, (_, v) :: _ => (s <=? v_seq v)%N
    | _, _ => false
    end in
  let keep_seq (q : N) (_ : gmap NodeID Validation) :=
    match va_toKeep va with Some s => (s <=? q)%N | None => false end in
  let age := validationSET_EXPIRES (va_parms va) * 1000000000 in
  va {{ va_byLedger := expire_aged clk age keep_ledger (va_byLedger va);
        va_bySequence := expire_aged clk age keep_seq (va_bySequence va) }}.

Definition trust_of (added removed : gset NodeID) (nodeID : NodeID) (v : Validation) : Validation :=
  if decide (nodeID ∈ added) then set_trusted true v
  else if decide (nodeID ∈ removed) then set_trusted false v
  else v.

Definition retrust (added removed : gset NodeID) (m : gmap Z (Z * gmap NodeID Validation))
  : gmap Z (Z * gmap NodeID Validation) :=
  (fun e : Z * gmap NodeID Validation =>
     (e.1, map_imap (fun n v => Some (trust_of added removed n v)) e.2)) <$> m.

Definition trustChanged (acquire : Z -> option L) (va : Validations) (added removed : gset NodeID)
  : Validations :=
  let va :=
    fold_left (fun va '(nodeID, val) =>
      if decide (nodeID ∈ added) then
        let val := set_trusted true val in
        updateTrie_val acquire (va {{ va_current := <[nodeID := val]> (va_current va) }}) nodeID val None
      else if decide (nodeID ∈ removed) then
        let val := set_trusted false val in
        removeTrie (va {{ va_current := <[nodeID := val]> (va_current va) }}) nodeID val
      else va) (map_to_list (va_current va)) va in
  va {{ va_byLedger := retrust added removed (va_byLedger va) }}.

(** The pending request with most nodes, the larger id on a tie. *)
Definition most_acquired (m : gmap (N * Z) (gset NodeID)) : option (N * Z) :=
  let better (a b : (N * Z) * gset NodeID) :=
    (size a.2 <? size b.2)%nat || ((size a.2 =? size b.2)%nat && (a.1.2 <? b.1.2)) in
  match map_to_list m with
  | [] => None
  | e :: es => Some (fold_left (fun best e => if better best e then e else best) es e).1
  end.

Definition getPreferred_at (acquire : Z -> option L) (now : Z) (va : Validations) (curr : L)
  : option (N * Z) * Validations :=
  let va := withTrie acquire now va in
  (match getPreferred (va_trie va) (se_seq (va_localSeqEnforcer va)) with
   | None => most_acquired (va_acquiring va)
   | Some p =>
       if ((st_seq p =? (lg_seq curr + 1) mod 2 ^ 32)%N && (SpanTip_ancestor p (lg_seq curr) =? lg_id curr))
       then Some (lg_seq curr, lg_id curr)
       else if (lg_seq curr <? st_seq p)%N then Some (st_seq p, st_id p)
       else if negb (lg_ancestor curr (st_seq p) =? st_id p) then Some (st_seq p, st_id p)
       else Some (lg_seq curr, lg_id curr)
   end, va).

Definition getPreferred_above (acquire : Z -> option L) (now : Z) (va : Validations) (curr : L)
    (minValidSeq : N) : Z * Validations :=
  let '(p, va) := getPreferred_at acquire now va curr in
  (match p with
   | Some (s, id) => if (minValidSeq <=? s)%N then id else lg_id curr
   | None => lg_id curr
   end, va).

(** [RpcaPopAdaptor::getPrevLedger]: the preferred ledger, as consensus asks for it. *)
Definition getPrevLedger (acquire : Z -> option L) (now : Z) (va : Validations) (minValidSeq : N)
    (ledgerID : Z) (ledger : L) : Z :=
  let netLgr := (getPreferred_above acquire now va ledger minValidSeq).1 in
  if netLgr =? lg_id ledger then ledgerID else netLgr.

(** The largest count, the larger id on a tie. *)
Definition most_peers (m : gmap Z N) : option Z :=
  let better (a b : Z * N) := (a.2 <? b.2)%N || ((a.2 =? b.2)%N && (a.1 <? b.1)) in
  match map_to_list m with
  | [] => None
  | e :: es => Some (fold_left (fun best e => if better best e then e else best) es e).1
  end.

Definition getPreferredLCL (acquire : Z -> option L) (now : Z) (va : Validations) (lcl : L)
    (minSeq : N) (peerCounts : gmap Z N) : Z * Validations :=
  let '(p, va) := getPreferred_at acquire now va lcl in
  (match p with
   | Some (s, id) => if (minSeq <=? s)%N then id else lg_id lcl
   | None => default (lg_id lcl) (most_peers peerCounts)
   end, va).

Definition getNodesAfter (acquire : Z -> option L) (now : Z) (va : Validations) (ledger : L)
    (ledgerID : Z) : N * Validations :=
  if lg_id ledger =? ledgerID then
    let va := withTrie acquire now va in
    ((branchSupport (va_trie va) ledger - tipSupport (va_trie va) ledger)%N, va)
  else
    (N.of_nat (size (filter (fun e : NodeID * L =>
       (0 < lg_seq e.2)%N /\ lg_ancestor e.2 (lg_seq e.2 - 1) = ledgerID) (va_lastLedger va))), va).

Definition currentTrusted (now : Z) (va : Validations) : list Validation * Validations :=
  let '(vals, va) := current now va in
  (filter (fun v => v_trusted v && v_full v = true) vals.*2, va).

Definition getCurrentNodeIDs (now : Z) (va : Validations) : gset NodeID * Validations :=
  let '(vals, va) := current now va in (list_to_set vals.*1, va).

(** [byLedger]: the validations of a ledger, whose entry is touched. *)
Definition byLedger (clk : Z) (va : Validations) (ledgerID : Z) : list Validation * Validations :=
  match va_byLedger va !! ledgerID with
  | Some (_, vals) =>
      ((map_to_list vals).*2, va {{ va_byLedger := <[ledgerID := (clk, vals)]> (va_byLedger va) }})
  | None => ([], va)
  end.

Definition getTrustedForLedger (clk : Z) (va : Validations) (ledgerID : Z)
  : list Validation * Validations :=
  let '(vals, va) := byLedger clk va ledgerID in
  (filter (fun v => v_trusted v && v_full v = true) vals, va).

Definition numTrustedForLedger (clk : Z) (va : Validations) (ledgerID : Z) : nat * Validations :=
  let '(vals, va) := getTrustedForLedger clk va ledgerID in (length vals, va).

Definition fees (clk : Z) (va : Validations) (ledgerID : Z) (baseFee : Z) : list Z * Validations :=
  let '(vals, va) := getTrustedForLedger clk va ledgerID in
  ((fun v => default baseFee (v_loadFee v)) <$> vals, va).

Definition flush (va : Validations) : Validations :=
  let va :=
    fold_left (fun va '(nodeID, val) => removeTrie va nodeID val) (map_to_list (va_current va)) va in
  va {{ va_current := ∅ }}.

(** The lagging proposers, and the keys of those not heard from. *)
Definition laggards (now : Z) (va : Validations) (seq : N) (trustedKeys : gset NodeKey)
  : N * gset NodeKey * Validations :=
  let '(vals, va) := current now va in
  (fold_left (fun '(n, keys) '(_, v) =>
     if (now <? v_seenTime v + validationFRESHNESS (va_parms va)) && bool_decide (v_key v ∈ keys)
     then ((if (v_seq v <? seq)%N then (n + 1)%N else n), keys ∖ {[v_key v]})
     else (n, keys)) vals (0%N, trustedKeys), va).

End Validations.

Arguments Validations L : clear implicits.
