(* ===== verification/ValidationsProps.v ===== *)
(** * Validations: what the trie of supported ledgers counts

    The trie of a [Validations] holds one unit of support for each node of
    [lastLedger_], on that node's ledger, whatever operations were performed.
    With trust flags that agree with [trustChanged], each trusted current
    validation is counted on its ledger as soon as that ledger is at hand. *)

From S2P Require Import Prelude LedgerTrie LedgerTrieProps ValidatedLedger.
From S2P Require Import LedgerTrieSpec Validations.
From coqutil Require Import Datatypes.RecordSetters.
Import DoubleBraceUpdate.

#[local] Open Scope N_scope.

Section Props.

Context {L : Type} {LO : LedgerOps L} (ok : L -> Prop) {LL : LedgerLaws ok}.
Implicit Types (T : LedgerTrie L) (m : gmap Z L) (va : Validations L) (P : L -> N -> bool).

(** The number of nodes whose ledger satisfies [P]. *)
Definition voters P m : N := N.of_nat (size (filter (fun e => P e.2 (lg_seq e.2) = true) m)).

Lemma voters_fresh P m n l :
  m !! n = None -> voters P (<[n := l]> m) = (if P l (lg_seq l) then 1 else 0) + voters P m.
Proof.
  intros H. unfold voters. destruct (P l (lg_seq l)) eqn:E.
  - rewrite map_filter_insert_True by done. rewrite map_size_insert_None; [lia|].
    apply map_lookup_filter_None. by left.
  - rewrite map_filter_insert_False by (simpl; congruence). by rewrite delete_id.
Qed.

Lemma voters_delete P m n l :
  m !! n = Some l -> voters P m = (if P l (lg_seq l) then 1 else 0) + voters P (delete n m).
Proof. intros H. rewrite <- (insert_delete_id m n l H) at 1. apply voters_fresh, lookup_delete_eq. Qed.

(** ** The trie counts the nodes *)

Definition backs T m : Prop :=
  map_Forall (fun _ l => ok l) m
  /\ exists σ, represents ok T σ /\ forall P, respects ok P -> total P σ = voters P m.

Lemma backs_empty : backs LedgerTrie_empty ∅.
Proof.
  split; [apply map_Forall_empty|]. exists ∅. split; [apply represents_empty; typeclasses eauto|].
  intros P _. unfold total, voters. by rewrite map_to_list_empty, map_filter_empty, map_size_empty.
Qed.

Lemma backs_insert T m n l :
  backs T m -> m !! n = None -> ok l -> backs (insert T l 1) (<[n := l]> m).
Proof.
  intros (Hm & σ & HR & Ht) Hn Hl. split; [by apply map_Forall_insert_2|].
  exists (spec_insert σ l 1). split; [by apply represents_insert|]. intros P HP.
  unfold spec_insert. rewrite total_insert, voters_fresh, <- (Ht P HP) by done.
  rewrite (total_split ok P σ l) by (done || apply HR). unfold share. simpl. case_match; lia.
Qed.

Lemma backs_remove T m n l :
  backs T m -> m !! n = Some l -> backs (remove T l 1).2 (delete n m).
Proof.
  intros (Hm & σ & HR & Ht) Hn. pose proof (Hm _ _ Hn) as Hl. split; [by apply map_Forall_delete|].
  assert (Hc : count σ l <> 0).
  { rewrite <- (count_point ok σ l), Ht by (done || apply HR || by apply respects_point).
    rewrite (voters_delete _ m n l Hn). unfold is_point at 1. rewrite <- (id_ancestor l Hl), Z.eqb_refl. lia. }
  exists (spec_remove σ l 1).2. split; [by apply represents_remove|]. intros P HP.
  destruct (spec_remove_total ok P σ l 1 (rep_good ok T σ HR) HP Hl Hc) as [_ H].
  rewrite Ht, (voters_delete P m n l Hn), N.min_l in H by (done || lia). case_match; lia.
Qed.

Definition backed va : Prop := backs (va_trie va) (va_lastLedger va).

(** What [acquire] supplies: the ledger asked for. *)
Definition supplies (acquire : Z -> option L) : Prop :=
  forall id l, acquire id = Some l -> ok l /\ lg_id l = id.

Lemma updateTrie_backed va n l : backed va -> ok l -> backed (updateTrie va n l).
Proof.
  unfold backed, updateTrie. intros H Hl. simpl. destruct (va_lastLedger va !! n) as [l0|] eqn:E.
  - rewrite <- insert_delete_eq. apply backs_insert; [by apply backs_remove | apply lookup_delete_eq | done].
  - by apply backs_insert.
Qed.

Lemma stop_acquiring_frame va k n :
  va_trie (stop_acquiring va k n) = va_trie va /\ va_lastLedger (stop_acquiring va k n) = va_lastLedger va
  /\ va_current (stop_acquiring va k n) = va_current va.
Proof. unfold stop_acquiring. by case_match. Qed.

Lemma removeTrie_backed va n v : backed va -> backed (removeTrie va n v).
Proof.
  unfold backed, removeTrie. intros H.
  destruct (stop_acquiring_frame va (v_seq v, v_ledgerID v) n) as (E1 & E2 & _).
  rewrite <- E1, <- E2 in H. cbv zeta. destruct (va_lastLedger (stop_acquiring _ _ _) !! n) as [l|] eqn:E; [|done].
  case_match; [|done]. simpl. by apply backs_remove.
Qed.

Lemma updateTries_backed va ids l :
  backed va -> ok l -> backed (fold_left (fun va n => updateTrie va n l) ids va).
Proof. intros H Hl. apply fold_left_keeps; [|done]. intros va' n H'. by apply updateTrie_backed. Qed.

Lemma checkAcquired_backed acquire va : supplies acquire -> backed va -> backed (checkAcquired acquire va).
Proof.
  intros Ha. apply fold_left_keeps. intros va' [k ids] H.
  destruct (acquire k.2) as [l|] eqn:E; [|done]. apply (updateTries_backed _ (elements ids) l) in H; [done|].
  by destruct (Ha _ _ E).
Qed.

Lemma updateTrie_val_backed acquire va n v prior :
  supplies acquire -> backed va -> backed (updateTrie_val acquire va n v prior).
Proof.
  intros Ha H. unfold updateTrie_val. cbv zeta.
  set (va1 := match prior with Some k => _ | None => va end).
  assert (Hb : backed va1).
  { subst va1. destruct prior as [k|]; [|done]. unfold backed.
    by destruct (stop_acquiring_frame va k n) as (-> & -> & _). }
  apply (checkAcquired_backed acquire va1 Ha) in Hb. case_match; [done|].
  destruct (acquire (v_ledgerID v)) as [l|] eqn:E; [|done]. apply updateTrie_backed; [done|]. by destruct (Ha _ _ E).
Qed.

Lemma flush_stale_backed now va : backed va -> backed (flush_stale now va).
Proof.
  apply fold_left_keeps. intros va' [n v] H. case_match; [done|]. by apply (removeTrie_backed va' n v) in H.
Qed.

Lemma withTrie_backed acquire now va : supplies acquire -> backed va -> backed (withTrie acquire now va).
Proof. intros Ha H. by apply checkAcquired_backed, flush_stale_backed. Qed.

(** The part of the state that the trie has to do with. *)
Definition view va := (va_trie va, va_lastLedger va, va_acquiring va, va_current va).

Lemma view_backed va va' : view va' = view va -> backed va -> backed va'.
Proof. unfold view, backed. by intros [= -> -> _ _]. Qed.

Definition key_of (v : Validation) : N * Z := (v_seq v, v_ledgerID v).

(** An addition leaves that part as it was, or the validation is current. *)
Lemma add_cases acquire now clk va n v :
  let r := (add acquire now clk va n v).2 in
  view r = view va
  \/ exists va1, view va1 = (va_trie va, va_lastLedger va, va_acquiring va, <[n := v]> (va_current va))
       /\ view r = view (if v_trusted v then updateTrie_val acquire va1 n v (key_of <$> va_current va !! n) else va1).
Proof.
  cbv zeta. destruct va as [cur ? ? ? ? ? ? ? ? ? ? ? ?]. unfold add. simpl.
  destruct (negb (isCurrent _ _ _ _)); [by left|].
  destruct (aged_get clk _ _) as [w1 m1]. destruct (enforce _ _ _ _) as [b e]. simpl.
  destruct (negb b); [by left|]. destruct (aged_get _ _ _) as [w2 m2].
  simpl. destruct (cur !! n) as [old|] eqn:E; [destruct (v_signTime v >? v_signTime old)%Z; [|by left]|];
    (right; eexists; split; [| by destruct (v_trusted v)]; done).
Qed.

Lemma add_backed acquire now clk va n v :
  supplies acquire -> backed va -> backed (add acquire now clk va n v).2.
Proof.
  intros Ha H. destruct (add_cases acquire now clk va n v) as [E|(va1 & E1 & E2)].
  { by apply (view_backed va). }
  eapply view_backed; [exact E2|]. unfold view in E1.
  assert (backed va1) by (unfold backed; injection E1 as -> -> _ _; done).
  case_match; [by apply updateTrie_val_backed | done].
Qed.

Lemma trustChanged_backed acquire va added removed :
  supplies acquire -> backed va -> backed (trustChanged acquire va added removed).
Proof.
  intros Ha H. unfold trustChanged, backed. simpl. apply (fold_left_keeps _ backed); [|done].
  intros va' [n v] H'. repeat case_match; [by apply updateTrie_val_backed | by apply removeTrie_backed | done].
Qed.

Lemma flush_backed va : backed va -> backed (flush va).
Proof.
  intros H. unfold flush, backed. simpl. apply (fold_left_keeps _ backed); [|done].
  intros va' [n v]. apply removeTrie_backed.
Qed.

(** ** Each trusted validation is counted or awaited *)

Definition awaited va (n : Z) (k : N * Z) : Prop := exists ids, va_acquiring va !! k = Some ids /\ n ∈ ids.

Definition counted va (n id : Z) : Prop := exists l, va_lastLedger va !! n = Some l /\ lg_id l = id.

(** Only the ledger of the node's trusted current validation is awaited. *)
Definition awaits_current va (n : Z) : Prop :=
  forall k, awaited va n k -> exists v, va_current va !! n = Some v /\ v_trusted v = true /\ k = key_of v.

Definition tracked va (n : Z) : Prop :=
  awaits_current va n
  /\ forall v, va_current va !! n = Some v -> v_trusted v = true ->
       awaited va n (key_of v) \/ counted va n (v_ledgerID v).

Lemma view_tracked va va' n : view va' = view va -> tracked va n -> tracked va' n.
Proof. unfold view, tracked, awaits_current, awaited, counted. by intros [= _ -> -> ->]. Qed.

Lemma stop_acquiring_awaited va k n n' k' :
  awaited (stop_acquiring va k n) n' k' <-> awaited va n' k' /\ ~ (n' = n /\ k' = k).
Proof.
  unfold awaited, stop_acquiring. destruct (va_acquiring va !! k) as [ids|] eqn:E; simpl.
  - destruct (decide (k' = k)) as [->|Hk].
    + rewrite E. unfold constant. case_decide as Hd.
      * rewrite lookup_delete_eq. split; [by intros (? & ? & _)|]. intros [(? & [= <-] & Hin) Hn].
        destruct (decide (n' = n)); [naive_solver | set_solver].
      * rewrite lookup_insert_eq. split.
        -- intros (? & [= <-] & Hin). split; [exists ids|]; set_solver.
        -- intros [(? & [= <-] & Hin) Hn]. eexists. split; [done|]. destruct (decide (n' = n)); [naive_solver | set_solver].
    + unfold constant. case_decide; rewrite ?lookup_delete_ne, ?lookup_insert_ne by done; naive_solver.
  - split; [|by intros [? _]]. intros (ids & Hk & Hin). split; [by exists ids|]. intros [-> ->]. congruence.
Qed.

Lemma removeTrie_current va n v : va_current (removeTrie va n v) = va_current va.
Proof.
  unfold removeTrie. cbv zeta. destruct (stop_acquiring_frame va (v_seq v, v_ledgerID v) n) as (_ & _ & <-).
  by repeat case_match.
Qed.

Lemma removeTrie_awaited va n v n' k' :
  awaited (removeTrie va n v) n' k' <-> awaited va n' k' /\ ~ (n' = n /\ k' = key_of v).
Proof.
  unfold key_of. rewrite <- stop_acquiring_awaited. unfold removeTrie. cbv zeta.
  by repeat case_match.
Qed.

Lemma removeTrie_counted va n v n' id :
  n' <> n -> counted va n' id -> counted (removeTrie va n v) n' id.
Proof.
  intros Hn (l & Hl & Hid). exists l. split; [|done]. unfold removeTrie. cbv zeta.
  destruct (stop_acquiring_frame va (v_seq v, v_ledgerID v) n) as (_ & E & _). rewrite <- E in Hl.
  repeat case_match; try done. unfold constant; simpl. by rewrite lookup_delete_ne.
Qed.

(** ** One ledger for several nodes *)

Lemma updateTries_frame va ids l :
  let r := fold_left (fun va n => updateTrie va n l) ids va in
  va_acquiring r = va_acquiring va /\ va_current r = va_current va
  /\ forall n, va_lastLedger r !! n = if decide (n ∈ ids) then Some l else va_lastLedger va !! n.
Proof.
  revert va. induction ids as [|i ids IH]; intros va; simpl; [done|].
  destruct (IH (updateTrie va i l)) as (-> & -> & H). split_and!; [done..|]. intros n. rewrite H.
  unfold updateTrie, constant. simpl. destruct (decide (n = i)) as [->|Hn].
  - rewrite lookup_insert_eq. repeat case_decide; set_solver.
  - rewrite lookup_insert_ne by done. repeat case_decide; set_solver.
Qed.

(** A completed request leaves every node tracked. *)
Lemma acquired_tracked va n k ids l :
  let r := fold_left (fun va n => updateTrie va n l) (elements ids) va in
  let r := r {{ va_acquiring := delete k (va_acquiring r) }} in
  va_acquiring va !! k = Some ids -> lg_id l = k.2 ->
  (awaits_current va n -> awaits_current r n) /\ (tracked va n -> tracked r n).
Proof.
  intros r0 r Hk Hl. destruct (updateTries_frame va (elements ids) l) as (E1 & E2 & E3). fold r0 in E1, E2, E3.
  assert (Hcur : va_current r = va_current va) by done.
  assert (Haw : forall k', awaited r n k' <-> awaited va n k' /\ k' <> k).
  { intros k'. unfold awaited, r. simpl. unfold constant. rewrite E1. destruct (decide (k' = k)) as [->|H].
    - rewrite lookup_delete_eq. naive_solver.
    - rewrite lookup_delete_ne by done. naive_solver. }
  assert (Hac : awaits_current va n -> awaits_current r n).
  { intros H k' [Hk' _]%Haw. rewrite Hcur. by apply H. }
  split; [done|]. intros [H1 H2]. split; [by apply Hac|]. intros v Hv Ht. rewrite Hcur in Hv.
  destruct (decide (n ∈ ids)) as [Hin|Hin].
  - right. exists l. split; [|].
    + change (va_lastLedger r0 !! n = Some l). rewrite E3, decide_True by (by apply elem_of_elements). done.
    + destruct (H1 k) as (v' & Hv' & _ & ->); [by exists ids|]. by simplify_eq.
  - destruct (H2 v Hv Ht) as [Ha|(l' & Hl' & Hid)].
    + left. apply Haw. split; [done|]. intros <-. destruct Ha as (ids' & Hids & Hn). by simplify_eq.
    + right. exists l'. split; [|done]. change (va_lastLedger r0 !! n = Some l').
      rewrite E3, decide_False by (by rewrite elem_of_elements). done.
Qed.

Lemma checkAcquired_tracked acquire va n :
  supplies acquire ->
  let r := checkAcquired acquire va in
  va_current r = va_current va /\ (awaits_current va n -> awaits_current r n) /\ (tracked va n -> tracked r n).
Proof.
  intros Ha r. apply (fold_entries va_acquiring _ (fun r =>
    va_current r = va_current va /\ (awaits_current va n -> awaits_current r n) /\ (tracked va n -> tracked r n)));
    [|done].
  intros va' k ids (Hc & H1 & H2) Hk. destruct (acquire k.2) as [l|] eqn:E; [|done].
  destruct (Ha _ _ E) as [_ Hid]. destruct (acquired_tracked va' n k ids l Hk Hid) as [H3 H4].
  destruct (updateTries_frame va' (elements ids) l) as (E1 & E2 & _). split; [split_and!|].
  - etrans; [|exact Hc]. etrans; [|exact E2]. done.
  - auto.
  - auto.
  - intros k' Hne. simpl. unfold constant. by rewrite lookup_delete_ne, E1.
Qed.

(** What is still requested is not at hand. *)
Lemma checkAcquired_requested acquire va k ids :
  va_acquiring (checkAcquired acquire va) !! k = Some ids -> va_acquiring va !! k = Some ids /\ acquire k.2 = None.
Proof.
  unfold checkAcquired. intros Hk.
  set (f := fun (va : Validations L) '(k, ids) => _) in Hk.
  assert (forall l va', va_acquiring (fold_left f l va') !! k = Some ids ->
    va_acquiring va' !! k = Some ids /\ (k ∈ l.*1 -> acquire k.2 = None)) as Hgen.
  { intros l. induction l as [|[j js] l IH]; intros va' H; simpl in *; [split; [done | set_solver]|].
    apply IH in H as [H1 H2]. destruct (acquire j.2) as [led|] eqn:E.
    - destruct (updateTries_frame va' (elements js) led) as (E1 & _ & _). simpl in H1. unfold constant in H1.
      rewrite E1 in H1. apply lookup_delete_Some in H1 as [Hne H1]. split; [done|]. intros [->|?]%elem_of_cons; auto.
      done.
    - split; [done|]. intros [->|?]%elem_of_cons; auto. }
  apply Hgen in Hk as [H1 H2]. split; [done|]. apply H2, list_elem_of_fmap.
  exists (k, ids). split; [done|]. by apply elem_of_map_to_list.
Qed.

Lemma checkAcquired_awaited acquire va n k :
  awaited (checkAcquired acquire va) n k -> awaited va n k /\ acquire k.2 = None.
Proof. intros (ids & Hk & Hn). apply checkAcquired_requested in Hk as [H1 H2]. split; [by exists ids | done]. Qed.

(** Sending for the ledger of a node's trusted current validation. *)
Lemma request_tracked va r n v :
  va_current va !! n = Some v -> v_trusted v = true -> awaits_current va n ->
  va_acquiring r = <[key_of v := default ∅ (va_acquiring va !! key_of v) ∪ {[n]}]> (va_acquiring va) ->
  va_current r = va_current va -> va_lastLedger r = va_lastLedger va ->
  tracked r n /\ forall n', n' <> n -> tracked va n' -> tracked r n'.
Proof.
  intros Hv Ht H2 Er Ec El.
  assert (Ha' : forall n' k, awaited r n' k <-> awaited va n' k \/ (n' = n /\ k = key_of v)).
  { intros n' k. unfold awaited. rewrite Er. destruct (decide (k = key_of v)) as [->|Hk].
    - rewrite lookup_insert_eq. split.
      + intros (? & [= <-] & [Hin| ->%elem_of_singleton]%elem_of_union); [left | by right].
        destruct (va_acquiring va !! key_of v) as [ids|]; [by exists ids | set_solver].
      + intros H. eexists. split; [done|]. destruct H as [(ids & -> & Hin)|[-> _]]; set_solver.
    - rewrite lookup_insert_ne by done. naive_solver. }
  split.
  - split; [|intros w Hw _; left; apply Ha'; right; split; [done|]; congruence].
    intros k [Hk|[_ ->]]%Ha'; rewrite Ec; [by apply H2 | by exists v].
  - intros n' Hn [T1 T2]. unfold tracked, awaits_current, counted. rewrite Ec, El. split.
    + intros k [Hk|[? _]]%Ha'; [by apply T1 | done].
    + intros w Hw Hwt. destruct (T2 w Hw Hwt) as [?|?]; [left; apply Ha'; by left | by right].
Qed.

(** The request for the prior ledger is dropped. *)
Lemma drop_prior_tracked va n v prior :
  va_current va !! n = Some v -> v_trusted v = true ->
  (forall k, awaited va n k -> k = key_of v \/ prior = Some k) ->
  let r := match prior with Some k => stop_acquiring va k n | None => va end in
  va_current r = va_current va /\ awaits_current r n /\ forall n', n' <> n -> tracked va n' -> tracked r n'.
Proof.
  intros Hv Ht Haw r.
  assert (Hr : va_lastLedger r = va_lastLedger va /\ va_current r = va_current va
    /\ forall n' k, awaited r n' k <-> awaited va n' k /\ ~ (n' = n /\ prior = Some k)).
  { subst r. destruct prior as [k|]; [|split_and!; [done..|]; naive_solver].
    destruct (stop_acquiring_frame va k n) as (_ & -> & ->). split_and!; [done..|].
    intros n' k'. rewrite stop_acquiring_awaited. naive_solver. }
  destruct Hr as (El & Ec & Ea). split_and!; [done| |].
  - intros k [Hk Hn]%Ea. rewrite Ec. exists v. split_and!; [done..|]. destruct (Haw k Hk); naive_solver.
  - intros n' Hn [T1 T2]. unfold tracked, awaits_current, counted. rewrite El, Ec. split.
    + intros k [Hk _]%Ea. auto.
    + intros w Hw Hwt. destruct (T2 w Hw Hwt) as [?|?]; [left; apply Ea; naive_solver | by right].
Qed.

(** A trusted validation that has just become current is tracked. *)
Lemma updateTrie_val_tracked acquire va n v prior :
  supplies acquire -> va_current va !! n = Some v -> v_trusted v = true ->
  (forall k, awaited va n k -> k = key_of v \/ prior = Some k) ->
  let r := updateTrie_val acquire va n v prior in
  va_current r = va_current va /\ tracked r n /\ forall n', n' <> n -> tracked va n' -> tracked r n'.
Proof.
  intros Ha Hv Ht Haw. unfold updateTrie_val. cbv zeta.
  pose proof (drop_prior_tracked va n v prior Hv Ht Haw) as H1. cbv zeta in H1.
  set (va1 := match prior with Some k => stop_acquiring va k n | None => va end) in *. clearbody va1.
  destruct H1 as (Ec & H1 & H1'). set (va2 := checkAcquired acquire va1).
  assert (Hc2 : va_current va2 = va_current va) by (rewrite <- Ec; by apply (checkAcquired_tracked acquire va1 n)).
  assert (H2 : awaits_current va2 n) by exact (proj1 (proj2 (checkAcquired_tracked acquire va1 n Ha)) H1).
  assert (H2' : forall n', n' <> n -> tracked va n' -> tracked va2 n').
  { intros n' Hn HT. apply (proj2 (proj2 (checkAcquired_tracked acquire va1 n' Ha))). auto. }
  clearbody va2. rewrite <- Hc2 in *. change (v_seq v, v_ledgerID v) with (key_of v).
  destruct (va_acquiring va2 !! key_of v) as [ids|] eqn:E; [|destruct (acquire (v_ledgerID v)) as [l|] eqn:El].
  - match goal with |- va_current ?r = _ /\ _ => destruct (request_tracked va2 r n v) as [R1 R2] end;
      try done; [by rewrite E|]. split_and!; [done | exact R1 | auto].
  - destruct (Ha _ _ El) as [_ Hid]. unfold updateTrie. split; [done|].
    unfold tracked, awaits_current, counted, awaited. simpl. unfold constant. split.
    + split; [done|]. intros w Hw _. right. exists l. rewrite lookup_insert_eq. split; [done|].
      change (va_current va2 !! n = Some w) in Hw. congruence.
    + intros n' Hn HT%(H2' n' Hn). by rewrite lookup_insert_ne.
  - match goal with |- va_current ?r = _ /\ _ => destruct (request_tracked va2 r n v) as [R1 R2] end;
      try done; [rewrite E; simpl; by rewrite (left_id_L ∅ (∪))|]. split_and!; [done | exact R1 | auto].
Qed.

(** ** The operations keep every node tracked *)

Lemma tracked_others va r n n' :
  n' <> n -> va_acquiring r = va_acquiring va -> va_lastLedger r = va_lastLedger va ->
  va_current r !! n' = va_current va !! n' -> tracked va n' -> tracked r n'.
Proof. intros Hn Ea El Ec. unfold tracked, awaits_current, awaited, counted. by rewrite Ea, El, Ec. Qed.

(** A node whose validation is no longer used. *)
Lemma dropped_tracked va r n v :
  (forall n', tracked va n') -> va_current va !! n = Some v ->
  (forall n' k, awaited r n' k <-> awaited va n' k /\ ~ (n' = n /\ k = key_of v)) ->
  (forall n' id, n' <> n -> counted va n' id -> counted r n' id) ->
  (forall n', n' <> n -> va_current r !! n' = va_current va !! n') ->
  (forall w, va_current r !! n = Some w -> v_trusted w = false) ->
  forall n', tracked r n'.
Proof.
  intros HT Hv Ha Hc Hcur Hn n'. destruct (HT n') as [T1 T2]. destruct (decide (n' = n)) as [->|Hne].
  - split; [|intros w Hw Hwt; by rewrite (Hn w Hw) in Hwt]. intros k [Hk Hneq]%Ha.
    destruct (T1 k Hk) as (w & Hw & _ & ->). simplify_eq. naive_solver.
  - unfold tracked, awaits_current. rewrite Hcur by done. split.
    + intros k [Hk _]%Ha. auto.
    + intros w Hw Hwt. destruct (T2 w Hw Hwt) as [?|?]; [left; apply Ha; naive_solver | right; by apply Hc].
Qed.

Lemma flush_stale_tracked now va : (forall n, tracked va n) -> forall n, tracked (flush_stale now va) n.
Proof.
  intros HT. apply (fold_entries va_current _ (fun va => forall n, tracked va n)); [|done].
  intros va' n v H Hv. case_match; [done|]. pose proof (removeTrie_current va' n v) as Ec. split.
  - eapply (dropped_tracked va'); [done | exact Hv | intros; apply (removeTrie_awaited va' n v) | | |].
    + intros n' id Hn. by apply (removeTrie_counted va' n v).
    + intros n' Hn. simpl. unfold constant. by rewrite lookup_delete_ne, Ec.
    + intros w. simpl. unfold constant. by rewrite lookup_delete_eq.
  - intros n' Hn. simpl. unfold constant. by rewrite lookup_delete_ne, Ec.
Qed.

Lemma withTrie_tracked acquire now va :
  supplies acquire -> (forall n, tracked va n) -> forall n, tracked (withTrie acquire now va) n.
Proof.
  intros Ha HT n. apply (proj2 (proj2 (checkAcquired_tracked acquire (flush_stale now va) n Ha))).
  by apply flush_stale_tracked.
Qed.

(** An untrusted validation does not replace a trusted one. *)
Definition flags_agree va (n : Z) (v : Validation) : Prop :=
  v_trusted v = false -> forall old, va_current va !! n = Some old -> v_trusted old = false.

Lemma add_tracked acquire now clk va n v :
  supplies acquire -> flags_agree va n v -> (forall n, tracked va n) ->
  forall n', tracked (add acquire now clk va n v).2 n'.
Proof.
  intros Ha Hf HT n'. destruct (add_cases acquire now clk va n v) as [E|(va1 & E1 & E2)];
    (eapply view_tracked; [eassumption|]); [done|].
  unfold view in E1. injection E1 as _ El Eq Ec.
  assert (Ho : forall n', n' <> n -> tracked va1 n').
  { intros m Hm. apply (tracked_others va _ n); try done. by rewrite Ec, lookup_insert_ne. }
  assert (Hn : va_current va1 !! n = Some v) by (by rewrite Ec, lookup_insert_eq).
  assert (Haw : forall k, awaited va1 n k -> exists old, va_current va !! n = Some old /\ v_trusted old = true /\ k = key_of old).
  { intros k Hk. apply (HT n). unfold awaited in *. by rewrite <- Eq. }
  destruct (v_trusted v) eqn:Et.
  - destruct (updateTrie_val_tracked acquire va1 n v (key_of <$> va_current va !! n) Ha Hn Et) as (_ & R1 & R2).
    { intros k (old & -> & _ & ->)%Haw. by right. }
    destruct (decide (n' = n)) as [->|?]; auto.
  - destruct (decide (n' = n)) as [->|?]; [|auto]. split; [|intros w Hw; rewrite Hn in Hw; congruence].
    intros k (old & Ho1 & Ho2 & _)%Haw. by rewrite (Hf Et old Ho1) in Ho2.
Qed.

Lemma trustChanged_tracked acquire va added removed :
  supplies acquire -> (forall n, tracked va n) -> forall n, tracked (trustChanged acquire va added removed) n.
Proof.
  intros Ha HT n. unfold trustChanged. eapply view_tracked; [done|].
  apply (fold_entries va_current _ (fun va => forall n, tracked va n)); [|done]. clear n HT va. intros va n v H Hv.
  case_decide; [|case_decide; [|done]].
  - set (v' := set_trusted true v). set (va1 := va {{ va_current := _ }}).
    assert (Hc1 : va_current va1 = <[n := v']> (va_current va)) by done.
    destruct (updateTrie_val_tracked acquire va1 n v' None Ha) as (R1 & R2 & R3).
    { by rewrite Hc1, lookup_insert_eq. }
    { done. }
    { intros k Hk. left. destruct (H n) as [H1 _]. destruct (H1 k Hk) as (w & Hw & _ & ->). by simplify_eq. }
    split; [|intros n' Hn; by rewrite R1, Hc1, lookup_insert_ne]. intros n'.
    destruct (decide (n' = n)) as [->|Hn]; [done|]. apply R3; [done|].
    apply (tracked_others va _ n); try done. by rewrite Hc1, lookup_insert_ne.
  - set (v' := set_trusted false v). set (va1 := va {{ va_current := _ }}).
    assert (Hc1 : va_current va1 = <[n := v']> (va_current va)) by done.
    pose proof (removeTrie_current va1 n v') as Ec. rewrite Hc1 in Ec. split.
    + eapply (dropped_tracked va); [done | exact Hv | intros; apply (removeTrie_awaited va1 n v') | | |].
      * intros n' id Hn. by apply (removeTrie_counted va1 n v').
      * intros n' Hn. by rewrite Ec, lookup_insert_ne.
      * intros w. rewrite Ec, lookup_insert_eq. by intros [= <-].
    + intros n' Hn. by rewrite Ec, lookup_insert_ne.
Qed.

Lemma flush_tracked va : (forall n, tracked va n) -> forall n, tracked (flush va) n.
Proof.
  intros HT n. unfold flush. split; [|by intros v; simpl; unfold constant; rewrite lookup_empty].
  set (r := fold_left _ _ va). intros k Hk. exfalso. change (awaited r n k) in Hk.
  assert (forall l va', awaited (fold_left (fun va '(n, v) => removeTrie va n v) l va') n k ->
    awaited va' n k /\ forall v, (n, v) ∈ l -> k <> key_of v) as Hgen.
  { intros l. induction l as [|[n' v] l IH]; intros va' H; simpl in *; [split; [done|]; set_solver|].
    apply IH in H as [[H1 H2]%removeTrie_awaited H3]. split; [done|].
    intros w [[= -> ->]|Hin]%elem_of_cons; [naive_solver | by apply H3]. }
  apply Hgen in Hk as [H1 H2]. destruct (HT n) as [T1 _]. destruct (T1 k H1) as (v & Hv & _ & ->).
  by apply (H2 v); [apply elem_of_map_to_list|].
Qed.

End Props.
