(* ===== verification/ValidationsTheorems.v ===== *)
(** * Validations: theorems on every history

    [reached] is the set of states that sequences of operations lead to; the
    theorems are about what the trie and the queries say in such a state. *)

From S2P Require Import Prelude LedgerTrie LedgerTrieProps ValidatedLedger.
From S2P Require Import LedgerTrieSpec LedgerTriePreferred Validations ValidationsProps.
From coqutil Require Import Datatypes.RecordSetters.
Import DoubleBraceUpdate.

#[local] Open Scope N_scope.

Section Histories.

Context {L : Type} {LO : LedgerOps L} (ok : L -> Prop) {LL : LedgerLaws ok}.
Implicit Types (va : Validations L).

(** ** Operations as events *)

Inductive VEvent :=
| Add (acquire : Z -> option L) (now clk : Z) (nodeID : Z) (val : Validation)
| TrustChanged (acquire : Z -> option L) (added removed : gset Z)
| GetPreferred (acquire : Z -> option L) (now : Z) (curr : L)
| GetNodesAfter (acquire : Z -> option L) (now : Z) (ledger : L) (ledgerID : Z)
| Current (now : Z)
| ByLedger (clk : Z) (ledgerID : Z)
| Expire (clk : Z)
| Flush
| CanValidateSeq (clk : Z) (s : N)
| SetSeqToKeep (s : N)
| SetLastValidations (vals : list Validation)
| SetValSeqExpires (ms : Z).

Definition vstep va (ev : VEvent) : Validations L :=
  match ev with
  | Add acquire now clk nodeID val => (add acquire now clk va nodeID val).2
  | TrustChanged acquire added removed => trustChanged acquire va added removed
  | GetPreferred acquire now curr => (getPreferred_at acquire now va curr).2
  | GetNodesAfter acquire now ledger ledgerID => (getNodesAfter acquire now va ledger ledgerID).2
  | Current now => (current now va).2
  | ByLedger clk ledgerID => (byLedger clk va ledgerID).2
  | Expire clk => expire clk va
  | Flush => flush va
  | CanValidateSeq clk s => (canValidateSeq va clk s).2
  | SetSeqToKeep s => setSeqToKeep va s
  | SetLastValidations vals => setLastValidations va vals
  | SetValSeqExpires ms => setValSeqExpires va ms
  end.

Definition ev_ok (ev : VEvent) : Prop :=
  match ev with
  | Add acquire _ _ _ _ | TrustChanged acquire _ _ | GetPreferred acquire _ _
  | GetNodesAfter acquire _ _ _ => supplies ok acquire
  | _ => True
  end.

Inductive reached (p : ValidationParms) (e : Z) : Validations L -> Prop :=
| reached_new : reached p e (Validations_new p e)
| reached_step va ev : reached p e va -> ev_ok ev -> reached p e (vstep va ev).

(** Histories in which no untrusted validation replaces a trusted one. *)
Definition ev_flags va (ev : VEvent) : Prop :=
  match ev with Add _ _ _ nodeID val => flags_agree va nodeID val | _ => True end.

Inductive reached_trusted (p : ValidationParms) (e : Z) : Validations L -> Prop :=
| trusted_new : reached_trusted p e (Validations_new p e)
| trusted_step va ev :
    reached_trusted p e va -> ev_ok ev -> ev_flags va ev -> reached_trusted p e (vstep va ev).

(** The remaining operations do not touch the trie. *)
Lemma vstep_view va ev :
  match ev with
  | ByLedger _ _ | Expire _ | CanValidateSeq _ _ | SetSeqToKeep _ | SetLastValidations _
  | SetValSeqExpires _ => view (vstep va ev) = view va
  | _ => True
  end.
Proof.
  destruct va, ev; simpl; try done.
  - unfold byLedger. simpl. by repeat case_match.
  - unfold canValidateSeq. simpl. by case_match.
  - unfold setLastValidations. simpl. by repeat case_match.
Qed.

Lemma vstep_backed va ev : ev_ok ev -> backed ok va -> backed ok (vstep va ev).
Proof.
  intros He H. pose proof (vstep_view va ev) as Hv.
  destruct ev; try (by apply (view_backed ok va)); cbn [vstep ev_ok] in *.
  - by apply add_backed.
  - by apply trustChanged_backed.
  - by apply withTrie_backed.
  - unfold getNodesAfter. case_match; [by apply withTrie_backed | done].
  - by apply flush_stale_backed.
  - by apply flush_backed.
Qed.

Lemma reached_backed p e va : reached p e va -> backed ok va.
Proof. induction 1; [apply backs_empty; typeclasses eauto | by apply vstep_backed]. Qed.

Lemma vstep_tracked va ev :
  ev_ok ev -> ev_flags va ev -> (forall n, tracked va n) -> forall n, tracked (vstep va ev) n.
Proof.
  intros He Hf H n. pose proof (vstep_view va ev) as Hv.
  destruct ev; try (by apply (view_tracked va)); cbn [vstep ev_ok ev_flags] in *.
  - by apply (add_tracked ok).
  - by apply (trustChanged_tracked ok).
  - by apply (withTrie_tracked ok).
  - unfold getNodesAfter. case_match; [by apply (withTrie_tracked ok) | done].
  - by apply (flush_stale_tracked ok).
  - by apply (flush_tracked ok).
Qed.

Lemma reached_trusted_tracked p e va : reached_trusted p e va -> reached p e va /\ forall n, tracked va n.
Proof.
  induction 1 as [|va ev _ [H1 H2] He Hf]; [|split; [by constructor | by apply vstep_tracked]].
  split; [constructor|]. intros n. split; [intros k (ids & H & _) | intros v H]; simpl in H; by rewrite lookup_empty in H.
Qed.

(** ** Counting nodes *)

Definition has_id (id : Z) : L -> N -> bool := fun l _ => (lg_id l =? id)%Z.
Definition strictly_after l : L -> N -> bool := fun m s => descends l m s && negb (is_point l m s).

Lemma voters_ext P Q m :
  map_Forall (fun _ l => P l (lg_seq l) = Q l (lg_seq l)) m -> voters P m = voters Q m.
Proof.
  intros H. unfold voters. do 2 f_equal. apply map_filter_ext. intros i l Hi. simpl. by rewrite (H i l Hi).
Qed.

Lemma voters_split P Q m : voters P m = voters (fun l s => P l s && Q l s) m + voters (fun l s => P l s && negb (Q l s)) m.
Proof.
  induction m as [|n l m Hn IH] using map_ind; [by unfold voters; rewrite !map_filter_empty, map_size_empty|].
  rewrite !voters_fresh by done. rewrite IH. destruct (P l _), (Q l _); simpl; lia.
Qed.

Lemma backed_tip va l : backed ok va -> ok l -> tipSupport (va_trie va) l = voters (has_id (lg_id l)) (va_lastLedger va).
Proof.
  intros (Hm & σ & HR & Ht) Hl. rewrite (represents_tip ok _ _ _ HR Hl).
  rewrite <- (count_point ok σ l (rep_good ok _ _ HR) Hl), Ht by (by apply respects_point).
  apply voters_ext. intros n m Hn. unfold is_point, has_id. by rewrite <- (id_ancestor m (Hm n m Hn)).
Qed.

Lemma backed_branch va l : backed ok va -> ok l -> branchSupport (va_trie va) l = voters (descends l) (va_lastLedger va).
Proof.
  intros (Hm & σ & HR & Ht) Hl. rewrite (represents_branch ok _ _ _ HR Hl). apply Ht. by apply respects_descends.
Qed.

(** The difference of the supports of a ledger. *)
Lemma backed_after va l :
  backed ok va -> ok l ->
  branchSupport (va_trie va) l - tipSupport (va_trie va) l = voters (strictly_after l) (va_lastLedger va).
Proof.
  intros H Hl. rewrite (backed_tip va l H Hl), (backed_branch va l H Hl). destruct H as (Hm & _).
  rewrite (voters_split (descends l) (is_point l)).
  rewrite (voters_ext (fun m s => descends l m s && is_point l m s) (has_id (lg_id l))).
  { unfold strictly_after. lia. }
  intros n m Hn. unfold has_id, is_point, descends. pose proof (Hm n m Hn) as Hok. rewrite <- (id_ancestor m Hok).
  destruct (Z.eqb_spec (lg_id m) (lg_id l)) as [E|E]; [|by rewrite andb_false_r].
  rewrite (id_seq ok m l Hok Hl E), N.leb_refl. simpl. rewrite <- (id_seq ok m l Hok Hl E), <- (id_ancestor m Hok).
  by rewrite E, Z.eqb_refl.
Qed.

(** ** Validations that are counted *)

(** The nodes whose current validation is trusted and for the ledger. *)
Definition validators_of va (id : Z) : gmap Z Validation :=
  filter (fun e => v_trusted e.2 = true /\ v_ledgerID e.2 = id) (va_current va).

Lemma counted_le va l :
  backed ok va -> ok l ->
  (forall n v, va_current va !! n = Some v -> v_trusted v = true -> v_ledgerID v = lg_id l -> counted va n (lg_id l)) ->
  N.of_nat (size (validators_of va (lg_id l))) <= tipSupport (va_trie va) l.
Proof.
  intros H Hl Hc. rewrite (backed_tip va l H Hl). unfold voters.
  enough (size (validators_of va (lg_id l))
    <= size (filter (fun e => has_id (lg_id l) e.2 (lg_seq e.2) = true) (va_lastLedger va)))%nat by lia.
  rewrite <- !(size_dom (D := gset Z)). apply subseteq_size. intros n [v Hn]%elem_of_dom.
  apply map_lookup_filter_Some in Hn as [Hv [Ht Hid]]. destruct (Hc n v Hv Ht Hid) as (m & Hm & Hmid).
  apply elem_of_dom. exists m. apply map_lookup_filter_Some. split; [done|]. simpl. unfold has_id. by apply Z.eqb_eq.
Qed.

Lemma removeTrie_parms va n v : va_parms (removeTrie va n v) = va_parms va.
Proof.
  assert (E : forall k, va_parms (stop_acquiring va k n) = va_parms va)
    by (intros k; unfold stop_acquiring; by case_match).
  unfold removeTrie. cbv zeta. rewrite <- (E (v_seq v, v_ledgerID v)). case_match; [|done].
  by destruct (_ =? _)%Z.
Qed.

(** Exactly the stale validations are flushed. *)
Lemma flush_stale_current now va n v :
  va_current (flush_stale now va) !! n = Some v <->
  va_current va !! n = Some v /\ isCurrent (va_parms va) now (v_signTime v) (v_seenTime v) = true.
Proof.
  unfold flush_stale. set (f := fun (va : Validations L) '(nodeID, val) => _).
  assert (Hf : forall va' n' w, va_parms (f va' (n', w)) = va_parms va' /\ va_current (f va' (n', w))
    = if isCurrent (va_parms va') now (v_signTime w) (v_seenTime w) then va_current va' else delete n' (va_current va')).
  { intros va' n' w. unfold f. case_match; [done|]. split.
    - apply removeTrie_parms.
    - simpl. unfold constant. by rewrite removeTrie_current. }
  clearbody f. enough (forall es va', NoDup es.*1 -> (forall w, (n, w) ∈ es -> va_current va' !! n = Some w) ->
    va_current (fold_left f es va') !! n = Some v <-> va_current va' !! n = Some v
    /\ ((n, v) ∈ es -> isCurrent (va_parms va') now (v_signTime v) (v_seenTime v) = true)) as ->.
  - setoid_rewrite elem_of_map_to_list. naive_solver.
  - apply NoDup_fst_map_to_list.
  - intros w. by rewrite elem_of_map_to_list.
  - intros es. induction es as [|[n' w] es IH]; intros va' Hnd Hes; simpl; [set_solver|].
    apply NoDup_cons in Hnd as [Hn' Hnd]. destruct (Hf va' n' w) as [E1 E2].
    destruct (decide (n' = n)) as [->|Hn].
    + assert (Hw : va_current va' !! n = Some w) by (apply Hes; by left).
      assert (Hno : forall u, (n, u) ∉ es) by (intros u Hu; apply Hn', list_elem_of_fmap; by exists (n, u)).
      rewrite IH by naive_solver. rewrite E1, E2. case_match; rewrite ?lookup_delete_eq, elem_of_cons; naive_solver congruence.
    + rewrite IH; [| done |].
      * rewrite E1, E2. case_match; rewrite ?lookup_delete_ne by done; rewrite elem_of_cons; naive_solver.
      * intros u Hu. rewrite E2. case_match; rewrite ?lookup_delete_ne by done; apply Hes; by right.
Qed.

(** ** Validations that are no longer used *)

(** A ledger of the node other than its current validation's is not removed. *)
Lemma removeTrie_keeps va n v n' l :
  va_lastLedger va !! n' = Some l -> (n = n' -> v_ledgerID v <> lg_id l) ->
  va_lastLedger (removeTrie va n v) !! n' = Some l.
Proof.
  intros Hl Hne. unfold removeTrie. cbv zeta.
  destruct (stop_acquiring_frame va (v_seq v, v_ledgerID v) n) as (_ & E & _). rewrite <- E in Hl.
  destruct (va_lastLedger (stop_acquiring _ _ _) !! n) as [l0|] eqn:E0; [|done].
  destruct (Z.eqb_spec (lg_id l0) (v_ledgerID v)) as [Eid|]; [|done].
  simpl. unfold constant. destruct (decide (n = n')) as [->|Hn].
  - destruct (Hne eq_refl). congruence.
  - by rewrite lookup_delete_ne.
Qed.

Lemma flush_keeps va n v l :
  va_lastLedger va !! n = Some l -> va_current va !! n = Some v -> v_ledgerID v <> lg_id l ->
  va_lastLedger (flush va) !! n = Some l.
Proof.
  intros Hl Hv Hne. change (va_lastLedger (fold_left (fun va '(n, v) => removeTrie va n v)
    (map_to_list (va_current va)) va) !! n = Some l).
  apply (fold_entries va_current _ (fun r => va_lastLedger r !! n = Some l /\ va_current r !! n = Some v)); [|done].
  intros r n' v' [H1 H2] Hv'. rewrite removeTrie_current. split; [split; [|done] | done].
  apply removeTrie_keeps; [done|]. intros ->. by simplify_eq.
Qed.

Lemma untrust_keeps acquire va n v l :
  va_lastLedger va !! n = Some l -> va_current va !! n = Some v -> v_ledgerID v <> lg_id l ->
  let r := trustChanged acquire va ∅ {[n]} in
  va_lastLedger r !! n = Some l /\ va_current r !! n = Some (set_trusted false v).
Proof.
  intros Hl Hv Hne. unfold trustChanged. set (f := fun (va : Validations L) '(nodeID, val) => _).
  enough (forall es va', NoDup es.*1 -> va_lastLedger va' !! n = Some l ->
    (forall w, (n, w) ∈ es -> w = v) ->
    va_lastLedger (fold_left f es va') !! n = Some l
    /\ va_current (fold_left f es va') !! n
       = if decide (n ∈ es.*1) then Some (set_trusted false v) else va_current va' !! n) as Hgen.
  { destruct (Hgen (map_to_list (va_current va)) va (NoDup_fst_map_to_list _) Hl) as [R1 R2].
    - intros w Hw%elem_of_map_to_list. congruence.
    - cbv zeta. split; [exact R1|]. etrans; [exact R2|]. rewrite decide_True; [done|].
      apply list_elem_of_fmap. exists (n, v). split; [done|]. by apply elem_of_map_to_list. }
  assert (Hf : forall va' n' w, f va' (n', w) = if decide (n' = n)
    then removeTrie (va' {{ va_current := <[n' := set_trusted false w]> (va_current va') }}) n' (set_trusted false w)
    else va') by (intros; unfold f; repeat case_decide; set_solver).
  clearbody f. intros es. induction es as [|[n' w] es IH]; intros va' Hnd Hl' Hes; simpl; [done|].
  apply NoDup_cons in Hnd as [Hn' Hnd]. assert (Hes' : forall w, (n, w) ∈ es -> w = v) by (intros; apply Hes; by right).
  rewrite Hf. destruct (decide (n' = n)) as [->|Hn].
  - rewrite (Hes w) by (by left).
    match goal with |- context [fold_left f es ?r] => destruct (IH r Hnd) as [R1 R2] end;
      [by apply removeTrie_keeps | done |].
    split; [exact R1|]. etrans; [exact R2|]. rewrite decide_False by done. rewrite decide_True by set_solver.
    rewrite removeTrie_current. simpl. unfold constant. by rewrite lookup_insert_eq.
  - destruct (IH va' Hnd Hl' Hes') as [-> ->]. split; [done|]. repeat case_decide; set_solver.
Qed.

(** ** The preferred ledger *)

Lemma most_acquired_in (m : gmap (N * Z) (gset Z)) k : most_acquired m = Some k -> is_Some (m !! k).
Proof.
  unfold most_acquired. destruct (map_to_list m) as [|e es] eqn:E; [done|]. intros [= <-].
  assert (forall es e, (e :: es) ⊆ map_to_list m ->
    is_Some (m !! (fold_left (fun best e => if (size best.2 <? size e.2)%nat
      || ((size best.2 =? size e.2)%nat && (best.1.2 <? e.1.2)%Z) then e else best) es e).1)) as Hgen.
  { clear. intros es. induction es as [|e' es IH]; intros e Hsub; simpl.
    - destruct e as [k ids]. exists ids. apply elem_of_map_to_list, Hsub. by left.
    - case_match; apply IH; set_solver. }
  apply Hgen. by rewrite E.
Qed.

Lemma withTrie_parms acquire now va : va_parms (withTrie acquire now va) = va_parms va.
Proof.
  unfold withTrie, checkAcquired. apply (fold_left_keeps _ (fun r => va_parms r = va_parms va)).
  - intros r [k ids] H. case_match; [|done]. etrans; [|exact H].
    apply (fold_left_keeps (fun va n => updateTrie va n _) (fun x => va_parms x = va_parms r)); [|done].
    intros r' n H'. etrans; [|exact H']. done.
  - unfold flush_stale. apply (fold_left_keeps _ (fun r => va_parms r = va_parms va)); [|done].
    intros r [n v] H. case_match; [done|]. etrans; [|exact H]. apply removeTrie_parms.
Qed.

(** Using the trie again at once changes nothing. *)
Lemma withTrie_idem acquire now va :
  supplies ok acquire -> withTrie acquire now (withTrie acquire now va) = withTrie acquire now va.
Proof.
  intros Ha. unfold withTrie at 1. set (r := withTrie acquire now va).
  assert (Hc : va_current r = va_current (flush_stale now va))
    by exact (proj1 (checkAcquired_tracked ok acquire (flush_stale now va) 0 Ha)).
  assert (flush_stale now r = r) as ->.
  { apply fold_left_id. intros [n v] Hin%elem_of_map_to_list. rewrite Hc in Hin.
    apply (flush_stale_current now va n v) in Hin as [_ Hcur].
    assert (va_parms r = va_parms va) as -> by apply withTrie_parms. by rewrite Hcur. }
  apply fold_left_id. intros [k ids] Hin%elem_of_map_to_list. destruct (acquire k.2) as [l|] eqn:E; [|done].
  exfalso. apply (checkAcquired_requested ok) in Hin as [_ Hin]. congruence.
Qed.

(** A ledger preferred to another one, once acquired, is preferred to itself. *)
Lemma preferred_self acquire now va minValidSeq l l1 :
  let pref l := (getPreferred_above acquire now va l minValidSeq).1 in
  backed ok va -> supplies ok acquire ->
  pref l <> lg_id l -> acquire (pref l) = Some l1 -> pref l1 = lg_id l1.
Proof.
  intros pref HB Ha. unfold pref, getPreferred_above, getPreferred_at.
  pose proof (withTrie_backed ok acquire now va Ha HB) as (_ & σ & HR & _).
  set (r := withTrie acquire now va) in *.
  destruct (getPreferred (va_trie r) _) as [tp|] eqn:Ep; cbn [fst].
  - destruct (getPreferred_tip ok _ _ _ _ HR Ep) as (m & Hm & Hseq & Hid).
    assert (Hl1 : forall l1, ok l1 -> lg_id l1 = st_id tp -> lg_seq l1 = st_seq tp).
    { intros x Hx Hxid. rewrite (id_ancestor x Hx), Hid in Hxid.
      by destruct (id_unique x m (lg_seq x) (st_seq tp) Hx Hm ltac:(lia) Hseq Hxid) as [-> _]. }
    intros Hne Hq. assert (Hx : lg_id l1 = st_id tp /\ minValidSeq <= st_seq tp).
    { destruct (Ha _ _ Hq) as [_ Hlid]. revert Hne Hlid. repeat case_match; simplify_eq/=; try done;
      intros _ E; split; try done; by apply N.leb_le. }
    destruct (Ha _ _ Hq) as [Hok _]. destruct Hx as [Hxid Hmin]. pose proof (Hl1 l1 Hok Hxid) as Hxs.
    rewrite <- Hxs, N.ltb_irrefl, <- (id_ancestor l1 Hok), Hxid, Z.eqb_refl. cbn [negb].
    clear Hne Hq. repeat case_match; by simplify_eq.
  - destruct (most_acquired (va_acquiring r)) as [[s id]|] eqn:Em; [|done]. intros Hne Hq. exfalso.
    destruct (minValidSeq <=? s); [|done]. destruct (Ha _ _ Hq) as [_ Hlid].
    apply most_acquired_in in Em as [ids Hids]. apply (checkAcquired_requested ok) in Hids as [_ Hids]. simpl in *. congruence.
Qed.

End Histories.

Arguments VEvent L : clear implicits.

(** ** Example: three nodes on a forked chain *)

Module ToyValidations.

Import ToyLedgers.

(** Ledger 32 is not at hand; once it is, [all] supplies it. *)
Definition some (id : Z) : option RCLValidatedLedger :=
  if (id =? 11)%Z then Some l11 else if (id =? 21)%Z then Some l21 else if (id =? 22)%Z then Some l22 else None.
Definition all (id : Z) : option RCLValidatedLedger := if (id =? 32)%Z then Some l32 else some id.

Lemma ok_ledgers : complete hist l11 /\ complete hist l21 /\ complete hist l22 /\ complete hist l32.
Proof. unfold complete. simpl. split_and!; try lia; by right. Qed.

Lemma some_ok : supplies (complete hist) some.
Proof. destruct ok_ledgers as (? & ? & ? & ?). intros id l. unfold some. repeat case_match; btests; naive_solver. Qed.

Lemma all_ok : supplies (complete hist) all.
Proof. destruct ok_ledgers as (? & ? & ? & ?). intros id l. unfold all. case_match; btests; [naive_solver | apply some_ok]. Qed.

Definition val (id : Z) (seq : N) (signed : Z) : Validation :=
  mkValidation id seq signed signed [] true true None 0.

Definition start := Validations_new (L := RCLValidatedLedger) ValidationParms_default 10000.

(** Node 1 validates 11 and then 32, nodes 2 and 3 the two ledgers between. *)
Definition history : list (VEvent RCLValidatedLedger) :=
  [Add some 1000 0 1 (val 11 1 1000); Add some 1001 0 2 (val 21 2 1001); Add some 1002 0 3 (val 22 2 1002);
   Add some 1003 0 1 (val 32 3 1003)].

Definition state := fold_left vstep history start.

Lemma state_reached : reached_trusted (complete hist) ValidationParms_default 10000 state.
Proof.
  unfold state.
  assert (forall va es, reached_trusted (complete hist) ValidationParms_default 10000 va ->
    (forall ev va, ev ∈ es -> ev_ok (complete hist) ev /\ ev_flags va ev) ->
    reached_trusted (complete hist) ValidationParms_default 10000 (fold_left vstep es va)) as H.
  { intros va es. revert va. induction es as [|ev es IH]; intros va H1 H2; [done|]. cbn [fold_left].
    destruct (H2 ev va) as [? ?]; [by left|]. apply IH; [by constructor|]. intros. apply H2. by right. }
  apply H; [constructor|]. intros ev va Hin. unfold history in Hin. rewrite !elem_of_cons in Hin.
  destruct Hin as [->|[->|[->|[->|[]%elem_of_nil]]]]; split; try apply some_ok; by intros ?.
Qed.

End ToyValidations.

(** ** Theorems *)

(** C8: the trie counts nodes.  After any history of operations, whatever the
    trust flags, the trie passes its invariant check; the tip support of a
    ledger is the number of nodes whose last acquired ledger it is, its branch
    support the number of nodes whose last ledger is it or a descendant, and
    [getNodesAfter] returns the number of those on a proper descendant. *)
Theorem support_counts_nodes {L : Type} {LO : LedgerOps L} (ok : L -> Prop) {LL : LedgerLaws ok}
    (p : ValidationParms) (e : Z) (va : Validations L) (l : L) :
  reached ok p e va -> ok l ->
  checkInvariants (va_trie va) = true
  /\ tipSupport (va_trie va) l = voters (has_id (lg_id l)) (va_lastLedger va)
  /\ branchSupport (va_trie va) l = voters (descends l) (va_lastLedger va)
  /\ forall acquire now, supplies ok acquire ->
       let r := getNodesAfter acquire now va l (lg_id l) in
       r.1 = voters (strictly_after l) (va_lastLedger r.2).
Proof.
  intros HR%(reached_backed ok) Hl. split_and!.
  - destruct HR as (_ & σ & H & _). by eapply represents_check.
  - by apply (backed_tip ok).
  - by apply (backed_branch ok).
  - intros acquire now Ha. unfold getNodesAfter. rewrite Z.eqb_refl. cbn [fst snd].
    apply (backed_after ok); [by apply withTrie_backed | done].
Qed.

Lemma support_counts_nodes_witness :
  reached (complete ToyLedgers.hist) ValidationParms_default 10000 ToyValidations.state
  /\ tipSupport (va_trie ToyValidations.state) ToyLedgers.l11 = 1
  /\ branchSupport (va_trie ToyValidations.state) ToyLedgers.l11 = 3
  /\ (getNodesAfter ToyValidations.all 1010 ToyValidations.state ToyLedgers.l22 22).1 = 1.
Proof.
  pose proof (proj1 (reached_trusted_tracked _ _ _ _ ToyValidations.state_reached)) as HR.
  destruct (support_counts_nodes _ _ _ _ ToyLedgers.l11 HR (proj1 ToyValidations.ok_ledgers)) as (_ & E1 & E2 & _).
  destruct (support_counts_nodes _ _ _ _ ToyLedgers.l22 HR (proj1 (proj2 (proj2 ToyValidations.ok_ledgers))))
    as (_ & _ & _ & E3).
  specialize (E3 ToyValidations.all 1010%Z ToyValidations.all_ok).
  split; [exact HR|]. split; [rewrite E1 | split; [rewrite E2 | etransitivity; [exact E3|]]]; vm_compute; reflexivity.
Defined.

(** trusted validations are counted.  After any history in which no untrusted
    validation replaced a trusted one, using the trie first flushes exactly the
    validations that are no longer current; then each trusted current validation
    whose ledger is at hand is counted on that ledger, so that the tip support of
    a ledger at hand is at least the number of its trusted current validations. *)
Theorem trusted_validations_counted {L : Type} {LO : LedgerOps L} (ok : L -> Prop) {LL : LedgerLaws ok}
    (p : ValidationParms) (e : Z) (va : Validations L) (acquire : Z -> option L) (now : Z) :
  reached_trusted ok p e va -> supplies ok acquire ->
  let r := withTrie acquire now va in
  (forall n v, va_current r !! n = Some v <->
     va_current va !! n = Some v /\ isCurrent (va_parms va) now (v_signTime v) (v_seenTime v) = true)
  /\ (forall n v, va_current r !! n = Some v -> v_trusted v = true -> acquire (v_ledgerID v) <> None ->
        counted r n (v_ledgerID v))
  /\ (forall l, ok l -> acquire (lg_id l) <> None ->
        N.of_nat (size (validators_of r (lg_id l))) <= tipSupport (va_trie r) l).
Proof.
  intros [HR%(reached_backed ok) HT]%(reached_trusted_tracked ok) Ha r.
  assert (Hc : forall n v, va_current r !! n = Some v -> v_trusted v = true -> acquire (v_ledgerID v) <> None ->
    counted r n (v_ledgerID v)).
  { intros n v Hv Ht Hq. destruct (withTrie_tracked ok acquire now va Ha HT n) as [_ H].
    destruct (H v Hv Ht) as [Haw|?]; [|done]. by apply (checkAcquired_awaited ok) in Haw as [_ ?]. }
  split_and!; [| done |].
  - intros n v. unfold r, withTrie.
    rewrite (proj1 (checkAcquired_tracked ok acquire (flush_stale now va) n Ha)). by apply (flush_stale_current ok).
  - intros l Hl Hq. apply (counted_le ok); [by apply withTrie_backed | done |].
    intros n v Hv Ht E. rewrite <- E in *. by apply Hc.
Qed.

(** Once ledger 32 is at hand node 1 is counted on it. *)
Lemma trusted_validations_counted_witness :
  let r := withTrie ToyValidations.all 1010 ToyValidations.state in
  va_current r !! 1%Z = Some (ToyValidations.val 32 3 1003) /\ counted r 1 32
  /\ 1 <= tipSupport (va_trie r) ToyLedgers.l32.
Proof.
  pose proof (trusted_validations_counted _ _ _ _ ToyValidations.all 1010 ToyValidations.state_reached
    ToyValidations.all_ok) as (_ & H2 & H3). cbv zeta.
  assert (E : va_current (withTrie ToyValidations.all 1010 ToyValidations.state) !! 1%Z
    = Some (ToyValidations.val 32 3 1003)) by (vm_compute; reflexivity).
  split; [exact E|]. split.
  - apply (H2 1%Z _ E); [reflexivity | discriminate].
  - etransitivity; [|apply (H3 ToyLedgers.l32); [apply ToyValidations.ok_ledgers | discriminate]].
    vm_compute. discriminate.
Defined.

(** support outlives trust.  When a node leaves the trusted set while the
    ledger of its current validation is not the one it is counted on (that ledger
    being still awaited), it is marked untrusted but the support of its earlier
    ledger stays in the trie, and a later flush of all validations leaves it
    there too. *)
Theorem untrusted_support_kept {L : Type} {LO : LedgerOps L} (ok : L -> Prop) {LL : LedgerLaws ok}
    (p : ValidationParms) (e : Z) (va : Validations L) (acquire : Z -> option L) (n : Z) (v : Validation) (l : L) :
  reached ok p e va -> supplies ok acquire ->
  va_lastLedger va !! n = Some l -> va_current va !! n = Some v -> v_ledgerID v <> lg_id l ->
  let r := trustChanged acquire va ∅ {[n]} in
  va_current r !! n = Some (set_trusted false v)
  /\ 1 <= tipSupport (va_trie r) l
  /\ va_current (flush r) = ∅ /\ 1 <= tipSupport (va_trie (flush r)) l.
Proof.
  intros HR%(reached_backed ok) Ha Hl Hv Hne r.
  destruct (untrust_keeps ok acquire va n v l Hl Hv Hne) as [R1 R2]. fold r in R1, R2.
  assert (Hb : backed ok r) by (by apply trustChanged_backed). pose proof (proj1 HR n l Hl) as Hok.
  assert (Hpos : forall va', backed ok va' -> va_lastLedger va' !! n = Some l -> 1 <= tipSupport (va_trie va') l).
  { intros va' H H'. rewrite (backed_tip ok va' l H Hok), (voters_delete _ _ n l H').
    unfold has_id at 1. rewrite Z.eqb_refl. lia. }
  split_and!; [done | by apply Hpos | done |].
  apply Hpos; [by apply flush_backed|]. by apply (flush_keeps r n (set_trusted false v)).
Qed.

(** Node 1 is distrusted while ledger 32 is awaited: ledger 11 keeps its support. *)
Lemma untrusted_support_kept_witness :
  let r := trustChanged ToyValidations.some ToyValidations.state ∅ {[1%Z]} in
  va_current r !! 1%Z = Some (set_trusted false (ToyValidations.val 32 3 1003))
  /\ 1 <= tipSupport (va_trie (flush r)) ToyLedgers.l11.
Proof.
  pose proof (proj1 (reached_trusted_tracked _ _ _ _ ToyValidations.state_reached)) as HR.
  destruct (untrusted_support_kept _ _ _ _ ToyValidations.some 1 (ToyValidations.val 32 3 1003) ToyLedgers.l11 HR
    ToyValidations.some_ok) as (H1 & _ & _ & H2); [vm_compute; reflexivity | vm_compute; reflexivity | discriminate |].
  split; [exact H1 | exact H2].
Defined.
