(* ===== verification/LedgerTiming.v ===== *)
(** * Ledger close times (LedgerTiming)

    The resolution of close times adapts to whether the network agreed on the
    previous one, and close times are rounded to it.  The definitions are those
    of [src/src/peersafe/consensus/LedgerTiming.h]; times are [NetClock] times, 32-bit
    counts of seconds. *)

From S2P Require Import Prelude.

#[local] Open Scope Z_scope.

Definition ledgerPossibleTimeResolutions : list Z := [10; 20; 30; 60; 90; 120].
Definition ledgerDefaultTimeResolution : Z := 30.
Definition increaseLedgerTimeResolutionEvery : Z := 8.
Definition decreaseLedgerTimeResolutionEvery : Z := 1.

(** The iterator found, as an index; the length for [std::end]. *)
Fixpoint find_index (x : Z) (l : list Z) : nat :=
  match l with
  | [] => 0%nat
  | y :: l => if y =? x then 0%nat else S (find_index x l)
  end.

Definition getNextLedgerTimeResolution (previousResolution : Z) (previousAgree : bool) (ledgerSeq : Z) : Z :=
  let iter := find_index previousResolution ledgerPossibleTimeResolutions in
  match ledgerPossibleTimeResolutions !! iter with
  | None => previousResolution
  | Some _ =>
      if negb previousAgree && (ledgerSeq mod decreaseLedgerTimeResolutionEvery =? 0) then
        default previousResolution (ledgerPossibleTimeResolutions !! S iter)
      else if previousAgree && (ledgerSeq mod increaseLedgerTimeResolutionEvery =? 0) then
        match iter with
        | O => previousResolution
        | S iter => default previousResolution (ledgerPossibleTimeResolutions !! iter)
        end
      else previousResolution
  end.

Definition roundCloseTime (closeTime closeResolution : Z) : Z :=
  if closeTime =? 0 then closeTime
  else
    let closeTime := u32 (closeTime + closeResolution / 2) in
    u32 (closeTime - closeTime mod closeResolution).

Definition effCloseTime (closeTime resolution priorCloseTime : Z) : Z :=
  if closeTime =? 0 then closeTime
  else Z.max (roundCloseTime closeTime resolution) (u32 (priorCloseTime + 1)).

(** ** Properties *)

(** Rounding to the nearest multiple, when adding half the resolution does not
    wrap. *)
Lemma roundCloseTime_nearest t r :
  0 < t -> 0 < r -> t + r / 2 < 2 ^ 32 ->
  roundCloseTime t r mod r = 0 /\ t - (r - 1) / 2 <= roundCloseTime t r <= t + r / 2.
Proof.
  intros Ht Hr Hw. unfold roundCloseTime. rewrite (proj2 (Z.eqb_neq _ _)) by lia.
  assert (0 <= r / 2) by (apply Z.div_pos; lia). rewrite (u32_small (t + r / 2)) by lia. set (x := t + r / 2) in *.
  pose proof (Z.mod_pos_bound x r Hr) as Hm. pose proof (Z.mod_le x r ltac:(lia) Hr).
  rewrite u32_small by lia. split.
  - rewrite (Z.mod_eq x r) by lia. replace (x - (x - r * (x / r))) with ((x / r) * r) by lia. apply Z.mod_mul. lia.
  - split; [|lia]. assert (r = r / 2 + (r - 1) / 2 + 1); [|lia].
    pose proof (Z.div_mod r 2 ltac:(lia)). pose proof (Z.mod_pos_bound r 2 ltac:(lia)).
    pose proof (Z.div_mod (r - 1) 2 ltac:(lia)). pose proof (Z.mod_pos_bound (r - 1) 2 ltac:(lia)). lia.
Qed.

(** A multiple in that interval is the rounded time. *)
Lemma roundCloseTime_unique t r m :
  0 < t -> 0 < r -> t + r / 2 < 2 ^ 32 ->
  m mod r = 0 -> t - (r - 1) / 2 <= m <= t + r / 2 -> roundCloseTime t r = m.
Proof.
  intros Ht Hr Hw Hm Hi. destruct (roundCloseTime_nearest t r Ht Hr Hw) as [H1 H2].
  set (x := roundCloseTime t r) in *.
  pose proof (Z.div_mod x r ltac:(lia)). pose proof (Z.div_mod m r ltac:(lia)).
  pose proof (Z.div_mod r 2 ltac:(lia)). pose proof (Z.mod_pos_bound r 2 ltac:(lia)).
  pose proof (Z.div_mod (r - 1) 2 ltac:(lia)). pose proof (Z.mod_pos_bound (r - 1) 2 ltac:(lia)).
  assert (- r < x - m < r) by lia.
  assert (x / r = m / r) by nia. lia.
Qed.

(** Rounding a rounded time changes nothing. *)
Lemma roundCloseTime_idem t r :
  0 < t -> 0 < r -> t + r < 2 ^ 32 -> roundCloseTime (roundCloseTime t r) r = roundCloseTime t r.
Proof.
  intros Ht Hr Hw.
  pose proof (Z.div_le_upper_bound r 2 r ltac:(lia) ltac:(lia)).
  destruct (roundCloseTime_nearest t r Ht Hr ltac:(lia)) as [H1 H2]. set (m := roundCloseTime t r) in *.
  assert (0 <= m). { subst m. unfold roundCloseTime. case_match; [lia|]. apply u32_range. }
  destruct (Z.eq_dec m 0) as [->|Hm0]; [done|].
  assert (0 <= (r - 1) / 2) by (apply Z.div_pos; lia). assert (0 <= r / 2) by (apply Z.div_pos; lia).
  assert (2 * (r / 2) <= r) by (apply Z.mul_div_le; lia).
  apply roundCloseTime_unique; lia.
Qed.

(** The index of a valid resolution. *)
Lemma find_index_lookup x l : x ∈ l -> l !! find_index x l = Some x.
Proof.
  induction l as [|y l IH]; [by intros ?%elem_of_nil|]. simpl.
  destruct (Z.eqb_spec y x) as [->|Hne]; [done|]. intros [->|H]%elem_of_cons; [done | by apply IH].
Qed.

(** ** Theorem *)

(** C35: close times.  The resolution stays one of the possible bins; it
    gets coarser by one bin when the network disagreed on the last close time and
    finer by one bin in every eighth ledger after an agreement.  A close time that is
    not set, 0, stays 0, rounded or effective, whatever the prior close time is.  Any other
    one, while the sums stay below 2^32, is rounded to the nearest multiple of the
    resolution, up at the midpoint; the effective close time is that multiple or the second
    after the prior close time, whichever is later, and so lies after the prior close
    time. *)
Theorem close_time_rules (r seq : Z) (agree : bool) (t prior : Z) :
  r ∈ ledgerPossibleTimeResolutions -> 0 <= t -> t + r < 2 ^ 32 -> 0 <= prior < 2 ^ 32 - 1 ->
  (let r' := getNextLedgerTimeResolution r agree seq in
   r' ∈ ledgerPossibleTimeResolutions
   /\ (agree = false -> r <> 120 -> r < r')
   /\ (agree = true -> if (seq mod 8 =? 0) && negb (r =? 10) then r' < r else r' = r))
  /\ if t =? 0 then roundCloseTime t r = 0 /\ effCloseTime t r prior = 0
     else (forall m, m mod r = 0 -> t - (r - 1) / 2 <= m <= t + r / 2 <-> m = roundCloseTime t r)
          /\ effCloseTime t r prior = Z.max (roundCloseTime t r) (prior + 1)
          /\ prior < effCloseTime t r prior.
Proof.
  intros Hr Ht Hw Hp.
  assert (H0 : 0 < r) by (unfold ledgerPossibleTimeResolutions in Hr; set_unfold; lia).
  pose proof (Z.div_le_upper_bound r 2 r ltac:(lia) ltac:(lia)) as Hh. split.
  - unfold getNextLedgerTimeResolution, ledgerPossibleTimeResolutions in *. rewrite (find_index_lookup _ _ Hr).
    unfold increaseLedgerTimeResolutionEvery, decreaseLedgerTimeResolutionEvery. rewrite Z.mod_1_r. simpl.
    rewrite !elem_of_cons, elem_of_nil in Hr.
    destruct agree, (seq mod 8 =? 0); destruct Hr as [->|[->|[->|[->|[->|[->|[]]]]]]]; simpl; set_solver by lia.
  - destruct (Z.eqb_spec t 0) as [->|Hn]; [done|].
    assert (He : effCloseTime t r prior = Z.max (roundCloseTime t r) (prior + 1)).
    { unfold effCloseTime. rewrite (proj2 (Z.eqb_neq _ _)), (u32_small (prior + 1)) by lia. done. }
    split_and!; [|done | lia]. intros m Hm. destruct (roundCloseTime_nearest t r ltac:(lia) H0 ltac:(lia)) as [H1 H2].
    split; [intros H; symmetry; apply roundCloseTime_unique; lia | intros ->; done].
Qed.

Lemma close_time_rules_witness :
  30 ∈ ledgerPossibleTimeResolutions /\ getNextLedgerTimeResolution 30 false 5 = 60 /\ roundCloseTime 45 30 = 60
  /\ 100 < effCloseTime 45 30 100.
Proof.
  destruct (close_time_rules 30 5 false 45 100) as (_ & H & _ & H'); [set_solver | lia | lia | lia |].
  split; [set_solver|]. split; [reflexivity|]. split; [|exact H'].
  symmetry. apply (H 60); [reflexivity|]. vm_compute. split; discriminate.
Defined.
