(* ===== verification/RpcaTypes.v ===== *)
(** * RPCA consensus: proposals, transaction sets, disputes and thresholds

    The data of the RPCA protocol and the pure decisions it takes, from
    [rpca/DisputedTx.h], [rpca/RpcaConsensusParams.h], [rpca/RpcaConsensus.h] and the
    free functions of [rpca/impl/RpcaConsensus.cpp] under [src/src/peersafe/consensus],
    [peersafe/protocol/STProposeSet.h] and [ripple/app/consensus/RCLCxTx.h].

    Comparisons of an [int] with a [std::size_t] convert the first, which [u64]
    writes out.  Vote counts and percentages stay far from the bounds of [int]. *)

From S2P Require Import Prelude HsTypes ConsensusTypes.
From Stdlib Require Import SpecFloat.

#[local] Open Scope Z_scope.

(** ** Parameters: seconds for proposals, milliseconds otherwise *)

Record RpcaConsensusParms := mkRpcaParms {
  proposeFRESHNESS : Z;
  proposeINTERVAL : Z;
  minCONSENSUS_PCT : Z;
  ledgerIDLE_INTERVAL : Z;
  ledgerMIN_CONSENSUS : Z;
  ledgerMAX_CONSENSUS : Z;
  ledgerMIN_CLOSE : Z;
  avMIN_CONSENSUS_TIME : Z;
  avINIT_CONSENSUS_PCT : Z;
  avMID_CONSENSUS_TIME : Z;
  avMID_CONSENSUS_PCT : Z;
  avLATE_CONSENSUS_TIME : Z;
  avLATE_CONSENSUS_PCT : Z;
  avSTUCK_CONSENSUS_TIME : Z;
  avSTUCK_CONSENSUS_PCT : Z;
  avCT_CONSENSUS_PCT : Z
}.

Definition RpcaConsensusParms_default : RpcaConsensusParms :=
  mkRpcaParms 20 12 80 15000 1950 10000 2000 5000 50 50 65 85 70 200 95 75.

(** ** Transactions and their sets

    A set maps the ids of its transactions to their bytes. *)

Record RCLCxTx := mkTx {
  tx_id : Z;
  tx_data : Bytes
}.

#[export] Instance RCLCxTx_eq_dec : EqDecision RCLCxTx.
Proof. solve_decision. Defined.

Abbreviation TxSet := (gmap Z Bytes).

Definition tx_exists (s : TxSet) (id : Z) : bool := bool_decide (is_Some (s !! id)).

(** [MutableTxSet::insert] does not replace an item. *)
Definition tx_insert (s : TxSet) (t : RCLCxTx) : TxSet :=
  match s !! tx_id t with Some _ => s | None => <[tx_id t := tx_data t]> s end.

Definition tx_erase (s : TxSet) (id : Z) : TxSet := delete id s.

(** The ids at which two sets differ, and whether the first has them. *)
Definition differences (a b : TxSet) : gmap Z bool :=
  merge (fun x y => if decide (x = y) then None else Some (bool_decide (is_Some x))) a b.

(** The hash of a set and what [SHAMap::compare] finds before it gives up, when
    there are more differences than it may return. *)
Class TxSetOps := {
  set_id : TxSet -> Z;
  truncated : TxSet -> TxSet -> gmap Z bool
}.

Class TxSetLaws `{TxSetOps} : Prop := {
  set_id_inj : forall a b, set_id a = set_id b -> a = b;
  truncated_sub : forall a b, truncated a b ⊆ differences a b;
  truncated_full : forall a b, 65536 < Z.of_nat (size (differences a b)) -> 65536 <= Z.of_nat (size (truncated a b))
}.

Definition compare `{TxSetOps} (a b : TxSet) : gmap Z bool :=
  let d := differences a b in
  if Z.of_nat (size d) <=? 65536 then d else truncated a b.

(** ** Proposals (STProposeSet) *)

Definition seqJoin : Z := 0.
Definition seqLeave : Z := 4294967295.

Record STProposeSet := mkProposeSet {
  pp_proposeSeq : Z;
  pp_position : Z;
  pp_previousLedger : Z;
  pp_closeTime : Z;
  pp_time : Z;
  pp_nodeID : Z;
  pp_signerPublic : Bytes;
  pp_curLedgerSeq : Z;
  pp_view : Z
}.

Definition isInitial (p : STProposeSet) : bool := pp_proposeSeq p =? seqJoin.
Definition isBowOut (p : STProposeSet) : bool := pp_proposeSeq p =? seqLeave.
Definition isStale (p : STProposeSet) (cutoff : Z) : bool := pp_time p <=? cutoff.

Definition changePosition (p : STProposeSet) (newPosition newCloseTime now : Z) : STProposeSet :=
  mkProposeSet (if pp_proposeSeq p =? seqLeave then pp_proposeSeq p else u32 (pp_proposeSeq p + 1))
    newPosition (pp_previousLedger p) newCloseTime now (pp_nodeID p) (pp_signerPublic p)
    (pp_curLedgerSeq p) (pp_view p).

Definition bowOut (p : STProposeSet) (now : Z) : STProposeSet :=
  mkProposeSet seqLeave (pp_position p) (pp_previousLedger p) (pp_closeTime p) now (pp_nodeID p)
    (pp_signerPublic p) (pp_curLedgerSeq p) (pp_view p).

(** ** Disputed transactions *)

Record DisputedTx := mkDisputedTx {
  dt_yays : Z;
  dt_nays : Z;
  dt_ourVote : bool;
  dt_tx : RCLCxTx;
  dt_votes : gmap Z bool
}.

Definition DisputedTx_new (tx : RCLCxTx) (ourVote : bool) : DisputedTx := mkDisputedTx 0 0 ourVote tx ∅.

Definition setVote (d : DisputedTx) (peer : Z) (votesYes : bool) : DisputedTx :=
  let '(mkDisputedTx yays nays our tx votes) := d in
  match votes !! peer with
  | None =>
      if votesYes then mkDisputedTx (yays + 1) nays our tx (<[peer := true]> votes)
      else mkDisputedTx yays (nays + 1) our tx (<[peer := false]> votes)
  | Some v =>
      if votesYes && negb v then mkDisputedTx (yays + 1) (nays - 1) our tx (<[peer := true]> votes)
      else if negb votesYes && v then mkDisputedTx (yays - 1) (nays + 1) our tx (<[peer := false]> votes)
      else d
  end.

Definition unVote (d : DisputedTx) (peer : Z) : DisputedTx :=
  let '(mkDisputedTx yays nays our tx votes) := d in
  match votes !! peer with
  | Some true => mkDisputedTx (yays - 1) nays our tx (delete peer votes)
  | Some false => mkDisputedTx yays (nays - 1) our tx (delete peer votes)
  | None => d
  end.

(** The percentage of yes votes asked for at this point of the round. *)
Definition threshold (p : RpcaConsensusParms) (percentTime : Z) : Z :=
  if u64 percentTime <? avMID_CONSENSUS_TIME p then avINIT_CONSENSUS_PCT p
  else if u64 percentTime <? avLATE_CONSENSUS_TIME p then avMID_CONSENSUS_PCT p
  else if u64 percentTime <? avSTUCK_CONSENSUS_TIME p then avLATE_CONSENSUS_PCT p
  else avSTUCK_CONSENSUS_PCT p.

Definition updateVote (d : DisputedTx) (percentTime : Z) (proposing : bool) (p : RpcaConsensusParms)
  : bool * DisputedTx :=
  let '(mkDisputedTx yays nays our tx votes) := d in
  if our && (nays =? 0) then (false, d)
  else if negb our && (yays =? 0) then (false, d)
  else
    let newPosition :=
      if proposing then
        let weight := Z.quot (yays * 100 + (if our then 100 else 0)) (nays + yays + 1) in
        u64 weight >? threshold p percentTime
      else yays >? nays in
    if Bool.eqb newPosition our then (false, d)
    else (true, mkDisputedTx yays nays newPosition tx votes).

(** ** Positions of peers and the result of a round *)

Record RCLCxPeerPos := mkPeerPos {
  po_publicKey : Bytes;
  po_signature : Bytes;
  po_suppression : Z;
  po_proposal : STProposeSet
}.

Record ConsensusResult := mkResult {
  rs_txns : TxSet;
  rs_position : STProposeSet;
  rs_disputes : gmap Z DisputedTx;
  rs_compares : gset Z;
  rs_roundTime : ConsensusTimer;
  rs_state : ConsensusState;
  rs_proposers : Z
}.

Definition Result_new (txns : TxSet) (position : STProposeSet) : ConsensusResult :=
  mkResult txns position ∅ ∅ (mkTimer 0 0) cs_No 0.

(** ** Decisions *)

Definition participantsNeeded (participants percent : Z) : Z :=
  let result := Z.quot (participants * percent + Z.quot percent 2) 100 in
  if result =? 0 then 1 else result.

Definition shouldCloseLedger (anyTransactions : bool)
    (prevProposers proposersClosed proposersValidated : Z)
    (prevRoundTime timeSincePrevClose openTime idleInterval : Z) (parms : RpcaConsensusParms) : bool :=
  if (prevRoundTime <? -1000) || (prevRoundTime >? 600000) || (timeSincePrevClose >? 600000) then true
  else if u64 (proposersClosed + proposersValidated) >? prevProposers / 2 then true
  else if negb anyTransactions then timeSincePrevClose >=? idleInterval
  else if openTime <? ledgerMIN_CLOSE parms then false
  else if openTime <? Z.quot prevRoundTime 2 then false
  else true.

Definition checkConsensusReached (agreeing total : Z) (count_self : bool) (minConsensusPct : Z) : bool :=
  if total =? 0 then true
  else
    let '(agreeing, total) := if count_self then (agreeing + 1, total + 1) else (agreeing, total) in
    u64 (agreeing * 100) / total >=? minConsensusPct.

Definition checkConsensus (prevProposers currentProposers currentAgree currentFinished : Z)
    (previousAgreeTime currentAgreeTime : Z) (parms : RpcaConsensusParms) (proposing : bool)
  : ConsensusState :=
  if currentAgreeTime <=? ledgerMIN_CONSENSUS parms then cs_No
  else if (currentProposers <? u64 (prevProposers * 3) / 4)
       && (currentAgreeTime <? previousAgreeTime + ledgerMIN_CONSENSUS parms) then cs_No
  else if checkConsensusReached currentAgree currentProposers proposing (minCONSENSUS_PCT parms) then cs_Yes
  else if checkConsensusReached currentFinished currentProposers false (minCONSENSUS_PCT parms) then cs_MovedOn
  else cs_No.

(** ** The pause for laggards

    The middle phases compare [float] values: IEEE binary32, rounded to nearest. *)

Definition f32 (z : Z) : spec_float := binary_normalize 24 128 z 0 false.
Definition f32_div (x y : spec_float) : spec_float := SFdiv 24 128 x y.
Definition f32_add (x y : spec_float) : spec_float := SFadd 24 128 x y.
Definition f32_sub (x y : spec_float) : spec_float := SFsub 24 128 x y.
Definition f32_mul (x y : spec_float) : spec_float := SFmul 24 128 x y.

Definition maxPausePhase : Z := 4.

Definition pause_threshold (phase totalValidators laggards offline quorum : Z) : bool :=
  if phase =? 0 then u64 (laggards + offline) >? u64 (totalValidators - quorum)
  else if phase =? maxPausePhase then true
  else
    let nonLaggards := f32 (u64 (totalValidators - u64 (laggards + offline))) in
    let quorumRatio := f32_div (f32 quorum) (f32 totalValidators) in
    let allowedDissent := f32_sub (f32 1) quorumRatio in
    let phaseFactor := f32_div (f32 phase) (f32 maxPausePhase) in
    SFltb (f32_div nonLaggards (f32 totalValidators))
      (f32_add quorumRatio (f32_mul allowedDissent phaseFactor)).

(** [RpcaConsensus::shouldPause], of what it asks the adaptor. *)
Definition should_pause (seq validLedgerIndex totalValidators laggards offline quorum roundTime : Z)
    (validator haveValidated : bool) (parms : RpcaConsensusParms) : bool :=
  let ahead := u32 (seq - Z.min validLedgerIndex seq) in
  if (ahead =? 0) || (laggards =? 0) || (totalValidators =? 0) || negb validator || negb haveValidated
     || (roundTime >? ledgerMAX_CONSENSUS parms) then false
  else pause_threshold ((ahead - 1) mod (maxPausePhase + 1)) totalValidators laggards offline quorum.
