(* ===== verification/Rpca.v ===== *)
(** * RPCA consensus (RpcaConsensus)

    The object that drives the RPCA protocol: it collects the positions of its
    peers, closes the open ledger, adapts its own position to theirs and accepts
    the result.  The definitions are those of
    [src/src/peersafe/consensus/rpca/impl/RpcaConsensus.cpp].

    What the adaptor answers during a call is the record [RpcaEnv], an argument of
    every operation; what the object does to the outside is the list [rc_effects].
    An operation whose result is [None] ran out of fuel: [timerEntry],
    [handleWrongLedger] and [startRoundInternal] call one another.  The transaction
    sets of peers are iterated in the order of [map_to_list]. *)

From S2P Require Import Prelude HsTypes ConsensusTypes LedgerTiming RpcaTypes.
From stdpp Require Import sorting.
From coqutil Require Import Datatypes.RecordSetters.
Import DoubleBraceUpdate.

#[local] Open Scope Z_scope.

(** ** State *)

Inductive RpcaEffect :=
| SharePosition (p : RCLCxPeerPos)
| ShareTxSet (s : TxSet)
| ShareTx (t : RCLCxTx)
| Propose (p : STProposeSet)
| ModeChange (m : ConsensusMode)
| UpdateOperatingMode (positions : Z)
| OnAccept (r : ConsensusResult) (prev : LedgerInfo) (closeResolution : Z) (raw : ConsensusCloseTimes)
    (m : ConsensusMode)
| OnForceAccept (r : ConsensusResult) (prev : LedgerInfo) (closeResolution : Z) (raw : ConsensusCloseTimes)
    (m : ConsensusMode).

Record Rpca := mkRpca {
  rc_phase : ConsensusPhase;
  rc_mode : ConsensusMode;
  rc_prevLedgerID : Z;
  rc_previousLedger : LedgerInfo;
  rc_firstRound : bool;
  rc_now : Z;
  rc_prevCloseTime : Z;
  rc_haveCloseTimeConsensus : bool;
  rc_convergePercent : Z;
  rc_openTime : ConsensusTimer;
  rc_closeResolution : Z;
  rc_prevRoundTime : Z;
  rc_acquired : gmap Z TxSet;
  rc_result : option ConsensusResult;
  rc_rawCloseTimes : ConsensusCloseTimes;
  rc_currPeerPositions : gmap Z RCLCxPeerPos;
  rc_recentPeerPositions : gmap Z (list RCLCxPeerPos);
  rc_prevProposers : Z;
  rc_deadNodes : gset Z;
  rc_effects : list RpcaEffect
}.

(** A new object; the ledger and times it has no value for yet are arguments. *)
Definition Rpca_new (prevLedgerID : Z) (previousLedger : LedgerInfo) (prevRoundTime : Z) : Rpca :=
  mkRpca ph_accepted observing prevLedgerID previousLedger true 0 0 false 0 (mkTimer 0 0)
    ledgerDefaultTimeResolution prevRoundTime ∅ None (mkCloseTimes ∅ 0) ∅ ∅ 0 ∅ [].

(** ** What the adaptor answers *)

Record RpcaEnv := mkRpcaEnv {
  en_clock : Z;
  en_closeTime : Z;
  en_parms : RpcaConsensusParms;
  en_acquireLedger : Z -> option LedgerInfo;
  en_getPrevLedger : Z -> LedgerInfo -> ConsensusMode -> Z;
  en_hasOpenTransactions : bool;
  en_proposersValidated : Z -> Z;
  en_proposersFinished : LedgerInfo -> Z -> Z;
  en_acquireTxSet : Z -> option TxSet;
  en_onClose : LedgerInfo -> Z -> ConsensusMode -> TxSet * STProposeSet;
  en_validLedgerIndex : Z;
  en_quorumKeys : Z * gset Bytes;
  en_laggards : Z -> gset Bytes -> Z * gset Bytes;
  en_validator : bool;
  en_haveValidated : bool
}.

Definition emit (e : RpcaEffect) (s : Rpca) : Rpca := s {{ rc_effects := rc_effects s ++ [e] }}.

Definition mode_set (m : ConsensusMode) (s : Rpca) : Rpca := emit (ModeChange m) (s {{ rc_mode := m }}).

Definition set_result (r : ConsensusResult) (s : Rpca) : Rpca := s {{ rc_result := Some r }}.

Section Rpca.

Context {TS : TxSetOps}.

(** ** Disputes *)

(** The body of the loop of [createDisputes] for one difference. *)
Definition create_dispute (o : TxSet) (s : Rpca) (diff : Z * bool) : Rpca :=
  match rc_result s with
  | None => s
  | Some r =>
      let txID := diff.1 in
      match rs_disputes r !! txID with
      | Some _ => s
      | None =>
          let tx := mkTx txID (default [] ((if diff.2 then rs_txns r else o) !! txID)) in
          let dtx :=
            fold_left (fun d '(peer, pos) =>
              match rc_acquired s !! pp_position (po_proposal pos) with
              | Some set => setVote d peer (tx_exists set txID)
              | None => d
              end) (map_to_list (rc_currPeerPositions s)) (DisputedTx_new tx (tx_exists (rs_txns r) txID)) in
          emit (ShareTx tx) (set_result (r {{ rs_disputes := <[txID := dtx]> (rs_disputes r) }}) s)
      end
  end.

Definition createDisputes (o : TxSet) (s : Rpca) : Rpca :=
  match rc_result s with
  | None => s
  | Some r =>
      if decide (set_id o ∈ rs_compares r) then s
      else
        let s := set_result (r {{ rs_compares := {[set_id o]} ∪ rs_compares r }}) s in
        if set_id (rs_txns r) =? set_id o then s
        else fold_left (create_dispute o) (map_to_list (compare (rs_txns r) o)) s
  end.

Definition vote_all (node : Z) (other : TxSet) (r : ConsensusResult) : ConsensusResult :=
  r {{ rs_disputes := (fun d => setVote d node (tx_exists other (tx_id (dt_tx d)))) <$> rs_disputes r }}.

Definition unvote_all (node : Z) (r : ConsensusResult) : ConsensusResult :=
  r {{ rs_disputes := (fun d => unVote d node) <$> rs_disputes r }}.

Definition updateDisputes (node : Z) (other : TxSet) (s : Rpca) : Rpca :=
  match rc_result s with
  | None => s
  | Some r =>
      let s := if decide (set_id other ∈ rs_compares r) then s else createDisputes other s in
      match rc_result s with
      | None => s
      | Some r => set_result (vote_all node other r) s
      end
  end.

Definition gotTxSet (now : Z) (txSet : TxSet) (s : Rpca) : Rpca :=
  if decide (rc_phase s = ph_accepted) then s
  else
    let s := s {{ rc_now := now }} in
    let id := set_id txSet in
    match rc_acquired s !! id with
    | Some _ => s
    | None =>
        let s := s {{ rc_acquired := <[id := txSet]> (rc_acquired s) }} in
        match rc_result s with
        | None => s
        | Some _ =>
            fold_left (fun s '(nodeId, peerPos) =>
              if pp_position (po_proposal peerPos) =? id then updateDisputes nodeId txSet s else s)
              (map_to_list (rc_currPeerPositions s)) s
        end
    end.

(** ** Proposals of peers *)

Definition peerProposalInternal (env : RpcaEnv) (now : Z) (newPeerPos : RCLCxPeerPos) (s : Rpca)
  : bool * Rpca :=
  if decide (rc_phase s = ph_accepted) then (false, s)
  else
    let s := s {{ rc_now := now }} in
    let prop := po_proposal newPeerPos in
    let peerID := pp_nodeID prop in
    if negb (pp_previousLedger prop =? rc_prevLedgerID s) then (false, s)
    else if decide (peerID ∈ rc_deadNodes s) then (false, s)
    else if match rc_currPeerPositions s !! peerID with
            | Some old => pp_proposeSeq prop <=? pp_proposeSeq (po_proposal old)
            | None => false
            end then (false, s)
    else if isBowOut prop then
      let s := match rc_result s with Some r => set_result (unvote_all peerID r) s | None => s end in
      (true, s {{ rc_currPeerPositions := delete peerID (rc_currPeerPositions s);
                  rc_deadNodes := {[peerID]} ∪ rc_deadNodes s }})
    else
      let s := s {{ rc_currPeerPositions := <[peerID := newPeerPos]> (rc_currPeerPositions s) }} in
      let s :=
        if isInitial prop then
          let raw := rc_rawCloseTimes s in
          let n := default 0 (ct_peers raw !! pp_closeTime prop) in
          s {{ rc_rawCloseTimes := mkCloseTimes (<[pp_closeTime prop := n + 1]> (ct_peers raw)) (ct_self raw) }}
        else s in
      (true,
       match rc_acquired s !! pp_position prop with
       | None =>
           match en_acquireTxSet env (pp_position prop) with
           | Some set => gotTxSet (rc_now s) set s
           | None => s
           end
       | Some set =>
           match rc_result s with
           | Some _ => updateDisputes peerID set s
           | None => s
           end
       end).

(** A trusted proposal is kept among the last ten of its node and processed; an
    untrusted one is relayed or not. *)
Definition peerProposal (env : RpcaEnv) (isTrusted cluster : bool) (newPeerPos : RCLCxPeerPos) (s : Rpca)
  : bool * Rpca :=
  if isTrusted then
    let peerID := pp_nodeID (po_proposal newPeerPos) in
    let props := default [] (rc_recentPeerPositions s !! peerID) in
    let props := if (10 <=? length props)%nat then tail props else props in
    let s := s {{ rc_recentPeerPositions :=
                    <[peerID := props ++ [newPeerPos]]> (rc_recentPeerPositions s) }} in
    peerProposalInternal env (en_closeTime env) newPeerPos s
  else (cluster || (rc_prevLedgerID s =? pp_previousLedger (po_proposal newPeerPos)), s).

Definition playbackProposals (env : RpcaEnv) (s : Rpca) : Rpca :=
  fold_left (fun s '(_, props) =>
    fold_left (fun s pos =>
      if pp_previousLedger (po_proposal pos) =? rc_prevLedgerID s then
        let '(relay, s) := peerProposalInternal env (rc_now s) pos s in
        if relay then emit (SharePosition pos) s else s
      else s) props s) (map_to_list (rc_recentPeerPositions s)) s.

(** ** The open phase *)

Definition closeLedger (env : RpcaEnv) (s : Rpca) : Rpca :=
  let raw := rc_rawCloseTimes s in
  let s := s {{ rc_phase := ph_establish; rc_rawCloseTimes := mkCloseTimes (ct_peers raw) (rc_now s) }} in
  let '(txns, position) := en_onClose env (rc_previousLedger s) (rc_now s) (rc_mode s) in
  let r := (Result_new txns position) {{ rs_roundTime := timer_reset (en_clock env) }} in
  let s := set_result r s in
  let s :=
    match rc_acquired s !! set_id txns with
    | Some _ => s
    | None => emit (ShareTxSet txns) (s {{ rc_acquired := <[set_id txns := txns]> (rc_acquired s) }})
    end in
  let s := if decide (rc_mode s = proposing) then emit (Propose position) s else s in
  fold_left (fun s '(_, pos) =>
    match rc_acquired s !! pp_position (po_proposal pos) with
    | Some set => createDisputes set s
    | None => s
    end) (map_to_list (rc_currPeerPositions s)) s.

Definition sinceClose (s : Rpca) : Z :=
  let prev := rc_previousLedger s in
  let previousCloseCorrect :=
    negb (bool_decide (rc_mode s = wrongLedger)) && closeAgree prev
    && negb (li_closeTime prev =? li_parentCloseTime prev + 1) in
  let lastCloseTime := if previousCloseCorrect then li_closeTime prev else rc_prevCloseTime s in
  if rc_now s >=? lastCloseTime then (rc_now s - lastCloseTime) * 1000
  else - ((lastCloseTime - rc_now s) * 1000).

Definition phaseOpen (env : RpcaEnv) (s : Rpca) : Rpca :=
  let s := s {{ rc_openTime := tick (rc_openTime s) (en_clock env) }} in
  let idleInterval :=
    Z.max (ledgerIDLE_INTERVAL (en_parms env))
      (u32 (2 * li_closeTimeResolution (rc_previousLedger s)) * 1000) in
  if shouldCloseLedger (en_hasOpenTransactions env) (rc_prevProposers s)
       (Z.of_nat (size (rc_currPeerPositions s))) (en_proposersValidated env (rc_prevLedgerID s))
       (rc_prevRoundTime s) (sinceClose s) (tm_dur (rc_openTime s)) idleInterval (en_parms env)
  then closeLedger env s else s.

(** ** The establish phase *)

Definition asCloseTime (s : Rpca) (raw : Z) : Z := roundCloseTime raw (rc_closeResolution s).

(** A stale position is dropped, the close time of another one counted. *)
Definition fresh_step (peerCutoff : Z) (acc : Rpca * gmap Z Z) (e : Z * RCLCxPeerPos) : Rpca * gmap Z Z :=
  let '(s, votes) := acc in
  let '(node, pos) := e in
  let prop := po_proposal pos in
  if isStale prop peerCutoff then
    let s := match rc_result s with Some r => set_result (unvote_all (pp_nodeID prop) r) s | None => s end in
    (s {{ rc_currPeerPositions := delete node (rc_currPeerPositions s) }}, votes)
  else
    let t := asCloseTime s (pp_closeTime prop) in
    (s, <[t := default 0 (votes !! t) + 1]> votes).

Definition fresh_positions (peerCutoff : Z) (s : Rpca) : Rpca * gmap Z Z :=
  fold_left (fresh_step peerCutoff) (map_to_list (rc_currPeerPositions s)) (s, ∅).

(** Our vote on one dispute, and the set that changes with it. *)
Definition vote_step (parms : RpcaConsensusParms) (percent : Z) (isProposing : bool) (txns : TxSet)
    (acc : gmap Z DisputedTx * option TxSet) (e : Z * DisputedTx) : gmap Z DisputedTx * option TxSet :=
  let '(ds, mutableSet) := acc in
  let '(txId, dispute) := e in
  let '(changed, dispute) := updateVote dispute percent isProposing parms in
  if changed then
    let set := default txns mutableSet in
    (<[txId := dispute]> ds,
     Some (if dt_ourVote dispute then tx_insert set (dt_tx dispute) else tx_erase set txId))
  else (ds, mutableSet).

Definition update_votes (parms : RpcaConsensusParms) (percent : Z) (isProposing : bool) (txns : TxSet)
    (disputes : gmap Z DisputedTx) : gmap Z DisputedTx * option TxSet :=
  fold_left (vote_step parms percent isProposing txns) (map_to_list disputes) (disputes, None).

(** The votes in the order of the times: the time chosen, the votes it has, and
    whether it has enough. *)
Definition close_time_vote (threshConsensus : Z) (acc : Z * Z * bool) (tv : Z * Z) : Z * Z * bool :=
  let '(time, threshVote, have) := acc in
  let '(t, v) := tv in
  if v >=? threshVote then (t, v, have || (v >=? threshConsensus)) else acc.

Definition time_order (a b : Z * Z) : Prop := a.1 <= b.1.

#[local] Instance time_order_dec a b : Decision (time_order a b).
Proof. unfold time_order. apply _. Defined.

Definition in_time_order (votes : gmap Z Z) : list (Z * Z) := merge_sort time_order (map_to_list votes).

Definition consensus_close_time (parms : RpcaConsensusParms) (percent participants : Z) (votes : gmap Z Z)
  : Z * bool :=
  let threshVote := participantsNeeded participants (threshold parms percent) in
  let threshConsensus := participantsNeeded participants (avCT_CONSENSUS_PCT parms) in
  let '(time, _, have) := fold_left (close_time_vote threshConsensus) (in_time_order votes) (0, threshVote, false) in
  (time, have).

(** The position taken when the set or the close time changed. *)
Definition take_position (newSet : TxSet) (closeTime : Z) (s : Rpca) : Rpca :=
  match rc_result s with
  | None => s
  | Some r =>
      let newID := set_id newSet in
      let position := changePosition (rs_position r) newID closeTime (rc_now s) in
      let s := set_result (r {{ rs_txns := newSet; rs_position := position }}) s in
      let s :=
        match rc_acquired s !! newID with
        | Some _ => s
        | None =>
            let s := s {{ rc_acquired := <[newID := newSet]> (rc_acquired s) }} in
            let s := if isBowOut position then s else emit (ShareTxSet newSet) s in
            fold_left (fun s '(nodeId, peerPos) =>
              if pp_position (po_proposal peerPos) =? newID then updateDisputes nodeId newSet s else s)
              (map_to_list (rc_currPeerPositions s)) s
        end in
      if negb (isBowOut position) && bool_decide (rc_mode s = proposing)
      then emit (Propose position) s else s
  end.

Definition updateOurPositions (env : RpcaEnv) (s : Rpca) : Rpca :=
  let parms := en_parms env in
  let peerCutoff := u32 (rc_now s - proposeFRESHNESS parms) in
  let ourCutoff := u32 (rc_now s - proposeINTERVAL parms) in
  let '(s, closeTimeVotes) := fresh_positions peerCutoff s in
  match rc_result s with
  | None => s
  | Some r =>
      let isProposing := bool_decide (rc_mode s = proposing) in
      let '(disputes, ourNewSet) :=
        update_votes parms (rc_convergePercent s) isProposing (rs_txns r) (rs_disputes r) in
      let r := r {{ rs_disputes := disputes }} in
      let s := set_result r s in
      let ourTime := asCloseTime s (pp_closeTime (rs_position r)) in
      let '(consensusCloseTime, have) :=
        if decide (rc_currPeerPositions s = ∅) then (ourTime, true)
        else
          let peers := Z.of_nat (size (rc_currPeerPositions s)) in
          if isProposing then
            consensus_close_time parms (rc_convergePercent s) (peers + 1)
              (<[ourTime := default 0 (closeTimeVotes !! ourTime) + 1]> closeTimeVotes)
          else consensus_close_time parms (rc_convergePercent s) peers closeTimeVotes in
      let s := s {{ rc_haveCloseTimeConsensus := have }} in
      match ourNewSet with
      | Some newSet => take_position newSet consensusCloseTime s
      | None =>
          if negb (consensusCloseTime =? ourTime) || isStale (rs_position r) ourCutoff
          then take_position (rs_txns r) consensusCloseTime s else s
      end
  end.

Definition shouldPause (env : RpcaEnv) (s : Rpca) : bool :=
  let seq := li_seq (rc_previousLedger s) in
  let '(quorum, trustedKeys) := en_quorumKeys env in
  let '(laggards, remaining) := en_laggards env seq trustedKeys in
  should_pause seq (en_validLedgerIndex env) (Z.of_nat (size trustedKeys)) laggards
    (Z.of_nat (size remaining)) quorum
    (match rc_result s with Some r => tm_dur (rs_roundTime r) | None => 0 end)
    (en_validator env) (en_haveValidated env) (en_parms env).

Definition agreeing (position : Z) (positions : gmap Z RCLCxPeerPos) : Z :=
  Z.of_nat (size (filter (fun e => pp_position (po_proposal e.2) = position) positions)).

Definition haveConsensus (env : RpcaEnv) (s : Rpca) : bool * Rpca :=
  match rc_result s with
  | None => (false, s)
  | Some r =>
      let agree := agreeing (pp_position (rs_position r)) (rc_currPeerPositions s) in
      let state :=
        checkConsensus (rc_prevProposers s) (Z.of_nat (size (rc_currPeerPositions s))) agree
          (en_proposersFinished env (rc_previousLedger s) (rc_prevLedgerID s)) (rc_prevRoundTime s)
          (tm_dur (rs_roundTime r)) (en_parms env) (bool_decide (rc_mode s = proposing)) in
      (negb (bool_decide (state = cs_No)), set_result (r {{ rs_state := state }}) s)
  end.

Definition phaseEstablish (env : RpcaEnv) (s : Rpca) : Rpca :=
  match rc_result s with
  | None => s
  | Some r =>
      let parms := en_parms env in
      let positions := Z.of_nat (size (rc_currPeerPositions s)) in
      let r := r {{ rs_roundTime := tick (rs_roundTime r) (en_clock env); rs_proposers := positions }} in
      let roundTime := tm_dur (rs_roundTime r) in
      let s := set_result r s in
      let s := s {{ rc_convergePercent :=
                      i32 (Z.quot (roundTime * 100) (Z.max (rc_prevRoundTime s) (avMIN_CONSENSUS_TIME parms))) }} in
      if roundTime <? ledgerMIN_CONSENSUS parms then s
      else
        let s := updateOurPositions env s in
        if shouldPause env s then s
        else
          let '(yes, s) := haveConsensus env s in
          if negb yes then s
          else if negb (rc_haveCloseTimeConsensus s) then s
          else
            match rc_result s with
            | None => s
            | Some r =>
                let positions := Z.of_nat (size (rc_currPeerPositions s)) in
                let s := emit (UpdateOperatingMode positions) s in
                let s := s {{ rc_prevProposers := positions; rc_prevRoundTime := tm_dur (rs_roundTime r);
                              rc_phase := ph_accepted }} in
                emit (OnAccept r (rc_previousLedger s) (rc_closeResolution s) (rc_rawCloseTimes s) (rc_mode s)) s
            end
  end.

(** ** Rounds *)

Definition leaveConsensus (s : Rpca) : Rpca :=
  if decide (rc_mode s = proposing) then
    let s :=
      match rc_result s with
      | Some r =>
          if isBowOut (rs_position r) then s
          else
            let position := bowOut (rs_position r) (rc_now s) in
            emit (Propose position) (set_result (r {{ rs_position := position }}) s)
      | None => s
      end in
    mode_set observing s
  else s.

Section Recursion.

(** [timerEntry] of the nested call. *)
Context (timer : Z -> Rpca -> option Rpca).

Definition startRoundInternal (env : RpcaEnv) (now prevLedgerID : Z) (prevLedger : LedgerInfo)
    (mode : ConsensusMode) (s : Rpca) : option Rpca :=
  let s := mode_set mode (s {{ rc_phase := ph_open }}) in
  let s :=
    s {{ rc_now := now; rc_prevLedgerID := prevLedgerID; rc_previousLedger := prevLedger;
         rc_result := None; rc_convergePercent := 0; rc_haveCloseTimeConsensus := false;
         rc_openTime := timer_reset (en_clock env); rc_currPeerPositions := ∅; rc_acquired := ∅;
         rc_rawCloseTimes := mkCloseTimes ∅ 0; rc_deadNodes := ∅;
         rc_closeResolution :=
           getNextLedgerTimeResolution (li_closeTimeResolution prevLedger) (closeAgree prevLedger)
             (u32 (li_seq prevLedger + 1)) }} in
  let s := playbackProposals env s in
  if Z.of_nat (size (rc_currPeerPositions s)) >? rc_prevProposers s / 2
  then timer (rc_now s) s else Some s.

Definition handleWrongLedger (env : RpcaEnv) (lgrId : Z) (s : Rpca) : option Rpca :=
  let s := leaveConsensus s in
  let s :=
    if rc_prevLedgerID s =? lgrId then s
    else
      let raw := rc_rawCloseTimes s in
      let s :=
        s {{ rc_prevLedgerID := lgrId;
             rc_result := (fun r => r {{ rs_disputes := ∅; rs_compares := ∅ }}) <$> rc_result s;
             rc_currPeerPositions := ∅; rc_rawCloseTimes := mkCloseTimes ∅ (ct_self raw);
             rc_deadNodes := ∅ }} in
      playbackProposals env s in
  if li_hash (rc_previousLedger s) =? rc_prevLedgerID s then Some s
  else
    match en_acquireLedger env (rc_prevLedgerID s) with
    | Some newLedger => startRoundInternal env (rc_now s) lgrId newLedger switchedLedger s
    | None => Some (mode_set wrongLedger s)
    end.

Definition checkLedger (env : RpcaEnv) (s : Rpca) : option Rpca :=
  let netLgr := en_getPrevLedger env (rc_prevLedgerID s) (rc_previousLedger s) (rc_mode s) in
  if negb (netLgr =? rc_prevLedgerID s) then handleWrongLedger env netLgr s
  else if negb (li_hash (rc_previousLedger s) =? rc_prevLedgerID s) then handleWrongLedger env netLgr s
  else Some s.

End Recursion.

Fixpoint timerEntry (fuel : nat) (env : RpcaEnv) (now : Z) (s : Rpca) : option Rpca :=
  match fuel with
  | O => None
  | S fuel =>
      if decide (rc_phase s = ph_accepted) then Some s
      else
        s ← checkLedger (timerEntry fuel env) env (s {{ rc_now := now }});
        Some (if decide (rc_phase s = ph_open) then phaseOpen env s
              else if decide (rc_phase s = ph_establish) then phaseEstablish env s
              else s)
  end.

Definition startRound (fuel : nat) (env : RpcaEnv) (now prevLedgerID : Z) (prevLedger : LedgerInfo)
    (nowUntrusted : gset Z) (isProposing : bool) (s : Rpca) : option Rpca :=
  let s :=
    if rc_firstRound s then
      s {{ rc_prevRoundTime := ledgerIDLE_INTERVAL (en_parms env); rc_prevCloseTime := li_closeTime prevLedger;
           rc_firstRound := false }}
    else s {{ rc_prevCloseTime := ct_self (rc_rawCloseTimes s) }} in
  let s :=
    s {{ rc_recentPeerPositions :=
           fold_left (fun m n => delete n m) (elements nowUntrusted) (rc_recentPeerPositions s) }} in
  let startMode := if isProposing then proposing else observing in
  if li_hash prevLedger =? prevLedgerID
  then startRoundInternal (timerEntry fuel env) env now prevLedgerID prevLedger startMode s
  else
    match en_acquireLedger env prevLedgerID with
    | Some newLedger => startRoundInternal (timerEntry fuel env) env now prevLedgerID newLedger startMode s
    | None => startRoundInternal (timerEntry fuel env) env now prevLedgerID prevLedger wrongLedger s
    end.

Definition simulate (env : RpcaEnv) (now : Z) (consensusDelay : option Z) (s : Rpca) : Rpca :=
  let s := closeLedger env (s {{ rc_now := now }}) in
  match rc_result s with
  | None => s
  | Some r =>
      let positions := Z.of_nat (size (rc_currPeerPositions s)) in
      let r := r {{ rs_roundTime := tick_fixed (rs_roundTime r) (default 100 consensusDelay);
                    rs_proposers := positions }} in
      let s := set_result r s in
      let s := s {{ rc_prevProposers := positions; rc_prevRoundTime := tm_dur (rs_roundTime r);
                    rc_phase := ph_accepted }} in
      emit (OnForceAccept r (rc_previousLedger s) (rc_closeResolution s) (rc_rawCloseTimes s) (rc_mode s)) s
  end.

End Rpca.

(** ** The accepted ledger's close time ([RpcaAdaptor::doAccept])

    The close time the new ledger is built with, and whether it is correct. *)

Definition accepted_close_time (positionCloseTime prevCloseTime : Z) : Z * bool :=
  if positionCloseTime =? 0 then (u32 (prevCloseTime + 1), false)
  else (Z.max positionCloseTime (u32 (prevCloseTime + 1)), true).
