(* ===== verification/RpcaProps.v ===== *)
(** * RPCA consensus: disputes

    What the operations of disputed transactions do to the tallies, and how the
    disputes of a round are created: one for each transaction on which our set
    and a compared set differ, with the votes of all peers whose set is known. *)

From S2P Require Import Prelude HsTypes ConsensusTypes LedgerTiming RpcaTypes Rpca.
From coqutil Require Import Datatypes.RecordSetters.
Import DoubleBraceUpdate.

#[local] Open Scope Z_scope.

(** ** Tallies *)

Definition tally (b : bool) (votes : gmap Z bool) : Z := Z.of_nat (size (filter (fun e => e.2 = b) votes)).

Definition counts (d : DisputedTx) : Prop :=
  dt_yays d = tally true (dt_votes d) /\ dt_nays d = tally false (dt_votes d).

Lemma tally_fresh b votes n v :
  votes !! n = None -> tally b (<[n := v]> votes) = (if Bool.eqb v b then 1 else 0) + tally b votes.
Proof.
  intros H. unfold tally. destruct (Bool.eqb v b) eqn:E.
  - apply Bool.eqb_prop in E as ->. rewrite map_filter_insert_True by done. rewrite map_size_insert_None; [lia|].
    apply map_lookup_filter_None. by left.
  - apply Bool.eqb_false_iff in E. rewrite map_filter_insert_False by done. by rewrite delete_id.
Qed.

Lemma tally_delete b votes n v :
  votes !! n = Some v -> tally b votes = (if Bool.eqb v b then 1 else 0) + tally b (delete n votes).
Proof. intros H. rewrite <- (insert_delete_id votes n v H) at 1. apply tally_fresh, lookup_delete_eq. Qed.

Lemma tally_insert b votes n v :
  tally b (<[n := v]> votes) = (if Bool.eqb v b then 1 else 0) + tally b (delete n votes).
Proof. rewrite <- insert_delete_eq. apply tally_fresh, lookup_delete_eq. Qed.

Lemma tally_nonneg b votes : 0 <= tally b votes.
Proof. unfold tally. lia. Qed.

(** What [setVote], [unVote] and [updateVote] leave as it is. *)
Definition same_dispute (d d' : DisputedTx) : Prop := dt_tx d' = dt_tx d /\ dt_ourVote d' = dt_ourVote d.

Lemma setVote_ok d n v :
  counts d -> counts (setVote d n v) /\ same_dispute d (setVote d n v)
              /\ dt_votes (setVote d n v) = <[n := v]> (dt_votes d).
Proof.
  destruct d as [y na our tx votes]. unfold counts, same_dispute, setVote. simpl. intros [Hy Hn].
  pose proof (tally_delete true votes n) as T1. pose proof (tally_delete false votes n) as T2.
  destruct (votes !! n) as [w|] eqn:E.
  - specialize (T1 w eq_refl). specialize (T2 w eq_refl).
    destruct v, w; simpl in *; rewrite ?tally_insert; simpl; (split; [lia|]); (split; [done|]);
      first [done | by rewrite insert_id].
  - rewrite (delete_id votes n E) in *. destruct v; simpl; rewrite !tally_fresh by done; simpl; repeat split; lia.
Qed.

Lemma unVote_ok d n :
  counts d -> counts (unVote d n) /\ same_dispute d (unVote d n) /\ dt_votes (unVote d n) = delete n (dt_votes d).
Proof.
  destruct d as [y na our tx votes]. unfold counts, same_dispute, unVote. simpl. intros [Hy Hn].
  pose proof (tally_delete true votes n) as T1. pose proof (tally_delete false votes n) as T2.
  destruct (votes !! n) as [[]|] eqn:E; simpl.
  - specialize (T1 _ eq_refl). specialize (T2 _ eq_refl). simpl in *. repeat split; lia.
  - specialize (T1 _ eq_refl). specialize (T2 _ eq_refl). simpl in *. repeat split; lia.
  - by rewrite delete_id.
Qed.

Lemma updateVote_ok d percent isProposing p :
  let r := updateVote d percent isProposing p in
  dt_tx r.2 = dt_tx d /\ dt_votes r.2 = dt_votes d /\ dt_yays r.2 = dt_yays d /\ dt_nays r.2 = dt_nays d
  /\ dt_ourVote r.2 = (if r.1 then negb (dt_ourVote d) else dt_ourVote d).
Proof.
  destruct d as [y na our tx votes]. unfold updateVote. cbv zeta.
  destruct (our && _); [done|]. destruct (negb our && _); [done|].
  match goal with |- context [Bool.eqb ?b our] => generalize b; intros b' end.
  destruct b', our; done.
Qed.

(** ** Sets *)

Lemma differences_lookup a b k :
  differences a b !! k = if decide (a !! k = b !! k) then None else Some (bool_decide (is_Some (a !! k))).
Proof.
  unfold differences. rewrite lookup_merge. unfold diag_None.
  destruct (a !! k), (b !! k); simpl; repeat case_decide; try done; congruence.
Qed.

(** ** Creating disputes *)

(** The part of the state that disputes are not. *)
Definition frame (s : Rpca) :=
  (rc_phase s, rc_mode s, rc_prevLedgerID s, rc_previousLedger s, rc_firstRound s, rc_now s,
   (rc_prevCloseTime s, rc_haveCloseTimeConsensus s, rc_convergePercent s, rc_openTime s,
    rc_closeResolution s, rc_prevRoundTime s),
   (rc_acquired s, rc_rawCloseTimes s, rc_currPeerPositions s, rc_recentPeerPositions s,
    rc_prevProposers s, rc_deadNodes s)).

(** The set a peer's position stands for, when it is known. *)
Definition set_of (s : Rpca) (n : Z) : option TxSet :=
  pos ← rc_currPeerPositions s !! n; rc_acquired s !! pp_position (po_proposal pos).

Section Disputes.

Context {TS : TxSetOps}.

Definition fresh_dispute (s : Rpca) (txns : TxSet) (k : Z) (d : DisputedTx) : Prop :=
  tx_id (dt_tx d) = k /\ counts d /\ dt_ourVote d = tx_exists txns k
  /\ forall n, dt_votes d !! n = (fun set => tx_exists set k) <$> set_of s n.

Lemma fold_votes s d (es : list (Z * RCLCxPeerPos)) k :
  NoDup es.*1 -> counts d ->
  let r := fold_left (fun d '(peer, pos) =>
      match rc_acquired s !! pp_position (po_proposal pos) with
      | Some set => setVote d peer (tx_exists set k)
      | None => d
      end) es d in
  counts r /\ same_dispute d r
  /\ forall n, dt_votes r !! n =
       match (list_to_map es : gmap Z RCLCxPeerPos) !! n with
       | Some pos =>
           match rc_acquired s !! pp_position (po_proposal pos) with
           | Some set => Some (tx_exists set k)
           | None => dt_votes d !! n
           end
       | None => dt_votes d !! n
       end.
Proof.
  revert d. induction es as [|[p pos] es IH]; intros d Hnd Hd; simpl; [done|].
  apply NoDup_cons in Hnd as [Hp Hnd].
  destruct (rc_acquired s !! pp_position (po_proposal pos)) as [set|] eqn:E.
  - destruct (setVote_ok d p (tx_exists set k) Hd) as (H1 & [H2 H2'] & H3).
    destruct (IH _ Hnd H1) as (R1 & [R2 R2'] & R3). split_and!; [done | split; congruence|].
    intros n. rewrite R3, H3. destruct (decide (n = p)) as [->|Hn].
    + rewrite lookup_insert_eq, not_elem_of_list_to_map_1 by done. by rewrite lookup_insert_eq, E.
    + rewrite !lookup_insert_ne by done. done.
  - destruct (IH _ Hnd Hd) as (R1 & R2 & R3). split_and!; [done..|]. intros n. rewrite R3.
    destruct (decide (n = p)) as [->|Hn].
    + by rewrite not_elem_of_list_to_map_1, lookup_insert_eq, E.
    + by rewrite lookup_insert_ne.
Qed.

(** What creating disputes does to the result. *)
Record extended (s s' : Rpca) (r r' : ConsensusResult) : Prop := {
  ext_frame : frame s' = frame s;
  ext_result : rc_result s' = Some r';
  ext_rest : (rs_txns r', rs_position r', rs_roundTime r', rs_state r', rs_proposers r')
             = (rs_txns r, rs_position r, rs_roundTime r, rs_state r, rs_proposers r);
  ext_old : rs_disputes r ⊆ rs_disputes r';
  ext_new : forall k d, rs_disputes r' !! k = Some d ->
    rs_disputes r !! k = Some d \/ fresh_dispute s (rs_txns r) k d
}.

Lemma extended_refl s r : rc_result s = Some r -> extended s s r r.
Proof. intros H. split; [done | done | done | done | by left]. Qed.

(** What disputes do not touch: the frame, and the result but for them. *)
Definition around (s : Rpca) :=
  (frame s,
   (fun r => (rs_txns r, rs_position r, rs_roundTime r, rs_state r, rs_proposers r)) <$> rc_result s).

Lemma create_dispute_around o s e : around (create_dispute o s e) = around s.
Proof.
  unfold create_dispute. destruct (rc_result s) as [r|] eqn:E; [|done]. destruct (_ !! _); [done|].
  unfold around. rewrite E. done.
Qed.

Lemma createDisputes_around o s : around (createDisputes o s) = around s.
Proof.
  unfold createDisputes. destruct (rc_result s) as [r|] eqn:E; [|done]. case_decide; [done|]. cbv zeta.
  set (s1 := set_result _ s). assert (E1 : around s1 = around s) by (unfold around; rewrite E; done).
  destruct (_ =? _); [done|]. rewrite <- E1.
  apply (fold_left_keeps _ (fun s' => around s' = around s1)); [|done]. intros s' e <-. apply create_dispute_around.
Qed.

Lemma updateDisputes_around n o s : around (updateDisputes n o s) = around s.
Proof.
  unfold updateDisputes. destruct (rc_result s) as [r|]; [|done].
  assert (around (if decide (set_id o ∈ rs_compares r) then s else createDisputes o s) = around s) as <-
    by (case_decide; [done | apply createDisputes_around]).
  set (s1 := if decide _ then _ else _). destruct (rc_result s1) eqn:E; [|done]. unfold around. rewrite E. done.
Qed.

Lemma set_of_frame s s' n : frame s' = frame s -> set_of s' n = set_of s n.
Proof. unfold frame, set_of. intros [= _ _ _ _ _ _ _ _ _ _ _ _ E1 _ E2 _ _ _]. by rewrite E1, E2. Qed.

Lemma extended_trans s1 s2 s3 r1 r2 r3 :
  extended s1 s2 r1 r2 -> extended s2 s3 r2 r3 -> extended s1 s3 r1 r3.
Proof.
  intros [A1 A2 A3 A4 A5] [B1 B2 B3 B4 B5]. split; [by rewrite B1 | done | by rewrite B3 | by etrans |].
  intros k d [H|(H1 & H2 & H3 & H4)]%B5; [by apply A5|]. right. injection A3 as E _ _ _ _. rewrite E in H3.
  split_and!; [done..|]. intros n. rewrite H4. by rewrite (set_of_frame s1 s2).
Qed.

Lemma create_dispute_ok o s r e :
  rc_result s = Some r ->
  exists r', extended s (create_dispute o s e) r r' /\ rs_compares r' = rs_compares r
             /\ is_Some (rs_disputes r' !! e.1).
Proof.
  intros Hr. unfold create_dispute. rewrite Hr. destruct (rs_disputes r !! e.1) as [d|] eqn:E.
  { exists r. split_and!; [by apply extended_refl | done | by rewrite E]. }
  set (dtx := fold_left _ _ _).
  destruct (fold_votes s (DisputedTx_new (mkTx e.1 (default [] ((if e.2 then rs_txns r else o) !! e.1)))
    (tx_exists (rs_txns r) e.1)) (map_to_list (rc_currPeerPositions s)) e.1) as (R1 & [R2 R2'] & R3).
  { apply NoDup_fst_map_to_list. }
  { split; unfold tally; simpl; by rewrite map_filter_empty, map_size_empty. }
  fold dtx in R1, R2, R2', R3. clearbody dtx. rewrite list_to_map_to_list in R3.
  exists (r {{ rs_disputes := <[e.1 := dtx]> (rs_disputes r) }}). split_and!.
  - destruct s. split; [done | done | done | |].
    + simpl. unfold constant. by apply insert_subseteq.
    + simpl. unfold constant. intros k d. destruct (decide (k = e.1)) as [->|Hk].
      * rewrite lookup_insert_eq. intros [= <-]. right. split_and!; [by rewrite R2 | done | by rewrite R2' |].
        intros n. rewrite R3. unfold set_of. simpl. rewrite lookup_empty.
        destruct (_ !! n) as [pos|]; simpl; [by destruct (_ !! _) | done].
      * rewrite lookup_insert_ne by done. by left.
  - done.
  - simpl. unfold constant. by rewrite lookup_insert_eq.
Qed.

Lemma create_disputes_fold o es s r :
  rc_result s = Some r ->
  exists r', extended s (fold_left (create_dispute o) es s) r r' /\ rs_compares r' = rs_compares r
             /\ forall k, k ∈ es.*1 -> is_Some (rs_disputes r' !! k).
Proof.
  revert s r. induction es as [|e es IH]; intros s r Hr; simpl.
  { exists r. split_and!; [by apply extended_refl | done | by intros k ?%elem_of_nil]. }
  destruct (create_dispute_ok o s r e Hr) as (r1 & H1 & H2 & H3).
  destruct (IH _ r1 (ext_result _ _ _ _ H1)) as (r2 & K1 & K2 & K3).
  exists r2. split_and!; [by eapply extended_trans | congruence |]. intros k [->|Hk]%elem_of_cons; [|by apply K3].
  destruct H3 as [d Hd]. exists d. eapply lookup_weaken; [exact Hd|]. apply K1.
Qed.

Lemma createDisputes_ok o s r :
  rc_result s = Some r ->
  exists r', extended s (createDisputes o s) r r' /\ rs_compares r' = {[set_id o]} ∪ rs_compares r
             /\ (set_id o ∉ rs_compares r -> set_id (rs_txns r) <> set_id o ->
                 forall k, is_Some (compare (rs_txns r) o !! k) -> is_Some (rs_disputes r' !! k)).
Proof.
  intros Hr. unfold createDisputes. rewrite Hr. destruct (decide (set_id o ∈ rs_compares r)) as [Hin|Hin].
  { exists r. split_and!; [by apply extended_refl | set_solver | done]. }
  set (r1 := r {{ rs_compares := _ }}). set (s1 := set_result r1 s).
  assert (H1 : extended s s1 r r1) by (destruct s; split; [done | done | done | done | by left]).
  assert (H1' : rs_compares r1 = {[set_id o]} ∪ rs_compares r) by done.
  destruct (Z.eqb_spec (set_id (rs_txns r)) (set_id o)) as [E|E]; [by exists r1|].
  destruct (create_disputes_fold o (map_to_list (compare (rs_txns r) o)) s1 r1 eq_refl) as (r2 & K1 & K2 & K3).
  exists r2. split_and!; [by eapply extended_trans | congruence |]. intros _ _ k [b Hk]. apply K3, list_elem_of_fmap.
  exists (k, b). split; [done|]. by apply elem_of_map_to_list.
Qed.

End Disputes.
