(* ===== verification/RpcaInvariant.v ===== *)
(** * RPCA consensus: what the disputes say in every state

    [good]: the vote of a peer whose transaction set is known is in every dispute, our own
    vote on a dispute is whether our set has the transaction, and every transaction on
    which our set and a known set of a current peer differ is disputed, unless there are as
    many disputes as one comparison may find.  Every operation keeps it. *)

From S2P Require Import Prelude HsTypes ConsensusTypes LedgerTiming RpcaTypes Rpca RpcaProps.
From coqutil Require Import Datatypes.RecordSetters.
Import DoubleBraceUpdate.

#[local] Open Scope Z_scope.

Section Invariant.

Context {TS : TxSetOps} {TL : TxSetLaws}.

(** [SHAMap::compare] finds every difference, or gives up with 65536 of them. *)
Lemma compare_cases a b :
  65536 <= Z.of_nat (size (compare a b)) \/ forall k, a !! k <> b !! k -> is_Some (compare a b !! k).
Proof.
  unfold compare. destruct (Z.leb_spec (Z.of_nat (size (differences a b))) 65536) as [_|Hd].
  - right. intros k Hk. by rewrite differences_lookup, decide_False.
  - left. by apply truncated_full.
Qed.

(** ** The invariant *)

Definition dispute_ok (s : Rpca) (r : ConsensusResult) (k : Z) (d : DisputedTx) : Prop :=
  tx_id (dt_tx d) = k /\ counts d /\ dt_ourVote d = tx_exists (rs_txns r) k
  /\ forall n, is_Some (dt_votes d !! n) -> is_Some (rc_currPeerPositions s !! n).

(** The differences with the sets that were compared are disputed, unless there are as
    many disputes as one comparison may find. *)
Definition disputed (r : ConsensusResult) : Prop :=
  65536 <= Z.of_nat (size (rs_disputes r))
  \/ forall set k, set_id set ∈ rs_compares r -> rs_txns r !! k <> set !! k -> is_Some (rs_disputes r !! k).

Definition result_ok (s : Rpca) (r : ConsensusResult) : Prop :=
  (forall k d, rs_disputes r !! k = Some d -> dispute_ok s r k d) /\ disputed r.

(** New votes on the same disputes. *)
Lemma disputed_fmap (f : DisputedTx -> DisputedTx) r r' :
  rs_disputes r' = f <$> rs_disputes r -> rs_compares r' = rs_compares r -> rs_txns r' = rs_txns r -> disputed r -> disputed r'.
Proof.
  unfold disputed. intros -> -> ->. rewrite map_size_fmap. intros [H|H]; [by left | right]. intros set k Hin Hne.
  rewrite lookup_fmap, fmap_is_Some. by apply (H set).
Qed.

(** The votes of a peer whose set is known are in, and its set was compared. *)
Definition voted (s : Rpca) (r : ConsensusResult) (n : Z) : Prop :=
  forall set k d, set_of s n = Some set -> rs_disputes r !! k = Some d -> dt_votes d !! n = Some (tx_exists set k).

Definition compared (s : Rpca) (r : ConsensusResult) (n : Z) : Prop :=
  forall set, set_of s n = Some set -> set_id set ∈ rs_compares r.

Definition own (s : Rpca) (r : ConsensusResult) : Prop :=
  pp_position (rs_position r) = set_id (rs_txns r) /\ rc_acquired s !! set_id (rs_txns r) = Some (rs_txns r).

Definition peer_ok (s : Rpca) (n : Z) (pos : RCLCxPeerPos) : Prop :=
  let p := po_proposal pos in
  pp_nodeID p = n /\ pp_previousLedger p = rc_prevLedgerID s /\ isBowOut p = false /\ n ∉ rc_deadNodes s.

Record base (s : Rpca) : Prop := {
  b_acquired : forall id set, rc_acquired s !! id = Some set -> set_id set = id;
  b_peers : forall n pos, rc_currPeerPositions s !! n = Some pos -> peer_ok s n pos;
  b_result : forall r, rc_result s = Some r -> result_ok s r
}.

Definition covered (s : Rpca) (n : Z) : Prop := forall r, rc_result s = Some r -> voted s r n /\ compared s r n.

Record good (s : Rpca) : Prop := {
  g_base : base s;
  g_phase : rc_phase s = ph_establish -> is_Some (rc_result s);
  g_own : forall r, rc_result s = Some r -> own s r;
  g_covered : forall n, covered s n
}.

(** The fields the invariant is about. *)
Definition core (s : Rpca) :=
  (rc_phase s, rc_prevLedgerID s, rc_acquired s, rc_result s, rc_currPeerPositions s, rc_deadNodes s).

Lemma good_core s s' : core s' = core s -> good s -> good s'.
Proof.
  unfold core. intros [= E1 E2 E3 E4 E5 E6] [[B1 B2 B3] G2 G3 G4].
  unfold covered, own, voted, compared, set_of, result_ok, dispute_ok, peer_ok in *.
  split; [split| | |]; unfold covered, own, voted, compared, set_of, result_ok, dispute_ok, peer_ok;
    rewrite ?E1, ?E2, ?E3, ?E4, ?E5, ?E6; done.
Qed.

(** ** Creating and updating disputes *)

Lemma voted_extended s s' r r' n : extended s s' r r' -> voted s r n -> voted s' r' n.
Proof.
  intros [E1 _ _ _ E5] H set k d Hs Hd. rewrite (set_of_frame s s') in Hs by done.
  destruct (E5 k d Hd) as [Ho|(_ & _ & _ & Hv)]; [by eapply H|]. by rewrite Hv, Hs.
Qed.

Lemma dispute_ok_extended s s' r r' k d :
  extended s s' r r' -> (forall k d, rs_disputes r !! k = Some d -> dispute_ok s r k d) ->
  rs_disputes r' !! k = Some d -> dispute_ok s' r' k d.
Proof using TS.
  intros [E1 _ E3 _ E5] H Hd. injection E3 as Et _ _ _ _. unfold frame in E1.
  assert (Ec : rc_currPeerPositions s' = rc_currPeerPositions s) by congruence.
  unfold dispute_ok. rewrite Ec, Et. destruct (E5 k d Hd) as [Ho|(H1 & H2 & H3 & H4)]; [by apply H|].
  split_and!; [done..|]. intros n. rewrite H4. unfold set_of. destruct (rc_currPeerPositions s !! n); [done|].
  by intros [? ?].
Qed.

Lemma base_frame s s' :
  frame s' = frame s -> base s -> (forall r, rc_result s' = Some r -> result_ok s' r) -> base s'.
Proof using TS.
  unfold frame. intros [=] [B1 B2 _] Hr. split; [| |done].
  - intros id set. replace (rc_acquired s') with (rc_acquired s) by done. apply B1.
  - intros n pos. unfold peer_ok. replace (rc_currPeerPositions s') with (rc_currPeerPositions s) by done.
    replace (rc_prevLedgerID s') with (rc_prevLedgerID s) by done.
    replace (rc_deadNodes s') with (rc_deadNodes s) by done. apply B2.
Qed.

Lemma disputed_created o s s' r r' :
  extended s s' r r' -> rs_compares r' = {[set_id o]} ∪ rs_compares r ->
  (set_id o ∉ rs_compares r -> set_id (rs_txns r) <> set_id o ->
   forall k, is_Some (compare (rs_txns r) o !! k) -> is_Some (rs_disputes r' !! k)) ->
  disputed r -> disputed r'.
Proof.
  intros HE Hc Hn [Hd|Hd].
  { left. pose proof (map_subseteq_size _ _ (ext_old _ _ _ _ HE)). lia. }
  pose proof (ext_rest _ _ _ _ HE) as E. injection E as Et _ _ _ _.
  assert (Hold : forall set k, set_id set ∈ rs_compares r -> rs_txns r' !! k <> set !! k -> is_Some (rs_disputes r' !! k)).
  { intros set k Hin Hne. rewrite Et in Hne. destruct (Hd set k Hin Hne) as [d Hk]. exists d. eapply lookup_weaken; [exact Hk|]. apply HE. }
  destruct (decide (set_id o ∈ rs_compares r)) as [Hin|Hin].
  { right. intros set k Hs. rewrite Hc in Hs. apply Hold. by apply elem_of_union in Hs as [->%elem_of_singleton|Hs]. }
  destruct (decide (set_id (rs_txns r) = set_id o)) as [Es%set_id_inj|Es].
  { right. intros set k Hs Hne. rewrite Hc in Hs. apply elem_of_union in Hs as [Hs|Hs]; [|by apply (Hold set)].
    apply elem_of_singleton, set_id_inj in Hs. by rewrite Et, Es, Hs in Hne. }
  destruct (compare_cases (rs_txns r) o) as [Hbig|Hall].
  - left. assert (Hsub : dom (compare (rs_txns r) o) ⊆ dom (rs_disputes r')).
    { intros k Hk. apply elem_of_dom. apply elem_of_dom in Hk. by apply Hn. }
    apply subseteq_size in Hsub. rewrite !size_dom in Hsub. lia.
  - right. intros set k Hs Hne. rewrite Hc in Hs. apply elem_of_union in Hs as [Hs|Hs]; [|by apply (Hold set)].
    apply elem_of_singleton, set_id_inj in Hs as ->. rewrite Et in Hne. by apply Hn, Hall.
Qed.

Lemma createDisputes_base o s r :
  base s -> rc_result s = Some r ->
  exists r', extended s (createDisputes o s) r r' /\ base (createDisputes o s)
             /\ set_id o ∈ rs_compares r' /\ rs_compares r ⊆ rs_compares r'.
Proof.
  intros HB Hr. destruct (createDisputes_ok o s r Hr) as (r' & HE & Hc & Hn). exists r'.
  split_and!; [done| | set_solver | set_solver].
  apply (base_frame s); [apply HE | done|]. intros r0. rewrite (ext_result _ _ _ _ HE). intros [= <-].
  destruct (b_result s HB r Hr) as [H1 H2]. split; [intros k d; by apply (dispute_ok_extended s _ r r')|].
  by apply (disputed_created o s (createDisputes o s) r r').
Qed.

Lemma vote_all_ok s r n set :
  is_Some (rc_currPeerPositions s !! n) -> result_ok s r ->
  let r' := vote_all n set r in
  result_ok s r' /\ (forall k d, rs_disputes r' !! k = Some d -> dt_votes d !! n = Some (tx_exists set k))
  /\ (forall n', n' <> n -> voted s r n' -> voted s r' n').
Proof using TS.
  intros Hn [H1 H2] r'.
  assert (Hl : forall k d', rs_disputes r' !! k = Some d' -> exists d, rs_disputes r !! k = Some d
    /\ d' = setVote d n (tx_exists set k)).
  { intros k d'. unfold r', vote_all. simpl. unfold constant. rewrite lookup_fmap.
    destruct (rs_disputes r !! k) as [d|] eqn:E; simpl; [|done]. intros [= <-]. exists d.
    by destruct (H1 k d E) as (-> & _). }
  split_and!; [split| |].
  - intros k d' Hd'. destruct (Hl k d' Hd') as (d & Hd & ->). destruct (H1 k d Hd) as (D1 & D2 & D3 & D4).
    destruct (setVote_ok d n (tx_exists set k) D2) as (C1 & [C2 C2'] & C3). split_and!; [by rewrite C2 | done | |].
    + by rewrite C2'.
    + intros n'. rewrite C3. destruct (decide (n' = n)) as [->|?]; [done|]. rewrite lookup_insert_ne by done. apply D4.
  - by eapply disputed_fmap.
  - intros k d' Hd'. destruct (Hl k d' Hd') as (d & Hd & ->). destruct (H1 k d Hd) as (_ & D2 & _).
    destruct (setVote_ok d n (tx_exists set k) D2) as (_ & _ & ->). apply lookup_insert_eq.
  - intros n' Hne HV set' k d' Hs Hd'. destruct (Hl k d' Hd') as (d & Hd & ->). destruct (H1 k d Hd) as (_ & D2 & _).
    destruct (setVote_ok d n (tx_exists set k) D2) as (_ & _ & ->). rewrite lookup_insert_ne by done. by eapply HV.
Qed.

(** A peer's known set is compared and its votes are set. *)
Lemma updateDisputes_ok n set s r :
  base s -> rc_result s = Some r -> set_of s n = Some set ->
  let s' := updateDisputes n set s in
  frame s' = frame s /\ base s' /\ covered s' n /\ (forall n', n' <> n -> covered s n' -> covered s' n')
  /\ exists r', rc_result s' = Some r' /\ rs_txns r' = rs_txns r /\ rs_position r' = rs_position r.
Proof.
  intros HB Hr Hset. unfold updateDisputes. rewrite Hr.
  assert (exists s1 r1, (if decide (set_id set ∈ rs_compares r) then s else createDisputes set s) = s1
    /\ extended s s1 r r1 /\ base s1 /\ set_id set ∈ rs_compares r1 /\ rs_compares r ⊆ rs_compares r1)
    as (s1 & r1 & -> & HE & HB1 & Hin & Hsub).
  { case_decide as Hd.
    - exists s, r. split_and!; [done | by apply extended_refl | done | done | done].
    - destruct (createDisputes_base set s r HB Hr) as (r1 & ? & ? & ? & ?). by exists (createDisputes set s), r1. }
  pose proof (ext_result _ _ _ _ HE) as Hr1. rewrite Hr1. pose proof (ext_frame _ _ _ _ HE) as HF.
  pose proof (ext_rest _ _ _ _ HE) as E. injection E as Et Ep _ _ _.
  assert (Hn : is_Some (rc_currPeerPositions s1 !! n)).
  { rewrite <- (set_of_frame s s1 n HF) in Hset. unfold set_of in Hset. by destruct (_ !! n). }
  destruct (vote_all_ok s1 r1 n set Hn (b_result s1 HB1 r1 Hr1)) as (V1 & V2 & V3). cbv zeta in V1, V2, V3.
  set (r2 := vote_all n set r1) in *. set (s2 := set_result r2 s1).
  assert (HF2 : frame s2 = frame s1) by (destruct s1; done).
  assert (Hr2 : rc_result s2 = Some r2) by done.
  assert (Hcmp : rs_compares r2 = rs_compares r1) by done.
  split_and!; [by rewrite HF2 | | | |].
  - apply (base_frame s1); [done | done|]. intros r0. rewrite Hr2. intros [= <-]. exact V1.
  - intros r0. rewrite Hr2. intros [= <-]. split.
    + intros set' k d Hs Hd. rewrite (set_of_frame s1 s2 n HF2), (set_of_frame s s1 n HF), Hset in Hs.
      injection Hs as <-. by apply V2.
    + intros set' Hs. rewrite (set_of_frame s1 s2 n HF2), (set_of_frame s s1 n HF), Hset in Hs. injection Hs as <-.
      by rewrite Hcmp.
  - intros n' Hne Hcov r0. rewrite Hr2. intros [= <-]. destruct (Hcov r Hr) as [C1 C2]. split.
    + intros set' k d Hs. rewrite (set_of_frame s1 s2 n' HF2) in Hs. apply (V3 n' Hne (voted_extended _ _ _ _ _ HE C1)); done.
    + intros set' Hs. rewrite (set_of_frame s1 s2 n' HF2), (set_of_frame s s1 n' HF) in Hs. rewrite Hcmp. by apply Hsub, C2.
  - exists r2. split_and!; [done | by rewrite <- Et | by rewrite <- Ep].
Qed.

(** ** A set that has just become known *)

Lemma revote_ok id set es s r :
  base s -> rc_result s = Some r -> rc_acquired s !! id = Some set ->
  (forall n pos, (n, pos) ∈ es -> rc_currPeerPositions s !! n = Some pos) ->
  (forall n, covered s n \/ exists pos, (n, pos) ∈ es /\ pp_position (po_proposal pos) = id) ->
  let s' := fold_left (fun s '(nodeId, peerPos) =>
      if pp_position (po_proposal peerPos) =? id then updateDisputes nodeId set s else s) es s in
  frame s' = frame s /\ base s' /\ (forall n, covered s' n)
  /\ exists r', rc_result s' = Some r' /\ rs_txns r' = rs_txns r /\ rs_position r' = rs_position r.
Proof.
  revert s r. induction es as [|[n pos] es IH]; intros s r HB Hr Ha Hes Hc; simpl.
  { split_and!; [done | done | | by exists r]. intros n. destruct (Hc n) as [?|(pos & ?%elem_of_nil & _)]; done. }
  destruct (Z.eqb_spec (pp_position (po_proposal pos)) id) as [E|E].
  - assert (Hset : set_of s n = Some set) by (unfold set_of; rewrite (Hes n pos) by (by left); simpl; by rewrite E).
    destruct (updateDisputes_ok n set s r HB Hr Hset) as (U1 & U2 & U3 & U4 & r1 & U5 & U6 & U7). cbv zeta in *.
    set (s1 := updateDisputes n set s) in *. clearbody s1.
    assert (Ea : rc_acquired s1 = rc_acquired s) by (unfold frame in U1; congruence).
    assert (Ec : rc_currPeerPositions s1 = rc_currPeerPositions s) by (unfold frame in U1; congruence).
    destruct (IH s1 r1 U2 U5) as (R1 & R2 & R3 & r2 & R4 & R5 & R6).
    + by rewrite Ea.
    + intros n' pos' Hin. rewrite Ec. apply Hes. by right.
    + intros n'. destruct (decide (n' = n)) as [->|Hne]; [by left|].
      destruct (Hc n') as [?|(pos' & [[= -> ->]|Hin]%elem_of_cons & E')]; [left; by apply U4 | done | right; by exists pos'].
    + split_and!; [by rewrite R1 | done | done |]. exists r2. split_and!; [done | congruence | congruence].
  - apply (IH s r HB Hr Ha).
    + intros n' pos' Hin. apply Hes. by right.
    + intros n'. destruct (Hc n') as [?|(pos' & [[= -> ->]|Hin]%elem_of_cons & E')]; [by left | done | right; by exists pos'].
Qed.

(** Learning a set changes what is known of the peers that propose it. *)
Lemma learn_set s id set :
  (forall id set, rc_acquired s !! id = Some set -> set_id set = id) -> rc_acquired s !! id = None ->
  (forall n, covered s n) ->
  let s' := s {{ rc_acquired := <[id := set]> (rc_acquired s) }} in
  forall n, covered s' n
    \/ exists pos, (n, pos) ∈ map_to_list (rc_currPeerPositions s') /\ pp_position (po_proposal pos) = id.
Proof.
  intros HA Hid HC s' n. destruct (rc_currPeerPositions s !! n) as [pos|] eqn:E.
  - destruct (decide (pp_position (po_proposal pos) = id)) as [Ep|Ep].
    { right. exists pos. split; [|done]. by apply elem_of_map_to_list. }
    left. assert (Es : set_of s' n = set_of s n).
    { unfold set_of, s'. simpl. unfold constant.
      change (match s with mkRpca _ _ _ _ _ _ _ _ _ _ _ _ _ _ _ c _ _ _ _ => c end) with (rc_currPeerPositions s).
      rewrite E. simpl. by rewrite lookup_insert_ne. }
    intros r Hr. destruct (HC n r Hr) as [C1 C2]. unfold voted, compared. rewrite Es. done.
  - left. intros r Hr. assert (Es : set_of s' n = None).
    { unfold set_of, s'. simpl.
      change (match s with mkRpca _ _ _ _ _ _ _ _ _ _ _ _ _ _ _ c _ _ _ _ => c end) with (rc_currPeerPositions s).
      by rewrite E. }
    unfold voted, compared. rewrite Es. done.
Qed.

Lemma gotTxSet_good now set s : good s -> good (gotTxSet now set s).
Proof.
  intros HG. unfold gotTxSet. case_decide; [done|]. cbv zeta.
  set (s0 := s {{ rc_now := now }}). assert (HG0 : good s0) by (by apply (good_core s)). clearbody s0. clear HG.
  destruct (rc_acquired s0 !! set_id set) as [old|] eqn:Ea; [done|].
  destruct HG0 as [HB HP HO HC]. pose proof (learn_set s0 _ set (b_acquired _ HB) Ea HC) as HL. cbv zeta in HL.
  set (s1 := s0 {{ rc_acquired := <[set_id set := set]> (rc_acquired s0) }}) in *.
  assert (Hacq : rc_acquired s1 = <[set_id set := set]> (rc_acquired s0)) by done.
  assert (HB1 : base s1).
  { split; [|exact (b_peers _ HB) | exact (b_result _ HB)]. intros id x. rewrite Hacq, lookup_insert_Some.
    intros [[<- <-]|[_ ?]]; [done | by apply (b_acquired _ HB)]. }
  assert (HO1 : forall r, rc_result s1 = Some r -> own s1 r).
  { intros r Hr. destruct (HO r Hr) as [O1 O2]. split; [done|]. rewrite Hacq, lookup_insert_ne; [done|].
    intros E. by rewrite <- E, Ea in O2. }
  destruct (rc_result s1) as [r|] eqn:Er.
  - destruct (revote_ok (set_id set) set (map_to_list (rc_currPeerPositions s1)) s1 r HB1 Er) as (R1 & R2 & R3 & r' & R4 & R5 & R6).
    { by rewrite Hacq, lookup_insert_eq. }
    { intros n pos. by rewrite elem_of_map_to_list. }
    { exact HL. }
    split; [done | | | done].
    + intros _. by rewrite R4.
    + intros r0. rewrite R4. intros [= <-]. destruct (HO1 r eq_refl) as [O1 O2]. unfold own. rewrite R5, R6. split; [done|].
      unfold frame in R1. assert (rc_acquired (fold_left _ _ s1) = rc_acquired s1) as -> by (injection R1; done). done.
  - split; [done | | by rewrite Er | by intros n r; rewrite Er].
    intros Hp. specialize (HP Hp). change (is_Some (rc_result s1)) in HP. rewrite Er in HP. by destruct HP.
Qed.

(** ** Peers that come and go *)

Lemma unvote_all_ok s r n s' :
  result_ok s r ->
  rc_acquired s' = rc_acquired s -> rc_currPeerPositions s' = delete n (rc_currPeerPositions s) ->
  rc_result s' = Some (unvote_all n r) ->
  result_ok s' (unvote_all n r)
  /\ forall n', (voted s r n' /\ compared s r n') -> voted s' (unvote_all n r) n' /\ compared s' (unvote_all n r) n'.
Proof using TS.
  intros [H1 H2] Ea Ec Er.
  assert (Hl : forall k d', rs_disputes (unvote_all n r) !! k = Some d' -> exists d, rs_disputes r !! k = Some d
    /\ d' = unVote d n).
  { intros k d'. unfold unvote_all. simpl. unfold constant. rewrite lookup_fmap.
    destruct (rs_disputes r !! k) as [d|]; simpl; [|done]. intros [= <-]. by exists d. }
  split; [split|].
  - intros k d' Hd'. destruct (Hl k d' Hd') as (d & Hd & ->). destruct (H1 k d Hd) as (D1 & D2 & D3 & D4).
    destruct (unVote_ok d n D2) as (C1 & [C2 C2'] & C3). split_and!; [by rewrite C2 | done | by rewrite C2' |].
    intros n'. rewrite C3, Ec. destruct (decide (n' = n)) as [->|?]; [rewrite lookup_delete_eq; by intros []|].
    rewrite !lookup_delete_ne by done. apply D4.
  - by eapply disputed_fmap.
  - intros n' [V1 V2]. unfold voted, compared, set_of. rewrite Ea, Ec.
    destruct (decide (n' = n)) as [->|Hne]; [by rewrite lookup_delete_eq|]. rewrite !lookup_delete_ne by done. split.
    + intros set k d' Hs Hd'. destruct (Hl k d' Hd') as (d & Hd & ->). destruct (H1 k d Hd) as (_ & D2 & _).
      destruct (unVote_ok d n D2) as (_ & _ & ->). rewrite lookup_delete_ne by done. by eapply V1.
    + intros set Hs. by apply V2.
Qed.

(** A peer leaves, its votes withdrawn. *)
Lemma drop_peer_good s n dead :
  good s -> rc_deadNodes s ⊆ dead -> dead ⊆ {[n]} ∪ rc_deadNodes s ->
  let s1 := match rc_result s with Some r => set_result (unvote_all n r) s | None => s end in
  good (s1 {{ rc_currPeerPositions := delete n (rc_currPeerPositions s1); rc_deadNodes := dead }}).
Proof using TS.
  clear TL. intros [[B1 B2 B3] G2 G3 G4] Hd1 Hd2 s1. set (s' := s1 {{ rc_currPeerPositions := _; rc_deadNodes := _ }}).
  assert (E : rc_acquired s' = rc_acquired s /\ rc_currPeerPositions s' = delete n (rc_currPeerPositions s)
    /\ rc_deadNodes s' = dead /\ rc_prevLedgerID s' = rc_prevLedgerID s /\ rc_phase s' = rc_phase s
    /\ rc_result s' = unvote_all n <$> rc_result s).
  { subst s' s1. destruct s as [? ? ? ? ? ? ? ? ? ? ? ? ? res]. by destruct res. }
  destruct E as (E1 & E2 & E3 & E4 & E5 & E6). clearbody s'. clear s1.
  assert (Hp : forall n' pos, rc_currPeerPositions s' !! n' = Some pos -> peer_ok s' n' pos).
  { intros n' pos. rewrite E2, lookup_delete_Some. intros [Hne Hpos]. destruct (B2 n' pos Hpos) as (P1 & P2 & P3 & P4).
    split_and!; [done | by rewrite E4 | done |]. rewrite E3. set_solver. }
  destruct (rc_result s) as [r|] eqn:Er; simpl in E6.
  - destruct (unvote_all_ok s r n s' (B3 r eq_refl) E1 E2 E6) as [U1 U2]. split; [split| | |].
    + intros id set. rewrite E1. apply B1.
    + done.
    + intros r0. rewrite E6. by intros [= <-].
    + intros _. by rewrite E6.
    + intros r0. rewrite E6. intros [= <-]. destruct (G3 r eq_refl) as [O1 O2]. split; [done|]. by rewrite E1.
    + intros n' r0. rewrite E6. intros [= <-]. apply U2. by apply G4.
  - split; [split| | |].
    + intros id set. rewrite E1. apply B1.
    + done.
    + by rewrite E6.
    + rewrite E5. intros H. by destruct (G2 H).
    + by rewrite E6.
    + intros n' r0. by rewrite E6.
Qed.

(** What the adaptor promises of transaction sets. *)
Record env_ok (env : RpcaEnv) : Prop := {
  env_txset : forall id set, en_acquireTxSet env id = Some set -> set_id set = id;
  env_onClose : forall l now m txns pos, en_onClose env l now m = (txns, pos) -> pp_position pos = set_id txns
}.

(** A peer takes a position. *)
Lemma new_peer s n pos :
  good s -> pp_nodeID (po_proposal pos) = n -> pp_previousLedger (po_proposal pos) = rc_prevLedgerID s ->
  isBowOut (po_proposal pos) = false -> n ∉ rc_deadNodes s ->
  let s' := s {{ rc_currPeerPositions := <[n := pos]> (rc_currPeerPositions s) }} in
  base s' /\ (forall n', n' <> n -> covered s' n').
Proof using TS.
  intros [[B1 B2 B3] _ _ G4] P1 P2 P3 P4 s'.
  assert (Ec : rc_currPeerPositions s' = <[n := pos]> (rc_currPeerPositions s)) by done.
  split; [split|].
  - exact B1.
  - intros n' pos'. rewrite Ec, lookup_insert_Some. intros [[<- <-]|[_ H]]; [done | by apply B2].
  - intros r Hr. destruct (B3 r Hr) as [H1 H2]. split; [|exact H2]. intros k d Hd.
    destruct (H1 k d Hd) as (D1 & D2 & D3 & D4). split_and!; [done..|]. intros n' Hn'. rewrite Ec.
    apply lookup_insert_is_Some'. right. by apply D4.
  - intros n' Hne r Hr. destruct (G4 n' r Hr) as [C1 C2].
    assert (Es : set_of s' n' = set_of s n') by (unfold set_of; by rewrite Ec, lookup_insert_ne).
    unfold voted, compared. by rewrite Es.
Qed.

Lemma peerProposalInternal_good env now pos s : env_ok env -> good s -> good (peerProposalInternal env now pos s).2.
Proof.
  intros HE HG. unfold peerProposalInternal. case_decide; [done|]. cbv zeta.
  set (s0 := s {{ rc_now := now }}). assert (HG0 : good s0) by (by apply (good_core s)). clearbody s0. clear HG H.
  set (prop := po_proposal pos). set (n := pp_nodeID prop).
  destruct (Z.eqb_spec (pp_previousLedger prop) (rc_prevLedgerID s0)) as [Eprev|]; [|done]. simpl negb. cbv iota.
  case_decide as Hdead; [done|]. destruct (match rc_currPeerPositions s0 !! n with Some _ => _ | None => _ end); [done|].
  destruct (isBowOut prop) eqn:Ebow.
  { pose proof (drop_peer_good s0 n ({[n]} ∪ rc_deadNodes s0) HG0 ltac:(set_solver) ltac:(set_solver)) as Hdrop.
    cbv zeta in Hdrop. cbn [snd]. destruct (rc_result s0); exact Hdrop. }
  destruct (new_peer s0 n pos HG0 eq_refl Eprev Ebow Hdead) as [HB HC]. cbv zeta in HB, HC.
  set (s1 := s0 {{ rc_currPeerPositions := _ }}) in *. cbn [snd].
  match goal with |- context [if isInitial prop then ?a else s1] => set (s2 := if isInitial prop then a else s1) end.
  assert (Ecore : core s2 = core s1) by (unfold s2; by case_match).
  assert (Hn : rc_currPeerPositions s1 !! n = Some pos) by (apply lookup_insert_eq).
  assert (HG1 : (forall r, rc_result s1 = Some r -> covered s1 n) -> good s2).
  { intros Hcov. apply (good_core s1); [done|]. split; [done | exact (g_phase _ HG0) | exact (g_own _ HG0) |].
    intros n'. destruct (decide (n' = n)) as [->|?]; [|by apply HC]. intros r Hr. by apply (Hcov r Hr). }
  assert (Ea : rc_acquired s2 = rc_acquired s1) by (unfold s2; by case_match).
  assert (Er : rc_result s2 = rc_result s1) by (unfold s2; by case_match).
  assert (Ec : rc_currPeerPositions s2 = rc_currPeerPositions s1) by (unfold s2; by case_match).
  rewrite Ea, Er.
  destruct (rc_acquired s1 !! pp_position prop) as [set|] eqn:Eacq.
  - destruct (rc_result s1) as [r|] eqn:Eres; [|by apply HG1].
    assert (Hset : set_of s1 n = Some set) by (unfold set_of; by rewrite Hn).
    assert (HB2 : base s2). { destruct HB as [B1 B2 B3]. unfold s2. by case_match. }
    assert (Hset2 : set_of s2 n = Some set) by (unfold set_of in *; by rewrite Ec, Ea).
    destruct (updateDisputes_ok n set s2 r HB2 Er Hset2) as (U1 & U2 & U3 & U4 & r' & U5 & U6 & U7). cbv zeta in *.
    set (s3 := updateDisputes n set s2) in *. clearbody s3. unfold frame in U1.
    assert (Ea3 : rc_acquired s3 = rc_acquired s2) by congruence.
    split; [done | intros _; by rewrite U5 | |].
    + intros r0. rewrite U5. intros [= <-]. unfold own. rewrite U6, U7, Ea3, Ea. exact (g_own _ HG0 r Eres).
    + intros n'. destruct (decide (n' = n)) as [->|Hne]; [done|]. apply U4; [done|].
      intros r0 Hr0. rewrite Er, <- Eres in Hr0. destruct (HC n' Hne r0 Hr0) as [C1 C2].
      unfold voted, compared, set_of in *. by rewrite Ec, Ea.
  - assert (good s2) as HG2.
    { apply HG1. intros r Hr r0 _. assert (Hs1 : set_of s1 n = None) by (unfold set_of; rewrite Hn; exact Eacq).
      unfold voted, compared. by rewrite Hs1. }
    destruct (en_acquireTxSet env (pp_position prop)); [by apply gotTxSet_good | done].
Qed.

Lemma peerProposal_good env trusted cluster pos s : env_ok env -> good s -> good (peerProposal env trusted cluster pos s).2.
Proof.
  intros HE HG. unfold peerProposal. destruct trusted; [|done]. cbv zeta. apply peerProposalInternal_good; [done|].
  by apply (good_core s).
Qed.

Lemma playbackProposals_good env s : env_ok env -> good s -> good (playbackProposals env s).
Proof.
  intros HE. unfold playbackProposals. generalize (map_to_list (rc_recentPeerPositions s)). intros es. revert s.
  induction es as [|[n props] es IH]; intros s HG; simpl; [done|]. apply IH. clear IH es. revert s HG.
  induction props as [|pos props IH]; intros s HG; simpl; [done|]. apply IH.
  case_match; [|done]. pose proof (peerProposalInternal_good env (rc_now s) pos s HE HG) as H'.
  destruct (peerProposalInternal env (rc_now s) pos s) as [[] s']; [|done]. simpl in H'. by apply (good_core s').
Qed.

End Invariant.
