(* ===== verification/RpcaSteps.v ===== *)
(** * RPCA consensus: every operation keeps the disputes in order *)

From S2P Require Import Prelude HsTypes ConsensusTypes LedgerTiming RpcaTypes Rpca RpcaProps.
From S2P Require Import RpcaInvariant.
From coqutil Require Import Datatypes.RecordSetters.
Import DoubleBraceUpdate.

#[local] Open Scope Z_scope.

Section Steps.

Context {TS : TxSetOps} {TL : TxSetLaws}.

(** ** Closing the ledger *)

Lemma close_fold es s r :
  base s -> rc_result s = Some r -> (forall n, voted s r n) ->
  (forall n pos, (n, pos) ∈ es -> rc_currPeerPositions s !! n = Some pos) ->
  (forall n, compared s r n \/ n ∈ es.*1) ->
  let s' := fold_left (fun s '(_, pos) =>
      match rc_acquired s !! pp_position (po_proposal pos) with
      | Some set => createDisputes set s
      | None => s
      end) es s in
  frame s' = frame s /\ base s' /\ (forall n, covered s' n)
  /\ exists r', rc_result s' = Some r' /\ rs_txns r' = rs_txns r /\ rs_position r' = rs_position r.
Proof.
  revert s r. induction es as [|[n pos] es IH]; intros s r HB Hr HV Hes Hc; simpl.
  { split_and!; [done | done | | by exists r]. intros n r0 Hr0. assert (r0 = r) as -> by congruence. split; [done|].
    destruct (Hc n) as [?|?%elem_of_nil]; done. }
  assert (Hset : set_of s n = rc_acquired s !! pp_position (po_proposal pos)).
  { unfold set_of. by rewrite (Hes n pos) by (by left). }
  destruct (rc_acquired s !! pp_position (po_proposal pos)) as [set|] eqn:Ea.
  - destruct (createDisputes_base set s r HB Hr) as (r1 & HE & HB1 & Hin & Hsub).
    set (s1 := createDisputes set s) in *. clearbody s1.
    pose proof (ext_frame _ _ _ _ HE) as HF. pose proof (ext_rest _ _ _ _ HE) as E. injection E as Et Ep _ _ _.
    destruct (IH s1 r1 HB1 (ext_result _ _ _ _ HE)) as (R1 & R2 & R3 & r2 & R4 & R5 & R6).
    + intros n'. by eapply voted_extended.
    + intros n' pos' H'. unfold frame in HF. replace (rc_currPeerPositions s1) with (rc_currPeerPositions s) by congruence.
      apply Hes. by right.
    + intros n'. destruct (decide (n' = n)) as [->|Hne].
      * left. intros set' Hs. rewrite (set_of_frame s s1 n HF), Hset in Hs. by injection Hs as <-.
      * destruct (Hc n') as [H'|[->|H']%elem_of_cons]; [left | done | by right].
        intros set' Hs. rewrite (set_of_frame s s1 n' HF) in Hs. by apply Hsub, H'.
    + split_and!; [by rewrite R1 | done | done |]. exists r2. split_and!; [done | congruence | congruence].
  - apply (IH s r HB Hr HV).
    + intros n' pos' H'. apply Hes. by right.
    + intros n'. destruct (Hc n') as [H'|[->|H']%elem_of_cons]; [by left | left | by right].
      intros set' Hs. simpl in Hs. by rewrite Hset in Hs.
Qed.

Lemma closeLedger_good env s : env_ok env -> good s -> good (closeLedger env s).
Proof.
  intros HE HG. unfold closeLedger. cbv zeta.
  set (s0 := s {{ rc_phase := ph_establish; rc_rawCloseTimes := _ }}).
  destruct (en_onClose env (rc_previousLedger s0) (rc_now s0) (rc_mode s0)) as [txns position] eqn:Eclose.
  pose proof (env_onClose env HE _ _ _ _ _ Eclose) as Hpos.
  set (r := (Result_new txns position) {{ rs_roundTime := _ }}). set (s1 := set_result r s0).
  match goal with |- context [match rc_acquired s1 !! ?i with Some _ => s1 | None => ?a end] =>
    set (s2 := match rc_acquired s1 !! i with Some _ => s1 | None => a end) end.
  match goal with |- context [if decide (rc_mode s2 = proposing) then ?a else s2] =>
    set (s3 := if decide (rc_mode s2 = proposing) then a else s2) end.
  destruct HG as [[B1 B2 B3] _ _ _].
  assert (E2 : rc_result s2 = Some r /\ rc_currPeerPositions s2 = rc_currPeerPositions s
    /\ rc_prevLedgerID s2 = rc_prevLedgerID s /\ rc_deadNodes s2 = rc_deadNodes s
    /\ rc_acquired s2 !! set_id txns = Some txns
    /\ forall id set, rc_acquired s2 !! id = Some set -> set_id set = id).
  { subst s2. destruct (rc_acquired s1 !! set_id txns) as [x|] eqn:Ex.
    - assert (x = txns) as -> by (apply set_id_inj; by apply B1). split_and!; try done.
    - split_and!; try done; simpl; unfold constant; [by rewrite lookup_insert_eq|].
      intros id set. rewrite lookup_insert_Some. intros [[<- <-]|[_ ?]]; [done | by apply B1]. }
  destruct E2 as (E1 & E2 & E3 & E4 & E5 & E6).
  assert (EC : core s3 = core s2) by (unfold s3; by case_decide).
  assert (HB : base s2).
  { split; [done | | ].
    - intros n pos. unfold peer_ok. rewrite E2, E3, E4. apply B2.
    - intros r0. rewrite E1. intros [= <-]. split; [intros k d | right; intros set k]; simpl; set_solver. }
  assert (HB3 : base s3).
  { unfold s3. case_decide; [|done]. destruct HB as [C1 C2 C3]. split; done. }
  unfold core in EC. injection EC as _ _ Ea Er Ec _.
  destruct (close_fold (map_to_list (rc_currPeerPositions s3)) s3 r HB3) as (R1 & R2 & R3 & r' & R4 & R5 & R6).
  - etrans; [exact Er | exact E1].
  - intros n set k d _. simpl. by rewrite lookup_empty.
  - intros n pos. by rewrite elem_of_map_to_list.
  - intros n. destruct (rc_currPeerPositions s3 !! n) as [pos|] eqn:En.
    + right. apply list_elem_of_fmap. exists (n, pos). split; [done|]. by apply elem_of_map_to_list.
    + left. intros set. unfold set_of. by rewrite En.
  - split; [done | intros _; by rewrite R4 | | done]. intros r0. rewrite R4. intros [= <-].
    unfold own. rewrite R5, R6. split; [done|]. unfold frame in R1.
    match goal with |- rc_acquired ?x !! _ = _ => assert (rc_acquired x = rc_acquired s3) as -> by (injection R1; done) end.
    etrans; [|exact E5]. f_equal. exact Ea.
Qed.

Lemma phaseOpen_good env s : env_ok env -> good s -> good (phaseOpen env s).
Proof.
  intros HE HG. unfold phaseOpen. cbv zeta. set (s0 := s {{ rc_openTime := _ }}).
  assert (good s0) by (by apply (good_core s)). case_match; [by apply closeLedger_good | done].
Qed.

(** ** Stale positions *)

Lemma fresh_positions_good cutoff s :
  good s ->
  let s' := (fresh_positions cutoff s).1 in
  good s' /\ rc_phase s' = rc_phase s /\ (is_Some (rc_result s) -> is_Some (rc_result s')).
Proof.
  intros HG. unfold fresh_positions. cbv zeta. generalize (∅ : gmap Z Z).
  assert (Hes : forall n pos, (n, pos) ∈ map_to_list (rc_currPeerPositions s) -> rc_currPeerPositions s !! n = Some pos)
    by (intros n pos; by rewrite elem_of_map_to_list).
  pose proof (NoDup_fst_map_to_list (rc_currPeerPositions s)) as Hnd. revert Hnd Hes.
  generalize (map_to_list (rc_currPeerPositions s)). intros es. revert s HG.
  induction es as [|[n pos] es IH]; intros s HG Hnd Hes votes; cbn [fold_left fresh_step]; [done|].
  apply NoDup_cons in Hnd as [Hn Hnd]. destruct (isStale (po_proposal pos) cutoff).
  - destruct (b_peers s (g_base s HG) n pos) as (-> & _); [apply Hes; by left|].
    pose proof (drop_peer_good s n (rc_deadNodes s) HG ltac:(set_solver) ltac:(set_solver)) as Hd. cbv zeta in Hd.
    set (s1 := match rc_result s with Some r => set_result (unvote_all n r) s | None => s end) in *.
    set (s2 := s1 {{ rc_currPeerPositions := delete n (rc_currPeerPositions s1) }}).
    assert (Es : rc_currPeerPositions s1 = rc_currPeerPositions s /\ rc_phase s1 = rc_phase s
      /\ rc_deadNodes s1 = rc_deadNodes s /\ (is_Some (rc_result s) -> is_Some (rc_result s1))).
    { unfold s1. by destruct (rc_result s). }
    destruct Es as (Es1 & Es2 & Es3 & Es4).
    assert (HG2 : good s2).
    { eapply good_core; [|exact Hd]. unfold core. simpl. unfold constant. repeat f_equal. exact Es3. }
    destruct (IH s2 HG2 Hnd) with (g := votes) as (R1 & R2 & R3).
    { intros n' pos' Hin. simpl. unfold constant. rewrite Es1, lookup_delete_ne; [apply Hes; by right|].
      intros ->. apply Hn, list_elem_of_fmap. by exists (n', pos'). }
    split_and!; [exact R1 | etrans; [exact R2 | exact Es2] | auto].
  - apply IH; [done | done|]. intros n' pos' Hin. apply Hes. by right.
Qed.

(** ** Our votes *)

Lemma tx_exists_insert set t k : tx_exists (tx_insert set t) k = (k =? tx_id t) || tx_exists set k.
Proof.
  unfold tx_insert, tx_exists. destruct (set !! tx_id t) as [b|] eqn:E.
  - destruct (Z.eqb_spec k (tx_id t)) as [->|]; [by rewrite E | done].
  - destruct (Z.eqb_spec k (tx_id t)) as [->|]; [by rewrite lookup_insert_eq | by rewrite lookup_insert_ne].
Qed.

Lemma tx_exists_erase set k' k : tx_exists (tx_erase set k') k = negb (k =? k') && tx_exists set k.
Proof.
  unfold tx_erase, tx_exists. destruct (Z.eqb_spec k k') as [->|]; [by rewrite lookup_delete_eq | by rewrite lookup_delete_ne].
Qed.

(** The set in force after the votes. *)
Lemma update_votes_fold parms pct isP txns (es : list (Z * DisputedTx)) (acc : gmap Z DisputedTx) m :
  NoDup es.*1 -> (forall k d, (k, d) ∈ es -> acc !! k = Some d /\ tx_id (dt_tx d) = k) ->
  let new d := (updateVote d pct isP parms).2 in
  let r := fold_left (vote_step parms pct isP txns) es (acc, m) in
  (forall k, r.1 !! k = if decide (k ∈ es.*1) then new <$> acc !! k else acc !! k)
  /\ (forall k, k ∉ es.*1 -> default txns r.2 !! k = default txns m !! k)
  /\ (forall k d, (k, d) ∈ es -> dt_ourVote d = tx_exists (default txns m) k ->
        dt_ourVote (new d) = tx_exists (default txns r.2) k).
Proof.
  intros Hnd Hes new. revert acc m Hnd Hes.
  induction es as [|[k0 d0] es IH]; intros acc m Hnd Hes; cbn [fold_left].
  { split_and!; [done | done | by intros k d ?%elem_of_nil]. }
  apply NoDup_cons in Hnd as [Hk0 Hnd]. destruct (Hes k0 d0 ltac:(by left)) as [Ha0 Hid].
  pose proof (updateVote_ok d0 pct isP parms) as U. cbv zeta in U. unfold new in *. unfold vote_step at 2 4 6.
  destruct (updateVote d0 pct isP parms) as [changed d0'] eqn:Eu. cbn [fst snd] in U. destruct U as (U1 & _ & _ & _ & U5).
  set (acc1 := if changed then <[k0 := d0']> acc else acc).
  set (m1 := if changed then Some (if dt_ourVote d0' then tx_insert (default txns m) (dt_tx d0') else tx_erase (default txns m) k0) else m).
  assert (Hst : (if changed then
      (<[k0 := d0']> acc, Some (if dt_ourVote d0' then tx_insert (default txns m) (dt_tx d0') else tx_erase (default txns m) k0))
      else (acc, m)) = (acc1, m1)) by (unfold acc1, m1; by destruct changed).
  cbv zeta. rewrite Hst. clear Hst.
  assert (Hacc : forall k, acc1 !! k = if decide (k = k0) then Some d0' else acc !! k).
  { intros k. unfold acc1. destruct changed.
    - case_decide as E; [subst; apply lookup_insert_eq | by rewrite lookup_insert_ne].
    - case_decide as E; [subst | done]. rewrite Ha0. unfold updateVote in Eu. destruct d0. repeat case_match; congruence. }
  assert (Hm : forall k, k <> k0 -> default txns m1 !! k = default txns m !! k).
  { intros k Hk. unfold m1. destruct changed; [|done]. simpl. rewrite U1. case_match.
    - unfold tx_insert. rewrite Hid. case_match; [done|]. by rewrite lookup_insert_ne.
    - unfold tx_erase. by rewrite lookup_delete_ne. }
  destruct (IH acc1 m1 Hnd) as (R1 & R2 & R3).
  { intros k d Hin. destruct (Hes k d ltac:(by right)) as [H1 H2]. split; [|done]. rewrite Hacc, decide_False; [done|].
    intros ->. apply Hk0, list_elem_of_fmap. by exists (k0, d). }
  split_and!.
  - intros k. rewrite R1, Hacc. destruct (decide (k = k0)) as [->|Hk].
    + rewrite decide_False by done. rewrite decide_True by (by left). by rewrite Ha0; simpl; rewrite Eu.
    + destruct (decide (k ∈ es.*1)) as [Hin|Hin]; [rewrite decide_True by (by right) | rewrite decide_False]; try done.
      intros [->|?]%elem_of_cons; done.
  - intros k [Hk Hin]%not_elem_of_cons. by rewrite R2, Hm.
  - intros k d [[= -> ->]|Hin]%elem_of_cons Hv.
    + rewrite Eu. cbn [snd]. unfold tx_exists at 1. rewrite R2 by done. fold (tx_exists (default txns m1) k0).
      rewrite U5, Hv. unfold m1. destruct changed; [|done]. simpl. rewrite U5, Hv.
      destruct (tx_exists (default txns m) k0) eqn:Et; simpl; [by rewrite tx_exists_erase, Z.eqb_refl|].
      by rewrite tx_exists_insert, U1, Hid, Z.eqb_refl.
    + apply R3; [done|]. unfold tx_exists. rewrite Hm; [done|]. intros ->. apply Hk0, list_elem_of_fmap. by exists (k0, d).
Qed.

(** Our votes agree with the set in force, which changes only disputed
    transactions. *)
Lemma update_votes_ok parms pct isP s r :
  result_ok s r -> (forall n, voted s r n /\ compared s r n) ->
  let u := update_votes parms pct isP (rs_txns r) (rs_disputes r) in
  let r' := r {{ rs_disputes := u.1; rs_txns := default (rs_txns r) u.2 }} in
  result_ok s r' /\ forall n, voted s r' n /\ compared s r' n.
Proof.
  intros [H1 H2] HV u r'. unfold update_votes in u.
  pose proof (update_votes_fold parms pct isP (rs_txns r) (map_to_list (rs_disputes r)) (rs_disputes r) None
    (NoDup_fst_map_to_list _)) as HF. cbv zeta in HF. fold u in HF.
  destruct HF as (F1 & F2 & F3).
  { intros k d Hin%elem_of_map_to_list. split; [done|]. by destruct (H1 k d Hin). }
  assert (Hdom : forall k, k ∈ (map_to_list (rs_disputes r)).*1 <-> is_Some (rs_disputes r !! k)).
  { intros k. rewrite list_elem_of_fmap. split.
    - intros ([k' d] & -> & Hin%elem_of_map_to_list). by exists d.
    - intros [d Hd]. exists (k, d). split; [done|]. by apply elem_of_map_to_list. }
  assert (Hl : forall k d', u.1 !! k = Some d' -> exists d, rs_disputes r !! k = Some d /\ d' = (updateVote d pct isP parms).2).
  { intros k d'. rewrite F1. case_decide as Hd.
    - destruct (rs_disputes r !! k) as [d|]; simpl; [|done]. intros [= <-]. by exists d.
    - intros Hk. destruct Hd. apply Hdom. by exists d'. }
  split; [split|].
  - intros k d' Hd'. destruct (Hl k d' Hd') as (d & Hd & ->). destruct (H1 k d Hd) as (D1 & [D2 D2'] & D3 & D4).
    destruct (updateVote_ok d pct isP parms) as (U1 & U2 & U3 & U4 & _). split_and!.
    + by rewrite U1.
    + split; congruence.
    + apply F3; [by apply elem_of_map_to_list | done].
    + intros n. rewrite U2. apply D4.
  - assert (Hk' : forall k, is_Some (u.1 !! k) <-> is_Some (rs_disputes r !! k)).
    { intros k. rewrite F1. case_decide as Hk; [apply fmap_is_Some|done]. }
    destruct H2 as [H2|H2]; [left | right].
    + change (65536 <= Z.of_nat (size u.1)). rewrite <- (size_dom u.1). assert (dom u.1 = dom (rs_disputes r)) as ->; [|by rewrite size_dom].
      apply set_eq. intros k. rewrite !elem_of_dom. apply Hk'.
    + intros set k Hin Hne. change (is_Some (u.1 !! k)). apply Hk'. destruct (decide (k ∈ (map_to_list (rs_disputes r)).*1)) as [Hk|Hk].
      * by apply Hdom.
      * change (default (rs_txns r) u.2 !! k <> set !! k) in Hne. rewrite F2 in Hne by done. by eapply H2.
  - intros n. destruct (HV n) as [V1 V2]. split; [|exact V2]. intros set k d' Hs Hd'.
    destruct (Hl k d' Hd') as (d & Hd & ->). destruct (updateVote_ok d pct isP parms) as (_ & -> & _). by eapply V1.
Qed.

(** ** Taking a position *)

Lemma take_position_good newSet closeTime s r :
  (forall id set, rc_acquired s !! id = Some set -> set_id set = id) ->
  (forall n pos, rc_currPeerPositions s !! n = Some pos -> peer_ok s n pos) ->
  rc_result s = Some r -> result_ok s (r {{ rs_txns := newSet }}) -> (forall n, voted s r n /\ compared s r n) ->
  good (take_position newSet closeTime s).
Proof.
  intros HA HP Hr HR HV. unfold take_position. rewrite Hr. cbv zeta.
  set (position := changePosition (rs_position r) (set_id newSet) closeTime (rc_now s)).
  set (r1 := r {{ rs_txns := newSet; rs_position := position }}). set (s1 := set_result r1 s).
  assert (HB1 : base s1) by (split; [done | done |]; intros r0 [= <-]; done).
  assert (HC1 : forall n, covered s1 n) by (intros n r0 [= <-]; exact (HV n)).
  match goal with |- good (if _ then emit _ ?x else ?x) => set (s2 := x) end.
  enough (HG2 : good s2) by (case_match; [by apply (good_core s2) | done]).
  subst s2. destruct (rc_acquired s1 !! set_id newSet) as [x|] eqn:Ea.
  - assert (x = newSet) as -> by (apply set_id_inj; by apply HA).
    split; [done | by intros _ | | done]. intros r0 [= <-]. by split.
  - pose proof (learn_set s1 _ newSet (b_acquired _ HB1) Ea HC1) as HL. cbv zeta in HL.
    set (s3 := s1 {{ rc_acquired := <[set_id newSet := newSet]> (rc_acquired s1) }}) in *.
    assert (Hacq : rc_acquired s3 = <[set_id newSet := newSet]> (rc_acquired s1)) by done.
    set (s4 := if isBowOut position then s3 else emit (ShareTxSet newSet) s3).
    assert (E2 : rc_prevLedgerID s4 = rc_prevLedgerID s) by (unfold s4; by case_match).
    assert (E3 : rc_acquired s4 = rc_acquired s3) by (unfold s4; by case_match).
    assert (E4 : rc_result s4 = Some r1) by (unfold s4; by case_match).
    assert (E5 : rc_currPeerPositions s4 = rc_currPeerPositions s) by (unfold s4; by case_match).
    assert (E6 : rc_deadNodes s4 = rc_deadNodes s) by (unfold s4; by case_match).
    assert (HB4 : base s4).
    { split.
      - intros id set. rewrite E3, Hacq, lookup_insert_Some. intros [[<- <-]|[_ ?]]; [done | by apply HA].
      - intros n pos. unfold peer_ok. rewrite E2, E5, E6. apply HP.
      - intros r0. rewrite E4. intros [= <-]. unfold result_ok, dispute_ok. rewrite E5. apply HR. }
    destruct (revote_ok (set_id newSet) newSet (map_to_list (rc_currPeerPositions s4)) s4 r1 HB4) as (R1 & R2 & R3 & r' & R4 & R5 & R6).
    + by rewrite E4.
    + by rewrite E3, Hacq, lookup_insert_eq.
    + intros n pos. by rewrite elem_of_map_to_list.
    + intros n. destruct (HL n) as [Hcov|Hex]; [left | right; by rewrite E5].
      intros r0. rewrite E4. intros Hr0. destruct (Hcov r0 Hr0) as [C1 C2]. unfold voted, compared, set_of in *.
      by rewrite E3, E5.
    + split; [done | by rewrite R4 | | done]. intros r0. rewrite R4. intros [= <-]. unfold own. rewrite R5, R6.
      split; [done|]. unfold frame in R1.
      match goal with |- rc_acquired ?x !! _ = _ => assert (rc_acquired x = rc_acquired s4) as -> by (injection R1; done) end.
      by rewrite E3, Hacq, lookup_insert_eq.
Qed.

Lemma updateOurPositions_good env s : good s -> good (updateOurPositions env s).
Proof.
  intros HG. unfold updateOurPositions. cbv zeta.
  destruct (fresh_positions_good (u32 (rc_now s - proposeFRESHNESS (en_parms env))) s HG) as (HG1 & _).
  destruct (fresh_positions _ s) as [s1 votes]. cbn [fst] in HG1. clear HG.
  destruct (rc_result s1) as [r|] eqn:Er; [|done]. destruct HG1 as [[B1 B2 B3] G2 G3 G4].
  pose proof (update_votes_ok (en_parms env) (rc_convergePercent s1) (bool_decide (rc_mode s1 = proposing)) s1 r
    (B3 r Er) (fun n => G4 n r Er)) as HU. cbv zeta in HU.
  destruct (update_votes _ _ _ _ _) as [disputes newSet]. cbn [fst snd] in HU.
  set (s2 := set_result (r {{ rs_disputes := disputes }}) s1).
  match goal with |- context [let '(_, _) := ?e in _] => destruct e as [ct have] end.
  set (s3 := s2 {{ rc_haveCloseTimeConsensus := have }}). destruct HU as [HR HV].
  assert (Hr3 : rc_result s3 = Some (r {{ rs_disputes := disputes }})) by done.
  destruct newSet as [new|]; simpl in HR, HV.
  - by eapply (take_position_good new ct s3).
  - match goal with |- good (if ?b then _ else _) => destruct b end; [by eapply (take_position_good (rs_txns r) ct s3)|].
    split; [split; [done | done |]| | |].
    + intros r0 [= <-]. exact HR.
    + by intros _.
    + intros r0 [= <-]. exact (G3 r Er).
    + intros n r0 [= <-]. exact (HV n).
Qed.

Lemma set_result_good s r r' :
  good s -> rc_result s = Some r ->
  rs_txns r' = rs_txns r -> pp_position (rs_position r') = pp_position (rs_position r) ->
  rs_disputes r' = rs_disputes r -> rs_compares r' = rs_compares r -> good (set_result r' s).
Proof.
  intros [[B1 B2 B3] G2 G3 G4] Hr Et Ep Ed Ec.
  unfold result_ok, disputed, dispute_ok, own, covered, voted, compared in *.
  split; [split; [done | done |]| | |]; unfold result_ok, disputed, dispute_ok, own, covered, voted, compared.
  - intros r0 [= <-]. rewrite Et, Ed, Ec. exact (B3 r Hr).
  - by intros _.
  - intros r0 [= <-]. rewrite Et, Ep. exact (G3 r Hr).
  - intros n r0 [= <-]. rewrite Ed, Ec. exact (G4 n r Hr).
Qed.

Lemma haveConsensus_good env s : good s -> good (haveConsensus env s).2.
Proof.
  intros HG. unfold haveConsensus. destruct (rc_result s) as [r|] eqn:Er; [|done]. cbv zeta. cbn [snd].
  by eapply set_result_good.
Qed.

Lemma phaseEstablish_good env s : good s -> good (phaseEstablish env s).
Proof.
  intros HG. unfold phaseEstablish. destruct (rc_result s) as [r|] eqn:Er; [|done]. cbv zeta.
  set (r1 := r {{ rs_roundTime := _; rs_proposers := _ }}).
  assert (HG1 : good (set_result r1 s)) by (by eapply set_result_good).
  match goal with |- good (if _ then ?x else _) => set (s1 := x); assert (HG2 : good s1) by (by apply (good_core (set_result r1 s))) end.
  clearbody s1. case_match; [done|]. pose proof (updateOurPositions_good env s1 HG2) as HG3.
  case_match; [done|]. pose proof (haveConsensus_good env _ HG3) as HG4.
  destruct (haveConsensus env (updateOurPositions env s1)) as [yes s2]. cbn [snd] in HG4.
  case_match; [done|]. case_match; [done|]. destruct (rc_result s2) as [r2|] eqn:Er2; [|done].
  destruct HG4 as [[B1 B2 B3] G2 G3 G4]. split; [split; done | done | done | done].
Qed.

(** ** Rounds *)

Lemma leaveConsensus_good s : good s -> good (leaveConsensus s).
Proof.
  intros HG. unfold leaveConsensus. case_decide; [|done]. cbv zeta.
  destruct (rc_result s) as [r|] eqn:Er; [|by apply (good_core s)]. case_match; [by apply (good_core s)|].
  eapply (good_core (set_result _ s)); [done|]. by eapply (set_result_good s r).
Qed.

Section Timer.

Context (env : RpcaEnv) (HE : env_ok env) (timer : Z -> Rpca -> option Rpca).
Hypothesis timer_good : forall now s s', good s -> timer now s = Some s' -> good s'.

Lemma startRoundInternal_good now id l m s s' :
  startRoundInternal timer env now id l m s = Some s' -> good s'.
Proof.
  unfold startRoundInternal. cbv zeta.
  match goal with |- context [playbackProposals env ?x] => set (s1 := x) end.
  assert (HG1 : good s1).
  { destruct s. split; [split| | |]; [| | done | done | done | done].
    - intros i set. simpl. unfold constant. by rewrite lookup_empty.
    - intros n pos. simpl. unfold constant. by rewrite lookup_empty. }
  pose proof (playbackProposals_good env s1 HE HG1) as HG2.
  case_match; [by apply timer_good | by intros [= <-]].
Qed.

Lemma handleWrongLedger_good id s s' :
  good s -> handleWrongLedger timer env id s = Some s' -> good s'.
Proof.
  intros HG. unfold handleWrongLedger. cbv zeta. apply leaveConsensus_good in HG.
  set (s0 := leaveConsensus s) in *. clearbody s0.
  match goal with |- context [if rc_prevLedgerID s0 =? id then s0 else ?x] =>
    set (s1 := if rc_prevLedgerID s0 =? id then s0 else x) end.
  assert (HG1 : good s1).
  { unfold s1. case_match; [done|]. apply playbackProposals_good; [done|].
    destruct HG as [[B1 B2 B3] G2 G3 G4].
    assert (Hres : forall r, (fun r => r {{ rs_disputes := ∅; rs_compares := ∅ }}) <$> rc_result s0 = Some r ->
      exists r0, rc_result s0 = Some r0 /\ r = r0 {{ rs_disputes := ∅; rs_compares := ∅ }}).
    { intros r. destruct (rc_result s0) as [r0|]; simpl; [|done]. intros [= <-]. by exists r0. }
    split; [split| | |].
    - exact B1.
    - intros n pos. simpl. unfold constant. by rewrite lookup_empty.
    - intros r Hr. destruct (Hres r Hr) as (r0 & _ & ->). split; [intros k d | right; intros set k]; simpl; unfold constant; set_solver.
    - intros Hp. specialize (G2 Hp). simpl. unfold constant. by apply fmap_is_Some.
    - intros r Hr. destruct (Hres r Hr) as (r0 & Hr0 & ->). exact (G3 r0 Hr0).
    - intros n r Hr. unfold voted, compared, set_of. simpl. unfold constant. by rewrite lookup_empty. }
  clearbody s1. case_match; [by intros [= <-]|]. case_match; [by apply startRoundInternal_good|].
  intros [= <-]. by apply (good_core s1).
Qed.

Lemma checkLedger_good s s' : good s -> checkLedger timer env s = Some s' -> good s'.
Proof.
  intros HG. unfold checkLedger. repeat case_match; [by apply handleWrongLedger_good.. | by intros [= <-]].
Qed.

End Timer.

Lemma timerEntry_good fuel env now s s' :
  env_ok env -> good s -> timerEntry fuel env now s = Some s' -> good s'.
Proof.
  intros HE. revert now s s'. induction fuel as [|fuel IH]; intros now s s' HG; cbn [timerEntry]; [done|].
  case_decide; [by intros [= <-]|].
  destruct (checkLedger (timerEntry fuel env) env (s {{ rc_now := now }})) as [s1|] eqn:Ec; cbn [mbind option_bind]; [|done].
  intros [= <-]. apply (checkLedger_good env HE) in Ec; [| exact IH | by apply (good_core s)].
  repeat case_decide; [by apply phaseOpen_good | by apply phaseEstablish_good | done].
Qed.

Lemma startRound_good fuel env now id l untrusted isP s s' :
  env_ok env -> startRound fuel env now id l untrusted isP s = Some s' -> good s'.
Proof.
  intros HE. assert (HT : forall now s s', good s -> timerEntry fuel env now s = Some s' -> good s')
    by (intros; by eapply timerEntry_good).
  unfold startRound. cbv zeta. repeat case_match; by apply (startRoundInternal_good env HE _ HT).
Qed.

Lemma simulate_good env now delay s : env_ok env -> good s -> good (simulate env now delay s).
Proof.
  intros HE HG. unfold simulate. cbv zeta.
  assert (HG1 : good (closeLedger env (s {{ rc_now := now }}))) by (apply closeLedger_good; [done | by apply (good_core s)]).
  set (s1 := closeLedger env _) in *. clearbody s1. destruct (rc_result s1) as [r|] eqn:Er; [|done].
  match goal with |- context [set_result ?x s1] => assert (HG2 : good (set_result x s1)) by (by eapply set_result_good) end.
  destruct HG2 as [[B1 B2 B3] G2 G3 G4]. split; [split; done | done | done | done].
Qed.

Lemma Rpca_new_good id l t : good (Rpca_new id l t).
Proof. split; [split| | |]; try done; intros ? ?; simpl; by rewrite lookup_empty. Qed.

End Steps.
