(* ===== verification/RpcaTimer.v ===== *)
(** * RPCA consensus: how deep the timer recurses

    [timerEntry] may move to another ledger, start a round on it and be called
    again from there.  With the adaptor answering from the validations, as
    [RpcaPopAdaptor::getPrevLedger] does, three calls are enough: a ledger the
    validations prefer to another one is preferred to itself. *)

From S2P Require Import Prelude HsTypes ConsensusTypes LedgerTiming RpcaTypes Rpca RpcaProps.
From S2P Require Import LedgerTrie LedgerTrieProps Validations ValidationsProps ValidationsTheorems.
From coqutil Require Import Datatypes.RecordSetters.
Import DoubleBraceUpdate.

#[local] Open Scope Z_scope.

(** ** The timer *)

Section Termination.

Context {TS : TxSetOps}.

(** What the node takes for its previous ledger. *)
Definition on_ledger (s : Rpca) : Z * LedgerInfo := (rc_prevLedgerID s, rc_previousLedger s).

Lemma updateDisputes_ledger n o s : on_ledger (updateDisputes n o s) = on_ledger s.
Proof. pose proof (updateDisputes_around n o s) as E. unfold around, frame, on_ledger in *. congruence. Qed.

Lemma gotTxSet_ledger now set s : on_ledger (gotTxSet now set s) = on_ledger s.
Proof.
  unfold gotTxSet. case_decide; [done|]. cbv zeta. destruct (_ !! _); [done|]. destruct (rc_result _); [|done].
  apply (fold_left_keeps _ (fun s' => on_ledger s' = on_ledger s)); [|done].
  intros s' [n pos] <-. destruct (_ =? _); [apply updateDisputes_ledger | done].
Qed.

Lemma peerProposalInternal_ledger env now pos s : on_ledger (peerProposalInternal env now pos s).2 = on_ledger s.
Proof.
  unfold peerProposalInternal. case_decide; [done|]. cbv zeta. destruct (negb _); [done|]. case_decide; [done|].
  match goal with |- context [if ?b then (false, _) else _] => destruct b; [done|] end.
  destruct (isBowOut _); [by destruct (rc_result _)|].
  set (s1 := if isInitial _ then _ else _). assert (on_ledger s1 = on_ledger s) as <- by (unfold s1; by case_match).
  clearbody s1. cbn [snd]. destruct (_ !! _); [destruct (rc_result s1); [apply updateDisputes_ledger | done]|].
  destruct (en_acquireTxSet _ _); [apply gotTxSet_ledger | done].
Qed.

Lemma playbackProposals_ledger env s : on_ledger (playbackProposals env s) = on_ledger s.
Proof.
  unfold playbackProposals. apply (fold_left_keeps _ (fun s' => on_ledger s' = on_ledger s)); [|done].
  intros s' [n props] <-. apply (fold_left_keeps _ (fun x => on_ledger x = on_ledger s')); [|done].
  intros x pos <-. case_match; [|done]. pose proof (peerProposalInternal_ledger env (rc_now x) pos x) as E.
  destruct (peerProposalInternal _ _ _ _) as [[] y]; exact E.
Qed.

Lemma leaveConsensus_ledger s : on_ledger (leaveConsensus s) = on_ledger s.
Proof. unfold leaveConsensus. case_decide; [|done]. destruct (rc_result s); [|done]. by destruct (isBowOut _). Qed.

(** [k] nested calls are enough on the ledger [l] taken for [id]. *)
Fixpoint settled (env : RpcaEnv) (k : nat) (id : Z) (l : LedgerInfo) : Prop :=
  match k with
  | O => False
  | S k => forall m, let n := en_getPrevLedger env id l m in
             (n = id /\ li_hash l = id) \/ (forall l', en_acquireLedger env n = Some l' -> settled env k n l')
  end.

Lemma startRoundInternal_agree timer timer' env now id l m s :
  (forall now t, on_ledger t = (id, l) -> timer now t = timer' now t /\ is_Some (timer' now t)) ->
  startRoundInternal timer env now id l m s = startRoundInternal timer' env now id l m s
  /\ is_Some (startRoundInternal timer' env now id l m s).
Proof.
  intros H. unfold startRoundInternal. cbv zeta.
  match goal with |- context [playbackProposals env ?x] => set (s1 := x) end.
  pose proof (playbackProposals_ledger env s1) as E.
  change (on_ledger s1) with (id, l) in E. destruct (_ >? _); [by apply H | done].
Qed.

Lemma handleWrongLedger_agree timer timer' env n s :
  (forall now t l', en_acquireLedger env n = Some l' -> on_ledger t = (n, l') ->
     timer now t = timer' now t /\ is_Some (timer' now t)) ->
  handleWrongLedger timer env n s = handleWrongLedger timer' env n s
  /\ is_Some (handleWrongLedger timer' env n s).
Proof.
  intros H. unfold handleWrongLedger. cbv zeta. set (s0 := leaveConsensus s). clearbody s0.
  set (s1 := if rc_prevLedgerID s0 =? n then _ else _).
  assert (E : rc_prevLedgerID s1 = n).
  { unfold s1. destruct (Z.eqb_spec (rc_prevLedgerID s0) n) as [|_]; [done|].
    match goal with |- rc_prevLedgerID (playbackProposals env ?x) = _ =>
      exact (f_equal fst (playbackProposals_ledger env x)) end. }
  clearbody s1. rewrite E. destruct (_ =? _); [done|].
  destruct (en_acquireLedger env n) as [l'|] eqn:Ea; [|done].
  apply startRoundInternal_agree. intros now t. by apply H.
Qed.

Lemma timer_settled env k : forall now s fuel,
  settled env k (rc_prevLedgerID s) (rc_previousLedger s) -> (k <= fuel)%nat ->
  timerEntry fuel env now s = timerEntry k env now s /\ is_Some (timerEntry k env now s).
Proof.
  induction k as [|k IH]; [done|]. intros now s [|fuel] Hs Hle; [lia|]. cbn [timerEntry].
  case_decide; [done|]. set (s0 := s {{ rc_now := now }}).
  change (settled env (S k) (rc_prevLedgerID s0) (rc_previousLedger s0)) in Hs. clearbody s0.
  enough (checkLedger (timerEntry fuel env) env s0 = checkLedger (timerEntry k env) env s0
    /\ is_Some (checkLedger (timerEntry k env) env s0)) as [-> [s1 ->]] by (cbn [mbind option_bind]; done).
  unfold checkLedger. cbv zeta. specialize (Hs (rc_mode s0)). cbv zeta in Hs.
  set (n := en_getPrevLedger _ _ _ _) in *. clearbody n.
  assert (Hw : (n = rc_prevLedgerID s0 /\ li_hash (rc_previousLedger s0) = rc_prevLedgerID s0) \/
    (handleWrongLedger (timerEntry fuel env) env n s0 = handleWrongLedger (timerEntry k env) env n s0
     /\ is_Some (handleWrongLedger (timerEntry k env) env n s0))).
  { destruct Hs as [?|Hs]; [by left|]. right. apply handleWrongLedger_agree. intros now' t l' Hl [= E1 E2].
    apply IH; [|lia]. rewrite E1, E2. by apply Hs. }
  destruct Hw as [[-> ->]|Hw]; [by rewrite Z.eqb_refl|]. by repeat destruct (negb _).
Qed.

End Termination.

Lemma quiet_settled env k l :
  (forall m, en_getPrevLedger env (li_hash l) l m = li_hash l) -> settled env (S k) (li_hash l) l.
Proof. intros H m n. left. split; [apply H | done]. Qed.

(** ** What the adaptor asks of the validations *)

Section Preferred.

Context {TS : TxSetOps} {L : Type} {LO : LedgerOps L} (ok : L -> Prop) {LL : LedgerLaws ok}.

(** The adaptor names the ledger the validations prefer, and the ledgers it has
    are those the validations can look up. *)
Record prefers (env : RpcaEnv) (acquire : Z -> option L) (now : Z) (va : Validations L) (minValidSeq : N)
    (as_validated : LedgerInfo -> L) : Prop := {
  pf_id : forall l, lg_id (as_validated l) = li_hash l;
  pf_acquire : forall id l, en_acquireLedger env id = Some l -> li_hash l = id /\ acquire id = Some (as_validated l);
  pf_prev : forall id l m,
    en_getPrevLedger env id l m = getPrevLedger acquire now va minValidSeq id (as_validated l)
}.

Context (env : RpcaEnv) (acquire : Z -> option L) (now : Z) (va : Validations L) (minValidSeq : N).
Context (as_validated : LedgerInfo -> L) (HP : prefers env acquire now va minValidSeq as_validated).
Context (HB : backed ok va) (Ha : supplies ok acquire).

Abbreviation pref l := (getPreferred_above acquire now va l minValidSeq).1.

Lemma self_settled k l : pref (as_validated l) = li_hash l -> settled env (S k) (li_hash l) l.
Proof.
  intros H. apply quiet_settled. intros m. rewrite (pf_prev _ _ _ _ _ _ HP). unfold getPrevLedger. cbv zeta.
  by rewrite (pf_id _ _ _ _ _ _ HP), H, Z.eqb_refl.
Qed.

(** A ledger that was moved to needs one call when it was preferred, two otherwise. *)
Lemma moved_settled k l l' :
  pref (as_validated l) <> li_hash l -> en_acquireLedger env (pref (as_validated l)) = Some l' ->
  settled env (S k) (pref (as_validated l)) l'.
Proof.
  intros Hne Hl. destruct (pf_acquire _ _ _ _ _ _ HP _ _ Hl) as [Hid Hq].
  rewrite <- (pf_id _ _ _ _ _ _ HP) in Hne. pose proof (preferred_self ok _ _ _ _ _ _ HB Ha Hne Hq) as Hs.
  rewrite (pf_id _ _ _ _ _ _ HP) in Hs. rewrite <- Hid. by apply self_settled.
Qed.

Lemma ledger_settled k l : settled env (S (S k)) (li_hash l) l.
Proof.
  destruct (decide (pref (as_validated l) = li_hash l)) as [E|Hne]; [by apply self_settled|].
  intros m n. right. intros l' Hl. revert Hl. unfold n. rewrite (pf_prev _ _ _ _ _ _ HP). unfold getPrevLedger. cbv zeta.
  rewrite (pf_id _ _ _ _ _ _ HP). destruct (Z.eqb_spec (pref (as_validated l)) (li_hash l)) as [|_]; [done|].
  by apply moved_settled.
Qed.

Lemma any_settled id l : settled env 3 id l.
Proof.
  intros m n. unfold n. rewrite (pf_prev _ _ _ _ _ _ HP). unfold getPrevLedger. cbv zeta.
  rewrite (pf_id _ _ _ _ _ _ HP). right. intros l' Hl. destruct (pf_acquire _ _ _ _ _ _ HP _ _ Hl) as [Hid _].
  rewrite <- Hid. apply ledger_settled.
Qed.

End Preferred.
