(* ===== verification/RpcaAccept.v ===== *)
(** * RPCA consensus: counting close times and accepting

    What a pass of the establish phase does: which positions are still fresh, which
    close time gets the votes, and when a node accepts the result. *)

From stdpp Require Import sorting.
From S2P Require Import Prelude HsTypes ConsensusTypes LedgerTiming RpcaTypes Rpca RpcaProps.
From coqutil Require Import Datatypes.RecordSetters.
Import DoubleBraceUpdate.

#[local] Open Scope Z_scope.

(** ** The winning close time *)

(** [time] has the most votes, the latest of those on a tie, if any has enough;
    otherwise it is 0. *)
Definition chosen (votes : Z -> Z) (needed time : Z) : Prop :=
  (needed <= votes time /\ forall t, votes t <= votes time /\ (votes t = votes time -> t <= time))
  \/ (time = 0 /\ forall t, votes t < needed).

Definition count_of (votes : gmap Z Z) (t : Z) : Z := default 0 (votes !! t).

Section CloseTime.

Context (needed enough : Z).

Lemma close_time_fold l :
  StronglySorted time_order l ->
  let '(time, most, have) := fold_left (close_time_vote enough) l (0, needed, false) in
  (time = 0 /\ most = needed /\ have = false /\ forall t v, (t, v) ∈ l -> v < needed)
  \/ ((time, most) ∈ l /\ needed <= most /\ have = bool_decide (enough <= most)
      /\ forall t v, (t, v) ∈ l -> v <= most /\ (v = most -> t <= time)).
Proof.
  induction l as [|[t v] l IH] using rev_ind; intros Hs; [left; split_and!; [done..|]; intros t v H; by apply elem_of_nil in H|].
  apply StronglySorted_app in Hs as (Ho & Hs & _). specialize (IH Hs). rewrite fold_left_app. cbn [fold_left].
  destruct (fold_left _ l _) as [[time most] have]. unfold close_time_vote. rewrite Z.geb_leb.
  assert (Hlast : forall t' v', (t', v') ∈ l -> t' <= t) by (intros t' v' H; apply (Ho (t', v') (t, v)); set_solver).
  destruct (Z.leb_spec most v) as [Hv|Hv].
  - right. split_and!; [set_solver | destruct IH as [(_ & -> & _)|(_ & ? & _)]; lia | |].
    + rewrite Z.geb_leb, bool_decide_decide. destruct (Z.leb_spec enough v), (decide (enough <= v)); try lia.
      rewrite orb_false_r. destruct IH as [(_ & _ & -> & _)|(_ & _ & -> & _)]; [done|]. apply bool_decide_eq_false. lia.
    + intros t' v' [H|[= -> ->]%list_elem_of_singleton]%elem_of_app; [|lia]. specialize (Hlast t' v' H). split; [|lia].
      destruct IH as [(_ & -> & _ & IH)|(_ & _ & _ & IH)]; specialize (IH t' v' H); lia.
  - destruct IH as [(-> & -> & -> & IH)|(H1 & H2 & H3 & IH)]; [left | right]; split_and!; try done; [|set_solver|];
      intros t' v' [H|[= -> ->]%list_elem_of_singleton]%elem_of_app; try lia; by eapply IH.
Qed.

End CloseTime.

#[local] Instance time_order_total : Total time_order.
Proof. intros x y. unfold time_order. lia. Qed.

#[local] Instance time_order_trans : Transitive time_order.
Proof. intros x y z. unfold time_order. lia. Qed.

Lemma in_time_order_spec votes :
  StronglySorted time_order (in_time_order votes)
  /\ forall t v, (t, v) ∈ in_time_order votes <-> votes !! t = Some v.
Proof.
  split; [apply (StronglySorted_merge_sort time_order)|].
  intros t v. unfold in_time_order. rewrite (merge_sort_Permutation time_order). apply elem_of_map_to_list.
Qed.

Lemma consensus_close_time_spec parms percent participants votes :
  (forall t v, votes !! t = Some v -> 0 < v) ->
  let needed := participantsNeeded participants (threshold parms percent) in
  let enough := participantsNeeded participants (avCT_CONSENSUS_PCT parms) in
  let '(time, have) := consensus_close_time parms percent participants votes in
  0 < needed ->
  chosen (count_of votes) needed time
  /\ (have = true <-> exists t, needed <= count_of votes t /\ enough <= count_of votes t).
Proof.
  intros Hpos needed enough. unfold consensus_close_time. fold needed enough.
  destruct (in_time_order_spec votes) as [Hs Hin]. pose proof (close_time_fold needed enough _ Hs) as HF.
  destruct (fold_left _ _ _) as [[time most] have]. intros Hn.
  destruct HF as [(-> & -> & -> & H)|(H1 & H2 & -> & H)].
  - assert (Hlt : forall t, count_of votes t < needed).
    { intros t. unfold count_of. destruct (votes !! t) as [v|] eqn:E; simpl; [|done]. by apply (H t), Hin. }
    split; [by right|]. split; [done|]. intros (t & Ht & _). specialize (Hlt t). lia.
  - apply Hin in H1. assert (Ht : count_of votes time = most) by (unfold count_of; by rewrite H1).
    assert (Hle : forall t, count_of votes t <= most /\ (count_of votes t = most -> t <= time)).
    { intros t. unfold count_of. destruct (votes !! t) as [v|] eqn:E; simpl; [|lia]. by apply H, Hin. }
    split; [left; rewrite Ht; by split|]. rewrite bool_decide_eq_true. split; [intros He; exists time; lia|].
    intros (t & _ & He). specialize (Hle t). lia.
Qed.

(** ** Fresh positions *)

Definition fresh (cutoff : Z) (positions : gmap Z RCLCxPeerPos) : gmap Z RCLCxPeerPos :=
  filter (fun e => isStale (po_proposal e.2) cutoff = false) positions.

(** The positions whose rounded close time is [t]. *)
Definition time_votes (round : Z -> Z) (positions : gmap Z RCLCxPeerPos) (t : Z) : Z :=
  Z.of_nat (size (filter (fun e => round (pp_closeTime (po_proposal e.2)) = t) positions)).

(** What [fresh_positions] leaves alone. *)
Definition setting (s : Rpca) :=
  (rc_mode s, rc_now s, rc_convergePercent s, rc_closeResolution s, rc_phase s, rc_acquired s,
   (rc_prevLedgerID s, rc_previousLedger s, rc_prevProposers s, rc_prevRoundTime s)).

Lemma asCloseTime_setting s s' : setting s' = setting s -> asCloseTime s' = asCloseTime s.
Proof. unfold setting, asCloseTime. by intros [= _ _ _ -> _ _ _ _ _ _]. Qed.

(** The result but for the votes. *)
Definition but_votes (r : ConsensusResult) :=
  (rs_txns r, rs_position r, rs_roundTime r, rs_state r, rs_proposers r, dom (rs_disputes r)).

Lemma fresh_steps cutoff es s votes :
  let f := fold_left (fresh_step cutoff) es (s, votes) in
  setting f.1 = setting s
  /\ but_votes <$> rc_result f.1 = but_votes <$> rc_result s
  /\ (forall n, rc_currPeerPositions f.1 !! n
        = if decide (n ∈ (filter (fun e => isStale (po_proposal e.2) cutoff = true) es).*1) then None
          else rc_currPeerPositions s !! n)
  /\ (forall t, count_of f.2 t = count_of votes t + Z.of_nat (length (filter (fun e =>
        asCloseTime s (pp_closeTime (po_proposal e.2)) = t) (filter (fun e => isStale (po_proposal e.2) cutoff = false) es))))
  /\ ((forall t v, votes !! t = Some v -> 0 < v) -> forall t v, f.2 !! t = Some v -> 0 < v).
Proof.
  revert s votes. induction es as [|[n pos] es IH]; intros s votes.
  { cbn. split_and!; try done. intros. lia. }
  cbn [fold_left fresh_step]. destruct (isStale (po_proposal pos) cutoff) eqn:Est; cbv zeta.
  - set (s1 := match rc_result s with Some r => _ | None => s end).
    set (s2 := s1 {{ rc_currPeerPositions := _ }}). destruct (IH s2 votes) as (I1 & I2 & I3 & I4 & I5).
    assert (E1 : setting s2 = setting s) by (unfold s2, s1; by destruct (rc_result s)).
    assert (E2 : but_votes <$> rc_result s2 = but_votes <$> rc_result s).
    { unfold s2, s1. destruct (rc_result s) as [r|] eqn:Er.
      - simpl. unfold but_votes, unvote_all. simpl. unfold constant. by rewrite dom_fmap_L.
      - change (but_votes <$> rc_result s = None). by rewrite Er. }
    assert (E3 : rc_currPeerPositions s2 = delete n (rc_currPeerPositions s)) by (unfold s2, s1; by destruct (rc_result s)).
    assert (E4 : asCloseTime s2 = asCloseTime s) by (by apply asCloseTime_setting).
    clearbody s2. split_and!; [congruence | congruence | | | done].
    + intros n'. rewrite I3, E3. destruct (decide (n' = n)) as [->|Hne].
      * rewrite lookup_delete_eq, (filter_cons_True _ (n, pos)), fmap_cons by done.
        rewrite (decide_True (P := n ∈ _ :: _)) by (by left). by case_decide.
      * rewrite lookup_delete_ne, (filter_cons_True _ (n, pos)), fmap_cons by done. apply decide_ext. set_solver.
    + intros t. rewrite I4, E4, (filter_cons_False _ (n, pos)) by (simpl; congruence). done.
  - set (t := asCloseTime s _). destruct (IH s (<[t := default 0 (votes !! t) + 1]> votes)) as (I1 & I2 & I3 & I4 & I5).
    split_and!; [done | done | | |].
    + intros n'. by rewrite I3, (filter_cons_False _ (n, pos)) by (simpl; congruence).
    + intros t'. rewrite I4, (filter_cons_True _ (n, pos)) by done. unfold count_of.
      destruct (decide (t' = t)) as [->|Hne].
      * rewrite lookup_insert_eq, (filter_cons_True _ (n, pos)) by done. simpl. lia.
      * rewrite lookup_insert_ne, (filter_cons_False _ (n, pos)) by (done || simpl; congruence). done.
    + intros Hp. apply I5. intros t' v. rewrite lookup_insert_Some. intros [[<- <-]|[_ ?]]; [|by eapply Hp].
      destruct (votes !! t) as [v|] eqn:E; simpl; [|lia]. specialize (Hp t v E). lia.
Qed.

Lemma map_to_list_filter {A} (P : Z * A -> Prop) `{!forall x, Decision (P x)} (m : gmap Z A) :
  map_to_list (filter P m) ≡ₚ filter P (map_to_list m).
Proof.
  apply NoDup_Permutation; [apply NoDup_map_to_list | apply NoDup_filter, NoDup_map_to_list|].
  intros [k a]. rewrite elem_of_map_to_list, map_lookup_filter_Some, list_elem_of_filter, elem_of_map_to_list. naive_solver.
Qed.

Lemma fresh_positions_spec cutoff s :
  let f := fresh_positions cutoff s in
  let fr := fresh cutoff (rc_currPeerPositions s) in
  setting f.1 = setting s
  /\ but_votes <$> rc_result f.1 = but_votes <$> rc_result s
  /\ rc_currPeerPositions f.1 = fr
  /\ (forall t, count_of f.2 t = time_votes (asCloseTime s) fr t)
  /\ forall t v, f.2 !! t = Some v -> 0 < v.
Proof.
  destruct (fresh_steps cutoff (map_to_list (rc_currPeerPositions s)) s ∅) as (F1 & F2 & F3 & F4 & F5).
  split_and!; [done | done | | | by apply F5].
  - apply map_eq. intros n. unfold fresh_positions. rewrite F3. unfold fresh.
    destruct (rc_currPeerPositions s !! n) as [pos|] eqn:E.
    + case_decide as Hin.
      * apply list_elem_of_fmap in Hin as ([n' pos'] & -> & [Hs Hin]%list_elem_of_filter).
        apply elem_of_map_to_list in Hin. symmetry. apply map_lookup_filter_None_2. right. simplify_eq/=. congruence.
      * symmetry. apply map_lookup_filter_Some_2; [done|]. simpl. destruct (isStale _ _) eqn:Es; [|done].
        destruct Hin. apply list_elem_of_fmap. exists (n, pos). split; [done|]. apply list_elem_of_filter.
        split; [done|]. by apply elem_of_map_to_list.
    + rewrite (map_lookup_filter_None_2 _ _ n) by (by left). by case_decide.
  - intros t. unfold fresh_positions. rewrite F4. unfold time_votes, fresh.
    by rewrite <- length_map_to_list, !map_to_list_filter.
Qed.

(** ** Our own position *)

Section Position.

Context {TS : TxSetOps}.

(** What taking a position leaves alone. *)
Definition passed (s : Rpca) :=
  (rc_mode s, rc_now s, rc_closeResolution s, rc_phase s, rc_currPeerPositions s, rc_haveCloseTimeConsensus s,
   (rc_prevLedgerID s, rc_previousLedger s, rc_prevProposers s, rc_prevRoundTime s)).

(** The transactions, the position and the time of the round. *)
Definition stance (s : Rpca) := (fun r => (rs_txns r, rs_position r, rs_roundTime r)) <$> rc_result s.

Lemma around_passed s s' : around s' = around s -> passed s' = passed s /\ stance s' = stance s.
Proof.
  unfold around, frame, passed, stance. intros [=]. split; [congruence|].
  destruct (rc_result s), (rc_result s'); simplify_eq/=; congruence.
Qed.

Lemma take_position_spec newSet time s r :
  rc_result s = Some r ->
  let s' := take_position newSet time s in
  passed s' = passed s
  /\ stance s' = Some (newSet, changePosition (rs_position r) (set_id newSet) time (rc_now s), rs_roundTime r).
Proof.
  intros Hr. unfold take_position. rewrite Hr. cbv zeta.
  set (position := changePosition (rs_position r) (set_id newSet) time (rc_now s)).
  set (s1 := set_result (r {{ rs_txns := newSet; rs_position := position }}) s).
  set (s2 := match rc_acquired s1 !! set_id newSet with Some _ => s1 | None => _ end).
  enough (H : passed s2 = passed s1 /\ stance s2 = stance s1).
  { clearbody s2. destruct H as [H1 H2]. by case_match; split; [exact H1 | exact H2 | exact H1 | exact H2]. }
  unfold s2. destruct (rc_acquired s1 !! set_id newSet); [done|].
  set (s3 := if isBowOut position then _ else _).
  assert (H : passed s3 = passed s1 /\ stance s3 = stance s1) by (unfold s3; by case_match).
  destruct H as [<- <-]. clearbody s3.
  apply (fold_left_keeps _ (fun x => passed x = passed s3 /\ stance x = stance s3)); [|done].
  intros x [n pos] [<- <-]. case_match; [|done]. apply around_passed, updateDisputes_around.
Qed.

Definition is_proposing (s : Rpca) : bool := bool_decide (rc_mode s = proposing).

(** The votes for a close time: those of the peers and, when proposing, ours. *)
Definition all_votes (s : Rpca) (r : ConsensusResult) (peers : gmap Z RCLCxPeerPos) (t : Z) : Z :=
  time_votes (asCloseTime s) peers t
  + (if is_proposing s && (asCloseTime s (pp_closeTime (rs_position r)) =? t) then 1 else 0).

Definition voters_count (s : Rpca) (peers : gmap Z RCLCxPeerPos) : Z :=
  Z.of_nat (size peers) + (if is_proposing s then 1 else 0).

(** The close time [updateOurPositions] settles on, and whether it is agreed. *)
Definition settles (parms : RpcaConsensusParms) (s : Rpca) (r : ConsensusResult) (peers : gmap Z RCLCxPeerPos)
    (time : Z) (have : bool) : Prop :=
  let needed := participantsNeeded (voters_count s peers) (threshold parms (rc_convergePercent s)) in
  let enough := participantsNeeded (voters_count s peers) (avCT_CONSENSUS_PCT parms) in
  (peers = ∅ -> time = asCloseTime s (pp_closeTime (rs_position r)) /\ have = true)
  /\ (peers <> ∅ -> chosen (all_votes s r peers) needed time
        /\ (have = true <-> exists t, needed <= all_votes s r peers t /\ enough <= all_votes s r peers t)).

Definition pcts_ok (p : RpcaConsensusParms) : Prop :=
  0 <= avINIT_CONSENSUS_PCT p /\ 0 <= avMID_CONSENSUS_PCT p /\ 0 <= avLATE_CONSENSUS_PCT p
  /\ 0 <= avSTUCK_CONSENSUS_PCT p.

Lemma needed_pos p n pct : pcts_ok p -> 0 <= n -> 0 < participantsNeeded n (threshold p pct).
Proof.
  intros (H1 & H2 & H3 & H4) Hn. assert (Ht : 0 <= threshold p pct) by (unfold threshold; repeat case_match; done).
  unfold participantsNeeded. pose proof (Z.quot_pos (threshold p pct) 2 Ht ltac:(lia)).
  pose proof (Z.quot_pos (n * threshold p pct + threshold p pct ÷ 2) 100 ltac:(nia) ltac:(lia)). case_match; btests; lia.
Qed.

Lemma chosen_ext f g needed time : (forall t, f t = g t) -> chosen f needed time -> chosen g needed time.
Proof. unfold chosen. intros H. rewrite H. setoid_rewrite H. done. Qed.

(** The close time chosen from the votes of the peers. *)
Lemma votes_settle parms s r peers votes :
  pcts_ok parms ->
  (forall t, count_of votes t = time_votes (asCloseTime s) peers t) -> (forall t v, votes !! t = Some v -> 0 < v) ->
  let ourTime := asCloseTime s (pp_closeTime (rs_position r)) in
  let c :=
    if decide (peers = ∅) then (ourTime, true)
    else if is_proposing s then
      consensus_close_time parms (rc_convergePercent s) (Z.of_nat (size peers) + 1)
        (<[ourTime := default 0 (votes !! ourTime) + 1]> votes)
    else consensus_close_time parms (rc_convergePercent s) (Z.of_nat (size peers)) votes in
  settles parms s r peers c.1 c.2.
Proof.
  intros Hp Hv Hpos ourTime c. unfold settles, voters_count, all_votes. fold ourTime. subst c.
  case_decide as He; [by split|]. split; [done|]. intros _.
  pose proof (fun n => needed_pos parms n (rc_convergePercent s) Hp) as Hn. destruct (is_proposing s); cbn [andb].
  - assert (Hpos' : forall t v, <[ourTime := default 0 (votes !! ourTime) + 1]> votes !! t = Some v -> 0 < v).
    { intros t v. rewrite lookup_insert_Some. intros [[<- <-]|[_ ?]]; [|by eapply Hpos].
      destruct (votes !! ourTime) as [v|] eqn:E; simpl; [|lia]. specialize (Hpos _ _ E). lia. }
    pose proof (consensus_close_time_spec parms (rc_convergePercent s) (Z.of_nat (size peers) + 1) _ Hpos') as HS.
    assert (Hc : forall t, count_of (<[ourTime := default 0 (votes !! ourTime) + 1]> votes) t
      = time_votes (asCloseTime s) peers t + (if ourTime =? t then 1 else 0)).
    { intros t. rewrite <- Hv. unfold count_of. destruct (Z.eqb_spec ourTime t) as [->|Hne];
        [by rewrite lookup_insert_eq | rewrite lookup_insert_ne by done; lia]. }
    destruct (consensus_close_time _ _ _ _) as [time have]. destruct HS as [H1 H2]; [apply Hn; lia|].
    split; [by eapply chosen_ext|]. by setoid_rewrite <- Hc.
  - pose proof (consensus_close_time_spec parms (rc_convergePercent s) (Z.of_nat (size peers)) _ Hpos) as HS.
    destruct (consensus_close_time _ _ _ _) as [time have]. rewrite Z.add_0_r. destruct HS as [H1 H2]; [apply Hn; lia|].
    assert (Hc : forall t, count_of votes t = time_votes (asCloseTime s) peers t + 0) by (intros; rewrite Hv; lia).
    split; [by eapply chosen_ext|]. by setoid_rewrite <- Hc.
Qed.

Lemma settles_ext parms s s' r r' peers time have :
  rc_mode s' = rc_mode s -> rc_convergePercent s' = rc_convergePercent s ->
  rc_closeResolution s' = rc_closeResolution s -> rs_position r' = rs_position r ->
  settles parms s' r' peers time have -> settles parms s r peers time have.
Proof. unfold settles, all_votes, voters_count, is_proposing, asCloseTime. by intros -> -> -> ->. Qed.

(** What is passed on once the peers and the close time are settled. *)
Definition settled_state (s : Rpca) (peers : gmap Z RCLCxPeerPos) (have : bool) :=
  (rc_mode s, rc_now s, rc_closeResolution s, rc_phase s, peers, have,
   (rc_prevLedgerID s, rc_previousLedger s, rc_prevProposers s, rc_prevRoundTime s)).

(** A pass of [updateOurPositions]: the peers that count, the close time, and the
    position, kept or taken. *)
Lemma updateOurPositions_spec env s r :
  pcts_ok (en_parms env) -> rc_result s = Some r ->
  let parms := en_parms env in
  let s' := updateOurPositions env s in
  let peers := fresh (u32 (rc_now s - proposeFRESHNESS parms)) (rc_currPeerPositions s) in
  exists time have,
    passed s' = settled_state s peers have
    /\ settles parms s r peers time have
    /\ ((stance s' = stance s /\ time = asCloseTime s (pp_closeTime (rs_position r)))
        \/ exists set,
             stance s' = Some (set, changePosition (rs_position r) (set_id set) time (rc_now s), rs_roundTime r)
             /\ (rs_disputes r <> ∅ \/ time <> asCloseTime s (pp_closeTime (rs_position r))
                 \/ isStale (rs_position r) (u32 (rc_now s - proposeINTERVAL parms)) = true)).
Proof.
  intros Hp Hr parms s' peers. subst s'. unfold updateOurPositions. fold parms. cbv zeta.
  destruct (fresh_positions_spec (u32 (rc_now s - proposeFRESHNESS parms)) s) as (F1 & F2 & F3 & F4 & F5).
  cbv zeta in F1, F2, F3, F4, F5. fold peers in F3, F4. destruct (fresh_positions _ s) as [s1 votes]. cbn [fst snd] in *.
  rewrite Hr in F2. destruct (rc_result s1) as [r1|] eqn:Hr1; [|done].
  unfold but_votes in F2. injection F2 as T1 T2 T3 T4 T5 T6. unfold setting in F1.
  injection F1 as M1 M2 M3 M4 M5 M6 M7 M8 M9 M10.
  destruct (update_votes _ _ _ _ _) as [ds newSet] eqn:EV.
  assert (HN : newSet <> None -> rs_disputes r <> ∅).
  { intros Hs E. rewrite E, dom_empty_L, dom_empty_iff_L in T6. rewrite T6 in EV. by injection EV as _ <-. }
  set (r2 := r1 {{ rs_disputes := ds }}). set (s2 := set_result r2 s1).
  match goal with |- context [let '(_, _) := ?c in _] => set (c0 := c) end.
  assert (HS : settles parms s r peers c0.1 c0.2).
  { apply (settles_ext parms s s2 r r2 peers); [exact M1 | exact M3 | exact M4 | exact T2|].
    unfold c0. change (rc_currPeerPositions s2) with (rc_currPeerPositions s1). rewrite F3.
    apply (votes_settle parms s2 r2 peers votes Hp); [|done]. intros t. rewrite F4.
    unfold asCloseTime. change (rc_closeResolution s2) with (rc_closeResolution s1). by rewrite M4. }
  destruct c0 as [time have]. cbn [fst snd] in HS. exists time, have.
  set (s3 := s2 {{ rc_haveCloseTimeConsensus := have }}).
  assert (E3 : passed s3 = settled_state s peers have).
  { change (settled_state s1 (rc_currPeerPositions s1) have = settled_state s peers have). unfold settled_state. congruence. }
  assert (HT : forall set, let s' := take_position set time s3 in
    passed s' = settled_state s peers have
    /\ stance s' = Some (set, changePosition (rs_position r) (set_id set) time (rc_now s), rs_roundTime r)).
  { intros set. destruct (take_position_spec set time s3 r2 eq_refl) as [A1 A2]. split; [by rewrite <- E3|].
    cbv zeta in A2. rewrite A2. change (rc_now s3) with (rc_now s1). by rewrite <- T2, <- T3, <- M2. }
  assert (HO : asCloseTime s2 (pp_closeTime (rs_position r2)) = asCloseTime s (pp_closeTime (rs_position r))).
  { unfold asCloseTime. change (rc_closeResolution s2) with (rc_closeResolution s1).
    change (rs_position r2) with (rs_position r1). by rewrite M4, T2. }
  rewrite HO. change (rs_position r2) with (rs_position r1). rewrite T2.
  destruct newSet as [set|].
  { destruct (HT set). split_and!; [done | done |]. right. exists set. split; [done|]. left. by apply HN. }
  destruct (negb _ || _) eqn:Eq.
  { destruct (HT (rs_txns r2)) as [A1 A2]. split_and!; [done | done |]. right. exists (rs_txns r2). split; [done|].
    right. apply orb_true_iff in Eq as [Eq|Eq]; [left; by apply negb_true_iff, Z.eqb_neq in Eq | by right]. }
  split_and!; [done | done |]. left. split.
  - change (Some (rs_txns r1, rs_position r1, rs_roundTime r1) = stance s). unfold stance. rewrite Hr. simpl. congruence.
  - apply orb_false_iff in Eq as [Eq%negb_false_iff%Z.eqb_eq _]. done.
Qed.

(** ** Accepting *)

Lemma checkConsensusReached_count agreeing total self pct :
  0 <= agreeing -> 0 < total -> checkConsensusReached agreeing total self pct = true ->
  pct * (total + Z.b2z self) <= 100 * (agreeing + Z.b2z self).
Proof.
  intros Ha Ht. unfold checkConsensusReached. rewrite (proj2 (Z.eqb_neq total 0)) by lia.
  assert (H : forall a t, 0 <= a -> 0 < t -> (u64 (a * 100) / t >=? pct) = true -> pct * t <= 100 * a).
  { intros a t H1 H2 H3. rewrite Z.geb_leb in H3. apply Z.leb_le in H3.
    assert (u64 (a * 100) <= a * 100) by (apply Z.mod_le; lia). pose proof (Z.mul_div_le (u64 (a * 100)) t H2). nia. }
  destruct self; simpl; intros E; apply H in E; lia.
Qed.

(** Enough participants take the node's position, or have moved on. *)
Definition agreed (parms : RpcaConsensusParms) (finished : Z) (s : Rpca) (r : ConsensusResult) : Prop :=
  let peers := Z.of_nat (size (rc_currPeerPositions s)) in
  let agree := agreeing (pp_position (rs_position r)) (rc_currPeerPositions s) in
  let self := Z.b2z (is_proposing s) in
  (rs_state r = cs_Yes /\ (peers = 0 \/ minCONSENSUS_PCT parms * (peers + self) <= 100 * (agree + self)))
  \/ (rs_state r = cs_MovedOn /\ 0 < peers /\ minCONSENSUS_PCT parms * peers <= 100 * finished).

Lemma haveConsensus_agreed env s s' :
  let finished := en_proposersFinished env (rc_previousLedger s) (rc_prevLedgerID s) in
  0 <= finished -> haveConsensus env s = (true, s') ->
  passed s' = passed s /\ stance s' = stance s
  /\ exists r, rc_result s' = Some r /\ ledgerMIN_CONSENSUS (en_parms env) < tm_dur (rs_roundTime r)
     /\ agreed (en_parms env) finished s' r.
Proof.
  intros finished Hf. unfold haveConsensus. destruct (rc_result s) as [r|] eqn:Hr; [|done]. cbv zeta. fold finished.
  set (n := Z.of_nat _). set (agree := agreeing _ _). set (state := checkConsensus _ _ _ _ _ _ _ _). intros [= Hs <-].
  set (r' := r {{ rs_state := state }}).
  split_and!; [done | unfold stance; by rewrite Hr |]. exists r'. split; [done|].
  assert (Hn : 0 <= n) by lia. assert (Ha : 0 <= agree) by (unfold agree, agreeing; lia).
  apply negb_true_iff, bool_decide_eq_false in Hs. unfold agreed. change (rs_state r') with state.
  change (ledgerMIN_CONSENSUS (en_parms env) < tm_dur (rs_roundTime r)
    /\ ((state = cs_Yes /\ (n = 0 \/ minCONSENSUS_PCT (en_parms env) * (n + Z.b2z (is_proposing s))
                                      <= 100 * (agree + Z.b2z (is_proposing s))))
       \/ (state = cs_MovedOn /\ 0 < n /\ minCONSENSUS_PCT (en_parms env) * n <= 100 * finished))).
  fold (is_proposing s) in state. unfold state in *. clear r' state. unfold checkConsensus in *.
  destruct (Z.leb_spec (tm_dur (rs_roundTime r)) (ledgerMIN_CONSENSUS (en_parms env))) as [|Hmin]; [done|].
  destruct ((n <? _) && _); [done|]. split; [done|].
  destruct (checkConsensusReached agree n _ _) eqn:E1.
  - left. split; [done|]. destruct (Z.eq_dec n 0); [by left|]. right. apply checkConsensusReached_count; [lia..|done].
  - destruct (checkConsensusReached finished n false _) eqn:E2; [|done]. right. split; [done|].
    destruct (Z.eq_dec n 0) as [->|]; [done|]. split; [lia|].
    apply checkConsensusReached_count in E2; [|lia..]. simpl in E2. lia.
Qed.

Lemma haveConsensus_phase env s : rc_phase (haveConsensus env s).2 = rc_phase s.
Proof. unfold haveConsensus. by destruct (rc_result s). Qed.

(** ** Peers whose close times all round to ours *)

Definition pcts_max (p : RpcaConsensusParms) : Prop :=
  avINIT_CONSENSUS_PCT p <= 100 /\ avMID_CONSENSUS_PCT p <= 100 /\ avLATE_CONSENSUS_PCT p <= 100
  /\ avSTUCK_CONSENSUS_PCT p <= 100 /\ 0 <= avCT_CONSENSUS_PCT p <= 100.

Lemma participantsNeeded_le n pct : 0 < n -> 0 <= pct <= 100 -> participantsNeeded n pct <= n.
Proof.
  intros Hn Hp. unfold participantsNeeded.
  assert (pct ÷ 2 <= 50) by (rewrite Z.quot_div_nonneg by lia; apply Z.div_le_upper_bound; lia).
  assert (0 <= pct ÷ 2) by (apply Z.quot_pos; lia).
  assert ((n * pct + pct ÷ 2) ÷ 100 <= n) by (rewrite Z.quot_div_nonneg by nia; apply Z.lt_succ_r, Z.div_lt_upper_bound; nia).
  case_match; lia.
Qed.

Lemma time_votes_all round peers our t :
  (forall n pos, peers !! n = Some pos -> round (pp_closeTime (po_proposal pos)) = our) ->
  time_votes round peers t = if our =? t then Z.of_nat (size peers) else 0.
Proof.
  intros H. unfold time_votes. destruct (Z.eqb_spec our t) as [<-|Hne].
  - rewrite map_filter_id; [done|]. intros n pos Hpos. by apply (H n).
  - enough (filter (fun e => round (pp_closeTime (po_proposal e.2)) = t) peers = ∅) as -> by done.
    apply map_empty. intros n. apply map_lookup_filter_None_2. destruct (peers !! n) as [pos|] eqn:E; [right | by left].
    intros pos' [= <-]. simpl. by rewrite (H n).
Qed.

Lemma unanimous_settles parms s r peers time have :
  let our := asCloseTime s (pp_closeTime (rs_position r)) in
  pcts_ok parms -> pcts_max parms -> is_proposing s = true -> peers <> ∅ ->
  (forall n pos, peers !! n = Some pos -> asCloseTime s (pp_closeTime (po_proposal pos)) = our) ->
  settles parms s r peers time have -> time = our /\ have = true.
Proof.
  intros our Hp0 (H1 & H2 & H3 & H4 & H5) Hpr Hne Hall [_ Hs]. destruct (Hs Hne) as [Hc Hh].
  assert (Hv : forall t, all_votes s r peers t = if our =? t then voters_count s peers else 0).
  { intros t. unfold all_votes, voters_count. rewrite (time_votes_all _ _ our) by done. fold our. rewrite Hpr. by destruct (_ =? _). }
  assert (Hn : 0 < voters_count s peers) by (unfold voters_count; rewrite Hpr; lia).
  assert (Ht : 0 <= threshold parms (rc_convergePercent s) <= 100)
    by (destruct Hp0 as (? & ? & ? & ?); unfold threshold; repeat case_match; lia).
  pose proof (participantsNeeded_le _ _ Hn Ht) as Hneed. pose proof (participantsNeeded_le _ _ Hn H5) as Henough.
  split; [|apply Hh; exists our; rewrite Hv, Z.eqb_refl; lia].
  pose proof (needed_pos parms _ (rc_convergePercent s) Hp0 (Z.lt_le_incl _ _ Hn)) as Hpos.
  destruct Hc as [[Hc _]|[_ Hc]].
  - rewrite Hv in Hc. destruct (Z.eqb_spec our time); [done | lia].
  - specialize (Hc our). rewrite Hv, Z.eqb_refl in Hc. lia.
Qed.

End Position.
