(* ===== verification/RpcaTheorems.v ===== *)
(** * RPCA consensus: theorems

    Disputes in every reachable state, termination of the timer, the choice of
    the close time, and the close time a node builds its ledger with. *)

From stdpp Require Import sorting.
From S2P Require Import Prelude HsTypes ConsensusTypes LedgerTrie LedgerTrieProps ValidatedLedger.
From S2P Require Import LedgerTrieSpec Validations ValidationsProps ValidationsTheorems.
From S2P Require Import LedgerTiming RpcaTypes Rpca RpcaProps RpcaInvariant RpcaSteps RpcaTimer.
From S2P Require Import RpcaAccept.
From coqutil Require Import Datatypes.RecordSetters.
Import DoubleBraceUpdate.

#[local] Open Scope Z_scope.

(** ** Histories *)

Section Histories.

Context {TS : TxSetOps}.

Inductive RpcaEvent :=
| EvStartRound (fuel : nat) (env : RpcaEnv) (now prevLedgerID : Z) (prevLedger : LedgerInfo)
    (nowUntrusted : gset Z) (isProposing : bool)
| EvTimer (fuel : nat) (env : RpcaEnv) (now : Z)
| EvTxSet (now : Z) (set : TxSet)
| EvProposal (env : RpcaEnv) (isTrusted cluster : bool) (pos : RCLCxPeerPos)
| EvSimulate (env : RpcaEnv) (now : Z) (delay : option Z).

Definition rpca_step (ev : RpcaEvent) (s : Rpca) : option Rpca :=
  match ev with
  | EvStartRound fuel env now id l untrusted isP => startRound fuel env now id l untrusted isP s
  | EvTimer fuel env now => timerEntry fuel env now s
  | EvTxSet now set => Some (gotTxSet now set s)
  | EvProposal env trusted cluster pos => Some (peerProposal env trusted cluster pos s).2
  | EvSimulate env now delay => Some (simulate env now delay s)
  end.

Definition rpca_ev_ok (ev : RpcaEvent) : Prop :=
  match ev with
  | EvStartRound _ env _ _ _ _ _ | EvTimer _ env _ | EvProposal env _ _ _ | EvSimulate env _ _ => env_ok env
  | EvTxSet _ _ => True
  end.

Inductive rpca_reached : Rpca -> Prop :=
| rpca_new id l t : rpca_reached (Rpca_new id l t)
| rpca_next s ev s' : rpca_reached s -> rpca_ev_ok ev -> rpca_step ev s = Some s' -> rpca_reached s'.

Lemma rpca_reached_good {TL : TxSetLaws} s : rpca_reached s -> good s.
Proof.
  induction 1 as [id l t|s ev s' _ IH Hev Hs]; [apply Rpca_new_good|].
  destruct ev; simpl in Hev, Hs.
  - by eapply startRound_good.
  - by eapply timerEntry_good.
  - injection Hs as <-. by apply gotTxSet_good.
  - injection Hs as <-. by apply peerProposal_good.
  - injection Hs as <-. by apply simulate_good.
Qed.

End Histories.

(** ** Example: two nodes, one dispute on each side *)

Module ToyRpca.

#[export] Instance sets : TxSetOps := {| set_id s := Z.pos (encode s); truncated := differences |}.

#[export] Instance sets_laws : TxSetLaws.
Proof. split; [|done|intros a b; simpl; lia]. intros a b [= H]. by apply (inj encode). Qed.

Definition ours : TxSet := {[1 := [1]; 3 := [3]]}.
Definition theirs : TxSet := {[1 := [1]; 2 := [2]]}.

Definition ledger (hash seq : Z) : LedgerInfo := mkLedgerInfo seq 900 hash 0 0 0 0 0 true true false 0 10 950.

(** The validated form of a ledger, found by its hash. *)
Definition as_validated (l : LedgerInfo) : RCLValidatedLedger :=
  default (mkValidatedLedger (li_hash l) 0 []) (ToyValidations.all (li_hash l)).

Definition position (seq : Z) (set : TxSet) (prev closeTime now node : Z) : STProposeSet :=
  mkProposeSet seq (set_id set) prev closeTime now node [] 0 0.

Definition acquireLedger (id : Z) : option LedgerInfo :=
  (fun l => ledger id (Z.of_N (vl_ledgerSeq l))) <$> ToyValidations.all id.

(** The adaptor [ms] milliseconds after the start. *)
Definition env (ms : Z) : RpcaEnv :=
  mkRpcaEnv (ms * 1000000) (1000 + ms / 1000) RpcaConsensusParms_default acquireLedger
    (fun id l _ => getPrevLedger ToyValidations.all 1010 ToyValidations.state 0 id (as_validated l))
    true (fun _ => 0) (fun _ _ => 0) (fun id => if id =? set_id theirs then Some theirs else None)
    (fun l now _ => (ours, position 0 ours (li_hash l) now now 1)) 100 (1, ∅) (fun _ k => (0, k)) true true.

Lemma env_good ms : env_ok (env ms).
Proof. split; simpl; [|by intros l now m txns pos [= <- <-]]. intros id set. case_match; btests; naive_solver. Qed.

Lemma env_prefers ms : prefers (env ms) ToyValidations.all 1010 ToyValidations.state 0 as_validated.
Proof.
  assert (H : forall id l, ToyValidations.all id = Some l -> lg_id l = id) by (intros id l Hl; by apply ToyValidations.all_ok).
  split; simpl; [| |done].
  - intros l. unfold as_validated. destruct (ToyValidations.all (li_hash l)) as [x|] eqn:E; simpl; [by apply H | done].
  - intros id l. unfold acquireLedger, as_validated. destruct (ToyValidations.all id) as [x|] eqn:E; simpl; [|done].
    intros [= <-]. simpl. by rewrite E.
Qed.

(** A round on the ledger [prev], with a position of the peer on ledger 22. *)
Definition round (prev seq : Z) (set : TxSet) (closeTime : Z) : list RpcaEvent :=
  [EvStartRound 3 (env 0) 1000 prev (ledger prev seq) ∅ true;
   EvProposal (env 1000) true false (mkPeerPos [] [] 0 (position 0 set 22 closeTime 1001 2))].

Definition start := Rpca_new 0 (ledger 0 0) 15000.

Definition run (evs : list RpcaEvent) : option Rpca := foldl (fun o ev => o ≫= rpca_step ev) (Some start) evs.

Definition state (evs : list RpcaEvent) : Rpca := default start (run evs).

Lemma run_reached evs : (forall ev, ev ∈ evs -> rpca_ev_ok ev) -> rpca_reached (state evs).
Proof.
  unfold state, run.
  assert (H : forall evs o, (forall ev, ev ∈ evs -> rpca_ev_ok ev) -> (forall s, o = Some s -> rpca_reached s) ->
    forall s, foldl (fun o ev => o ≫= rpca_step ev) o evs = Some s -> rpca_reached s).
  { clear. induction evs as [|ev evs IH]; intros o He Ho; [done|]. cbn [foldl].
    apply IH; [intros ev' ?; apply He; by right|]. intros s. destruct o as [t|]; [|done].
    apply rpca_next; [by apply Ho | apply He; by left]. }
  intros He. destruct (foldl _ _ _) as [s|] eqn:E; [|constructor].
  apply (H evs (Some start) He); [|done]. intros t [= <-]. constructor.
Qed.

Lemma round_ok prev seq set closeTime more :
  (forall ev, ev ∈ more -> rpca_ev_ok ev) -> rpca_reached (state (round prev seq set closeTime ++ more)).
Proof.
  intros H. apply run_reached. intros ev. unfold round. rewrite elem_of_app, !elem_of_cons, elem_of_nil.
  intros [[->|[->|[]]]|Hin]; [apply env_good | apply env_good | by apply H].
Qed.

(** After the timer has closed the ledger, one second into the round. *)
Definition closed (set : TxSet) (now closeTime : Z) : Rpca :=
  state (round 22 2 set closeTime ++ [EvTimer 3 (env 1000) now]).

Lemma closed_reached set now closeTime : rpca_reached (closed set now closeTime).
Proof. apply round_ok. intros ev ->%list_elem_of_singleton. apply env_good. Qed.

End ToyRpca.

#[local] Existing Instance ToyRpca.sets.
#[local] Existing Instance ToyRpca.sets_laws.

(** ** Theorems *)

(** C13: what disputes say.  In every state the object reaches: the establish phase has a
    result, whose position names its transaction set; the counts of a dispute are those of
    its votes, our vote is whether our set has the transaction, only current peers have a
    vote, and a current peer whose set is known has one, which is whether that set has the
    transaction; every transaction on which our set and a current peer's known set differ
    is disputed, unless there are 65536 disputes or more, the number at which a comparison
    of sets is cut off.  Sets are told apart by their hashes. *)
Theorem disputes_in_order {TS : TxSetOps} {TL : TxSetLaws} (s : Rpca) :
  rpca_reached s ->
  (rc_phase s = ph_establish -> is_Some (rc_result s))
  /\ forall r, rc_result s = Some r ->
       pp_position (rs_position r) = set_id (rs_txns r)
       /\ (forall k d, rs_disputes r !! k = Some d ->
             counts d /\ dt_ourVote d = tx_exists (rs_txns r) k
             /\ (forall n, is_Some (dt_votes d !! n) -> is_Some (rc_currPeerPositions s !! n))
             /\ forall n set, set_of s n = Some set -> dt_votes d !! n = Some (tx_exists set k))
       /\ (65536 <= Z.of_nat (size (rs_disputes r))
           \/ forall n set k, set_of s n = Some set -> rs_txns r !! k <> set !! k -> is_Some (rs_disputes r !! k)).
Proof.
  intros HR. destruct (rpca_reached_good s HR) as [HB HP HO HC]. split; [done|].
  intros r Hr. destruct (b_result s HB r Hr) as [D1 D2]. split_and!; [by apply HO | |].
  - intros k d Hd. destruct (D1 k d Hd) as (_ & H1 & H2 & H3). split_and!; [done..|].
    intros n set Hs. by apply (proj1 (HC n r Hr)).
  - destruct D2 as [D2|D2]; [by left | right]. intros n set k Hs. by apply D2, (proj2 (HC n r Hr)).
Qed.

(** Transaction 2 is in the peer's set and not in ours. *)
Lemma disputes_in_order_witness :
  exists r d, rc_result (ToyRpca.closed ToyRpca.theirs 1001 1003) = Some r /\ rs_disputes r !! 2 = Some d
  /\ dt_votes d !! 2 = Some true /\ dt_ourVote d = false.
Proof.
  destruct (disputes_in_order (TS := ToyRpca.sets) (ToyRpca.closed ToyRpca.theirs 1001 1003)
    (ToyRpca.closed_reached _ _ _)) as [H1 H2].
  destruct H1 as [r Hr]; [vm_compute; reflexivity|]. destruct (H2 r Hr) as (_ & H3 & H4).
  assert (Hset : set_of (ToyRpca.closed ToyRpca.theirs 1001 1003) 2 = Some ToyRpca.theirs) by (vm_compute; reflexivity).
  assert (Ht : rs_txns r = ToyRpca.ours).
  { assert (E : rs_txns <$> rc_result (ToyRpca.closed ToyRpca.theirs 1001 1003) = Some ToyRpca.ours)
      by (vm_compute; reflexivity). rewrite Hr in E. by injection E. }
  assert (Hn : (size (rs_disputes r) <= 2)%nat).
  { assert (E : size <$> (rs_disputes <$> rc_result (ToyRpca.closed ToyRpca.theirs 1001 1003)) = Some 2%nat)
      by (vm_compute; reflexivity). rewrite Hr in E. injection E as ->. done. }
  destruct H4 as [H4|H4]; [lia|].
  destruct (H4 2 _ 2 Hset) as [d Hd]; [rewrite Ht; discriminate|]. exists r, d.
  destruct (H3 2 d Hd) as (_ & E2 & _ & E4). split; [exact Hr|]. split; [exact Hd|].
  split; [rewrite (E4 2 _ Hset); reflexivity | rewrite E2, Ht; reflexivity].
Defined.

(** C14: the timer terminates.  When the adaptor names the ledger the validations
    prefer and both look ledgers up in the same store, three nested calls of
    [timerEntry] are enough whatever the state: with that fuel the call returns,
    and more fuel gives the same result. *)
Theorem timer_terminates {TS : TxSetOps} {L : Type} {LO : LedgerOps L} (ok : L -> Prop) {LL : LedgerLaws ok}
    (p : ValidationParms) (e : Z) (va : Validations L) (acquire : Z -> option L) (vnow : Z) (minValidSeq : N)
    (as_validated : LedgerInfo -> L) (env : RpcaEnv) (now : Z) (s : Rpca) (fuel : nat) :
  reached ok p e va -> supplies ok acquire -> prefers env acquire vnow va minValidSeq as_validated ->
  (3 <= fuel)%nat ->
  is_Some (timerEntry 3 env now s) /\ timerEntry fuel env now s = timerEntry 3 env now s.
Proof.
  intros HR%(reached_backed ok) Ha HP Hf. apply and_comm, timer_settled; [|done]. by apply (any_settled ok _ _ _ _ _ _ HP).
Qed.

(** From ledger 21 the timer moves to ledger 22 and closes there, in two calls. *)
Lemma timer_terminates_witness :
  let s := ToyRpca.state (ToyRpca.round 21 2 ToyRpca.theirs 1003) in
  timerEntry 7 (ToyRpca.env 1000) 1001 s = timerEntry 3 (ToyRpca.env 1000) 1001 s
  /\ (fun s => (rc_prevLedgerID s, rc_phase s)) <$> timerEntry 3 (ToyRpca.env 1000) 1001 s = Some (22, ph_establish)
  /\ timerEntry 1 (ToyRpca.env 1000) 1001 s = None.
Proof.
  cbv zeta. split; [|split; vm_compute; reflexivity].
  exact (proj2 (timer_terminates (complete ToyLedgers.hist) _ _ _ _ _ _ _ _ 1001 _ 7
    (proj1 (reached_trusted_tracked _ _ _ _ ToyValidations.state_reached)) ToyValidations.all_ok
    (ToyRpca.env_prefers 1000) ltac:(lia))).
Defined.

(** C15: acceptance is justified.  A pass of the establish phase that accepts has
    agreed on the close time and has run for longer than the minimum; the peers it
    counts are those with a fresh position; enough of them, with ourselves when
    proposing, take the position accepted (or none has a position), or enough
    have moved on; and the last thing it does is to hand over that result. *)
Theorem accept_justified {TS : TxSetOps} (env : RpcaEnv) (s : Rpca) :
  let s' := phaseEstablish env s in
  let finished := en_proposersFinished env (rc_previousLedger s) (rc_prevLedgerID s) in
  pcts_ok (en_parms env) -> 0 <= finished -> rc_phase s <> ph_accepted -> rc_phase s' = ph_accepted ->
  rc_haveCloseTimeConsensus s' = true
  /\ rc_currPeerPositions s' = fresh (u32 (rc_now s - proposeFRESHNESS (en_parms env))) (rc_currPeerPositions s)
  /\ exists r, rc_result s' = Some r /\ ledgerMIN_CONSENSUS (en_parms env) < tm_dur (rs_roundTime r)
     /\ agreed (en_parms env) finished s' r
     /\ last (rc_effects s') =
          Some (OnAccept r (rc_previousLedger s') (rc_closeResolution s') (rc_rawCloseTimes s') (rc_mode s')).
Proof.
  intros s' finished Hp Hf Hph. subst s'. unfold phaseEstablish. destruct (rc_result s) as [r|]; [|done]. cbv zeta.
  set (r1 := r {{ rs_roundTime := _; rs_proposers := _ }}). set (s1 := (set_result r1 s) {{ rc_convergePercent := _ }}).
  destruct (_ <? _); [done|]. destruct (updateOurPositions_spec env s1 r1 Hp eq_refl) as (time & have & HU & _).
  change (settled_state s1) with (settled_state s) in HU. change (rc_now s1) with (rc_now s) in HU.
  change (rc_currPeerPositions s1) with (rc_currPeerPositions s) in HU. cbv zeta in HU.
  set (s2 := updateOurPositions env s1) in *. clearbody s2. clear r1 s1.
  unfold passed, settled_state in HU. injection HU as U1 U2 U3 U4 U5 U6 U7 U8 U9 U10.
  destruct (shouldPause env s2); [congruence|]. pose proof (haveConsensus_phase env s2) as HC.
  destruct (haveConsensus env s2) as [[] s3] eqn:EC; cbn [negb snd] in *; [clear HC | congruence].
  destruct (haveConsensus_agreed env s2 s3) as (HP & _ & r3 & R1 & R2 & R3); [by rewrite U7, U8 | done|].
  rewrite U7, U8 in R3. fold finished in R3. cbn [negb]. unfold passed in HP. injection HP as P1 P2 P3 P4 P5 P6 P7 P8 P9 P10.
  destruct (rc_haveCloseTimeConsensus s3) eqn:EH; cbn [negb]; [|intros; congruence]. rewrite R1. intros _.
  split_and!; [exact EH | etrans; [exact P5 | exact U5]|]. exists r3. split_and!; [exact R1 | done | exact R3 |].
  unfold emit at 1. simpl. unfold constant. by rewrite last_snoc.
Qed.

(** A peer with our set: accepted five seconds into the round. *)
Lemma accept_justified_witness :
  let s := (ToyRpca.closed ToyRpca.ours 1001 1003) {{ rc_now := 1005 }} in
  rc_haveCloseTimeConsensus (phaseEstablish (ToyRpca.env 5000) s) = true.
Proof.
  cbv zeta. refine (proj1 (accept_justified (ToyRpca.env 5000) _ _ _ _ _)).
  - vm_compute. repeat split; discriminate.
  - vm_compute. discriminate.
  - vm_compute. discriminate.
  - vm_compute. reflexivity.
Defined.

(** the close time of a pass.  [updateOurPositions] counts the fresh positions
    only; the close time it settles on is the one most of them (with ours when
    proposing) round to, the latest on a tie, if it has the votes the threshold
    asks for, and 0 otherwise; it is agreed exactly when some time has the votes of
    both thresholds, or no peer is left; the position is kept only if it rounds to
    the time settled on, and otherwise changed to it. *)
Theorem close_time_agreement {TS : TxSetOps} (env : RpcaEnv) (s : Rpca) (r : ConsensusResult) :
  pcts_ok (en_parms env) -> rc_result s = Some r ->
  let s' := updateOurPositions env s in
  let peers := fresh (u32 (rc_now s - proposeFRESHNESS (en_parms env))) (rc_currPeerPositions s) in
  rc_currPeerPositions s' = peers
  /\ exists time, settles (en_parms env) s r peers time (rc_haveCloseTimeConsensus s')
     /\ ((stance s' = stance s /\ time = asCloseTime s (pp_closeTime (rs_position r)))
         \/ exists set, stance s' =
              Some (set, changePosition (rs_position r) (set_id set) time (rc_now s), rs_roundTime r)).
Proof.
  intros Hp Hr s' peers. destruct (updateOurPositions_spec env s r Hp Hr) as (time & have & E & HS & HP).
  unfold passed, settled_state in E. injection E as _ _ _ _ E1 E2 _ _ _ _. split; [exact E1|]. exists time.
  split; [unfold s'; rewrite E2; exact HS|]. destruct HP as [HP|(set & HP & _)]; [by left|]. right. by exists set.
Qed.

Lemma close_time_agreement_witness :
  let s := (ToyRpca.closed ToyRpca.ours 1001 1003) {{ rc_now := 1005 }} in
  rc_currPeerPositions (updateOurPositions (ToyRpca.env 5000) s) = rc_currPeerPositions s
  /\ rc_currPeerPositions s <> ∅.
Proof.
  cbv zeta. set (s := (ToyRpca.closed ToyRpca.ours 1001 1003) {{ rc_now := 1005 }}).
  destruct (rc_result s) as [r|] eqn:Er; [|vm_compute in Er; discriminate].
  split; [|vm_compute; discriminate]. etransitivity; [refine (proj1 (close_time_agreement (ToyRpca.env 5000) s r _ Er))|].
  - vm_compute. repeat split; discriminate.
  - vm_compute. reflexivity.
Defined.

(** agreed close times are not equal close times.  When the close times of all
    fresh positions round to the same time as ours, the pass agrees on the close
    time and keeps our position with its own time, unrounded, and that time is what
    [doAccept] builds the ledger with; two nodes whose times only round alike build
    ledgers with different close times. *)
Theorem accepted_time_unrounded {TS : TxSetOps} (env : RpcaEnv) (s : Rpca) (r : ConsensusResult) :
  let s' := updateOurPositions env s in
  let peers := fresh (u32 (rc_now s - proposeFRESHNESS (en_parms env))) (rc_currPeerPositions s) in
  let t := pp_closeTime (rs_position r) in
  pcts_ok (en_parms env) -> pcts_max (en_parms env) -> rc_result s = Some r -> rc_mode s = proposing ->
  rs_disputes r = ∅ -> peers <> ∅ ->
  (forall n pos, peers !! n = Some pos -> asCloseTime s (pp_closeTime (po_proposal pos)) = asCloseTime s t) ->
  isStale (rs_position r) (u32 (rc_now s - proposeINTERVAL (en_parms env))) = false ->
  0 <= li_closeTime (rc_previousLedger s) < t -> t < 2 ^ 32 ->
  rc_haveCloseTimeConsensus s' = true
  /\ exists r', rc_result s' = Some r' /\ rs_position r' = rs_position r
     /\ accepted_close_time (pp_closeTime (rs_position r')) (li_closeTime (rc_previousLedger s')) = (t, true).
Proof.
  intros s' peers t Hp Hm Hr Hmode Hd Hne Hall Hst Ht1 Ht2.
  destruct (updateOurPositions_spec env s r Hp Hr) as (time & have & E & HS & HP). fold s' peers in E, HS, HP.
  destruct (unanimous_settles _ _ _ _ _ _ Hp Hm (bool_decide_eq_true_2 _ Hmode) Hne Hall HS) as [-> ->].
  unfold passed, settled_state in E. injection E as _ _ _ _ _ E1 _ E2 _ _. split; [done|].
  destruct HP as [[HP _]|(set & _ & [?|[?|?]])]; [|done|done|congruence].
  unfold stance in HP. rewrite Hr in HP. destruct (rc_result s') as [r'|]; [|done]. injection HP as _ HP _.
  exists r'. split_and!; [done | done|]. rewrite HP, E2. fold t. unfold accepted_close_time.
  rewrite (proj2 (Z.eqb_neq t 0)), u32_small, Z.max_l by lia. done.
Qed.

(** Two nodes with the same transactions accept with the close times 1001 and 1003. *)
Lemma accepted_time_unrounded_witness :
  let a := (ToyRpca.closed ToyRpca.ours 1001 1003) {{ rc_now := 1005 }} in
  let b := (ToyRpca.closed ToyRpca.ours 1003 1001) {{ rc_now := 1005 }} in
  let accepted s := (fun r => accepted_close_time (pp_closeTime (rs_position r)) 950)
    <$> rc_result (updateOurPositions (ToyRpca.env 5000) s) in
  accepted a = Some (1001, true) /\ accepted b = Some (1003, true)
  /\ rc_phase (phaseEstablish (ToyRpca.env 5000) a) = ph_accepted
  /\ rc_phase (phaseEstablish (ToyRpca.env 5000) b) = ph_accepted.
Proof.
  cbv zeta. split; [|repeat split; vm_compute; reflexivity].
  set (a := (ToyRpca.closed ToyRpca.ours 1001 1003) {{ rc_now := 1005 }}).
  destruct (rc_result a) as [r|] eqn:Er; [|vm_compute in Er; discriminate].
  pose proof (accepted_time_unrounded (ToyRpca.env 5000) a r) as H. cbv zeta in H.
  assert (E : Some r = Some r) by reflexivity. rewrite <- Er in E at 2. vm_compute in E. injection E as ->.
  destruct H as (_ & r' & E1 & E2 & H); [vm_compute; repeat split; discriminate | vm_compute; repeat split; discriminate
    | exact Er | vm_compute; reflexivity | reflexivity | vm_compute; discriminate | | vm_compute; reflexivity
    | vm_compute; split; [discriminate | reflexivity] | vm_compute; reflexivity
    | rewrite E1; cbn [fmap option_fmap option_map]; rewrite E2; reflexivity].
  intros n pos. match goal with |- ?m !! n = _ -> _ => assert (Em : m = {[2 := default
    (mkPeerPos [] [] 0 (ToyRpca.position 0 ∅ 0 0 0 0)) (m !! 2)]}) by (vm_compute; reflexivity); rewrite Em end.
  intros [<- <-]%lookup_singleton_Some. vm_compute. reflexivity.
Defined.
