(* ===== verification/ViewChange.v ===== *)
(** * View changes (STViewChange, ViewChangeManager)

    Requests of validators to leave the current view, and the manager that counts
    them, from [src/src/peersafe/consensus/pop/impl/ViewChangeManager.cpp] and
    [src/src/peersafe/protocol/STViewChange.h].  A [std::map] is a finite map; where
    the order of its keys can matter it is iterated in that order. *)

From S2P Require Import Prelude HsTypes.
From stdpp Require Import sorting.

#[local] Open Scope Z_scope.

Record STViewChange := mkViewChange {
  vc_prevSeq : Z;
  vc_prevHash : Z;
  vc_toView : Z;
  vc_nodePublic : Bytes;
  vc_validatedSeq : Z
}.

#[export] Instance STViewChange_eq_dec : EqDecision STViewChange.
Proof. solve_decision. Defined.

(** ** Maps in the order of their keys *)

(** Public keys are ordered byte by byte. *)
Fixpoint bytes_leb (a b : Bytes) : bool :=
  match a, b with
  | [], _ => true
  | _ :: _, [] => false
  | x :: a, y :: b => (x <? y) || ((x =? y) && bytes_leb a b)
  end.

Definition key_order {A} (a b : Bytes * A) : Prop := bytes_leb a.1 b.1 = true.
Definition view_order {A} (a b : Z * A) : Prop := a.1 <= b.1.

#[export] Instance key_order_dec {A} (a b : Bytes * A) : Decision (key_order a b).
Proof. unfold key_order. apply _. Defined.
#[export] Instance view_order_dec {A} (a b : Z * A) : Decision (view_order a b).
Proof. unfold view_order. apply _. Defined.

Definition by_key {A} (m : gmap Bytes A) : list (Bytes * A) := merge_sort key_order (map_to_list m).
Definition by_view {A} (m : gmap Z A) : list (Z * A) := merge_sort view_order (map_to_list m).

(** ** The manager: requests by the view they ask for and by who asks *)

Abbreviation Requests := (gmap Bytes STViewChange).
Abbreviation ViewChangeManager := (gmap Z (gmap Bytes STViewChange)).

Definition requests (m : ViewChangeManager) (toView : Z) : Requests := default ∅ (m !! toView).

Definition viewCount (m : ViewChangeManager) (toView : Z) : Z :=
  match m !! toView with Some reqs => Z.of_nat (size reqs) | None => 0 end.

Definition nonempty (reqs : Requests) : option Requests := if decide (reqs = ∅) then None else Some reqs.

(** Kept at the start of a round on the ledger with this number and hash. *)
Definition still_valid (seq id : Z) (v : STViewChange) : bool :=
  negb (vc_prevSeq v <? seq) && negb ((vc_prevSeq v =? seq) && negb (vc_prevHash v =? id)).

Definition onNewRound (prevLedger : LedgerInfo) (m : ViewChangeManager) : ViewChangeManager :=
  omap (fun reqs => nonempty (filter (fun e => still_valid (li_seq prevLedger) (li_hash prevLedger) e.2 = true) reqs)) m.

Definition recvViewChange (v : STViewChange) (m : ViewChangeManager) : bool * ViewChangeManager :=
  match m !! vc_toView v with
  | Some reqs => (true, <[vc_toView v := <[vc_nodePublic v := v]> reqs]> m)
  | None => (true, <[vc_toView v := {[vc_nodePublic v := v]}]> m)
  end.

(** The requests on a ledger. *)
Definition on_hash (hash : Z) (reqs : Requests) : Requests := filter (fun e => vc_prevHash e.2 = hash) reqs.

Definition vc_haveConsensus (toView curView preHash quorum : Z) (m : ViewChangeManager) : bool :=
  match m !! toView with
  | None => false
  | Some reqs =>
      if Z.of_nat (size reqs) >=? quorum then
        (Z.of_nat (size (on_hash preHash reqs)) >=? quorum) && (toView >? curView)
      else false
  end.

Definition vc_onViewChanged (newView preSeq : Z) (m : ViewChangeManager) : ViewChangeManager :=
  map_imap (fun view reqs =>
    if view <=? newView then None
    else nonempty (filter (fun e => negb (vc_prevSeq e.2 <? preSeq) = true) reqs)) m.

(** The first request by which the hash it names has a quorum. *)
Fixpoint trigger_loop (quorum : Z) (counts : gmap Z Z) (reqs : list (Bytes * STViewChange)) : option STViewChange :=
  match reqs with
  | [] => None
  | (_, v) :: reqs =>
      let n := default 0 (counts !! vc_prevHash v) + 1 in
      if n >=? quorum then Some v else trigger_loop quorum (<[vc_prevHash v := n]> counts) reqs
  end.

(** Whether a quorum asks for the view, the number and the hash of the ledger they are
    on.  The subscript leaves an empty entry for a view nobody asks for. *)
Definition shouldTriggerViewChange (toView quorum : Z) (m : ViewChangeManager) : (bool * Z * Z) * ViewChangeManager :=
  let reqs := requests m toView in
  let m := <[toView := reqs]> m in
  (if Z.of_nat (size reqs) >=? quorum then
     match trigger_loop quorum ∅ (by_key reqs) with
     | Some v => if vc_prevSeq v >? 0 then (true, vc_prevSeq v, vc_prevHash v) else (false, 0, 0)
     | None => (false, 0, 0)
     end
   else (false, 0, 0), m).

Definition clearCache (m : ViewChangeManager) : ViewChangeManager := ∅.

(** The request with the highest validated ledger above [maxSeq], the first one of them. *)
Definition higher (best : Z * Bytes) (e : Bytes * STViewChange) : Z * Bytes :=
  if vc_validatedSeq e.2 >? best.1 then (vc_validatedSeq e.2, vc_nodePublic e.2) else best.

Definition found (validatedSeq : Z) (best : Z * Bytes) : Z * Bytes :=
  if best.1 >? validatedSeq then best else (0, []).

Definition FindHighValSeqViewChange (view validatedSeq : Z) (m : ViewChangeManager) : Z * Bytes :=
  match m !! view with
  | None => (0, [])
  | Some _ =>
      found validatedSeq
        (fold_left (fun best e => fold_left higher (by_key e.2) best) (by_view m) (validatedSeq, []))
  end.

Definition FindHighValSeqViewChangeByView (view validatedSeq : Z) (m : ViewChangeManager) : Z * Bytes :=
  match m !! view with
  | None => (0, [])
  | Some reqs => found validatedSeq (fold_left higher (by_key reqs) (validatedSeq, []))
  end.
