(* ===== verification/ViewChangeProps.v ===== *)
(** * View changes: what the manager stores and when it triggers

    The request stored for a view and a key, through every operation of the manager,
    and the two ways in which a quorum of requests is recognised. *)

From S2P Require Import Prelude HsTypes ViewChange.
From stdpp Require Import sorting.

#[local] Open Scope Z_scope.

(** ** The stored request *)

Definition stored (m : ViewChangeManager) (view : Z) (key : Bytes) : option STViewChange := requests m view !! key.

Lemma stored_some m view key v : stored m view key = Some v <-> exists reqs, m !! view = Some reqs /\ reqs !! key = Some v.
Proof.
  unfold stored, requests. destruct (m !! view) as [reqs|]; simpl; [|rewrite lookup_empty; naive_solver]. naive_solver.
Qed.

Lemma nonempty_default reqs : default ∅ (nonempty reqs) = reqs.
Proof. unfold nonempty. by destruct (decide (reqs = ∅)) as [->|]. Qed.

Lemma stored_recv x m view key :
  stored (recvViewChange x m).2 view key
  = if decide (view = vc_toView x /\ key = vc_nodePublic x) then Some x else stored m view key.
Proof.
  unfold stored, requests, recvViewChange. destruct (decide (view = vc_toView x)) as [->|Hv].
  - destruct (m !! vc_toView x) as [reqs|] eqn:E; simpl; rewrite lookup_insert_eq; simpl.
    + destruct (decide (key = vc_nodePublic x)) as [->|Hk]; [by rewrite lookup_insert_eq, decide_True|].
      by rewrite lookup_insert_ne, decide_False by naive_solver.
    + destruct (decide (key = vc_nodePublic x)) as [->|Hk]; [by rewrite lookup_singleton_eq, decide_True|].
      by rewrite lookup_singleton_ne, lookup_empty, decide_False by naive_solver.
  - rewrite decide_False by naive_solver. destruct (m !! vc_toView x); simpl; by rewrite lookup_insert_ne.
Qed.

Lemma lookup_filtered (reqs : Requests) (f : STViewChange -> bool) key :
  filter (fun e => f e.2 = true) reqs !! key
  = match reqs !! key with Some v => if f v then Some v else None | None => None end.
Proof.
  destruct (reqs !! key) as [v|] eqn:E.
  - destruct (f v) eqn:Ef; [by apply map_lookup_filter_Some_2|]. apply map_lookup_filter_None_2. right. intros w Hw. simpl. congruence.
  - apply map_lookup_filter_None_2. by left.
Qed.

(** A request that passes a test. *)
Definition passing (f : STViewChange -> bool) (o : option STViewChange) : option STViewChange :=
  match o with Some v => if f v then Some v else None | None => None end.

Lemma stored_new_round l m view key :
  stored (onNewRound l m) view key = passing (still_valid (li_seq l) (li_hash l)) (stored m view key).
Proof.
  unfold stored, requests, onNewRound. rewrite lookup_omap. destruct (m !! view) as [reqs|]; simpl; [|by rewrite lookup_empty].
  by rewrite nonempty_default, lookup_filtered.
Qed.

Lemma stored_view_changed newView preSeq m view key :
  stored (vc_onViewChanged newView preSeq m) view key
  = if view <=? newView then None else passing (fun v => negb (vc_prevSeq v <? preSeq)) (stored m view key).
Proof.
  unfold stored, requests, vc_onViewChanged. rewrite map_lookup_imap. destruct (m !! view) as [reqs|]; simpl.
  - destruct (view <=? newView); simpl; [by rewrite lookup_empty|].
    by rewrite nonempty_default, (lookup_filtered reqs (fun v => negb (vc_prevSeq v <? preSeq))).
  - rewrite lookup_empty. by destruct (view <=? newView).
Qed.

Lemma stored_trigger toView quorum m view key : stored (shouldTriggerViewChange toView quorum m).2 view key = stored m view key.
Proof.
  unfold stored, shouldTriggerViewChange. simpl. unfold requests at 1. destruct (decide (view = toView)) as [->|];
    [by rewrite lookup_insert_eq | by rewrite lookup_insert_ne].
Qed.

(** ** Counting *)

Lemma by_key_perm {A} (m : gmap Bytes A) : by_key m ≡ₚ map_to_list m.
Proof. apply merge_sort_Permutation. Qed.

Definition names (hash : Z) (e : Bytes * STViewChange) : Prop := vc_prevHash e.2 = hash.
#[export] Instance names_dec hash e : Decision (names hash e).
Proof. unfold names. apply _. Defined.

Definition count_on (hash : Z) (l : list (Bytes * STViewChange)) : Z := Z.of_nat (length (filter (names hash) l)).

Lemma count_on_cons hash e l : count_on hash (e :: l) = (if decide (vc_prevHash e.2 = hash) then 1 else 0) + count_on hash l.
Proof.
  unfold count_on. rewrite filter_cons. unfold names at 1. destruct (decide (vc_prevHash e.2 = hash)); simpl length; lia.
Qed.

Lemma count_on_nonneg hash l : 0 <= count_on hash l.
Proof. unfold count_on. lia. Qed.

Lemma size_on_hash (hash : Z) (reqs : Requests) : Z.of_nat (size (on_hash hash reqs)) = count_on hash (by_key reqs).
Proof.
  unfold count_on. rewrite by_key_perm. f_equal. unfold on_hash. rewrite <- length_map_to_list. apply Permutation_length.
  apply NoDup_Permutation; [apply NoDup_map_to_list | apply NoDup_filter, NoDup_map_to_list|].
  intros [k v]. rewrite list_elem_of_filter, !elem_of_map_to_list, map_lookup_filter_Some. unfold names. naive_solver.
Qed.

Lemma trigger_sound quorum counts l v :
  trigger_loop quorum counts l = Some v ->
  quorum <= default 0 (counts !! vc_prevHash v) + count_on (vc_prevHash v) l /\ exists k, (k, v) ∈ l.
Proof.
  revert counts. induction l as [|[k w] l IH]; intros counts; cbn [trigger_loop]; [done|]. rewrite Z.geb_leb, count_on_cons. simpl.
  destruct (Z.leb_spec quorum (default 0 (counts !! vc_prevHash w) + 1)) as [Hq|Hq].
  - intros [= ->]. rewrite decide_True by done. pose proof (count_on_nonneg (vc_prevHash v) l). split; [lia|]. exists k. by left.
  - intros [Hc (k' & Hk)]%IH. split; [|exists k'; by right]. destruct (decide (vc_prevHash w = vc_prevHash v)) as [E|E].
    + rewrite E, lookup_insert_eq in Hc. simpl in Hc. lia.
    + rewrite lookup_insert_ne in Hc by done. lia.
Qed.

Lemma trigger_complete quorum counts l hash :
  default 0 (counts !! hash) < quorum <= default 0 (counts !! hash) + count_on hash l ->
  exists v, trigger_loop quorum counts l = Some v.
Proof.
  revert counts. induction l as [|[k w] l IH]; intros counts Hq; cbn [trigger_loop]; [change (count_on hash []) with 0 in Hq; lia|].
  rewrite Z.geb_leb. destruct (Z.leb_spec quorum (default 0 (counts !! vc_prevHash w) + 1)) as [|Hlt]; [by eexists|].
  apply IH. rewrite count_on_cons in Hq. simpl in Hq. destruct (decide (vc_prevHash w = hash)) as [<-|E].
  - rewrite lookup_insert_eq. simpl. lia.
  - rewrite lookup_insert_ne by done. lia.
Qed.

(** Two hashes do not both have more than half of the requests. *)
Lemma counts_disjoint h1 h2 l : h1 <> h2 -> count_on h1 l + count_on h2 l <= Z.of_nat (length l).
Proof.
  intros Hne. induction l as [|e l IH]; [done|]. rewrite !count_on_cons. simpl length.
  destruct (decide (vc_prevHash e.2 = h1)), (decide (vc_prevHash e.2 = h2)); [congruence | lia..].
Qed.

Lemma length_by_key (reqs : Requests) : length (by_key reqs) = size reqs.
Proof. rewrite by_key_perm. apply length_map_to_list. Qed.

Lemma on_hash_size (hash : Z) (reqs : Requests) : (size (on_hash hash reqs) <= size reqs)%nat.
Proof. apply map_subseteq_size, map_filter_subseteq. Qed.

Lemma have_quorum toView curView preHash quorum m :
  vc_haveConsensus toView curView preHash quorum m = true ->
  quorum <= Z.of_nat (size (on_hash preHash (requests m toView))) /\ curView < toView.
Proof.
  unfold vc_haveConsensus, requests. destruct (m !! toView) as [reqs|]; [|done]. rewrite !Z.geb_leb, Z.gtb_ltb. simpl.
  destruct (_ <=? _); [|done]. intros [?%Z.leb_le ?%Z.ltb_lt]%andb_true_iff. done.
Qed.

(** What a trigger tells: a quorum on the ledger, and the number one request gives it. *)
Lemma trigger_quorum toView quorum m seq hash :
  (shouldTriggerViewChange toView quorum m).1 = (true, seq, hash) ->
  quorum <= Z.of_nat (size (on_hash hash (requests m toView))).
Proof.
  unfold shouldTriggerViewChange. cbn [fst]. rewrite Z.geb_leb. destruct (_ <=? _); [|done].
  destruct (trigger_loop quorum ∅ (by_key (requests m toView))) as [v|] eqn:Ht; [|done].
  apply trigger_sound in Ht as [Hq _]. rewrite lookup_empty in Hq. simpl in Hq.
  destruct (vc_prevSeq v >? 0); intros [= <- <-]. rewrite size_on_hash. lia.
Qed.

(** Both ways of recognising a view change agree.  When a quorum of more than half of the
    requests for a view names one ledger and its number, the node that asks for the view
    sees a quorum on that ledger and on no other one, and any other node is told to
    change to that view on that ledger. *)
Theorem view_change_recognised toView curView quorum m hash seq :
  0 < quorum -> 0 < seq -> curView < toView ->
  Z.of_nat (size (requests m toView)) < 2 * quorum ->
  quorum <= Z.of_nat (size (on_hash hash (requests m toView))) ->
  (forall k v, stored m toView k = Some v -> vc_prevHash v = hash -> vc_prevSeq v = seq) ->
  (shouldTriggerViewChange toView quorum m).1 = (true, seq, hash)
  /\ forall hash', vc_haveConsensus toView curView hash' quorum m = bool_decide (hash' = hash).
Proof.
  intros Hq0 Hs0 Hv Hhalf Hq Hseq. set (reqs := requests m toView) in *. pose proof (on_hash_size hash reqs) as Hle.
  assert (Hother : forall hash', hash' <> hash -> Z.of_nat (size (on_hash hash' reqs)) < quorum).
  { intros hash' Hne. rewrite size_on_hash in *. pose proof (counts_disjoint hash' hash (by_key reqs) Hne) as Hd. rewrite length_by_key in Hd. lia. }
  split.
  - unfold shouldTriggerViewChange. cbn [fst]. fold reqs. rewrite Z.geb_leb, (proj2 (Z.leb_le _ _)) by lia.
    destruct (trigger_complete quorum ∅ (by_key reqs) hash) as [v Ht]; [rewrite lookup_empty, <- size_on_hash; simpl; lia|]. rewrite Ht.
    apply trigger_sound in Ht as [Hc (k & Hk)]. rewrite lookup_empty, <- size_on_hash in Hc. simpl in Hc.
    assert (Hh : vc_prevHash v = hash) by (destruct (decide (vc_prevHash v = hash)) as [|Hne]; [done | specialize (Hother _ Hne); lia]).
    rewrite by_key_perm, elem_of_map_to_list in Hk. rewrite (Hseq k v Hk Hh), Hh. by rewrite Z.gtb_ltb, (proj2 (Z.ltb_lt _ _)) by lia.
  - intros hash'. unfold vc_haveConsensus. assert (Hm : m !! toView = Some reqs).
    { unfold reqs, requests in *. destruct (m !! toView); [done|]. change (default ∅ None) with (∅ : Requests) in *.
      rewrite size_on_hash in Hq. unfold count_on in Hq. rewrite (by_key_perm ∅), map_to_list_empty in Hq. simpl in Hq. lia. }
    rewrite Hm, !Z.geb_leb, Z.gtb_ltb, (proj2 (Z.leb_le _ (Z.of_nat (size reqs)))), (proj2 (Z.ltb_lt _ _)), andb_true_r by lia.
    case_bool_decide as Hc; [subst; by apply Z.leb_le | apply Z.leb_gt, Hother; done].
Qed.

Lemma view_change_recognised_witness :
  let req k := mkViewChange 11 77 1 k 11 in
  let m := (recvViewChange (mkViewChange 12 78 1 [4] 12)
             (recvViewChange (req [3]) (recvViewChange (req [2]) (recvViewChange (req [1]) ∅).2).2).2).2 in
  (shouldTriggerViewChange 1 3 m).1 = (true, 11, 77)
  /\ forall hash', vc_haveConsensus 1 0 hash' 3 m = bool_decide (hash' = 77).
Proof.
  intros req m. apply (view_change_recognised 1 0 3 m 77 11); try by vm_compute.
  intros k v Hk. assert (Hall : map_Forall (fun _ v => vc_prevHash v = 77 -> vc_prevSeq v = 11) (requests m 1)).
  { apply map_Forall_to_list. vm_compute. repeat constructor; done. }
  exact (Hall k v Hk).
Defined.
