(* ===== verification/Pop.v ===== *)
(** * Proof-of-peers consensus (PopConsensus)

    A leader chosen by ledger number and view proposes a transaction set, the other
    validators vote for it, and when a quorum of votes is in the ledger is accepted;
    when it is not in time the validators ask for the next view.  The definitions are
    those of [src/src/peersafe/consensus/pop/impl/PopConsensus.cpp] and of the parts of
    [PopAdaptor.cpp] that decide.

    What the adaptor answers during a call is the record [PopEnv], an argument of every
    operation, in which a clock has one value; what the object does to the outside is
    the list [pc_effects].  The mode and the flag the adaptor keeps are part of the
    state.  A read through an empty [optional] or null pointer, which the code does
    not exclude, leaves the state as it is. *)

From S2P Require Import Prelude HsTypes ConsensusTypes HsVerifier LedgerTiming RpcaTypes ViewChange.
From coqutil Require Import Datatypes.RecordSetters.
Import DoubleBraceUpdate.

#[local] Open Scope Z_scope.

(** ** Parameters: seconds for [initTIME], milliseconds otherwise *)

Record PopConsensusParms := mkPopParms {
  pm_minBLOCK_TIME : Z;
  pm_maxBLOCK_TIME : Z;
  pm_maxTXS_IN_LEDGER : Z;
  pm_consensusTIMEOUT : Z;
  pm_initTIME : Z;
  pm_omitEMPTY : bool;
  pm_proposeTxSetDetail : bool
}.

Definition PopConsensusParms_default : PopConsensusParms := mkPopParms 1000 1000 10000 3000 90 true false.

Definition minTXS_IN_LEDGER_ADVANCE : Z := 5000.
Definition timeoutCOUNT_ROLLBACK : Z := 5.
Definition initANNOUNCE_INTERVAL : Z := 1.

(** The section of the configuration; a missing value keeps the default. *)
Record PopConfig := mkPopConfig {
  cf_min_block_time : option Z;
  cf_max_block_time : option Z;
  cf_max_txs_per_ledger : option Z;
  cf_time_out : option Z;
  cf_init_time : option Z;
  cf_omit_empty_block : option bool;
  cf_propose_txset_detail : option bool
}.

(** The constructor of the adaptor, with the capacity of the pool. *)
Definition pop_load_parms (capacity : Z) (config : option PopConfig) : PopConsensusParms :=
  let p := PopConsensusParms_default in
  match config with
  | None => p
  | Some c =>
      let minBlock := Z.max (pm_minBLOCK_TIME p) (default (pm_minBLOCK_TIME p) (cf_min_block_time c)) in
      let maxBlock := Z.max (pm_maxBLOCK_TIME p) (default (pm_maxBLOCK_TIME p) (cf_max_block_time c)) in
      let maxBlock := Z.max minBlock maxBlock in
      let timeout := Z.max (pm_consensusTIMEOUT p) (default (pm_consensusTIMEOUT p) (cf_time_out c)) in
      let timeout := if timeout <=? maxBlock then u32 (maxBlock * 2) else timeout in
      mkPopParms minBlock maxBlock
        (Z.min (default (pm_maxTXS_IN_LEDGER p) (cf_max_txs_per_ledger c)) capacity) timeout
        (Z.max (Z.quot timeout 1000 * 2) (default (pm_initTIME p) (cf_init_time c)))
        (default (pm_omitEMPTY p) (cf_omit_empty_block c))
        (default (pm_proposeTxSetDetail p) (cf_propose_txset_detail c))
  end.

(** ** State *)

(** A position with the transactions it may carry. *)
Record PopPosition := mkPopPosition {
  pq_pos : RCLCxPeerPos;
  pq_txSet : option TxSet
}.

Definition pq_prop (p : PopPosition) : STProposeSet := po_proposal (pq_pos p).
Definition pq_key (p : PopPosition) : Bytes := po_publicKey (pq_pos p).

Inductive PopEffect :=
| ModeChange (m : ConsensusMode)
| InitAnnounce (seq hash : Z) (to : option Bytes)
| Propose (p : STProposeSet) (details : option TxSet)
| ShareTxSet (s : TxSet)
| LaunchViewChange (v : STViewChange)
| LaunchAcquirValidationSet (seq : Z) (from : Bytes)
| AcquireLedger (hash : Z)
| TouchAcquring (hash : Z)
| SetBuildingLedger (seq : Z)
| NotifyClosing (prev : LedgerInfo) (haveCorrectLCL : bool)
| RemoveTx (id : Z)
| ClearAvoid (seq : option Z)
| FlushValidations
| ViewChanged (waiting : bool) (prev : LedgerInfo) (view : Z)
| OnAccept (r : ConsensusResult) (prev : LedgerInfo) (closeResolution : Z) (raw : ConsensusCloseTimes)
    (m : ConsensusMode).

Record Pop := mkPop {
  pc_phase : ConsensusPhase;
  pc_mode : ConsensusMode;
  pc_prevLedgerID : Z;
  pc_prevLedgerSeq : Z;
  pc_previousLedger : LedgerInfo;
  pc_now : Z;
  pc_closeTime : Z;
  pc_openTime : Z;
  pc_proposalTime : Z;
  pc_openTimeMilli : Z;
  pc_consensusTime : Z;
  pc_lastTxSetSize : Z;
  pc_startTime : option Z;
  pc_initAnnounceTime : Z;
  pc_closeResolution : Z;
  pc_acquired : gmap Z TxSet;
  pc_txSetVoted : gmap Z (gset Bytes);
  pc_txSetCached : gmap Z (gset Bytes);
  pc_proposalCache : gmap Z (gmap Bytes PopPosition);
  pc_result : option ConsensusResult;
  pc_setID : option Z;
  pc_rawCloseTimes : ConsensusCloseTimes;
  pc_transactions : list Z;
  pc_waitingConsensusReach : bool;
  pc_extraTimeOut : bool;
  pc_timeOutCount : Z;
  pc_leaderFailed : bool;
  pc_view : Z;
  pc_toView : Z;
  pc_viewChangeManager : ViewChangeManager;
  pc_initAcquireLedgerID : Z;
  pc_adaptorMode : ConsensusMode;
  pc_validating : bool;
  pc_effects : list PopEffect
}.

(** A new object; the ledger it has no value for yet is an argument. *)
Definition Pop_new (prevLedgerID : Z) (previousLedger : LedgerInfo) : Pop :=
  mkPop ph_accepted observing prevLedgerID 0 previousLedger 0 0 0 0 0 0 0 None 0 ledgerDefaultTimeResolution
    ∅ ∅ ∅ ∅ None None (mkCloseTimes ∅ 0) [] true false 0 false 0 0 ∅ 0 observing false [].

(** ** What the adaptor answers *)

Record PopEnv := mkPopEnv {
  pe_clock : Z;
  pe_utcTime : Z;
  pe_closeTime : Z;
  pe_parms : PopConsensusParms;
  pe_validators : list Bytes;
  pe_quorum : Z;
  pe_acquireLedger : Z -> option LedgerInfo;
  pe_isCompatible : LedgerInfo -> bool;
  pe_getLedgerByHash : Z -> option LedgerInfo;
  pe_getPrevLedger : Z -> LedgerInfo -> ConsensusMode -> Z;
  pe_proposersValidated : Z -> Z;
  pe_proposersFinished : LedgerInfo -> Z -> Z;
  pe_acquireTxSet : Z -> option TxSet;
  pe_validatedLedger : option LedgerInfo;
  pe_validLedgerIndex : Z;
  pe_isPoolAvailable : bool;
  pe_queuedTxCount : Z;
  pe_topTransactions : Z -> Z -> list Z;
  (** account, sequence and bytes of a transaction *)
  pe_fetch : Z -> option (Z * Z * Bytes);
  pe_accountSeq : LedgerInfo -> Z -> option Z;
  pe_standalone : bool;
  pe_trustedForLedger : Z -> Z;
  (** fee and amendment votes added to the set of the ledger after a flag ledger *)
  pe_doVoting : LedgerInfo -> TxSet -> TxSet;
  (** [preStartRound]: whether the node validates, and whether it is in sync *)
  pe_preStartRound : LedgerInfo -> bool * bool
}.

Definition emit (e : PopEffect) (s : Pop) : Pop := s {{ pc_effects := pc_effects s ++ [e] }}.

Definition set_result (r : ConsensusResult) (s : Pop) : Pop := s {{ pc_result := Some r }}.

(** [MonitoredMode::set], which tells the adaptor. *)
Definition mode_set (m : ConsensusMode) (s : Pop) : Pop :=
  let s := if decide (pc_mode s = m) then s else s {{ pc_adaptorMode := m }} in
  emit (ModeChange m) (s {{ pc_mode := m }}).

Definition timeSinceOpen (env : PopEnv) (s : Pop) : Z := u64 (pe_utcTime env - pc_openTimeMilli s).
Definition timeSinceConsensus (env : PopEnv) (s : Pop) : Z := u64 (pe_utcTime env - pc_consensusTime s).

(** The number of the ledger worked on. *)
Definition curSeq (s : Pop) : Z := u32 (li_seq (pc_previousLedger s) + 1).

Definition isLeader (env : PopEnv) (key : Bytes) (seq view : Z) : bool :=
  bool_decide (key = getLeaderPubKey (pe_validators env) (u64 (seq + view))).

Definition waitingForInit (env : PopEnv) (s : Pop) : bool :=
  match pc_startTime s with
  | None => true
  | Some t => u32 (pc_now s - t) <? pm_initTIME (pe_parms env)
  end.

Section Pop.

Context {TS : TxSetOps} (nodeID : Z) (valPublic : Bytes) (calcNodeID : Bytes -> Z).

(** ** Votes *)

Definition haveConsensus (env : PopEnv) (s : Pop) : bool * Pop :=
  match pc_result s, pc_setID s with
  | Some r, Some id =>
      let votes := default ∅ (pc_txSetVoted s !! id) in
      let s := s {{ pc_txSetVoted := <[id := votes]> (pc_txSetVoted s) }} in
      let agreed := Z.of_nat (size votes) in
      let minVal := i32 (pe_quorum env) in
      let currentFinished :=
        if li_seq (pc_previousLedger s) =? 1 then 0
        else pe_proposersFinished env (pc_previousLedger s) (pc_prevLedgerID s) in
      if agreed >=? minVal then (true, set_result (r {{ rs_state := cs_Yes }}) s)
      else if currentFinished >=? u64 minVal then (true, set_result (r {{ rs_state := cs_MovedOn }}) s)
      else (false, set_result (r {{ rs_state := cs_No }}) s)
  | _, _ => (false, s)
  end.

Definition checkVoting (env : PopEnv) (s : Pop) : Pop :=
  if decide (pc_phase s = ph_accepted) then s
  else
    match pc_result s with
    | None => s
    | Some r =>
        let s := set_result (r {{ rs_roundTime := tick (rs_roundTime r) (pe_clock env) }}) s in
        let '(yes, s) := haveConsensus env s in
        if negb yes then s
        else
          match pc_result s with
          | None => s
          | Some r =>
              let s := s {{ pc_phase := ph_accepted }} in
              emit (OnAccept r (pc_previousLedger s) (pc_closeResolution s) (pc_rawCloseTimes s) (pc_mode s)) s
          end
    end.

Definition vote_for (id : Z) (key : Bytes) (m : gmap Z (gset Bytes)) : gmap Z (gset Bytes) :=
  <[id := {[key]} ∪ default ∅ (m !! id)]> m.

(** Our position on the set the leader proposed. *)
Definition follow_leader (id now : Z) (txSet : TxSet) (s : Pop) : Pop :=
  let position :=
    mkProposeSet seqJoin id (pc_prevLedgerID s) (pc_closeTime s) now nodeID valPublic (curSeq s) (pc_view s) in
  let s := if decide (pc_phase s = ph_open) then s {{ pc_phase := ph_establish }} else s in
  let s :=
    if pc_validating s
    then emit (Propose position None) (s {{ pc_txSetVoted := vote_for id valPublic (pc_txSetVoted s) }})
    else s in
  set_result ((Result_new txSet position) {{ rs_roundTime := timer_reset (pc_proposalTime s) }}) s.

Definition gotTxSet (env : PopEnv) (now : Z) (txSet : TxSet) (s : Pop) : Pop :=
  if decide (pc_phase s = ph_accepted) then s
  else
    let id := set_id txSet in
    let s := s {{ pc_now := now }} in
    let s :=
      match pc_acquired s !! id with
      | Some _ => s
      | None => s {{ pc_acquired := <[id := txSet]> (pc_acquired s) }}
      end in
    if decide (pc_setID s = Some id) then
      let s :=
        match pc_result s with
        | None => if isLeader env valPublic (curSeq s) (pc_view s) then s else follow_leader id now txSet s
        | Some _ => s
        end in
      match pc_result s with
      | Some _ => checkVoting env s
      | None => s
      end
    else s.

(** The loop over the cached sets works on copies of its entries. *)
Definition onDeleteUntrusted (env : PopEnv) (nowUntrusted : gset Z) (s : Pop) : Pop :=
  let s :=
    match pc_setID s with
    | Some id =>
        match pc_txSetVoted s !! id with
        | Some votes =>
            s {{ pc_txSetVoted := <[id := filter (fun k => calcNodeID k ∉ nowUntrusted) votes]> (pc_txSetVoted s) }}
        | None => s
        end
    | None => s
    end in
  match pc_result s with
  | Some _ => checkVoting env s
  | None => s
  end.

(** ** Proposals *)

Definition checkSaveNextProposal (env : PopEnv) (pos : PopPosition) (s : Pop) : Pop :=
  let prop := pq_prop pos in
  let seq := pp_curLedgerSeq prop in
  if (seq >? curSeq s) || ((seq =? curSeq s) && (pp_view prop >? pc_view s)) then
    match pc_proposalCache s !! seq with
    | Some cache =>
        let cache :=
          match cache !! pq_key pos with
          | Some old => if pp_view (pq_prop old) <? pp_view prop then <[pq_key pos := pos]> cache else cache
          | None => <[pq_key pos := pos]> cache
          end in
        let s := s {{ pc_proposalCache := <[seq := cache]> (pc_proposalCache s) }} in
        let count := Z.of_nat (size (filter (fun e => pp_view (pq_prop e.2) = pc_view s) cache)) in
        if count >=? pe_quorum env then emit (AcquireLedger (pp_previousLedger prop)) s else s
    | None => s {{ pc_proposalCache := <[seq := {[pq_key pos := pos]}]> (pc_proposalCache s) }}
    end
  else s.

(** The leader's proposal: [None] when it is the empty one that is left out. *)
Definition leader_proposal (env : PopEnv) (key : Bytes) (prop : STProposeSet) (s : Pop) : option Pop :=
  let id := pp_position prop in
  if pm_omitEMPTY (pe_parms env) && (id =? 0) then None
  else
    let raw := pc_rawCloseTimes s in
    let s :=
      s {{ pc_txSetVoted := <[id := {[key]} ∪ default ∅ (pc_txSetCached s !! id)]> (pc_txSetVoted s);
           pc_txSetCached := delete id (pc_txSetCached s);
           pc_setID := Some id; pc_rawCloseTimes := mkCloseTimes (ct_peers raw) (pc_now s);
           pc_closeTime := pp_closeTime prop; pc_proposalTime := pe_clock env; pc_extraTimeOut := true }} in
    Some (emit (NotifyClosing (pc_previousLedger s) false)
            (emit (SetBuildingLedger (u32 (pc_prevLedgerSeq s + 1))) s)).

(** What a vote does to the votes counted and those cached. *)
Definition record_vote (env : PopEnv) (pos : PopPosition) (s : Pop) : option Pop :=
  let prop := pq_prop pos in
  let key := pq_key pos in
  let id := pp_position prop in
  match pc_txSetVoted s !! id with
  | Some votes => Some (s {{ pc_txSetVoted := <[id := {[key]} ∪ votes]> (pc_txSetVoted s) }})
  | None =>
      if isLeader env key (curSeq s) (pc_view s) then leader_proposal env key prop s
      else Some (s {{ pc_txSetCached := vote_for id key (pc_txSetCached s) }})
  end.

Definition count_close_time (prop : STProposeSet) (s : Pop) : Pop :=
  if isInitial prop then
    let raw := pc_rawCloseTimes s in
    let n := default 0 (ct_peers raw !! pp_closeTime prop) in
    s {{ pc_rawCloseTimes := mkCloseTimes (<[pp_closeTime prop := n + 1]> (ct_peers raw)) (ct_self raw) }}
  else s.

(** The set of a position, carried by it or at hand; otherwise the votes are checked. *)
Definition use_tx_set (env : PopEnv) (pos : PopPosition) (s : Pop) : Pop :=
  match pq_txSet pos with
  | Some set => gotTxSet env (pc_now s) set s
  | None =>
      match pc_result s with
      | Some _ => checkVoting env s
      | None =>
          match pe_acquireTxSet env (pp_position (pq_prop pos)) with
          | Some set => gotTxSet env (pc_now s) set s
          | None => s
          end
      end
  end.

Definition peerProposalInternal (env : PopEnv) (now : Z) (pos : PopPosition) (s : Pop) : bool * Pop :=
  let prop := pq_prop pos in
  if waitingForInit env s then (false, s)
  else if decide (pc_phase s = ph_accepted) then (false, checkSaveNextProposal env pos s)
  else if pp_curLedgerSeq prop <? curSeq s then (false, s)
  else if pp_curLedgerSeq prop >? curSeq s then (false, checkSaveNextProposal env pos s)
  else if negb (pp_previousLedger prop =? pc_prevLedgerID s) then (false, checkSaveNextProposal env pos s)
  else if negb (pp_view prop =? pc_view s) then (false, checkSaveNextProposal env pos s)
  else
    let s := s {{ pc_now := now }} in
    match record_vote env pos s with
    | None => (true, s {{ pc_consensusTime := 0; pc_leaderFailed := true }})
    | Some s => (true, use_tx_set env pos (count_close_time prop s))
    end.

Definition peerProposal (env : PopEnv) (isTrusted : bool) (m : option PopPosition) (s : Pop) : bool * Pop :=
  if isTrusted then
    match m with
    | Some pos => peerProposalInternal env (pe_closeTime env) pos s
    | None => (false, s)
    end
  else (false, s).

Definition checkCache (env : PopEnv) (s : Pop) : Pop :=
  let seq := curSeq s in
  match pc_proposalCache s !! seq with
  | None => s
  | Some cache =>
      let s := fold_left (fun s e => (peerProposalInternal env (pc_now s) e.2 s).2) (by_key cache) s in
      s {{ pc_proposalCache := filter (fun e => seq <= e.1) (pc_proposalCache s) }}
  end.

(** ** Rounds *)

Definition startRoundInternal (env : PopEnv) (now prevLedgerID : Z) (prevLedger : LedgerInfo) (mode : ConsensusMode)
    (s : Pop) : Pop :=
  let s := mode_set mode (s {{ pc_phase := ph_open }}) in
  let s :=
    s {{ pc_now := now; pc_closeTime := now; pc_openTime := now; pc_openTimeMilli := pe_utcTime env;
         pc_consensusTime := pe_utcTime env; pc_prevLedgerID := prevLedgerID; pc_prevLedgerSeq := li_seq prevLedger;
         pc_previousLedger := prevLedger; pc_result := None; pc_acquired := ∅;
         pc_rawCloseTimes := mkCloseTimes ∅ 0; pc_txSetCached := ∅; pc_txSetVoted := ∅; pc_transactions := [];
         pc_setID := None; pc_lastTxSetSize := 0; pc_leaderFailed := false; pc_extraTimeOut := false;
         pc_timeOutCount := 0; pc_view := 0; pc_toView := 0;
         pc_startTime := Some (default now (pc_startTime s));
         pc_closeResolution :=
           getNextLedgerTimeResolution (li_closeTimeResolution prevLedger) (closeAgree prevLedger)
             (u32 (li_seq prevLedger + 1)) }} in
  let s := emit (SetBuildingLedger 0) s in
  if decide (mode = proposing)
  then checkCache env (s {{ pc_viewChangeManager := onNewRound prevLedger (pc_viewChangeManager s) }})
  else s.

Definition startRound (env : PopEnv) (now prevLedgerID : Z) (prevLedger : LedgerInfo) (isProposing : bool) (s : Pop) : Pop :=
  let startMode := if isProposing then proposing else observing in
  if li_hash prevLedger =? prevLedgerID then startRoundInternal env now prevLedgerID prevLedger startMode s
  else
    let s := emit (AcquireLedger prevLedgerID) s in
    match pe_acquireLedger env prevLedgerID with
    | Some newLedger => startRoundInternal env now prevLedgerID newLedger startMode s
    | None => startRoundInternal env now prevLedgerID prevLedger wrongLedger s
    end.

Definition leaveConsensus (s : Pop) : Pop :=
  if decide (pc_mode s = proposing) then
    let s :=
      match pc_result s with
      | Some r =>
          if isBowOut (rs_position r) then s
          else
            let position := bowOut (rs_position r) (pc_now s) in
            emit (Propose position None) (set_result (r {{ rs_position := position }}) s)
      | None => s
      end in
    mode_set observing s
  else s.

(** The ledgers left behind, back to the one with the transactions of the new one: the
    pool no longer avoids their transactions. *)
Fixpoint clear_avoids (fuel : nat) (env : PopEnv) (seq : Z) (ledger : option LedgerInfo) (newLedger : LedgerInfo) (s : Pop) : Pop :=
  match fuel, ledger with
  | S fuel, Some l =>
      if (li_seq newLedger <=? seq) && negb (li_txHash l =? li_txHash newLedger) then
        clear_avoids fuel env (u32 (seq - 1)) (pe_getLedgerByHash env (li_parentHash l)) newLedger (emit (ClearAvoid (Some seq)) s)
      else s
  | _, _ => s
  end.

Definition handleWrongLedger (env : PopEnv) (lgrId : Z) (s : Pop) : Pop :=
  let s := emit (AcquireLedger lgrId) s in
  match pe_acquireLedger env lgrId with
  | None => s
  | Some newLedger =>
      if negb (pe_isCompatible env newLedger) then s
      else
        let s := leaveConsensus s in
        let s :=
          if pc_prevLedgerID s =? lgrId then s
          else s {{ pc_prevLedgerID := lgrId; pc_rawCloseTimes := mkCloseTimes ∅ (ct_self (pc_rawCloseTimes s)) }} in
        let old := pc_previousLedger s in
        if li_hash old =? pc_prevLedgerID s then s
        else
          let s := clear_avoids (Z.to_nat (li_seq old + 1)) env (li_seq old) (Some old) newLedger s in
          startRoundInternal env (pc_now s) lgrId newLedger switchedLedger s
  end.

Definition checkLedger (env : PopEnv) (s : Pop) : Pop :=
  let netLgr := pe_getPrevLedger env (pc_prevLedgerID s) (pc_previousLedger s) (pc_mode s) in
  if negb (netLgr =? pc_prevLedgerID s) then
    if pe_proposersValidated env netLgr <? pe_quorum env then s else handleWrongLedger env netLgr s
  else if negb (li_hash (pc_previousLedger s) =? pc_prevLedgerID s) then handleWrongLedger env netLgr s
  else s.

(** ** View changes *)

(** [PopAdaptor::onViewChanged], which may change the adaptor's mode. *)
Definition adaptor_onViewChanged (env : PopEnv) (waiting : bool) (s : Pop) : Pop :=
  let s := emit (ViewChanged waiting (pc_previousLedger s) (pc_view s)) s in
  let '(validating, synced) := pe_preStartRound env (pc_previousLedger s) in
  s {{ pc_validating := validating; pc_adaptorMode := if validating && synced then proposing else observing }}.

(** The state of the round starts over. *)
Definition reset_view (env : PopEnv) (toView : Z) (s : Pop) : Pop :=
  s {{ pc_view := toView; pc_consensusTime := pe_utcTime env; pc_phase := ph_open; pc_result := None;
       pc_acquired := ∅; pc_rawCloseTimes := mkCloseTimes ∅ 0; pc_txSetCached := ∅; pc_txSetVoted := ∅;
       pc_transactions := []; pc_setID := None; pc_lastTxSetSize := 0; pc_leaderFailed := false;
       pc_extraTimeOut := false; pc_timeOutCount := 0 }}.

(** A requester with a higher validated ledger is asked for its validations. *)
Definition catch_up (env : PopEnv) (s : Pop) : Pop :=
  let ret := FindHighValSeqViewChangeByView (pc_view s) (pe_validLedgerIndex env) (pc_viewChangeManager s) in
  if ret.1 >? pe_validLedgerIndex env then emit (LaunchAcquirValidationSet ret.1 ret.2) s else s.

Definition drop_requests (s : Pop) : Pop :=
  s {{ pc_viewChangeManager := vc_onViewChanged (pc_view s) (pc_prevLedgerSeq s) (pc_viewChangeManager s) }}.

Definition announce_view (env : PopEnv) (s : Pop) : Pop :=
  if pc_waitingConsensusReach s then
    if decide (pc_mode s = wrongLedger) then s
    else (adaptor_onViewChanged env true s) {{ pc_waitingConsensusReach := false }}
  else
    let s := adaptor_onViewChanged env false s in
    mode_set (pc_adaptorMode s) s.

Definition onViewChange (env : PopEnv) (toView : Z) (s : Pop) : Pop :=
  let s := announce_view env (drop_requests (catch_up env (reset_view env toView s))) in
  if decide (pc_mode s = proposing) then checkCache env s else s.

Definition checkChangeView (env : PopEnv) (toView : Z) (s : Pop) : Pop :=
  if decide (pc_phase s = ph_accepted) then s
  else if pc_toView s =? toView then
    if vc_haveConsensus toView (pc_view s) (pc_prevLedgerID s) (pe_quorum env) (pc_viewChangeManager s)
    then onViewChange env toView s else s
  else
    let '(ok, seq, hash, m) := shouldTriggerViewChange toView (pe_quorum env) (pc_viewChangeManager s) in
    let s := s {{ pc_viewChangeManager := m }} in
    if negb ok then s
    else if li_seq (pc_previousLedger s) <? seq then handleWrongLedger env hash s
    else if li_seq (pc_previousLedger s) =? seq then
      if li_hash (pc_previousLedger s) =? hash then onViewChange env toView s else handleWrongLedger env hash s
    else s.

Definition peerViewChangeInternal (env : PopEnv) (v : STViewChange) (s : Pop) : bool * Pop :=
  let s := s {{ pc_viewChangeManager := (recvViewChange v (pc_viewChangeManager s)).2 }} in
  if waitingForInit env s then (false, s)
  else (true, emit (TouchAcquring (vc_prevHash v)) (checkChangeView env (vc_toView v) s)).

Definition peerViewChange (env : PopEnv) (isTrusted : bool) (m : option STViewChange) (s : Pop) : bool * Pop :=
  if isTrusted then
    match m with
    | Some v => peerViewChangeInternal env v s
    | None => (false, s)
    end
  else (false, s).

Definition launchViewChange (env : PopEnv) (s : Pop) : Pop :=
  let s := s {{ pc_toView := u64 (pc_view s + 1); pc_consensusTime := pe_utcTime env }} in
  let v :=
    mkViewChange (li_seq (pc_previousLedger s)) (pc_prevLedgerID s) (pc_toView s) valPublic (pe_validLedgerIndex env) in
  (peerViewChangeInternal env v (emit (LaunchViewChange v) s)).2.

(** The time out is compared as a [double]. *)
Definition checkTimeout (env : PopEnv) (s : Pop) : Pop :=
  if decide (pc_phase s = ph_accepted) then s
  else
    let timeOut := pm_consensusTIMEOUT (pe_parms env) in
    if 2 * timeSinceConsensus env s <? (if pc_extraTimeOut s then 3 else 2) * timeOut then s
    else
      let s := if pc_validating s then launchViewChange env s else s in
      s {{ pc_timeOutCount := u32 (pc_timeOutCount s + 1) }}.

(** ** Collecting transactions *)

(** Transactions gathered, the smallest sequence number of each account, and the account
    sequences in the previous ledger, 0 for those looked up without an entry. *)
Record Collected := mkCollected {
  co_set : TxSet;
  co_txSeq : gmap Z Z;
  co_sleSeq : gmap Z Z;
  co_removed : list Z
}.

Definition collect_checked (txID act seq : Z) (data : Bytes) (c : Collected) : Collected :=
  let a_seq := default 0 (co_sleSeq c !! act) in
  let c := c {{ co_sleSeq := <[act := a_seq]> (co_sleSeq c) }} in
  if a_seq >? seq then c {{ co_removed := co_removed c ++ [txID] }}
  else c {{ co_set := tx_insert (co_set c) (mkTx txID data) }}.

Definition collect_tx (env : PopEnv) (prevLedger : LedgerInfo) (c : Collected) (txID : Z) : Collected :=
  match pe_fetch env txID with
  | None => c {{ co_removed := co_removed c ++ [txID] }}
  | Some (act, seq, data) =>
      match co_txSeq c !! act with
      | None =>
          let c := c {{ co_txSeq := <[act := seq]> (co_txSeq c) }} in
          match pe_accountSeq env prevLedger act with
          | None => c
          | Some a_seq => collect_checked txID act seq data (c {{ co_sleSeq := <[act := a_seq]> (co_sleSeq c) }})
          end
      | Some least =>
          let c := if seq <? least then c {{ co_txSeq := <[act := seq]> (co_txSeq c) }} else c in
          collect_checked txID act seq data c
      end
  end.

(** Whether the next transaction of some account is among them. *)
Definition some_sequence_ok (c : Collected) : bool :=
  existsb (fun e => default 0 (co_sleSeq c !! e.1) =? e.2) (map_to_list (co_txSeq c)).

Definition collect_txs (env : PopEnv) (prevLedger : LedgerInfo) (transactions : list Z) : TxSet * list Z :=
  let c := fold_left (collect_tx env prevLedger) transactions (mkCollected ∅ ∅ ∅ []) in
  (if negb (bool_decide (co_txSeq c = ∅)) && pm_omitEMPTY (pe_parms env) && negb (some_sequence_ok c)
   then ∅ else co_set c, co_removed c).

Definition onCollectFinish (env : PopEnv) (ledger : LedgerInfo) (transactions : list Z) (closeTime view : Z)
    (mode : ConsensusMode) : ConsensusResult * option TxSet * list PopEffect :=
  let wrongLCL := bool_decide (mode = wrongLedger) in
  let '(set, removed) := collect_txs env ledger transactions in
  let set :=
    if (pe_standalone env || bool_decide (mode = proposing)) && (li_seq ledger mod 256 =? 0)
       && (pe_trustedForLedger env (li_parentHash ledger) >=? pe_quorum env)
    then pe_doVoting env ledger set else set in
  let position :=
    mkProposeSet seqJoin (set_id set) (li_hash ledger) closeTime (pe_closeTime env) nodeID valPublic
      (u32 (li_seq ledger + 1)) view in
  (Result_new set position, if pm_proposeTxSetDetail (pe_parms env) then Some set else None,
   [NotifyClosing ledger (negb wrongLCL); SetBuildingLedger (u32 (li_seq ledger + 1))] ++ map RemoveTx removed).

Definition timeSinceLastClose (s : Pop) : Z :=
  let prev := pc_previousLedger s in
  let previousCloseCorrect :=
    negb (bool_decide (pc_mode s = wrongLedger)) && closeAgree prev && negb (li_closeTime prev =? 0) in
  let lastCloseTime := if previousCloseCorrect then li_closeTime prev else pc_openTime s in
  if pc_now s >=? lastCloseTime then (pc_now s - lastCloseTime) * 1000
  else - ((lastCloseTime - pc_now s) * 1000).

Definition finalCondReached (env : PopEnv) (sinceOpen sinceLastClose : Z) (s : Pop) : bool * Pop :=
  let p := pe_parms env in
  let sinceLastClose := if sinceLastClose <? 0 then sinceOpen else sinceLastClose in
  let n := pe_queuedTxCount env in
  if sinceLastClose >=? pm_maxBLOCK_TIME p then (true, s)
  else if (pm_maxTXS_IN_LEDGER p >=? minTXS_IN_LEDGER_ADVANCE) && (n >=? pm_maxTXS_IN_LEDGER p)
       && (sinceLastClose >=? pm_minBLOCK_TIME p / 2) then (true, s)
  else if (n >? 0) && (pc_lastTxSetSize s >? 0) && (n =? pc_lastTxSetSize s)
       && (sinceLastClose >=? pm_minBLOCK_TIME p) then (true, s)
  else (false, s {{ pc_lastTxSetSize := n }}).

Definition take_transactions (env : PopEnv) (s : Pop) : Pop :=
  s {{ pc_transactions := pc_transactions s ++ pe_topTransactions env (pm_maxTXS_IN_LEDGER (pe_parms env)) (curSeq s);
       pc_rawCloseTimes := mkCloseTimes (ct_peers (pc_rawCloseTimes s)) (pc_now s) }}.

(** The leader's own result. *)
Definition adopt (env : PopEnv) (r : ConsensusResult) (s : Pop) : Pop :=
  let id := set_id (rs_txns r) in
  let s := set_result (r {{ rs_roundTime := timer_reset (pe_clock env) }}) s in
  let s := s {{ pc_setID := Some id; pc_extraTimeOut := true }} in
  match pc_acquired s !! id with
  | Some _ => s
  | None => emit (ShareTxSet (rs_txns r)) (s {{ pc_acquired := <[id := rs_txns r]> (pc_acquired s) }})
  end.

(** The leader's proposal; an empty one that is left out makes it fail. *)
Definition propose_set (env : PopEnv) (s : Pop) : Pop :=
  let s := take_transactions env s in
  let '(r, details, effects) :=
    onCollectFinish env (pc_previousLedger s) (pc_transactions s) (pc_now s) (pc_view s) (pc_mode s) in
  let s := emit (Propose (rs_position r) details) (adopt env r (fold_left (fun s e => emit e s) effects s)) in
  let id := set_id (rs_txns r) in
  if pm_omitEMPTY (pe_parms env) && (id =? 0) then s {{ pc_consensusTime := 0; pc_leaderFailed := true }}
  else
    checkVoting env (s {{ pc_txSetVoted := <[id := {[valPublic]}]> (pc_txSetVoted s); pc_phase := ph_establish }}).

Definition phaseCollecting (env : PopEnv) (s : Pop) : Pop :=
  if pc_leaderFailed s then s
  else
    let sinceConsensus := i64 (timeSinceConsensus env s) in
    let '(sinceOpen, sinceClose) :=
      if timeSinceOpen env s =? timeSinceConsensus env s
      then (i64 (timeSinceOpen env s), timeSinceLastClose s) else (sinceConsensus, sinceConsensus) in
    if isLeader env valPublic (curSeq s) (pc_view s) && bool_decide (pc_result s = None) then
      if negb (pe_isPoolAvailable env) then s
      else
        let '(reached, s) := finalCondReached env sinceOpen sinceClose s in
        if reached then propose_set env s else s
    else s.

(** ** The timer and announcements at start *)

Definition initAnnounce (env : PopEnv) (s : Pop) : Pop :=
  if u32 (pc_now s - pc_initAnnounceTime s) <? initANNOUNCE_INTERVAL then s
  else
    emit (InitAnnounce (li_seq (pc_previousLedger s)) (li_hash (pc_previousLedger s)) None)
      (s {{ pc_initAnnounceTime := pc_now s }}).

Definition initAnnounceToPeer (env : PopEnv) (key : Bytes) (s : Pop) : Pop :=
  match pe_validatedLedger env with
  | Some l => emit (InitAnnounce (pe_validLedgerIndex env) (li_hash l) (Some key)) s
  | None => s
  end.

(** The ledger to go back to after too many timeouts. *)
Definition rollback_ledger (env : PopEnv) (s : Pop) : option LedgerInfo :=
  if negb (pc_initAcquireLedgerID s =? 0) && (pc_initAcquireLedgerID s =? pc_prevLedgerID s)
     && match pe_validatedLedger env with Some l => pc_prevLedgerSeq s >? li_seq l | None => true end
  then Some (pc_previousLedger s) else pe_validatedLedger env.

Definition rollback (env : PopEnv) (s : Pop) : Pop :=
  match rollback_ledger env s with
  | None => s
  | Some old =>
      let ret := FindHighValSeqViewChange (pc_toView s) (pe_validLedgerIndex env) (pc_viewChangeManager s) in
      let s := if ret.1 >? li_seq old then emit (LaunchAcquirValidationSet ret.1 ret.2) s else s in
      let s := startRoundInternal env (pc_now s) (li_hash old) old switchedLedger s in
      emit (ClearAvoid None) (emit FlushValidations (s {{ pc_viewChangeManager := clearCache (pc_viewChangeManager s) }}))
  end.

Definition timerEntry (env : PopEnv) (now : Z) (s : Pop) : Pop :=
  if decide (pc_phase s = ph_accepted) then s
  else
    let s := s {{ pc_now := now }} in
    if waitingForInit env s then
      let s := s {{ pc_consensusTime := pe_utcTime env }} in
      if pc_validating s && negb (bool_decide (pc_mode s = wrongLedger)) then initAnnounce env s else s
    else
      let s := checkLedger env s in
      let s := if pc_timeOutCount s >? timeoutCOUNT_ROLLBACK then rollback env s else s in
      if decide (pc_mode s = wrongLedger) then s
      else if negb (pc_validating s) then s
      else
        let s := if decide (pc_phase s = ph_open) then phaseCollecting env s else s in
        checkTimeout env s.

Definition peerInitAnnounceInternal (env : PopEnv) (prevSeq prevHash : Z) (key : Bytes) (s : Pop) : bool * Pop :=
  if negb (waitingForInit env s) then (false, initAnnounceToPeer env key s)
  else if prevSeq >? pc_prevLedgerSeq s then
    (true,
     if decide (pc_mode s = wrongLedger) then
       if prevHash =? pc_prevLedgerID s then emit (TouchAcquring (pc_prevLedgerID s)) s else s
     else s {{ pc_prevLedgerID := prevHash; pc_prevLedgerSeq := prevSeq; pc_initAcquireLedgerID := prevHash }})
  else (false, s).

Definition peerInitAnnounce (env : PopEnv) (isTrusted : bool) (m : option (Z * Z * Bytes)) (s : Pop) : bool * Pop :=
  if isTrusted then
    match m with
    | Some (prevSeq, prevHash, key) => peerInitAnnounceInternal env prevSeq prevHash key s
    | None => (false, s)
    end
  else (false, s).

(** ** Messages

    [None] is a message that does not parse.  Validations and requests for sets of them
    go to the adaptor, whose answer is an argument. *)
Inductive PopMessage :=
| MProposeSet (m : option PopPosition)
| MViewChange (m : option STViewChange)
| MInitAnnounce (m : option (Z * Z * Bytes))
| MValidation (answer : bool)
| MValidationSet (answer : bool)
| MOther.

Definition peerConsensusMessage (env : PopEnv) (isTrusted : bool) (m : PopMessage) (s : Pop) : bool * Pop :=
  match m with
  | MProposeSet p => peerProposal env isTrusted p s
  | MViewChange v => peerViewChange env isTrusted v s
  | MInitAnnounce a => peerInitAnnounce env isTrusted a s
  | MValidation answer => (negb (waitingForInit env s) && answer, s)
  | MValidationSet answer => (isTrusted && answer, s)
  | MOther => (false, s)
  end.

(** ** What happens to the object, with what the adaptor answers meanwhile *)

Inductive PopEvent :=
| StartRound (now prevLedgerID : Z) (prevLedger : LedgerInfo) (isProposing : bool)
| TimerEntry (now : Z)
| PeerMessage (isTrusted : bool) (m : PopMessage)
| GotTxSet (now : Z) (set : TxSet)
| DeleteUntrusted (nowUntrusted : gset Z)
| Validating (b : bool).

Definition pop_step (s : Pop) (x : PopEnv * PopEvent) : Pop :=
  let '(env, e) := x in
  match e with
  | StartRound now id l p => startRound env now id l p s
  | TimerEntry now => timerEntry env now s
  | PeerMessage trusted m => (peerConsensusMessage env trusted m s).2
  | GotTxSet now set => gotTxSet env now set s
  | DeleteUntrusted gone => onDeleteUntrusted env gone s
  | Validating b => s {{ pc_validating := b }}
  end.

Definition pop_run (events : list (PopEnv * PopEvent)) (s : Pop) : Pop := fold_left pop_step events s.

End Pop.
