(* ===== verification/PopProps.v ===== *)
(** * Proof-of-peers consensus: where votes, results and views come from

    An invariant of every state the object can reach: the votes it counts are those of
    proposals it received, its result follows a leader, and its view was asked for by a
    quorum.  [E], [P] and [V] are the environments, positions and requests seen. *)

From S2P Require Import Prelude HsTypes ConsensusTypes LedgerTiming RpcaTypes ViewChange ViewChangeProps Pop.
From coqutil Require Import Datatypes.RecordSetters.
Import DoubleBraceUpdate.

#[local] Open Scope Z_scope.

(** ** Counting votes *)

Definition outcome (env : PopEnv) (s : Pop) (votes : gset Bytes) : ConsensusState :=
  let minVal := i32 (pe_quorum env) in
  if Z.of_nat (size votes) >=? minVal then cs_Yes
  else if (if li_seq (pc_previousLedger s) =? 1 then 0 else pe_proposersFinished env (pc_previousLedger s) (pc_prevLedgerID s))
            >=? u64 minVal then cs_MovedOn
  else cs_No.

Definition judged (env : PopEnv) (s : Pop) (r : ConsensusResult) (votes : gset Bytes) : ConsensusResult :=
  r {{ rs_roundTime := tick (rs_roundTime r) (pe_clock env); rs_state := outcome env s votes }}.

Definition counted (env : PopEnv) (s : Pop) (r : ConsensusResult) (id : Z) (votes : gset Bytes) : Pop :=
  s {{ pc_result := Some (judged env s r votes); pc_txSetVoted := <[id := votes]> (pc_txSetVoted s) }}.

Lemma checkVoting_eq env s r id :
  pc_phase s <> ph_accepted -> pc_result s = Some r -> pc_setID s = Some id ->
  let votes := default ∅ (pc_txSetVoted s !! id) in
  checkVoting env s
  = if decide (outcome env s votes = cs_No) then counted env s r id votes
    else emit (OnAccept (judged env s r votes) (pc_previousLedger s) (pc_closeResolution s) (pc_rawCloseTimes s) (pc_mode s))
           ((counted env s r id votes) {{ pc_phase := ph_accepted }}).
Proof.
  intros Hp Hr Hid votes. unfold checkVoting. rewrite decide_False by done. rewrite Hr. cbv zeta.
  unfold haveConsensus. change (pc_result (set_result ?x s)) with (Some x). change (pc_setID (set_result ?x s)) with (pc_setID s).
  rewrite Hid. cbv zeta. change (pc_txSetVoted (set_result ?x s)) with (pc_txSetVoted s). fold votes.
  unfold counted, judged, outcome. cbv zeta. destruct (_ >=? i32 _); [done|].
  match goal with |- context [pe_proposersFinished env (pc_previousLedger ?x) (pc_prevLedgerID ?x)] =>
    change (pc_previousLedger x) with (pc_previousLedger s); change (pc_prevLedgerID x) with (pc_prevLedgerID s) end.
  by destruct (_ >=? u64 _).
Qed.

(** ** The walk over abandoned ledgers *)

(** One more than the number of the ledger to start from is enough fuel. *)
Lemma clear_avoids_fuel fuel env seq ledger newLedger s :
  0 < li_seq newLedger -> 0 <= seq < 2 ^ 32 -> (Z.to_nat (seq + 1) <= fuel)%nat ->
  clear_avoids fuel env seq ledger newLedger s = clear_avoids (Z.to_nat (seq + 1)) env seq ledger newLedger s.
Proof.
  intros H0. revert ledger s. remember (Z.to_nat (seq + 1)) as n eqn:Hn. revert fuel seq Hn. induction n as [|n IH]; intros fuel seq Hn ledger s Hs Hf; [lia|].
  destruct fuel as [|fuel]; [lia|]. destruct ledger as [l|]; [simpl|done]. case_match; [|done].
  destruct (decide (seq = 0)) as [->|Hne]; [exfalso|rewrite u32_small by lia; apply IH; lia].
  by rewrite (proj2 (Z.leb_gt (li_seq newLedger) 0)) in * by lia.
Qed.

(** ** The view is kept by votes and proposals *)

Section Views.

Context {TS : TxSetOps} (nodeID : Z) (valPublic : Bytes).

Lemma checkVoting_view env s : pc_view (checkVoting env s) = pc_view s.
Proof.
  destruct (decide (pc_phase s = ph_accepted)) as [Hp|Hp]; [unfold checkVoting; by rewrite decide_True|].
  destruct (pc_result s) as [r|] eqn:Hr; [|unfold checkVoting; by rewrite decide_False, Hr].
  destruct (pc_setID s) as [id|] eqn:Hid.
  - rewrite (checkVoting_eq env s r id Hp Hr Hid). by case_decide.
  - unfold checkVoting. rewrite decide_False, Hr by done. cbv zeta. unfold haveConsensus.
    change (pc_result (set_result ?x s)) with (Some x). change (pc_setID (set_result ?x s)) with (pc_setID s). by rewrite Hid.
Qed.

Lemma follow_leader_view id now set s : pc_view (follow_leader nodeID valPublic id now set s) = pc_view s.
Proof. unfold follow_leader. cbv zeta. case_decide; by destruct (pc_validating _). Qed.

Lemma gotTxSet_view env now set s : pc_view (gotTxSet nodeID valPublic env now set s) = pc_view s.
Proof.
  unfold gotTxSet. case_decide; [done|]. cbv zeta. set (s1 := match _ with Some _ => _ | None => _ end).
  assert (H1 : pc_view s1 = pc_view s) by (unfold s1; by case_match). case_decide; [|done].
  destruct (pc_result s1) as [r|] eqn:Hr; [by rewrite Hr, checkVoting_view|].
  destruct (isLeader _ _ _ _); [by rewrite Hr|]. case_match; by rewrite ?checkVoting_view, follow_leader_view.
Qed.

Lemma save_view env pos s : pc_view (checkSaveNextProposal env pos s) = pc_view s.
Proof.
  unfold checkSaveNextProposal. cbv zeta. destruct (_ || _); [|done]. destruct (pc_proposalCache s !! _); [|done]. by destruct (_ >=? _).
Qed.

Lemma use_tx_set_view env pos s : pc_view (use_tx_set nodeID valPublic env pos s) = pc_view s.
Proof. unfold use_tx_set. repeat case_match; by rewrite ?gotTxSet_view, ?checkVoting_view. Qed.

Lemma record_vote_view env pos s s' : record_vote env pos s = Some s' -> pc_view s' = pc_view s.
Proof.
  unfold record_vote, leader_proposal. cbv zeta. destruct (pc_txSetVoted s !! _); [by intros [= <-]|].
  destruct (isLeader _ _ _ _); [|by intros [= <-]]. destruct (_ && _); [done|]. by intros [= <-].
Qed.

Lemma proposal_view env now pos s : pc_view (peerProposalInternal nodeID valPublic env now pos s).2 = pc_view s.
Proof.
  unfold peerProposalInternal. cbv zeta. destruct (waitingForInit env s); [done|]. case_decide; [apply save_view|].
  destruct (_ <? _); [done|]. destruct (_ >? _); [apply save_view|]. destruct (negb _); [apply save_view|].
  destruct (negb _); [apply save_view|]. destruct (record_vote _ _ _) as [s1|] eqn:Hs1; [|done]. cbn [snd].
  rewrite use_tx_set_view. unfold count_close_time. destruct (isInitial _); exact (record_vote_view _ _ _ _ Hs1).
Qed.

Lemma checkCache_view env s : pc_view (checkCache nodeID valPublic env s) = pc_view s.
Proof.
  unfold checkCache. cbv zeta. destruct (pc_proposalCache s !! _) as [cache|]; [|done].
  match goal with |- pc_view (?x {{ pc_proposalCache := _ }}) = _ => change (pc_view x = pc_view s) end.
  revert s. induction (by_key cache) as [|e l IH]; intros s; [done|]. cbn [fold_left]. by rewrite IH, proposal_view.
Qed.

Lemma onViewChange_view env toView s : pc_view (onViewChange nodeID valPublic env toView s) = toView.
Proof.
  unfold onViewChange. cbv zeta. set (s1 := announce_view _ _). assert (H1 : pc_view s1 = toView).
  { unfold s1, announce_view, adaptor_onViewChanged, mode_set, catch_up, drop_requests. cbv zeta.
    destruct (_ >? _); destruct (pc_waitingConsensusReach _); repeat case_decide; by repeat case_match. }
  case_decide; [by rewrite checkCache_view | done].
Qed.

End Views.

Section Origins.

Context {TS : TxSetOps} (nodeID : Z) (valPublic : Bytes) (calcNodeID : Bytes -> Z).
Context (E : PopEnv -> Prop) (P : PopPosition -> Prop) (V : STViewChange -> Prop).

(** ** The invariant *)

(** A vote for a set at a ledger number and view: our own, or that of a position received. *)
Definition voted_for (seq view id : Z) (k : Bytes) : Prop :=
  k = valPublic \/
  exists p, P p /\ pq_key p = k /\ pp_position (pq_prop p) = id /\ pp_curLedgerSeq (pq_prop p) = seq
            /\ pp_view (pq_prop p) = view.

(** A set and close time proposed by a leader. *)
Definition led (seq view id closeTime : Z) : Prop :=
  exists env p, E env /\ P p /\ isLeader env (pq_key p) seq view = true /\ pp_position (pq_prop p) = id
    /\ pp_curLedgerSeq (pq_prop p) = seq /\ pp_view (pq_prop p) = view /\ pp_closeTime (pq_prop p) = closeTime.

Definition we_lead (seq view : Z) : Prop := exists env, E env /\ isLeader env valPublic seq view = true.

Definition result_ok (seq view : Z) (r : ConsensusResult) : Prop :=
  pp_curLedgerSeq (rs_position r) = seq /\ pp_view (rs_position r) = view
  /\ set_id (rs_txns r) = pp_position (rs_position r)
  /\ (led seq view (pp_position (rs_position r)) (pp_closeTime (rs_position r)) \/ we_lead seq view).

(** The set voted on is that of the result, or another one of a leader. *)
Definition ballot_ok (seq view : Z) (r : ConsensusResult) (id : Z) : Prop :=
  id = pp_position (rs_position r) \/ exists closeTime, led seq view id closeTime.

Definition quorum_voted (seq view id : Z) : Prop :=
  exists env (votes : gset Bytes), E env /\ i32 (pe_quorum env) <= Z.of_nat (size votes)
    /\ forall k, k ∈ votes -> voted_for seq view id k.

Definition accept_ok (e : PopEffect) : Prop :=
  match e with
  | OnAccept r prev _ _ _ =>
      let seq := u32 (li_seq prev + 1) in
      let view := pp_view (rs_position r) in
      result_ok seq view r /\
      (rs_state r = cs_Yes -> exists id, quorum_voted seq view id /\ ballot_ok seq view r id)
  | _ => True
  end.

(** A request for a view: our own, or one received. *)
Definition asked_for (view hash : Z) (k : Bytes) : Prop :=
  k = valPublic \/ exists v, V v /\ vc_nodePublic v = k /\ vc_toView v = view /\ vc_prevHash v = hash.

Definition quorum_asked (view : Z) : Prop :=
  exists env hash (keys : gset Bytes), E env /\ pe_quorum env <= Z.of_nat (size keys)
    /\ forall k, k ∈ keys -> asked_for view hash k.

Definition request_ok (view : Z) (k : Bytes) (v : STViewChange) : Prop :=
  (V v \/ vc_nodePublic v = valPublic) /\ vc_toView v = view /\ vc_nodePublic v = k.

Record Inv (s : Pop) : Prop := {
  inv_votes : forall id k, k ∈ default ∅ (pc_txSetVoted s !! id) -> voted_for (curSeq s) (pc_view s) id k;
  inv_cached : forall id k, k ∈ default ∅ (pc_txSetCached s !! id) -> voted_for (curSeq s) (pc_view s) id k;
  inv_cache : forall seq c k p, pc_proposalCache s !! seq = Some c -> c !! k = Some p -> P p;
  inv_result : forall r, pc_result s = Some r ->
    result_ok (curSeq s) (pc_view s) r /\ exists id, pc_setID s = Some id /\ ballot_ok (curSeq s) (pc_view s) r id;
  inv_set : forall id, pc_setID s = Some id -> pc_result s = None -> led (curSeq s) (pc_view s) id (pc_closeTime s);
  inv_requests : forall view k v, stored (pc_viewChangeManager s) view k = Some v -> request_ok view k v;
  inv_view : pc_view s = 0 \/ quorum_asked (pc_view s);
  inv_effects : Forall accept_ok (pc_effects s)
}.

Ltac keep H := destruct H; constructor; assumption.

Definition silent (e : PopEffect) : Prop := match e with OnAccept _ _ _ _ _ => False | _ => True end.

Lemma inv_emit e s : silent e -> Inv s -> Inv (emit e s).
Proof.
  intros He H. destruct H as [H1 H2 H3 H4 H5 H6 H7 H8]. constructor; try assumption.
  apply Forall_app. split; [done|]. constructor; [by destruct e | constructor].
Qed.

Lemma inv_mode_set m s : Inv s -> Inv (mode_set m s).
Proof. intros H. unfold mode_set. apply inv_emit; [done|]. case_decide; keep H. Qed.

(** ** Votes *)

(** Results that differ in timing and state only. *)
Definition alike (r r' : ConsensusResult) : Prop :=
  rs_txns r = rs_txns r' /\ pp_curLedgerSeq (rs_position r) = pp_curLedgerSeq (rs_position r')
  /\ pp_view (rs_position r) = pp_view (rs_position r') /\ pp_position (rs_position r) = pp_position (rs_position r')
  /\ pp_closeTime (rs_position r) = pp_closeTime (rs_position r').

Lemma result_ok_alike seq view r r' : alike r r' -> result_ok seq view r -> result_ok seq view r'.
Proof. intros (E1 & E2 & E3 & E4 & E5). unfold result_ok. by rewrite E1, E2, E3, E4, E5. Qed.

Lemma ballot_ok_alike seq view r r' id : alike r r' -> ballot_ok seq view r id -> ballot_ok seq view r' id.
Proof. intros (_ & _ & _ & E4 & _). unfold ballot_ok. by rewrite E4. Qed.

Lemma inv_set_result r r' s : pc_result s = Some r -> alike r r' -> Inv s -> Inv (set_result r' s).
Proof.
  intros Hr Ha H. destruct H as [H1 H2 H3 H4 H5 H6 H7 H8]. constructor; try assumption.
  - intros r0 [= <-]. destruct (H4 r Hr) as [Hok (id & Hid & Hb)].
    split; [by apply (result_ok_alike _ _ r) | exists id; split; [done | by apply (ballot_ok_alike _ _ r)]].
  - intros id _ [=].
Qed.

(** A result as it is accepted. *)
Lemma inv_accept env s r id :
  E env -> Inv s -> pc_result s = Some r -> pc_setID s = Some id ->
  (rs_state r = cs_Yes -> i32 (pe_quorum env) <= Z.of_nat (size (default ∅ (pc_txSetVoted s !! id)))) ->
  Inv (emit (OnAccept r (pc_previousLedger s) (pc_closeResolution s) (pc_rawCloseTimes s) (pc_mode s)) (s {{ pc_phase := ph_accepted }})).
Proof.
  intros HE H Hr Hid Hq. pose proof H as [H1 H2 H3 H4 H5 H6 H7 H8]. constructor; try assumption.
  apply Forall_app. split; [done|]. constructor; [|constructor]. destruct (H4 r Hr) as [Hok (id' & Hid' & Hb)].
  assert (Hv : pp_view (rs_position r) = pc_view s) by apply Hok. rewrite Hid in Hid'. injection Hid' as <-. cbn [accept_ok]. rewrite Hv.
  split; [done|]. intros Hy. exists id. split; [|done]. exists env, (default ∅ (pc_txSetVoted s !! id)). split_and!; [done | by apply Hq | apply H1].
Qed.

Lemma inv_checkVoting env s : E env -> Inv s -> Inv (checkVoting env s).
Proof.
  intros HE H. destruct (decide (pc_phase s = ph_accepted)) as [Hp|Hp]; [unfold checkVoting; by rewrite decide_True|].
  destruct (pc_result s) as [r|] eqn:Hr; [|unfold checkVoting; by rewrite decide_False, Hr].
  destruct (inv_result s H r Hr) as [_ (id & Hid & _)]. rewrite (checkVoting_eq env s r id Hp Hr Hid).
  set (votes := default ∅ (pc_txSetVoted s !! id)). assert (H1 : Inv (counted env s r id votes)).
  { apply (inv_set_result r (judged env s r votes)) in H; [|done | done]. destruct H as [K1 K2 K3 K4 K5 K6 K7 K8].
    constructor; try assumption. intros id' k. change (pc_txSetVoted (counted env s r id votes)) with (<[id := votes]> (pc_txSetVoted s)).
    destruct (decide (id' = id)) as [->|]; [rewrite lookup_insert_eq | rewrite lookup_insert_ne by done]; apply K1. }
  case_decide; [done|]. apply (inv_accept env (counted env s r id votes) (judged env s r votes) id HE H1 eq_refl Hid).
  change (pc_txSetVoted (counted env s r id votes)) with (<[id := votes]> (pc_txSetVoted s)). rewrite lookup_insert_eq.
  change (rs_state (judged env s r votes)) with (outcome env s votes). unfold outcome. cbv zeta. rewrite !Z.geb_leb.
  destruct (Z.leb_spec (i32 (pe_quorum env)) (Z.of_nat (size votes))); [done|]. by destruct (_ <=? _).
Qed.

Lemma vote_for_elem id' key m id k :
  k ∈ default ∅ (vote_for id' key m !! id) -> (id = id' /\ k = key) \/ k ∈ default ∅ (m !! id).
Proof.
  unfold vote_for. destruct (decide (id = id')) as [->|]; [|rewrite lookup_insert_ne by done; by right].
  rewrite lookup_insert_eq. simpl. rewrite elem_of_union, elem_of_singleton. naive_solver.
Qed.

Lemma inv_follow_leader id now txSet s :
  Inv s -> pc_result s = None -> pc_setID s = Some id -> set_id txSet = id -> Inv (follow_leader nodeID valPublic id now txSet s).
Proof.
  intros H Hr Hid Hset. pose proof H as [H1 H2 H3 H4 H5 H6 H7 H8]. pose proof (H5 id Hid Hr) as Hled. unfold follow_leader. cbv zeta.
  set (position := mkProposeSet _ _ _ _ _ _ _ _ _).
  assert (K : forall s', Inv s' -> pc_setID s' = Some id -> curSeq s' = curSeq s -> pc_view s' = pc_view s ->
    Inv (set_result ((Result_new txSet position) {{ rs_roundTime := timer_reset (pc_proposalTime s') }}) s')).
  { intros s' [K1 K2 K3 K4 K5 K6 K7 K8] Hid' Hc Hv. constructor; try assumption; [|intros ? _ [=]].
    intros r [= <-]. change (curSeq (set_result _ s')) with (curSeq s'). change (pc_view (set_result _ s')) with (pc_view s').
    rewrite Hc, Hv. split; [split_and!; [done | done | done | by left] | exists id; split; [done | by left]]. }
  case_decide; destruct (pc_validating _); apply K; try done; try (keep H); apply inv_emit; try done; constructor; try assumption;
    (intros id' k [[-> ->]|Hk]%vote_for_elem; [by left | by apply H1]).
Qed.

Lemma inv_gotTxSet env now txSet s : E env -> Inv s -> Inv (gotTxSet nodeID valPublic env now txSet s).
Proof.
  intros HE H. unfold gotTxSet. case_decide; [done|]. cbv zeta.
  set (s1 := match _ with Some _ => _ | None => _ end).
  assert (H1 : Inv s1) by (unfold s1; case_match; keep H). case_decide as Hid; [|done].
  destruct (pc_result s1) as [r|] eqn:Hr.
  - rewrite Hr. by apply inv_checkVoting.
  - destruct (isLeader _ _ _ _); [by rewrite Hr|]. case_match; [|by apply inv_follow_leader].
    apply inv_checkVoting; [done|]. by apply inv_follow_leader.
Qed.

Lemma inv_onDeleteUntrusted env gone s : E env -> Inv s -> Inv (onDeleteUntrusted calcNodeID env gone s).
Proof.
  intros HE H. unfold onDeleteUntrusted. cbv zeta. set (s1 := match pc_setID s with Some _ => _ | None => _ end).
  assert (H1 : Inv s1).
  { unfold s1. destruct (pc_setID s) as [id|]; [|done]. destruct (pc_txSetVoted s !! id) as [votes|] eqn:Hv; [|done].
    pose proof H as [K1 K2 K3 K4 K5 K6 K7 K8]. constructor; try assumption. intros id' k.
    match goal with |- context [pc_txSetVoted ?x !! _] => change (pc_txSetVoted x) with (<[id := filter (fun k => calcNodeID k ∉ gone) votes]> (pc_txSetVoted s)) end.
    destruct (decide (id' = id)) as [->|]; [|rewrite lookup_insert_ne by done; apply K1].
    rewrite lookup_insert_eq. simpl. intros [_ Hk]%elem_of_filter. apply K1. by rewrite Hv. }
  case_match; [by apply inv_checkVoting | done].
Qed.

(** ** Proposals *)

Lemma inv_proposalCache c s :
  (forall seq cache k p, c !! seq = Some cache -> cache !! k = Some p -> P p) -> Inv s -> Inv (s {{ pc_proposalCache := c }}).
Proof. intros Hc H. destruct H. constructor; assumption. Qed.

Lemma inv_checkSaveNextProposal env pos s : P pos -> Inv s -> Inv (checkSaveNextProposal env pos s).
Proof.
  intros HP H. unfold checkSaveNextProposal. cbv zeta. destruct (_ || _); [|done]. pose proof (inv_cache _ H) as HC.
  set (seq := pp_curLedgerSeq (pq_prop pos)). destruct (pc_proposalCache s !! seq) as [cache|] eqn:Hcache.
  - set (cache' := match cache !! _ with Some _ => _ | None => _ end).
    assert (Hin : forall k p, cache' !! k = Some p -> P p).
    { intros k p. assert (Hold : cache !! k = Some p -> P p) by (intros; by apply (HC seq cache k)).
      assert (Hnew : <[pq_key pos := pos]> cache !! k = Some p -> P p) by (intros [[_ <-]|[_ ?]]%lookup_insert_Some; auto).
      unfold cache'. repeat case_match; auto. }
    assert (H1 : Inv (s {{ pc_proposalCache := <[seq := cache']> (pc_proposalCache s) }})).
    { apply inv_proposalCache; [|done]. intros seq' c k p [[_ <-]|[_ Hl]]%lookup_insert_Some; [apply Hin | by apply (HC seq' c)]. }
    destruct (_ >=? _); [by apply inv_emit | done].
  - apply inv_proposalCache; [|done]. intros seq' c k p [[_ <-]|[_ Hl]]%lookup_insert_Some; [|by apply (HC seq' c)].
    intros [_ <-]%lookup_singleton_Some. done.
Qed.

(** A position for the ledger and view worked on. *)
Definition current (s : Pop) (p : PopPosition) : Prop :=
  P p /\ pp_curLedgerSeq (pq_prop p) = curSeq s /\ pp_view (pq_prop p) = pc_view s.

Lemma current_voted s p : current s p -> voted_for (curSeq s) (pc_view s) (pp_position (pq_prop p)) (pq_key p).
Proof. intros (HP & Hs & Hv). right. by exists p. Qed.

Lemma inv_record_vote env pos s s' : E env -> current s pos -> Inv s -> record_vote env pos s = Some s' -> Inv s'.
Proof.
  intros HE Hcur H. pose proof H as [H1 H2 H3 H4 H5 H6 H7 H8]. pose proof (current_voted s pos Hcur) as Hvote.
  unfold record_vote. cbv zeta. set (id := pp_position (pq_prop pos)) in *. set (key := pq_key pos) in *.
  destruct (pc_txSetVoted s !! id) as [votes|] eqn:Hv; [|destruct (isLeader env key (curSeq s) (pc_view s)) eqn:Hlead].
  - intros [= <-]. constructor; try assumption. intros id' k.
    match goal with |- context [pc_txSetVoted ?x !! _] => change (pc_txSetVoted x) with (<[id := {[key]} ∪ votes]> (pc_txSetVoted s)) end.
    destruct (decide (id' = id)) as [->|]; [|rewrite lookup_insert_ne by done; apply H1]. rewrite lookup_insert_eq. simpl.
    intros [->%elem_of_singleton|Hk]%elem_of_union; [done|]. apply H1. by rewrite Hv.
  - unfold leader_proposal. destruct (_ && _); [done|]. cbv zeta. intros [= <-]. do 2 (apply inv_emit; [done|]).
    destruct Hcur as (HP & Hs & Hvw). assert (Hled : led (curSeq s) (pc_view s) id (pp_closeTime (pq_prop pos))) by (by exists env, pos).
    constructor; try assumption.
    + intros id' k.
      match goal with |- context [pc_txSetVoted ?x !! _] =>
        change (pc_txSetVoted x) with (<[id := {[key]} ∪ default ∅ (pc_txSetCached s !! id)]> (pc_txSetVoted s)) end.
      destruct (decide (id' = id)) as [->|]; [|rewrite lookup_insert_ne by done; apply H1]. rewrite lookup_insert_eq. simpl.
      intros [->%elem_of_singleton|Hk]%elem_of_union; [done | by apply H2].
    + intros id' k. match goal with |- context [pc_txSetCached ?x !! _] => change (pc_txSetCached x) with (delete id (pc_txSetCached s)) end.
      destruct (decide (id' = id)) as [->|]; [by rewrite lookup_delete_eq | rewrite lookup_delete_ne by done; apply H2].
    + intros r Hr. destruct (H4 r Hr) as [Hok _]. split; [done|]. exists id. split; [done|]. right. by eexists.
    + by intros id' [= <-] _.
  - intros [= <-]. constructor; try assumption. intros id' k [[-> ->]|Hk]%vote_for_elem; [done | by apply H2].
Qed.

Lemma inv_use_tx_set env pos s : E env -> Inv s -> Inv (use_tx_set nodeID valPublic env pos s).
Proof.
  intros HE H. unfold use_tx_set. destruct (pq_txSet pos); [by apply inv_gotTxSet|].
  destruct (pc_result s); [by apply inv_checkVoting|]. destruct (pe_acquireTxSet _ _); [by apply inv_gotTxSet | done].
Qed.

Lemma inv_peerProposalInternal env now pos s :
  E env -> P pos -> Inv s -> Inv (peerProposalInternal nodeID valPublic env now pos s).2.
Proof.
  intros HE HP H. unfold peerProposalInternal. cbv zeta. destruct (waitingForInit env s); [done|].
  case_decide; [by apply inv_checkSaveNextProposal|].
  destruct (Z.ltb_spec (pp_curLedgerSeq (pq_prop pos)) (curSeq s)); [done|]. rewrite Z.gtb_ltb.
  destruct (Z.ltb_spec (curSeq s) (pp_curLedgerSeq (pq_prop pos))); [by apply inv_checkSaveNextProposal|].
  destruct (negb _); [by apply inv_checkSaveNextProposal|]. destruct (Z.eqb_spec (pp_view (pq_prop pos)) (pc_view s)) as [Hv|];
    [|by apply inv_checkSaveNextProposal]. cbn [negb].
  set (s1 := s {{ pc_now := now }}). assert (Hi1 : Inv s1) by keep H.
  assert (Hc : current s1 pos) by (split_and!; [done | change (curSeq s1) with (curSeq s); lia | done]).
  destruct (record_vote env pos s1) as [s2|] eqn:Hs2; cbn [snd]; [|keep H].
  pose proof (inv_record_vote env pos s1 s2 HE Hc Hi1 Hs2) as Hi2. apply inv_use_tx_set; [done|].
  unfold count_close_time. destruct (isInitial _); [keep Hi2 | done].
Qed.

Lemma inv_checkCache env s : E env -> Inv s -> Inv (checkCache nodeID valPublic env s).
Proof.
  intros HE H. unfold checkCache. cbv zeta. destruct (pc_proposalCache s !! curSeq s) as [cache|] eqn:Hc; [|done].
  assert (HP : Forall (fun e => P e.2) (by_key cache)).
  { rewrite by_key_perm. apply Forall_forall. intros [k p] Hk%elem_of_map_to_list. by apply (inv_cache s H (curSeq s) cache k). }
  set (f := fun s e => (peerProposalInternal nodeID valPublic env (pc_now s) e.2 s).2).
  assert (H1 : Inv (fold_left f (by_key cache) s)).
  { clear Hc. revert s H. induction HP as [|e l He _ IH]; intros s H; [done|]. apply IH. by apply inv_peerProposalInternal. }
  apply inv_proposalCache; [|done]. intros seq c k p [Hl _]%map_lookup_filter_Some. by apply (inv_cache _ H1 seq c).
Qed.

(** ** Rounds and views *)

(** A state with no votes, result or set. *)
Definition blank (s : Pop) : Prop :=
  pc_txSetVoted s = ∅ /\ pc_txSetCached s = ∅ /\ pc_result s = None /\ pc_setID s = None.

Lemma inv_blank s :
  blank s -> (forall seq c k p, pc_proposalCache s !! seq = Some c -> c !! k = Some p -> P p) ->
  (forall view k v, stored (pc_viewChangeManager s) view k = Some v -> request_ok view k v) ->
  (pc_view s = 0 \/ quorum_asked (pc_view s)) -> Forall accept_ok (pc_effects s) -> Inv s.
Proof.
  intros (Hv & Hc & Hr & Hs) H3 H6 H7 H8. constructor; try done.
  - rewrite Hv. intros id k. by rewrite lookup_empty.
  - rewrite Hc. intros id k. by rewrite lookup_empty.
  - by rewrite Hr.
  - by rewrite Hs.
Qed.

Lemma passing_some f o v : passing f o = Some v -> o = Some v.
Proof. destruct o as [w|]; simpl; [|done]. destruct (f w); by intros [= ->]. Qed.

Lemma inv_startRoundInternal env now id l mode s :
  E env -> Inv s -> Inv (startRoundInternal nodeID valPublic env now id l mode s).
Proof.
  intros HE H. unfold startRoundInternal. cbv zeta.
  pose proof (inv_mode_set mode (s {{ pc_phase := ph_open }}) ltac:(keep H)) as H1.
  set (s1 := mode_set mode _) in *. match goal with |- context [emit (SetBuildingLedger 0) ?x] => set (s2 := x) end.
  assert (H2 : Inv s2).
  { destruct H1 as [K1 K2 K3 K4 K5 K6 K7 K8]. apply inv_blank; [done | exact K3 | exact K6 | by left | exact K8]. }
  apply inv_emit with (e := SetBuildingLedger 0) in H2; [|done]. case_decide; [|done]. apply inv_checkCache; [done|].
  pose proof H2 as [K1 K2 K3 K4 K5 K6 K7 K8]. constructor; try assumption. intros view k v Hst. apply K6.
  match type of Hst with stored (pc_viewChangeManager ?x) _ _ = _ =>
    change (pc_viewChangeManager x) with (onNewRound l (pc_viewChangeManager (emit (SetBuildingLedger 0) s2))) in Hst end.
  rewrite stored_new_round in Hst. by apply passing_some in Hst.
Qed.

Lemma inv_startRound env now id l prop s : E env -> Inv s -> Inv (startRound nodeID valPublic env now id l prop s).
Proof.
  intros HE H. unfold startRound. cbv zeta. destruct (_ =? _); [by apply inv_startRoundInternal|].
  destruct (pe_acquireLedger _ _); (apply inv_startRoundInternal; [done|]; by apply inv_emit).
Qed.

Lemma inv_leaveConsensus s : Inv s -> Inv (leaveConsensus s).
Proof.
  intros H. unfold leaveConsensus. case_decide; [|done]. cbv zeta. apply inv_mode_set. destruct (pc_result s) as [r|] eqn:Hr; [|done].
  destruct (isBowOut _); [done|]. apply inv_emit; [done|]. by apply (inv_set_result r).
Qed.

Lemma inv_clear_avoids fuel env seq l newLedger s : Inv s -> Inv (clear_avoids fuel env seq l newLedger s).
Proof.
  revert seq l s. induction fuel as [|fuel IH]; intros seq l s H; [done|]. cbn [clear_avoids]. destruct l as [l|]; [|done].
  destruct (_ && _); [|done]. apply IH. by apply inv_emit.
Qed.

Lemma inv_handleWrongLedger env id s : E env -> Inv s -> Inv (handleWrongLedger nodeID valPublic env id s).
Proof.
  intros HE H. unfold handleWrongLedger. cbv zeta. apply inv_emit with (e := AcquireLedger id) in H; [|done].
  destruct (pe_acquireLedger _ _) as [newLedger|]; [|done]. destruct (negb _); [done|].
  apply inv_leaveConsensus in H. set (s1 := leaveConsensus _) in *.
  match goal with |- context [if li_hash (pc_previousLedger ?x) =? _ then _ else _] => set (s2 := x) end.
  assert (H2 : Inv s2) by (unfold s2; destruct (_ =? _); keep H).
  destruct (_ =? pc_prevLedgerID s2); [done|]. apply inv_startRoundInternal; [done|]. by apply inv_clear_avoids.
Qed.

Lemma inv_checkLedger env s : E env -> Inv s -> Inv (checkLedger nodeID valPublic env s).
Proof.
  intros HE H. unfold checkLedger. cbv zeta. destruct (negb _).
  - destruct (_ <? _); [done | by apply inv_handleWrongLedger].
  - destruct (negb _); [by apply inv_handleWrongLedger | done].
Qed.

Lemma inv_adaptor_onViewChanged env w s : Inv s -> Inv (adaptor_onViewChanged env w s).
Proof.
  intros H. unfold adaptor_onViewChanged. cbv zeta. apply inv_emit with (e := ViewChanged w (pc_previousLedger s) (pc_view s)) in H; [|done].
  destruct (pe_preStartRound _ _). keep H.
Qed.

Lemma inv_reset_view env toView s : quorum_asked toView -> Inv s -> Inv (reset_view env toView s).
Proof. intros Hq [K1 K2 K3 K4 K5 K6 K7 K8]. apply inv_blank; [done | exact K3 | exact K6 | by right | exact K8]. Qed.

Lemma inv_drop_requests s : Inv s -> Inv (drop_requests s).
Proof.
  intros H. pose proof H as [K1 K2 K3 K4 K5 K6 K7 K8]. constructor; try assumption. intros view k v Hst. apply K6.
  change (pc_viewChangeManager (drop_requests s)) with (vc_onViewChanged (pc_view s) (pc_prevLedgerSeq s) (pc_viewChangeManager s)) in Hst.
  rewrite stored_view_changed in Hst. destruct (_ <=? _); [done|]. by apply passing_some in Hst.
Qed.

Lemma inv_announce_view env s : Inv s -> Inv (announce_view env s).
Proof.
  intros H. unfold announce_view. destruct (pc_waitingConsensusReach s).
  - case_decide; [done|]. pose proof (inv_adaptor_onViewChanged env true s H) as H1. keep H1.
  - by apply inv_mode_set, inv_adaptor_onViewChanged.
Qed.

Lemma inv_onViewChange env toView s :
  E env -> quorum_asked toView -> Inv s -> Inv (onViewChange nodeID valPublic env toView s).
Proof.
  intros HE Hq H. unfold onViewChange. set (s1 := announce_view _ _).
  assert (H1 : Inv s1).
  { apply inv_announce_view, inv_drop_requests. apply (inv_reset_view env toView s Hq) in H.
    unfold catch_up. cbv zeta. destruct (_ >? _); [by apply inv_emit | done]. }
  cbv zeta. case_decide; [by apply inv_checkCache | done].
Qed.

(** A quorum of stored requests on one ledger. *)
Lemma stored_quorum env s toView hash :
  E env -> Inv s -> pe_quorum env <= Z.of_nat (size (on_hash hash (requests (pc_viewChangeManager s) toView))) -> quorum_asked toView.
Proof.
  intros HE H Hq. set (reqs := on_hash _ _) in *. exists env, hash, (dom reqs). split_and!; [done | by rewrite size_dom|].
  intros k [v Hv]%elem_of_dom. apply map_lookup_filter_Some in Hv as [Hst Hh].
  destruct (inv_requests s H toView k v Hst) as ([HV|Ho] & Ht & Hk); [right; by exists v | left; congruence].
Qed.

Lemma inv_checkChangeView env toView s : E env -> Inv s -> Inv (checkChangeView nodeID valPublic env toView s).
Proof.
  intros HE H. unfold checkChangeView. case_decide; [done|]. destruct (_ =? toView).
  - destruct (vc_haveConsensus _ _ _ _ _) eqn:Hc; [|done]. apply inv_onViewChange; [done | | done].
    apply (stored_quorum env s toView (pc_prevLedgerID s)); [done | done|]. by apply have_quorum in Hc as [Hc _].
  - destruct (shouldTriggerViewChange _ _ _) as [[[ok seq] hash] m] eqn:Ht. set (s1 := s {{ pc_viewChangeManager := m }}).
    assert (H1 : Inv s1).
    { pose proof H as [K1 K2 K3 K4 K5 K6 K7 K8]. constructor; try assumption. intros view k v Hst. apply K6.
      rewrite <- (stored_trigger toView (pe_quorum env)), Ht. exact Hst. }
    destruct ok; [|done]. cbn [negb].
    assert (Hq : quorum_asked toView).
    { apply (stored_quorum env s toView hash HE H). apply (trigger_quorum toView (pe_quorum env) _ seq). by rewrite Ht. }
    destruct (_ <? seq); [by apply inv_handleWrongLedger|]. destruct (_ =? seq); [|done].
    destruct (_ =? hash); [by apply inv_onViewChange | by apply inv_handleWrongLedger].
Qed.

Lemma inv_peerViewChangeInternal env v s :
  E env -> V v \/ vc_nodePublic v = valPublic -> Inv s -> Inv (peerViewChangeInternal nodeID valPublic env v s).2.
Proof.
  intros HE HV H. unfold peerViewChangeInternal. cbv zeta. set (s1 := s {{ pc_viewChangeManager := _ }}). assert (H1 : Inv s1).
  { pose proof H as [K1 K2 K3 K4 K5 K6 K7 K8]. constructor; try assumption. intros view k w Hst.
    change (pc_viewChangeManager s1) with (recvViewChange v (pc_viewChangeManager s)).2 in Hst. rewrite stored_recv in Hst.
    destruct (decide _) as [[-> ->]|]; [injection Hst as <-; by split_and! | by apply K6]. }
  destruct (waitingForInit env s1); [done|]. cbn [snd]. apply inv_emit; [done|]. by apply inv_checkChangeView.
Qed.

Lemma inv_launchViewChange env s : E env -> Inv s -> Inv (launchViewChange nodeID valPublic env s).
Proof.
  intros HE H. unfold launchViewChange. cbv zeta. apply inv_peerViewChangeInternal; [done | by right|]. apply inv_emit; [done | keep H].
Qed.

Lemma inv_checkTimeout env s : E env -> Inv s -> Inv (checkTimeout nodeID valPublic env s).
Proof.
  intros HE H. unfold checkTimeout. case_decide; [done|]. cbv zeta. destruct (_ <? _); [done|].
  set (s1 := if pc_validating s then _ else s). assert (H1 : Inv s1) by (unfold s1; destruct (pc_validating s); [by apply inv_launchViewChange | done]).
  keep H1.
Qed.

(** ** The leader and the timer *)

Lemma inv_emits es s : Forall silent es -> Inv s -> Inv (fold_left (fun s e => emit e s) es s).
Proof. intros Hes. revert s. induction Hes as [|e es He _ IH]; intros s H; [done|]. apply IH. by apply inv_emit. Qed.

(** What the leader proposes. *)
Lemma collect_result env l txs now view mode r details es :
  onCollectFinish nodeID valPublic env l txs now view mode = (r, details, es) ->
  Forall silent es /\ pp_curLedgerSeq (rs_position r) = u32 (li_seq l + 1) /\ pp_view (rs_position r) = view
  /\ set_id (rs_txns r) = pp_position (rs_position r).
Proof.
  unfold onCollectFinish. destruct (collect_txs env l txs) as [set removed]. intros [= <- _ <-]. split; [|done].
  do 2 (constructor; [done|]). induction removed as [|x removed IH]; constructor; done.
Qed.

Lemma inv_adopt env r s :
  result_ok (curSeq s) (pc_view s) r -> Inv s -> Inv (adopt env r s).
Proof.
  intros Hok H. pose proof Hok as (_ & _ & Hid & _). unfold adopt. cbv zeta.
  match goal with |- context [pc_acquired ?x !! _] => set (s1 := x) end.
  assert (H1 : Inv s1).
  { destruct H as [K1 K2 K3 K4 K5 K6 K7 K8]. constructor; try assumption; [|intros ? _ [=]]. intros r' [= <-]. split; [exact Hok|].
    exists (set_id (rs_txns r)). split; [done|]. left. exact Hid. }
  case_match; [done|]. apply inv_emit; [done | keep H1].
Qed.

Lemma emits_frame es s :
  let s' := fold_left (fun s e => emit e s) es s in curSeq s' = curSeq s /\ pc_view s' = pc_view s.
Proof. revert s. induction es as [|e es IH]; intros s; [done|]. apply (IH (emit e s)). Qed.

Lemma inv_propose_set env s :
  E env -> isLeader env valPublic (curSeq s) (pc_view s) = true -> Inv s -> Inv (propose_set nodeID valPublic env s).
Proof.
  intros HE Hlead H. unfold propose_set. cbv zeta. set (s1 := take_transactions env s). assert (H1 : Inv s1) by keep H.
  destruct (onCollectFinish _ _ _ _ _ _ _ _) as [[r details] es] eqn:Hc. apply collect_result in Hc as (Hes & Hseq & Hview & Hset).
  pose proof (inv_emits es s1 Hes H1) as H2. destruct (emits_frame es s1) as [F1 F2]. set (s2 := fold_left _ es s1) in *.
  assert (H3 : Inv (emit (Propose (rs_position r) details) (adopt env r s2))).
  { apply inv_emit; [done|]. apply inv_adopt; [|done]. rewrite F1, F2. split_and!; [done | done | done | right; by exists env]. }
  set (s3 := emit _ (adopt env r s2)) in *. destruct (_ && _); [keep H3|]. apply inv_checkVoting; [done|].
  pose proof H3 as [K1 K2 K3 K4 K5 K6 K7 K8]. constructor; try assumption. intros id k.
  match goal with |- context [pc_txSetVoted ?x !! _] => change (pc_txSetVoted x) with (<[set_id (rs_txns r) := {[valPublic]}]> (pc_txSetVoted s3)) end.
  destruct (decide (id = set_id (rs_txns r))) as [->|]; [|rewrite lookup_insert_ne by done; apply K1].
  rewrite lookup_insert_eq. simpl. intros ->%elem_of_singleton. by left.
Qed.

Lemma inv_phaseCollecting env s : E env -> Inv s -> Inv (phaseCollecting nodeID valPublic env s).
Proof.
  intros HE H. unfold phaseCollecting. destruct (pc_leaderFailed s); [done|]. cbv zeta.
  destruct (if timeSinceOpen env s =? _ then _ else _) as [sinceOpen sinceClose].
  destruct (isLeader env valPublic (curSeq s) (pc_view s)) eqn:Hlead; [|done]. cbn [andb]. destruct (bool_decide _); [|done].
  destruct (negb _); [done|]. destruct (finalCondReached env sinceOpen sinceClose s) as [reached s1] eqn:Hf.
  assert (H1 : Inv s1 /\ curSeq s1 = curSeq s /\ pc_view s1 = pc_view s).
  { revert Hf. unfold finalCondReached. cbv zeta. repeat case_match; intros [= _ <-]; (split; [first [done | keep H] | done]). }
  destruct H1 as (H1 & F1 & F2). destruct reached; [|done]. apply inv_propose_set; [done | by rewrite F1, F2 | done].
Qed.

Lemma inv_rollback env s : E env -> Inv s -> Inv (rollback nodeID valPublic env s).
Proof.
  intros HE H. unfold rollback. destruct (rollback_ledger env s) as [old|]; [|done]. cbv zeta.
  set (s1 := if _ >? _ then _ else s). assert (H1 : Inv s1) by (unfold s1; destruct (_ >? _); [by apply inv_emit | done]).
  do 2 (apply inv_emit; [done|]). apply (inv_startRoundInternal env (pc_now s1) (li_hash old) old switchedLedger) in H1; [|done].
  destruct H1 as [K1 K2 K3 K4 K5 K6 K7 K8]. constructor; try assumption. intros view k v [reqs [[=] _]]%stored_some.
Qed.

Lemma inv_timerEntry env now s : E env -> Inv s -> Inv (timerEntry nodeID valPublic env now s).
Proof.
  intros HE H. unfold timerEntry. case_decide; [done|]. cbv zeta. set (s1 := s {{ pc_now := now }}). assert (H1 : Inv s1) by keep H.
  destruct (waitingForInit env s1).
  - destruct (_ && _); [|keep H]. unfold initAnnounce. destruct (_ <? _); [keep H|]. apply inv_emit; [done | keep H].
  - apply (inv_checkLedger env) in H1; [|done]. set (s2 := checkLedger _ _ env s1) in *.
    set (s3 := if _ >? _ then _ else s2). assert (H3 : Inv s3) by (unfold s3; destruct (_ >? _); [by apply inv_rollback | done]).
    case_decide; [done|]. destruct (negb _); [done|]. apply inv_checkTimeout; [done|].
    case_decide; [by apply inv_phaseCollecting | done].
Qed.

(** ** Every event *)

(** What an event brings. *)
Definition seen_by (x : PopEnv * PopEvent) : Prop :=
  E x.1 /\ match x.2 with
           | PeerMessage true (MProposeSet (Some p)) => P p
           | PeerMessage true (MViewChange (Some v)) => V v
           | _ => True
           end.

Lemma inv_step x s : seen_by x -> Inv s -> Inv (pop_step nodeID valPublic calcNodeID s x).
Proof.
  destruct x as [env e]. intros [HE He] H. simpl in HE. destruct e as [now id l p|now|trusted m|now set|gone|b]; cbn [pop_step].
  - by apply inv_startRound.
  - by apply inv_timerEntry.
  - destruct m as [[p|]|[v|]|[[[seq hash] key]|]|b|b|]; destruct trusted; cbn [peerConsensusMessage peerProposal peerViewChange peerInitAnnounce snd];
      try done.
    + by apply inv_peerProposalInternal.
    + apply inv_peerViewChangeInternal; [done | by left | done].
    + unfold peerInitAnnounceInternal, initAnnounceToPeer. destruct (negb _); [cbn [snd]; destruct (pe_validatedLedger env); [by apply inv_emit | done]|].
      destruct (_ >? _); [|done]. cbn [snd]. case_decide; [destruct (_ =? _); [by apply inv_emit | done] | keep H].
  - by apply inv_gotTxSet.
  - by apply inv_onDeleteUntrusted.
  - keep H.
Qed.

Lemma inv_run events s : Forall seen_by events -> Inv s -> Inv (pop_run nodeID valPublic calcNodeID events s).
Proof. intros He. revert s. induction He as [|x events Hx _ IH]; intros s H; [done|]. apply IH. by apply inv_step. Qed.

Lemma inv_new id l : Inv (Pop_new id l).
Proof.
  apply inv_blank; [done | intros seq c k p [=] | | by left | constructor]. intros view k v [reqs [[=] _]]%stored_some.
Qed.

End Origins.
