(* ===== verification/PopRound.v ===== *)
(** * Proof-of-peers consensus: a round that succeeds

    A follower on the ledger of the round gets the votes of a quorum, the leader's among
    them, in any order. *)

From S2P Require Import Prelude HsTypes ConsensusTypes HsVerifier LedgerTiming RpcaTypes ViewChange ViewChangeProps Pop PopProps.
From coqutil Require Import Datatypes.RecordSetters.
Import DoubleBraceUpdate.

#[local] Open Scope Z_scope.

Section Round.

Context {TS : TxSetOps} (nodeID : Z) (valPublic : Bytes).
Context (env : PopEnv) (ledger : LedgerInfo) (prevID view start closeTime : Z) (set : TxSet).

Abbreviation id := (set_id set).
Abbreviation seq := (u32 (li_seq ledger + 1)).

(** ** States of the round *)

Record on_round (s : Pop) : Prop := {
  or_ledger : pc_previousLedger s = ledger;
  or_prev : pc_prevLedgerID s = prevID;
  or_view : pc_view s = view;
  or_validating : pc_validating s = true;
  or_start : pc_startTime s = Some start;
  or_time : pm_initTIME (pe_parms env) <= u32 (pc_now s - start);
  or_phase : pc_phase s <> ph_accepted
}.

Definition good (r : ConsensusResult) : Prop :=
  rs_txns r = set /\ pp_position (rs_position r) = id /\ pp_closeTime (rs_position r) = closeTime.

(** The leader has not been heard of; the votes of [K] are cached. *)
Definition before_leader (K : gset Bytes) (s : Pop) : Prop :=
  on_round s /\ pc_result s = None /\ pc_setID s = None /\ pc_txSetVoted s !! id = None
  /\ default ∅ (pc_txSetCached s !! id) = K.

(** The votes of [K] and our own are counted. *)
Definition voting (K : gset Bytes) (s : Pop) : Prop :=
  on_round s /\ (exists r, pc_result s = Some r /\ good r) /\ pc_setID s = Some id
  /\ pc_txSetVoted s !! id = Some ({[valPublic]} ∪ K).

Definition decided (s : Pop) : Prop :=
  pc_phase s = ph_accepted /\
  exists r closeResolution raw m, OnAccept r ledger closeResolution raw m ∈ pc_effects s /\ good r /\ rs_state r = cs_Yes.

(** ** The votes that make it *)

Context (Hquorum : 0 < pe_quorum env < 2 ^ 31).
Context (Hfinished : pe_proposersFinished env ledger prevID < pe_quorum env).
Context (Hself : isLeader env valPublic seq view = false).
Context (Hset : pe_acquireTxSet env id = Some set) (Hid : id <> 0).
Context (Htime : pm_initTIME (pe_parms env) <= u32 (pe_closeTime env - start)).

Lemma counting K s :
  voting K s -> if pe_quorum env <=? Z.of_nat (size ({[valPublic]} ∪ K)) then decided (checkVoting env s) else voting K (checkVoting env s).
Proof.
  intros (Hb & (r & Hr & Hg) & Hs & Hv). pose proof Hb as [B1 B2 B3 B4 B5 B6 B7].
  rewrite (checkVoting_eq env s r id B7 Hr Hs). rewrite Hv. cbn [default from_option].
  set (votes := {[valPublic]} ∪ K) in *.
  assert (Ho : outcome env s votes = if pe_quorum env <=? Z.of_nat (size votes) then cs_Yes else cs_No).
  { clear -Hquorum Hfinished B1 B2. unfold outcome. cbv zeta. rewrite i32_small, u64_small, !Z.geb_leb, B1, B2 by lia.
    destruct (_ <=? Z.of_nat (size votes)); [done|]. destruct (_ =? 1); by rewrite (proj2 (Z.leb_gt (pe_quorum env) _)) by lia. }
  destruct (pe_quorum env <=? Z.of_nat (size votes)).
  - rewrite (decide_False (P := outcome env s votes = cs_No)) by (by rewrite Ho). split; [done|]. exists (judged env s r votes), (pc_closeResolution s), (pc_rawCloseTimes s), (pc_mode s).
    split; [|by split]. rewrite <- B1. apply elem_of_app. right. by left.
  - rewrite (decide_True (P := outcome env s votes = cs_No)) by done. split; [by constructor|]. split; [by exists (judged env s r votes)|]. split; [done|]. apply lookup_insert_eq.
Qed.

(** A vote of this round, which may carry the set. *)
Definition vote (p : PopPosition) : Prop :=
  pp_position (pq_prop p) = id /\ pp_curLedgerSeq (pq_prop p) = seq /\ pp_previousLedger (pq_prop p) = prevID
  /\ pp_view (pq_prop p) = view /\ (pq_txSet p = None \/ pq_txSet p = Some set)
  /\ (isLeader env (pq_key p) seq view = true -> pp_closeTime (pq_prop p) = closeTime).

Abbreviation receive := (fun s p => (peerProposal nodeID valPublic env true (Some p) s).2).

(** A vote of the round is recorded. *)
Lemma receive_eq s p :
  on_round s -> vote p ->
  receive s p = match record_vote env p (s {{ pc_now := pe_closeTime env }}) with
                | None => (s {{ pc_now := pe_closeTime env }}) {{ pc_consensusTime := 0; pc_leaderFailed := true }}
                | Some s => use_tx_set nodeID valPublic env p (count_close_time (pq_prop p) s)
                end.
Proof.
  intros [B1 B2 B3 B4 B5 B6 B7] (V1 & V2 & V3 & V4 & V5 & V6). cbn [peerProposal]. unfold peerProposalInternal. cbv zeta.
  unfold waitingForInit. rewrite B5, (proj2 (Z.ltb_ge _ _)) by done. rewrite decide_False by done.
  unfold curSeq. rewrite B1, V2, Z.gtb_ltb, Z.ltb_irrefl, V3, B2, V4, B3, !Z.eqb_refl. cbn [negb].
  by destruct (record_vote _ _ _).
Qed.

Lemma count_close_time_frame prop s :
  exists raw, count_close_time prop s = s {{ pc_rawCloseTimes := raw }}.
Proof. unfold count_close_time. destruct (isInitial prop); [by eexists|]. exists (pc_rawCloseTimes s). by destruct s. Qed.

(** The set, carried or at hand, is taken over or leads to another count of the votes. *)
Lemma use_set_first p s : vote p -> pc_result s = None -> use_tx_set nodeID valPublic env p s = gotTxSet nodeID valPublic env (pc_now s) set s.
Proof. intros (V1 & _ & _ & _ & V5 & _) Hr. unfold use_tx_set. destruct V5 as [-> | ->]; [|done]. by rewrite Hr, V1, Hset. Qed.

Lemma use_set_again K p s :
  vote p -> voting K s -> exists s', use_tx_set nodeID valPublic env p s = checkVoting env s' /\ voting K s'.
Proof.
  intros (_ & _ & _ & _ & V5 & _) (Hb & (r & Hr & Hg) & Hs & Hv). unfold use_tx_set. destruct V5 as [-> | ->].
  { rewrite Hr. exists s. split; [done|]. split; [done|]. split; [by exists r | done]. }
  pose proof Hb as [B1 B2 B3 B4 B5 B6 B7]. unfold gotTxSet. rewrite decide_False by done. cbv zeta.
  match goal with |- context [decide (pc_setID ?x = _)] => set (s3 := x) end.
  assert (F : pc_result s3 = Some r /\ pc_setID s3 = Some id /\ voting K s3).
  { unfold s3. case_match; (split; [done|]); (split; [done|]); (split; [by constructor|]); (split; [by exists r | done]). }
  destruct F as (F1 & F2 & F3). rewrite decide_True, F1 by done. cbv iota. rewrite F1. by exists s3.
Qed.

Lemma receive_voting K s p :
  voting K s -> vote p -> pq_key p ∉ {[valPublic]} ∪ K ->
  if pe_quorum env <=? Z.of_nat (size ({[valPublic]} ∪ ({[pq_key p]} ∪ K))) then decided (receive s p)
  else voting ({[pq_key p]} ∪ K) (receive s p).
Proof.
  intros (Hb & (r & Hr & Hg) & Hs & Hv) Hp Hk. rewrite (receive_eq s p Hb Hp). pose proof Hp as (V1 & V2 & V3 & V4 & V5 & V6).
  unfold record_vote. cbv zeta. rewrite V1. set (s0 := s {{ pc_now := _ }}). change (pc_txSetVoted s0) with (pc_txSetVoted s). rewrite Hv.
  set (s1 := s0 {{ pc_txSetVoted := _ }}). destruct (count_close_time_frame (pq_prop p) s1) as [raw ->].
  set (s2 := s1 {{ pc_rawCloseTimes := raw }}).
  enough (Hvt : voting ({[pq_key p]} ∪ K) s2) by (destruct (use_set_again _ p s2 Hp Hvt) as (s' & -> & Hs'); by apply counting).
  destruct Hb as [B1 B2 B3 B4 B5 B6 B7]. split; [by constructor|]. split; [by exists r|]. split; [done|].
  change (pc_txSetVoted s2) with (<[id := {[pq_key p]} ∪ ({[valPublic]} ∪ K)]> (pc_txSetVoted s)). rewrite lookup_insert_eq. f_equal. set_solver.
Qed.

Lemma receive_other K s p :
  before_leader K s -> vote p -> isLeader env (pq_key p) seq view = false -> before_leader ({[pq_key p]} ∪ K) (receive s p).
Proof.
  intros (Hb & Hr & Hs & Hv & Hc) Hp Hl. rewrite (receive_eq s p Hb Hp). pose proof Hp as (V1 & V2 & V3 & V4 & V5 & V6).
  pose proof Hb as [B1 B2 B3 B4 B5 B6 B7]. unfold record_vote. cbv zeta. rewrite V1. set (s0 := s {{ pc_now := _ }}).
  change (pc_txSetVoted s0) with (pc_txSetVoted s). rewrite Hv. change (curSeq s0) with (u32 (li_seq (pc_previousLedger s) + 1)).
  change (pc_view s0) with (pc_view s). rewrite B1, B3, Hl. set (s1 := s0 {{ pc_txSetCached := _ }}).
  destruct (count_close_time_frame (pq_prop p) s1) as [raw ->]. set (s2 := s1 {{ pc_rawCloseTimes := raw }}).
  rewrite (use_set_first p s2 Hp Hr). unfold gotTxSet.
  rewrite decide_False by done. cbv zeta.
  match goal with |- before_leader _ (if decide (pc_setID ?x = _) then _ else _) => set (s3 := x) end.
  assert (F : pc_setID s3 = None /\ before_leader ({[pq_key p]} ∪ K) s3).
  { assert (Hcached : default ∅ (pc_txSetCached s2 !! id) = {[pq_key p]} ∪ K).
    { change (pc_txSetCached s2) with (vote_for id (pq_key p) (pc_txSetCached s)). unfold vote_for. rewrite lookup_insert_eq. simpl. by rewrite Hc. }
    unfold s3. case_match; (split; [done|]); (split; [by constructor|]); done. }
  destruct F as [F1 F2]. rewrite F1, decide_False by done. done.
Qed.

(** Our own vote, once the leader's set is at hand. *)
Lemma follow_voting K now s :
  on_round s -> pc_result s = None -> pc_setID s = Some id -> pc_closeTime s = closeTime ->
  pc_txSetVoted s !! id = Some K -> voting K (follow_leader nodeID valPublic id now set s).
Proof.
  intros [B1 B2 B3 B4 B5 B6 B7] Hr Hs Hc Hv. unfold follow_leader. cbv zeta. set (position := mkProposeSet _ _ _ _ _ _ _ _ _).
  set (s1 := if decide (pc_phase s = ph_open) then _ else s).
  assert (F : pc_validating s1 = true /\ on_round s1 /\ pc_setID s1 = Some id /\ pc_txSetVoted s1 !! id = Some K)
    by (unfold s1; case_decide; (split; [done|]); (split; [by constructor|]); done).
  destruct F as (F1 & [C1 C2 C3 C4 C5 C6 C7] & F3 & F4). rewrite F1. split; [by constructor|].
  split; [eexists; split; [done | by split_and!]|]. split; [done|].
  match goal with |- pc_txSetVoted ?x !! _ = _ => change (pc_txSetVoted x) with (vote_for id valPublic (pc_txSetVoted s1)) end.
  unfold vote_for. rewrite lookup_insert_eq, F4. done.
Qed.

Lemma receive_leader K s p :
  before_leader K s -> vote p -> isLeader env (pq_key p) seq view = true ->
  if pe_quorum env <=? Z.of_nat (size ({[valPublic]} ∪ ({[pq_key p]} ∪ K))) then decided (receive s p)
  else voting ({[pq_key p]} ∪ K) (receive s p).
Proof.
  intros (Hb & Hr & Hs & Hv & Hc) Hp Hl. rewrite (receive_eq s p Hb Hp). pose proof Hp as (V1 & V2 & V3 & V4 & V5 & V6).
  pose proof Hb as [B1 B2 B3 B4 B5 B6 B7]. unfold record_vote. cbv zeta. rewrite V1. set (s0 := s {{ pc_now := _ }}).
  change (pc_txSetVoted s0) with (pc_txSetVoted s). rewrite Hv. change (curSeq s0) with (u32 (li_seq (pc_previousLedger s) + 1)).
  change (pc_view s0) with (pc_view s). rewrite B1, B3, Hl. unfold leader_proposal. rewrite V1, (proj2 (Z.eqb_neq id 0)), andb_false_r by done.
  cbv zeta. match goal with |- context [count_close_time _ ?x] => set (s1 := x) end.
  destruct (count_close_time_frame (pq_prop p) s1) as [raw ->]. set (s2 := s1 {{ pc_rawCloseTimes := raw }}).
  rewrite (use_set_first p s2 Hp Hr). unfold gotTxSet.
  rewrite decide_False by done. cbv zeta.
  match goal with |- context [decide (pc_setID ?x = _)] => set (s3 := x) end.
  assert (F : on_round s3 /\ pc_result s3 = None /\ pc_setID s3 = Some id /\ pc_closeTime s3 = closeTime
    /\ pc_txSetVoted s3 !! id = Some ({[pq_key p]} ∪ K)).
  { assert (Hvoted : pc_txSetVoted s2 !! id = Some ({[pq_key p]} ∪ K)).
    { change (pc_txSetVoted s2) with (<[id := {[pq_key p]} ∪ default ∅ (pc_txSetCached s !! id)]> (pc_txSetVoted s)).
      by rewrite lookup_insert_eq, Hc. }
    assert (Hct : pc_closeTime s2 = closeTime) by exact (V6 Hl). unfold s3. case_match; (split; [by constructor|]); done. }
  destruct F as (F1 & F2 & F3 & F4 & F5). rewrite decide_True, F2 by done. pose proof F1 as [C1 C2 C3 _ _ _ _].
  unfold curSeq. rewrite C1, C3, Hself. pose proof (follow_voting _ (pc_now s2) s3 F1 F2 F3 F4 F5) as Hvt.
  destruct (pc_result (follow_leader _ _ _ _ _ s3)) eqn:Hres; [by apply counting | by destruct Hvt as (_ & (r & ? & _) & _); congruence].
Qed.

Lemma receive_decided s p : decided s -> decided (receive s p).
Proof.
  intros (Hp & r & cr & raw & m & He & Hg). cbn [peerProposal]. unfold peerProposalInternal. cbv zeta.
  destruct (waitingForInit env s); [by split; [|exists r, cr, raw, m]|]. rewrite decide_True by done. cbn [snd].
  assert (F : pc_phase (checkSaveNextProposal env p s) = pc_phase s /\ exists es, pc_effects (checkSaveNextProposal env p s) = pc_effects s ++ es).
  { unfold checkSaveNextProposal. cbv zeta.
    assert (K : exists es, pc_effects s = pc_effects s ++ es) by (exists []; by rewrite app_nil_r).
    destruct (_ || _); [|done]. destruct (pc_proposalCache s !! _); [|done]. destruct (_ >=? _); [|done]. split; [done|]. by eexists. }
  destruct F as [F1 [es F2]]. split; [by rewrite F1|]. exists r, cr, raw, m. split; [|done]. rewrite F2. apply elem_of_app. by left.
Qed.

Lemma all_decided ps s : decided s -> decided (fold_left receive ps s).
Proof. revert s. induction ps as [|p ps IH]; intros s H; [done|]. by apply IH, receive_decided. Qed.

Lemma voting_decides ps K s :
  voting K s -> Forall vote ps -> NoDup (pq_key <$> ps) -> (forall p, p ∈ ps -> pq_key p ∉ {[valPublic]} ∪ K) ->
  Z.of_nat (size ({[valPublic]} ∪ K)) < pe_quorum env <= Z.of_nat (size ({[valPublic]} ∪ K)) + Z.of_nat (length ps) ->
  decided (fold_left receive ps s).
Proof.
  intros H Hv. revert K s H. induction Hv as [|p ps Hp _ IH]; intros K s H Hn Hk Hq; [simpl in Hq; lia|].
  apply NoDup_cons in Hn as [Hp1 Hn]. cbn [fold_left]. assert (Hpk : pq_key p ∉ {[valPublic]} ∪ K) by (apply Hk; by left).
  pose proof (receive_voting K s p H Hp Hpk) as Hstep. set (votes := {[valPublic]} ∪ ({[pq_key p]} ∪ K)) in *.
  assert (Hsz : size votes = S (size ({[valPublic]} ∪ K))).
  { replace votes with ({[pq_key p]} ∪ ({[valPublic]} ∪ K)) by (apply leibniz_equiv; set_solver).
    rewrite size_union by set_solver. by rewrite size_singleton. }
  destruct (Z.leb_spec (pe_quorum env) (Z.of_nat (size votes))) as [|Hlt]; [by apply all_decided|].
  apply (IH _ _ Hstep Hn); [|simpl length in Hq; fold votes; lia]. intros q Hq'. specialize (Hk q ltac:(by right)).
  assert (pq_key q <> pq_key p) by (intros E; apply Hp1; rewrite <- E; by apply list_elem_of_fmap_2). set_solver.
Qed.

Lemma round_decides ps K s :
  before_leader K s -> Forall vote ps -> NoDup (pq_key <$> ps) -> (forall p, p ∈ ps -> pq_key p ∉ {[valPublic]} ∪ K) ->
  (exists p, p ∈ ps /\ isLeader env (pq_key p) seq view = true) -> valPublic ∉ K ->
  pe_quorum env <= 1 + Z.of_nat (size K) + Z.of_nat (length ps) -> decided (fold_left receive ps s).
Proof.
  intros H Hv. revert K s H. induction Hv as [|p ps Hp Hps IH]; intros K s H Hn Hk (l & Hin & Hl) Hs Hq; [by apply elem_of_nil in Hin|].
  apply NoDup_cons in Hn as [Hp1 Hn]. cbn [fold_left]. assert (Hpk : pq_key p ∉ {[valPublic]} ∪ K) by (apply Hk; by left).
  assert (Hrest : forall q, q ∈ ps -> pq_key q ∉ {[valPublic]} ∪ ({[pq_key p]} ∪ K)).
  { intros q Hq'. specialize (Hk q ltac:(by right)).
    assert (pq_key q <> pq_key p) by (intros E; apply Hp1; rewrite <- E; by apply list_elem_of_fmap_2). set_solver. }
  assert (Hsz : size ({[pq_key p]} ∪ K) = S (size K)) by (rewrite size_union by set_solver; by rewrite size_singleton).
  simpl length in Hq. destruct (isLeader env (pq_key p) seq view) eqn:Hlead.
  - pose proof (receive_leader K s p H Hp Hlead) as Hstep.
    assert (Hsz2 : size ({[valPublic]} ∪ ({[pq_key p]} ∪ K)) = S (S (size K))) by (rewrite size_union, size_singleton, Hsz by set_solver; done).
    rewrite Hsz2 in Hstep. destruct (Z.leb_spec (pe_quorum env) (Z.of_nat (S (S (size K))))); [by apply all_decided|].
    apply (voting_decides ps ({[pq_key p]} ∪ K)); [done.. | rewrite Hsz2; lia].
  - apply (IH ({[pq_key p]} ∪ K)); [by apply receive_other | done | done | | set_solver | rewrite Hsz; lia].
    apply elem_of_cons in Hin as [->|Hin]; [congruence | by exists l].
Qed.

End Round.
