(* ===== verification/PopTheorems.v ===== *)
(** * Proof-of-peers consensus: theorems

    What every acceptance and every view change rests on, and where the code departs
    from what it means to do. *)

From S2P Require Import Prelude HsTypes ConsensusTypes HsVerifier LedgerTiming RpcaTypes ViewChange ViewChangeProps Pop PopProps PopRound.
From coqutil Require Import Datatypes.RecordSetters.
Import DoubleBraceUpdate.

#[local] Open Scope Z_scope.

(** ** Runs *)

Definition envs_of (events : list (PopEnv * PopEvent)) (env : PopEnv) : Prop := env ∈ events.*1.
Definition positions_of (events : list (PopEnv * PopEvent)) (p : PopPosition) : Prop :=
  PeerMessage true (MProposeSet (Some p)) ∈ events.*2.
Definition requests_of (events : list (PopEnv * PopEvent)) (v : STViewChange) : Prop :=
  PeerMessage true (MViewChange (Some v)) ∈ events.*2.

Section Runs.

Context {TS : TxSetOps} (nodeID : Z) (valPublic : Bytes) (calcNodeID : Bytes -> Z).

Lemma reachable events id l :
  Inv valPublic (envs_of events) (positions_of events) (requests_of events) (pop_run nodeID valPublic calcNodeID events (Pop_new id l)).
Proof.
  apply inv_run; [|apply inv_new]. apply Forall_forall. intros [env e] Hx. pose proof (list_elem_of_fmap_2 snd _ _ Hx) as He.
  split; [exact (list_elem_of_fmap_2 fst _ _ Hx)|]. simpl in *. by destruct e as [| |[] [[]|[]| | | |]| | |].
Qed.

(** C16: every ledger a node accepts follows a leader.  The result has the ledger number and
    view of its position and the set and close time of a leader's proposal, unless the
    node led the view itself; and a result accepted by votes has validators, as many as the
    quorum after it is narrowed to an [int], whose proposals, of that ledger number and
    view, name one set: the set of the result, unless a leader proposed yet another one.  A
    quorum below 2^31 is not changed by the narrowing. *)
Theorem pop_accept_justified events id l r prev closeResolution raw m :
  OnAccept r prev closeResolution raw m ∈ pc_effects (pop_run nodeID valPublic calcNodeID events (Pop_new id l)) ->
  let seq := u32 (li_seq prev + 1) in
  let view := pp_view (rs_position r) in
  result_ok valPublic (envs_of events) (positions_of events) seq view r /\
  (rs_state r = cs_Yes ->
   exists set env (votes : gset Bytes),
     envs_of events env /\ i32 (pe_quorum env) <= Z.of_nat (size votes)
     /\ (0 <= pe_quorum env < 2 ^ 31 -> pe_quorum env <= Z.of_nat (size votes))
     /\ (forall k, k ∈ votes -> voted_for valPublic (positions_of events) seq view set k)
     /\ ballot_ok (envs_of events) (positions_of events) seq view r set).
Proof.
  intros He. pose proof (inv_effects _ _ _ _ _ (reachable events id l)) as Hi. rewrite Forall_forall in Hi.
  destruct (Hi _ He) as [Hok Hy]. split; [exact Hok|]. intros Hs. destruct (Hy Hs) as (set & (env & votes & Henv & Hv & Hk) & Hb).
  exists set, env, votes. split_and!; try done. intros Hq. by rewrite i32_small in Hv by lia.
Qed.

(** C18: a node leaves view 0 of a round only for a view that a quorum of validators has
    asked for, all of them on one ledger, its own key counting among them; and the requests
    it holds are the ones it received or made, each under its author and its view. *)
Theorem pop_view_justified events id l :
  let s := pop_run nodeID valPublic calcNodeID events (Pop_new id l) in
  (pc_view s <> 0 -> quorum_asked valPublic (envs_of events) (requests_of events) (pc_view s))
  /\ forall view k v, stored (pc_viewChangeManager s) view k = Some v ->
       (requests_of events v \/ vc_nodePublic v = valPublic) /\ vc_toView v = view /\ vc_nodePublic v = k.
Proof.
  intros s. pose proof (reachable events id l) as H. split; [|apply H]. intros Hv. by destruct (inv_view _ _ _ _ _ H).
Qed.


(** ** Departures *)

(** C40: the quorum is narrowed to an [int].  While a publisher's list is missing the quorum
    is the largest [size_t], so that no number of validators reaches it; as an [int] it is
    -1, and any result is accepted as agreed upon, whatever votes there are. *)
Theorem missing_list_accepts env s r set unlSize :
  pe_quorum env = calculateQuorum [false] unlSize ->
  pc_phase s <> ph_accepted -> pc_result s = Some r -> pc_setID s = Some set ->
  exists r', pc_effects (checkVoting env s)
    = pc_effects s ++ [OnAccept r' (pc_previousLedger s) (pc_closeResolution s) (pc_rawCloseTimes s) (pc_mode s)]
    /\ rs_state r' = cs_Yes /\ rs_txns r' = rs_txns r /\ pc_phase (checkVoting env s) = ph_accepted.
Proof.
  intros Hq Hp Hr Hid. rewrite (checkVoting_eq env s r set Hp Hr Hid). set (votes := default ∅ _).
  assert (Ho : outcome env s votes = cs_Yes).
  { unfold outcome. rewrite Hq. change (i32 (calculateQuorum [false] unlSize)) with (-1). by rewrite Z.geb_leb, (proj2 (Z.leb_le (-1) _)) by lia. }
  rewrite decide_False by (by rewrite Ho). by exists (judged env s r votes).
Qed.

Lemma delete_untrusted_frame env gone s :
  pc_result s = None ->
  let s' := onDeleteUntrusted calcNodeID env gone s in
  pc_txSetCached s' = pc_txSetCached s /\ curSeq s' = curSeq s /\ pc_view s' = pc_view s
  /\ forall id, pc_txSetVoted s !! id = None -> pc_txSetVoted s' !! id = None.
Proof.
  intros Hr. unfold onDeleteUntrusted. cbv zeta. destruct (pc_setID s) as [id|]; [|by rewrite Hr].
  destruct (pc_txSetVoted s !! id) as [votes|] eqn:Hv; [|by rewrite Hr].
  match goal with |- context [pc_result ?x] => set (s1 := x); change (pc_result s1) with (pc_result s) end. rewrite Hr.
  split_and!; [done..|]. intros id' Hn.
  change (pc_txSetVoted s1) with (<[id := filter (fun k => calcNodeID k ∉ gone) votes]> (pc_txSetVoted s)).
  by rewrite lookup_insert_ne by congruence.
Qed.

(** votes of validators that lost their trust stay.  The loop that should drop them from
    the votes cached for sets the leader has not proposed yet works on copies: after
    [onDeleteUntrusted] the leader's proposal still turns such a vote into a counted one. *)
Theorem untrusted_vote_counted env env' gone s pos k :
  pc_result s = None -> calcNodeID k ∈ gone ->
  k ∈ default ∅ (pc_txSetCached s !! pp_position (pq_prop pos)) ->
  isLeader env' (pq_key pos) (curSeq s) (pc_view s) = true ->
  pc_txSetVoted s !! pp_position (pq_prop pos) = None -> pp_position (pq_prop pos) <> 0 ->
  exists s', record_vote env' pos (onDeleteUntrusted calcNodeID env gone s) = Some s'
    /\ k ∈ default ∅ (pc_txSetVoted s' !! pp_position (pq_prop pos)).
Proof.
  intros Hr _ Hc Hl Hv H0. destruct (delete_untrusted_frame env gone s Hr) as (F1 & F2 & F3 & F4).
  set (s1 := onDeleteUntrusted calcNodeID env gone s) in *. unfold record_vote. cbv zeta.
  rewrite (F4 _ Hv), F2, F3, Hl. unfold leader_proposal. rewrite (proj2 (Z.eqb_neq _ 0)), andb_false_r by done. cbv zeta.
  eexists. split; [done|].
  match goal with |- context [pc_txSetVoted ?x !! ?i] =>
    change (pc_txSetVoted x) with (<[i := {[pq_key pos]} ∪ default ∅ (pc_txSetCached s1 !! i)]> (pc_txSetVoted s1)) end.
  rewrite lookup_insert_eq, F1. simpl. apply elem_of_union. by right.
Qed.

(** Requests that trigger a change to a view the node did not ask for. *)
Lemma trigger_first toView quorum m v :
  trigger_loop quorum ∅ (by_key (requests m toView)) = Some v -> quorum <= Z.of_nat (size (requests m toView)) ->
  0 < vc_prevSeq v -> (shouldTriggerViewChange toView quorum m).1 = (true, vc_prevSeq v, vc_prevHash v).
Proof.
  intros Ht Hq Hs. unfold shouldTriggerViewChange. cbn [fst]. rewrite Z.geb_leb, (proj2 (Z.leb_le _ _)) by done. rewrite Ht.
  by rewrite Z.gtb_ltb, (proj2 (Z.ltb_lt _ _)) by done.
Qed.

(** a node can fall back to an earlier view.  When a quorum of requests on its ledger for a
    view it is not itself asking for is complete, it changes to that view without comparing
    it with its own, so that requests that arrive late take it back. *)
Theorem view_falls_back env v s first :
  let m := (recvViewChange v (pc_viewChangeManager s)).2 in
  let w := vc_toView v in
  waitingForInit env s = false -> pc_phase s <> ph_accepted -> pc_toView s <> w -> w < pc_view s ->
  trigger_loop (pe_quorum env) ∅ (by_key (requests m w)) = Some first ->
  pe_quorum env <= Z.of_nat (size (requests m w)) ->
  vc_prevSeq first = li_seq (pc_previousLedger s) -> vc_prevHash first = li_hash (pc_previousLedger s) ->
  0 < li_seq (pc_previousLedger s) ->
  pc_view (peerViewChangeInternal nodeID valPublic env v s).2 = w.
Proof.
  intros m w Hi Hp Ht _ Hl Hq Hs Hh H0. unfold peerViewChangeInternal. cbv zeta. set (s1 := s {{ pc_viewChangeManager := _ }}).
  change (waitingForInit env s1) with (waitingForInit env s). rewrite Hi. cbn [snd].
  change (pc_view (checkChangeView nodeID valPublic env w s1) = w). unfold checkChangeView. rewrite decide_False by done.
  change (pc_toView s1) with (pc_toView s). rewrite (proj2 (Z.eqb_neq _ _)) by done.
  pose proof (trigger_first w (pe_quorum env) m first Hl Hq ltac:(lia)) as Htr. change (pc_viewChangeManager s1) with m.
  destruct (shouldTriggerViewChange w (pe_quorum env) m) as [[[ok seq] hash] m']. cbn [fst] in Htr. injection Htr as -> -> ->.
  set (s2 := s1 {{ pc_viewChangeManager := m' }}). change (pc_previousLedger s2) with (pc_previousLedger s).
  rewrite Hs, Hh, Z.ltb_irrefl, !Z.eqb_refl. apply onViewChange_view.
Qed.

(** One request decides the ledger number of a view change.  The number is that of the
    request that completes the quorum in the order of the keys; if its author gives a higher
    number with the hash of the node's own ledger, the node treats its ledger as wrong and
    bows out of the round, and does not change its view. *)
Theorem forged_seq_bows_out env v s first :
  let m := (recvViewChange v (pc_viewChangeManager s)).2 in
  let w := vc_toView v in
  waitingForInit env s = false -> pc_phase s <> ph_accepted -> pc_toView s <> w -> pc_mode s = proposing ->
  trigger_loop (pe_quorum env) ∅ (by_key (requests m w)) = Some first ->
  pe_quorum env <= Z.of_nat (size (requests m w)) ->
  0 <= li_seq (pc_previousLedger s) < vc_prevSeq first -> vc_prevHash first = li_hash (pc_previousLedger s) ->
  pc_prevLedgerID s = li_hash (pc_previousLedger s) ->
  pe_acquireLedger env (vc_prevHash first) = Some (pc_previousLedger s) -> pe_isCompatible env (pc_previousLedger s) = true ->
  let s' := (peerViewChangeInternal nodeID valPublic env v s).2 in
  pc_mode s' = observing /\ pc_view s' = pc_view s /\ pc_previousLedger s' = pc_previousLedger s.
Proof.
  intros m w Hi Hp Ht Hm Hl Hq Hs Hh Hid Ha Hc. unfold peerViewChangeInternal. cbv zeta. set (s1 := s {{ pc_viewChangeManager := _ }}).
  change (waitingForInit env s1) with (waitingForInit env s). rewrite Hi. cbn [snd]. set (s' := checkChangeView nodeID valPublic env w s1).
  change (pc_mode s' = observing /\ pc_view s' = pc_view s /\ pc_previousLedger s' = pc_previousLedger s). unfold s', checkChangeView.
  rewrite decide_False by done. change (pc_toView s1) with (pc_toView s). rewrite (proj2 (Z.eqb_neq _ _)) by done.
  pose proof (trigger_first w (pe_quorum env) m first Hl Hq ltac:(lia)) as Htr. change (pc_viewChangeManager s1) with m.
  destruct (shouldTriggerViewChange w (pe_quorum env) m) as [[[ok seq] hash] m']. cbn [fst] in Htr. injection Htr as -> -> ->.
  set (s2 := s1 {{ pc_viewChangeManager := m' }}). change (pc_previousLedger s2) with (pc_previousLedger s).
  rewrite (proj2 (Z.ltb_lt _ _)) by lia. cbn [negb]. unfold handleWrongLedger. rewrite Ha, Hc. cbn [negb]. cbv zeta.
  set (s3 := leaveConsensus _).
  assert (H3 : pc_mode s3 = observing /\ pc_view s3 = pc_view s /\ pc_previousLedger s3 = pc_previousLedger s /\ pc_prevLedgerID s3 = pc_prevLedgerID s).
  { unfold s3, leaveConsensus. rewrite decide_True by done. cbv zeta. unfold mode_set.
    repeat case_decide; repeat case_match; done. }
  destruct H3 as (F1 & F2 & F3 & F4). rewrite F4, Hid, Hh, Z.eqb_refl, F3, F4, Hid, Z.eqb_refl. done.
Qed.

End Runs.

(** ** A small network

    Four validators with one-byte keys, of which we are the last; the first one leads the
    ledger with number 12 in view 0. *)
Module ToyPop.

#[export] Instance sets : TxSetOps := {| set_id s := Z.of_nat (size s); truncated := differences |}.

Definition one : TxSet := {[1 := [1]]}.
Definition two : TxSet := {[1 := [1]; 2 := [2]]}.

Definition ledger : LedgerInfo := mkLedgerInfo 11 900 77 0 0 0 0 0 true true false 0 10 950.

Definition validators : list Bytes := [[1]; [2]; [3]; [4]].

Definition env (quorum : Z) : PopEnv :=
  mkPopEnv 0 5000 1001 (mkPopParms 1000 1000 10000 3000 0 true false) validators quorum
    (fun h => if h =? 77 then Some ledger else None) (fun _ => true) (fun _ => None) (fun id _ _ => id)
    (fun _ => 0) (fun _ _ => 0) (fun id => if id =? 1 then Some one else if id =? 2 then Some two else None)
    (Some ledger) 11 true 0 (fun _ _ => []) (fun _ => None) (fun _ _ => None) false (fun _ => 0) (fun _ s => s)
    (fun _ => (true, true)).

Definition position (key : Bytes) (set view : Z) : PopPosition :=
  mkPopPosition (mkPeerPos key [] 0 (mkProposeSet 0 set 77 1005 1001 0 key 12 view)) None.

Definition request (key : Bytes) (seq view : Z) : STViewChange := mkViewChange seq 77 view key 11.

Definition start : list (PopEnv * PopEvent) := [(env 3, Validating true); (env 3, StartRound 1000 77 ledger true)].

Definition vote (key : Bytes) (set : Z) : PopEnv * PopEvent :=
  (env 3, PeerMessage true (MProposeSet (Some (position key set 0)))).
Definition ask (key : Bytes) (seq view : Z) : PopEnv * PopEvent :=
  (env 3, PeerMessage true (MViewChange (Some (request key seq view)))).

Definition node (events : list (PopEnv * PopEvent)) : Pop :=
  pop_run 4 [4] (fun k => default 0 (head k)) events (Pop_new 0 LedgerInfo_default).

(** The result of the last effect, if it is an acceptance. *)
Definition accepted (s : Pop) : option (ConsensusState * Z) :=
  match last (pc_effects s) with
  | Some (OnAccept r _ _ _ _) => Some (rs_state r, set_id (rs_txns r))
  | _ => None
  end.

Definition round : list (PopEnv * PopEvent) := start ++ [vote [2] 1; vote [1] 1].

End ToyPop.

#[local] Existing Instance ToyPop.sets.

(** a leader that proposes two sets splits acceptance from the votes.  A node that has taken
    its position on the first set goes over to counting the votes for the second one, and
    accepts the first set as agreed upon by a quorum that voted for the second. *)
Theorem leader_equivocation_accepted :
  let s := ToyPop.node (ToyPop.start ++ [ToyPop.vote [1] 1; ToyPop.vote [1] 2; ToyPop.vote [2] 2; ToyPop.vote [3] 2]) in
  ToyPop.accepted s = Some (cs_Yes, 1)
  /\ pc_txSetVoted s !! 1 = Some {[ [1]; [4] ]} /\ pc_txSetVoted s !! 2 = Some {[ [1]; [2]; [3] ]}.
Proof. by vm_compute. Qed.

(** ** Witnesses *)

Lemma pop_accept_justified_witness :
  exists r prev c raw m, OnAccept r prev c raw m ∈ pc_effects (ToyPop.node ToyPop.round) /\ rs_state r = cs_Yes /\
    exists set env (votes : gset Bytes),
      envs_of ToyPop.round env /\ pe_quorum env <= Z.of_nat (size votes)
      /\ (forall k, k ∈ votes -> voted_for [4] (positions_of ToyPop.round) (u32 (li_seq prev + 1)) (pp_view (rs_position r)) set k).
Proof.
  assert (Hr : exists r prev c raw m, OnAccept r prev c raw m ∈ pc_effects (ToyPop.node ToyPop.round) /\ rs_state r = cs_Yes).
  { eexists _, _, _, _, _. split; [vm_compute; repeat first [apply list_elem_of_here | apply list_elem_of_further] | done]. }
  destruct Hr as (r & prev & c & raw & m & He & Hy). exists r, prev, c, raw, m. split; [done|]. split; [done|].
  destruct (pop_accept_justified (TS := ToyPop.sets) 4 [4] (fun k => default 0 (head k)) ToyPop.round 0 LedgerInfo_default r prev c raw m He) as [_ H].
  destruct (H Hy) as (set & env & votes & H1 & _ & H2 & H3 & _). exists set, env, votes. split; [exact H1|]. split; [|exact H3]. apply H2.
  unfold envs_of in H1. simpl in H1. set_unfold in H1. destruct H1 as [->|[->|[->|[->|[]]]]]; done.
Defined.

Lemma pop_view_justified_witness :
  let events := ToyPop.start ++ [ToyPop.ask [1] 11 1; ToyPop.ask [2] 11 1; ToyPop.ask [3] 11 1] in
  pc_view (ToyPop.node events) = 1 /\ quorum_asked [4] (envs_of events) (requests_of events) 1.
Proof.
  intros events. assert (Hv : pc_view (ToyPop.node events) = 1) by by vm_compute. split; [exact Hv|].
  rewrite <- Hv. apply (pop_view_justified (TS := ToyPop.sets) 4 [4] (fun k => default 0 (head k)) events 0 LedgerInfo_default).
  by vm_compute.
Defined.


Lemma missing_list_accepts_witness :
  let s := ToyPop.node (ToyPop.start ++ [ToyPop.vote [1] 1]) in
  pc_txSetVoted s !! 1 = Some {[ [1]; [4] ]} /\
  exists r', rs_state r' = cs_Yes /\ rs_txns r' = ToyPop.one /\ pc_phase (checkVoting (ToyPop.env (2 ^ 64 - 1)) s) = ph_accepted.
Proof.
  intros s. split; [by vm_compute|]. destruct (pc_result s) as [r|] eqn:Hr; [|by vm_compute in Hr].
  destruct (missing_list_accepts (ToyPop.env (2 ^ 64 - 1)) s r 1 4) as (r' & _ & H1 & H2 & H3); [done | by vm_compute | done | by vm_compute |].
  exists r'. split; [done|]. split; [|done]. rewrite H2. vm_compute in Hr. by injection Hr as <-.
Defined.

Lemma untrusted_vote_counted_witness :
  let s := ToyPop.node (ToyPop.start ++ [ToyPop.vote [3] 1]) in
  exists s', record_vote (ToyPop.env 3) (ToyPop.position [1] 1 0) (onDeleteUntrusted (fun k => default 0 (head k)) (ToyPop.env 3) {[3]} s) = Some s'
    /\ [3] ∈ default ∅ (pc_txSetVoted s' !! 1).
Proof.
  intros s. apply (untrusted_vote_counted (fun k => default 0 (head k)) (ToyPop.env 3) (ToyPop.env 3) {[3]} s (ToyPop.position [1] 1 0) [3]);
    by vm_compute.
Defined.

Lemma view_falls_back_witness :
  let s := ToyPop.node (ToyPop.start ++ [ToyPop.ask [1] 11 2; ToyPop.ask [2] 11 2; ToyPop.ask [3] 11 2; ToyPop.ask [1] 11 1; ToyPop.ask [2] 11 1]) in
  pc_view s = 2 /\ pc_view (peerViewChangeInternal 4 [4] (ToyPop.env 3) (ToyPop.request [3] 11 1) s).2 = 1.
Proof.
  intros s. split; [by vm_compute|].
  apply (view_falls_back (TS := ToyPop.sets) 4 [4] (ToyPop.env 3) (ToyPop.request [3] 11 1) s (ToyPop.request [3] 11 1)); by vm_compute.
Defined.

Lemma forged_seq_bows_out_witness :
  let s := ToyPop.node (ToyPop.start ++ [ToyPop.ask [1] 11 1; ToyPop.ask [2] 11 1]) in
  pc_mode s = proposing
  /\ let s' := (peerViewChangeInternal 4 [4] (ToyPop.env 3) (ToyPop.request [3] 99 1) s).2 in
     pc_mode s' = observing /\ pc_view s' = pc_view s /\ pc_previousLedger s' = pc_previousLedger s.
Proof.
  intros s. split; [by vm_compute|].
  apply (forged_seq_bows_out (TS := ToyPop.sets) 4 [4] (ToyPop.env 3) (ToyPop.request [3] 99 1) s (ToyPop.request [3] 99 1)); by vm_compute.
Defined.
