(* ===== verification/Rlp.v ===== *)
(** * The RLP codec (RLP, RLPStream)

    Recursive length-prefix encoding, the wire format of Ethereum transactions: the
    reader [RLP] and the writer [RLPStream] of [src/src/eth/tools/RLP.h] and
    [RLP.cpp].  A [bytesConstRef] is the bytes it refers to, empty for a null one; the
    iterator, which compares addresses, works on positions in its parent's bytes.  An
    exception is a value of [RlpError]; [NullRead] and [NoFuel] are no exceptions of the
    code: a read through a null reference, and the end of the fuel of a loop.
    [size_t] has 64 bits. *)

From S2P Require Import Prelude.
From coqutil Require Import Datatypes.RecordSetters.
Import DoubleBraceUpdate.

#[local] Open Scope Z_scope.

(** ** Results *)

Inductive RlpError := BadRLP | OversizeRLP | UndersizeRLP | BadCast | RLPException | NullRead | NoFuel.

Inductive Res (A : Type) :=
| Ok (a : A)
| Throw (e : RlpError).
Arguments Ok {A} a.
Arguments Throw {A} e.

#[export] Instance Res_ret : MRet Res := fun A => Ok.
#[export] Instance Res_bind : MBind Res := fun A B f r => match r with Ok a => f a | Throw e => Throw e end.

(** A condition under which the code throws. *)
Definition throw_if (b : bool) (e : RlpError) : Res unit := if b then Throw e else Ok tt.

Definition size (d : Bytes) : Z := Z.of_nat (length d).

(** [vector_ref::cropped]: out of bounds, an empty reference. *)
Definition cropped (d : Bytes) (b c : Z) : Bytes :=
  if (b <=? size d) && (c <=? size d) && (b + c <=? size d) then take (Z.to_nat c) (drop (Z.to_nat b) d) else [].
Definition cropped_from (d : Bytes) (b : Z) : Bytes := if b <=? size d then drop (Z.to_nat b) d else [].

(** [bytesRequired]: how often the value can be shifted by a byte. *)
Fixpoint bytes_loop (fuel : nat) (i : Z) : nat :=
  match fuel with
  | O => O
  | S fuel => if i =? 0 then O else S (bytes_loop fuel (Z.shiftr i 8))
  end.
Definition bytesRequired (i : Z) : nat := bytes_loop (S (Z.to_nat (Z.log2 i))) i.

(** [fromBigEndian] into an unsigned integer of [bits] bits. *)
Definition fromBigEndian (bits : Z) (d : Bytes) : Z :=
  fold_left (fun ret b => Z.lor (Z.shiftl ret 8) b mod 2 ^ bits) d 0.

(** ** Constants *)

Definition c_rlpMaxLengthBytes : Z := 8.
Definition c_rlpDataImmLenStart : Z := 128.
Definition c_rlpListStart : Z := 192.
Definition c_rlpDataImmLenCount : Z := Eval cbv in c_rlpListStart - c_rlpDataImmLenStart - c_rlpMaxLengthBytes.
Definition c_rlpDataIndLenZero : Z := Eval cbv in c_rlpDataImmLenStart + c_rlpDataImmLenCount - 1.
Definition c_rlpListImmLenCount : Z := Eval cbv in 256 - c_rlpListStart - c_rlpMaxLengthBytes.
Definition c_rlpListIndLenZero : Z := Eval cbv in c_rlpListStart + c_rlpListImmLenCount - 1.

(** The flags of a conversion. *)
Definition AllowNonCanon : Z := 1.
Definition ThrowOnFail : Z := 4.
Definition FailIfTooBig : Z := 8.
Definition FailIfTooSmall : Z := 16.
Definition Strict : Z := Eval cbv in Z.lor ThrowOnFail FailIfTooBig.
Definition VeryStrict : Z := Eval cbv in Z.lor (Z.lor ThrowOnFail FailIfTooBig) FailIfTooSmall.

Definition has (flags f : Z) : bool := negb (Z.land flags f =? 0).

(** ** Reading *)

Definition byte_at (d : Bytes) (i : Z) : Z := nth (Z.to_nat i) d 0.

Definition isNull (d : Bytes) : bool := size d =? 0.
Definition isEmpty (d : Bytes) : bool :=
  negb (isNull d) && ((byte_at d 0 =? c_rlpDataImmLenStart) || (byte_at d 0 =? c_rlpListStart)).
Definition isData (d : Bytes) : bool := negb (isNull d) && (byte_at d 0 <? c_rlpListStart).
Definition isList (d : Bytes) : bool := negb (isNull d) && (byte_at d 0 >=? c_rlpListStart).
Definition isSingleByte (d : Bytes) : bool := negb (isNull d) && (byte_at d 0 <? c_rlpDataImmLenStart).

Definition requireGood (d : Bytes) : Res unit :=
  throw_if (isNull d) BadRLP ≫= fun _ =>
  if negb (byte_at d 0 =? c_rlpDataImmLenStart + 1) then Ok tt
  else
    throw_if (size d <? 2) BadRLP ≫= fun _ =>
    throw_if (byte_at d 1 <? c_rlpDataImmLenStart) BadRLP.

(** The length read from [lengthSize] bytes after the first one. *)
Definition long_length (d : Bytes) (lengthSize least : Z) : Res Z :=
  throw_if (size d <=? lengthSize) BadRLP ≫= fun _ =>
  throw_if ((size d >? 1) && (byte_at d 1 =? 0)) BadRLP ≫= fun _ =>
  throw_if (lengthSize >? 8) UndersizeRLP ≫= fun _ =>
  throw_if (byte_at d 1 =? 0) BadRLP ≫= fun _ =>
  let ret := fromBigEndian 64 (take (Z.to_nat lengthSize) (drop 1 d)) in
  throw_if (ret <? least) BadRLP ≫= fun _ =>
  throw_if (ret >=? 2 ^ 64 - 1 - 256) UndersizeRLP ≫= fun _ => Ok ret.

Definition rlp_length (d : Bytes) : Res Z :=
  if isNull d then Ok 0
  else
    requireGood d ≫= fun _ =>
    let n := byte_at d 0 in
    if n <? c_rlpDataImmLenStart then Ok 1
    else if n <=? c_rlpDataIndLenZero then Ok (n - c_rlpDataImmLenStart)
    else if n <? c_rlpListStart then
      long_length d (n - c_rlpDataIndLenZero) (c_rlpListStart - c_rlpDataImmLenStart - c_rlpMaxLengthBytes)
    else if n <=? c_rlpListIndLenZero then Ok (n - c_rlpListStart)
    else long_length d (n - c_rlpListIndLenZero) (256 - c_rlpListStart - c_rlpMaxLengthBytes).

Definition lengthSize (d : Bytes) : Z :=
  if isData d && (byte_at d 0 >? c_rlpDataIndLenZero) then byte_at d 0 - c_rlpDataIndLenZero
  else if isList d && (byte_at d 0 >? c_rlpListIndLenZero) then byte_at d 0 - c_rlpListIndLenZero
  else 0.

Definition payloadOffset (d : Bytes) : Z := if isSingleByte d then 0 else 1 + lengthSize d.

Definition payload (d : Bytes) : Res Bytes :=
  rlp_length d ≫= fun l =>
  throw_if (l >? size d) BadRLP ≫= fun _ => Ok (cropped d (payloadOffset d) l).

Definition actualSize (d : Bytes) : Res Z :=
  if isNull d then Ok 0
  else if isSingleByte d then Ok 1
  else if isData d || isList d then rlp_length d ≫= fun l => Ok (payloadOffset d + l)
  else Ok 0.

(** The constructor: the data kept. *)
Definition RLP_of (d : Bytes) (s : Z) : Res Bytes :=
  (if has s FailIfTooBig then
     actualSize d ≫= fun a =>
     if a <? size d then (if has s ThrowOnFail then Throw OversizeRLP else Ok []) else Ok d
   else Ok d) ≫= fun m =>
  if has s FailIfTooSmall then
    actualSize m ≫= fun a =>
    if a >? size d then (if has s ThrowOnFail then Throw UndersizeRLP else Ok []) else Ok m
  else Ok m.

Definition sizeAsEncoded (d : Bytes) : Res Z := RLP_of d (Z.lor ThrowOnFail FailIfTooSmall) ≫= actualSize.

Fixpoint items_loop (fuel : nat) (d : Bytes) (i : Z) : Res Z :=
  match d, fuel with
  | [], _ => Ok i
  | _, O => Throw NoFuel
  | _, S fuel => sizeAsEncoded d ≫= fun n => items_loop fuel (cropped_from d n) (i + 1)
  end.

Definition items (d : Bytes) : Res Z :=
  if isList d then payload d ≫= fun p => items_loop (length p) p 0 else Ok 0.

Definition itemCount (d : Bytes) : Res Z := if isList d then items d else Ok 0.
Definition itemCountStrict (d : Bytes) : Res Z := if isList d then items d else Throw BadCast.

Definition rlp_size (d : Bytes) : Res Z := if isData d then rlp_length d else Ok 0.
Definition sizeStrict (d : Bytes) : Res Z := if isData d then rlp_length d else Throw BadCast.

(** ** The subscript operator and its cache *)

Record RLP := mkRLP {
  m_data : Bytes;
  m_lastIndex : Z;
  m_lastEnd : Z;
  m_lastItem : Bytes
}.

(** A node with nothing cached. *)
Definition RLP_new (d : Bytes) : RLP := mkRLP d (2 ^ 64 - 1) 0 [].

(** One turn of the loop: the result, and the cache as far as it was updated. *)
Definition index_turn (r : RLP) : Res unit * RLP :=
  match payload (m_data r) with
  | Throw e => (Throw e, r)
  | Ok p =>
      let r := r {{ m_lastItem := cropped_from p (m_lastEnd r) }} in
      match sizeAsEncoded (m_lastItem r) with
      | Throw e => (Throw e, r)
      | Ok n =>
          let item := cropped (m_lastItem r) 0 n in
          (Ok tt, r {{ m_lastItem := item; m_lastEnd := m_lastEnd r + size item;
                       m_lastIndex := m_lastIndex r + 1 }})
      end
  end.

Fixpoint index_loop (fuel : nat) (r : RLP) (i : Z) : Res unit * RLP :=
  if (m_lastIndex r <? i) && negb (isNull (m_lastItem r)) then
    match fuel with
    | O => (Throw NoFuel, r)
    | S fuel =>
        match index_turn r with
        | (Ok _, r) => index_loop fuel r i
        | (Throw e, r) => (Throw e, r)
        end
    end
  else (Ok tt, r).

(** To the first item, when an earlier one than the last is asked for. *)
Definition index_reset (r : RLP) (i : Z) : Res unit * RLP :=
  if i <? m_lastIndex r then
    match payload (m_data r) with
    | Throw e => (Throw e, r)
    | Ok p =>
        match sizeAsEncoded p with
        | Throw e => (Throw e, r)
        | Ok n => (Ok tt, r {{ m_lastEnd := n; m_lastItem := cropped p 0 n; m_lastIndex := 0 }})
        end
    end
  else (Ok tt, r).

Definition index (r : RLP) (i : Z) : Res Bytes * RLP :=
  match index_reset r i with
  | (Throw e, r) => (Throw e, r)
  | (Ok _, r) =>
      match index_loop (S (length (m_data r))) r i with
      | (Throw e, r) => (Throw e, r)
      | (Ok _, r) => (RLP_of (m_lastItem r) (Z.lor ThrowOnFail FailIfTooSmall), r)
      end
  end.

(** ** Iterators: a position and a length in the parent's bytes, [None] when null *)

Abbreviation View := (option (Z * Z)).

Definition view_size (v : View) : Z := match v with Some (_, n) => n | None => 0 end.
Definition view_bytes (d : Bytes) (v : View) : Bytes :=
  match v with Some (p, n) => take (Z.to_nat n) (drop (Z.to_nat p) d) | None => [] end.
Definition view_cropped (v : View) (b c : Z) : View :=
  match v with
  | Some (p, n) => if (b <=? n) && (c <=? n) && (b + c <=? n) then Some (p + b, c) else None
  | None => None
  end.

(** The rest of the data behind a view. *)
Definition retarget_next (v : View) (count : Z) : View :=
  match v with Some (p, n) => Some (p + n, count) | None => None end.

Definition data_view (d : Bytes) : View := if isNull d then None else Some (0, size d).

Record iterator := mkIterator {
  m_remaining : Z;
  m_currentItem : View
}.

Definition rlp_end (d : Bytes) : iterator := mkIterator 0 (view_cropped (data_view d) (size d) 0).

Definition rlp_begin (d : Bytes) : Res iterator :=
  if isList d then
    rlp_length d ≫= fun l =>
    throw_if (l >? size d) BadRLP ≫= fun _ =>
    let pl := view_cropped (data_view d) (payloadOffset d) l in
    sizeAsEncoded (view_bytes d pl) ≫= fun n =>
    let item := view_cropped pl 0 n in
    Ok (mkIterator (view_size pl - view_size item) item)
  else Ok (rlp_end d).

Definition increment (d : Bytes) (it : iterator) : Res iterator :=
  if negb (m_remaining it =? 0) then
    let rest := retarget_next (m_currentItem it) (m_remaining it) in
    sizeAsEncoded (view_bytes d rest) ≫= fun n =>
    let item := view_cropped rest 0 n in
    Ok (mkIterator (m_remaining it - Z.min (m_remaining it) (view_size item)) item)
  else Ok (mkIterator 0 (retarget_next (m_currentItem it) 0)).

Definition deref (d : Bytes) (it : iterator) : Res Bytes := RLP_of (view_bytes d (m_currentItem it)) VeryStrict.

(** [for (auto i : rlp)]: the nodes the loop visits. *)
Fixpoint visit (fuel : nat) (d : Bytes) (it : iterator) : Res (list Bytes) :=
  if decide (m_currentItem it = m_currentItem (rlp_end d)) then Ok []
  else
    match fuel with
    | O => Throw NoFuel
    | S fuel =>
        deref d it ≫= fun item =>
        increment d it ≫= fun it =>
        visit fuel d it ≫= fun rest => Ok (item :: rest)
    end.

Definition children (d : Bytes) : Res (list Bytes) := rlp_begin d ≫= visit (length d) d.

(** ** Conversions *)

(** What a conversion that does not fit yields. *)
Definition bad_cast {A} (flags : Z) (a : A) : Res A := if has flags ThrowOnFail then Throw BadCast else Ok a.

Definition toBytes (d : Bytes) (flags : Z) : Res Bytes :=
  if negb (isData d) then bad_cast flags []
  else payload d ≫= fun p => rlp_length d ≫= fun l => if size p =? l then Ok p else Throw NullRead.

Definition toString (d : Bytes) (flags : Z) : Res Bytes :=
  if negb (isData d) then bad_cast flags []
  else payload d ≫= fun p => rlp_length d ≫= fun l => Ok (cropped p 0 l).

Definition isInt (d : Bytes) : Res bool :=
  if isNull d then Ok false
  else
    requireGood d ≫= fun _ =>
    let n := byte_at d 0 in
    if n <? c_rlpDataImmLenStart then Ok (negb (n =? 0))
    else if n =? c_rlpDataImmLenStart then Ok true
    else if n <=? c_rlpDataIndLenZero then
      throw_if (size d <=? 1) BadRLP ≫= fun _ => Ok (negb (byte_at d 1 =? 0))
    else if n <? c_rlpListStart then
      throw_if (size d <=? 1 + n - c_rlpDataIndLenZero) BadRLP ≫= fun _ =>
      Ok (negb (byte_at d (1 + n - c_rlpDataIndLenZero) =? 0))
    else Ok false.

(** Into an unsigned integer of [width] bytes. *)
Definition toInt (width : Z) (d : Bytes) (flags : Z) : Res Z :=
  requireGood d ≫= fun _ =>
  isInt d ≫= fun int =>
  if (negb int && negb (has flags AllowNonCanon)) || isList d || isNull d then bad_cast flags 0
  else
    payload d ≫= fun p =>
    if (size p >? width) && has flags FailIfTooBig then bad_cast flags 0
    else Ok (fromBigEndian (8 * width) p).

(** Into a hash of [width] bytes, padded on the left. *)
Definition toHash (width : Z) (d : Bytes) (flags : Z) : Res Bytes :=
  requireGood d ≫= fun _ =>
  payload d ≫= fun p =>
  let l := size p in
  if negb (isData d) || ((l >? width) && has flags FailIfTooBig) || ((l <? width) && has flags FailIfTooSmall)
  then bad_cast flags (replicate (Z.to_nat width) 0)
  else
    let s := Z.min width l in
    Ok (replicate (Z.to_nat (width - s)) 0 ++ take (Z.to_nat s) p).

(** A list with every item converted by [f]. *)
Fixpoint convert_all {A} (f : Bytes -> Res A) (ds : list Bytes) : Res (list A) :=
  match ds with
  | [] => Ok []
  | d :: ds => f d ≫= fun a => convert_all f ds ≫= fun rest => Ok (a :: rest)
  end.

Definition toVector {A} (f : Bytes -> Res A) (d : Bytes) (flags : Z) : Res (list A) :=
  if isList d then itemCount d ≫= fun _ => children d ≫= convert_all f else bad_cast flags [].

Definition toSet {A} `{Countable A} (f : Bytes -> Res A) (d : Bytes) (flags : Z) : Res (gset A) :=
  if isList d then (children d ≫= convert_all f) ≫= fun l => Ok (list_to_set l) else bad_cast flags ∅.

(** The first [n] items by subscripts, from index [i] on. *)
Fixpoint array_loop {A} (f : Bytes -> Res A) (n : nat) (i : Z) (r : RLP) : Res (list A) :=
  match n with
  | O => Ok []
  | S n =>
      let item := index r i in
      (item.1 ≫= f) ≫= fun a => array_loop f n (i + 1) item.2 ≫= fun rest => Ok (a :: rest)
  end.
Definition toArray {A} (a0 : A) (f : Bytes -> Res A) (n : nat) (d : Bytes) (flags : Z) : Res (list A) :=
  itemCount d ≫= fun c =>
  if negb (c =? Z.of_nat n) then bad_cast flags (replicate n a0) else array_loop f n 0 (RLP_new d).

Definition toPair {A B} (a0 : A) (b0 : B) (f : Bytes -> Res A) (g : Bytes -> Res B) (d : Bytes) (flags : Z)
  : Res (A * B) :=
  itemCountStrict d ≫= fun n =>
  if negb (n =? 2) then bad_cast flags (a0, b0)
  else
    let first := index (RLP_new d) 0 in
    (first.1 ≫= f) ≫= fun a => ((index first.2 1).1 ≫= g) ≫= fun b => Ok (a, b).

(** ** Writing

    [m_listStack] has its back first: the items that an open list still misses, and
    where its payload starts. *)

Record RLPStream := mkStream {
  m_out : Bytes;
  m_listStack : list (Z * Z)
}.

Definition RLPStream_empty : RLPStream := mkStream [] [].

(** The lists that [count] more items complete. *)
Fixpoint note_loop (stack : list (Z * Z)) (out : Bytes) (count : Z) : Res RLPStream :=
  match stack with
  | [] => Ok (mkStream out [])
  | (n, p) :: rest =>
      throw_if (n <? count) RLPException ≫= fun _ =>
      let n := n - count in
      if negb (n =? 0) then Ok (mkStream out ((n, p) :: rest))
      else
        let s := size out - p in
        let brs := bytesRequired s in
        let before := take (Z.to_nat p) out in
        let after := drop (Z.to_nat p) out in
        if s <? c_rlpListImmLenCount then note_loop rest (before ++ [c_rlpListStart + s] ++ after) 1
        else if c_rlpListIndLenZero + Z.of_nat brs <=? 255 then
          note_loop rest (before ++ [c_rlpListIndLenZero + Z.of_nat brs] ++ be_bytes brs s ++ after) 1
        else Throw RLPException
  end.

Definition noteAppended (count : Z) (s : RLPStream) : Res RLPStream :=
  if count =? 0 then Ok s else note_loop (m_listStack s) (m_out s) count.

Definition push (bs : Bytes) (s : RLPStream) : RLPStream := s {{ m_out := m_out s ++ bs }}.

Definition appendRaw (bs : Bytes) (itemCount : Z) (s : RLPStream) : Res RLPStream :=
  noteAppended itemCount (push bs s).

(** [pushCount]; [pushInt] writes exactly the bytes the count requires. *)
Definition pushCount (count base : Z) (s : RLPStream) : Res RLPStream :=
  let br := bytesRequired count in
  throw_if (Z.of_nat br + base >? 255) RLPException ≫= fun _ =>
  Ok (push ((Z.of_nat br + base) :: be_bytes br count) s).

Definition appendList_raw (rlp : Bytes) (s : RLPStream) : Res RLPStream :=
  (if size rlp <? c_rlpListImmLenCount then Ok (push [size rlp + c_rlpListStart] s)
   else pushCount (size rlp) c_rlpListIndLenZero s) ≫= appendRaw rlp 1.

Definition appendList (items : Z) (s : RLPStream) : Res RLPStream :=
  if negb (items =? 0) then Ok (s {{ m_listStack := (items, size (m_out s)) :: m_listStack s }})
  else appendList_raw [] s.

(** Leading zeros are left out of a compact value. *)
Fixpoint compacted (bs : Bytes) : Bytes :=
  match bs with
  | b :: rest => if b =? 0 then compacted rest else bs
  | [] => []
  end.

Definition append (bs : Bytes) (compact : bool) (s : RLPStream) : Res RLPStream :=
  let bs := if compact then compacted bs else bs in
  (if (size bs =? 1) && (byte_at bs 0 <? c_rlpDataImmLenStart) then Ok (push bs s)
   else
     (if size bs <? c_rlpDataImmLenCount then Ok (push [size bs + c_rlpDataImmLenStart] s)
      else pushCount (size bs) c_rlpDataIndLenZero s) ≫= appendRaw bs 0) ≫= noteAppended 1.

Definition append_int (i : Z) (s : RLPStream) : Res RLPStream :=
  (if i =? 0 then Ok (push [c_rlpDataImmLenStart] s)
   else if i <? c_rlpDataImmLenStart then Ok (push [i] s)
   else
     let br := bytesRequired i in
     (if Z.of_nat br <? c_rlpDataImmLenCount then Ok (push [Z.of_nat br + c_rlpDataImmLenStart] s)
      else
        let brbr := bytesRequired (Z.of_nat br) in
        throw_if (c_rlpDataIndLenZero + Z.of_nat brbr >? 255) RLPException ≫= fun _ =>
        Ok (push ((c_rlpDataIndLenZero + Z.of_nat brbr) :: be_bytes brbr (Z.of_nat br)) s)) ≫= fun s =>
     Ok (push (be_bytes br i) s)) ≫= noteAppended 1.

Definition out (s : RLPStream) : Res Bytes :=
  match m_listStack s with [] => Ok (m_out s) | _ => Throw RLPException end.

(** A hash, left out altogether when zero if [allOrNothing]. *)
Definition append_hash (h : Bytes) (compact allOrNothing : bool) (s : RLPStream) : Res RLPStream :=
  if allOrNothing && forallb (fun b => b =? 0) h then append [] false s else append h compact s.

(** [appendVector], also of arrays and sets in their order: [f] appends an item. *)
Fixpoint append_each {A} (f : A -> RLPStream -> Res RLPStream) (l : list A) (s : RLPStream) : Res RLPStream :=
  match l with
  | [] => Ok s
  | a :: l => f a s ≫= append_each f l
  end.
Definition appendVector {A} (f : A -> RLPStream -> Res RLPStream) (l : list A) (s : RLPStream) : Res RLPStream :=
  appendList (Z.of_nat (length l)) s ≫= append_each f l.

Definition append_pair {A B} (f : A -> RLPStream -> Res RLPStream) (g : B -> RLPStream -> Res RLPStream) (p : A * B)
  (s : RLPStream) : Res RLPStream :=
  (appendList 2 s ≫= f p.1) ≫= g p.2.

Definition clear (s : RLPStream) : RLPStream := s {{ m_out := []; m_listStack := [] }}.

(** The bytes handed out, and those taken in for them. *)
Definition swapOut (dest : Bytes) (s : RLPStream) : Res (Bytes * RLPStream) :=
  match m_listStack s with [] => Ok (m_out s, s {{ m_out := dest }}) | _ => Throw RLPException end.
