(* ===== verification/RlpProps.v ===== *)
(** * The RLP codec: frames

    One encoded item is a frame: a single byte below 128, or a header with the
    length of the payload and the payload.  Every test and length the reader computes
    is determined by the frame its data starts with, and conversely data that it
    accepts starts with a frame. *)

From S2P Require Import Prelude Rlp.

#[local] Open Scope Z_scope.

(** ** Bytes of a number *)

Lemma bytes_loop_spec fuel i :
  0 <= i -> i < 256 ^ Z.of_nat fuel ->
  i < 256 ^ Z.of_nat (bytes_loop fuel i)
  /\ forall k, bytes_loop fuel i = S k -> 256 ^ Z.of_nat k <= i.
Proof.
  revert i. induction fuel as [|fuel IH]; intros i H0 Hi; [done|]. cbn [bytes_loop].
  destruct (Z.eqb_spec i 0) as [->|Hne]; [done|]. rewrite Z.shiftr_div_pow2 by lia. change (2 ^ 8) with 256.
  rewrite Nat2Z.inj_succ, Z.pow_succ_r in Hi by lia.
  destruct (IH (i / 256)) as [H1 H2]; [apply Z.div_pos; lia | apply Z.div_lt_upper_bound; lia|].
  set (n := bytes_loop fuel (i / 256)) in *. pose proof (Z.div_mod i 256 ltac:(lia)) as Hd.
  pose proof (Z.mod_pos_bound i 256 ltac:(lia)) as Hm. split.
  - rewrite Nat2Z.inj_succ, Z.pow_succ_r by lia. nia.
  - intros k [= <-]. destruct n as [|n]; [simpl; lia|]. specialize (H2 n eq_refl).
    rewrite Nat2Z.inj_succ, Z.pow_succ_r by lia. nia.
Qed.

Lemma bytesRequired_spec i :
  0 < i -> exists k, bytesRequired i = S k /\ 256 ^ Z.of_nat k <= i < 256 ^ Z.of_nat (S k).
Proof.
  intros Hi. unfold bytesRequired. set (fuel := S (Z.to_nat (Z.log2 i))).
  assert (Hf : i < 256 ^ Z.of_nat fuel).
  { pose proof (Z.log2_spec i Hi) as [_ H]. pose proof (Z.log2_nonneg i). unfold fuel.
    rewrite Nat2Z.inj_succ, Z2Nat.id by lia. eapply Z.lt_le_trans; [exact H|].
    change 256 with (2 ^ 8). rewrite <- Z.pow_mul_r by lia. apply Z.pow_le_mono_r; lia. }
  destruct (bytes_loop_spec fuel i ltac:(lia) Hf) as [H1 H2].
  destruct (bytes_loop fuel i) as [|k]; [simpl in H1; lia|]. exists k. split; [done|]. split; [by apply H2 | done].
Qed.

(** A value below [256 ^ m] takes at most [m] bytes. *)
Lemma bytesRequired_le i m : 0 <= i < 256 ^ Z.of_nat m -> (bytesRequired i <= m)%nat.
Proof.
  intros Hi. destruct (Z.eq_dec i 0) as [->|Hne]; [change (bytesRequired 0) with O; lia|].
  destruct (bytesRequired_spec i ltac:(lia)) as (k & -> & Hk & _).
  assert (256 ^ Z.of_nat k < 256 ^ Z.of_nat m) as H%Z.pow_lt_mono_r_iff by lia; lia.
Qed.

Lemma be_bytes_cons n z : be_bytes (S n) z = (z / 256 ^ Z.of_nat n) mod 256 :: be_bytes n z.
Proof.
  revert z. induction n as [|n IH]; intros z; [simpl; by rewrite Z.div_1_r|].
  change (be_bytes (S (S n)) z) with (be_bytes (S n) (z / 256) ++ [z mod 256]). rewrite IH. simpl app. f_equal.
  rewrite Z.div_div by (try apply Z.pow_nonzero; lia). rewrite Nat2Z.inj_succ, Z.pow_succ_r by lia. done.
Qed.

(** The image of a number on the bytes it requires has no leading zero. *)
Lemma be_bytes_required i :
  0 < i -> exists b bs, be_bytes (bytesRequired i) i = b :: bs /\ 1 <= b < 256.
Proof.
  intros Hi. destruct (bytesRequired_spec i Hi) as (k & -> & H1 & H2). rewrite be_bytes_cons.
  rewrite Nat2Z.inj_succ, Z.pow_succ_r in H2 by lia.
  assert (Hp : 0 < 256 ^ Z.of_nat k) by (apply Z.pow_pos_nonneg; lia).
  assert (1 <= i / 256 ^ Z.of_nat k) by (apply Z.div_le_lower_bound; lia).
  assert (i / 256 ^ Z.of_nat k < 256) by (apply Z.div_lt_upper_bound; lia).
  rewrite Z.mod_small by lia. by eexists _, _.
Qed.

Lemma fromBigEndian_value bits d :
  0 <= bits -> Forall is_byte d -> fromBigEndian bits d = be_value d mod 2 ^ bits.
Proof.
  intros Hb. induction d as [|b d IH] using rev_ind; intros Hd; [by rewrite Z.mod_0_l by (apply Z.pow_nonzero; lia)|].
  apply Forall_app in Hd as [Hd Hb1]. rewrite Forall_singleton in Hb1. unfold fromBigEndian. rewrite fold_left_app. simpl.
  fold (fromBigEndian bits d). rewrite IH by done. rewrite be_value_snoc. unfold is_byte in Hb1.
  assert (Hp : 0 < 2 ^ bits) by (apply Z.pow_pos_nonneg; lia).
  set (v := be_value d mod 2 ^ bits).
  assert (Z.lor (Z.shiftl v 8) b = v * 256 + b) as ->.
  { rewrite Z.shiftl_mul_pow2 by lia. change (2 ^ 8) with 256. rewrite <- Z.add_lor_land.
    enough (Z.land (v * 256) b = 0) by lia. apply Z.bits_inj'. intros n Hn. rewrite Z.land_spec, Z.bits_0.
    change 256 with (2 ^ 8). destruct (Z.ltb_spec n 8).
    - by rewrite Z.mul_pow2_bits_low by lia.
    - rewrite andb_comm. rewrite (Z.bits_above_log2 b n); [done | lia |].
      destruct (Z.eq_dec b 0) as [->|]; [simpl; lia|]. apply Z.log2_lt_pow2; [lia|].
      eapply Z.lt_le_trans; [apply Hb1|]. change 256 with (2 ^ 8). apply Z.pow_le_mono_r; lia. }
  unfold v. rewrite <- Z.add_mod_idemp_l, Z.mul_mod_idemp_l, Z.add_mod_idemp_l by lia. done.
Qed.

(** ** Frames *)

Definition max_length : Z := 2 ^ 64 - 1 - 256.

Definition header (base n : Z) : Bytes :=
  if n <? 56 then [base + n] else (base + 55 + Z.of_nat (bytesRequired n)) :: be_bytes (bytesRequired n) n.

(** The bytes of one item, whether it is a list, and its payload. *)
Inductive framed : Bytes -> bool -> Bytes -> Prop :=
| framed_byte c : 0 <= c < 128 -> framed [c] false [c]
| framed_data p :
    size p < max_length -> (forall c, p = [c] -> 128 <= c) -> framed (header 128 (size p) ++ p) false p
| framed_list p : size p < max_length -> framed (header 192 (size p) ++ p) true p.

Lemma size_app a b : size (a ++ b) = size a + size b.
Proof. unfold size. rewrite length_app. lia. Qed.

Lemma size_pos (b : Z) a : 0 < size (b :: a).
Proof. unfold size. simpl length. lia. Qed.

Lemma cropped_app a b c : cropped (a ++ b ++ c) (size a) (size b) = b.
Proof.
  unfold cropped. rewrite !size_app. pose proof (Nat2Z.is_nonneg (length c)). unfold size in *.
  rewrite !(proj2 (Z.leb_le _ _)) by lia. simpl. rewrite !Nat2Z.id, drop_app_length, take_app_length. done.
Qed.

Lemma cropped_app_0 a b : cropped (a ++ b) 0 (size a) = a.
Proof. apply (cropped_app [] a b). Qed.

Lemma cropped_from_app a b : cropped_from (a ++ b) (size a) = b.
Proof.
  unfold cropped_from. rewrite size_app. unfold size. rewrite (proj2 (Z.leb_le _ _)) by lia.
  by rewrite Nat2Z.id, drop_app_length.
Qed.

(** The number of length bytes of a long header. *)
Lemma long_bytes n : 56 <= n -> n < max_length -> exists k, bytesRequired n = S k /\ (k <= 7)%nat.
Proof.
  intros H1 H2. destruct (bytesRequired_spec n ltac:(lia)) as (k & Hk & _). exists k. split; [done|].
  unfold max_length in H2. assert (bytesRequired n <= 8)%nat; [|lia]. apply bytesRequired_le. simpl. lia.
Qed.

Lemma long_length_frame h n rest :
  56 <= n -> n < max_length -> long_length (h :: be_bytes (bytesRequired n) n ++ rest) (Z.of_nat (bytesRequired n)) 56 = Ok n.
Proof.
  intros H1 H2. destruct (long_bytes n H1 H2) as (k & Hk & Hk7).
  destruct (be_bytes_required n ltac:(lia)) as (b & bs & Eb & Hb).
  assert (Hl : size (h :: be_bytes (bytesRequired n) n ++ rest) = 1 + Z.of_nat (bytesRequired n) + size rest).
  { unfold size. simpl length. rewrite length_app, be_bytes_length. lia. }
  assert (0 <= size rest) by (unfold size; lia).
  unfold long_length. rewrite Hl, (proj2 (Z.leb_gt _ _)) by lia. cbn [throw_if mbind Res_bind].
  assert (byte_at (h :: be_bytes (bytesRequired n) n ++ rest) 1 = b) as -> by (rewrite Eb; done).
  rewrite (proj2 (Z.eqb_neq b 0)), andb_false_r by lia. cbn [throw_if mbind Res_bind].
  rewrite Z.gtb_ltb, (proj2 (Z.ltb_ge 8 _)) by lia. cbn [throw_if mbind Res_bind]. cbv zeta.
  rewrite Nat2Z.id, skipn_cons, drop_0, take_app_length' by (by rewrite be_bytes_length).
  rewrite fromBigEndian_value by (lia || apply be_bytes_bytes). rewrite be_value_bytes.
  destruct (bytesRequired_spec n ltac:(lia)) as (k' & Hk' & Hn). rewrite <- Hk' in Hn. rewrite (Z.mod_small n) by lia.
  unfold max_length in H2. rewrite Z.mod_small by lia. rewrite (proj2 (Z.ltb_ge _ _)) by lia. cbn [throw_if mbind Res_bind].
  rewrite Z.geb_leb, (proj2 (Z.leb_gt _ _)) by lia. done.
Qed.

Lemma requireGood_other h rest : h <> 129 -> requireGood (h :: rest) = Ok tt.
Proof.
  intros H. unfold requireGood. change (isNull (h :: rest)) with false. cbn [throw_if mbind Res_bind].
  unfold byte_at. simpl nth. rewrite (proj2 (Z.eqb_neq _ _)) by (unfold c_rlpDataImmLenStart; lia). done.
Qed.

Lemma requireGood_129 c t : requireGood (129 :: c :: t) = if c <? 128 then Throw BadRLP else Ok tt.
Proof.
  unfold requireGood. change (isNull (129 :: c :: t)) with false. cbn [throw_if mbind Res_bind].
  change (byte_at (129 :: c :: t) 0) with 129. change (byte_at (129 :: c :: t) 1) with c.
  assert (size (129 :: c :: t) <? 2 = false) as -> by (apply Z.ltb_ge; unfold size; simpl length; lia). done.
Qed.

(** What the reader sees of data that starts with a frame. *)
Record seen (d : Bytes) (isl : bool) (len off : Z) : Prop := {
  seen_null : isNull d = false;
  seen_list : isList d = isl;
  seen_data : isData d = negb isl;
  seen_length : rlp_length d = Ok len;
  seen_offset : payloadOffset d = off;
  seen_size : actualSize d = Ok (off + len)
}.

Lemma seen_of d isl len off :
  isNull d = false -> isList d = isl -> isData d = negb isl -> rlp_length d = Ok len -> payloadOffset d = off ->
  (isSingleByte d = true -> len = 1) -> seen d isl len off.
Proof.
  intros H1 H2 H3 H4 H5 H6. split; [done..|]. unfold actualSize. rewrite H1, H2, H3. unfold payloadOffset in *.
  destruct (isSingleByte d); [subst off; by rewrite H6|]. destruct isl; simpl; rewrite H4; simpl; by subst off.
Qed.

(** The tests on the first byte, as arithmetic. *)
Lemma first_byte h rest :
  isNull (h :: rest) = false /\ byte_at (h :: rest) 0 = h
  /\ isList (h :: rest) = (192 <=? h) /\ isData (h :: rest) = (h <? 192) /\ isSingleByte (h :: rest) = (h <? 128)
  /\ lengthSize (h :: rest) = (if (183 <? h) && (h <? 192) then h - 183 else if 247 <? h then h - 247 else 0).
Proof.
  split_and!; try done.
  - unfold isList. simpl. by rewrite Z.geb_leb.
  - unfold lengthSize, isData, isList. change (byte_at (h :: rest) 0) with h. change (isNull (h :: rest)) with false.
    unfold c_rlpDataIndLenZero, c_rlpListIndLenZero, c_rlpListStart. rewrite !Z.gtb_ltb, Z.geb_leb. cbn [negb andb].
    bsolve.
Qed.

Lemma short_length h rest :
  128 <= h < 184 \/ 192 <= h < 248 -> requireGood (h :: rest) = Ok tt ->
  rlp_length (h :: rest) = Ok (if h <? 192 then h - 128 else h - 192).
Proof.
  intros Hh Hg. unfold rlp_length. change (isNull (h :: rest)) with false. rewrite Hg. cbn [mbind Res_bind].
  change (byte_at (h :: rest) 0) with h.
  unfold c_rlpDataImmLenStart, c_rlpDataIndLenZero, c_rlpListStart, c_rlpListIndLenZero. cbv zeta. bsolve.
Qed.

Lemma header_seen base n tail :
  base = 128 \/ base = 192 -> 0 <= n < max_length -> (base = 128 -> n = 1 -> exists c t, tail = c :: t /\ 128 <= c) ->
  seen (header base n ++ tail) (base =? 192) n (size (header base n)).
Proof.
  intros Hbase Hn H1. unfold header. destruct (Z.ltb_spec n 56) as [Hs|Hs].
  - cbn [app]. destruct (first_byte (base + n) tail) as (F1 & F2 & F3 & F4 & F5 & F6).
    apply seen_of; [done | rewrite F3; bsolve | rewrite F4; bsolve | | | rewrite F5; intros; btests; lia].
    + clear F6. rewrite short_length; [f_equal; bsolve | lia|]. destruct (Z.eq_dec (base + n) 129) as [E|E]; [|by apply requireGood_other].
      destruct H1 as (c & t & -> & Hc); [lia | lia|]. rewrite E, requireGood_129. by rewrite (proj2 (Z.ltb_ge _ _)).
    + unfold payloadOffset. rewrite F5, F6. bsolve.
  - destruct (long_bytes n Hs ltac:(lia)) as (k & Hk & Hk7). cbn [app].
    set (h := base + 55 + Z.of_nat (bytesRequired n)). set (rest := be_bytes (bytesRequired n) n ++ tail).
    destruct (first_byte h rest) as (F1 & F2 & F3 & F4 & F5 & F6).
    apply seen_of; [done | rewrite F3; bsolve | rewrite F4; bsolve | | | rewrite F5; intros; btests; lia].
    + unfold rlp_length. rewrite F1, requireGood_other by lia. cbn [mbind Res_bind]. rewrite F2. cbv zeta.
      unfold c_rlpDataImmLenStart, c_rlpDataIndLenZero, c_rlpListStart, c_rlpListIndLenZero, c_rlpMaxLengthBytes.
      rewrite (proj2 (Z.ltb_ge h 128)), (proj2 (Z.leb_gt h 183)) by lia. destruct Hbase as [->| ->].
      * rewrite (proj2 (Z.ltb_lt h 192)) by lia. replace (h - 183) with (Z.of_nat (bytesRequired n)) by lia.
        apply long_length_frame; lia.
      * rewrite (proj2 (Z.ltb_ge h 192)), (proj2 (Z.leb_gt h 247)) by lia.
        replace (h - 247) with (Z.of_nat (bytesRequired n)) by lia. apply long_length_frame; lia.
    + unfold payloadOffset. rewrite F5, F6. unfold size. simpl length. rewrite be_bytes_length. bsolve.
Qed.

Lemma framed_seen d isl p rest : framed d isl p -> seen (d ++ rest) isl (size p) (size d - size p).
Proof.
  intros [c Hc|q Hq Hc|q Hq].
  - destruct (first_byte c rest) as (F1 & F2 & F3 & F4 & F5 & F6). cbn [app].
    apply seen_of; [done | rewrite F3; bsolve | rewrite F4; bsolve | | | done].
    + unfold rlp_length. rewrite F1, requireGood_other by lia. cbn [mbind Res_bind]. rewrite F2.
      unfold c_rlpDataImmLenStart. by rewrite (proj2 (Z.ltb_lt _ _)) by lia.
    + unfold payloadOffset. rewrite F5. by rewrite (proj2 (Z.ltb_lt _ _)) by lia.
  - rewrite <- app_assoc, size_app. replace (size (header 128 (size q)) + size q - size q) with (size (header 128 (size q))) by lia.
    apply (header_seen 128 (size q)); [by left | unfold size in *; lia|]. intros _ H1.
    destruct q as [|c [|? ?]]; [done | | unfold size in H1; simpl length in H1; lia]. exists c, rest. split; [done|]. by apply Hc.
  - rewrite <- app_assoc, size_app. replace (size (header 192 (size q)) + size q - size q) with (size (header 192 (size q))) by lia.
    apply (header_seen 192 (size q)); [by right | unfold size in *; lia | done].
Qed.

(** ** Data that is accepted starts with a frame *)

Lemma be_value_cons b l : be_value (b :: l) = b * 256 ^ Z.of_nat (length l) + be_value l.
Proof.
  induction l as [|c l IH] using rev_ind; [change (be_value [b]) with b; change (be_value []) with 0; simpl; lia|].
  rewrite app_comm_cons, !be_value_snoc, IH, length_app. simpl length.
  rewrite Nat.add_1_r, Nat2Z.inj_succ, Z.pow_succ_r by lia. lia.
Qed.

(** A byte string without leading zero is as long as its value requires. *)
Lemma bytesRequired_value b l : is_byte b -> b <> 0 -> Forall is_byte l -> bytesRequired (be_value (b :: l)) = S (length l).
Proof.
  intros Hb Hne Hl. pose proof (be_value_bound l Hl) as H1. pose proof (be_value_bound (b :: l) (Forall_cons_2 _ _ _ Hb Hl)) as H2.
  rewrite be_value_cons in *. unfold is_byte in Hb. set (v := b * 256 ^ Z.of_nat (length l) + be_value l) in *.
  assert (Hp : 0 < 256 ^ Z.of_nat (length l)) by (apply Z.pow_pos_nonneg; lia).
  assert (Hv : 256 ^ Z.of_nat (length l) <= v) by nia.
  destruct (bytesRequired_spec v ltac:(lia)) as (k & -> & H3 & H4). f_equal. simpl length in H2.
  assert (256 ^ Z.of_nat k < 256 ^ Z.of_nat (S (length l))) as Hk%Z.pow_lt_mono_r_iff by lia; [|lia..].
  assert (256 ^ Z.of_nat (length l) < 256 ^ Z.of_nat (S k)) as Hk'%Z.pow_lt_mono_r_iff by lia; lia.
Qed.

Lemma throw_if_ok b e u : throw_if b e = Ok u -> b = false.
Proof. by destruct b. Qed.

Lemma bind_ok {A B} (r : Res A) (f : A -> Res B) b : r ≫= f = Ok b -> exists a, r = Ok a /\ f a = Ok b.
Proof. destruct r; [by exists a | done]. Qed.

Lemma long_length_inv h t k n :
  Forall is_byte t -> 1 <= k -> long_length (h :: t) k 56 = Ok n ->
  exists rest, t = be_bytes (Z.to_nat k) n ++ rest /\ bytesRequired n = Z.to_nat k /\ 56 <= n < max_length.
Proof.
  intros Ht Hk. unfold long_length.
  intros (u1 & E1%throw_if_ok & (u2 & _ & (u3 & E3%throw_if_ok & (u4 & E4%throw_if_ok & H)%bind_ok)%bind_ok)%bind_ok)%bind_ok.
  cbv zeta in H. destruct (bind_ok _ _ _ H) as (u5 & E5%throw_if_ok & H').
  destruct (bind_ok _ _ _ H') as (u6 & E6%throw_if_ok & [= En]). clear H H'.
  rewrite skipn_cons, drop_0 in *. set (l := take (Z.to_nat k) t) in *.
  assert (Hlen : length l = Z.to_nat k).
  { unfold l. rewrite length_take. apply Z.leb_gt in E1. unfold size in E1. simpl length in E1. lia. }
  assert (Hl : Forall is_byte l) by (by apply Forall_take).
  rewrite Z.gtb_ltb in E3. apply Z.ltb_ge in E3. pose proof (be_value_bound l Hl) as Hb.
  assert (Hv : fromBigEndian 64 l = be_value l).
  { rewrite fromBigEndian_value by (done || lia). apply Z.mod_small. split; [lia|]. eapply Z.lt_le_trans; [apply Hb|].
    rewrite Hlen. change (2 ^ 64) with (256 ^ 8). apply Z.pow_le_mono_r; lia. }
  rewrite Hv in *. subst n. exists (drop (Z.to_nat k) t).
  assert (t = l ++ drop (Z.to_nat k) t) as Et by (unfold l; by rewrite take_drop). rewrite <- Hlen, be_bytes_value by done.
  split; [by rewrite Hlen|]. apply Z.ltb_ge in E5. rewrite Z.geb_leb in E6. apply Z.leb_gt in E6. split; [|unfold max_length; lia].
  destruct l as [|b l']; [simpl in Hlen; lia|]. rewrite Et in E4. change (byte_at (h :: (b :: l') ++ _) 1) with b in E4.
  apply Z.eqb_neq in E4. inversion_clear Hl. by apply bytesRequired_value.
Qed.

Lemma frame_of base n r e a :
  e = header base n ++ r -> a = size (header base n) + n ->
  base = 128 \/ base = 192 -> 0 <= n < max_length -> a <= size e ->
  (base = 128 -> n = 1 -> forall c rest, r = c :: rest -> 128 <= c) ->
  exists d rest isl p, e = d ++ rest /\ framed d isl p /\ size d = a.
Proof.
  intros -> -> Hb Hn Hr H1. rewrite size_app in Hr. set (p := take (Z.to_nat n) r).
  assert (Hp : size p = n) by (unfold size, p in *; rewrite length_take; lia).
  exists (header base n ++ p), (drop (Z.to_nat n) r), (base =? 192), p. rewrite size_app, Hp.
  split; [rewrite <- app_assoc; unfold p; by rewrite take_drop|]. split; [|done].
  destruct Hb as [->| ->]; rewrite <- Hp at 1; constructor; try lia.
  intros c Hc. apply (H1 eq_refl) with (rest := drop (Z.to_nat n) r); [rewrite <- Hp, Hc; done|].
  rewrite <- (take_drop (Z.to_nat n) r) at 1. fold p. by rewrite Hc.
Qed.

Lemma header_short base n : n < 56 -> header base n = [base + n].
Proof. intros H. unfold header. by rewrite (proj2 (Z.ltb_lt _ _)). Qed.

Lemma header_long base n k :
  56 <= n -> bytesRequired n = Z.to_nat k -> 0 <= k -> header base n = (base + 55 + k) :: be_bytes (Z.to_nat k) n.
Proof. intros H E Hk. unfold header. rewrite (proj2 (Z.ltb_ge _ _)), E, Z2Nat.id by done. done. Qed.

Lemma parse_framed e a :
  Forall is_byte e -> e <> [] -> actualSize e = Ok a -> a <= size e ->
  exists d rest isl p, e = d ++ rest /\ framed d isl p /\ size d = a.
Proof.
  destruct e as [|h t]; [done|]. intros [Hh Ht]%Forall_cons _ Ha Hle. unfold is_byte in Hh.
  destruct (first_byte h t) as (F1 & F2 & F3 & F4 & F5 & F6). unfold actualSize in Ha. rewrite F1, F3, F4, F5 in Ha.
  destruct (Z.ltb_spec h 128) as [H128|H128].
  { injection Ha as <-. exists [h], t, false, [h]. split; [done|]. split; [apply framed_byte; lia | done]. }
  assert ((h <? 192) || (192 <=? h) = true) as E by (destruct (Z.ltb_spec h 192); [done | by apply Z.leb_le]).
  rewrite E in Ha. clear E. apply bind_ok in Ha as (n & Hn & [= Ea]). unfold payloadOffset in Ea. rewrite F5, F6 in Ea.
  pose proof Hn as Hn'. unfold rlp_length in Hn'. rewrite F1, F2 in Hn'.
  apply bind_ok in Hn' as ([] & Hg & Hn'). cbv zeta in Hn'.
  assert (Hone : h = 129 -> forall c rest, t = c :: rest -> 128 <= c).
  { intros -> c rest ->. rewrite requireGood_129 in Hg. destruct (Z.ltb_spec c 128); [done | lia]. }
  unfold c_rlpDataImmLenStart, c_rlpDataIndLenZero, c_rlpListStart, c_rlpListIndLenZero, c_rlpMaxLengthBytes in Hn'.
  rewrite (proj2 (Z.ltb_ge h 128)) in Hn' by done. assert (0 < max_length) by done.
  destruct (Z.leb_spec h 183) as [H183|H183]; [|destruct (Z.ltb_spec h 192) as [H192|H192];
    [|destruct (Z.leb_spec h 247) as [H247|H247]]].
  - injection Hn' as <-. apply (frame_of 128 (h - 128) t); rewrite ?header_short by lia; try done.
    + cbn [app]. f_equal. lia.
    + rewrite <- Ea. change (size [128 + (h - 128)]) with 1. bsolve.
    + by left.
    + unfold max_length. lia.
    + intros _ E. apply Hone. lia.
  - apply long_length_inv in Hn' as (rest & -> & Hbr & Hmax); [|done | lia].
    apply (frame_of 128 n rest); rewrite ?(header_long _ _ _ (proj1 Hmax) Hbr) by lia; try done.
    + cbn [app]. f_equal. lia.
    + rewrite <- Ea. unfold size. simpl length. rewrite be_bytes_length. bsolve.
    + by left.
    + lia.
    + lia.
  - injection Hn' as <-. apply (frame_of 192 (h - 192) t); rewrite ?header_short by lia; try done.
    + cbn [app]. f_equal. lia.
    + rewrite <- Ea. change (size [192 + (h - 192)]) with 1. bsolve.
    + by right.
    + unfold max_length. lia.
  - apply long_length_inv in Hn' as (rest & -> & Hbr & Hmax); [|done | lia].
    apply (frame_of 192 n rest); rewrite ?(header_long _ _ _ (proj1 Hmax) Hbr) by lia; try done.
    + cbn [app]. f_equal. lia.
    + rewrite <- Ea. unfold size. simpl length. rewrite be_bytes_length. bsolve.
    + by right.
    + lia.
Qed.

(** ** The constructor and the sizes *)

Lemma size_nonneg d : 0 <= size d.
Proof. unfold size. lia. Qed.

Lemma header_size base n : 0 < size (header base n).
Proof. unfold header. case_match; apply size_pos. Qed.

Lemma framed_size d isl p : framed d isl p -> 0 < size d /\ 0 <= size p <= size d.
Proof.
  intros [c Hc|q _ _|q _]; [done|..]; rewrite size_app; pose proof (size_nonneg q).
  - pose proof (header_size 128 (size q)). lia.
  - pose proof (header_size 192 (size q)). lia.
Qed.

Lemma framed_app d isl p : framed d isl p -> exists h, d = h ++ p /\ size h = size d - size p.
Proof.
  intros [c Hc|q _ _|q _]; [by exists []|..]; rewrite size_app.
  - exists (header 128 (size q)). split; [done | lia].
  - exists (header 192 (size q)). split; [done | lia].
Qed.

Lemma framed_payload d isl p rest : framed d isl p -> payload (d ++ rest) = Ok p.
Proof.
  intros HF. destruct (framed_seen d isl p rest HF) as [_ _ _ Hl Ho _]. unfold payload. rewrite Hl. cbn [mbind Res_bind].
  rewrite size_app. pose proof (framed_size d isl p HF). pose proof (size_nonneg rest).
  rewrite Z.gtb_ltb, (proj2 (Z.ltb_ge _ _)) by lia. cbn [throw_if mbind Res_bind]. rewrite Ho.
  destruct (framed_app d isl p HF) as (h & -> & <-). by rewrite <- app_assoc, cropped_app.
Qed.

(** Accepted as an item at the start of its data. *)
Lemma RLP_of_start d : RLP_of d (Z.lor ThrowOnFail FailIfTooSmall) = actualSize d ≫= fun a => if a >? size d then Throw UndersizeRLP else Ok d.
Proof. unfold RLP_of. done. Qed.

Lemma sizeAsEncoded_framed d isl p rest : framed d isl p -> sizeAsEncoded (d ++ rest) = Ok (size d).
Proof.
  intros HF. destruct (framed_seen d isl p rest HF) as [_ _ _ _ _ Hs]. unfold sizeAsEncoded. rewrite RLP_of_start, Hs.
  cbn [mbind Res_bind]. replace (size d - size p + size p) with (size d) in * by lia.
  rewrite size_app, Z.gtb_ltb. pose proof (size_nonneg rest). rewrite (proj2 (Z.ltb_ge _ _)) by lia. by cbn.
Qed.

Lemma sizeAsEncoded_inv e n :
  Forall is_byte e -> sizeAsEncoded e = Ok n ->
  (e = [] /\ n = 0) \/ exists d rest isl p, e = d ++ rest /\ framed d isl p /\ size d = n.
Proof.
  intros He H. unfold sizeAsEncoded in H. rewrite RLP_of_start in H. destruct (actualSize e) as [a|] eqn:Ha; [|done].
  cbn [mbind Res_bind] in H. rewrite Z.gtb_ltb in H. destruct (Z.ltb_spec (size e) a) as [|Hle]; [done|].
  cbn [mbind Res_bind] in H. rewrite Ha in H. injection H as <-.
  destruct e as [|b t]; [left; by injection Ha as <-|]. right. by apply parse_framed.
Qed.

Lemma RLP_of_very_strict d :
  RLP_of d VeryStrict = actualSize d ≫= fun a => if a <? size d then Throw OversizeRLP
    else if a >? size d then Throw UndersizeRLP else Ok d.
Proof.
  unfold RLP_of. simpl. destruct (actualSize d) as [a|] eqn:Ha; [|done]. cbn [mbind Res_bind].
  destruct (a <? size d); [done|]. cbn [mbind Res_bind]. by rewrite Ha.
Qed.

Lemma RLP_of_framed d isl p : framed d isl p -> RLP_of d VeryStrict = Ok d.
Proof.
  intros HF. rewrite RLP_of_very_strict. destruct (framed_seen d isl p [] HF) as [_ _ _ _ _ Hs].
  rewrite app_nil_r in Hs. rewrite Hs. cbn [mbind Res_bind]. replace (size d - size p + size p) with (size d) by lia.
  by rewrite Z.gtb_ltb, Z.ltb_irrefl.
Qed.

Lemma RLP_of_strict_inv d m :
  Forall is_byte d -> RLP_of d VeryStrict = Ok m -> m = d /\ (d <> [] -> exists isl p, framed d isl p).
Proof.
  rewrite RLP_of_very_strict. intros Hd H. destruct (actualSize d) as [a|] eqn:Ha; [|done]. cbn [mbind Res_bind] in H.
  rewrite Z.gtb_ltb in H. destruct (Z.ltb_spec a (size d)); [done|]. destruct (Z.ltb_spec (size d) a); [done|].
  injection H as <-. split; [done|]. intros Hne.
  destruct (parse_framed d a Hd Hne Ha) as (d' & rest & isl & p & -> & HF & Hs); [done|]. rewrite size_app in *.
  assert (rest = []) as -> by (destruct rest; [done|]; pose proof (size_pos z rest); lia). rewrite app_nil_r. eauto.
Qed.
