(* ===== verification/RlpItems.v ===== *)
(** * The RLP codec: items of a list

    The payload of a list is a concatenation of frames; iteration, counting and the
    subscript operator all find these frames.  Nested items are encoded by [enc]; the
    writer produces that encoding and the reader inverts it. *)

From S2P Require Import Prelude Rlp RlpProps.
From coqutil Require Import Datatypes.RecordSetters.
Import DoubleBraceUpdate.

#[local] Open Scope Z_scope.

(** ** Sequences of frames *)

Definition is_frame (d : Bytes) : Prop := exists isl p, framed d isl p.

Lemma is_frame_size d : is_frame d -> 0 < size d.
Proof. intros (isl & p & HF). by apply (framed_size d isl p). Qed.

Lemma frames_length ds : Forall is_frame ds -> (length ds <= length (concat ds))%nat.
Proof.
  induction 1 as [|d ds Hd _ IH]; [done|]. apply is_frame_size in Hd. simpl. rewrite length_app. unfold size in Hd. lia.
Qed.

(** Two ways to cut a payload into frames are the same. *)
Lemma frames_unique ds ds' : Forall is_frame ds -> Forall is_frame ds' -> concat ds = concat ds' -> ds = ds'.
Proof.
  intros H. revert ds'. induction H as [|d ds Hd Hds IH]; intros ds' H' E; destruct H' as [|d' ds' Hd' Hds'];
    [done | | |]; simpl in E.
  - apply is_frame_size in Hd'. symmetry in E. apply app_eq_nil in E as [-> _]. done.
  - apply is_frame_size in Hd. apply app_eq_nil in E as [-> _]. done.
  - pose proof Hd as (isl & p & HF). pose proof Hd' as (isl' & p' & HF').
    pose proof (sizeAsEncoded_framed d isl p (concat ds) HF) as S1. rewrite E in S1.
    rewrite (sizeAsEncoded_framed d' isl' p' (concat ds') HF') in S1. injection S1 as S1.
    unfold size in S1. assert (length d = length d') as Hl by lia.
    apply app_inj_1 in E as [-> E]; [|done]. f_equal. by apply IH.
Qed.

(** [items] counts frames. *)
Lemma items_loop_frames ds fuel i :
  Forall is_frame ds -> (length ds <= fuel)%nat -> items_loop fuel (concat ds) i = Ok (i + Z.of_nat (length ds)).
Proof.
  intros H. revert fuel i. induction H as [|d ds Hd _ IH]; intros fuel i Hf; [destruct fuel; simpl; f_equal; lia|].
  destruct fuel as [|fuel]; simpl in Hf; [lia|]. pose proof (is_frame_size d Hd) as Hs. destruct Hd as (isl & p & HF).
  simpl concat. destruct (d ++ concat ds) as [|b t] eqn:E; [apply app_eq_nil in E as [-> _]; done|].
  cbn [items_loop]. rewrite <- E, (sizeAsEncoded_framed d isl p _ HF). cbn [mbind Res_bind].
  rewrite cropped_from_app, IH by lia. simpl length. f_equal. lia.
Qed.

(** ** Iteration *)

Lemma view_bytes_app a b c : view_bytes (a ++ b ++ c) (Some (size a, size b)) = b.
Proof. unfold view_bytes, size. by rewrite !Nat2Z.id, drop_app_length, take_app_length. Qed.

Lemma rlp_end_item d : d <> [] -> m_currentItem (rlp_end d) = Some (size d, 0).
Proof.
  intros Hd. unfold rlp_end, data_view. destruct d as [|b t]; [done|]. change (isNull (b :: t)) with false. simpl.
  rewrite (proj2 (Z.leb_le _ _)), (proj2 (Z.leb_le 0 _)), (proj2 (Z.leb_le _ _)) by (pose proof (size_pos b t); lia). done.
Qed.

Lemma size_zero d : size d = 0 -> d = [].
Proof. destruct d as [|b t]; [done|]. pose proof (size_pos b t). lia. Qed.

(** After an item, the next frame or the end. *)
Lemma increment_next pre d e rest :
  is_frame e ->
  increment (pre ++ d ++ e ++ rest) (mkIterator (size (e ++ rest)) (Some (size pre, size d)))
  = Ok (mkIterator (size rest) (Some (size (pre ++ d), size e))).
Proof.
  intros He. pose proof (is_frame_size e He) as Hs. destruct He as (isl & p & HF). unfold increment. cbn [m_remaining m_currentItem].
  pose proof (size_nonneg rest) as Hr. rewrite (proj2 (Z.eqb_neq _ _)) by (rewrite size_app; lia). cbn [negb]. cbv zeta.
  assert (view_bytes (pre ++ d ++ e ++ rest) (retarget_next (Some (size pre, size d)) (size (e ++ rest))) = e ++ rest) as ->.
  { cbn [retarget_next]. rewrite <- size_app, app_assoc. rewrite <- (app_nil_r (e ++ rest)) at 1. apply view_bytes_app. }
  rewrite (sizeAsEncoded_framed e isl p rest HF). cbn [mbind Res_bind retarget_next view_cropped].
  rewrite size_app. rewrite (proj2 (Z.leb_le 0 _)), !(proj2 (Z.leb_le _ (size e + size rest))) by lia. cbn [andb view_size].
  rewrite Z.min_r, size_app, Z.add_0_r by lia. repeat f_equal. lia.
Qed.

Lemma increment_last d0 p n : increment d0 (mkIterator 0 (Some (p, n))) = Ok (mkIterator 0 (Some (p + n, 0))).
Proof. done. Qed.

Lemma visit_frames ds pre d fuel :
  is_frame d -> Forall is_frame ds -> (length ds < fuel)%nat ->
  visit fuel (pre ++ d ++ concat ds) (mkIterator (size (concat ds)) (Some (size pre, size d))) = Ok (d :: ds).
Proof.
  revert pre d fuel. induction ds as [|e ds IH]; intros pre d fuel Hd Hds Hf; (destruct fuel as [|fuel]; [simpl in Hf; lia|]).
  all: pose proof (is_frame_size d Hd) as Hs; pose proof Hd as (isl & p & HF); simpl concat.
  all: set (all := pre ++ d ++ _); assert (Hne : all <> []) by (unfold all; intros [_ [-> _]%app_eq_nil]%app_eq_nil; done).
  all: cbn [visit m_currentItem]; rewrite (rlp_end_item all Hne), decide_False by (intros [= _ ?]; lia).
  all: assert (deref all (mkIterator 0 (Some (size pre, size d))) = Ok d) as Hde
    by (unfold deref, all; cbn [m_currentItem]; rewrite view_bytes_app; by apply (RLP_of_framed d isl p)).
  - change (deref all (mkIterator (size []) (Some (size pre, size d))) = Ok d) in Hde. rewrite Hde.
    change (size []) with 0. cbn [mbind Res_bind]. rewrite increment_last. cbn [mbind Res_bind].
    destruct fuel as [|fuel]; cbn [visit m_currentItem]; rewrite (rlp_end_item all Hne), decide_True; try done;
      unfold all; by rewrite app_nil_r, size_app.
  - apply Forall_cons in Hds as [He Hds]. unfold deref in *. cbn [m_currentItem] in *. rewrite Hde. cbn [mbind Res_bind].
    unfold all. rewrite (increment_next pre d e (concat ds) He). cbn [mbind Res_bind].
    rewrite (app_assoc pre d). rewrite IH; [done | done | done | simpl in Hf; lia].
Qed.

Lemma begin_list d p :
  framed d true p ->
  rlp_begin d = sizeAsEncoded p ≫= fun n =>
    let item := view_cropped (Some (size d - size p, size p)) 0 n in
    Ok (mkIterator (size p - view_size item) item).
Proof.
  intros HF. pose proof (framed_size d true p HF) as Hs. destruct (framed_seen d true p [] HF) as [Hn Hl _ Hlen Ho _].
  rewrite app_nil_r in *. unfold rlp_begin. rewrite Hl, Hlen. cbn [mbind Res_bind].
  rewrite Z.gtb_ltb, (proj2 (Z.ltb_ge _ _)) by lia. cbn [throw_if mbind Res_bind]. cbv zeta. rewrite Ho. unfold data_view.
  rewrite Hn. cbn [view_cropped]. rewrite !(proj2 (Z.leb_le _ (size d))) by lia. cbn [andb]. rewrite Z.add_0_l.
  assert (view_bytes d (Some (size d - size p, size p)) = p) as ->; [|done].
  destruct (framed_app d true p HF) as (h & E & <-). rewrite E. rewrite <- (app_nil_r p) at 1. apply view_bytes_app.
Qed.

Lemma begin_empty d : framed d true [] -> rlp_begin d = Ok (mkIterator 0 (Some (size d, 0))).
Proof.
  intros HF. rewrite (begin_list d [] HF). change (size []) with 0. rewrite Z.sub_0_r.
  change (Ok (mkIterator 0 (Some (size d + 0, 0))) = Ok (mkIterator 0 (Some (size d, 0)))). by rewrite Z.add_0_r.
Qed.

Lemma begin_frame d e r :
  framed d true (e ++ r) -> is_frame e -> rlp_begin d = Ok (mkIterator (size r) (Some (size d - size (e ++ r), size e))).
Proof.
  intros HF (isl & q & He). rewrite (begin_list d _ HF), (sizeAsEncoded_framed e isl q r He). cbn [mbind Res_bind].
  pose proof (size_nonneg r). pose proof (framed_size e isl q He). rewrite size_app. cbn [view_cropped].
  rewrite (proj2 (Z.leb_le 0 _)), !(proj2 (Z.leb_le _ (size e + size r))) by lia. cbn [andb view_size].
  rewrite Z.add_0_r. repeat f_equal. lia.
Qed.

Lemma visit_end fuel d : d <> [] -> visit fuel d (mkIterator 0 (Some (size d, 0))) = Ok [].
Proof. intros Hd. destruct fuel; cbn [visit m_currentItem]; by rewrite (rlp_end_item d Hd), decide_True. Qed.

Lemma framed_nonempty d isl p : framed d isl p -> d <> [].
Proof. intros HF ->. by destruct (framed_size [] isl p HF). Qed.

Lemma children_frames d p ds : framed d true p -> p = concat ds -> Forall is_frame ds -> children d = Ok ds.
Proof.
  intros HF -> Hds. pose proof (framed_nonempty d true _ HF) as Hne. unfold children. destruct Hds as [|e es He Hes].
  - rewrite (begin_empty d HF). by apply visit_end.
  - simpl concat in HF. rewrite (begin_frame d e _ HF He). cbn [mbind Res_bind].
    destruct (framed_app d true _ HF) as (h & E & <-). rewrite E at 2. apply visit_frames; [done | done|].
    apply frames_length in Hes. rewrite E, !length_app. apply is_frame_size in He. unfold size in He. lia.
Qed.

(** Results other than the end of the fuel: what is not recursive never runs out of it. *)
Definition fueled {A} (r : Res A) : Prop := r <> Throw NoFuel.

Lemma fueled_bind {A B} (r : Res A) (f : A -> Res B) : fueled r -> (forall a, r = Ok a -> fueled (f a)) -> fueled (r ≫= f).
Proof. intros Hr Hf. destruct r as [a|e]; [by apply Hf|]. intros [= ->]. by apply Hr. Qed.

Lemma fueled_throw_if b e : e <> NoFuel -> fueled (throw_if b e).
Proof. intros He. destruct b; [|done]. by intros [= ->]. Qed.

Create HintDb fuel.

Ltac fuel :=
  repeat first [solve [auto with fuel] | apply fueled_bind; [|intros ? ?] | by apply fueled_throw_if | case_match | by intros [=]].

Lemma fueled_length d : fueled (rlp_length d).
Proof. unfold rlp_length, requireGood, long_length. fuel. Qed.
#[local] Hint Resolve fueled_length : fuel.

Lemma fueled_actualSize d : fueled (actualSize d).
Proof. unfold actualSize. fuel. Qed.
#[local] Hint Resolve fueled_actualSize : fuel.

Lemma fueled_RLP_of d s : fueled (RLP_of d s).
Proof. unfold RLP_of. fuel. Qed.
#[local] Hint Resolve fueled_RLP_of : fuel.

Lemma fueled_sizeAsEncoded d : fueled (sizeAsEncoded d).
Proof. unfold sizeAsEncoded. fuel. Qed.
#[local] Hint Resolve fueled_sizeAsEncoded : fuel.

Lemma fueled_begin d : fueled (rlp_begin d).
Proof. unfold rlp_begin. fuel. Qed.

Lemma fueled_toBytes d flags : fueled (toBytes d flags).
Proof. unfold toBytes, bad_cast, payload. fuel. Qed.

(** Going on over bytes that are left: an exception, or to the frame they start with. *)
Lemma increment_rest pre d rest it :
  Forall is_byte rest -> rest <> [] -> increment (pre ++ d ++ rest) (mkIterator (size rest) (Some (size pre, size d))) = Ok it ->
  exists e r, rest = e ++ r /\ is_frame e /\ it = mkIterator (size r) (Some (size (pre ++ d), size e)).
Proof.
  intros Hb Hne Hit. pose proof Hit as Hit'. revert Hit'. unfold increment. cbn [m_remaining m_currentItem].
  rewrite (proj2 (Z.eqb_neq _ _)) by (intros H%size_zero; done). cbn [negb retarget_next]. cbv zeta.
  rewrite <- size_app, app_assoc. rewrite <- (app_nil_r rest) at 1. rewrite view_bytes_app. intros (n & Hn & _)%bind_ok.
  apply sizeAsEncoded_inv in Hn as [[? _]|(e & r & isl & q & -> & HFe & _)]; [done| |done].
  assert (He : is_frame e) by (by eexists _, _). rewrite (increment_next pre d e r He) in Hit. injection Hit as <-. by exists e, r.
Qed.

Lemma fueled_increment d it : fueled (increment d it).
Proof. unfold increment. fuel. Qed.

Lemma visit_inv fuel pre d rest ds :
  Forall is_byte rest -> is_frame d ->
  visit fuel (pre ++ d ++ rest) (mkIterator (size rest) (Some (size pre, size d))) = Ok ds ->
  exists es, ds = d :: es /\ rest = concat es /\ Forall is_frame es.
Proof.
  revert pre d rest ds. induction fuel as [|fuel IH]; intros pre d rest ds Hb Hd.
  all: pose proof (is_frame_size d Hd) as Hs; pose proof Hd as (isl & p & HF).
  all: set (all := pre ++ d ++ rest); assert (Hne : all <> []) by (unfold all; intros [_ [-> _]%app_eq_nil]%app_eq_nil; done).
  all: cbn [visit m_currentItem]; rewrite (rlp_end_item all Hne), decide_False by (intros [= _ ?]; lia).
  { done. }
  assert (deref all (mkIterator (size rest) (Some (size pre, size d))) = Ok d) as ->
    by (unfold deref, all; cbn [m_currentItem]; rewrite view_bytes_app; by apply (RLP_of_framed d isl p)).
  cbn [mbind Res_bind]. destruct rest as [|b t].
  - intros H. exists []. split_and!; [|done | constructor]. change (size []) with 0 in H. rewrite increment_last in H. cbn [mbind Res_bind] in H.
    assert (E : (size pre + size d, 0) = (size all, 0)) by (unfold all; by rewrite app_nil_r, size_app).
    rewrite E, (visit_end fuel all Hne) in H. by injection H as <-.
  - intros (it & Hit & H)%bind_ok. apply bind_ok in H as (es & H & [= <-]). unfold all in *.
    destruct (increment_rest pre d (b :: t) it Hb) as (e & r & E & He & ->); [done | done|]. rewrite E in *.
    rewrite (app_assoc pre d) in H. apply Forall_app in Hb as [_ Hb]. destruct (IH _ e r es Hb He H) as (es' & -> & -> & Hes').
    exists (e :: es'). split_and!; [done | done | by constructor].
Qed.

Lemma visit_fueled fuel pre d rest :
  Forall is_byte rest -> is_frame d -> (length rest < fuel)%nat ->
  fueled (visit fuel (pre ++ d ++ rest) (mkIterator (size rest) (Some (size pre, size d)))).
Proof.
  revert pre d rest. induction fuel as [|fuel IH]; intros pre d rest Hb Hd Hf; [lia|].
  pose proof (is_frame_size d Hd) as Hs. set (all := pre ++ d ++ rest).
  assert (Hne : all <> []) by (unfold all; intros [_ [-> _]%app_eq_nil]%app_eq_nil; done).
  cbn [visit m_currentItem]. rewrite (rlp_end_item all Hne), decide_False by (intros [= _ ?]; lia).
  apply fueled_bind; [apply fueled_RLP_of|]. intros item _. apply fueled_bind; [apply fueled_increment|]. intros it Hit.
  apply fueled_bind; [|by intros ? _ [=]]. destruct (decide (rest = [])) as [->|Hr].
  - change (size []) with 0 in Hit. rewrite increment_last in Hit. injection Hit as <-.
    assert (E : (size pre + size d, 0) = (size all, 0)) by (unfold all; by rewrite app_nil_r, size_app). rewrite E, visit_end; [done | done].
  - destruct (increment_rest pre d rest it Hb Hr Hit) as (e & r & -> & He & ->). unfold all. rewrite (app_assoc pre d).
    apply Forall_app in Hb as [_ Hb]. apply is_frame_size in He as Hse. rewrite length_app in Hf. unfold size in Hse.
    apply IH; [done | done | lia].
Qed.

Lemma children_fueled d p : Forall is_byte p -> framed d true p -> fueled (children d).
Proof.
  intros Hb HF. pose proof (framed_nonempty d true p HF) as Hne. unfold children. apply fueled_bind; [apply fueled_begin|]. intros it Hit.
  assert (Hsz : exists n, sizeAsEncoded p = Ok n) by (rewrite (begin_list d p HF) in Hit; apply bind_ok in Hit as (n & ? & _); by exists n).
  destruct Hsz as [n Hn]. apply sizeAsEncoded_inv in Hn as [[-> _]|(e & r & isl & q & -> & He & _)]; [| |done].
  - rewrite (begin_empty d HF) in Hit. injection Hit as <-. by rewrite (visit_end _ d Hne).
  - assert (He' : is_frame e) by (by eexists _, _). rewrite (begin_frame d e r HF He') in Hit. injection Hit as <-.
    destruct (framed_app d true _ HF) as (h & E & Hh). rewrite <- Hh. rewrite E at 2.
    apply Forall_app in Hb as [_ Hb]. apply visit_fueled; [done | done|].
    apply is_frame_size in He'. unfold size in He'. rewrite E, !length_app. lia.
Qed.

Lemma children_inv d p ds :
  Forall is_byte p -> framed d true p -> children d = Ok ds -> p = concat ds /\ Forall is_frame ds.
Proof.
  intros Hb HF Hc. pose proof (framed_nonempty d true p HF) as Hne. unfold children in Hc. apply bind_ok in Hc as (it & Hit & Hv).
  assert (Hsz : exists n, sizeAsEncoded p = Ok n) by (rewrite (begin_list d p HF) in Hit; apply bind_ok in Hit as (n & ? & _); by exists n).
  destruct Hsz as [n Hn]. apply sizeAsEncoded_inv in Hn as [[-> _]|(e & r & isl & q & -> & He & _)]; [| |done].
  - rewrite (begin_empty d HF) in Hit. injection Hit as <-. rewrite (visit_end _ d Hne) in Hv. by injection Hv as <-.
  - assert (He' : is_frame e) by (by eexists _, _). rewrite (begin_frame d e r HF He') in Hit. injection Hit as <-.
    destruct (framed_app d true _ HF) as (h & E & Hh). rewrite <- Hh in Hv. rewrite E in Hv at 2.
    apply visit_inv in Hv as (es & -> & -> & Hes); [|by apply Forall_app in Hb as [_ ?] | done]. split; [done | by constructor].
Qed.

(** ** The subscript operator *)

Section Subscript.

Context (d : Bytes) (ds : list Bytes) (HF : framed d true (concat ds)) (Hds : Forall is_frame ds).

(** The cache at index [k]. *)
Definition cached (r : RLP) (k : nat) : Prop :=
  m_data r = d /\ m_lastIndex r = Z.of_nat k /\ (k <= length ds)%nat /\ m_lastItem r = default [] (ds !! k)
  /\ m_lastEnd r = size (concat (take (S k) ds)).

(** Nothing cached yet, or the cache at some index. *)
Definition cache_ok (r : RLP) : Prop := r = RLP_new d \/ exists k, cached r k.

Lemma payload_list : payload d = Ok (concat ds).
Proof. rewrite <- (app_nil_r d). by apply (framed_payload d true). Qed.

Lemma rest_first (es : list Bytes) :
  Forall is_frame es -> sizeAsEncoded (concat es) = Ok (size (default [] (es !! O)))
  /\ cropped (concat es) 0 (size (default [] (es !! O))) = default [] (es !! O).
Proof.
  intros [|e es' (isl & p & He) _]; [done|]. simpl. split; [by apply (sizeAsEncoded_framed e isl p) | apply cropped_app_0].
Qed.

Lemma reset_ok r i :
  m_data r = d -> exists r', index_reset r i = (Ok tt, r') /\
    if i <? m_lastIndex r then cached r' O else r' = r.
Proof.
  intros Hd. unfold index_reset. destruct (i <? m_lastIndex r); [|by exists r]. rewrite Hd, payload_list.
  destruct (rest_first ds Hds) as [-> E]. eexists. split; [done|]. rewrite E. split_and!; try done; [lia|].
  simpl. unfold constant. destruct ds as [|e es]; [done|]. simpl. by rewrite ?take_0, app_nil_r.
Qed.

Lemma turn_ok r k :
  cached r k -> (k < length ds)%nat -> exists r', index_turn r = (Ok tt, r') /\ cached r' (S k).
Proof.
  intros (Hd & Hi & _ & _ & He) Hk. unfold index_turn. rewrite Hd, payload_list. cbv zeta.
  set (r1 := r {{ m_lastItem := _ }}).
  assert (E1 : m_lastItem r1 = concat (drop (S k) ds)).
  { change (cropped_from (concat ds) (m_lastEnd r) = concat (drop (S k) ds)). rewrite He.
    rewrite <- (take_drop (S k) ds) at 1. rewrite concat_app. apply cropped_from_app. }
  rewrite E1. destruct (rest_first (drop (S k) ds)) as [-> E2]; [by apply Forall_drop|]. rewrite E2.
  rewrite lookup_drop, Nat.add_0_r in *. eexists. split; [done|]. split_and!; try done.
  - change (m_lastIndex r + 1 = Z.of_nat (S k)). lia.
  - change (m_lastEnd r + size (default [] (ds !! S k)) = size (concat (take (S (S k)) ds))). rewrite He.
    destruct (ds !! S k) as [e|] eqn:El.
    + rewrite (take_S_r ds (S k) e El), concat_app, size_app. simpl. by rewrite app_nil_r.
    + apply lookup_ge_None in El. rewrite !take_ge by lia. change (size (default [] None)) with 0. lia.
Qed.

Lemma loop_last fuel r i : cached r (length ds) -> index_loop fuel r i = (Ok tt, r).
Proof.
  intros (_ & _ & _ & Hit & _). rewrite lookup_ge_None_2 in Hit by done.
  destruct fuel; cbn [index_loop]; rewrite Hit; by rewrite andb_false_r.
Qed.

Lemma loop_ok fuel r k i :
  cached r k -> (length ds - k <= fuel)%nat -> Z.of_nat k <= i ->
  exists r', index_loop fuel r i = (Ok tt, r') /\ cached r' (Nat.min (Z.to_nat i) (length ds)).
Proof.
  revert r k. induction fuel as [|fuel IH]; intros r k Hc Hf Hi; pose proof Hc as (Hd & Hidx & Hk & Hit & He).
  all: destruct (decide (k = length ds)) as [->|Hlast];
    [exists r; rewrite loop_last by done; split; [done|]; by replace (Nat.min _ _) with (length ds) by lia|].
  - exfalso. lia.
  - cbn [index_loop]. rewrite Hidx. destruct (Z.ltb_spec (Z.of_nat k) i) as [Hlt|Hge].
    + destruct (lookup_lt_is_Some_2 ds k) as [e El]; [lia|]. rewrite Hit, El. simpl default.
      assert (isNull e = false) as ->.
      { assert (0 < size e) by (eapply is_frame_size, Forall_lookup_1; eauto). unfold isNull. apply Z.eqb_neq. lia. }
      cbn [negb andb]. destruct (turn_ok r k Hc) as (r' & -> & Hc'); [lia|]. apply (IH r' (S k)); [done | lia | lia].
    + cbn [andb]. exists r. split; [done|]. by replace (Nat.min (Z.to_nat i) (length ds)) with k by lia.
Qed.

Lemma item_start k : RLP_of (default [] (ds !! k)) (Z.lor ThrowOnFail FailIfTooSmall) = Ok (default [] (ds !! k)).
Proof.
  destruct (ds !! k) as [e|] eqn:El; [|done]. destruct (Forall_lookup_1 _ _ _ _ Hds El) as (isl & p & He). simpl.
  destruct (framed_seen e isl p [] He) as [_ _ _ _ _ Hs]. rewrite app_nil_r in Hs. rewrite RLP_of_start, Hs. cbn [mbind Res_bind].
  replace (size e - size p + size p) with (size e) by lia. by rewrite Z.gtb_ltb, Z.ltb_irrefl.
Qed.

Lemma index_ok r i :
  cache_ok r -> 0 <= i < 2 ^ 64 - 1 ->
  exists r', index r i = (Ok (default [] (ds !! Z.to_nat i)), r') /\ cache_ok r'.
Proof.
  intros Hr Hi. assert (Hd : m_data r = d) by (destruct Hr as [->|(k & -> & _)]; done).
  unfold index. destruct (reset_ok r i Hd) as (r1 & -> & H1).
  assert (H2 : exists k, cached r1 k /\ Z.of_nat k <= i).
  { destruct Hr as [->|(k & Hc)].
    - rewrite (proj2 (Z.ltb_lt _ _)) in H1 by (simpl; lia). exists O. split; [done | lia].
    - pose proof Hc as (_ & Hidx & _). rewrite Hidx in H1. destruct (Z.ltb_spec i (Z.of_nat k)); [exists O; split; [done | lia]|].
      subst r1. by exists k. }
  destruct H2 as (k & Hc & Hk). pose proof Hc as (Hd1 & _). rewrite Hd1.
  destruct (loop_ok (S (length d)) r1 k i Hc) as (r2 & -> & Hc2); [|done|].
  { pose proof (frames_length ds Hds). destruct (framed_app d true _ HF) as (h & E & _). rewrite E, length_app. lia. }
  exists r2. pose proof Hc2 as (_ & _ & _ & -> & _). rewrite item_start. split; [|right; by exists (Nat.min (Z.to_nat i) (length ds))].
  f_equal. f_equal. f_equal. destruct (Nat.min_spec (Z.to_nat i) (length ds)) as [[_ ->]|[? ->]]; [done|].
  by rewrite !lookup_ge_None_2 by lia.
Qed.

End Subscript.
