(* ===== verification/RlpTheorems.v ===== *)
(** * The RLP codec: theorems

    Nested items of byte strings and lists: what the writer produces for them, and
    that the strict reader accepts exactly these encodings. *)

From S2P Require Import Prelude Rlp RlpProps RlpItems.
From coqutil Require Import Datatypes.RecordSetters.
Import DoubleBraceUpdate.

#[local] Open Scope Z_scope.

(** ** Items *)

Inductive Item :=
| Str (b : Bytes)
| Lst (l : list Item).

Section Induction.

Context (P : Item -> Prop) (HStr : forall b, P (Str b)) (HLst : forall l, Forall P l -> P (Lst l)).

Fixpoint Item_induction (x : Item) : P x :=
  match x with
  | Str b => HStr b
  | Lst l => HLst l ((fix go l := match l return Forall P l with
                                  | [] => Forall_nil_2 _
                                  | y :: l => Forall_cons_2 _ y l (Item_induction y) (go l)
                                  end) l)
  end.

End Induction.

(** Written with the operations of [RLPStream]. *)
Fixpoint write (x : Item) (s : RLPStream) : Res RLPStream :=
  match x with
  | Str b => append b false s
  | Lst l => appendVector write l s
  end.

Definition encode_item (x : Item) : Res Bytes := write x RLPStream_empty ≫= out.

(** Read with the operations of [RLP]: lists by iteration, strings as bytes. *)
Fixpoint read (fuel : nat) (d : Bytes) : Res Item :=
  match fuel with
  | O => Throw NoFuel
  | S fuel =>
      if isList d then (children d ≫= convert_all (read fuel)) ≫= fun l => Ok (Lst l)
      else toBytes d Strict ≫= fun b => Ok (Str b)
  end.

Definition decode_item (d : Bytes) : Res Item := RLP_of d VeryStrict ≫= read (S (length d)).

(** ** The encoding *)

Definition enc_str (b : Bytes) : Bytes :=
  if (size b =? 1) && (byte_at b 0 <? 128) then b else header 128 (size b) ++ b.

Fixpoint enc (x : Item) : Bytes :=
  match x with
  | Str b => enc_str b
  | Lst l => let p := concat (map enc l) in header 192 (size p) ++ p
  end.

Definition body (x : Item) : Bytes := match x with Str b => b | Lst l => concat (map enc l) end.
Definition is_lst (x : Item) : bool := match x with Str _ => false | Lst _ => true end.

(** Bytes are bytes, and no payload is too long for the reader. *)
Fixpoint fits (x : Item) : Prop :=
  match x with
  | Str b => Forall is_byte b /\ size b < max_length
  | Lst l => size (concat (map enc l)) < max_length /\ foldr (fun y P => fits y /\ P) True l
  end.

Lemma fits_items l : foldr (fun y P => fits y /\ P) True l <-> Forall fits l.
Proof.
  induction l as [|x l IH]; simpl; [split; [constructor | done]|]. rewrite IH, Forall_cons. done.
Qed.

Lemma single_byte b : (size b =? 1) && (byte_at b 0 <? 128) = true <-> exists c, b = [c] /\ c < 128.
Proof.
  rewrite andb_true_iff, Z.eqb_eq, Z.ltb_lt. split.
  - intros [H1 H2]. destruct b as [|c [|? ?]]; [done | by exists c | unfold size in H1; simpl length in H1; lia].
  - by intros (c & -> & Hc).
Qed.

Lemma enc_framed x : fits x -> framed (enc x) (is_lst x) (body x).
Proof.
  destruct x as [b|l]; simpl; [|intros [H _]; by constructor]. intros [Hb Hs]. unfold enc_str.
  destruct (_ && _) eqn:E.
  - apply single_byte in E as (c & -> & Hc). rewrite Forall_singleton in Hb. unfold is_byte in Hb.
    constructor. lia.
  - constructor; [done|]. intros c ->. apply Z.nlt_ge. intros Hc. rewrite (proj2 (single_byte [c])) in E; [done | by exists c].
Qed.

(** ** Writing *)

Lemma push_push a b s : push b (push a s) = push (a ++ b) s.
Proof. destruct s as [o st]. change (mkStream ((o ++ a) ++ b) st = mkStream (o ++ a ++ b) st). by rewrite app_assoc. Qed.

Lemma pushCount_header count base s :
  56 <= count < max_length -> base = 128 \/ base = 192 -> pushCount count (base + 55) s = Ok (push (header base count) s).
Proof.
  intros Hc Hb. unfold pushCount. destruct (long_bytes count) as (k & Hk & Hk7); [lia..|].
  rewrite Z.gtb_ltb, (proj2 (Z.ltb_ge _ _)) by lia. cbn [throw_if mbind Res_bind]. do 2 f_equal.
  unfold header. rewrite (proj2 (Z.ltb_ge _ _)) by lia. f_equal. lia.
Qed.

Lemma append_str b s : size b < max_length -> append b false s = noteAppended 1 (push (enc_str b) s).
Proof.
  intros Hs. unfold append, enc_str. change c_rlpDataImmLenStart with 128. change c_rlpDataImmLenCount with 56.
  destruct (_ && _); [done|]. destruct (Z.ltb_spec (size b) 56) as [H|H].
  - cbn [mbind Res_bind]. unfold appendRaw, noteAppended at 2. simpl (0 =? 0). cbn [mbind Res_bind].
    by rewrite push_push, (header_short 128), Z.add_comm.
  - change c_rlpDataIndLenZero with (128 + 55). rewrite pushCount_header by (lia || by left). cbn [mbind Res_bind].
    unfold appendRaw, noteAppended at 2. simpl (0 =? 0). cbn [mbind Res_bind]. by rewrite push_push.
Qed.

(** The last item of a list completes it. *)
Lemma note_completes o p rest :
  0 <= size p < max_length ->
  note_loop ((1, size o) :: rest) (o ++ p) 1 = note_loop rest (o ++ header 192 (size p) ++ p) 1.
Proof.
  intros Hp. cbn [note_loop]. cbn [throw_if mbind Res_bind Z.ltb Z.compare Pos.compare Pos.compare_cont]. cbv zeta.
  rewrite size_app. replace (size o + size p - size o) with (size p) by lia. change (negb (1 - 1 =? 0)) with false.
  assert (take (Z.to_nat (size o)) (o ++ p) = o) as -> by (unfold size; by rewrite Nat2Z.id, take_app_length).
  assert (drop (Z.to_nat (size o)) (o ++ p) = p) as -> by (unfold size; by rewrite Nat2Z.id, drop_app_length).
  change c_rlpListImmLenCount with 56. change c_rlpListStart with 192. change c_rlpListIndLenZero with 247.
  unfold header. destruct (Z.ltb_spec (size p) 56) as [H|H]; [done|].
  destruct (long_bytes (size p)) as (k & Hk & Hk7); [lia..|]. rewrite (proj2 (Z.leb_le _ _)) by lia.
  by replace (192 + 55 + Z.of_nat (bytesRequired (size p))) with (247 + Z.of_nat (bytesRequired (size p))) by lia.
Qed.

Lemma note_item o b e n st :
  1 <= n -> noteAppended 1 (push e (mkStream (o ++ b) ((n, size o) :: st)))
  = if n =? 1 then note_loop ((1, size o) :: st) (o ++ b ++ e) 1 else Ok (mkStream (o ++ b ++ e) ((n - 1, size o) :: st)).
Proof.
  intros Hn. change (note_loop ((n, size o) :: st) ((o ++ b) ++ e) 1 =
    if n =? 1 then note_loop ((1, size o) :: st) (o ++ b ++ e) 1 else Ok (mkStream (o ++ b ++ e) ((n - 1, size o) :: st))).
  rewrite <- app_assoc. destruct (Z.eqb_spec n 1) as [->|Hne]; [done|]. cbn [note_loop].
  rewrite (proj2 (Z.ltb_ge n 1)) by lia. cbn [throw_if mbind Res_bind]. cbv zeta. by rewrite (proj2 (Z.eqb_neq (n - 1) 0)) by lia.
Qed.

(** Items of an open list that they leave open or complete. *)
Lemma write_items l n o b st :
  Forall (fun x => forall s, write x s = noteAppended 1 (push (enc x) s)) l -> Z.of_nat (length l) <= n ->
  size (b ++ concat (map enc l)) < max_length -> l <> [] ->
  append_each write l (mkStream (o ++ b) ((n, size o) :: st))
  = if n =? Z.of_nat (length l)
    then note_loop st (o ++ header 192 (size (b ++ concat (map enc l))) ++ b ++ concat (map enc l)) 1
    else Ok (mkStream (o ++ b ++ concat (map enc l)) ((n - Z.of_nat (length l), size o) :: st)).
Proof.
  intros Hl. revert n b. induction Hl as [|x l Hx Hl IH]; intros n b Hn Hs Hne; [done|]. clear Hne.
  cbn [append_each map concat] in *. simpl length in *. rewrite Hx, note_item by lia. destruct l as [|y l'].
  - clear IH. simpl concat in *. rewrite (app_nil_r (enc x)) in *. change (Z.of_nat (S (length []))) with 1.
    destruct (n =? 1); [|done]. rewrite note_completes by (split; [apply size_nonneg | done]). by destruct (note_loop st _ 1).
  - rewrite (proj2 (Z.eqb_neq n 1)) by (simpl in Hn; lia). cbn [mbind Res_bind]. rewrite IH; [|lia | by rewrite <- app_assoc | done].
    rewrite <- !app_assoc. destruct (Z.eqb_spec (n - 1) (Z.of_nat (length (y :: l')))), (Z.eqb_spec n (Z.of_nat (S (length (y :: l'))))); [done | lia | lia |].
    do 4 f_equal. lia.
Qed.

Lemma write_spec x : fits x -> forall s, write x s = noteAppended 1 (push (enc x) s).
Proof.
  induction x as [b|l IH] using Item_induction; intros Hf s; [apply append_str, Hf|].
  destruct Hf as [Hs Hfs%fits_items]. cbn [write]. unfold appendVector.
  assert (IH' : Forall (fun x => forall s, write x s = noteAppended 1 (push (enc x) s)) l).
  { apply Forall_forall. intros y Hy. rewrite Forall_forall in IH, Hfs. auto. }
  destruct l as [|y l'] eqn:El.
  - unfold appendList. simpl (Z.of_nat _ =? 0). cbn [negb]. unfold appendList_raw, appendRaw.
    change (size [] <? c_rlpListImmLenCount) with true. cbn [mbind Res_bind]. rewrite push_push.
    destruct (noteAppended 1 _) eqn:E; cbn [mbind Res_bind]; rewrite <- E; done.
  - rewrite <- El in *. unfold appendList. rewrite (proj2 (Z.eqb_neq _ _)) by (subst l; simpl; lia). cbn [negb mbind Res_bind].
    destruct s as [o st].
    change (append_each write l (mkStream o ((Z.of_nat (length l), size o) :: st)) = note_loop st (o ++ enc (Lst l)) 1).
    rewrite <- (app_nil_r o) at 1. rewrite write_items; [by rewrite Z.eqb_refl | done | done | done | by subst l].
Qed.

Lemma encode_spec x : fits x -> encode_item x = Ok (enc x).
Proof. intros Hf. unfold encode_item. by rewrite write_spec. Qed.

(** ** Reading *)

Lemma enc_frame x : fits x -> is_frame (enc x).
Proof. intros Hf. exists (is_lst x), (body x). by apply enc_framed. Qed.

Lemma convert_read fuel l :
  Forall (fun x => read fuel (enc x) = Ok x) l -> convert_all (read fuel) (map enc l) = Ok l.
Proof. induction 1 as [|x l Hx _ IH]; [done|]. cbn [map convert_all]. rewrite Hx. cbn [mbind Res_bind]. by rewrite IH. Qed.

Lemma child_smaller x l : x ∈ l -> (length (enc x) < length (enc (Lst l)))%nat.
Proof.
  intros (l1 & l2 & ->)%list_elem_of_split. cbn [enc]. rewrite map_app, concat_app. simpl concat.
  pose proof (header_size 192 (size (concat (map enc l1) ++ enc x ++ concat (map enc l2)))) as Hh. unfold size at 1 in Hh.
  rewrite !length_app in *. lia.
Qed.

Lemma read_enc fuel x : fits x -> (length (enc x) <= fuel)%nat -> read (S fuel) (enc x) = Ok x.
Proof.
  revert x. induction fuel as [|fuel IH]; intros x Hf Hn; pose proof (enc_framed x Hf) as HF;
    pose proof (framed_size _ _ _ HF) as [Hpos _]; unfold size in Hpos; [lia|].
  destruct (framed_seen _ _ _ [] HF) as [_ Hl Hd Hlen _ _]. rewrite app_nil_r in *.
  pose proof (framed_payload _ _ _ [] HF) as Hp. rewrite app_nil_r in Hp.
  remember (S fuel) as fuel'. cbn [read]. rewrite Hl. destruct x as [b|l]; cbn [is_lst body] in *.
  - unfold toBytes. rewrite Hd, Hp. cbn [negb mbind Res_bind]. rewrite Hlen. cbn [mbind Res_bind]. by rewrite Z.eqb_refl.
  - destruct Hf as [Hs Hfs%fits_items]. rewrite (children_frames _ _ (map enc l) HF);
      [|done | apply Forall_map; apply (Forall_impl _ _ _ Hfs), enc_frame].
    cbn [mbind Res_bind]. rewrite convert_read; [done|]. apply Forall_forall. intros y Hy. rewrite Forall_forall in Hfs.
    subst fuel'. apply IH; [auto|]. apply child_smaller in Hy. lia.
Qed.

Lemma enc_str_framed d p : framed d false p -> d = enc_str p.
Proof.
  intros HF. inversion HF as [c Hc|q Hq Hc|]; subst; unfold enc_str.
  - by rewrite (proj2 (single_byte [c])) by (exists c; split; [done | lia]).
  - destruct (_ && _) eqn:E; [|done]. apply single_byte in E as (c & -> & Hlt). specialize (Hc c eq_refl). lia.
Qed.

Lemma framed_bound d isl p : framed d isl p -> size p < max_length.
Proof. by intros [c _|q Hq _|q Hq]. Qed.

Lemma convert_inv fuel ds l :
  (forall d isl p x, Forall is_byte d -> framed d isl p -> read fuel d = Ok x -> d = enc x /\ fits x) ->
  Forall is_byte (concat ds) -> Forall is_frame ds -> convert_all (read fuel) ds = Ok l -> ds = map enc l /\ Forall fits l.
Proof.
  intros IH Hb Hds. revert l Hb. induction Hds as [|d ds (isl & p & HF) _ IHds]; intros l Hb H; cbn [convert_all] in H.
  - by injection H as <-.
  - apply Forall_app in Hb as [Hbd Hb]. apply bind_ok in H as (x & Hx & H). apply bind_ok in H as (l' & Hl & [= <-]).
    destruct (IH d isl p x Hbd HF Hx) as [-> Hf]. destruct (IHds l' Hb Hl) as [-> Hfs]. by split; [|constructor].
Qed.

(** What the reader returns for an accepted item encodes to that item. *)
Lemma read_inv fuel d isl p x :
  Forall is_byte d -> framed d isl p -> read fuel d = Ok x -> d = enc x /\ fits x.
Proof.
  revert d isl p x. induction fuel as [|fuel IH]; intros d isl p x Hb HF Hx; [done|].
  destruct (framed_seen _ _ _ [] HF) as [_ Hl Hd Hlen _ _]. pose proof (framed_payload _ _ _ [] HF) as Hp. rewrite app_nil_r in *.
  destruct (framed_app _ _ _ HF) as (h & E & _). assert (Hbp : Forall is_byte p) by (rewrite E in Hb; by apply Forall_app in Hb as [_ ?]).
  pose proof (framed_bound d isl p HF) as Hs. cbn [read] in Hx. rewrite Hl in Hx. destruct isl.
  - apply bind_ok in Hx as (l & Hx & [= <-]). apply bind_ok in Hx as (ds & Hc & Hr).
    destruct (children_inv d p ds Hbp HF Hc) as [-> Hds]. destruct (convert_inv fuel ds l IH Hbp Hds Hr) as [-> Hfs].
    split; [by inversion HF|]. by split; [|apply fits_items].
  - unfold toBytes in Hx. rewrite Hd, Hp in Hx. cbn [negb mbind Res_bind] in Hx. rewrite Hlen in Hx. cbn [mbind Res_bind] in Hx.
    rewrite Z.eqb_refl in Hx. injection Hx as <-. split; [by apply enc_str_framed | done].
Qed.

Lemma fueled_convert {A} (f : Bytes -> Res A) ds : (forall d, d ∈ ds -> fueled (f d)) -> fueled (convert_all f ds).
Proof.
  induction ds as [|d ds IH]; intros H; cbn [convert_all]; [by intros [=]|]. apply fueled_bind; [apply H; by left|]. intros a _.
  apply fueled_bind; [apply IH; intros e He; apply H; by right | by intros ? _ [=]].
Qed.

(** An accepted item is read to its end. *)
Lemma read_fueled fuel d isl p :
  Forall is_byte d -> framed d isl p -> (length d <= fuel)%nat -> fueled (read (S fuel) d).
Proof.
  revert d isl p. induction fuel as [|fuel IH]; intros d isl p Hb HF Hf.
  { apply framed_nonempty in HF. by destruct d; simpl in Hf; [|lia]. }
  remember (S fuel) as fuel'. cbn [read]. destruct (isList d) eqn:Hl; [|apply fueled_bind; [apply fueled_toBytes | by intros ? _ [=]]].
  destruct (framed_seen _ _ _ [] HF) as [_ Hl' _ _ _ _]. rewrite app_nil_r, Hl in Hl'. subst isl.
  destruct (framed_app _ _ _ HF) as (h & E & Hh). assert (Hbp : Forall is_byte p) by (rewrite E in Hb; by apply Forall_app in Hb as [_ ?]).
  apply fueled_bind; [|by intros ? _ [=]]. apply fueled_bind; [by apply (children_fueled d p)|]. intros ds Hc.
  destruct (children_inv d p ds Hbp HF Hc) as [-> Hds]. apply fueled_convert. intros e He. subst fuel'.
  rewrite Forall_forall in Hds. destruct (Hds e He) as (isl & q & HFe). apply list_elem_of_split in He as (l1 & l2 & ->).
  rewrite concat_app in *. simpl concat in *. apply Forall_app in Hbp as [_ [Hbe _]%Forall_app]. apply (IH e isl q); [done | done|].
  inversion HF as [| |? _ Ed Ep]. subst p. apply (f_equal length) in Ed.
  pose proof (header_size 192 (size (concat l1 ++ e ++ concat l2))) as Hh'. unfold size at 1 in Hh'. rewrite !length_app in Ed. lia.
Qed.

Lemma children_accepted d ds :
  Forall is_byte d -> RLP_of d VeryStrict = Ok d -> isList d = true -> children d = Ok ds ->
  framed d true (concat ds) /\ Forall is_frame ds.
Proof.
  intros Hb Hd Hl Hc. destruct (RLP_of_strict_inv d d Hb Hd) as [_ HF].
  destruct HF as (isl & p & HF); [by intros ->|]. destruct (framed_seen _ _ _ [] HF) as [_ Hl' _ _ _ _]. rewrite app_nil_r, Hl in Hl'.
  subst isl. destruct (framed_app _ _ _ HF) as (h & E & _). rewrite E in Hb. apply Forall_app in Hb as [_ Hb].
  by destruct (children_inv d p ds Hb HF Hc) as [-> Hds].
Qed.

(** ** Integers *)

Definition int_bytes (i : Z) : Bytes := be_bytes (bytesRequired i) i.

Lemma append_int_str i s :
  0 <= i < 256 ^ 55 -> append_int i s = noteAppended 1 (push (enc_str (int_bytes i)) s).
Proof.
  intros Hi. unfold append_int, int_bytes. destruct (Z.eqb_spec i 0) as [->|Hne]; [done|].
  pose proof (bytesRequired_le i 55 ltac:(simpl; lia)) as H55.
  destruct (bytesRequired_spec i ltac:(lia)) as (k & Hk & Hlo & Hhi). change c_rlpDataImmLenStart with 128.
  destruct (Z.ltb_spec i 128) as [H|H].
  - assert (k = O) as -> by (destruct k; [done|]; rewrite Nat2Z.inj_succ, Z.pow_succ_r in Hlo by lia;
      pose proof (Z.pow_pos_nonneg 256 (Z.of_nat k)); lia).
    rewrite Hk. cbn [be_bytes app mbind Res_bind]. rewrite Z.mod_small by lia. unfold enc_str.
    by rewrite (proj2 (single_byte [i])) by by exists i.
  - unfold c_rlpDataImmLenCount. rewrite (proj2 (Z.ltb_lt _ _)) by lia. cbn [mbind Res_bind]. rewrite push_push.
    unfold enc_str. replace (_ && _) with false.
    + rewrite header_short by (unfold size; rewrite be_bytes_length; lia). unfold size. by rewrite be_bytes_length, Z.add_comm.
    + symmetry. apply not_true_iff_false. intros (c & Hc & Hlt)%single_byte.
      assert (k = O) as -> by (apply (f_equal length) in Hc; rewrite be_bytes_length, Hk in Hc; by injection Hc).
      rewrite Hk in Hc. cbn [be_bytes app] in Hc. injection Hc as <-. rewrite Z.mod_small in Hlt; simpl in Hhi; lia.
Qed.

(** No leading zero. *)
Definition canonical (p : Bytes) : bool := match p with [] => true | c :: _ => negb (c =? 0) end.

Lemma int_bytes_spec i p : Forall is_byte p -> p = int_bytes i /\ 0 <= i <-> be_value p = i /\ canonical p = true.
Proof.
  intros Hp. split.
  - intros [-> Hi]. unfold int_bytes. destruct (Z.eq_dec i 0) as [->|Hne]; [done|].
    destruct (bytesRequired_spec i ltac:(lia)) as (k & Hk & Hlo & Hhi). split; [rewrite be_value_bytes, Hk, Z.mod_small by lia; done|].
    destruct (be_bytes_required i ltac:(lia)) as (b & bs & -> & Hb). simpl. rewrite (proj2 (Z.eqb_neq b 0)) by lia. done.
  - intros [<- Hc]. split; [|by apply be_value_bound]. unfold int_bytes. destruct p as [|c p]; [done|].
    pose proof Hp as [Hcb Hpb]%Forall_cons. simpl in Hc. rewrite bytesRequired_value; [|done | bsolve | done].
    symmetry. by apply (be_bytes_value (c :: p)).
Qed.

Lemma framed_good d isl p : framed d isl p -> requireGood d = Ok tt.
Proof.
  intros HF. destruct (framed_seen _ _ _ [] HF) as [Hn _ _ Hl _ _]. rewrite app_nil_r in *. unfold rlp_length in Hl.
  rewrite Hn in Hl. by apply bind_ok in Hl as ([] & ? & _).
Qed.

Lemma isInt_framed d p : framed d false p -> size p < 56 -> isInt d = Ok (canonical p).
Proof.
  intros HF Hs. destruct (framed_seen _ _ _ [] HF) as [Hn _ _ _ _ _]. rewrite app_nil_r in Hn. unfold isInt.
  rewrite Hn, (framed_good d false p HF). cbn [mbind Res_bind]. cbv zeta. unfold c_rlpDataImmLenStart, c_rlpDataIndLenZero.
  inversion HF as [c Hc|q Hq Hc|]; subst.
  - change (byte_at [c] 0) with c. by rewrite (proj2 (Z.ltb_lt _ _)) by lia.
  - rewrite header_short by done. cbn [app]. change (byte_at (128 + size p :: p) 0) with (128 + size p).
    pose proof (size_nonneg p). rewrite (proj2 (Z.ltb_ge _ 128)) by lia. destruct p as [|c p]; [done|].
    pose proof (size_pos c p). rewrite (proj2 (Z.eqb_neq _ 128)), (proj2 (Z.leb_le _ 183)) by lia.
    rewrite (proj2 (Z.leb_gt _ 1)) by (unfold size in *; simpl length in *; lia). done.
Qed.

Lemma be_value_fits w p : 0 <= w -> Forall is_byte p -> size p <= w -> 0 <= be_value p < 2 ^ (8 * w).
Proof.
  intros Hw Hb Hs. pose proof (be_value_bound p Hb) as [H0 H1]. split; [done|]. eapply Z.lt_le_trans; [exact H1|].
  rewrite Z.pow_mul_r by lia. apply Z.pow_le_mono_r; [lia | exact Hs].
Qed.

Lemma toInt_framed w d isl p i :
  0 <= w < 56 -> Forall is_byte p -> framed d isl p ->
  toInt w d Strict = Ok i <-> isl = false /\ size p <= w /\ canonical p = true /\ be_value p = i.
Proof.
  intros Hw Hb HF. destruct (framed_seen _ _ _ [] HF) as [Hn Hl _ _ _ _]. pose proof (framed_payload _ _ _ [] HF) as Hp.
  rewrite app_nil_r in *. assert (Hint : isl = false -> size p <= w -> isInt d = Ok (canonical p)) by (intros -> ?; apply isInt_framed; [done | lia]).
  unfold toInt. rewrite (framed_good d isl p HF), Hl, Hn, Hp. cbn [mbind Res_bind].
  destruct (isInt d) as [b|e]; cbn [mbind Res_bind]; [|by split; [|intros (Hf & Hs & _); specialize (Hint Hf Hs)]].
  change (negb (has Strict AllowNonCanon)) with true. change (has Strict FailIfTooBig) with true.
  rewrite !andb_true_r, !orb_false_r, Z.gtb_ltb. destruct isl; [rewrite orb_true_r; by split; [|intros [? _]]|]. rewrite orb_false_r.
  destruct (Z.ltb_spec w (size p)) as [Hgt|Hle]; [split; [by destruct b | lia]|].
  injection (Hint eq_refl Hle) as ->. rewrite fromBigEndian_value, Z.mod_small by (done || lia || (apply be_value_fits; (done || lia))).
  destruct (canonical p); cbn [negb]; [|by split; [|intros (_ & _ & ? & _)]]. split; [by intros [= <-] | by intros (_ & _ & _ & <-)].
Qed.

(** An integer written on its own. *)
Lemma out_int i : 0 <= i < 256 ^ 55 -> append_int i RLPStream_empty ≫= out = Ok (enc_str (int_bytes i)).
Proof. intros Hi. by rewrite append_int_str. Qed.

Lemma int_framed i : 0 <= i < 256 ^ 55 -> framed (enc_str (int_bytes i)) false (int_bytes i).
Proof.
  intros Hi. apply (enc_framed (Str _)). split; [apply be_bytes_bytes|]. unfold size, int_bytes. rewrite be_bytes_length.
  pose proof (bytesRequired_le i 55 Hi). unfold max_length. lia.
Qed.

Lemma int_bytes_bound w i p : 0 <= w -> p = int_bytes i -> 0 <= i < 2 ^ (8 * w) -> size p <= w.
Proof.
  intros Hw -> Hi. unfold int_bytes, size. rewrite be_bytes_length.
  pose proof (bytesRequired_le i (Z.to_nat w)) as H. rewrite Z2Nat.id in H by done. rewrite Z.pow_mul_r in Hi by lia.
  specialize (H Hi). lia.
Qed.

(** The values a sequence of subscripts returns, the cache threaded through them. *)
Fixpoint subscripts (r : RLP) (js : list Z) : list (Res Bytes) :=
  match js with
  | [] => []
  | i :: js => let res := index r i in res.1 :: subscripts res.2 js
  end.

Lemma subscripts_ok d ds r js :
  framed d true (concat ds) -> Forall is_frame ds -> cache_ok d ds r -> Forall (fun i => 0 <= i < 2 ^ 64 - 1) js ->
  subscripts r js = map (fun i => Ok (default [] (ds !! Z.to_nat i))) js.
Proof.
  intros HF Hds Hr Hi. revert r Hr. induction Hi as [|i js Hi _ IH]; intros r Hr; [done|]. cbn [subscripts map].
  destruct (index_ok d ds HF Hds r i Hr Hi) as (r' & -> & Hr'). cbn [fst snd]. by rewrite IH.
Qed.

(** ** Theorems *)

(** C21: every item of byte strings and nested lists whose payloads are below 2^64 - 257
    bytes is written by [RLPStream] and read back, strictly, as the same item. *)
Theorem rlp_roundtrip (x : Item) : fits x -> exists d, encode_item x = Ok d /\ decode_item d = Ok x.
Proof.
  intros Hf. exists (enc x). split; [by apply encode_spec|]. unfold decode_item.
  rewrite (RLP_of_framed _ _ _ (enc_framed x Hf)). cbn [mbind Res_bind]. by apply read_enc.
Qed.

(** C22: the strict reader answers on every byte string, and is canonical: whatever bytes it
    accepts as an item are the very bytes [RLPStream] writes for that item, so no item has
    two accepted encodings. *)
Theorem rlp_canonical (d : Bytes) :
  Forall is_byte d -> decode_item d <> Throw NoFuel /\ forall x, decode_item d = Ok x -> fits x /\ encode_item x = Ok d.
Proof.
  intros Hb. destruct (decide (d = [])) as [->|Hne]; [done|]. split.
  - apply fueled_bind; [apply fueled_RLP_of|]. intros m Hm. destruct (RLP_of_strict_inv d m Hb Hm) as [-> HF].
    destruct (HF Hne) as (isl & p & HF'). by apply (read_fueled _ d isl p).
  - intros x H. apply bind_ok in H as (m & Hm & Hr). destruct (RLP_of_strict_inv d m Hb Hm) as [-> HF].
    destruct (HF Hne) as (isl & p & HF'). destruct (read_inv _ d isl p x Hb HF' Hr) as [E Hf]. split; [done|]. rewrite E. by apply encode_spec.
Qed.

(** Reading an unsigned integer of [w] bytes strictly succeeds on the accepted node [d]
    with value [i] exactly when [i] fits in [w] bytes and [d] is what appending [i]
    writes, so integers round-trip and have one accepted encoding each. *)
Theorem rlp_integers (w i : Z) (d : Bytes) :
  0 <= w <= 32 -> Forall is_byte d -> RLP_of d VeryStrict = Ok d ->
  toInt w d Strict = Ok i <-> 0 <= i < 2 ^ (8 * w) /\ append_int i RLPStream_empty ≫= out = Ok d.
Proof.
  intros Hw Hb Hd. assert (Hmax : 2 ^ (8 * w) <= 256 ^ 55) by (change (256 ^ 55) with (2 ^ (8 * 55)); apply Z.pow_le_mono_r; lia).
  split; intros H.
  - destruct (RLP_of_strict_inv d d Hb Hd) as [_ HF]. destruct HF as (isl & p & HF); [by intros ->|].
    destruct (framed_app _ _ _ HF) as (h & E & _). assert (Hbp : Forall is_byte p) by (rewrite E in Hb; by apply Forall_app in Hb as [_ ?]).
    rewrite (toInt_framed w d isl p i) in H by (done || lia). destruct H as (-> & Hs & Hc & <-).
    pose proof (be_value_fits w p ltac:(lia) Hbp Hs). split; [done|]. rewrite out_int by lia.
    destruct (proj2 (int_bytes_spec _ p Hbp) (conj eq_refl Hc)) as [<- _]. by rewrite <- (enc_str_framed d p).
  - destruct H as [Hi Ho]. rewrite out_int in Ho by lia. injection Ho as <-.
    assert (Hbp : Forall is_byte (int_bytes i)) by apply be_bytes_bytes.
    rewrite (toInt_framed w _ false (int_bytes i)) by (done || lia || (apply int_framed; lia)).
    destruct (proj1 (int_bytes_spec i _ Hbp)) as [Hv Hc]; [split; [done | apply Hi]|].
    split_and!; [done | apply (int_bytes_bound w i); [lia | done | done] | done | done].
Qed.

(** on an accepted list the cached subscript operator agrees with iteration: whatever
    the order in which subscripts are asked for, each returns the item of that index that
    the loop over the node visits, null past the last one, and [itemCount] is their number. *)
Theorem rlp_subscript (d : Bytes) (ds : list Bytes) (js : list Z) :
  Forall is_byte d -> RLP_of d VeryStrict = Ok d -> isList d = true -> children d = Ok ds ->
  Forall (fun i => 0 <= i < 2 ^ 64 - 1) js ->
  itemCount d = Ok (Z.of_nat (length ds)) /\ subscripts (RLP_new d) js = map (fun i => Ok (default [] (ds !! Z.to_nat i))) js.
Proof.
  intros Hb Hd Hl Hc His. destruct (children_accepted d ds Hb Hd Hl Hc) as [HF Hds]. split.
  - unfold itemCount, items. rewrite Hl, (payload_list d ds HF). cbn [mbind Res_bind].
    by rewrite items_loop_frames by (done || by apply frames_length).
  - apply (subscripts_ok d); [done | done | by left | done].
Qed.

(** ** Witnesses *)

(** [["cat", [], 1024]] with a string long enough for a long header. *)
Definition sample : Item := Lst [Str [99; 97; 116]; Lst []; Str [4; 0]; Str (replicate 60 7)].

Lemma rlp_roundtrip_witness : fits sample /\ exists d, encode_item sample = Ok d /\ decode_item d = Ok sample.
Proof.
  assert (H : fits sample) by (vm_compute; repeat (constructor || done)).
  split; [done|]. by apply rlp_roundtrip.
Defined.

Lemma rlp_canonical_witness :
  decode_item [198; 131; 99; 97; 116; 192; 5] = Ok (Lst [Str [99; 97; 116]; Lst []; Str [5]])
  /\ encode_item (Lst [Str [99; 97; 116]; Lst []; Str [5]]) = Ok [198; 131; 99; 97; 116; 192; 5].
Proof.
  split; [by vm_compute|]. apply rlp_canonical; [repeat (constructor; [done|]); constructor | by vm_compute].
Defined.

Lemma rlp_integers_witness :
  toInt 4 [130; 4; 0] Strict = Ok 1024 /\ append_int 1024 RLPStream_empty ≫= out = Ok [130; 4; 0].
Proof.
  assert (H : toInt 4 [130; 4; 0] Strict = Ok 1024) by by vm_compute. split; [exact H|].
  apply (rlp_integers 4 1024 [130; 4; 0]); [done | repeat (constructor; [done|]); constructor | by vm_compute | exact H].
Defined.

Lemma rlp_subscript_witness :
  itemCount [198; 131; 99; 97; 116; 192; 5] = Ok 3
  /\ subscripts (RLP_new [198; 131; 99; 97; 116; 192; 5]) [2; 0; 3; 1] = [Ok [5]; Ok [131; 99; 97; 116]; Ok []; Ok [192]].
Proof.
  apply (rlp_subscript [198; 131; 99; 97; 116; 192; 5] [[131; 99; 97; 116]; [192]; [5]] [2; 0; 3; 1]);
    [repeat (constructor; [done|]); constructor | by vm_compute | by vm_compute | by vm_compute | repeat (constructor; [done|]); constructor].
Defined.
