(* ===== verification/ShaMapNode.v ===== *)
(** * Nodes of the state tree (SHAMapNodeID, SHAMapItem, SHAMapTreeNode, SHAMapInnerNode)

    The Merkle tree with 16 branches that holds ledger state, transactions and
    transaction sets: positions, nodes, their hashes and their encodings, from
    [src/src/ripple/shamap/SHAMapTreeNode.h], [SHAMapNodeID.h] and the files of the same
    names under [impl].  A key or hash of 256 bits is the integer its bytes are the
    big-endian image of.

    A node is a value: the code copies a node before it changes it unless the node
    carries the sequence number of the map itself.  The assertions, which are compiled
    out, are left out. *)

From S2P Require Import Prelude HsTypes.
From coqutil Require Import Datatypes.RecordSetters.
Import DoubleBraceUpdate.

#[local] Open Scope Z_scope.

(** ** Errors

    [RuntimeError] stands for the exceptions of the decoders, [OutOfBounds] for a read
    before the start or past the end of its data and [TooDeep] for an inner node below
    level 63, which no map has whose nodes are in place. *)

Inductive MapError := MissingNode (hash : Z) | RuntimeError | OutOfBounds | TooDeep.

Inductive MapRes (A : Type) :=
| Done (a : A)
| Fault (e : MapError).
Arguments Done {A} a.
Arguments Fault {A} e.

#[export] Instance MapRes_ret : MRet MapRes := fun A => Done.
#[export] Instance MapRes_bind : MBind MapRes := fun A B f r => match r with Done a => f a | Fault e => Fault e end.

#[export] Instance MapRes_fmap : FMap MapRes := fun A B f r => match r with Done a => Done (f a) | Fault e => Fault e end.

(** ** Hash functions

    The chain is configured with one of them. *)

Inductive HashType := sha | sm3 | sha3.

#[export] Instance HashType_eq_dec : EqDecision HashType.
Proof. solve_decision. Defined.

Class Hashers := {
  hasher : HashType -> Bytes -> Z;
  chainHashTypeG : HashType
}.

Definition sha512Half `{Hashers} (bs : Bytes) : Z := hasher chainHashTypeG bs.

Definition make_hash_prefix (a b c : Z) : Z := Z.shiftl a 24 + Z.shiftl b 16 + Z.shiftl c 8.

Definition hp_transactionID : Z := Eval cbv in make_hash_prefix 84 88 78.
Definition hp_txNode : Z := Eval cbv in make_hash_prefix 83 78 68.
Definition hp_leafNode : Z := Eval cbv in make_hash_prefix 77 76 78.
Definition hp_leafNodeContract : Z := Eval cbv in make_hash_prefix 67 76 78.
Definition hp_innerNode : Z := Eval cbv in make_hash_prefix 77 73 78.

(** ** Positions in the tree *)

Record SHAMapNodeID := mkNodeID { ni_nodeID : Z; ni_depth : Z }.

Definition root_id : SHAMapNodeID := mkNodeID 0 0.

(** Byte [i] of a key. *)
Definition key_byte (key i : Z) : Z := Z.land (Z.shiftr key (8 * (31 - i))) 255.

Definition selectBranch (id : SHAMapNodeID) (hash : Z) : Z :=
  let branch := key_byte hash (ni_depth id / 2) in
  if Z.odd (ni_depth id) then Z.land branch 15 else Z.shiftr branch 4.

Definition getChildNodeID (id : SHAMapNodeID) (m : Z) : SHAMapNodeID :=
  let b := if Z.odd (ni_depth id) then m else Z.shiftl m 4 in
  mkNodeID (Z.lor (ni_nodeID id) (Z.shiftl b (8 * (31 - ni_depth id / 2)))) (ni_depth id + 1).

Definition isRoot (id : SHAMapNodeID) : bool := ni_depth id =? 0.

(** ** Nodes *)

Inductive TNType := tnERROR | tnINNER | tnTRANSACTION_NM | tnTRANSACTION_MD | tnACCOUNT_STATE | tnCONTRACT_STATE.

#[export] Instance TNType_eq_dec : EqDecision TNType.
Proof. solve_decision. Defined.

Record SHAMapItem := mkItem { it_key : Z; it_data : Bytes }.

#[export] Instance SHAMapItem_eq_dec : EqDecision SHAMapItem.
Proof. solve_decision. Defined.

(** A leaf. *)
Record TreeNode := mkTreeNode {
  tr_item : SHAMapItem;
  tr_type : TNType;
  tr_storageRoot : option Z;
  tr_hash : Z;
  tr_seq : Z
}.

Record InnerNode (N : Type) := mkInner {
  in_hashes : list Z;
  in_children : list (option N);
  in_isBranch : Z;
  in_hash : Z;
  in_seq : Z
}.
Arguments mkInner {N} _ _ _ _ _.
Arguments in_hashes {N} _.
Arguments in_children {N} _.
Arguments in_isBranch {N} _.
Arguments in_hash {N} _.
Arguments in_seq {N} _.

Inductive Node :=
| Leaf (t : TreeNode)
| Inner (n : InnerNode Node).

Definition isInner (n : Node) : bool := match n with Inner _ => true | Leaf _ => false end.
Definition isLeaf (n : Node) : bool := negb (isInner n).
Definition getNodeHash (n : Node) : Z := match n with Leaf t => tr_hash t | Inner i => in_hash i end.
Definition getSeq (n : Node) : Z := match n with Leaf t => tr_seq t | Inner i => in_seq i end.

Definition setSeq (s : Z) (n : Node) : Node :=
  match n with
  | Leaf t => Leaf (t {{ tr_seq := s }})
  | Inner i => Inner (mkInner (in_hashes i) (in_children i) (in_isBranch i) (in_hash i) s)
  end.

(** [clone] copies every field but the sequence number. *)
Definition clone (s : Z) (n : Node) : Node := setSeq s n.

Definition all_branches : list Z := [0; 1; 2; 3; 4; 5; 6; 7; 8; 9; 10; 11; 12; 13; 14; 15].

Definition inner_new (seq : Z) : InnerNode Node := mkInner (replicate 16 0) (replicate 16 None) 0 0 seq.

Definition isEmptyBranch (n : InnerNode Node) (m : Z) : bool := negb (Z.testbit (in_isBranch n) m).
Definition inner_isEmpty (n : InnerNode Node) : bool := in_isBranch n =? 0.

Definition getBranchCount (n : InnerNode Node) : Z :=
  Z.of_nat (length (base.filter (fun m => isEmptyBranch n m = false) all_branches)).

Definition getChild (n : InnerNode Node) (m : Z) : option Node := mjoin (in_children n !! Z.to_nat m).
Definition getChildHash (n : InnerNode Node) (m : Z) : Z := default 0 (in_hashes n !! Z.to_nat m).

(** Changing a branch forgets its hash and that of the node. *)
Definition setChild (m : Z) (child : option Node) (n : InnerNode Node) : InnerNode Node :=
  mkInner (<[Z.to_nat m := 0]> (in_hashes n)) (<[Z.to_nat m := child]> (in_children n))
    (match child with
     | Some _ => Z.lor (in_isBranch n) (Z.shiftl 1 m)
     | None => Z.land (in_isBranch n) (Z.lnot (Z.shiftl 1 m))
     end) 0 (in_seq n).

Definition shareChild (m : Z) (child : Node) (n : InnerNode Node) : InnerNode Node :=
  mkInner (in_hashes n) (<[Z.to_nat m := Some child]> (in_children n)) (in_isBranch n) (in_hash n) (in_seq n).

(** ** Hashes *)

Section Hashes.

Context `{Hashers}.

(** The hash an inner node gets from those of its branches. *)
Definition inner_hash (hashes : list Z) : Z := sha512Half (be_bytes 4 hp_innerNode ++ concat (be_bytes 32 <$> hashes)).

(** The hash of a leaf.  A transaction whose first byte is 0 is one of Ethereum. *)
Definition leaf_hash (type : TNType) (item : SHAMapItem) (storageRoot : option Z) : Z :=
  match type with
  | tnTRANSACTION_NM =>
      match it_data item with
      | 0 :: data => hasher sha3 data
      | data => sha512Half (be_bytes 4 hp_transactionID ++ data)
      end
  | tnACCOUNT_STATE => sha512Half (be_bytes 4 hp_leafNode ++ it_data item ++ be_bytes 32 (it_key item))
  | tnCONTRACT_STATE =>
      sha512Half (be_bytes 4 hp_leafNodeContract ++ it_data item ++ be_bytes 32 (default 0 storageRoot)
                  ++ be_bytes 32 (it_key item))
  | tnTRANSACTION_MD =>
      hasher (match chainHashTypeG with sha => sha | _ => sm3 end)
        (be_bytes 4 hp_txNode ++ it_data item ++ be_bytes 32 (it_key item))
  | _ => 0
  end.

(** [SHAMapTreeNode::updateHash]: whether the hash changed. *)
Definition leaf_updateHash (t : TreeNode) : bool * TreeNode :=
  let nh := leaf_hash (tr_type t) (tr_item t) (tr_storageRoot t) in
  if nh =? tr_hash t then (false, t) else (true, t {{ tr_hash := nh }}).

Definition leaf_new (item : SHAMapItem) (type : TNType) (seq : Z) (storageRoot : option Z) : TreeNode :=
  (leaf_updateHash (mkTreeNode item type storageRoot 0 seq)).2.

Definition setItem (item : SHAMapItem) (type : TNType) (storageRoot : option Z) (t : TreeNode) : bool * TreeNode :=
  leaf_updateHash (t {{ tr_type := type; tr_item := item; tr_storageRoot := storageRoot }}).

Definition inner_updateHash (n : InnerNode Node) : bool * InnerNode Node :=
  let nh := if in_isBranch n =? 0 then 0 else inner_hash (in_hashes n) in
  if nh =? in_hash n then (false, n)
  else (true, mkInner (in_hashes n) (in_children n) (in_isBranch n) nh (in_seq n)).

(** The hashes of the branches at hand are read off the children first. *)
Definition updateHashDeep (n : InnerNode Node) : InnerNode Node :=
  (inner_updateHash
     (mkInner (zip_with (fun h c => match c with Some c => getNodeHash c | None => h end) (in_hashes n) (in_children n))
        (in_children n) (in_isBranch n) (in_hash n) (in_seq n))).2.

(** ** Encodings *)

Inductive SHANodeFormat := snfPREFIX | snfWIRE | snfHASH.

(** A branch of a compressed node: its hash and its number. *)
Definition compressed_branch (n : InnerNode Node) (m : Z) : Bytes :=
  if isEmptyBranch n m then [] else be_bytes 32 (getChildHash n m) ++ [m].

Definition inner_addRaw (n : InnerNode Node) (format : SHANodeFormat) : Bytes :=
  match format with
  | snfHASH => be_bytes 32 (in_hash n)
  | snfPREFIX => be_bytes 4 hp_innerNode ++ concat (be_bytes 32 <$> in_hashes n)
  | snfWIRE =>
      if getBranchCount n <? 12 then concat (compressed_branch n <$> all_branches) ++ [3]
      else concat (be_bytes 32 <$> in_hashes n) ++ [2]
  end.

Definition leaf_addRaw (t : TreeNode) (format : SHANodeFormat) : Bytes :=
  let data := it_data (tr_item t) in
  let key := be_bytes 32 (it_key (tr_item t)) in
  let root := be_bytes 32 (default 0 (tr_storageRoot t)) in
  match format, tr_type t with
  | snfHASH, _ => be_bytes 32 (tr_hash t)
  | snfPREFIX, tnACCOUNT_STATE => be_bytes 4 hp_leafNode ++ data ++ key
  | snfWIRE, tnACCOUNT_STATE => data ++ key ++ [1]
  | snfPREFIX, tnCONTRACT_STATE => be_bytes 4 hp_leafNodeContract ++ data ++ root ++ key
  | snfWIRE, tnCONTRACT_STATE => data ++ root ++ key ++ [5]
  | snfPREFIX, tnTRANSACTION_NM => be_bytes 4 hp_transactionID ++ data
  | snfWIRE, tnTRANSACTION_NM => data ++ [0]
  | snfPREFIX, tnTRANSACTION_MD => be_bytes 4 hp_txNode ++ data ++ key
  | snfWIRE, tnTRANSACTION_MD => data ++ key ++ [4]
  | _, _ => []
  end.

Definition addRaw (n : Node) (format : SHANodeFormat) : Bytes :=
  match n with Leaf t => leaf_addRaw t format | Inner i => inner_addRaw i format end.

(** A leaf read from data: with the given hash, if there is one. *)
Definition leaf_make (item : SHAMapItem) (type : TNType) (storageRoot : option Z) (hash : option Z) : Node :=
  match hash with
  | Some h => Leaf (mkTreeNode item type storageRoot h 0)
  | None => Leaf (leaf_new item type 0 storageRoot)
  end.

(** The last 256 bits of the data, and what is before them. *)
Definition split_tag (data : Bytes) : MapRes (Bytes * Z) :=
  let n := (length data - 32)%nat in
  if (length data <? 32)%nat then Fault RuntimeError else Done (take n data, be_value (drop n data)).

Definition makeTransaction (data : Bytes) (hash : option Z) : MapRes Node :=
  match data with
  | [] => Fault OutOfBounds
  | b :: rest =>
      let key := if b =? 0 then hasher sha3 rest else sha512Half (be_bytes 4 hp_transactionID ++ data) in
      Done (leaf_make (mkItem key data) tnTRANSACTION_NM None hash)
  end.

Definition makeTransactionWithMeta (data : Bytes) (hash : option Z) : MapRes Node :=
  split_tag data ≫= fun '(data, tag) => Done (leaf_make (mkItem tag data) tnTRANSACTION_MD None hash).

Definition makeAccountState (data : Bytes) (hash : option Z) : MapRes Node :=
  split_tag data ≫= fun '(data, tag) =>
    if tag =? 0 then Fault RuntimeError else Done (leaf_make (mkItem tag data) tnACCOUNT_STATE None hash).

Definition makeContractState (data : Bytes) (hash : option Z) : MapRes Node :=
  split_tag data ≫= fun '(data, tag) =>
    if tag =? 0 then Fault RuntimeError
    else split_tag data ≫= fun '(data, root) => Done (leaf_make (mkItem tag data) tnCONTRACT_STATE (Some root) hash).

(** The bits of the branches with a hash. *)
Definition branch_bits (hashes : list Z) : Z :=
  foldr (fun m bits => if default 0 (hashes !! Z.to_nat m) =? 0 then bits else Z.lor bits (Z.shiftl 1 m)) 0 all_branches.

Definition makeFullInner (data : Bytes) (hash : option Z) : MapRes Node :=
  if negb (length data =? 512)%nat then Fault RuntimeError
  else
    let hashes := (fun m => be_value (take 32 (drop (32 * Z.to_nat m) data))) <$> all_branches in
    let n := mkInner hashes (replicate 16 None) (branch_bits hashes) 0 0 in
    Done (Inner (match hash with
                 | Some h => mkInner hashes (replicate 16 None) (branch_bits hashes) h 0
                 | None => (inner_updateHash n).2
                 end)).

(** One turn of the loop over the branches of a compressed node. *)
Definition compressed_turn (data : Bytes) (n : InnerNode Node) (i : nat) : MapRes (InnerNode Node) :=
  match data !! (32 + i * 33)%nat with
  | None => Fault RuntimeError
  | Some pos =>
      if pos >=? 16 then Fault RuntimeError
      else
        let h := be_value (take 32 (drop (i * 33) data)) in
        Done (mkInner (<[Z.to_nat pos := h]> (in_hashes n)) (in_children n)
                (if h =? 0 then in_isBranch n else Z.lor (in_isBranch n) (Z.shiftl 1 pos)) (in_hash n) (in_seq n))
  end.

Fixpoint compressed_loop (data : Bytes) (n : InnerNode Node) (turns : list nat) : MapRes (InnerNode Node) :=
  match turns with
  | [] => Done n
  | i :: turns => compressed_turn data n i ≫= fun n => compressed_loop data n turns
  end.

Definition makeCompressedInner (data : Bytes) : MapRes Node :=
  compressed_loop data (inner_new 0) (seq 0 (length data / 33)) ≫= fun n => Done (Inner (inner_updateHash n).2).

Definition makeFromWire (rawNode : Bytes) : MapRes (option Node) :=
  match last rawNode with
  | None => Done None
  | Some type =>
      let raw := removelast rawNode in
      Some <$> (if type =? 0 then makeTransaction raw None
                else if type =? 1 then makeAccountState raw None
                else if type =? 2 then makeFullInner raw None
                else if type =? 3 then makeCompressedInner raw
                else if type =? 4 then makeTransactionWithMeta raw None
                else if type =? 5 then makeContractState raw None
                else Fault RuntimeError)
  end.

Definition makeFromPrefix (rawNode : Bytes) (hash : Z) : MapRes Node :=
  if (length rawNode <? 4)%nat then Fault RuntimeError
  else
    let '(type, raw) :=
      if default 0 (head rawNode) =? 0 then (hp_transactionID, rawNode)
      else (be_value (take 4 rawNode), drop 4 rawNode) in
    if type =? hp_transactionID then makeTransaction raw (Some hash)
    else if type =? hp_leafNode then makeAccountState raw (Some hash)
    else if type =? hp_leafNodeContract then makeContractState raw (Some hash)
    else if type =? hp_innerNode then makeFullInner raw (Some hash)
    else if type =? hp_txNode then makeTransactionWithMeta raw (Some hash)
    else Fault RuntimeError.

End Hashes.
