(* ===== verification/ShaMap.v ===== *)
(** * The state tree (SHAMap)

    Lookup, insertion, removal and update of items, copies, hashing and writing to the
    node store, iteration, comparison of two maps and Merkle proofs, from
    [src/src/ripple/shamap/impl/SHAMap.cpp], [SHAMapDelta.cpp] and the proof checker
    of [src/src/ripple/rpc/handlers/Tx.cpp].

    The node store is a finite map from hashes to encoded nodes.  A node that is
    fetched is not hooked to its parent, which would only save fetching it again, and
    there is no cache of nodes in front of the store.  The stack of nodes from the root
    is a list with its top first.  A loop that works off a stack of subtrees is a
    recursion that visits them in the order in which they are popped; its fuel is the
    height of the tree, 64 levels of inner nodes. *)

From S2P Require Import Prelude HsTypes ShaMapNode.
From coqutil Require Import Datatypes.RecordSetters.
Import DoubleBraceUpdate.

#[local] Open Scope Z_scope.

Inductive SHAMapState := Modifying | Immutable | Synching | Floating | Invalid.

#[export] Instance SHAMapState_eq_dec : EqDecision SHAMapState.
Proof. solve_decision. Defined.

Abbreviation NodeStore := (gmap Z Bytes).

Record SHAMap := mkMap {
  mp_seq : Z;
  mp_root : Node;
  mp_state : SHAMapState;
  mp_backed : bool
}.

Definition SHAMap_new : SHAMap := mkMap 1 (Inner (inner_new 1)) Modifying true.

Definition setUnbacked (mp : SHAMap) : SHAMap := mp {{ mp_backed := false }}.
Definition setImmutable (mp : SHAMap) : SHAMap := mp {{ mp_state := Immutable }}.

(** The depth of the tree. *)
Definition max_depth : nat := 64.

Abbreviation NodeStack := (list (Node * SHAMapNodeID)).

(** Differences of two maps. *)
Abbreviation Delta := (gmap Z (option SHAMapItem * option SHAMapItem)).

Section SHAMap.

Context `{Hashers}.

(** ** Nodes from the store *)

(** A node that does not decode counts as missing. *)
Definition fetchNodeNT (db : NodeStore) (mp : SHAMap) (hash : Z) : option Node :=
  if mp_backed mp then
    match db !! hash with
    | Some data => match makeFromPrefix data hash with Done n => Some n | Fault _ => None end
    | None => None
    end
  else None.

(** The node of a branch: the child at hand or the node the store has for the hash. *)
Definition descend (db : NodeStore) (mp : SHAMap) (parent : InnerNode Node) (branch : Z) : option Node :=
  match getChild parent branch with
  | Some n => Some n
  | None => fetchNodeNT db mp (getChildHash parent branch)
  end.

Definition descendThrow (db : NodeStore) (mp : SHAMap) (parent : InnerNode Node) (branch : Z) : MapRes Node :=
  match descend db mp parent branch with
  | Some n => Done n
  | None => Fault (MissingNode (getChildHash parent branch))
  end.

(** ** Lookup *)

(** The walk from a node towards a key: the leaf it ends in, if any, and the nodes
    visited. *)
Fixpoint walk (fuel : nat) (db : NodeStore) (mp : SHAMap) (id : Z) (node : Node) (nodeID : SHAMapNodeID)
    (stack : NodeStack) : MapRes (option TreeNode * NodeStack) :=
  match node with
  | Leaf t => Done (Some t, (node, nodeID) :: stack)
  | Inner inner =>
      match fuel with
      | O => Fault TooDeep
      | S fuel =>
          let stack := (node, nodeID) :: stack in
          let branch := selectBranch nodeID id in
          if isEmptyBranch inner branch then Done (None, stack)
          else
            descendThrow db mp inner branch ≫= fun child =>
              walk fuel db mp id child (getChildNodeID nodeID branch) stack
      end
  end.

Definition walkTowardsKey (db : NodeStore) (mp : SHAMap) (id : Z) : MapRes (option TreeNode * NodeStack) :=
  walk max_depth db mp id (mp_root mp) root_id [].

Definition findKey (db : NodeStore) (mp : SHAMap) (id : Z) : MapRes (option TreeNode) :=
  walkTowardsKey db mp id ≫= fun '(leaf, _) =>
    Done (match leaf with
          | Some t => if it_key (tr_item t) =? id then Some t else None
          | None => None
          end).

Definition peekItem (db : NodeStore) (mp : SHAMap) (id : Z) : MapRes (option SHAMapItem) :=
  findKey db mp id ≫= fun leaf => Done (option_map tr_item leaf).

Definition hasItem (db : NodeStore) (mp : SHAMap) (id : Z) : MapRes bool :=
  findKey db mp id ≫= fun leaf => Done (bool_decide (is_Some leaf)).

(** ** Changes *)

(** [unshareNode]: a node of another map is copied. *)
Definition unshareNode (mp : SHAMap) (node : Node) : Node :=
  if getSeq node =? mp_seq mp then node else clone (mp_seq mp) node.

Definition unshare_inner (mp : SHAMap) (n : InnerNode Node) : InnerNode Node :=
  if in_seq n =? mp_seq mp then n
  else mkInner (in_hashes n) (in_children n) (in_isBranch n) (in_hash n) (mp_seq mp).

(** Hooks the new node to the inner nodes above it, up to the root. *)
Fixpoint dirtyUp (mp : SHAMap) (stack : NodeStack) (target : Z) (child : Node) : Node :=
  match stack with
  | [] => child
  | (Inner node, nodeID) :: stack =>
      dirtyUp mp stack target (Inner (setChild (selectBranch nodeID target) (Some child) (unshare_inner mp node)))
  | (Leaf _, _) :: _ => child
  end.

(** A leaf of the map itself that is changed in place, its hash being the same. *)
Fixpoint place (stack : NodeStack) (target : Z) (child : Node) : Node :=
  match stack with
  | (Inner node, nodeID) :: stack => place stack target (Inner (shareChild (selectBranch nodeID target) child node))
  | _ => child
  end.

(** The root changes only through an inner root; a root that is a leaf is copied and
    stays. *)
Definition set_root (new : Node) (mp : SHAMap) : SHAMap :=
  match mp_root mp with
  | Inner _ => mp {{ mp_root := new }}
  | Leaf _ => mp {{ mp_root := unshareNode mp (mp_root mp) }}
  end.

Definition leaf_type (isTransaction hasMeta : bool) (storageRoot : option Z) : TNType :=
  match storageRoot with
  | Some _ => tnCONTRACT_STATE
  | None => if isTransaction then if hasMeta then tnTRANSACTION_MD else tnTRANSACTION_NM else tnACCOUNT_STATE
  end.

(** New inner nodes for as long as the two keys go to the same branch: the last one,
    its position, and the stack. *)
Fixpoint split_loop (fuel : nat) (mp : SHAMap) (tag other : Z) (node : InnerNode Node) (nodeID : SHAMapNodeID)
    (stack : NodeStack) : MapRes (InnerNode Node * SHAMapNodeID * NodeStack) :=
  match fuel with
  | O => Fault TooDeep
  | S fuel =>
      let b1 := selectBranch nodeID tag in
      if b1 =? selectBranch nodeID other then
        split_loop fuel mp tag other (inner_new (mp_seq mp)) (getChildNodeID nodeID b1) ((Inner node, nodeID) :: stack)
      else Done (node, nodeID, stack)
  end.

Definition addGiveItem (db : NodeStore) (mp : SHAMap) (item : SHAMapItem) (isTransaction hasMeta : bool)
    (storageRoot : option Z) : MapRes (bool * SHAMap) :=
  let tag := it_key item in
  let newLeaf := leaf_new item (leaf_type isTransaction hasMeta storageRoot) (mp_seq mp) storageRoot in
  walkTowardsKey db mp tag ≫= fun '(_, stack) =>
    match stack with
    | [] => Fault (MissingNode tag)
    | (Inner inner, nodeID) :: stack =>
        let node := Inner (setChild (selectBranch nodeID tag) (Some (Leaf newLeaf)) (unshare_inner mp inner)) in
        Done (true, set_root (dirtyUp mp stack tag node) mp)
    | (Leaf leaf, nodeID) :: stack =>
        let other := tr_item leaf in
        if it_key other =? tag then Done (false, mp)
        else
          split_loop (S max_depth) mp tag (it_key other) (inner_new (mp_seq mp)) nodeID stack ≫= fun '(node, nodeID, stack) =>
            let otherLeaf := leaf_new other (tr_type leaf) (mp_seq mp) (tr_storageRoot leaf) in
            let node :=
              setChild (selectBranch nodeID (it_key other)) (Some (Leaf otherLeaf))
                (setChild (selectBranch nodeID tag) (Some (Leaf newLeaf)) node) in
            Done (true, set_root (dirtyUp mp stack tag (Inner node)) mp)
    end.

Definition addItem (db : NodeStore) (mp : SHAMap) (item : SHAMapItem) (isTransaction hasMeta : bool) : MapRes (bool * SHAMap) :=
  addGiveItem db mp item isTransaction hasMeta None.

(** The item below a node that has only one. *)
Fixpoint onlyBelow (fuel : nat) (db : NodeStore) (mp : SHAMap) (node : Node) : MapRes (option SHAMapItem) :=
  match node with
  | Leaf t => Done (Some (tr_item t))
  | Inner inner =>
      match fuel with
      | O => Fault TooDeep
      | S fuel =>
          match base.filter (fun m => isEmptyBranch inner m = false) all_branches with
          | [] => Done None
          | m :: others =>
              descendThrow db mp inner m ≫= fun nextNode =>
                match others with [] => onlyBelow fuel db mp nextNode | _ => Done None end
          end
      end
  end.

(** What replaces an inner node below the root that has lost a branch. *)
Definition pull_up (db : NodeStore) (mp : SHAMap) (deleted : TreeNode) (node : InnerNode Node) : MapRes (option Node) :=
  let bc := getBranchCount node in
  if bc =? 0 then Done None
  else if bc =? 1 then
    onlyBelow max_depth db mp (Inner node) ≫= fun item =>
      Done (Some (match item with
                  | Some item => Leaf (leaf_new item (tr_type deleted) (in_seq node) (tr_storageRoot deleted))
                  | None => Inner node
                  end))
  else Done (Some (Inner node)).

Fixpoint del_loop (db : NodeStore) (mp : SHAMap) (id : Z) (deleted : TreeNode) (stack : NodeStack)
    (prevNode : option Node) : MapRes SHAMap :=
  match stack with
  | [] => Done mp
  | (Leaf _, _) :: _ => Done mp
  | (Inner node, nodeID) :: stack =>
      let node := setChild (selectBranch nodeID id) prevNode (unshare_inner mp node) in
      if isRoot nodeID then Done (set_root (Inner node) mp)
      else pull_up db mp deleted node ≫= del_loop db mp id deleted stack
  end.

Definition delItem (db : NodeStore) (mp : SHAMap) (id : Z) : MapRes (bool * SHAMap) :=
  walkTowardsKey db mp id ≫= fun '(_, stack) =>
    match stack with
    | [] => Fault (MissingNode id)
    | (Inner _, _) :: _ => Done (false, mp)
    | (Leaf leaf, _) :: stack =>
        if it_key (tr_item leaf) =? id then pair true <$> del_loop db mp id leaf stack None else Done (false, mp)
    end.

Definition updateGiveItem (db : NodeStore) (mp : SHAMap) (item : SHAMapItem) (isTransaction hasMeta : bool)
    (storageRoot : option Z) : MapRes (bool * SHAMap) :=
  let tag := it_key item in
  walkTowardsKey db mp tag ≫= fun '(_, stack) =>
    match stack with
    | [] => Fault (MissingNode tag)
    | (Inner _, _) :: _ => Done (false, mp)
    | (Leaf leaf, nodeID) :: stack =>
        if it_key (tr_item leaf) =? tag then
          let ours := tr_seq leaf =? mp_seq mp in
          let leaf := if ours then leaf else leaf {{ tr_seq := mp_seq mp }} in
          let '(changed, leaf) := setItem item (leaf_type isTransaction hasMeta storageRoot) storageRoot leaf in
          if changed then Done (true, mp {{ mp_root := dirtyUp mp stack tag (Leaf leaf) }})
          else if ours || isRoot nodeID then Done (true, mp {{ mp_root := place stack tag (Leaf leaf) }})
          else Done (true, mp)
        else Done (false, mp)
    end.

(** ** Hashing and writing *)

(** [preFlushNode]: a node that is not ours is copied before it is changed. *)
Definition preFlushNode (mp : SHAMap) (node : Node) : Node :=
  if getSeq node =? mp_seq mp then node else clone (mp_seq mp) node.

(** [writeNode]: the node can be shared, and the store has it under its hash. *)
Definition writeNode (node : Node) (db : NodeStore) : Node * NodeStore :=
  let node := setSeq 0 node in
  (node, <[getNodeHash node := addRaw node snfPREFIX]> db).

Definition share (mp : SHAMap) (doWrite : bool) (node : Node) (db : NodeStore) : Node * NodeStore :=
  if doWrite && mp_backed mp then writeNode node db else (setSeq 0 node, db).

(** Hashes and shares a changed node after the changed nodes below it: the number of
    nodes handled, the node and the store. *)
Fixpoint flush_node (fuel : nat) (mp : SHAMap) (doWrite : bool) (node : Node) (db : NodeStore) : Z * Node * NodeStore :=
  match node with
  | Leaf t =>
      let '(node, db) := share mp doWrite (Leaf (leaf_updateHash t).2) db in
      (1, node, db)
  | Inner inner =>
      match fuel with
      | O => (0, node, db)
      | S fuel =>
          let '(flushed, inner, db) :=
            fold_left (fun '(flushed, inner, db) branch =>
              if isEmptyBranch inner branch then (flushed, inner, db)
              else
                match getChild inner branch with
                | Some child =>
                    if getSeq child =? 0 then (flushed, inner, db)
                    else
                      let '(n, child, db) := flush_node fuel mp doWrite (preFlushNode mp child) db in
                      (flushed + n, shareChild branch child inner, db)
                | None => (flushed, inner, db)
                end) all_branches (0, inner, db) in
          let '(node, db) := share mp doWrite (Inner (updateHashDeep inner)) db in
          (flushed + 1, node, db)
      end
  end.

Definition walkSubTree (mp : SHAMap) (doWrite : bool) (db : NodeStore) : Z * SHAMap * NodeStore :=
  let root := mp_root mp in
  if getSeq root =? 0 then (0, mp, db)
  else
    match root with
    | Inner inner =>
        if inner_isEmpty inner then (1, mp {{ mp_root := Inner (inner_new 0) }}, db)
        else
          let '(n, root, db) := flush_node max_depth mp doWrite (preFlushNode mp root) db in
          (n, mp {{ mp_root := root }}, db)
    | Leaf _ =>
        let '(n, root, db) := flush_node max_depth mp doWrite (preFlushNode mp root) db in
        (n, mp {{ mp_root := root }}, db)
    end.

Definition unshare (mp : SHAMap) : SHAMap := (walkSubTree mp false ∅).1.2.
Definition flushDirty (mp : SHAMap) (db : NodeStore) : Z * SHAMap * NodeStore := walkSubTree mp true db.

Definition getHash (mp : SHAMap) : Z * SHAMap :=
  let hash := getNodeHash (mp_root mp) in
  if hash =? 0 then let mp := unshare mp in (getNodeHash (mp_root mp), mp) else (hash, mp).

Definition snapShot (mp : SHAMap) (isMutable : bool) : SHAMap :=
  let newMap :=
    mkMap (u32 (mp_seq mp + 1)) (mp_root mp) (if isMutable then Modifying else Immutable) (mp_backed mp) in
  if bool_decide (mp_state mp <> Immutable) || bool_decide (mp_state newMap <> Immutable) then unshare newMap else newMap.

(** A map on the root the store has for a hash. *)
Definition fetchRoot (db : NodeStore) (mp : SHAMap) (hash : Z) : bool * SHAMap :=
  if hash =? getNodeHash (mp_root mp) then (true, mp)
  else
    match fetchNodeNT db mp hash with
    | Some n => (true, mp {{ mp_root := n }})
    | None => (false, mp)
    end.

(** ** Iteration *)

(** The first branch from [from] on that is not empty. *)
Definition next_branch (inner : InnerNode Node) (from : Z) : option Z :=
  head (base.filter (fun m => from <= m /\ isEmptyBranch inner m = false) all_branches).

(** The loop of [firstBelow]; the position of a nested node is computed with the branch
    the first node was reached by. *)
Fixpoint first_loop (fuel : nat) (db : NodeStore) (mp : SHAMap) (branch : Z) (inner : InnerNode Node) (nodeID : SHAMapNodeID)
    (stack : NodeStack) : MapRes (option TreeNode * NodeStack) :=
  match fuel with
  | O => Fault TooDeep
  | S fuel =>
      let stack := (Inner inner, nodeID) :: stack in
      match next_branch inner 0 with
      | None => Done (None, stack)
      | Some m =>
          descendThrow db mp inner m ≫= fun node =>
            match node with
            | Leaf t => Done (Some t, (node, mkNodeID (it_key (tr_item t)) 64) :: stack)
            | Inner inner => first_loop fuel db mp branch inner (getChildNodeID nodeID branch) stack
            end
      end
  end.

Definition firstBelow (db : NodeStore) (mp : SHAMap) (node : Node) (stack : NodeStack) (branch : Z) :
    MapRes (option TreeNode * NodeStack) :=
  match node with
  | Leaf t => Done (Some t, (node, mkNodeID (it_key (tr_item t)) 64) :: stack)
  | Inner inner =>
      let nodeID := match stack with [] => root_id | (_, id) :: _ => getChildNodeID id branch end in
      first_loop max_depth db mp branch inner nodeID stack
  end.

Definition peekFirstItem (db : NodeStore) (mp : SHAMap) : MapRes (option TreeNode * NodeStack) :=
  firstBelow db mp (mp_root mp) [] 0 ≫= fun '(leaf, stack) =>
    Done (match leaf with Some t => (Some t, stack) | None => (None, []) end).

(** From the inner nodes above the leaf of a key to the next leaf. *)
Fixpoint next_loop (db : NodeStore) (mp : SHAMap) (id : Z) (stack : NodeStack) : MapRes (option TreeNode * NodeStack) :=
  match stack with
  | [] => Done (None, [])
  | (Leaf _, _) :: rest => next_loop db mp id rest
  | (Inner inner, nodeID) :: rest =>
      match next_branch inner (selectBranch nodeID id + 1) with
      | Some m =>
          descendThrow db mp inner m ≫= fun node =>
            firstBelow db mp node stack m ≫= fun '(leaf, stack) =>
              match leaf with
              | Some t => Done (Some t, stack)
              | None => Fault (MissingNode id)
              end
      | None => next_loop db mp id rest
      end
  end.

Definition peekNextItem (db : NodeStore) (mp : SHAMap) (id : Z) (stack : NodeStack) : MapRes (option TreeNode * NodeStack) :=
  next_loop db mp id (tail stack).

Definition upper_bound (db : NodeStore) (mp : SHAMap) (id : Z) : MapRes (option TreeNode * NodeStack) :=
  walkTowardsKey db mp id ≫= fun '(_, stack) =>
    match stack with
    | (Leaf leaf, nodeID) :: rest =>
        if it_key (tr_item leaf) >? id then Done (Some leaf, stack) else next_loop db mp id rest
    | _ => next_loop db mp id stack
    end.

(** The items from an iterator on; [n] bounds their number. *)
Fixpoint items_from (n : nat) (db : NodeStore) (mp : SHAMap) (at_ : option TreeNode * NodeStack) : MapRes (list SHAMapItem) :=
  match n, at_.1 with
  | S n, Some t =>
      peekNextItem db mp (it_key (tr_item t)) at_.2 ≫= fun next => cons (tr_item t) <$> items_from n db mp next
  | _, _ => Done []
  end.

(** ** Comparison *)

(** The differences found, how many more may be, and whether to go on. *)
Record Walk := mkWalk { wk_go : bool; wk_delta : Delta; wk_maxCount : Z }.

(** [std::map::insert], which keeps an entry that is there. *)
Definition note (key : Z) (ours other : option SHAMapItem) (w : Walk) : Walk :=
  let delta := match wk_delta w !! key with Some _ => wk_delta w | None => <[key := (ours, other)]> (wk_delta w) end in
  let maxCount := wk_maxCount w - 1 in
  mkWalk (negb (maxCount <=? 0)) delta maxCount.

Definition note_side (isFirstMap : bool) (key : Z) (here there : option SHAMapItem) (w : Walk) : Walk :=
  if isFirstMap then note key here there w else note key there here w.

(** One leaf of a branch that the other map has at most one item for; with it, whether
    that item is still unmatched. *)
Definition walk_leaf (isFirstMap : bool) (otherMapItem : option SHAMapItem) (item : SHAMapItem) (unmatched : bool) (w : Walk) :
    bool * Walk :=
  match otherMapItem with
  | Some o =>
      if negb unmatched || negb (it_key item =? it_key o) then
        (unmatched, note_side isFirstMap (it_key item) (Some item) None w)
      else if bool_decide (it_data item = it_data o) then (false, w)
      else (false, note_side isFirstMap (it_key item) (Some item) (Some o) w)
  | None => (unmatched, note_side isFirstMap (it_key item) (Some item) None w)
  end.

(** The nodes on some branches of an inner node. *)
Fixpoint descend_all (db : NodeStore) (mp : SHAMap) (inner : InnerNode Node) (branches : list Z) : MapRes (list Node) :=
  match branches with
  | [] => Done []
  | m :: branches =>
      if isEmptyBranch inner m then descend_all db mp inner branches
      else descendThrow db mp inner m ≫= fun c => cons c <$> descend_all db mp inner branches
  end.

(** The walk through a branch.  All the nodes below an inner node are fetched before the
    last one is taken from the stack. *)
Fixpoint walk_nodes (fuel : nat) (db : NodeStore) (mp : SHAMap) (isFirstMap : bool) (otherMapItem : option SHAMapItem)
    (node : Node) (st : bool * Walk) : MapRes (bool * Walk) :=
  if wk_go st.2 then
    match node with
    | Leaf t => Done (walk_leaf isFirstMap otherMapItem (tr_item t) st.1 st.2)
    | Inner inner =>
        match fuel with
        | O => Fault TooDeep
        | S fuel =>
            descend_all db mp inner all_branches ≫= fun nodes =>
              foldr (fun c r => r ≫= walk_nodes fuel db mp isFirstMap otherMapItem c) (Done st) nodes
        end
    end
  else Done st.

Definition walkBranch (db : NodeStore) (mp : SHAMap) (node : Node) (otherMapItem : option SHAMapItem) (isFirstMap : bool)
    (w : Walk) : MapRes Walk :=
  walk_nodes max_depth db mp isFirstMap otherMapItem node (bool_decide (is_Some otherMapItem), w) ≫= fun '(unmatched, w) =>
    Done (match otherMapItem with
          | Some o => if wk_go w && unmatched then note_side isFirstMap (it_key o) None (Some o) w else w
          | None => w
          end).

(** Two leaves at one position. *)
Definition compare_leaves (ours other : SHAMapItem) (w : Walk) : Walk :=
  if it_key ours =? it_key other then
    if bool_decide (it_data ours = it_data other) then w else note (it_key ours) (Some ours) (Some other) w
  else
    let w := note (it_key ours) (Some ours) None w in
    if wk_go w then note (it_key other) None (Some other) w else w.

(** One branch of two inner nodes: what is found at once, and the pair put aside. *)
Definition compare_branch (db : NodeStore) (ourMap otherMap : SHAMap) (ours other : InnerNode Node)
    (st : Walk * list (Node * Node)) (m : Z) : MapRes (Walk * list (Node * Node)) :=
  let '(w, pairs) := st in
  if negb (wk_go w) || (getChildHash ours m =? getChildHash other m) then Done st
  else if isEmptyBranch other m then
    descendThrow db ourMap ours m ≫= fun n => (fun w => (w, pairs)) <$> walkBranch db ourMap n None true w
  else if isEmptyBranch ours m then
    descendThrow db otherMap other m ≫= fun n => (fun w => (w, pairs)) <$> walkBranch db otherMap n None false w
  else
    descendThrow db ourMap ours m ≫= fun a => descendThrow db otherMap other m ≫= fun b => Done (w, (a, b) :: pairs).

Fixpoint compare_nodes (fuel : nat) (db : NodeStore) (ourMap otherMap : SHAMap) (ourNode otherNode : Node) (w : Walk) :
    MapRes Walk :=
  if wk_go w then
    match ourNode, otherNode with
    | Leaf ours, Leaf other => Done (compare_leaves (tr_item ours) (tr_item other) w)
    | Inner _, Leaf other => walkBranch db ourMap ourNode (Some (tr_item other)) true w
    | Leaf ours, Inner _ => walkBranch db otherMap otherNode (Some (tr_item ours)) false w
    | Inner ours, Inner other =>
        match fuel with
        | O => Fault TooDeep
        | S fuel =>
            fold_left (fun r m => r ≫= fun st => compare_branch db ourMap otherMap ours other st m) all_branches (Done (w, []))
              ≫= fun '(w, pairs) =>
            fold_left (fun r p => r ≫= compare_nodes fuel db ourMap otherMap p.1 p.2) pairs (Done w)
        end
    end
  else Done w.

(** The differences of two maps; [false] when there are too many. *)
Definition compare (db : NodeStore) (ourMap otherMap : SHAMap) (maxCount : Z) : MapRes (bool * Delta) :=
  let '(h1, ourMap) := getHash ourMap in
  let '(h2, otherMap) := getHash otherMap in
  if h1 =? h2 then Done (true, ∅)
  else
    compare_nodes max_depth db ourMap otherMap (mp_root ourMap) (mp_root otherMap) (mkWalk true ∅ maxCount) ≫= fun w =>
      Done (wk_go w, wk_delta w).

(** ** Merkle proofs *)

Record ProofLevel := mkLevel { lv_branch : Z; lv_nodeid : list Bytes }.

Record SHAMapProof := mkProof { pf_level : list ProofLevel; pf_rootid : Bytes }.

Definition proof_level (n : InnerNode Node) : ProofLevel :=
  mkLevel (in_isBranch n)
    ((fun m => be_bytes 32 (getChildHash n m)) <$> base.filter (fun m => isEmptyBranch n m = false) all_branches).

Fixpoint proof_loop (stack : NodeStack) (levels : list ProofLevel) (rootid : Bytes) : SHAMapProof :=
  match stack with
  | (Inner n, nodeID) :: stack =>
      proof_loop stack (levels ++ [proof_level n]) (if isRoot nodeID then be_bytes 32 (in_hash n) else rootid)
  | _ => mkProof levels rootid
  end.

(** The hash of the leaf and the proof; nothing for a key that is not there. *)
Definition genNodeProof (db : NodeStore) (mp : SHAMap) (key : Z) : MapRes (option (Z * SHAMapProof)) :=
  walkTowardsKey db mp key ≫= fun '(_, stack) =>
    Done (match stack with
          | (Leaf leaf, _) :: stack =>
              if it_key (tr_item leaf) =? key then
                Some (tr_hash leaf,
                      match stack with
                      | [] => mkProof [] (be_bytes 32 (tr_hash leaf))
                      | _ => proof_loop stack [] []
                      end)
              else None
          | _ => None
          end).

(** The hashes of a level, in the order of its branches; [None] when a hash does not
    have 32 bytes or there are not as many as branches. *)
Fixpoint level_hashes (branch : Z) (nodeids : list Bytes) (branches : list Z) : option (list Z) :=
  match branches with
  | [] => match nodeids with [] => Some [] | _ => None end
  | m :: branches =>
      if Z.testbit branch m then
        match nodeids with
        | id :: nodeids =>
            if (length id =? 32)%nat then cons (be_value id) <$> level_hashes branch nodeids branches else None
        | [] => None
        end
      else cons 0 <$> level_hashes branch nodeids branches
  end.

Definition branch_count (branch : Z) : nat := length (base.filter (fun m => Z.testbit branch m = true) all_branches).

(** One turn of the checker: the hash of the level if it names the child. *)
Definition verify_level (hashType : HashType) (child : Z) (level : ProofLevel) : option Z :=
  if (branch_count (lv_branch level) =? 0)%nat then None
  else
    match level_hashes (lv_branch level) (lv_nodeid level) all_branches with
    | Some hashes =>
        if existsb (fun m => Z.testbit (lv_branch level) m && (default 0 (hashes !! Z.to_nat m) =? child)) all_branches
        then Some (hasher hashType (be_bytes 4 hp_innerNode ++ concat (be_bytes 32 <$> hashes)))
        else None
    | None => None
    end.

Fixpoint verify_levels (hashType : HashType) (child : Z) (levels : list ProofLevel) : option Z :=
  match levels with
  | [] => Some child
  | level :: levels => verify_level hashType child level ≫= fun child => verify_levels hashType child levels
  end.

Definition verifyProof (nodeHash : Z) (proof : SHAMapProof) (rootHash : Z) (hashType : HashType) : bool :=
  if negb (length (pf_rootid proof) =? 32)%nat then false
  else
    let rootID := be_value (pf_rootid proof) in
    if negb (rootID =? rootHash) then false
    else
      match verify_levels hashType nodeHash (pf_level proof) with
      | Some child => child =? rootID
      | None => false
      end.

End SHAMap.
