(* ===== verification/ShaMapRep.v ===== *)
(** * The state tree: what a tree represents

    Keys as sequences of 64 nibbles, the reference hash of a set of items, and the
    relation between a tree of nodes and the items it holds. *)

From S2P Require Import Prelude HsTypes ShaMapNode ShaMap.

#[local] Open Scope Z_scope.

(** ** Keys *)

Definition valid_key (k : Z) : Prop := 0 <= k < 2 ^ 256.

(** The first [d] nibbles of a key as a number, and nibble [d]. *)
Definition prefix (d : nat) (k : Z) : Z := k / 16 ^ (64 - Z.of_nat d).
Definition nibble (d : nat) (k : Z) : Z := (k / 16 ^ (63 - Z.of_nat d)) mod 16.

Lemma nibble_range d k : 0 <= nibble d k < 16.
Proof. apply Z.mod_pos_bound. lia. Qed.

Lemma prefix_S d k : (d < 64)%nat -> prefix (S d) k = 16 * prefix d k + nibble d k.
Proof.
  intros Hd. unfold prefix, nibble. rewrite Nat2Z.inj_succ.
  replace (64 - Z.succ (Z.of_nat d)) with (63 - Z.of_nat d) by lia.
  replace (64 - Z.of_nat d) with (63 - Z.of_nat d + 1) by lia.
  rewrite Z.pow_add_r, Z.pow_1_r by lia. rewrite <- Z.div_div by lia.
  pose proof (Z.div_mod (k / 16 ^ (63 - Z.of_nat d)) 16). lia.
Qed.

Lemma prefix_0 k : valid_key k -> prefix 0 k = 0.
Proof. intros H. unfold prefix. apply Z.div_small. change (16 ^ (64 - Z.of_nat 0)) with (2 ^ 256). exact H. Qed.

Lemma prefix_64 k : prefix 64 k = k.
Proof. unfold prefix. change (16 ^ (64 - Z.of_nat 64)) with 1. apply Z.div_1_r. Qed.

Lemma prefix_S_eq d j k :
  (d < 64)%nat -> prefix (S d) j = prefix (S d) k <-> prefix d j = prefix d k /\ nibble d j = nibble d k.
Proof. intros Hd. rewrite !prefix_S by done. pose proof (nibble_range d j). pose proof (nibble_range d k). lia. Qed.

Lemma prefix_lt d j k : prefix d j < prefix d k -> j < k.
Proof.
  unfold prefix. intros H. destruct (Z.lt_ge_cases j k) as [|Hge]; [done|].
  destruct (Z.eq_dec (16 ^ (64 - Z.of_nat d)) 0) as [E|]; [rewrite E in H; by rewrite !Zdiv_0_r in H|].
  pose proof (Z.pow_nonneg 16 (64 - Z.of_nat d) ltac:(lia)).
  pose proof (Z.div_le_mono k j (16 ^ (64 - Z.of_nat d)) ltac:(lia) Hge). lia.
Qed.

Lemma nibble_lt d j k : (d < 64)%nat -> prefix d j = prefix d k -> nibble d j < nibble d k -> j < k.
Proof. intros Hd Hp Hn. apply (prefix_lt (S d)). rewrite !prefix_S by done. lia. Qed.

Lemma selectBranch_nibble id k d : ni_depth id = Z.of_nat d -> (d < 64)%nat -> selectBranch id k = nibble d k.
Proof.
  intros Hd Hlt. unfold selectBranch, key_byte, nibble. rewrite Hd, Zodd_mod.
  pose proof (Z.div_mod (Z.of_nat d) 2 ltac:(lia)) as Hdm. pose proof (Z.mod_pos_bound (Z.of_nat d) 2 ltac:(lia)) as Hr.
  change 255 with (Z.ones 8). change 15 with (Z.ones 4). rewrite !Z.land_ones, !Z.shiftr_div_pow2 by lia.
  replace (16 ^ (63 - Z.of_nat d)) with (2 ^ (4 * (63 - Z.of_nat d))) by (rewrite Z.pow_mul_r by lia; done).
  destruct (Z.eq_dec (Z.of_nat d mod 2) 1) as [E|E].
  - rewrite E. simpl Zeq_bool. cbv iota.
    replace (8 * (31 - Z.of_nat d / 2)) with (4 * (63 - Z.of_nat d)) by lia.
    set (q := _ / _). change (2 ^ 8) with (16 * 16). change (2 ^ 4) with 16. rewrite Z.rem_mul_r by lia.
    rewrite Z.mul_comm, Z.mod_add, Z.mod_mod by lia. done.
  - replace (Zeq_bool (Z.of_nat d mod 2) 1) with false by (replace (Z.of_nat d mod 2) with 0 by lia; done).
    replace (4 * (63 - Z.of_nat d)) with (8 * (31 - Z.of_nat d / 2) + 4) by lia.
    rewrite Z.pow_add_r, <- Z.div_div by lia.
    set (q := k / 2 ^ (8 * (31 - Z.of_nat d / 2))). change (2 ^ 8) with (16 * 16). change (2 ^ 4) with 16.
    rewrite Z.rem_mul_r by lia. rewrite Z.mul_comm, Z.div_add by lia.
    rewrite (Z.div_small (q mod 16)) by (apply Z.mod_pos_bound; lia). lia.
Qed.

Lemma child_depth id m d : ni_depth id = Z.of_nat d -> ni_depth (getChildNodeID id m) = Z.of_nat (S d).
Proof. intros H. unfold getChildNodeID. simpl. lia. Qed.

(** ** Branches *)

Lemma all_branches_spec m : m ∈ all_branches <-> 0 <= m < 16.
Proof.
  unfold all_branches. split; [intros H; set_unfold in H; lia|]. intros H.
  assert (m = 0 \/ m = 1 \/ m = 2 \/ m = 3 \/ m = 4 \/ m = 5 \/ m = 6 \/ m = 7 \/ m = 8 \/ m = 9 \/ m = 10 \/ m = 11
          \/ m = 12 \/ m = 13 \/ m = 14 \/ m = 15) as Hm by lia.
  set_unfold. naive_solver.
Qed.

Lemma all_branches_nodup : NoDup all_branches.
Proof. unfold all_branches. repeat (apply NoDup_cons; split; [set_unfold; lia|]). apply NoDup_nil_2. Qed.

(** ** Items *)

Record Value := mkValue { v_data : Bytes; v_type : TNType; v_root : option Z }.

#[export] Instance Value_eq_dec : EqDecision Value.
Proof. solve_decision. Defined.

Abbreviation Items := (gmap Z Value).

Definition leaf_value (t : TreeNode) : Value := mkValue (it_data (tr_item t)) (tr_type t) (tr_storageRoot t).
Definition leaf_key (t : TreeNode) : Z := it_key (tr_item t).

(** The items in a branch of an inner node at depth [d]. *)
Definition sub (d : nat) (b : Z) (m : Items) : Items := base.filter (fun e => nibble d e.1 = b) m.

Lemma sub_lookup d b m k : sub d b m !! k = if decide (nibble d k = b) then m !! k else None.
Proof.
  unfold sub. case_decide as Hb.
  - destruct (m !! k) eqn:E; [by apply map_lookup_filter_Some | by apply map_lookup_filter_None; left].
  - apply map_lookup_filter_None. right. by intros v _.
Qed.

Lemma sub_lookup_Some d b m k v : sub d b m !! k = Some v <-> m !! k = Some v /\ nibble d k = b.
Proof. rewrite sub_lookup. case_decide; naive_solver. Qed.

Lemma sub_own d m k : sub d (nibble d k) m !! k = m !! k.
Proof. by rewrite sub_lookup, decide_True. Qed.

Lemma sub_nonempty d m k v : m !! k = Some v -> sub d (nibble d k) m <> ∅.
Proof. intros Hk E. rewrite <- (sub_own d) in Hk. by rewrite E, lookup_empty in Hk. Qed.

Lemma sub_empty_map d b : sub d b ∅ = ∅.
Proof. apply map_eq. intros k. rewrite sub_lookup, lookup_empty. by case_decide. Qed.

Lemma sub_subseteq d b m : sub d b m ⊆ m.
Proof. apply map_filter_subseteq. Qed.

(** ** The reference hash

    It depends on the items only: a subtree with one item is a leaf, a larger one an
    inner node. *)

Section Reference.

Context `{Hashers}.

Definition value_hash (k : Z) (v : Value) : Z := leaf_hash (v_type v) (mkItem k (v_data v)) (v_root v).

(** The hash of a subtree with [h] levels of inner nodes at most. *)
Fixpoint tree_hash (h : nat) (m : Items) : Z :=
  match map_to_list m with
  | [] => 0
  | [(k, v)] => value_hash k v
  | _ =>
      match h with
      | O => 0
      | S h' => inner_hash ((fun b => tree_hash h' (sub (64 - h) b m)) <$> all_branches)
      end
  end.

(** The root is an inner node. *)
Definition root_hash (m : Items) : Z :=
  if decide (m = ∅) then 0 else inner_hash ((fun b => tree_hash 63 (sub 0 b m)) <$> all_branches).

Definition node_hash (d : nat) (m : Items) : Z := match d with O => root_hash m | S _ => tree_hash (64 - d) m end.

Lemma tree_hash_empty h : tree_hash h ∅ = 0.
Proof. destruct h; simpl; by rewrite map_to_list_empty. Qed.

Lemma tree_hash_singleton h k v : tree_hash h {[k := v]} = value_hash k v.
Proof. destruct h; simpl; by rewrite map_to_list_singleton. Qed.

Lemma tree_hash_S h m :
  (2 <= size m)%nat -> tree_hash (S h) m = inner_hash ((fun b => tree_hash h (sub (63 - h) b m)) <$> all_branches).
Proof.
  rewrite <- length_map_to_list. cbn [tree_hash]. intros Hm.
  destruct (map_to_list m) as [|[k v] [|e l]]; cbn [length] in Hm; [lia | lia | done].
Qed.

Lemma node_hash_inner d m :
  (d < 64)%nat -> (d = 0%nat -> m <> ∅) -> (0 < d -> 2 <= size m)%nat ->
  node_hash d m = inner_hash ((fun b => tree_hash (63 - d) (sub d b m)) <$> all_branches).
Proof.
  intros Hd H0 H1. destruct d as [|d].
  - unfold node_hash, root_hash. by rewrite decide_False by auto.
  - unfold node_hash. replace (64 - S d)%nat with (S (63 - S d)) by lia. rewrite tree_hash_S by (apply H1; lia).
    by replace (63 - (63 - S d))%nat with (S d) by lia.
Qed.

(** ** Representation *)

(** Where the nodes come from that are not at hand. *)
Definition resolve (fetch : Z -> option Node) (n : InnerNode Node) (b : Z) : option Node :=
  match getChild n b with Some c => Some c | None => fetch (getChildHash n b) end.

(** An inner node at depth [d] with prefix [p] holding the items [m]: its fields.
    A hash that is not there is that of a child at hand, and only in a node that has
    neither been shared nor hashed; where it is there the child has it too. *)
Record Fields (fetch : Z -> option Node) (d : nat) (p : Z) (n : InnerNode Node) (m : Items) : Prop := {
  fd_depth : (d < 64)%nat;
  fd_hashes : length (in_hashes n) = 16%nat;
  fd_children : length (in_children n) = 16%nat;
  fd_bits : forall i, 16 <= i -> Z.testbit (in_isBranch n) i = false;
  fd_keys : forall k v, m !! k = Some v -> valid_key k /\ prefix d k = p;
  fd_empty : forall b, 0 <= b < 16 -> isEmptyBranch n b = bool_decide (sub d b m = ∅);
  fd_none : forall b, 0 <= b < 16 -> sub d b m = ∅ -> getChild n b = None /\ getChildHash n b = 0;
  fd_some : forall b, 0 <= b < 16 -> sub d b m <> ∅ -> is_Some (resolve fetch n b);
  fd_hash : forall b, 0 <= b < 16 -> sub d b m <> ∅ ->
    (getChildHash n b = tree_hash (63 - d) (sub d b m)
     /\ forall c, getChild n b = Some c -> getNodeHash c = tree_hash (63 - d) (sub d b m))
    \/ is_Some (getChild n b) /\ in_seq n <> 0 /\ in_hash n = 0;
  fd_own : in_hash n = node_hash d m \/ in_hash n = 0 /\ in_seq n <> 0;
  fd_shared : forall b c, in_seq n = 0 -> getChild n b = Some c -> getSeq c = 0
}.

(** A node at depth [d] with prefix [p] holding the items [m].  An inner node below the
    root has two items at least. *)
Inductive Rep (fetch : Z -> option Node) : nat -> Z -> Node -> Items -> Prop :=
| Rep_leaf d p t :
    (d <= 64)%nat -> valid_key (leaf_key t) -> prefix d (leaf_key t) = p ->
    tr_hash t = value_hash (leaf_key t) (leaf_value t) ->
    Rep fetch d p (Leaf t) {[leaf_key t := leaf_value t]}
| Rep_inner d p n m :
    Fields fetch d p n m -> (0 < d -> 2 <= size m)%nat ->
    (forall b c, 0 <= b < 16 -> sub d b m <> ∅ -> resolve fetch n b = Some c -> Rep fetch (S d) (16 * p + b) c (sub d b m)) ->
    Rep fetch d p (Inner n) m.

(** The same for an inner node that may have too few items. *)
Definition Open (fetch : Z -> option Node) (d : nat) (p : Z) (n : InnerNode Node) (m : Items) : Prop :=
  Fields fetch d p n m /\
  forall b c, 0 <= b < 16 -> sub d b m <> ∅ -> resolve fetch n b = Some c -> Rep fetch (S d) (16 * p + b) c (sub d b m).

(** A map with the items [m]. *)
Record Holds (db : NodeStore) (mp : SHAMap) (m : Items) : Prop := {
  ho_seq : 0 < mp_seq mp;
  ho_inner : isInner (mp_root mp) = true;
  ho_rep : Rep (fetchNodeNT db mp) 0 0 (mp_root mp) m
}.

End Reference.
