(* ===== verification/ShaMapProps.v ===== *)
(** * The state tree: lookup and changes

    Walking towards a key, and that every change of the tree changes the items it
    represents accordingly. *)

From S2P Require Import Prelude HsTypes ShaMapNode ShaMap ShaMapRep.
From coqutil Require Import Datatypes.RecordSetters.
Import DoubleBraceUpdate.

#[local] Open Scope Z_scope.

(** ** The fields of an inner node *)

Lemma branch_index (b b' : Z) : 0 <= b < 16 -> 0 <= b' < 16 -> Z.to_nat b = Z.to_nat b' <-> b = b'.
Proof. lia. Qed.

Lemma getChild_setChild b c n b' :
  0 <= b < 16 -> 0 <= b' < 16 -> length (in_children n) = 16%nat ->
  getChild (setChild b c n) b' = if decide (b' = b) then c else getChild n b'.
Proof.
  intros Hb Hb' Hl. unfold getChild, setChild. simpl. case_decide as E.
  - subst. by rewrite list_lookup_insert_eq by lia.
  - rewrite list_lookup_insert_ne; [done|]. rewrite branch_index by done. congruence.
Qed.

Lemma getChildHash_setChild b c n b' :
  0 <= b < 16 -> 0 <= b' < 16 -> length (in_hashes n) = 16%nat ->
  getChildHash (setChild b c n) b' = if decide (b' = b) then 0 else getChildHash n b'.
Proof.
  intros Hb Hb' Hl. unfold getChildHash, setChild. simpl. case_decide as E.
  - subst. by rewrite list_lookup_insert_eq by lia.
  - rewrite list_lookup_insert_ne; [done|]. rewrite branch_index by done. congruence.
Qed.

Lemma testbit_setChild b c n i :
  0 <= b -> 0 <= i ->
  Z.testbit (in_isBranch (setChild b c n)) i
  = if decide (i = b) then bool_decide (is_Some c) else Z.testbit (in_isBranch n) i.
Proof.
  intros Hb Hi. unfold setChild. simpl. destruct c as [c|].
  - rewrite Z.lor_spec, Z.shiftl_1_l, Z.pow2_bits_eqb by lia. case_decide as E.
    + subst. by rewrite Z.eqb_refl, orb_true_r.
    + by rewrite (proj2 (Z.eqb_neq b i)), orb_false_r by lia.
  - rewrite Z.land_spec, Z.lnot_spec, Z.shiftl_1_l, Z.pow2_bits_eqb by lia. case_decide as E.
    + subst. by rewrite Z.eqb_refl, andb_false_r.
    + by rewrite (proj2 (Z.eqb_neq b i)), andb_true_r by lia.
Qed.

Lemma isEmptyBranch_setChild b c n b' :
  0 <= b < 16 -> 0 <= b' < 16 ->
  isEmptyBranch (setChild b c n) b' = if decide (b' = b) then bool_decide (c = None) else isEmptyBranch n b'.
Proof.
  intros Hb Hb'. unfold isEmptyBranch. rewrite testbit_setChild by lia. case_decide; [|done].
  by destruct c.
Qed.

Definition with_seq (s : Z) (n : InnerNode Node) : InnerNode Node :=
  mkInner (in_hashes n) (in_children n) (in_isBranch n) (in_hash n) s.

Lemma unshare_inner_eq mp n : unshare_inner mp n = with_seq (mp_seq mp) n.
Proof. unfold unshare_inner, with_seq. destruct (Z.eqb_spec (in_seq n) (mp_seq mp)) as [<-|]; by destruct n. Qed.

Section Props.

Context `{Hashers}.

Section Fetch.

Context (fetch : Z -> option Node).

#[local] Abbreviation Rep := (Rep fetch).
#[local] Abbreviation Open := (Open fetch).
#[local] Abbreviation Fields := (Fields fetch).

(** ** Facts about representations *)

Lemma Rep_keys d p n m k v : Rep d p n m -> m !! k = Some v -> valid_key k /\ prefix d k = p.
Proof.
  intros [d' p' t Hd Hv Hp Hh|d' p' n' m' HF _ _]; [|apply HF].
  intros [<- _]%lookup_singleton_Some. done.
Qed.

Lemma Rep_nonempty d p n m : Rep d p n m -> (0 < d)%nat -> m <> ∅.
Proof.
  intros [d' p' t Hd Hv Hp Hh|d' p' n' m' HF Hs _] Hd0; [apply map_non_empty_singleton|].
  intros ->. specialize (Hs Hd0). rewrite map_size_empty in Hs. lia.
Qed.

Lemma Rep_open d p n m : Rep d p (Inner n) m -> Open d p n m.
Proof. by inversion 1. Qed.

Lemma Open_Rep d p n m : Open d p n m -> (0 < d -> 2 <= size m)%nat -> Rep d p (Inner n) m.
Proof. intros [H1 H2] Hs. by constructor. Qed.

Lemma Rep_leaf_inv d p t m :
  Rep d p (Leaf t) m ->
  m = {[leaf_key t := leaf_value t]} /\ valid_key (leaf_key t) /\ prefix d (leaf_key t) = p
  /\ tr_hash t = value_hash (leaf_key t) (leaf_value t) /\ (d <= 64)%nat.
Proof. by inversion 1. Qed.

(** The child of a branch that is not empty. *)
Lemma Open_child d p n m b :
  Open d p n m -> 0 <= b < 16 -> sub d b m <> ∅ ->
  exists c, resolve fetch n b = Some c /\ Rep (S d) (16 * p + b) c (sub d b m).
Proof.
  intros [HF Hc] Hb Hne. destruct (fd_some _ _ _ _ _ HF b Hb Hne) as [c E]. exists c. split; [done|]. by apply Hc.
Qed.

Lemma Open_isEmpty d p n m b : Open d p n m -> 0 <= b < 16 -> isEmptyBranch n b = true <-> sub d b m = ∅.
Proof. intros [HF _] Hb. rewrite (fd_empty _ _ _ _ _ HF) by done. apply bool_decide_eq_true. Qed.

(** Changing one branch. *)
Lemma Open_setChild d p n m m' b child seq :
  Open d p n m -> seq <> 0 -> 0 <= b < 16 ->
  (forall k v, m' !! k = Some v -> valid_key k /\ prefix d k = p) ->
  (forall b', 0 <= b' < 16 -> b' <> b -> sub d b' m' = sub d b' m) ->
  match child with
  | Some c => sub d b m' <> ∅ /\ Rep (S d) (16 * p + b) c (sub d b m')
  | None => sub d b m' = ∅
  end ->
  Open d p (setChild b child (with_seq seq n)) m'.
Proof.
  intros [HF Hc] Hseq Hb Hkeys Hsub Hchild. pose proof (fd_children _ _ _ _ _ HF) as Hl1. pose proof (fd_hashes _ _ _ _ _ HF) as Hl2.
  assert (Hres : forall b', 0 <= b' < 16 -> b' <> b -> resolve fetch (setChild b child (with_seq seq n)) b' = resolve fetch n b').
  { intros b' Hb' Hne. unfold resolve. by rewrite getChild_setChild, getChildHash_setChild, !decide_False by done. }
  split; [split|].
  - apply HF.
  - simpl. by rewrite length_insert.
  - simpl. by rewrite length_insert.
  - intros i Hi. rewrite testbit_setChild, decide_False by lia. by apply HF.
  - done.
  - intros b' Hb'. rewrite isEmptyBranch_setChild by done. case_decide as E.
    + subst. destruct child as [c|]; [|by rewrite bool_decide_eq_true_2, bool_decide_eq_true_2 by done].
      by rewrite !bool_decide_eq_false_2 by (done || apply Hchild).
    + rewrite Hsub by done. exact (fd_empty _ _ _ _ _ HF b' Hb').
  - intros b' Hb' He. rewrite getChild_setChild, getChildHash_setChild by done. case_decide as E.
    + subst. destruct child as [c|]; [by destruct Hchild|done].
    + rewrite Hsub in He by done. exact (fd_none _ _ _ _ _ HF b' Hb' He).
  - intros b' Hb' Hne. destruct (decide (b' = b)) as [->|E].
    + unfold resolve. rewrite getChild_setChild, decide_True by done. destruct child; [done | by rewrite Hchild in Hne].
    + rewrite Hres by done. rewrite Hsub in Hne by done. by apply HF.
  - intros b' Hb' Hne. rewrite getChild_setChild, getChildHash_setChild by done. case_decide as E.
    + subst. right. destruct child; [done | by rewrite Hchild in Hne].
    + rewrite Hsub in Hne |- * by done. destruct (fd_hash _ _ _ _ _ HF b' Hb' Hne) as [|[]]; [by left | by right].
  - by right.
  - by intros b' c E.
  - intros b' c Hb' Hne. destruct (decide (b' = b)) as [->|E].
    + unfold resolve. rewrite getChild_setChild, decide_True by done. destruct child; [|by rewrite Hchild in Hne].
      intros [= ->]. apply Hchild.
    + rewrite Hres by done. rewrite Hsub in Hne |- * by done. by apply Hc.
Qed.

(** A new inner node. *)
Lemma inner_new_child seq b : getChild (inner_new seq) b = None.
Proof.
  unfold getChild. change (in_children (inner_new seq)) with (replicate 16 (@None Node)).
  destruct (_ !! _) eqn:E; [|done]. by apply lookup_replicate in E as [-> _].
Qed.

Lemma inner_new_hash seq b : getChildHash (inner_new seq) b = 0.
Proof.
  unfold getChildHash. change (in_hashes (inner_new seq)) with (replicate 16 0).
  destruct (_ !! _) eqn:E; [|done]. by apply lookup_replicate in E as [-> _].
Qed.

Lemma Open_new d p seq : (d < 64)%nat -> seq <> 0 -> Open d p (inner_new seq) ∅.
Proof.
  intros Hd Hs. split; [split|]; try done.
  - intros i _. apply Z.bits_0.
  - intros b _. unfold isEmptyBranch. simpl. by rewrite Z.bits_0, sub_empty_map.
  - intros b _ _. by rewrite inner_new_child, inner_new_hash.
  - by right.
Qed.

(** ** The stack above a position

    The nodes above the position with prefix [p] at depth [D], where the items [m] are,
    in a tree that holds [M]. *)
Inductive Above (M : Items) : nat -> Z -> Items -> NodeStack -> Prop :=
| Above_top : Above M 0 0 M []
| Above_down d p m n id stack b :
    Above M d p m stack -> Rep d p (Inner n) m -> ni_depth id = Z.of_nat d -> 0 <= b < 16 ->
    Above M (S d) (16 * p + b) (sub d b m) ((Inner n, id) :: stack).

Lemma Above_lookup M D p m stack :
  Above M D p m stack -> (forall k v, M !! k = Some v -> valid_key k) ->
  forall k, m !! k = if decide (prefix D k = p) then M !! k else None.
Proof.
  intros HA HM. induction HA as [|d p m n id stack b HA IH HR Hid Hb]; intros k.
  - case_decide as E; [done|]. destruct (M !! k) as [v|] eqn:Hk; [|done]. by rewrite (prefix_0 k (HM k v Hk)) in E.
  - apply Rep_open in HR as [HF _]. pose proof (fd_depth _ _ _ _ _ HF). rewrite sub_lookup, IH. rewrite prefix_S by done.
    pose proof (nibble_range d k). repeat case_decide; try done; lia.
Qed.

End Fetch.

(** ** Walking towards a key *)

Section Walk.

Context (db : NodeStore) (mp : SHAMap).

#[local] Abbreviation fetch := (fetchNodeNT db mp).

Lemma descendThrow_resolve n b c : resolve fetch n b = Some c -> descendThrow db mp n b = Done c.
Proof. unfold descendThrow, descend, resolve. by intros ->. Qed.

(** What is read from the store is shared. *)
Lemma fetchNodeNT_seq h n : fetchNodeNT db mp h = Some n -> getSeq n = 0.
Proof.
  unfold fetchNodeNT. destruct (mp_backed mp); [|done]. destruct (db !! h) as [data|]; [|done].
  destruct (makeFromPrefix data h) as [n'|] eqn:E; [|done]. intros [= ->]. revert E.
  unfold makeFromPrefix, makeTransaction, makeAccountState, makeContractState, makeTransactionWithMeta, makeFullInner, split_tag.
  repeat (case_match; simpl; try done); by intros [= <-].
Qed.

(** The walk ends in a leaf or in an inner node whose branch for the key is empty. *)
Inductive Arrived (M : Items) (k : Z) : option TreeNode * NodeStack -> Prop :=
| Arrived_leaf D t id stack :
    Above fetch M D (prefix D k) {[leaf_key t := leaf_value t]} stack ->
    Rep fetch D (prefix D k) (Leaf t) {[leaf_key t := leaf_value t]} -> ni_depth id = Z.of_nat D -> (0 < D)%nat ->
    (tr_seq t <> 0 -> place stack k (Leaf t) = mp_root mp) ->
    Arrived M k (Some t, (Leaf t, id) :: stack)
| Arrived_inner D n m id stack :
    Above fetch M D (prefix D k) m stack -> Rep fetch D (prefix D k) (Inner n) m -> ni_depth id = Z.of_nat D ->
    sub D (nibble D k) m = ∅ -> Arrived M k (None, (Inner n, id) :: stack).

(** A node that is not shared is at hand, and so are the nodes above it. *)
Lemma place_child d p n m b c :
  Open fetch d p n m -> 0 <= b < 16 -> resolve fetch n b = Some c -> getSeq c <> 0 -> shareChild b c n = n /\ in_seq n <> 0.
Proof.
  intros [HF _] Hb Hc Hs. unfold resolve in Hc. destruct (getChild n b) as [c'|] eqn:E.
  - injection Hc as ->. split; [|intros E0; by rewrite (fd_shared _ _ _ _ _ HF b c E0 E) in Hs].
    unfold getChild in E. destruct (in_children n !! Z.to_nat b) as [o|] eqn:E'; [|done]. simpl in E. subst o.
    unfold shareChild. rewrite list_insert_id by done. by destruct n.
  - by apply fetchNodeNT_seq in Hc.
Qed.

Lemma walk_arrives fuel M k D n m id stack :
  Above fetch M D (prefix D k) m stack -> Rep fetch D (prefix D k) n m -> ni_depth id = Z.of_nat D ->
  (64 - D <= fuel)%nat -> (isInner n = true \/ (0 < D)%nat) -> (getSeq n <> 0 -> place stack k n = mp_root mp) ->
  exists r, walk fuel db mp k n id stack = Done r /\ Arrived M k r.
Proof.
  revert D n m id stack. induction fuel as [|fuel IH]; intros D n m id stack HA HR Hid Hf Hin Hpl.
  all: destruct n as [t|n]; [apply Rep_leaf_inv in HR as Hl; destruct Hl as (-> & _), Hin; [done|]; simpl; eexists; split; [done|]; by eapply Arrived_leaf|].
  all: pose proof (Rep_open _ _ _ _ _ HR) as HO; pose proof (fd_depth _ _ _ _ _ (proj1 HO)) as Hd.
  1: lia.
  pose proof (nibble_range D k) as Hb. simpl. rewrite (selectBranch_nibble id k D) by done.
  destruct (isEmptyBranch n (nibble D k)) eqn:He.
  - apply (Open_isEmpty _ _ _ _ _ _ HO Hb) in He. eexists. split; [done|]. by eapply Arrived_inner.
  - assert (Hne : sub D (nibble D k) m <> ∅).
    { intros E. apply (Open_isEmpty _ _ _ _ _ _ HO Hb) in E. congruence. }
    destruct (Open_child _ _ _ _ _ _ HO Hb Hne) as (c & Hc & HRc). rewrite (descendThrow_resolve _ _ _ Hc). simpl.
    rewrite <- prefix_S in HRc by done. eapply IH; [|exact HRc | by apply child_depth | lia | right; lia |].
    + rewrite prefix_S by done. by constructor.
    + intros Hs. destruct (place_child _ _ _ _ _ _ HO Hb Hc Hs) as [E Hn]. simpl. rewrite (selectBranch_nibble id k D), E by done.
      by apply Hpl.
Qed.

Lemma walkTowardsKey_arrives M k :
  Holds db mp M -> valid_key k -> exists r, walkTowardsKey db mp k = Done r /\ Arrived M k r.
Proof.
  intros HM Hk. apply (walk_arrives _ M k 0 _ M).
  - rewrite prefix_0 by done. constructor.
  - rewrite prefix_0 by done. apply HM.
  - done.
  - unfold max_depth. lia.
  - left. apply HM.
  - done.
Qed.

Lemma Holds_keys M k v : Holds db mp M -> M !! k = Some v -> valid_key k.
Proof. intros HM Hk. by destruct (Rep_keys _ _ _ _ _ _ _ (ho_rep _ _ _ HM) Hk). Qed.

Lemma Above_own M D k m stack :
  Holds db mp M -> Above fetch M D (prefix D k) m stack -> m !! k = M !! k.
Proof. intros HM HA. by rewrite (Above_lookup _ _ _ _ _ _ HA (fun k v => Holds_keys M k v HM)), decide_True. Qed.

(** ** Lookup *)

Lemma findKey_spec M k :
  Holds db mp M -> valid_key k ->
  exists r, findKey db mp k = Done r
    /\ match r with
       | Some t => leaf_key t = k /\ M !! k = Some (leaf_value t)
       | None => M !! k = None
       end.
Proof.
  intros HM Hk. destruct (walkTowardsKey_arrives M k HM Hk) as (r & Hw & Ha). unfold findKey. rewrite Hw. simpl.
  destruct Ha as [D t id stack HA HR Hid HD _|D n m id stack HA HR Hid He]; eexists; (split; [done|]).
  - apply (Above_own M D k _ _ HM) in HA. fold (leaf_key t). destruct (Z.eqb_spec (leaf_key t) k) as [E|E].
    + rewrite <- HA, E. split; [done|]. apply lookup_singleton_eq.
    + rewrite <- HA. by apply lookup_singleton_None.
  - apply (Above_own M D k _ _ HM) in HA. rewrite <- HA, <- (sub_own D), He. apply lookup_empty.
Qed.

(** ** Hooking a changed subtree *)

(** [M'] is [M] with [m'] for the items that have [D] nibbles in common with [k]. *)
Definition Replaced (D : nat) (k : Z) (m' M M' : Items) : Prop :=
  forall j, M' !! j = if decide (prefix D j = prefix D k) then m' !! j else M !! j.

(** What a node on the way gets, and its branches. *)
Definition part (d : nat) (k : Z) (M : Items) : Items := base.filter (fun e => prefix d e.1 = prefix d k) M.

Lemma part_lookup d k M j : part d k M !! j = if decide (prefix d j = prefix d k) then M !! j else None.
Proof.
  unfold part. case_decide as Hb.
  - destruct (M !! j) eqn:E; [by apply map_lookup_filter_Some | by apply map_lookup_filter_None; left].
  - apply map_lookup_filter_None. right. by intros v _.
Qed.

Lemma part_sub d k m' M M' m :
  (d < 64)%nat -> Replaced (S d) k m' M M' -> (forall j v, m' !! j = Some v -> prefix (S d) j = prefix (S d) k) ->
  (forall j, m !! j = if decide (prefix d j = prefix d k) then M !! j else None) ->
  sub d (nibble d k) (part d k M') = m'
  /\ (forall b, b <> nibble d k -> sub d b (part d k M') = sub d b m)
  /\ Replaced d k (part d k M') M M'.
Proof.
  intros Hd HR Hm' Hm. pose proof (prefix_S_eq d) as HS. split_and!.
  - apply map_eq. intros j. rewrite sub_lookup, part_lookup, HR. specialize (HS j k Hd).
    destruct (m' !! j) as [v|] eqn:E; [specialize (Hm' j v E)|]; repeat case_decide; naive_solver.
  - intros b Hb. apply map_eq. intros j. rewrite !sub_lookup, part_lookup, HR, Hm. specialize (HS j k Hd).
    repeat case_decide; naive_solver.
  - intros j. rewrite part_lookup, HR. specialize (HS j k Hd). repeat case_decide; naive_solver.
Qed.

Lemma size_split d b m : size m = (size (sub d b m) + size (base.filter (fun e => nibble d e.1 <> b) m))%nat.
Proof.
  rewrite <- map_size_disj_union by apply map_disjoint_filter_complement.
  unfold sub. by rewrite map_filter_union_complement.
Qed.

(** A subtree that does not get smaller leaves none of the nodes above with too few
    items. *)
Lemma size_replaced d b m m' :
  (size (sub d b m) <= size (sub d b m'))%nat -> (forall b', b' <> b -> sub d b' m' = sub d b' m) -> (size m <= size m')%nat.
Proof.
  intros Hs Hb. rewrite (size_split d b m), (size_split d b m').
  assert (base.filter (fun e => nibble d e.1 <> b) m' = base.filter (fun e => nibble d e.1 <> b) m) as ->; [|lia].
  apply map_eq. intros j. destruct (decide (nibble d j = b)) as [E|E].
  - assert (HN : forall (X : Items), base.filter (fun e => nibble d e.1 <> b) X !! j = None); [|by rewrite !HN].
    intros X. apply map_lookup_filter_None. right. intros v _. simpl. naive_solver.
  - assert (HN : forall (X : Items), base.filter (fun e => nibble d e.1 <> b) X !! j = sub d (nibble d j) X !! j); [|by rewrite !HN, Hb].
    intros X. rewrite sub_own. destruct (X !! j) eqn:EX; [by apply map_lookup_filter_Some | by apply map_lookup_filter_None; left].
Qed.

Lemma dirtyUp_rep M M' k D m m' stack c :
  0 < mp_seq mp -> (forall j v, M !! j = Some v -> valid_key j) ->
  Above fetch M D (prefix D k) m stack -> Rep fetch D (prefix D k) c m' ->
  (size m <= size m')%nat -> m' <> ∅ -> valid_key k -> Replaced D k m' M M' ->
  Rep fetch 0 0 (dirtyUp mp stack k c) M'.
Proof.
  intros Hseq HM HA. remember (prefix D k) as P eqn:HP. revert c m' HP.
  induction HA as [|d p m n id stack b HA IH HR Hid Hb]; intros c m' HP Hc Hs Hne Hk HRep.
  - simpl. assert (M' = m') as ->; [|done]. apply map_eq. intros j. rewrite HRep. case_decide as Hp; [done|].
    rewrite (prefix_0 k Hk) in Hp. destruct (M !! j) as [v|] eqn:E.
    + by rewrite prefix_0 in Hp by (by eapply HM).
    + destruct (m' !! j) as [v|] eqn:E'; [|done]. by destruct (Rep_keys _ _ _ _ _ _ _ Hc E') as [_ ?].
  - pose proof (Rep_open _ _ _ _ _ HR) as HO. pose proof (fd_depth _ _ _ _ _ (proj1 HO)) as Hd.
    rewrite prefix_S in HP by done. pose proof (nibble_range d k). assert (p = prefix d k /\ b = nibble d k) as [Ep Eb] by lia.
    simpl. rewrite (selectBranch_nibble id k d), unshare_inner_eq by done. rewrite Eb in *.
    destruct (part_sub d k m' M M' m Hd HRep) as (P1 & P2 & P3).
    { intros j v Hj. destruct (Rep_keys _ _ _ _ _ _ _ Hc Hj) as [_ ->]. rewrite prefix_S by done. lia. }
    { rewrite <- Ep. exact (Above_lookup _ _ _ _ _ _ HA HM). }
    assert (Hsz : (size m <= size (part d k M'))%nat).
    { apply (size_replaced d (nibble d k)); [by rewrite P1 | done]. }
    apply (IH _ (part d k M')); try done.
    + apply Open_Rep; [apply (Open_setChild _ _ _ _ m); try done; [lia | | |] |].
      * intros j v. rewrite part_lookup, <- Ep. case_decide as Hp; [|done]. rewrite HRep. case_decide; [|by eauto].
        intros Hj. by destruct (Rep_keys _ _ _ _ _ _ _ Hc Hj).
      * intros b' _. apply P2.
      * by rewrite P1.
      * intros Hd0. apply (Nat.le_trans _ (size m)); [|done]. by inversion HR; auto.
    + intros E. rewrite E, sub_empty_map in P1. by rewrite <- P1 in Hne.
Qed.

End Walk.

End Props.
