(* ===== verification/ShaMapOps.v ===== *)
(** * The state tree: insertion, removal and update

    What the operations that change a tree do to the items it holds, a removal to those
    beside the removed item included. *)

From S2P Require Import Prelude HsTypes ShaMapNode ShaMap ShaMapRep ShaMapProps.
From coqutil Require Import Datatypes.RecordSetters.
Import DoubleBraceUpdate.

#[local] Open Scope Z_scope.

Section Ops.

Context `{Hashers}.

Lemma bind_done {A B} (a : A) (f : A -> MapRes B) : Done a ≫= f = f a.
Proof. done. Qed.

(** ** Leaves *)

Lemma leaf_new_spec item ty s root :
  leaf_key (leaf_new item ty s root) = it_key item
  /\ leaf_value (leaf_new item ty s root) = mkValue (it_data item) ty root
  /\ tr_hash (leaf_new item ty s root) = leaf_hash ty item root
  /\ tr_seq (leaf_new item ty s root) = s.
Proof. unfold leaf_new, leaf_updateHash. simpl. destruct (Z.eqb_spec (leaf_hash ty item root) 0) as [E|E]; simpl; by rewrite ?E. Qed.

Lemma leaf_new_rep fetch d item ty s root :
  (d <= 64)%nat -> valid_key (it_key item) ->
  Rep fetch d (prefix d (it_key item)) (Leaf (leaf_new item ty s root)) {[it_key item := mkValue (it_data item) ty root]}.
Proof.
  intros Hd Hk. destruct (leaf_new_spec item ty s root) as (E1 & E2 & E3 & _). rewrite <- E2, <- E1.
  apply Rep_leaf; [done | by rewrite E1 | by rewrite E1 |]. rewrite E1, E2, E3. unfold value_hash. simpl. by destruct item.
Qed.

Lemma setItem_spec item ty root t :
  let t' := (setItem item ty root t).2 in
  leaf_key t' = it_key item /\ leaf_value t' = mkValue (it_data item) ty root
  /\ tr_hash t' = leaf_hash ty item root /\ tr_seq t' = tr_seq t
  /\ (setItem item ty root t).1 = negb (leaf_hash ty item root =? tr_hash t).
Proof.
  destruct t as [i y r h s]. cbv -[leaf_hash Z.eqb negb it_key it_data].
  destruct (Z.eqb_spec (leaf_hash ty item root) h) as [<-|]; done.
Qed.

(** ** Subtrees with one or two items *)

Lemma sub_singleton_eq d k v : sub d (nibble d k) {[k := v]} = {[k := v]}.
Proof. apply map_eq. intros j. rewrite sub_lookup. case_decide; [done|]. by rewrite lookup_singleton_ne by naive_solver. Qed.

Lemma sub_singleton_ne d b k v : b <> nibble d k -> sub d b {[k := v]} = ∅.
Proof. intros Hb. apply map_eq. intros j. rewrite sub_lookup, lookup_empty. case_decide; [|done]. by rewrite lookup_singleton_ne by naive_solver. Qed.

Lemma sub_insert_ne d b k v m : b <> nibble d k -> sub d b (<[k := v]> m) = sub d b m.
Proof. intros Hb. apply map_eq. intros j. rewrite !sub_lookup. case_decide; [|done]. by rewrite lookup_insert_ne by naive_solver. Qed.

Lemma sub_insert_fresh d k v m : sub d (nibble d k) m = ∅ -> sub d (nibble d k) (<[k := v]> m) = {[k := v]}.
Proof.
  intros Hm. apply map_eq. intros j. rewrite sub_lookup. destruct (decide (j = k)) as [->|Hj].
  - by rewrite decide_True, lookup_insert_eq, lookup_singleton_eq by done.
  - rewrite lookup_insert_ne, lookup_singleton_ne by done. rewrite <- sub_lookup, Hm. apply lookup_empty.
Qed.

(** A leaf for a branch that is empty. *)
Lemma Open_setLeaf fetch d n m item ty s s' root :
  Open fetch d (prefix d (it_key item)) n m -> s' <> 0 -> valid_key (it_key item) ->
  sub d (nibble d (it_key item)) m = ∅ ->
  Open fetch d (prefix d (it_key item))
    (setChild (nibble d (it_key item)) (Some (Leaf (leaf_new item ty s root))) (with_seq s' n))
    (<[it_key item := mkValue (it_data item) ty root]> m).
Proof.
  intros HO Hs Hk Hm. pose proof (fd_depth _ _ _ _ _ (proj1 HO)) as Hd.
  apply (Open_setChild _ _ _ _ m); [done | done | apply nibble_range | | |].
  - intros j v [[<- _]|[_ Hj]]%lookup_insert_Some; [done|]. by apply (proj1 HO) in Hj.
  - intros b _ Hb. by apply sub_insert_ne.
  - rewrite sub_insert_fresh by done. split; [apply map_non_empty_singleton|]. rewrite <- prefix_S by done. by apply leaf_new_rep.
Qed.

Section Map.

Context (db : NodeStore) (mp : SHAMap).

#[local] Abbreviation fetch := (fetchNodeNT db mp).

(** ** Splitting a leaf *)

Lemma with_seq_new s : with_seq s (inner_new s) = inner_new s.
Proof. done. Qed.

(** The new inner nodes down to where two keys part, and how what is put below the
    last one is hooked. *)
Lemma split_spec fuel tag other D id stack :
  0 < mp_seq mp -> tag <> other -> (D < 64)%nat -> (64 - D <= fuel)%nat -> valid_key tag ->
  prefix D tag = prefix D other -> ni_depth id = Z.of_nat D ->
  exists D' id' stack',
    split_loop fuel mp tag other (inner_new (mp_seq mp)) id stack = Done (inner_new (mp_seq mp), id', stack')
    /\ ni_depth id' = Z.of_nat D' /\ (D' < 64)%nat /\ prefix D' tag = prefix D' other /\ nibble D' tag <> nibble D' other
    /\ (forall c m, Rep fetch D' (prefix D' tag) c m -> (2 <= size m)%nat ->
        exists c', Rep fetch D (prefix D tag) c' m /\ dirtyUp mp stack' tag c = dirtyUp mp stack tag c').
Proof.
  intros Hseq Hne. revert D id stack. induction fuel as [|fuel IH]; intros D id stack HD Hf Hk Hp Hid; [lia|].
  simpl. rewrite !(selectBranch_nibble id _ D) by done. destruct (Z.eqb_spec (nibble D tag) (nibble D other)) as [E|E].
  - assert (HpS : prefix (S D) tag = prefix (S D) other) by (by apply prefix_S_eq).
    assert (HSD : (S D < 64)%nat).
    { destruct (decide (S D = 64)%nat) as [E64|]; [|lia]. rewrite E64, !prefix_64 in HpS. done. }
    destruct (IH (S D) (getChildNodeID id (nibble D tag)) ((Inner (inner_new (mp_seq mp)), id) :: stack))
      as (D' & id' & stack' & Hl & Hid' & HD' & Hp' & Hn' & Hup); try done; [lia | by apply child_depth |].
    exists D', id', stack'. split_and!; [done..|]. intros c m Hc Hm. destruct (Hup c m Hc Hm) as (c' & Hc' & ->).
    simpl. rewrite (selectBranch_nibble id tag D), unshare_inner_eq, with_seq_new by done. eexists. split; [|done].
    apply Open_Rep; [|done]. rewrite <- with_seq_new. rewrite prefix_S in Hc' by done.
    assert (Hall : forall j v, m !! j = Some v -> valid_key j /\ prefix D j = prefix D tag /\ nibble D j = nibble D tag).
    { intros j v Hj. destruct (Rep_keys _ _ _ _ _ _ _ Hc' Hj) as [? Hpj]. rewrite prefix_S in Hpj by done.
      pose proof (nibble_range D j). pose proof (nibble_range D tag). split_and!; [done | lia..]. }
    assert (Hsub : sub D (nibble D tag) m = m).
    { apply map_eq. intros j. rewrite sub_lookup. case_decide; [done|]. destruct (m !! j) eqn:Ej; [|done]. apply Hall in Ej. naive_solver. }
    apply (Open_setChild _ _ _ _ ∅); [apply Open_new; lia | lia | apply nibble_range | | |].
    + intros j v Hj. apply Hall in Hj. naive_solver.
    + intros b _ Hb. rewrite sub_empty_map. apply map_eq. intros j. rewrite sub_lookup, lookup_empty. case_decide; [|done].
      destruct (m !! j) eqn:Ej; [|done]. apply Hall in Ej. naive_solver.
    + rewrite Hsub. split; [|done]. intros ->. rewrite map_size_empty in Hm. lia.
  - exists D, id, stack. split_and!; try done. intros c m Hc Hm. by exists c.
Qed.

(** The node where they part. *)
Lemma parted_rep d item ty s root other ty' s' root' :
  0 < mp_seq mp -> (d < 64)%nat -> valid_key (it_key item) -> valid_key (it_key other) ->
  prefix d (it_key item) = prefix d (it_key other) -> nibble d (it_key item) <> nibble d (it_key other) ->
  Rep fetch d (prefix d (it_key item))
    (Inner (setChild (nibble d (it_key other)) (Some (Leaf (leaf_new other ty' s' root')))
              (setChild (nibble d (it_key item)) (Some (Leaf (leaf_new item ty s root))) (inner_new (mp_seq mp)))))
    (<[it_key other := mkValue (it_data other) ty' root']> {[it_key item := mkValue (it_data item) ty root]}).
Proof.
  intros Hseq Hd Hk Hk' Hp Hn. apply Open_Rep.
  - rewrite <- (with_seq_new (mp_seq mp)). set (n := setChild (nibble d (it_key item)) _ _).
    change n with (with_seq (mp_seq mp) n). rewrite Hp. apply Open_setLeaf; [|lia | done |].
    + rewrite <- Hp. subst n. apply (Open_setLeaf _ _ _ ∅); [apply Open_new; lia | lia | done | apply sub_empty_map].
    + apply sub_singleton_ne. naive_solver.
  - intros _. rewrite map_size_insert_None; [by rewrite map_size_singleton|]. apply lookup_singleton_ne. intros E. by rewrite E in Hn.
Qed.

(** ** The new root *)

Lemma dirtyUp_inner M D p m stack k c :
  Above fetch M D p m stack -> (isInner c = true \/ (0 < D)%nat) -> isInner (dirtyUp mp stack k c) = true.
Proof.
  intros HA. revert c. induction HA as [|d p m n id stack b HA IH HR Hid Hb]; intros c [Hc|Hc]; try done; [lia|..].
  all: simpl; apply IH; by left.
Qed.

Lemma with_root_holds root M M' :
  Holds db mp M -> isInner root = true -> Rep fetch 0 0 root M' -> Holds db (mp {{ mp_root := root }}) M'.
Proof. intros [Hs Hi Hr] Hr' HR. by split. Qed.

Lemma set_root_eq root M : Holds db mp M -> set_root root mp = mp {{ mp_root := root }}.
Proof. intros [Hs Hi Hr]. unfold set_root. by destruct (mp_root mp). Qed.

(** A changed subtree that does not get smaller, hooked to the root. *)
Lemma dirtyUp_holds M M' k D m m' stack c :
  Holds db mp M -> Above fetch M D (prefix D k) m stack -> Rep fetch D (prefix D k) c m' ->
  (size m <= size m')%nat -> m' <> ∅ -> valid_key k -> Replaced D k m' M M' -> (isInner c = true \/ (0 < D)%nat) ->
  Holds db (mp {{ mp_root := dirtyUp mp stack k c }}) M'.
Proof.
  intros HM HA Hc Hs Hne Hk HR Hi. apply (with_root_holds _ M); [done | by eapply dirtyUp_inner |].
  eapply dirtyUp_rep; try done; [apply HM|]. intros j v. by apply (Holds_keys db mp).
Qed.

(** ** Insertion *)

Lemma insert_replaced M D k v m :
  (forall j, m !! j = if decide (prefix D j = prefix D k) then M !! j else None) ->
  Replaced D k (<[k := v]> m) M (<[k := v]> M).
Proof.
  intros Hm j. destruct (decide (j = k)) as [->|Hj].
  - by rewrite decide_True, !lookup_insert_eq by done.
  - rewrite !lookup_insert_ne, Hm by done. by case_decide.
Qed.

(** Where the walk ends in a leaf with another key. *)
Lemma add_beside_leaf M item ty root D t id stack :
  Holds db mp M -> valid_key (it_key item) -> leaf_key t <> it_key item ->
  Above fetch M D (prefix D (it_key item)) {[leaf_key t := leaf_value t]} stack ->
  Rep fetch D (prefix D (it_key item)) (Leaf t) {[leaf_key t := leaf_value t]} -> ni_depth id = Z.of_nat D ->
  exists id' stack',
    split_loop (S max_depth) mp (it_key item) (leaf_key t) (inner_new (mp_seq mp)) id stack
      = Done (inner_new (mp_seq mp), id', stack')
    /\ Holds db (mp {{ mp_root :=
         dirtyUp mp stack' (it_key item)
           (Inner (setChild (selectBranch id' (leaf_key t)) (Some (Leaf (leaf_new (tr_item t) (tr_type t) (mp_seq mp) (tr_storageRoot t))))
              (setChild (selectBranch id' (it_key item)) (Some (Leaf (leaf_new item ty (mp_seq mp) root))) (inner_new (mp_seq mp))))) }})
         (<[it_key item := mkValue (it_data item) ty root]> M).
Proof.
  intros HM Hk E HA HR Hid. apply Rep_leaf_inv in HR as (_ & Hv & Hpt & Hh & HD).
  assert (HD64 : (D < 64)%nat).
  { destruct (decide (D = 64)%nat) as [->|]; [|lia]. by rewrite !prefix_64 in Hpt. }
  destruct (split_spec (S max_depth) (it_key item) (leaf_key t) D id stack)
    as (D' & id' & stack' & Hs & Hid' & HD' & Hp' & Hn' & Hup); try done; [apply HM | unfold max_depth; lia |].
  exists id', stack'. split; [done|]. rewrite !(selectBranch_nibble id' _ D') by done.
  set (ours := mkValue (it_data item) ty root).
  assert (Hsz : size (<[leaf_key t := leaf_value t]> {[it_key item := ours]} : Items) = 2%nat).
  { rewrite map_size_insert_None; [by rewrite map_size_singleton | by apply lookup_singleton_ne]. }
  match goal with |- context [dirtyUp mp stack' _ ?n] =>
    destruct (Hup n (<[leaf_key t := leaf_value t]> {[it_key item := ours]})) as (c' & Hc' & ->) end;
    [apply parted_rep; try done; apply HM | rewrite Hsz; lia |].
  eapply (dirtyUp_holds M _ (it_key item)); try done.
  - rewrite map_size_singleton, Hsz. lia.
  - apply insert_non_empty.
  - rewrite <- insert_empty, insert_insert_ne, insert_empty by done. apply insert_replaced.
    eapply Above_lookup; [done|]. intros j v. by apply (Holds_keys db mp).
  - destruct c' as [t'|]; [|by left]. apply Rep_leaf_inv in Hc' as (Hx & _). rewrite Hx, map_size_singleton in Hsz. lia.
Qed.

(** Where it ends in an inner node. *)
Lemma add_to_inner M item ty root D n m id stack :
  Holds db mp M -> valid_key (it_key item) ->
  Above fetch M D (prefix D (it_key item)) m stack -> Rep fetch D (prefix D (it_key item)) (Inner n) m ->
  ni_depth id = Z.of_nat D -> sub D (nibble D (it_key item)) m = ∅ ->
  Holds db (mp {{ mp_root :=
      dirtyUp mp stack (it_key item)
        (Inner (setChild (selectBranch id (it_key item)) (Some (Leaf (leaf_new item ty (mp_seq mp) root))) (unshare_inner mp n))) }})
    (<[it_key item := mkValue (it_data item) ty root]> M).
Proof.
  intros HM Hk HA HR Hid He. pose proof (ho_seq _ _ _ HM) as Hseq. pose proof (Rep_open _ _ _ _ _ HR) as HO.
  pose proof (fd_depth _ _ _ _ _ (proj1 HO)) as HD. rewrite (selectBranch_nibble id _ D), unshare_inner_eq by done.
  set (ours := mkValue (it_data item) ty root).
  assert (Hsz : size (<[it_key item := ours]> m) = S (size m)).
  { apply map_size_insert_None. by rewrite <- (sub_own D), He. }
  eapply (dirtyUp_holds M _ (it_key item) D m (<[it_key item := ours]> m)); try done.
  - apply Open_Rep; [apply Open_setLeaf; try done; lia|]. intros H0. rewrite Hsz. inversion HR. lia.
  - rewrite Hsz. lia.
  - apply insert_non_empty.
  - apply insert_replaced. eapply Above_lookup; [done|]. intros j v. by apply (Holds_keys db mp).
  - by left.
Qed.

(** An item is added unless its key is taken. *)
Lemma addGiveItem_spec M item isTransaction hasMeta root :
  Holds db mp M -> valid_key (it_key item) ->
  exists mp', addGiveItem db mp item isTransaction hasMeta root = Done (bool_decide (M !! it_key item = None), mp')
    /\ mp_seq mp' = mp_seq mp /\ mp_backed mp' = mp_backed mp /\ mp_state mp' = mp_state mp
    /\ Holds db mp' (match M !! it_key item with
                     | Some _ => M
                     | None => <[it_key item := mkValue (it_data item) (leaf_type isTransaction hasMeta root) root]> M
                     end).
Proof.
  intros HM Hk. destruct (walkTowardsKey_arrives db mp M _ HM Hk) as (r & Hw & Ha). unfold addGiveItem. rewrite Hw, bind_done.
  destruct Ha as [D t id stack HA HR Hid HD _|D n m id stack HA HR Hid He].
  all: pose proof (Above_own _ _ _ _ _ _ _ HM HA) as Hown; cbv beta iota zeta.
  - change (it_key (tr_item t)) with (leaf_key t). destruct (Z.eqb_spec (leaf_key t) (it_key item)) as [E|E].
    + rewrite <- E, lookup_singleton_eq in Hown. rewrite <- E, <- Hown. by exists mp.
    + rewrite lookup_singleton_ne in Hown by done. rewrite <- Hown.
      edestruct (add_beside_leaf M item) as (id' & stack' & -> & HM'); [done..|].
      rewrite bind_done. cbv beta iota. rewrite (set_root_eq _ M HM). by eexists.
  - rewrite <- (sub_own D), He, lookup_empty in Hown. rewrite <- Hown, (set_root_eq _ M HM).
    eexists. split; [done|]. split_and!; [done..|]. by eapply add_to_inner.
Qed.

(** ** Update *)

Lemma update_replaced D k v w M :
  (forall j, ({[k := w]} : Items) !! j = if decide (prefix D j = prefix D k) then M !! j else None) ->
  Replaced D k {[k := v]} M (<[k := v]> M).
Proof. intros Hm. rewrite <- (insert_singleton_eq k v w). by apply insert_replaced. Qed.

(** The leaf after the change. *)
Definition update_leaf (item : SHAMapItem) (ty : TNType) (root : option Z) (t : TreeNode) : bool * TreeNode :=
  setItem item ty root (if tr_seq t =? mp_seq mp then t else t {{ tr_seq := mp_seq mp }}).

Lemma update_leaf_spec item ty root t :
  let t' := (update_leaf item ty root t).2 in
  leaf_key t' = it_key item /\ leaf_value t' = mkValue (it_data item) ty root
  /\ tr_hash t' = leaf_hash ty item root /\ tr_seq t' = mp_seq mp
  /\ (update_leaf item ty root t).1 = negb (leaf_hash ty item root =? tr_hash t).
Proof.
  unfold update_leaf. destruct (Z.eqb_spec (tr_seq t) (mp_seq mp)) as [<-|]; [apply setItem_spec|].
  destruct t as [i y r h s]. apply (setItem_spec item ty root (mkTreeNode i y r h (mp_seq mp))).
Qed.

(** A leaf that is not changed is the one that was there. *)
Lemma update_same item ty root t :
  leaf_key t = it_key item -> leaf_value t = mkValue (it_data item) ty root -> tr_hash t = leaf_hash ty item root ->
  tr_seq t = mp_seq mp -> (update_leaf item ty root t).2 = t.
Proof.
  intros E1 E2 E3 E4. destruct (update_leaf_spec item ty root t) as (F1 & F2 & F3 & F4 & _).
  rewrite <- E1 in F1. rewrite <- E2 in F2. rewrite <- E3 in F3. rewrite <- E4 in F4.
  destruct (update_leaf item ty root t).2 as [[] ? ? ? ?], t as [[] ? ? ? ?]. unfold leaf_key, leaf_value in *. simpl in *. congruence.
Qed.

Lemma update_leaf_holds M item ty root D t id stack :
  let v := mkValue (it_data item) ty root in
  Holds db mp M -> valid_key (it_key item) -> leaf_key t = it_key item -> (0 < D)%nat -> ni_depth id = Z.of_nat D ->
  (value_hash (it_key item) v = value_hash (it_key item) (leaf_value t) -> v = leaf_value t) ->
  Above fetch M D (prefix D (it_key item)) {[it_key item := leaf_value t]} stack ->
  Rep fetch D (prefix D (it_key item)) (Leaf t) {[it_key item := leaf_value t]} ->
  (tr_seq t <> 0 -> place stack (it_key item) (Leaf t) = mp_root mp) ->
  let t' := (update_leaf item ty root t).2 in
  if (update_leaf item ty root t).1 then Holds db (mp {{ mp_root := dirtyUp mp stack (it_key item) (Leaf t') }}) (<[it_key item := v]> M)
  else <[it_key item := v]> M = M
    /\ (tr_seq t = mp_seq mp -> place stack (it_key item) (Leaf t') = mp_root mp) /\ isRoot id = false.
Proof.
  intros v HM Hk E HD Hid Hnc HA HR Hpl t'. pose proof (ho_seq _ _ _ HM) as Hseq.
  destruct (update_leaf_spec item ty root t) as (F1 & F2 & F3 & F4 & F5). fold t' v in F1, F2, F3, F4.
  apply Rep_leaf_inv in HR as (_ & _ & _ & Hh & HD64).
  assert (Hv : leaf_hash ty item root = value_hash (it_key item) v) by (unfold value_hash; by destruct item).
  rewrite F5, Hv, Hh, E. destruct (Z.eqb_spec (value_hash (it_key item) v) (value_hash (it_key item) (leaf_value t))) as [Ev|Ev]; simpl.
  - apply Hnc in Ev. pose proof (Above_own _ _ _ _ _ _ _ HM HA) as Hown. rewrite lookup_singleton_eq in Hown. split_and!.
    + apply insert_id. by rewrite Ev.
    + intros Es. unfold t'. rewrite update_same; [apply Hpl; lia | done | by rewrite <- Ev | by rewrite Hh, E, <- Ev, Hv | done].
    + unfold isRoot. lia.
  - apply (dirtyUp_holds M _ (it_key item) D {[it_key item := leaf_value t]} {[it_key item := v]}); [done | done | | | | done | |].
    + rewrite <- F1, <- F2. apply Rep_leaf; [done | by rewrite F1 | done |]. by rewrite F1, F2, F3.
    + by rewrite !map_size_singleton.
    + apply map_non_empty_singleton.
    + eapply update_replaced, Above_lookup; [done|]. intros j w. by apply (Holds_keys db mp).
    + by right.
Qed.

(** An item replaces the one with its key.  One that has the hash of the one it is to
    replace is taken to be the same. *)
Lemma updateGiveItem_spec M item isTransaction hasMeta root :
  let v := mkValue (it_data item) (leaf_type isTransaction hasMeta root) root in
  Holds db mp M -> valid_key (it_key item) ->
  (forall w, M !! it_key item = Some w -> value_hash (it_key item) v = value_hash (it_key item) w -> v = w) ->
  exists mp', updateGiveItem db mp item isTransaction hasMeta root = Done (bool_decide (is_Some (M !! it_key item)), mp')
    /\ mp_seq mp' = mp_seq mp /\ mp_backed mp' = mp_backed mp /\ mp_state mp' = mp_state mp
    /\ Holds db mp' (if decide (is_Some (M !! it_key item)) then <[it_key item := v]> M else M).
Proof.
  intros v HM Hk Hnc. destruct (walkTowardsKey_arrives db mp M _ HM Hk) as (r & Hw & Ha). unfold updateGiveItem.
  rewrite Hw, bind_done. pose proof (ho_seq _ _ _ HM) as Hseq. cbv zeta.
  destruct Ha as [D t id stack HA HR Hid HD Hpl|D n m id stack HA HR Hid He].
  all: pose proof (Above_own _ _ _ _ _ _ _ HM HA) as Hown; cbv beta iota.
  - change (it_key (tr_item t)) with (leaf_key t). destruct (Z.eqb_spec (leaf_key t) (it_key item)) as [E|E].
    + rewrite <- E, lookup_singleton_eq in Hown.
      rewrite E in *. rewrite <- Hown. rewrite (bool_decide_eq_true_2 (is_Some _)), decide_True by done.
      pose proof (update_leaf_holds M item _ root D t id stack HM Hk E HD Hid (Hnc _ (eq_sym Hown)) HA HR Hpl) as Hu.
      cbv zeta in Hu. unfold update_leaf in Hu. cbv zeta. destruct (setItem _ _ _ _) as [changed t']. simpl in Hu.
      destruct changed; [by eexists|]. destruct Hu as (HMM & Hpl' & ->). fold v in HMM. rewrite orb_false_r, HMM.
      destruct (Z.eqb_spec (tr_seq t) (mp_seq mp)) as [Es|]; [|by exists mp]. eexists. split; [done|].
      rewrite (Hpl' Es). split_and!; [done..|]. by destruct HM.
    + rewrite lookup_singleton_ne in Hown by done. rewrite <- Hown. by exists mp.
  - rewrite <- (sub_own D), He, lookup_empty in Hown. rewrite <- Hown. by exists mp.
Qed.

(** ** Removal *)

(** The branches that are not empty. *)
Lemma branches_spec d p n m :
  Open fetch d p n m ->
  match base.filter (fun b => isEmptyBranch n b = false) all_branches with
  | [] => m = ∅
  | [b] => 0 <= b < 16 /\ m <> ∅ /\ sub d b m = m
  | b :: _ => 0 <= b < 16 /\ sub d b m <> ∅ /\ (2 <= size m)%nat
  end.
Proof.
  intros HO. set (l := base.filter _ _).
  assert (Hin : forall b, b ∈ l <-> 0 <= b < 16 /\ sub d b m <> ∅).
  { intros b. unfold l. rewrite list_elem_of_filter, all_branches_spec. rewrite <- not_true_iff_false.
    pose proof (Open_isEmpty _ _ _ _ _ b HO). naive_solver. }
  assert (Hkey : forall k v, m !! k = Some v -> nibble d k ∈ l).
  { intros k v Hk. apply Hin. split; [apply nibble_range | by eapply sub_nonempty]. }
  assert (Hnd : NoDup l) by (apply NoDup_filter, all_branches_nodup).
  destruct l as [|b [|b' l']].
  - apply map_eq. intros k. rewrite lookup_empty. destruct (m !! k) eqn:E; [|done]. apply Hkey in E. by apply not_elem_of_nil in E.
  - destruct (proj1 (Hin b)) as [Hb Hne]; [set_solver|]. split; [done|]. split.
    + intros ->. by rewrite sub_empty_map in Hne.
    + apply map_eq. intros k. rewrite sub_lookup. case_decide as E; [done|]. destruct (m !! k) eqn:Ek; [|done].
      apply Hkey in Ek. set_solver.
  - destruct (proj1 (Hin b)) as [Hb H1]; [set_solver|]. split; [done|]. split; [done|]. destruct (proj1 (Hin b')) as [_ H2]; [set_solver|].
    rewrite (size_split d b m). apply map_size_non_empty_iff in H1. enough (size (base.filter (fun e => nibble d e.1 <> b) m) <> 0%nat) by lia.
    apply map_size_non_empty_iff. apply map_choose in H2 as (k & v & [Hk Hb']%sub_lookup_Some).
    intros E. assert (Hx : base.filter (fun e => nibble d e.1 <> b) m !! k = Some v).
    { apply map_lookup_filter_Some. split; [done|]. simpl. rewrite Hb'. apply NoDup_cons in Hnd. set_solver. }
    by rewrite E, lookup_empty in Hx.
Qed.

(** The item below an inner node, if there is only one. *)
Definition Only (m : Items) (r : option SHAMapItem) : Prop :=
  match r with
  | Some item => exists v, m = {[it_key item := v]} /\ v_data v = it_data item
  | None => (2 <= size m)%nat
  end.

Lemma onlyBelow_inner fuel n :
  onlyBelow (S fuel) db mp (Inner n)
  = match base.filter (fun b => isEmptyBranch n b = false) all_branches with
    | [] => Done None
    | b :: bs => descendThrow db mp n b ≫= fun c => match bs with [] => onlyBelow fuel db mp c | _ => Done None end
    end.
Proof. done. Qed.

Lemma onlyBelow_spec fuel d p n m :
  Rep fetch d p n m -> (64 - d <= fuel)%nat -> m <> ∅ -> exists r, onlyBelow fuel db mp n = Done r /\ Only m r.
Proof.
  revert d p n m. induction fuel as [|fuel IH]; intros d p n m HR Hf Hne.
  all: destruct n as [t|n]; [apply Rep_leaf_inv in HR as (-> & _); simpl; eexists; split; [done|]; by exists (leaf_value t)|].
  all: pose proof (Rep_open _ _ _ _ _ HR) as HO; pose proof (fd_depth _ _ _ _ _ (proj1 HO)) as Hd.
  1: lia.
  pose proof (branches_spec _ _ _ _ HO) as Hb. cbn [onlyBelow].
  destruct (base.filter _ _) as [|b [|b' l]]; [done | |].
  2:{ destruct Hb as (Hb & Hs & Hsz). destruct (Open_child _ _ _ _ _ _ HO Hb Hs) as (c & Hc & _).
      rewrite (descendThrow_resolve _ _ _ _ _ Hc), bind_done. by exists None. }
  destruct Hb as (Hb & _ & Hs). destruct (Open_child _ _ _ _ _ _ HO Hb) as (c & Hc & HRc); [by rewrite Hs|].
  rewrite (descendThrow_resolve _ _ _ _ _ Hc), bind_done. rewrite Hs in HRc. apply (IH _ _ _ _ HRc); [lia | done].
Qed.

(** An item that takes the place of the inner node above it gets the type and the
    storage root of the leaf that was removed. *)
Definition restyle (t : TreeNode) (v : Value) : Value := mkValue (v_data v) (tr_type t) (tr_storageRoot t).

Definition Styled (t : TreeNode) (m m' : Items) : Prop := forall j, m' !! j = m !! j \/ m' !! j = restyle t <$> m !! j.

Lemma Styled_refl t m : Styled t m m.
Proof. intros j. by left. Qed.

Lemma Styled_trans t m1 m2 m3 : Styled t m1 m2 -> Styled t m2 m3 -> Styled t m1 m3.
Proof.
  intros H1 H2 j. destruct (H1 j) as [E1|E1], (H2 j) as [E2|E2]; rewrite E2, E1; try by auto. right. by destruct (m1 !! j).
Qed.

Lemma restyle_twice t (o : option Value) : restyle t <$> (restyle t <$> o) = restyle t <$> o.
Proof. by destruct o. Qed.

(** [k'] is the only other item below an inner node at depth [D] or deeper, but not the
    root, on the way to [k]. *)
Definition Neighbour (k k' : Z) (D : nat) (m : Items) : Prop :=
  k' <> k /\ is_Some (m !! k') /\ exists d, (D <= d <= 64)%nat /\ (1 <= d)%nat /\ prefix d k' = prefix d k
    /\ forall j, is_Some (m !! j) -> prefix d j = prefix d k -> j = k \/ j = k'.

(** Such a neighbour of the removed item gets its style, and the others stay. *)
Definition Restyled (k : Z) (t : TreeNode) (D : nat) (m m' : Items) : Prop :=
  forall j, j <> k -> (Neighbour k j D m -> m' !! j = restyle t <$> m !! j) /\ (~ Neighbour k j D m -> m' !! j = m !! j).

Lemma prefix_le d e j k : (d <= e <= 64)%nat -> prefix e j = prefix e k -> prefix d j = prefix d k.
Proof.
  intros [Hd He]. revert He. induction Hd as [|e Hd IH]; [done|]. intros He Hp. apply prefix_S_eq in Hp as [Hp _]; [|lia]. apply IH; [lia | done].
Qed.

Lemma pull_up_spec d p t n m :
  Open fetch d p n m -> (0 < d)%nat ->
  exists r, pull_up db mp t n = Done r /\ exists m', Styled t m m'
    /\ ((exists i w, m = {[i := w]}) /\ m' = restyle t <$> m \/ size m <> 1%nat /\ m' = m)
    /\ match r with Some c => Rep fetch d p c m' | None => m' = ∅ end.
Proof.
  intros HO Hd0. pose proof (fd_depth _ _ _ _ _ (proj1 HO)) as Hd. pose proof (branches_spec _ _ _ _ HO) as Hb.
  unfold pull_up, getBranchCount. change max_depth with (S 63). rewrite onlyBelow_inner.
  destruct (base.filter _ _) as [|b [|b' l]]; cbn [length].
  - eexists. split; [done|]. exists m. split; [apply Styled_refl|]. subst m. split; [by right | done].
  - destruct Hb as (Hb & Hne & Hs). destruct (Open_child _ _ _ _ _ _ HO Hb) as (c & Hc & HRc); [by rewrite Hs|].
    rewrite (descendThrow_resolve _ _ _ _ _ Hc), !bind_done. rewrite Hs in HRc.
    destruct (onlyBelow_spec 63 _ _ _ _ HRc) as (r & Hr & Ho); [lia | done|].
    rewrite Hr, bind_done.
    eexists. split; [done|]. destruct r as [item|].
    + destruct Ho as (v & -> & Hv). exists {[it_key item := restyle t v]}. split; [|split; [left; rewrite map_fmap_singleton; split; [by do 2 eexists | done]|]].
      * intros j. right. destruct (decide (j = it_key item)) as [->|Hj]; [by rewrite !lookup_singleton_eq | by rewrite !lookup_singleton_ne].
      * destruct (proj1 HO) as [_ _ _ _ Hk _ _ _ _ _ _]. destruct (Hk (it_key item) v) as [Hv' <-]; [by rewrite lookup_singleton_eq|].
        unfold restyle. rewrite Hv. apply leaf_new_rep; [lia | done].
    + exists m. simpl in Ho. split; [apply Styled_refl|]. split; [right; split; [lia | done]|]. by apply Open_Rep.
  - rewrite (proj2 (Z.eqb_neq _ 0)), (proj2 (Z.eqb_neq _ 1)) by lia. eexists. split; [done|]. exists m.
    destruct Hb as (_ & _ & Hb). split; [apply Styled_refl|]. split; [right; split; [lia | done]|]. by apply Open_Rep.
Qed.

(** What an inner node holds when the items of a branch become [m']. *)
Definition regraft (d : nat) (b : Z) (m m' : Items) : Items := m' ∪ base.filter (fun e => nibble d e.1 <> b) m.

Lemma regraft_lookup d b m m' j :
  (forall k v, m' !! k = Some v -> nibble d k = b) ->
  regraft d b m m' !! j = if decide (nibble d j = b) then m' !! j else m !! j.
Proof.
  intros Hm'. unfold regraft. case_decide as E.
  - destruct (m' !! j) as [v|] eqn:Ej; [by apply lookup_union_Some_l|]. apply lookup_union_None. split; [done|].
    apply map_lookup_filter_None. right. intros v _. simpl. naive_solver.
  - rewrite lookup_union_r; [|destruct (m' !! j) eqn:Ej; [by apply Hm' in Ej | done]].
    destruct (m !! j) eqn:Ej; [by apply map_lookup_filter_Some | by apply map_lookup_filter_None; left].
Qed.

Lemma Neighbour_le D D' k k' m : (D' <= D)%nat -> Neighbour k k' D m -> Neighbour k k' D' m.
Proof. intros Hl (Hne & Hs & d & Hd & Hr). split; [done|]. split; [done|]. exists d. split; [lia | done]. Qed.

(** There is only one neighbour. *)
Lemma Neighbour_unique k k' j m : Neighbour k k' 1 m -> Neighbour k j 1 m -> j = k'.
Proof.
  intros (Hne & Hs & d & Hd & _ & Hp & Hall) (Hne' & Hs' & e & He & _ & Hp' & Hall').
  destruct (decide (d <= e)%nat) as [Hle|Hle].
  - apply (prefix_le d) in Hp'; [|lia]. by destruct (Hall j Hs' Hp').
  - apply (prefix_le e) in Hp; [|lia]. by destruct (Hall' k' Hs Hp).
Qed.

(** The neighbour in a tree is the one in the branch towards the item. *)
Lemma Neighbour_sub d k j m :
  (d < 64)%nat -> Neighbour k j (S d) m <-> nibble d j = nibble d k /\ Neighbour k j (S d) (sub d (nibble d k) m).
Proof.
  intros Hd. split.
  - intros (Hne & Hs & e & He & H1 & Hp & Hall). apply (prefix_le (S d)) in Hp as Hp'; [|lia]. apply prefix_S_eq in Hp' as [_ Hn]; [|done].
    split; [done|]. split; [done|]. rewrite sub_lookup, decide_True by done. split; [done|]. exists e. split_and!; try done; [lia..|].
    intros i [w [Hi _]%sub_lookup_Some]. apply Hall. by exists w.
  - intros (Hn & Hne & Hs & e & He & H1 & Hp & Hall). split; [done|]. rewrite sub_lookup, decide_True in Hs by done. split; [done|].
    exists e. split_and!; try done; [lia..|]. intros i [w Hi] Hpi. apply Hall; [|done]. apply (prefix_le (S d)) in Hpi; [|lia].
    apply prefix_S_eq in Hpi as [_ Hpi]; [|done]. exists w. by apply sub_lookup_Some.
Qed.

(** An item within a branch is what it became there. *)
Lemma Restyled_regraft d k t m m' :
  (d < 64)%nat -> (forall j v, m' !! j = Some v -> nibble d j = nibble d k) -> Restyled k t (S d) (sub d (nibble d k) m) m' ->
  Restyled k t (S d) m (regraft d (nibble d k) m m').
Proof.
  intros Hd Hm' HR j Hj. specialize (HR j Hj) as [HR1 HR2]. rewrite (regraft_lookup d _ m m' j Hm').
  rewrite sub_lookup in HR1, HR2. split; intros HN.
  - apply Neighbour_sub in HN as [Hn HN]; [|done]. rewrite decide_True in HR1 |- * by done. by apply HR1.
  - case_decide as Hn; [|done]. apply HR2. intros HN'. apply HN. by apply Neighbour_sub.
Qed.

(** The last item below a node is pulled up with the style of the removed one. *)
Lemma Restyled_pulled d k t m m1 m2 :
  (0 < d <= 64)%nat -> (forall j v, m !! j = Some v -> prefix d j = prefix d k) -> Styled t (delete k m) m1 ->
  ((exists i w, m1 = {[i := w]}) /\ m2 = restyle t <$> m1 \/ size m1 <> 1%nat /\ m2 = m1) -> Restyled k t (S d) m m1 -> Restyled k t d m m2.
Proof.
  intros Hd Hk H1 H2 HR j Hj. specialize (HR j Hj) as [HR1 HR2].
  assert (Hdom : forall i, is_Some (m1 !! i) <-> i <> k /\ is_Some (m !! i)).
  { intros i. pose proof (lookup_delete_is_Some m k i) as Hdel. destruct (H1 i) as [->| ->]; rewrite ?fmap_is_Some, Hdel; naive_solver. }
  destruct H2 as [[(i & w & ->) ->]|[Hone ->]].
  - rewrite lookup_fmap. assert (Hall : forall l, is_Some (m !! l) -> l = k \/ l = i).
    { intros l Hl. destruct (decide (l = k)) as [|Hlk]; [by left|]. right. destruct (proj2 (Hdom l) (conj Hlk Hl)) as [? [? _]%lookup_singleton_Some]. done. }
    split; intros HN.
    + destruct (H1 j) as [->| ->]; by rewrite ?restyle_twice, lookup_delete_ne by done.
    + destruct (decide (j = i)) as [->|Hji].
      * destruct HN. assert (Hs : is_Some (m !! i)) by (apply Hdom; by rewrite lookup_singleton_eq). split; [done|]. split; [done|].
        exists d. split_and!; [lia | lia | lia | destruct Hs as [x Hx]; by apply (Hk _ x)|]. intros l Hl _. by apply Hall.
      * rewrite lookup_singleton_ne by done. destruct (m !! j) as [x|] eqn:E; [|done]. by destruct (Hall j) as [?|?]; [rewrite E|..].
  - split; intros HN; [|apply HR2; intros HN'; apply HN; by apply (Neighbour_le (S d)); [lia|]].
    apply HR1. destruct HN as (_ & Hs & e & He & He1 & Hp & Hall). split; [done|]. split; [done|]. exists e. split_and!; try done; [|lia].
    destruct (decide (e = d)) as [->|]; [|lia]. destruct Hone. destruct (proj2 (Hdom j) (conj Hj Hs)) as [w Hw].
    assert (m1 = {[j := w]}) as ->; [|apply map_size_singleton]. apply map_eq. intros i. destruct (decide (i = j)) as [->|Hi]; [by rewrite lookup_singleton_eq|].
    rewrite lookup_singleton_ne by done. apply eq_None_not_Some. intros [Hik Hi']%Hdom. destruct Hi' as [x Hx]. destruct (Hall i) as [?|?]; [by rewrite Hx | by apply (Hk i x) | done | done].
Qed.

(** The items of a branch are replaced by what is left of them. *)
Lemma Open_regraft d p n m k m' child t :
  Open fetch d p n m -> 0 < mp_seq mp -> prefix d k = p -> valid_key k ->
  match child with Some c => Rep fetch (S d) (prefix (S d) k) c m' | None => m' = ∅ end ->
  Styled t (delete k (sub d (nibble d k) m)) m' ->
  let n' := setChild (nibble d k) child (with_seq (mp_seq mp) n) in
  let m'' := regraft d (nibble d k) m m' in
  Open fetch d p n' m'' /\ Styled t (delete k m) m''.
Proof.
  intros HO Hseq Hp Hk Hc Hst n' m''. pose proof (fd_depth _ _ _ _ _ (proj1 HO)) as Hd.
  assert (Hm' : forall j v, m' !! j = Some v -> valid_key j /\ prefix (S d) j = prefix (S d) k).
  { destruct child as [c|]; [|by intros j v; rewrite Hc]. intros j v. by apply (Rep_keys _ _ _ _ _ _ _ Hc). }
  assert (Hm'' : forall j, m'' !! j = if decide (nibble d j = nibble d k) then m' !! j else m !! j).
  { intros j. apply regraft_lookup. intros j' v Hj. apply Hm' in Hj as [_ Hj]. by apply prefix_S_eq in Hj as []. }
  assert (Hown : sub d (nibble d k) m'' = m').
  { apply map_eq. intros j. rewrite sub_lookup, Hm''. case_decide as E; [done|]. destruct (m' !! j) eqn:Ej; [|done].
    apply Hm' in Ej as [_ Ej]. by apply prefix_S_eq in Ej as []. }
  split.
  - apply (Open_setChild _ _ _ _ m); [done | lia | apply nibble_range | | |].
    + intros j v. rewrite Hm''. case_decide; [|apply (proj1 HO)]. intros [? Hj]%Hm'. apply prefix_S_eq in Hj as []; [|done]. by subst p.
    + intros b _ Hb. apply map_eq. intros j. rewrite !sub_lookup, Hm''. repeat case_decide; naive_solver.
    + rewrite Hown. destruct child as [c|]; [|done]. split; [eapply Rep_nonempty; [done | lia]|].
      subst p. by rewrite <- prefix_S.
  - intros j. rewrite Hm''. case_decide as E; [|left; rewrite lookup_delete_ne by naive_solver; done].
    destruct (Hst j) as [->| ->]; [left|right].
    all: destruct (decide (j = k)) as [->|]; [by rewrite !lookup_delete_eq|]; by rewrite !lookup_delete_ne, sub_lookup, decide_True by done.
Qed.

Lemma del_loop_spec M k t D m m' stack prev :
  Holds db mp M -> valid_key k -> Above fetch M D (prefix D k) m stack -> (0 < D)%nat ->
  match prev with Some c => Rep fetch D (prefix D k) c m' | None => m' = ∅ end -> Styled t (delete k m) m' -> Restyled k t D m m' ->
  exists root M', del_loop db mp k t stack prev = Done (mp {{ mp_root := root }})
    /\ Styled t (delete k M) M' /\ Restyled k t 1 M M' /\ Holds db (mp {{ mp_root := root }}) M'.
Proof.
  intros HM Hk HA. remember (prefix D k) as P eqn:HP. revert prev m' HP.
  induction HA as [|d p m n id stack b HA IH HR Hid Hb]; intros prev m' HP HD Hprev Hst Hre; [lia|].
  pose proof (Rep_open _ _ _ _ _ HR) as HO. pose proof (fd_depth _ _ _ _ _ (proj1 HO)) as Hd.
  assert (p = prefix d k /\ b = nibble d k) as [-> ->].
  { rewrite prefix_S in HP by done. pose proof (nibble_range d k). lia. }
  simpl. rewrite (selectBranch_nibble id k d), unshare_inner_eq by done. rewrite HP in Hprev.
  destruct (Open_regraft d _ n m k m' prev t HO (ho_seq _ _ _ HM) eq_refl Hk Hprev Hst) as [HO' Hst'].
  assert (Hm' : forall j v, m' !! j = Some v -> nibble d j = nibble d k).
  { destruct prev as [c|]; [|by intros j v; rewrite Hprev]. intros j v Hj. apply (Rep_keys _ _ _ _ _ _ _ Hprev) in Hj as [_ Hj].
    by apply prefix_S_eq in Hj as []. }
  pose proof (Restyled_regraft d k t m m' Hd Hm' Hre) as Hre'.
  unfold isRoot. rewrite Hid. destruct (Z.eqb_spec (Z.of_nat d) 0) as [E|E].
  - assert (d = 0%nat) as -> by lia. assert (m = M) as -> by (by inversion HA). rewrite (set_root_eq _ M HM). do 2 eexists. split; [done|]. split; [done|]. split; [done|].
    apply (with_root_holds _ M); [done | done|]. apply Open_Rep; [|lia]. by rewrite prefix_0 in HO' by done.
  - destruct (pull_up_spec d _ t _ _ HO' ltac:(lia)) as (r & -> & m3 & Hst3 & Hone & Hr). rewrite bind_done.
    apply (IH r m3 eq_refl); [lia | done | by eapply Styled_trans|].
    apply (Restyled_pulled d k t m (regraft d (nibble d k) m m')); try done; [lia|]. intros j v Hj. by apply (fd_keys _ _ _ _ _ (proj1 HO)) in Hj as [_ Hj].
Qed.

(** An item is removed; an only neighbour gets its type and its storage root. *)
Lemma delItem_spec M k :
  Holds db mp M -> valid_key k ->
  exists mp' M', delItem db mp k = Done (bool_decide (is_Some (M !! k)), mp')
    /\ mp_seq mp' = mp_seq mp /\ mp_backed mp' = mp_backed mp /\ mp_state mp' = mp_state mp /\ Holds db mp' M'
    /\ match M !! k with
       | Some v => exists t, leaf_value t = v /\ Styled t (delete k M) M' /\ Restyled k t 1 M M'
       | None => M' = M
       end.
Proof.
  intros HM Hk. destruct (walkTowardsKey_arrives db mp M _ HM Hk) as (r & Hw & Ha). unfold delItem. rewrite Hw, bind_done.
  destruct Ha as [D t id stack HA HR Hid HD _|D n m id stack HA HR Hid He].
  all: pose proof (Above_own _ _ _ _ _ _ _ HM HA) as Hown; cbv beta iota.
  - change (it_key (tr_item t)) with (leaf_key t). destruct (Z.eqb_spec (leaf_key t) k) as [E|E].
    + rewrite E, lookup_singleton_eq in Hown. rewrite <- Hown.
      destruct (del_loop_spec M k t D _ ∅ stack None HM Hk HA HD eq_refl) as (root & M' & -> & Hst & Hre & HM').
      { intros j. left. rewrite E. by rewrite delete_singleton_eq. }
      { intros j Hj. rewrite E, lookup_singleton_ne by done. by split. }
      eexists _, M'. split; [done|]. split_and!; try done. by exists t.
    + rewrite lookup_singleton_ne in Hown by done. rewrite <- Hown. by exists mp, M.
  - rewrite <- (sub_own D), He, lookup_empty in Hown. rewrite <- Hown. by exists mp, M.
Qed.

(** ** Maps of one kind

    A map of transactions, or of account states, has one type of leaves and no storage
    roots. *)
Definition Uniform (ty : TNType) (root : option Z) (M : Items) : Prop :=
  forall k v, M !! k = Some v -> v_type v = ty /\ v_root v = root.

Lemma Styled_uniform ty root t M M' :
  Uniform ty root M -> tr_type t = ty -> tr_storageRoot t = root -> Styled t M M' -> M' = M.
Proof.
  intros HU Ht Hr Hst. apply map_eq. intros j. destruct (Hst j) as [->| ->]; [done|].
  destruct (M !! j) as [[dt ty' r']|] eqn:E; [|done]. destruct (HU _ _ E) as [H1 H2]. unfold restyle. simpl in *. congruence.
Qed.

Lemma delItem_uniform ty root M k :
  Holds db mp M -> valid_key k -> Uniform ty root M ->
  exists mp', delItem db mp k = Done (bool_decide (is_Some (M !! k)), mp')
    /\ mp_seq mp' = mp_seq mp /\ mp_backed mp' = mp_backed mp /\ mp_state mp' = mp_state mp /\ Holds db mp' (delete k M).
Proof.
  intros HM Hk HU. destruct (delItem_spec M k HM Hk) as (mp' & M' & -> & H1 & H2 & H3 & HM' & HD). exists mp'. split_and!; try done.
  destruct (M !! k) as [v|] eqn:E; [|by rewrite delete_id; subst].
  destruct HD as (t & <- & Hst & _). destruct (HU _ _ E) as [Ht Hr]. apply (Styled_uniform ty root) in Hst; [by subst | | done | done].
  intros j v Hj. apply lookup_delete_Some in Hj as [_ Hj]. by apply (HU j).
Qed.

End Map.

End Ops.
