(* ===== verification/ShaMapHash.v ===== *)
(** * The state tree: hashes

    Hashing and sharing a changed tree leaves its items alone and gives every node the
    hash that its items determine. *)

From S2P Require Import Prelude HsTypes ShaMapNode ShaMap ShaMapRep ShaMapProps ShaMapOps.
From coqutil Require Import Datatypes.RecordSetters.
Import DoubleBraceUpdate.

#[local] Open Scope Z_scope.

Section Hash.

Context `{Hashers}.

(** ** Lists over the branches *)

Lemma branch_lookup {A} (f : Z -> A) i : (i < 16)%nat -> (f <$> all_branches) !! i = Some (f (Z.of_nat i)).
Proof. intros Hi. do 16 (destruct i as [|i]; [done|]). lia. Qed.

Lemma branch_list {A} (f : Z -> A) l :
  length l = 16%nat -> (forall b, 0 <= b < 16 -> l !! Z.to_nat b = Some (f b)) -> l = f <$> all_branches.
Proof.
  intros Hl Hb. apply list_eq. intros i. destruct (decide (i < 16)%nat) as [Hi|Hi].
  - rewrite branch_lookup by done. rewrite <- (Nat2Z.id i) at 1. apply Hb. lia.
  - rewrite !lookup_ge_None_2; [done| |lia]. rewrite length_fmap. by apply not_lt.
Qed.

(** ** Hashes of representations *)

Lemma Rep_hash fetch d p n m : Rep fetch d p n m -> getSeq n = 0 -> (0 < d)%nat -> getNodeHash n = tree_hash (64 - d) m.
Proof.
  intros HR Hs Hd. destruct n as [t|n].
  - apply Rep_leaf_inv in HR as (-> & _ & _ & Hh & _). by rewrite tree_hash_singleton.
  - apply Rep_open in HR as [HF _]. destruct (fd_own _ _ _ _ _ HF) as [E|[_ E]]; [|done]. destruct d; [lia|done].
Qed.

Section Fetch.

Context (fetch : Z -> option Node).

Lemma getChild_shareChild b c n b' :
  0 <= b < 16 -> 0 <= b' < 16 -> length (in_children n) = 16%nat ->
  getChild (shareChild b c n) b' = if decide (b' = b) then Some c else getChild n b'.
Proof.
  intros Hb Hb' Hl. unfold getChild, shareChild. simpl. case_decide as E.
  - subst. by rewrite list_lookup_insert_eq by lia.
  - rewrite list_lookup_insert_ne; [done | lia].
Qed.

(** A child at hand is replaced by one with the same items. *)
Lemma Open_shareChild d p n m b c0 c :
  Open fetch d p n m -> in_seq n <> 0 -> 0 <= b < 16 -> getChild n b = Some c0 -> sub d b m <> ∅ ->
  Rep fetch (S d) (16 * p + b) c (sub d b m) -> getSeq c = 0 -> Open fetch d p (shareChild b c n) m.
Proof.
  intros [HF Hc] Hs Hb Hg Hne HR Hc0. pose proof (fd_children _ _ _ _ _ HF) as Hl.
  assert (Hgc : forall b', 0 <= b' < 16 -> getChild (shareChild b c n) b' = if decide (b' = b) then Some c else getChild n b').
  { intros b' Hb'. by apply getChild_shareChild. }
  split; [split|]; try (by destruct HF).
  - simpl. by rewrite length_insert.
  - intros b' Hb' He. rewrite Hgc by done. case_decide; [by subst|]. by apply (fd_none _ _ _ _ _ HF).
  - intros b' Hb' Hne'. unfold resolve. rewrite Hgc by done. case_decide; [done|]. by apply (fd_some _ _ _ _ _ HF).
  - intros b' Hb' Hne'. rewrite Hgc by done. destruct (fd_hash _ _ _ _ _ HF b' Hb' Hne') as [[? ?]|[? ?]]; [left|right].
    + split; [done|]. case_decide as E; [|done]. intros c' [= <-]. subst b'. by apply (Rep_hash fetch (S d) (16 * p + b)); [| |lia].
    + by case_decide.
  - intros b' c' Hb' Hne'. unfold resolve. rewrite Hgc by done. case_decide as E; [intros [= ->]; by subst|]. by apply Hc.
Qed.

(** A node whose children at hand are all shared. *)
Definition Settled (n : InnerNode Node) : Prop := forall b c, 0 <= b < 16 -> getChild n b = Some c -> getSeq c = 0.

Lemma getChild_range n b c :
  getChild n b = Some c -> length (in_children n) = 16%nat -> exists b', 0 <= b' < 16 /\ getChild n b' = Some c.
Proof.
  intros Hg Hl. exists (Z.of_nat (Z.to_nat b)). unfold getChild in *. rewrite Nat2Z.id. split; [|done].
  destruct (in_children n !! Z.to_nat b) eqn:E; [|done]. apply lookup_lt_Some in E. lia.
Qed.

Lemma zip_hash_lookup n b :
  0 <= b < 16 -> length (in_hashes n) = 16%nat -> length (in_children n) = 16%nat ->
  zip_with (fun h c => match c with Some c => getNodeHash c | None => h end) (in_hashes n) (in_children n) !! Z.to_nat b
  = Some (match getChild n b with Some c => getNodeHash c | None => getChildHash n b end).
Proof.
  intros Hb H1 H2. rewrite lookup_zip_with. unfold getChild, getChildHash.
  destruct (lookup_lt_is_Some_2 (in_hashes n) (Z.to_nat b)) as [h Eh]; [lia|].
  destruct (lookup_lt_is_Some_2 (in_children n) (Z.to_nat b)) as [c Ec]; [lia|]. rewrite Eh, Ec. simpl. by destruct c.
Qed.

Lemma settled_hashes d p n m :
  Open fetch d p n m -> Settled n ->
  zip_with (fun h c => match c with Some c => getNodeHash c | None => h end) (in_hashes n) (in_children n)
  = (fun b => tree_hash (63 - d) (sub d b m)) <$> all_branches.
Proof.
  intros [HF Hc] Hs. pose proof (fd_hashes _ _ _ _ _ HF) as H1. pose proof (fd_children _ _ _ _ _ HF) as H2.
  apply branch_list; [rewrite length_zip_with; lia|]. intros b Hb. rewrite zip_hash_lookup by done. f_equal.
  destruct (decide (sub d b m = ∅)) as [E|E].
  - destruct (fd_none _ _ _ _ _ HF b Hb E) as [-> ->]. by rewrite E, tree_hash_empty.
  - destruct (getChild n b) as [c|] eqn:Eg.
    + assert (HR : Rep fetch (S d) (16 * p + b) c (sub d b m)) by (apply Hc; [done..|]; unfold resolve; by rewrite Eg).
      rewrite (Rep_hash _ _ _ _ _ HR); [done | by apply (Hs b) | lia].
    + destruct (fd_hash _ _ _ _ _ HF b Hb E) as [[-> _]|[[? Ex] _]]; [done|]. congruence.
Qed.

Lemma isBranch_zero d p n m : Open fetch d p n m -> in_isBranch n = 0 <-> m = ∅.
Proof.
  intros [HF _]. split.
  - intros E0. apply map_eq. intros k. rewrite lookup_empty. destruct (m !! k) as [v|] eqn:Ek; [|done].
    pose proof (fd_empty _ _ _ _ _ HF (nibble d k) (nibble_range d k)) as He. unfold isEmptyBranch in He.
    rewrite E0, Z.bits_0 in He. symmetry in He. apply bool_decide_eq_true in He. by apply (sub_nonempty d _ _ _ Ek) in He.
  - intros ->. apply Z.bits_inj_0. intros i. destruct (Z.lt_ge_cases i 0) as [|Hi]; [by apply Z.testbit_neg_r|].
    destruct (Z.lt_ge_cases i 16); [|by apply (fd_bits _ _ _ _ _ HF)].
    pose proof (fd_empty _ _ _ _ _ HF i ltac:(lia)) as He. rewrite sub_empty_map in He. unfold isEmptyBranch in He.
    by destruct (Z.testbit (in_isBranch n) i).
Qed.

(** Hashing a settled node and sharing it. *)
Lemma settle_rep d p n m :
  Rep fetch d p (Inner n) m -> Settled n ->
  Rep fetch d p (setSeq 0 (Inner (updateHashDeep n))) m /\ getNodeHash (setSeq 0 (Inner (updateHashDeep n))) = node_hash d m.
Proof.
  intros HR Hs. pose proof (Rep_open _ _ _ _ _ HR) as HO. pose proof (settled_hashes _ _ _ _ HO Hs) as Hh.
  pose proof (fd_depth _ _ _ _ _ (proj1 HO)) as Hd.
  set (hs := zip_with _ _ _) in Hh.
  assert (Hnh : (if in_isBranch n =? 0 then 0 else inner_hash hs) = node_hash d m).
  { destruct (Z.eqb_spec (in_isBranch n) 0) as [E|E].
    - apply (isBranch_zero _ _ _ _ HO) in E as ->. destruct d; [done|]. unfold node_hash. by rewrite tree_hash_empty.
    - rewrite node_hash_inner; [by rewrite Hh | done | | by inversion HR]. intros _ E'. by apply E, (isBranch_zero _ _ _ _ HO). }
  assert (Heq : setSeq 0 (Inner (updateHashDeep n)) = Inner (mkInner hs (in_children n) (in_isBranch n) (node_hash d m) 0)).
  { unfold updateHashDeep, inner_updateHash. fold hs. cbn [in_isBranch in_hashes in_hash]. rewrite Hnh.
    destruct (Z.eqb_spec (node_hash d m) (in_hash n)) as [<-|]; done. }
  rewrite Heq. split; [|done]. destruct HO as [HF Hc].
  assert (Hhash : forall b, 0 <= b < 16 -> default 0 (hs !! Z.to_nat b) = tree_hash (63 - d) (sub d b m)).
  { intros b Hb. rewrite Hh, branch_lookup by lia. simpl. by rewrite Z2Nat.id by lia. }
  assert (Hres : forall b, 0 <= b < 16 -> sub d b m <> ∅ ->
    resolve fetch (mkInner hs (in_children n) (in_isBranch n) (node_hash d m) 0) b = resolve fetch n b).
  { intros b Hb Hne. unfold resolve. change (getChild (mkInner _ _ _ _ _) b) with (getChild n b). destruct (getChild n b) eqn:E; [done|].
    destruct (fd_hash _ _ _ _ _ HF b Hb Hne) as [[-> _]|[[? Ex] _]]; [|congruence]. unfold getChildHash. simpl. by rewrite Hhash. }
  apply Rep_inner; [split; try (by destruct HF)| by inversion HR |].
  - simpl. by rewrite Hh, length_fmap.
  - intros b Hb He. split; [by apply (fd_none _ _ _ _ _ HF)|]. unfold getChildHash. simpl. by rewrite Hhash, He, tree_hash_empty.
  - intros b Hb Hne. rewrite Hres by done. by apply (fd_some _ _ _ _ _ HF).
  - intros b Hb Hne. left. split; [by apply Hhash|]. intros c Hg. apply (Rep_hash fetch (S d) (16 * p + b)); [|by apply (Hs b)|lia].
    apply Hc; [done..|]. unfold resolve. change (getChild n b = Some c) in Hg. by rewrite Hg.
  - by left.
  - intros b c _ Hg. change (getChild n b = Some c) in Hg. apply getChild_range in Hg as (b' & Hb' & Hg); [by apply (Hs b') | apply HF].
  - intros b c Hb Hne. rewrite Hres by done. by apply Hc.
Qed.

(** ** Flushing *)

Context (mp : SHAMap).
Context (Hseq : 0 < mp_seq mp).

Lemma Rep_setSeq s d p n m : s <> 0 -> Rep fetch d p n m -> Rep fetch d p (setSeq s n) m.
Proof.
  intros Hs HR. destruct n as [t|n].
  - apply Rep_leaf_inv in HR as (-> & ? & ? & ? & ?). destruct t as [i y r h s']. by apply (Rep_leaf fetch d p (mkTreeNode i y r h s)).
  - inversion HR as [|? ? ? ? HF Hsz Hc]; subst. apply Rep_inner; [|done|done]. destruct HF. split; try done.
    + intros b Hb Hne. destruct (fd_hash b Hb Hne) as [|(? & ? & ?)]; [by left | by right].
    + destruct fd_own as [|[]]; [by left | by right].
Qed.

Lemma preFlushNode_rep d p n m :
  Rep fetch d p n m ->
  Rep fetch d p (preFlushNode mp n) m /\ getSeq (preFlushNode mp n) = mp_seq mp /\ isInner (preFlushNode mp n) = isInner n.
Proof.
  intros HR. unfold preFlushNode. destruct (Z.eqb_spec (getSeq n) (mp_seq mp)); [done|]. unfold clone.
  split; [by apply Rep_setSeq; [lia|]|]. by destruct n as [[]|].
Qed.

Lemma share_fst w n db : (share mp w n db).1 = setSeq 0 n.
Proof. unfold share, writeNode. by destruct (w && mp_backed mp). Qed.

Lemma leaf_rep_shared d p t m w db :
  Rep fetch d p (Leaf t) m -> exists t', (share mp w (Leaf (leaf_updateHash t).2) db).1 = Leaf t'
    /\ Rep fetch d p (Leaf t') m /\ tr_seq t' = 0.
Proof.
  intros HR. apply Rep_leaf_inv in HR as (-> & Hk & Hp & Hh & Hd). rewrite share_fst. unfold leaf_updateHash.
  change (leaf_hash (tr_type t) (tr_item t) (tr_storageRoot t)) with (leaf_hash (v_type (leaf_value t)) (tr_item t) (v_root (leaf_value t))).
  assert (E : leaf_hash (v_type (leaf_value t)) (tr_item t) (v_root (leaf_value t)) = tr_hash t).
  { rewrite Hh. unfold value_hash, leaf_key, leaf_value. simpl. by destruct (tr_item t). }
  rewrite E, Z.eqb_refl. simpl. eexists. split; [done|].
  destruct t as [i y r h s]. split; [by apply (Rep_leaf fetch d p (mkTreeNode i y r h 0)) | done].
Qed.

(** One branch of the loop. *)
Definition flush_branch (fuel : nat) (w : bool) : Z * InnerNode Node * NodeStore -> Z -> Z * InnerNode Node * NodeStore :=
  fun '(flushed, inner, db) branch =>
    if isEmptyBranch inner branch then (flushed, inner, db)
    else
      match getChild inner branch with
      | Some child =>
          if getSeq child =? 0 then (flushed, inner, db)
          else
            let '(n, child, db) := flush_node fuel mp w (preFlushNode mp child) db in
            (flushed + n, shareChild branch child inner, db)
      | None => (flushed, inner, db)
      end.

Lemma flush_node_inner fuel w n db :
  flush_node (S fuel) mp w (Inner n) db
  = let '(flushed, n, db) := fold_left (flush_branch fuel w) all_branches (0, n, db) in
    let '(node, db) := share mp w (Inner (updateHashDeep n)) db in (flushed + 1, node, db).
Proof. done. Qed.

(** A node at depth [d] that has been flushed. *)
Definition Clean (d : nat) (p : Z) (n : Node) (m : Items) (n' : Node) : Prop :=
  Rep fetch d p n' m /\ getSeq n' = 0 /\ isInner n' = isInner n /\ (isInner n = true -> getNodeHash n' = node_hash d m).

Lemma flush_branch_spec fuel w d p n m z db b :
  (forall c db, Rep fetch (S d) (16 * p + b) c (sub d b m) -> getSeq c = mp_seq mp ->
     Clean (S d) (16 * p + b) c (sub d b m) (flush_node fuel mp w c db).1.2) ->
  Rep fetch d p (Inner n) m -> in_seq n <> 0 -> 0 <= b < 16 ->
  let n' := (flush_branch fuel w (z, n, db) b).1.2 in
  Rep fetch d p (Inner n') m /\ in_seq n' <> 0 /\ (forall c, getChild n' b = Some c -> getSeq c = 0)
  /\ (forall b', 0 <= b' < 16 -> b' <> b -> getChild n' b' = getChild n b').
Proof.
  intros IH HR Hs Hb. pose proof (Rep_open _ _ _ _ _ HR) as HO. unfold flush_branch.
  destruct (isEmptyBranch n b) eqn:Ee.
  { simpl. split_and!; try done. apply (Open_isEmpty _ _ _ _ _ _ HO Hb) in Ee.
    destruct (fd_none _ _ _ _ _ (proj1 HO) b Hb Ee) as [-> _]. done. }
  assert (Hne : sub d b m <> ∅) by (intros E; apply (Open_isEmpty _ _ _ _ _ _ HO Hb) in E; congruence).
  destruct (getChild n b) as [c|] eqn:Eg; [|simpl; split_and!; try done; by rewrite Eg].
  destruct (Z.eqb_spec (getSeq c) 0) as [E0|E0]; [simpl; split_and!; try done; by rewrite Eg; intros ? [= <-]|].
  assert (HRc : Rep fetch (S d) (16 * p + b) c (sub d b m)) by (apply HO; [done..|]; unfold resolve; by rewrite Eg).
  destruct (preFlushNode_rep _ _ _ _ HRc) as (HRc' & Hsc & _).
  pose proof (IH (preFlushNode mp c) db HRc' Hsc) as (HR1 & Hs1 & _).
  destruct (flush_node fuel mp w (preFlushNode mp c) db) as [[k c'] db']. simpl in *. split_and!; [|done|..].
  - apply Open_Rep; [by eapply Open_shareChild | by inversion HR].
  - intros c1. rewrite getChild_shareChild, decide_True by (done || apply HO). by intros [= <-].
  - intros b' Hb' Hbb. by rewrite getChild_shareChild, decide_False by (done || apply HO).
Qed.

Lemma flush_branches_spec fuel w d p m bs z n db :
  (forall b c db, 0 <= b < 16 -> Rep fetch (S d) (16 * p + b) c (sub d b m) -> getSeq c = mp_seq mp ->
     Clean (S d) (16 * p + b) c (sub d b m) (flush_node fuel mp w c db).1.2) ->
  Rep fetch d p (Inner n) m -> in_seq n <> 0 -> Forall (fun b => 0 <= b < 16) bs ->
  let n' := (fold_left (flush_branch fuel w) bs (z, n, db)).1.2 in
  Rep fetch d p (Inner n') m
  /\ (forall b c, b ∈ bs -> getChild n' b = Some c -> getSeq c = 0)
  /\ (forall b, 0 <= b < 16 -> b ∉ bs -> getChild n' b = getChild n b).
Proof.
  intros IH. revert z n db. induction bs as [|b bs IHbs]; intros z n db HR Hs Hbs.
  { simpl. split_and!; [done | by intros b c Hin; apply not_elem_of_nil in Hin | done]. }
  apply Forall_cons in Hbs as [Hb Hbs]. cbn [fold_left].
  pose proof (flush_branch_spec fuel w d p n m z db b (fun c db => IH b c db Hb) HR Hs Hb) as (HR1 & Hs1 & Hg1 & Hg2).
  destruct (flush_branch fuel w (z, n, db) b) as [[z1 n1] db1]. simpl in *.
  destruct (IHbs z1 n1 db1 HR1 Hs1 Hbs) as (HR2 & Hin & Hout). 
  split_and!; [done|..].
  - intros b' c Hb'. destruct (decide (b' ∈ bs)) as [Hin'|Hin']; [by apply Hin|].
    apply elem_of_cons in Hb' as [->|]; [|done]. rewrite Hout by done. apply Hg1.
  - intros b' Hb' [Hne Hin']%not_elem_of_cons. by rewrite Hout, Hg2.
Qed.

Lemma flush_node_spec fuel w d p n m db :
  Rep fetch d p n m -> getSeq n = mp_seq mp -> (64 - d <= fuel)%nat -> Clean d p n m (flush_node fuel mp w n db).1.2.
Proof.
  revert d p n m db. induction fuel as [|fuel IH]; intros d p n m db HR Hs Hf.
  all: destruct n as [t|n];
    [destruct (leaf_rep_shared d p t m w db HR) as (t' & Hsh & HR' & Hs'); simpl;
     destruct (share mp w (Leaf (leaf_updateHash t).2) db); simpl in *; subst; by split_and!|].
  { apply Rep_open in HR as [HF _]. pose proof (fd_depth _ _ _ _ _ HF). lia. }
  simpl in Hs. rewrite flush_node_inner.
  destruct (flush_branches_spec fuel w d p m all_branches 0 n db) as (HR' & Hin & _); try done; [|lia|by apply Forall_forall, all_branches_spec|].
  { intros b c db' Hb HRc Hsc. apply IH; [done | done | lia]. }
  destruct (fold_left _ _ _) as [[z n1] db1]. simpl in HR', Hin.
  destruct (settle_rep d p n1 m HR') as [HR2 Hh]; [intros b c Hb; by apply Hin, all_branches_spec|].
  pose proof (share_fst w (Inner (updateHashDeep n1)) db1) as Hsh. destruct (share _ _ _ _) as [n2 db2]. simpl in Hsh |- *. subst n2. by split_and!.
Qed.

End Fetch.

(** ** Whole maps *)

Section Map.

Context (db : NodeStore) (mp : SHAMap).

Lemma Rep_empty_root fetch s : Rep fetch 0 0 (Inner (inner_new s)) ∅.
Proof.
  destruct (decide (s = 0)) as [->|Hs]; [|apply Open_Rep; [by apply Open_new; [lia|] | lia]].
  pose proof (Open_new fetch 0 0 1 ltac:(lia) ltac:(lia)) as [HF Hc]. apply Rep_inner; [|lia|by intros b c _ Hne; rewrite sub_empty_map in Hne].
  destruct HF. split; try done; [by left|].
  intros b c _. by rewrite inner_new_child.
Qed.

(** Flushing gives a map with the same items whose root is shared and has its hash. *)
Lemma walkSubTree_holds M w db' :
  Holds db mp M ->
  let mp' := (walkSubTree mp w db').1.2 in
  Holds db mp' M /\ mp_seq mp' = mp_seq mp /\ mp_backed mp' = mp_backed mp /\ mp_state mp' = mp_state mp
  /\ getSeq (mp_root mp') = 0 /\ getNodeHash (mp_root mp') = root_hash M.
Proof.
  intros [Hs Hi HR]. unfold walkSubTree. destruct (mp_root mp) as [t|n] eqn:Er; [done|]. pose proof (Rep_open _ _ _ _ _ HR) as HO.
  destruct (Z.eqb_spec (getSeq (Inner n)) 0) as [E0|E0].
  { simpl. rewrite Er. split; [by split; rewrite ?Er|].
    destruct (fd_own _ _ _ _ _ (proj1 HO)) as [E|[_ E]]; [done | by simpl in E0]. }
  unfold inner_isEmpty. destruct (Z.eqb_spec (in_isBranch n) 0) as [Eb|Eb].
  - apply (isBranch_zero _ _ _ _ _ HO) in Eb as ->. simpl. split_and!; try done. split; try done. apply Rep_empty_root.
  - destruct (preFlushNode_rep _ mp Hs _ _ _ _ HR) as (HR' & Hs' & Hi').
    pose proof (flush_node_spec _ mp Hs max_depth w 0 0 _ M db' HR' Hs' ltac:(unfold max_depth; lia)) as (H1 & H2 & H3 & H4).
    destruct (flush_node _ _ _ _ _) as [[z n'] db'']. simpl in *. rewrite Hi' in H3, H4. split_and!; try done.
    by apply H4.
Qed.

Lemma unshare_holds M :
  Holds db mp M ->
  Holds db (unshare mp) M /\ mp_seq (unshare mp) = mp_seq mp /\ mp_backed (unshare mp) = mp_backed mp
  /\ mp_state (unshare mp) = mp_state mp
  /\ getSeq (mp_root (unshare mp)) = 0 /\ getNodeHash (mp_root (unshare mp)) = root_hash M.
Proof. apply walkSubTree_holds. Qed.

(** The hash of a map is that of its items. *)
Lemma getHash_spec M :
  Holds db mp M ->
  (getHash mp).1 = root_hash M /\ Holds db (getHash mp).2 M /\ mp_backed (getHash mp).2 = mp_backed mp
  /\ getNodeHash (mp_root (getHash mp).2) = root_hash M.
Proof.
  intros HM. unfold getHash. destruct (unshare_holds M HM) as (H1 & _ & H2 & _ & _ & H3).
  destruct (Z.eqb_spec (getNodeHash (mp_root mp)) 0) as [E|E]; [done|]. simpl.
  destruct HM as [Hs Hi HR]. destruct (mp_root mp) as [t|n] eqn:Er; [done|]. pose proof (Rep_open _ _ _ _ _ HR) as [HF _].
  destruct (fd_own _ _ _ _ _ HF) as [Eh|[Eh _]]; [|done]. split_and!; try done. split; rewrite ?Er; done.
Qed.

End Map.

(** A copy has the items of the map. *)
Lemma snapShot_holds db mp M isMutable :
  Holds db mp M -> mp_seq mp < 2 ^ 32 - 1 -> Holds db (snapShot mp isMutable) M.
Proof.
  intros [Hs Hi HR] Hlt. unfold snapShot. set (new := mkMap _ _ _ _).
  assert (HN : Holds db new M). { split; [|done|done]. simpl. unfold u32. rewrite Z.mod_small; lia. }
  case_match; [|done]. by apply unshare_holds.
Qed.

End Hash.
