(* ===== verification/ShaMapInj.v ===== *)
(** * The state tree: the hash determines the items

    The byte strings that are hashed for a set of items, and that two sets have the same
    root hash only if they are the same, unless two of these strings collide. *)

From S2P Require Import Prelude HsTypes ShaMapNode ShaMap ShaMapRep ShaMapProps ShaMapOps ShaMapHash.

#[local] Open Scope Z_scope.

#[local] Opaque be_bytes.

(** A string and the function it is hashed with. *)
Abbreviation Preimage := (HashType * Bytes)%type.

Section Injectivity.

Context `{Hashers}.

(** ** What is hashed *)

Definition value_preimage (k : Z) (v : Value) : Preimage :=
  match v_type v with
  | tnTRANSACTION_NM =>
      match v_data v with
      | 0 :: rest => (sha3, rest)
      | data => (chainHashTypeG, be_bytes 4 hp_transactionID ++ data)
      end
  | tnACCOUNT_STATE => (chainHashTypeG, be_bytes 4 hp_leafNode ++ v_data v ++ be_bytes 32 k)
  | tnCONTRACT_STATE =>
      (chainHashTypeG, be_bytes 4 hp_leafNodeContract ++ v_data v ++ be_bytes 32 (default 0 (v_root v)) ++ be_bytes 32 k)
  | tnTRANSACTION_MD =>
      (match chainHashTypeG with sha => sha | _ => sm3 end, be_bytes 4 hp_txNode ++ v_data v ++ be_bytes 32 k)
  | _ => (chainHashTypeG, [])
  end.

Definition inner_preimage (hashes : list Z) : Preimage :=
  (chainHashTypeG, be_bytes 4 hp_innerNode ++ concat (be_bytes 32 <$> hashes)).

Fixpoint tree_preimages (h : nat) (m : Items) : list Preimage :=
  match map_to_list m with
  | [] => []
  | [(k, v)] => [value_preimage k v]
  | _ =>
      match h with
      | O => []
      | S h' =>
          inner_preimage ((fun b => tree_hash h' (sub (64 - h) b m)) <$> all_branches)
          :: concat ((fun b => tree_preimages h' (sub (64 - h) b m)) <$> all_branches)
      end
  end.

Definition root_preimages (m : Items) : list Preimage :=
  if decide (m = ∅) then []
  else inner_preimage ((fun b => tree_hash 63 (sub 0 b m)) <$> all_branches)
       :: concat ((fun b => tree_preimages 63 (sub 0 b m)) <$> all_branches).

(** Different strings have different hashes. *)
Definition no_collision (l : list Preimage) : Prop :=
  Forall (fun x => Forall (fun y => hasher x.1 x.2 = hasher y.1 y.2 -> x = y) l) l.

Definition hash_range : Prop := forall t x, 0 < hasher t x < 2 ^ 256.

(** Items as the code makes them.  The key of a transaction is its hash, and what an
    Ethereum transaction has after its mark is an RLP list; only the state of a contract
    has a storage root. *)
Definition proper (k : Z) (v : Value) : Prop :=
  valid_key k /\
  match v_type v with
  | tnTRANSACTION_NM =>
      v_root v = None /\ k = value_hash k v
      /\ match v_data v with 0 :: rest => match rest with b :: _ => 192 <= b | [] => False end | _ => True end
  | tnTRANSACTION_MD | tnACCOUNT_STATE => v_root v = None
  | tnCONTRACT_STATE => match v_root v with Some r => valid_key r | None => False end
  | _ => False
  end.

Definition Proper_items (m : Items) : Prop := map_Forall proper m.

Lemma be32_inj x y : valid_key x -> valid_key y -> be_bytes 32 x = be_bytes 32 y -> x = y.
Proof. intros Hx Hy. by apply be_bytes_inj. Qed.

Lemma app_key_inj (l1 l2 : Bytes) x y :
  l1 ++ be_bytes 32 x = l2 ++ be_bytes 32 y -> l1 = l2 /\ be_bytes 32 x = be_bytes 32 y.
Proof. intros E. by apply app_inj_2 in E; [|rewrite !be_bytes_length]. Qed.

(** The five marks. *)
Lemma prefix_bytes :
  be_bytes 4 hp_transactionID = [84; 88; 78; 0] /\ be_bytes 4 hp_txNode = [83; 78; 68; 0]
  /\ be_bytes 4 hp_leafNode = [77; 76; 78; 0] /\ be_bytes 4 hp_leafNodeContract = [67; 76; 78; 0]
  /\ be_bytes 4 hp_innerNode = [77; 73; 78; 0].
Proof. by vm_compute. Qed.

Lemma value_hash_preimage k v : proper k v -> value_hash k v = hasher (value_preimage k v).1 (value_preimage k v).2.
Proof.
  intros [_ Hp]. unfold value_hash, leaf_hash, value_preimage. destruct v as [data [] root]; simpl in *; try done.
  by destruct data as [|[] data].
Qed.

(** The first byte shows what kind of item it is. *)
Definition mark (v : Value) (b : Z) : Prop :=
  match v_type v with
  | tnTRANSACTION_NM => match v_data v with 0 :: _ => 192 <= b | _ => b = 84 end
  | tnTRANSACTION_MD => b = 83
  | tnACCOUNT_STATE => b = 77
  | tnCONTRACT_STATE => b = 67
  | _ => False
  end.

Lemma preimage_mark k v : proper k v -> exists b, head (value_preimage k v).2 = Some b /\ mark v b.
Proof.
  destruct prefix_bytes as (E1 & E2 & E3 & E4 & E5). intros [_ Hp]. unfold value_preimage, mark.
  rewrite E1, E2, E3, E4. destruct (v_type v); [destruct Hp | destruct Hp | | by eexists..].
  destruct (v_data v) as [|[] data]; try (by eexists). destruct Hp as (_ & _ & Hb). destruct data as [|b data]; [done|].
  by exists b.
Qed.

Lemma preimage_type k v k' v' :
  proper k v -> proper k' v' -> (value_preimage k v).2 = (value_preimage k' v').2 -> v_type v = v_type v'.
Proof.
  intros Hp Hp' E. destruct (preimage_mark k v Hp) as (b & Hb & Hm), (preimage_mark k' v' Hp') as (b' & Hb' & Hm').
  rewrite E, Hb' in Hb. injection Hb as ->. unfold mark in Hm, Hm'.
  destruct (v_type v), (v_type v'); try done; try lia; repeat case_match; lia.
Qed.

Lemma value_preimage_inj k v k' v' :
  proper k v -> proper k' v' -> value_preimage k v = value_preimage k' v' -> k = k' /\ v = v'.
Proof.
  intros Hp Hp' E. pose proof (preimage_type k v k' v' Hp Hp' (f_equal snd E)) as Et.
  pose proof (value_hash_preimage k v Hp) as Hh. pose proof (value_hash_preimage k' v' Hp') as Hh'. rewrite <- E in Hh'.
  pose proof (preimage_mark k v Hp) as (b & Hb & Hm). pose proof (preimage_mark k' v' Hp') as (b' & Hb' & Hm').
  destruct Hp as [Hk Hp], Hp' as [Hk' Hp']. rewrite E, Hb' in Hb. injection Hb as ->. unfold value_preimage, mark in *.
  destruct v as [data ty root], v' as [data' ty' root']; simpl in Et, Hp, Hp'. subst ty'. apply (f_equal snd) in E.
  destruct ty; [destruct Hp | destruct Hp | ..]; cbn [v_type v_data v_root snd default] in E, Hm, Hm'.
  - destruct Hp as (-> & Ek & _), Hp' as (-> & Ek' & _). split; [congruence|].
    assert (data = data') as ->; [|done].
    destruct data as [|[] data], data' as [|[] data']; try lia; cbn [snd] in E; try (apply app_inv_head in E); congruence.
  - apply app_inv_head, app_key_inj in E as [-> E]. apply be32_inj in E as ->; [|done..]. by subst.
  - apply app_inv_head, app_key_inj in E as [-> E]. apply be32_inj in E as ->; [|done..]. by subst.
  - destruct root as [r|], root' as [r'|]; try done. rewrite !(assoc (++)) in E. cbn [default id] in E.
    apply app_key_inj in E as [E Ek]. apply be32_inj in Ek as ->; [|done..]. apply app_key_inj in E as [E Er].
    apply app_inv_head in E as ->. apply be32_inj in Er as ->; done.
Qed.

Lemma value_not_inner k v hs : proper k v -> value_preimage k v <> inner_preimage hs.
Proof.
  intros Hp E. pose proof (preimage_mark k v Hp) as (b & Hb & Hm). destruct prefix_bytes as (E1 & E2 & E3 & E4 & E5).
  apply (f_equal snd) in E. unfold inner_preimage in E. cbn [snd] in E. rewrite E, E5 in Hb. injection Hb as <-.
  apply (f_equal (take 2)) in E. rewrite E5 in E. unfold mark, value_preimage in *.
  destruct (v_type v); try done; try lia.
  destruct (v_data v) as [|[] data]; lia.
Qed.

(** ** Inner nodes *)

Lemma concat32_inj hs1 hs2 :
  Forall valid_key hs1 -> Forall valid_key hs2 -> concat (be_bytes 32 <$> hs1) = concat (be_bytes 32 <$> hs2) ->
  length hs1 = length hs2 -> hs1 = hs2.
Proof.
  intros H1. revert hs2. induction H1 as [|x hs1 Hx H1 IH]; intros [|y hs2] H2 E Hl; try done.
  apply Forall_cons in H2 as [Hy H2]. rewrite !fmap_cons, !concat_cons in E.
  apply app_inj_1 in E as [Ex E]; [|by rewrite !be_bytes_length]. apply be32_inj in Ex as ->; [|done..].
  f_equal. apply IH; [done..|]. by injection Hl.
Qed.

Lemma branches_inj (f g : Z -> Z) :
  (forall b, valid_key (f b)) -> (forall b, valid_key (g b)) ->
  inner_preimage (f <$> all_branches) = inner_preimage (g <$> all_branches) -> forall b, 0 <= b < 16 -> f b = g b.
Proof.
  intros Hf Hg E b Hb. apply (f_equal snd) in E. cbn [snd inner_preimage] in E. apply app_inv_head in E.
  apply concat32_inj in E; [| | |by rewrite !length_fmap].
  - apply (f_equal (fun l => l !! Z.to_nat b)) in E. rewrite !branch_lookup in E by lia.
    rewrite Z2Nat.id in E by lia. congruence.
  - apply Forall_fmap, Forall_true. intros x. apply Hf.
  - apply Forall_fmap, Forall_true. intros x. apply Hg.
Qed.

Lemma no_collision_use l x y : no_collision l -> x ∈ l -> y ∈ l -> hasher x.1 x.2 = hasher y.1 y.2 -> x = y.
Proof. intros Hn Hx Hy. unfold no_collision in Hn. rewrite Forall_forall in Hn. specialize (Hn x Hx). rewrite Forall_forall in Hn. by apply Hn. Qed.

Lemma no_collision_sub l l' : l' ⊆ l -> no_collision l -> no_collision l'.
Proof.
  intros Hs Hn. apply Forall_forall. intros x Hx. apply Forall_forall. intros y Hy. apply (no_collision_use l); [done|set_solver..].
Qed.

(** ** Sets of items *)

Lemma items_cases (m : Items) : m = ∅ \/ (exists k v, m = {[k := v]}) \/ (2 <= size m)%nat.
Proof.
  destruct (decide (m = ∅)) as [|Hne]; [by left|right]. apply map_choose in Hne as (k & v & Hk).
  destruct (decide (delete k m = ∅)) as [E|E].
  - left. exists k, v. by rewrite <- (insert_delete_id m k v), E, insert_empty.
  - right. apply map_size_non_empty_iff in E. rewrite map_size_delete_Some in E by done. lia.
Qed.

Lemma sub_ext d (m1 m2 : Items) : (forall b, 0 <= b < 16 -> sub d b m1 = sub d b m2) -> m1 = m2.
Proof.
  intros Hs. apply map_eq. intros k. rewrite <- (sub_own d m1), <- (sub_own d m2). by rewrite Hs by apply nibble_range.
Qed.

Lemma tree_preimages_singleton h k v : tree_preimages h {[k := v]} = [value_preimage k v].
Proof. destruct h; cbn [tree_preimages]; by rewrite map_to_list_singleton. Qed.

Lemma tree_preimages_S h m :
  (2 <= size m)%nat ->
  tree_preimages (S h) m
  = inner_preimage ((fun b => tree_hash h (sub (63 - h) b m)) <$> all_branches)
    :: concat ((fun b => tree_preimages h (sub (63 - h) b m)) <$> all_branches).
Proof.
  rewrite <- length_map_to_list. cbn [tree_preimages]. intros Hm.
  destruct (map_to_list m) as [|[k v] [|e l]]; cbn [length] in Hm; [lia | lia | done].
Qed.

Lemma concat_branch (f : Z -> list Preimage) b : 0 <= b < 16 -> f b ⊆ concat (f <$> all_branches).
Proof.
  intros Hb x Hx. apply list_elem_of_In, in_concat. exists (f b). split; [|by apply list_elem_of_In].
  by apply list_elem_of_In, list_elem_of_fmap_2, all_branches_spec.
Qed.

(** Items that share [64 - h] nibbles. *)
Definition within (h : nat) (m : Items) : Prop := exists p, forall k v, m !! k = Some v -> proper k v /\ prefix (64 - h) k = p.

Lemma within_sub h b m : (S h <= 64)%nat -> within (S h) m -> within h (sub (63 - h) b m).
Proof.
  intros Hh [p Hp]. exists (16 * p + b). intros k v [Hk Hb]%sub_lookup_Some. apply Hp in Hk as [Hk Hpk]. split; [done|].
  replace (64 - h)%nat with (S (63 - h)) by lia. rewrite prefix_S by lia. by replace (64 - S h)%nat with (63 - h)%nat in Hpk by lia; lia.
Qed.

Lemma within_0 m : within 0 m -> (size m < 2)%nat.
Proof.
  intros [p Hp]. destruct (items_cases m) as [->|[(k & v & ->)|Hs]]; [by rewrite map_size_empty; lia | by rewrite map_size_singleton; lia|].
  destruct (decide (m = ∅)) as [->|Hne]; [by rewrite map_size_empty in Hs; lia|]. apply map_choose in Hne as (k & v & Hk).
  assert (m = {[k := v]}) as ->; [|by rewrite map_size_singleton; lia].
  apply map_eq. intros j. destruct (decide (j = k)) as [->|Hj]; [by rewrite Hk, lookup_singleton_eq|]. rewrite lookup_singleton_ne by done.
  destruct (m !! j) as [w|] eqn:Ej; [|done]. apply Hp in Ej as [_ Ej], Hk as [_ Hk]. rewrite prefix_64 in Ej, Hk. congruence.
Qed.

(** ** Injectivity *)

Context (Hrange : hash_range).

Lemma value_hash_pos k v : proper k v -> 0 < value_hash k v < 2 ^ 256.
Proof. intros Hp. rewrite value_hash_preimage by done. apply Hrange. Qed.

Lemma inner_hash_pos hs : 0 < inner_hash hs < 2 ^ 256.
Proof. apply Hrange. Qed.

Lemma tree_hash_valid h m : Proper_items m -> valid_key (tree_hash h m).
Proof.
  intros Hm. destruct (items_cases m) as [->|[(k & v & ->)|Hs]].
  - by rewrite tree_hash_empty.
  - rewrite tree_hash_singleton. apply map_Forall_singleton in Hm. pose proof (value_hash_pos k v Hm). split; lia.
  - destruct h as [|h]; [|rewrite tree_hash_S by done; pose proof (inner_hash_pos ((fun b => tree_hash h (sub (63 - h) b m)) <$> all_branches)); split; lia].
    cbn [tree_hash]. by destruct (map_to_list m) as [|[k v] [|]] eqn:E; rewrite <- length_map_to_list, E in Hs; cbn [length] in Hs; [lia | lia|].
Qed.

Lemma tree_hash_pos h m : within h m -> (h < 64)%nat -> m <> ∅ -> 0 < tree_hash h m.
Proof.
  intros Hw Hh Hne. destruct (items_cases m) as [->|[(k & v & ->)|Hs]]; [done|..].
  - rewrite tree_hash_singleton. destruct Hw as [p Hw]. destruct (Hw k v) as [Hp _]; [by rewrite lookup_singleton_eq|]. by apply value_hash_pos.
  - destruct h as [|h]; [apply within_0 in Hw; lia|]. rewrite tree_hash_S by done. apply inner_hash_pos.
Qed.

Lemma within_proper h m : within h m -> Proper_items m.
Proof. intros [p Hp] k v Hk. by apply Hp in Hk as []. Qed.

Lemma sub_proper d b m : Proper_items m -> Proper_items (sub d b m).
Proof. intros Hm k v [Hk _]%sub_lookup_Some. by apply Hm. Qed.

(** Two inner nodes with the same hash have the same items if their branches do. *)
Lemma inner_inj h d l m1 m2 :
  Proper_items m1 -> Proper_items m2 -> no_collision l ->
  let f m b := tree_hash h (sub d b m) in
  inner_preimage (f m1 <$> all_branches) ∈ l -> inner_preimage (f m2 <$> all_branches) ∈ l ->
  inner_hash (f m1 <$> all_branches) = inner_hash (f m2 <$> all_branches) ->
  (forall b, 0 <= b < 16 -> tree_hash h (sub d b m1) = tree_hash h (sub d b m2) -> sub d b m1 = sub d b m2) -> m1 = m2.
Proof.
  intros H1 H2 Hn f Hin1 Hin2 E Hb. apply (sub_ext d). intros b Hr. apply Hb; [done|].
  apply (branches_inj (f m1) (f m2)); [intros b'; by apply tree_hash_valid, sub_proper..| |done].
  by apply (no_collision_use l).
Qed.

Lemma tree_hash_zero h m : within h m -> (h < 64)%nat -> tree_hash h m = 0 -> m = ∅.
Proof. intros Hw Hh E. destruct (decide (m = ∅)) as [|Hne]; [done|]. pose proof (tree_hash_pos h m Hw Hh Hne). lia. Qed.

Lemma value_inj l k1 v1 k2 v2 :
  proper k1 v1 -> proper k2 v2 -> no_collision l -> value_preimage k1 v1 ∈ l -> value_preimage k2 v2 ∈ l ->
  value_hash k1 v1 = value_hash k2 v2 -> k1 = k2 /\ v1 = v2.
Proof.
  intros H1 H2 Hn Hin1 Hin2 E. rewrite !value_hash_preimage in E by done. apply value_preimage_inj; [done..|]. by apply (no_collision_use l).
Qed.

Lemma value_inner l k v hs :
  proper k v -> no_collision l -> value_preimage k v ∈ l -> inner_preimage hs ∈ l -> value_hash k v <> inner_hash hs.
Proof.
  intros Hp Hn H1 H2 E. rewrite value_hash_preimage in E by done. apply (value_not_inner k v hs Hp). by apply (no_collision_use l).
Qed.

Lemma singleton_inj h l k v m :
  proper k v -> within h m -> (h < 64)%nat -> m <> ∅ -> no_collision l -> value_preimage k v ∈ l -> tree_preimages h m ⊆ l ->
  value_hash k v = tree_hash h m -> m = {[k := v]}.
Proof.
  intros Hp Hw Hh Hne Hn Hin Hsub E. destruct (items_cases m) as [->|[(k2 & v2 & ->)|Hs]]; [done|..].
  - rewrite tree_hash_singleton in E. rewrite tree_preimages_singleton in Hsub. apply within_proper, map_Forall_singleton in Hw.
    apply (value_inj l) in E as [-> ->]; [done..|set_solver].
  - destruct h as [|h]; [apply within_0 in Hw; lia|]. rewrite tree_hash_S in E by done. rewrite tree_preimages_S in Hsub by done.
    by apply (value_inner l) in E; [..|set_solver].
Qed.

Lemma tree_hash_inj h l m1 m2 :
  (h < 64)%nat -> within h m1 -> within h m2 -> no_collision l -> tree_preimages h m1 ⊆ l -> tree_preimages h m2 ⊆ l ->
  tree_hash h m1 = tree_hash h m2 -> m1 = m2.
Proof.
  revert m1 m2. induction h as [|h IH]; intros m1 m2 Hh Hw1 Hw2 Hn Hl1 Hl2 E.
  all: destruct (items_cases m1) as [->|[(k1 & v1 & ->)|Hs1]]; [symmetry; apply (tree_hash_zero _ _ Hw2 Hh); by rewrite <- E, tree_hash_empty|..].
  all: destruct (decide (m2 = ∅)) as [->|Hne2]; [apply (tree_hash_zero _ _ Hw1 Hh); by rewrite E, tree_hash_empty|].
  1, 3: rewrite tree_hash_singleton in E; rewrite tree_preimages_singleton in Hl1; apply within_proper, map_Forall_singleton in Hw1;
    symmetry; eapply singleton_inj; try done; set_solver.
  - apply within_0 in Hw1. lia.
  - destruct (items_cases m2) as [->|[(k2 & v2 & ->)|Hs2]]; [done|..].
    + rewrite (tree_hash_singleton (S h)) in E. rewrite tree_preimages_singleton in Hl2. apply within_proper, map_Forall_singleton in Hw2.
      eapply singleton_inj; try done; [by intros ->; rewrite map_size_empty in Hs1; lia | set_solver].
    + rewrite !tree_hash_S in E by done. rewrite tree_preimages_S in Hl1, Hl2 by done.
      apply (inner_inj h (63 - h) l m1 m2); try done;
        [exact (within_proper _ _ Hw1) | exact (within_proper _ _ Hw2) | apply Hl1; by left | apply Hl2; by left |].
      intros b Hb Eb. apply IH; try done; [lia | apply within_sub; [lia|done]..  | |].
      * intros x Hx. apply Hl1. right. by apply (concat_branch (fun b => tree_preimages h (sub (63 - h) b m1)) b).
      * intros x Hx. apply Hl2. right. by apply (concat_branch (fun b => tree_preimages h (sub (63 - h) b m2)) b).
Qed.

Lemma within_root b m : Proper_items m -> within 63 (sub 0 b m).
Proof.
  intros Hp. exists b. intros k v [Hk Hb]%sub_lookup_Some. apply Hp in Hk as Hkp. split; [done|].
  change (64 - 63)%nat with 1%nat. rewrite prefix_S by lia. rewrite prefix_0 by apply Hkp. lia.
Qed.

(** Two maps with the same root hash have the same items. *)
Lemma root_hash_inj l m1 m2 :
  Proper_items m1 -> Proper_items m2 -> no_collision l -> root_preimages m1 ⊆ l -> root_preimages m2 ⊆ l ->
  root_hash m1 = root_hash m2 -> m1 = m2.
Proof.
  intros H1 H2 Hn Hl1 Hl2 E. unfold root_hash, root_preimages in *.
  destruct (decide (m1 = ∅)) as [->|Hne1], (decide (m2 = ∅)) as [->|Hne2]; [done | | |].
  1: pose proof (inner_hash_pos ((fun b => tree_hash 63 (sub 0 b m2)) <$> all_branches)); lia.
  1: pose proof (inner_hash_pos ((fun b => tree_hash 63 (sub 0 b m1)) <$> all_branches)); lia.
  pose proof (fun b => within_root b m1 H1) as Hw1. pose proof (fun b => within_root b m2 H2) as Hw2.
  revert Hw1 Hw2 Hl1 Hl2 E. remember 63%nat as h eqn:Eh. assert (Hh : (h < 64)%nat) by lia. clear Eh. intros Hw1 Hw2 Hl1 Hl2 E.
  apply (inner_inj h 0 l m1 m2 H1 H2 Hn); [apply Hl1; by left | apply Hl2; by left | done|].
  intros b Hb. apply (tree_hash_inj h l); [done | apply Hw1 | apply Hw2 | done | |].
  - intros x Hx. apply Hl1. right. by apply (concat_branch (fun b => tree_preimages h (sub 0 b m1)) b).
  - intros x Hx. apply Hl2. right. by apply (concat_branch (fun b => tree_preimages h (sub 0 b m2)) b).
Qed.

End Injectivity.
