(* ===== verification/ShaMapIter.v ===== *)
(** * The state tree: iteration

    The iterators visit the items in the order of their keys. *)

From S2P Require Import Prelude HsTypes ShaMapNode ShaMap ShaMapRep ShaMapProps ShaMapOps.

#[local] Open Scope Z_scope.

Lemma StronglySorted_filter {A} (R : A -> A -> Prop) (P : A -> Prop) `{!forall x, Decision (P x)} l :
  StronglySorted R l -> StronglySorted R (base.filter P l).
Proof.
  induction 1 as [|x l Hs IH Hx]; [constructor|]. rewrite filter_cons. case_decide; [|done]. constructor; [done|].
  rewrite Forall_forall in *. intros y [_ Hy]%list_elem_of_filter. by apply Hx.
Qed.

Section Iter.

Context `{Hashers} (db : NodeStore) (mp : SHAMap).

#[local] Abbreviation fetch := (fetchNodeNT db mp).

(** ** The next branch *)

Lemma next_branch_spec n from :
  match next_branch n from with
  | Some b => 0 <= b < 16 /\ from <= b /\ isEmptyBranch n b = false
      /\ forall b', 0 <= b' < 16 -> from <= b' -> isEmptyBranch n b' = false -> b <= b'
  | None => forall b', 0 <= b' < 16 -> from <= b' -> isEmptyBranch n b' = true
  end.
Proof.
  unfold next_branch. set (l := base.filter _ _).
  assert (Hin : forall b, b ∈ l <-> (from <= b /\ isEmptyBranch n b = false) /\ 0 <= b < 16).
  { intros b. unfold l. by rewrite list_elem_of_filter, all_branches_spec. }
  assert (Hs : StronglySorted Z.le l).
  { apply StronglySorted_filter. unfold all_branches. repeat constructor; lia. }
  destruct l as [|b l']; simpl.
  - intros b' Hb' Hf. destruct (isEmptyBranch n b') eqn:E; [done|]. specialize (Hin b'). set_solver.
  - destruct (proj1 (Hin b)) as [[Hf He] Hb]; [left|]. split_and!; try done; try lia.
    intros b' Hb' Hf' He'. assert (Hb'' : b' ∈ b :: l') by (apply Hin; done). apply elem_of_cons in Hb'' as [->|Hb'']; [lia|].
    apply StronglySorted_inv in Hs as [_ Hs]. rewrite Forall_forall in Hs. by apply Hs.
Qed.

(** ** Positions *)

(** An iterator on a leaf. *)
Definition At (M : Items) (t : TreeNode) (stack : NodeStack) : Prop :=
  exists D id rest, stack = (Leaf t, id) :: rest
    /\ Above fetch M D (prefix D (leaf_key t)) {[leaf_key t := leaf_value t]} rest.

(** The leaf with the smallest of the keys of [m]. *)
Definition First (M m : Items) (r : option TreeNode * NodeStack) : Prop :=
  exists t, r.1 = Some t /\ At M t r.2 /\ m !! leaf_key t = Some (leaf_value t)
    /\ forall j v, m !! j = Some v -> leaf_key t <= j.

Lemma leaf_first M D p t m stack id :
  Rep fetch D p (Leaf t) m -> Above fetch M D p m stack -> First M m (Some t, (Leaf t, id) :: stack).
Proof.
  intros HR HA. apply Rep_leaf_inv in HR as (-> & _ & <- & _). exists t. split_and!; [done | by exists D, id, stack | apply lookup_singleton_eq |].
  by intros j v [-> _]%lookup_singleton_Some.
Qed.

(** The first branch of a node and what is left of the others. *)
Lemma first_branch d p n m b from :
  Open fetch d p n m -> next_branch n from = Some b ->
  exists c, descendThrow db mp n b = Done c /\ Rep fetch (S d) (16 * p + b) c (sub d b m) /\ 0 <= b < 16 /\ from <= b
    /\ sub d b m <> ∅
    /\ forall t j v, sub d b m !! leaf_key t = Some (leaf_value t) -> (forall j v, sub d b m !! j = Some v -> leaf_key t <= j) ->
         m !! j = Some v -> from <= nibble d j -> leaf_key t <= j.
Proof.
  intros HO E. pose proof (next_branch_spec n from) as Hn. rewrite E in Hn. destruct Hn as (Hb & Hf & He & Hmin).
  assert (Hne : sub d b m <> ∅) by (intros E'; apply (Open_isEmpty _ _ _ _ _ _ HO Hb) in E'; congruence).
  destruct (Open_child _ _ _ _ _ _ HO Hb Hne) as (c & Hc & HRc). exists c. split_and!; try done; [by apply descendThrow_resolve | lia | lia |].
  intros t j v Ht Hall Hj Hfj. pose proof (fd_depth _ _ _ _ _ (proj1 HO)) as Hd.
  assert (Hbj : b <= nibble d j).
  { apply Hmin; [apply nibble_range | done |]. apply not_true_iff_false. intros E'.
    apply (Open_isEmpty _ _ _ _ _ _ HO (nibble_range d j)) in E'. by apply (sub_nonempty d _ _ _ Hj). }
  apply sub_lookup_Some in Ht as [Ht Hbt]. destruct (Z.eq_dec (nibble d j) b) as [Ejb|].
  - apply (Hall j v). by apply sub_lookup_Some.
  - apply Z.lt_le_incl, (nibble_lt d); [done | | lia]. destruct HO as [HF _]. apply (fd_keys _ _ _ _ _ HF) in Hj as [_ ->], Ht as [_ ->]. done.
Qed.

Lemma first_loop_spec fuel M D p n m br id stack :
  Above fetch M D p m stack -> Rep fetch D p (Inner n) m -> ni_depth id = Z.of_nat D -> (64 - D <= fuel)%nat -> m <> ∅ ->
  exists r, first_loop fuel db mp br n id stack = Done r /\ First M m r.
Proof.
  revert D p n m id stack. induction fuel as [|fuel IH]; intros D p n m id stack HA HR Hid Hf Hne.
  all: pose proof (Rep_open _ _ _ _ _ HR) as HO; pose proof (fd_depth _ _ _ _ _ (proj1 HO)) as Hd.
  1: lia.
  simpl. destruct (next_branch n 0) as [b|] eqn:E.
  - destruct (first_branch _ _ _ _ _ _ HO E) as (c & -> & HRc & Hb & _ & Hne' & Hmin). rewrite bind_done.
    assert (HA' : Above fetch M (S D) (16 * p + b) (sub D b m) ((Inner n, id) :: stack)) by (by constructor).
    assert (Hlift : forall r, First M (sub D b m) r -> First M m r).
    { intros r (t & Ht & Hat & Hlk & Hall). exists t. split_and!; try done; [by apply sub_lookup_Some in Hlk as []|].
      intros j v Hj. apply (Hmin t j v); try done. apply nibble_range. }
    destruct c as [t|n'].
    + eexists. split; [done|]. apply Hlift. by eapply leaf_first.
    + destruct (IH _ _ _ _ (getChildNodeID id br) _ HA' HRc) as (r & Hr & HF); [by apply child_depth | lia | done|].
      exists r. split; [done | by apply Hlift].
  - exfalso. apply map_choose in Hne as (k & v & Hk). pose proof (next_branch_spec n 0) as Hn. rewrite E in Hn.
    pose proof (nibble_range D k) as Hb. specialize (Hn _ Hb ltac:(lia)). apply (Open_isEmpty _ _ _ _ _ _ HO Hb) in Hn.
    by apply (sub_nonempty D _ _ _ Hk).
Qed.

Lemma firstBelow_spec M D p c m br stack :
  Above fetch M D p m stack -> Rep fetch D p c m -> m <> ∅ -> exists r, firstBelow db mp c stack br = Done r /\ First M m r.
Proof.
  intros HA HR Hne. destruct c as [t|n]; cbn [firstBelow]; [eexists; split; [done|]; by eapply leaf_first|].
  eapply first_loop_spec; try done; [|unfold max_depth; lia].
  inversion HA as [|d p' m' n' id' stack' b HA' HR' Hid' Hb]; subst; [done|]. by apply child_depth.
Qed.

(** ** The next leaf *)

(** The smallest of the keys that satisfy [P]. *)
Definition Least (M : Items) (P : Z -> Prop) (r : option TreeNode * NodeStack) : Prop :=
  match r.1 with
  | Some t => At M t r.2 /\ M !! leaf_key t = Some (leaf_value t) /\ P (leaf_key t)
      /\ forall j v, M !! j = Some v -> P j -> leaf_key t <= j
  | None => forall j v, M !! j = Some v -> ~ P j
  end.

Lemma Least_ext M P Q r : (forall j v, M !! j = Some v -> P j <-> Q j) -> Least M P r -> Least M Q r.
Proof.
  intros HPQ. unfold Least. destruct (r.1) as [t|].
  - intros (Hat & Ht & HP & Hmin). split_and!; try done; [by eapply HPQ|]. intros j v Hj HQ. eapply Hmin; [done|]. by eapply HPQ.
  - intros Hno j v Hj HQ. apply (Hno j v Hj). by eapply HPQ.
Qed.

Lemma next_loop_spec M D k m stack :
  Holds db mp M -> valid_key k -> Above fetch M D (prefix D k) m stack ->
  exists r, next_loop db mp k stack = Done r /\ Least M (fun j => prefix D k < prefix D j) r.
Proof.
  intros HM Hk HA. pose proof (fun j v => Holds_keys db mp M j v HM) as HMk. remember (prefix D k) as P eqn:HP. revert HP.
  induction HA as [|d p m n id stack b HA IH HR Hid Hb]; intros HP.
  - eexists. split; [done|]. intros j v Hj. rewrite prefix_0 by (by eapply HMk). lia.
  - pose proof (Rep_open _ _ _ _ _ HR) as HO. pose proof (fd_depth _ _ _ _ _ (proj1 HO)) as Hd.
    assert (p = prefix d k /\ b = nibble d k) as [-> ->].
    { rewrite prefix_S in HP by done. pose proof (nibble_range d k). lia. }
    simpl. rewrite (selectBranch_nibble id k d) by done. pose proof (Above_lookup _ _ _ _ _ _ HA HMk) as Hl.
    destruct (next_branch n (nibble d k + 1)) as [b'|] eqn:E.
    + destruct (first_branch _ _ _ _ _ _ HO E) as (c & -> & HRc & Hb' & Hf & Hne' & Hmin). rewrite bind_done.
      destruct (firstBelow_spec M (S d) _ c _ b' ((Inner n, id) :: stack) ltac:(by constructor) HRc Hne') as ([lf st] & -> & t & E1 & Hat & Hlk & Hall).
      simpl in E1, Hat. subst lf. rewrite bind_done. eexists. split; [done|]. simpl.
      apply sub_lookup_Some in Hlk as Hlk'. destruct Hlk' as [Hlm Hnt]. specialize (Hl (leaf_key t)) as Hlt. rewrite Hlm in Hlt.
      case_decide as Hpt; [|done]. split_and!; [done | done | rewrite prefix_S by done; lia|].
      intros j v Hj Hp. rewrite prefix_S in Hp by done. pose proof (nibble_range d j). destruct (Z.eq_dec (prefix d j) (prefix d k)) as [Epj|].
      * apply (Hmin t j v); try done; [|lia]. by rewrite Hl, decide_True.
      * apply Z.lt_le_incl, (prefix_lt d). rewrite Hpt. lia.
    + destruct (IH eq_refl) as (r & -> & Hr). eexists. split; [done|]. apply (Least_ext M (fun j => prefix d k < prefix d j)); [|done].
      intros j v Hj. rewrite (prefix_S d j) by done. pose proof (nibble_range d j). pose proof (nibble_range d k). split; [lia|]. intros Hp.
      destruct (Z.eq_dec (prefix d j) (prefix d k)) as [Epj|]; [|lia].
      pose proof (next_branch_spec n (nibble d k + 1)) as Hn. rewrite E in Hn. specialize (Hn (nibble d j) ltac:(lia) ltac:(lia)).
      apply (Open_isEmpty _ _ _ _ _ _ HO (nibble_range d j)) in Hn. exfalso. apply (sub_nonempty d m j v); [|done].
      by rewrite Hl, decide_True.
Qed.

Lemma first_loop_empty fuel br n id stack :
  next_branch n 0 = None -> first_loop (S fuel) db mp br n id stack = Done (None, (Inner n, id) :: stack).
Proof. intros E. simpl. by rewrite E. Qed.

Lemma peekFirstItem_spec M : Holds db mp M -> exists r, peekFirstItem db mp = Done r /\ Least M (fun _ => True) r.
Proof.
  intros HM. unfold peekFirstItem. destruct (decide (M = ∅)) as [->|Hne].
  - destruct HM as [_ Hi HR]. destruct (mp_root mp) as [t|n]; [done|]. pose proof (Rep_open _ _ _ _ _ HR) as HO. cbn [firstBelow].
    pose proof (next_branch_spec n 0) as Hn. destruct (next_branch n 0) as [b|] eqn:E.
    + destruct Hn as (Hb & _ & He & _). assert (isEmptyBranch n b = true); [|congruence].
      apply (Open_isEmpty _ _ _ _ _ _ HO Hb). apply sub_empty_map.
    + change max_depth with (S 63). rewrite first_loop_empty, bind_done by done. eexists. split; [done|]. intros j v Hj. by rewrite lookup_empty in Hj.
  - destruct (firstBelow_spec M 0 0 (mp_root mp) M 0 [] ltac:(constructor) (ho_rep _ _ _ HM) Hne) as ([lf st] & -> & t & E & Hat & Hlk & Hall).
    simpl in E. subst lf. rewrite bind_done. eexists. split; [done|]. simpl. split_and!; try done. intros j v Hj _. by eapply Hall.
Qed.

Lemma At_value M t stack : Holds db mp M -> At M t stack -> M !! leaf_key t = Some (leaf_value t) /\ valid_key (leaf_key t).
Proof.
  intros HM (D & id & rest & -> & HA). apply (Above_own _ _ _ _ _ _ _ HM) in HA. rewrite lookup_singleton_eq in HA.
  split; [done|]. by eapply (Holds_keys db mp).
Qed.

(** The item after the one of an iterator. *)
Lemma peekNextItem_spec M t stack :
  Holds db mp M -> At M t stack ->
  exists r, peekNextItem db mp (leaf_key t) stack = Done r /\ Least M (fun j => leaf_key t < j) r.
Proof.
  intros HM Hat. destruct (At_value M t stack HM Hat) as [Hlk Hk]. destruct Hat as (D & id & rest & -> & HA).
  unfold peekNextItem. simpl tail. destruct (next_loop_spec M D (leaf_key t) _ rest HM Hk HA) as (r & -> & Hr).
  exists r. split; [done|]. eapply Least_ext; [|done]. intros j v Hj. simpl. split; [apply prefix_lt|]. intros Hlt.
  assert (Hle : prefix D (leaf_key t) <= prefix D j).
  { apply Z.le_ngt. intros Hc%prefix_lt. lia. }
  destruct (Z.eq_dec (prefix D (leaf_key t)) (prefix D j)) as [E|]; [|lia].
  pose proof (Above_lookup _ _ _ _ _ _ HA (fun j v => Holds_keys db mp M j v HM) j) as Hl.
  rewrite decide_True, Hj in Hl by done. apply lookup_singleton_Some in Hl as [<- _]. lia.
Qed.

(** The first item after a key. *)
Lemma upper_bound_spec M k :
  Holds db mp M -> valid_key k -> exists r, upper_bound db mp k = Done r /\ Least M (fun j => k < j) r.
Proof.
  intros HM Hk. destruct (walkTowardsKey_arrives db mp M k HM Hk) as (r & Hw & Ha). unfold upper_bound. rewrite Hw, bind_done.
  pose proof (fun j v => Holds_keys db mp M j v HM) as HMk.
  assert (Hle : forall D j, k < j -> prefix D k <= prefix D j).
  { intros D j Hj. apply Z.le_ngt. intros Hc%prefix_lt. lia. }
  destruct Ha as [D t id stack HA HR Hid HD _|D n m id stack HA HR Hid He]; cbv beta iota.
  - pose proof (Above_lookup _ _ _ _ _ _ HA HMk) as Hl. apply Rep_leaf_inv in HR as (_ & Hv & Hpt & _).
    change (it_key (tr_item t)) with (leaf_key t). destruct (Z.gtb_spec (leaf_key t) k) as [Hgt|Hle'].
    + eexists. split; [done|]. simpl. split_and!; [exists D, id, stack; by rewrite Hpt | | lia|].
      * specialize (Hl (leaf_key t)). by rewrite lookup_singleton_eq, decide_True in Hl by done.
      * intros j v Hj Hkj. specialize (Hle D j Hkj). specialize (Hl j). rewrite Hj in Hl. case_decide as Hp.
        -- apply lookup_singleton_Some in Hl as [<- _]. lia.
        -- apply Z.lt_le_incl, (prefix_lt D). lia.
    + destruct (next_loop_spec M D k _ stack HM Hk HA) as (r & -> & Hr). exists r. split; [done|]. eapply Least_ext; [|done].
      intros j v Hj. simpl. split; [apply prefix_lt|]. intros Hkj. specialize (Hle D j Hkj). specialize (Hl j). rewrite Hj in Hl.
      case_decide as Hp; [|lia]. apply lookup_singleton_Some in Hl as [<- _]. lia.
  - pose proof (fd_depth _ _ _ _ _ (proj1 (Rep_open _ _ _ _ _ HR))) as Hd.
    assert (HA' : Above fetch M (S D) (prefix (S D) k) (sub D (nibble D k) m) ((Inner n, id) :: stack)).
    { rewrite prefix_S by done. constructor; try done. apply nibble_range. }
    destruct (next_loop_spec M (S D) k _ _ HM Hk HA') as (r & -> & Hr). exists r. split; [done|]. eapply Least_ext; [|done].
    intros j v Hj. simpl. split; [apply prefix_lt|]. intros Hkj. specialize (Hle (S D) j Hkj).
    destruct (Z.eq_dec (prefix (S D) j) (prefix (S D) k)) as [E|]; [|lia].
    pose proof (Above_lookup _ _ _ _ _ _ HA' HMk j) as Hl. by rewrite He, decide_True, Hj, lookup_empty in Hl.
Qed.

(** ** All items *)

Definition item_of (k : Z) (v : Value) : SHAMapItem := mkItem k (v_data v).

Lemma leaf_item t : tr_item t = item_of (leaf_key t) (leaf_value t).
Proof. unfold item_of, leaf_key, leaf_value. simpl. by destruct (tr_item t). Qed.

Definition from (k : Z) (M : Items) : Items := base.filter (fun e => k <= e.1) M.

Lemma from_lookup k M j v : from k M !! j = Some v <-> M !! j = Some v /\ k <= j.
Proof. apply map_lookup_filter_Some. Qed.

Lemma items_from_spec n M t stack :
  Holds db mp M -> At M t stack -> (size (from (leaf_key t) M) <= n)%nat ->
  exists l, items_from n db mp (Some t, stack) = Done l /\ StronglySorted (fun x y => it_key x < it_key y) l
    /\ (forall x, x ∈ l <-> exists v, from (leaf_key t) M !! it_key x = Some v /\ it_data x = v_data v).
Proof.
  intros HM. revert t stack. induction n as [|n IH]; intros t stack Hat Hn; destruct (At_value M t stack HM Hat) as [Hlk Hk].
  { exfalso. assert (E : from (leaf_key t) M = ∅) by (apply map_size_empty_inv; lia).
    assert (Hx : from (leaf_key t) M !! leaf_key t = Some (leaf_value t)) by (by apply from_lookup). by rewrite E, lookup_empty in Hx. }
  destruct (peekNextItem_spec M t stack HM Hat) as ([lf st] & Hnx & Hl). cbn [items_from fst snd].
  change (it_key (tr_item t)) with (leaf_key t). rewrite Hnx, bind_done. unfold Least in Hl. simpl in Hl. destruct lf as [t'|].
  - destruct Hl as (Hat' & Hlk' & Hlt & Hmin).
    assert (Hfrom : from (leaf_key t) M = <[leaf_key t := leaf_value t]> (from (leaf_key t') M)).
    { apply map_eq. intros j. apply option_eq. intros v. rewrite lookup_insert_Some, !from_lookup. split.
      - intros [Hj Hle]. destruct (Z.eq_dec (leaf_key t) j) as [<-|]; [left; by rewrite Hlk in Hj; simplify_eq|].
        right. split_and!; try done. apply (Hmin j v); [done | lia].
      - intros [[<- <-]|(Hne & Hj & Hle)]; [done|]. split; [done | lia]. }
    assert (Hnone : from (leaf_key t') M !! leaf_key t = None).
    { apply eq_None_not_Some. intros [v Hv]. apply from_lookup in Hv as [_ Hv]. lia. }
    rewrite Hfrom, map_size_insert_None in Hn by done.
    destruct (IH t' st Hat' ltac:(lia)) as (l & -> & Hs & Hin). eexists. split; [done|]. split.
    + constructor; [done|]. apply Forall_forall. intros x Hx. apply Hin in Hx as (v & Hv & _). apply from_lookup in Hv as [_ Hv].
      change (it_key (tr_item t)) with (leaf_key t). lia.
    + intros x. rewrite elem_of_cons, Hin, Hfrom. split.
      * intros [->|(v & Hv & Hd)]; [exists (leaf_value t); split; [apply lookup_insert_eq | done]|].
        exists v. split; [|done]. rewrite lookup_insert_ne; [done|]. intros E. by rewrite E, Hv in Hnone.
      * intros (v & [[E <-]|[_ Hv]]%lookup_insert_Some & Hd); [left | right; by exists v].
        rewrite leaf_item. unfold item_of. rewrite E, <- Hd. by destruct x.
  - exists [tr_item t]. split; [by destruct n|]. split; [repeat constructor|]. intros x. rewrite list_elem_of_singleton. split.
    + intros ->. exists (leaf_value t). split; [by apply from_lookup | done].
    + intros (v & [Hv Hle]%from_lookup & Hd). destruct (Z.eq_dec (leaf_key t) (it_key x)) as [E|].
      * rewrite <- E, Hlk in Hv. injection Hv as <-. rewrite leaf_item. unfold item_of. rewrite E, <- Hd. by destruct x.
      * exfalso. apply (Hl _ _ Hv). lia.
Qed.

(** From the first item on, the iterator visits every item, in the order of the keys. *)
Lemma iteration_spec M :
  Holds db mp M ->
  exists l, peekFirstItem db mp ≫= items_from (size M) db mp = Done l
    /\ StronglySorted (fun x y => it_key x < it_key y) l
    /\ forall x, x ∈ l <-> exists v, M !! it_key x = Some v /\ it_data x = v_data v.
Proof.
  intros HM. destruct (peekFirstItem_spec M HM) as ([lf st] & -> & Hl). rewrite bind_done. unfold Least in Hl. simpl in Hl.
  destruct lf as [t|].
  - destruct Hl as (Hat & Hlk & _ & Hmin). assert (E : from (leaf_key t) M = M).
    { apply map_eq. intros j. apply option_eq. intros v. rewrite from_lookup. split; [by intros []|]. intros Hj. split; [done|]. by eapply Hmin. }
    destruct (items_from_spec (size M) M t st HM Hat) as (l & Hl & Hs & Hin); [by rewrite E|]. rewrite E in Hin. by exists l.
  - exists []. split; [by destruct (size M)|]. split; [constructor|]. intros x. split; [by intros ?%not_elem_of_nil|].
    intros (v & Hv & _). by apply Hl in Hv.
Qed.

End Iter.
