(* ===== verification/ShaMapProof.v ===== *)
(** * The state tree: Merkle proofs

    A proof for an item of a hashed map is accepted, and what an accepted proof is about
    is a node of the map. *)

From S2P Require Import Prelude HsTypes ShaMapNode ShaMap ShaMapRep ShaMapProps ShaMapOps ShaMapHash ShaMapInj.

#[local] Open Scope Z_scope.

#[local] Opaque be_bytes.

Section Proofs.

Context `{Hashers} (Hrange : hash_range).

(** ** Hashed nodes *)

Lemma node_hash_pos d p fetch n m :
  Rep fetch d p (Inner n) m -> Proper_items m -> m <> ∅ -> 0 < node_hash d m.
Proof.
  intros HR Hp Hne. pose proof (Rep_open _ _ _ _ _ HR) as HO. pose proof (fd_depth _ _ _ _ _ (proj1 HO)) as Hd.
  rewrite node_hash_inner; [apply inner_hash_pos; done | done | done | by inversion HR].
Qed.

Lemma hashed_child d p db mp n m b :
  Rep (fetchNodeNT db mp) d p (Inner n) m -> in_hash n = node_hash d m -> Proper_items m -> m <> ∅ -> 0 <= b < 16 ->
  getChildHash n b = tree_hash (63 - d) (sub d b m)
  /\ forall c, sub d b m <> ∅ -> resolve (fetchNodeNT db mp) n b = Some c -> getNodeHash c = tree_hash (63 - d) (sub d b m).
Proof.
  intros HR Hh Hp Hne Hb. pose proof (node_hash_pos _ _ _ _ _ HR Hp Hne) as Hpos. pose proof (Rep_open _ _ _ _ _ HR) as [HF Hc].
  destruct (decide (sub d b m = ∅)) as [E|E].
  - destruct (fd_none _ _ _ _ _ HF b Hb E) as [_ ->]. by rewrite E, tree_hash_empty.
  - destruct (fd_hash _ _ _ _ _ HF b Hb E) as [[H1 H2]|(_ & _ & H0)]; [|lia]. split; [done|]. intros c _ Hr.
    pose proof (Hc b c Hb E Hr) as HRc. unfold resolve in Hr. destruct (getChild n b) as [c'|] eqn:Eg; [injection Hr as ->; by apply H2|].
    rewrite (Rep_hash _ _ _ _ _ HRc); [done | by eapply fetchNodeNT_seq | lia].
Qed.

(** ** A level of a proof *)

Lemma be32_round h : valid_key h -> be_value (be_bytes 32 h) = h.
Proof. intros Hh. rewrite be_value_bytes. apply Z.mod_small. exact Hh. Qed.

Lemma level_hashes_spec n bs :
  (forall b, b ∈ bs -> valid_key (getChildHash n b)) -> (forall b, b ∈ bs -> isEmptyBranch n b = true -> getChildHash n b = 0) ->
  level_hashes (in_isBranch n) ((fun b => be_bytes 32 (getChildHash n b)) <$> base.filter (fun b => isEmptyBranch n b = false) bs) bs
  = Some (getChildHash n <$> bs).
Proof.
  induction bs as [|b bs IH]; intros Hv He; [done|]. cbn [level_hashes]. rewrite filter_cons.
  specialize (IH (fun b' Hb' => Hv b' (list_elem_of_further _ _ _ Hb')) (fun b' Hb' => He b' (list_elem_of_further _ _ _ Hb'))).
  destruct (Z.testbit (in_isBranch n) b) eqn:Et.
  - rewrite decide_True by (unfold isEmptyBranch; by rewrite Et). rewrite fmap_cons. cbv beta iota. rewrite be_bytes_length, IH.
    cbn [Nat.eqb fmap option_fmap option_map]. rewrite be32_round; [done|]. apply Hv. left.
  - rewrite decide_False by (unfold isEmptyBranch; by rewrite Et). rewrite IH. simpl. rewrite (He b); [done | left |]. unfold isEmptyBranch. by rewrite Et.
Qed.

Lemma branch_count_pos branch b : 0 <= b < 16 -> Z.testbit branch b = true -> branch_count branch <> 0%nat.
Proof.
  intros Hb Ht E. unfold branch_count in E. apply length_zero_iff_nil in E.
  assert (Hin : b ∈ base.filter (fun m => Z.testbit branch m = true) all_branches) by (by apply list_elem_of_filter; rewrite all_branches_spec).
  rewrite E in Hin. by apply not_elem_of_nil in Hin.
Qed.

Lemma verify_level_spec d p db mp n m b :
  Rep (fetchNodeNT db mp) d p (Inner n) m -> in_hash n = node_hash d m -> Proper_items m -> 0 <= b < 16 -> sub d b m <> ∅ ->
  verify_level chainHashTypeG (tree_hash (63 - d) (sub d b m)) (proof_level n) = Some (in_hash n).
Proof.
  intros HR Hh Hp Hb Hne. pose proof (Rep_open _ _ _ _ _ HR) as HO. pose proof (fd_depth _ _ _ _ _ (proj1 HO)) as Hd.
  assert (Hm : m <> ∅) by (intros ->; by rewrite sub_empty_map in Hne).
  pose proof (fun b' Hb' => proj1 (hashed_child _ _ _ _ _ _ b' HR Hh Hp Hm Hb')) as Hch.
  assert (Hbit : Z.testbit (in_isBranch n) b = true).
  { pose proof (fd_empty _ _ _ _ _ (proj1 HO) b Hb) as He. rewrite bool_decide_eq_false_2 in He by done. unfold isEmptyBranch in He.
    by destruct (Z.testbit _ _). }
  unfold verify_level, proof_level. cbn [lv_branch lv_nodeid].
  rewrite (proj2 (Nat.eqb_neq _ _) (branch_count_pos _ b Hb Hbit)), level_hashes_spec; cycle 1.
  { intros b' Hb'%all_branches_spec. rewrite Hch by done. by apply tree_hash_valid, sub_proper. }
  { intros b' Hb'%all_branches_spec He. rewrite Hch by done. apply (Open_isEmpty _ _ _ _ _ _ HO Hb') in He. by rewrite He, tree_hash_empty. }
  rewrite (proj2 (existsb_exists _ _)).
  - f_equal. rewrite Hh, node_hash_inner by (done || by inversion HR). unfold inner_hash, sha512Half. do 4 f_equal.
    apply list_fmap_ext. intros i b' Hb'. apply Hch, all_branches_spec. by eapply list_elem_of_lookup_2.
  - exists b. split; [by apply list_elem_of_In, all_branches_spec|]. rewrite Hbit, branch_lookup by lia. simpl.
    rewrite Z2Nat.id, Hch by lia. by apply Z.eqb_eq.
Qed.

(** ** The proof of an item *)

Lemma verify_levels_app ty child l1 l2 :
  verify_levels ty child (l1 ++ l2) = verify_levels ty child l1 ≫= fun child => verify_levels ty child l2.
Proof.
  revert child. induction l1 as [|l l1 IH]; intros child; [done|]. cbn [app verify_levels].
  destruct (verify_level ty child l) as [c|]; [apply IH | done].
Qed.


Definition levels (stack : NodeStack) : list ProofLevel :=
  omap (fun e => match e.1 with Inner n => Some (proof_level n) | Leaf _ => None end) stack.

(** A walk through hashed nodes down to an item: the levels check from the leaf up to
    the node where it starts. *)
Lemma walk_proof fuel db mp k v D n m id stack :
  Rep (fetchNodeNT db mp) D (prefix D k) n m -> Proper_items m -> m !! k = Some v ->
  (isInner n = true -> getNodeHash n = node_hash D m) -> ni_depth id = Z.of_nat D -> (64 - D <= fuel)%nat ->
  exists t id' path, walk fuel db mp k n id stack = Done (Some t, (Leaf t, id') :: path ++ stack)
    /\ leaf_key t = k /\ leaf_value t = v /\ tr_hash t = value_hash k v
    /\ Forall (fun e => isInner e.1 = true) path
    /\ verify_levels chainHashTypeG (tr_hash t) (levels path) = Some (getNodeHash n)
    /\ Forall (fun e => Z.of_nat D <= ni_depth e.2) path
    /\ (isInner n = true -> exists path', path = path' ++ [(n, id)] /\ Forall (fun e => Z.of_nat (S D) <= ni_depth e.2) path').
Proof.
  revert D n m id stack. induction fuel as [|fuel IH]; intros D n m id stack HR Hp Hk Hh Hid Hf.
  all: destruct n as [t|n];
    [pose proof (Rep_leaf_inv _ _ _ _ _ HR) as (-> & _ & _ & Hht & _); apply lookup_singleton_Some in Hk as [<- <-]; by exists t, id, []|].
  all: pose proof (Rep_open _ _ _ _ _ HR) as HO; pose proof (fd_depth _ _ _ _ _ (proj1 HO)) as Hd.
  1: lia.
  pose proof (nibble_range D k) as Hb. specialize (Hh eq_refl). simpl in Hh. cbn [walk]. rewrite (selectBranch_nibble id k D) by done.
  assert (Hne : sub D (nibble D k) m <> ∅) by (by eapply sub_nonempty).
  assert (Hm : m <> ∅) by (intros ->; by rewrite lookup_empty in Hk).
  destruct (isEmptyBranch n (nibble D k)) eqn:He; [by apply (Open_isEmpty _ _ _ _ _ _ HO Hb) in He|].
  destruct (Open_child _ _ _ _ _ _ HO Hb Hne) as (c & Hc & HRc). rewrite (descendThrow_resolve _ _ _ _ _ Hc), bind_done.
  destruct (hashed_child _ _ _ _ _ _ _ HR Hh Hp Hm Hb) as [_ Hch]. specialize (Hch c Hne Hc). rewrite <- prefix_S in HRc by done.
  destruct (IH (S D) c (sub D (nibble D k) m) (getChildNodeID id (nibble D k)) ((Inner n, id) :: stack) HRc)
    as (t & id' & path & -> & H1 & H2 & H3 & H4 & H5 & H6 & _).
  { by apply sub_proper. }
  { by rewrite sub_own. }
  { intros _. rewrite Hch. by replace (63 - D)%nat with (64 - S D)%nat by lia. }
  { by apply child_depth. }
  { lia. }
  exists t, id', (path ++ [(Inner n, id)]). split_and!; try done.
  - by rewrite <- app_assoc.
  - apply Forall_app. split; [done | by repeat constructor].
  - unfold levels. rewrite omap_app. fold (levels path). cbn [omap list_omap fst].
    rewrite verify_levels_app, H5, Hch. cbn [mbind option_bind verify_levels].
    by rewrite (verify_level_spec _ _ _ _ _ _ _ HR Hh Hp Hb Hne).
  - apply Forall_app. split; [|repeat constructor; simpl; lia]. eapply Forall_impl; [done|]. intros e Hx. simpl in Hx. lia.
  - intros _. by exists path.
Qed.

Lemma proof_loop_app path rest ls r :
  Forall (fun e => isInner e.1 = true) path -> Forall (fun e => 1 <= ni_depth e.2) path ->
  proof_loop (path ++ rest) ls r = proof_loop rest (ls ++ levels path) r.
Proof.
  intros Hp. revert ls. induction Hp as [|[n id] path Hi Hp IH]; intros ls Hd; [by rewrite app_nil_r|].
  apply Forall_cons in Hd as [Hd1 Hd]. destruct n as [t|n]; [done|]. simpl in Hd1. simpl. unfold isRoot.
  rewrite (proj2 (Z.eqb_neq _ _)) by lia. rewrite IH by done. unfold levels. simpl. by rewrite <- app_assoc.
Qed.

(** A hashed map. *)
Definition Hashed (mp : SHAMap) (M : Items) : Prop := getNodeHash (mp_root mp) = root_hash M.

(** The proof of an item is accepted. *)
Lemma genNodeProof_complete db mp M k v :
  Holds db mp M -> Hashed mp M -> Proper_items M -> M !! k = Some v ->
  exists pf, genNodeProof db mp k = Done (Some (value_hash k v, pf))
    /\ verifyProof (value_hash k v) pf (root_hash M) chainHashTypeG = true.
Proof.
  intros HM HH Hp Hk. assert (Hv : valid_key k) by (by eapply (Holds_keys db mp)). unfold Hashed in HH.
  destruct HM as [_ Hi HR]. destruct (mp_root mp) as [|n] eqn:Er; [done|].
  destruct (walk_proof max_depth db mp k v 0 (Inner n) M root_id []) as (t & id' & path & Hw & H1 & H2 & H3 & H4 & H5 & _ & H6); try done.
  { by rewrite prefix_0. }
  destruct (H6 eq_refl) as (path' & -> & Hd). rewrite app_nil_r in Hw.
  exists (mkProof (levels (path' ++ [(Inner n, root_id)])) (be_bytes 32 (in_hash n))). split.
  - unfold genNodeProof, walkTowardsKey. rewrite Er, Hw, bind_done. cbv beta iota. change (it_key (tr_item t)) with (leaf_key t).
    rewrite H1, Z.eqb_refl, H3. do 3 f_equal. destruct (path' ++ [(Inner n, root_id)]) as [|e l] eqn:El; [by destruct path'|].
    rewrite <- El in H4 |- *. apply Forall_app in H4 as [H4 _]. rewrite proof_loop_app by done. simpl. f_equal. unfold levels. by rewrite omap_app.
  - rewrite H3 in H5. unfold verifyProof. cbn [pf_rootid pf_level]. rewrite be_bytes_length. cbn [Nat.eqb negb].
    simpl in HH. rewrite be32_round, HH, Z.eqb_refl, H5.
    + simpl. rewrite HH. by apply Z.eqb_eq.
    + rewrite HH. unfold root_hash. case_decide; [done|]. pose proof (inner_hash_pos Hrange ((fun b => tree_hash 63 (sub 0 b M)) <$> all_branches)). split; lia.
Qed.

Lemma genNodeProof_none db mp M k :
  Holds db mp M -> valid_key k -> M !! k = None -> genNodeProof db mp k = Done None.
Proof.
  intros HM Hk Hn. destruct (walkTowardsKey_arrives db mp M k HM Hk) as (r & Hw & Ha). unfold genNodeProof. rewrite Hw, bind_done.
  destruct Ha as [D t id stack HA HR Hid HD _|D n m id stack HA HR Hid He]; cbv beta iota; [|done].
  apply (Above_own _ _ _ _ _ _ _ HM) in HA. rewrite Hn in HA. change (it_key (tr_item t)) with (leaf_key t).
  destruct (Z.eqb_spec (leaf_key t) k) as [E|]; [|done]. by rewrite E, lookup_singleton_eq in HA.
Qed.

(** ** What an accepted proof shows *)

(** What is hashed to check a proof. *)
Definition level_preimage (level : ProofLevel) : option Preimage :=
  inner_preimage <$> level_hashes (lv_branch level) (lv_nodeid level) all_branches.

Definition proof_preimages (pf : SHAMapProof) : list Preimage := omap level_preimage (pf_level pf).

Definition proof_bytes (pf : SHAMapProof) : Prop := Forall (fun lv => Forall (Forall is_byte) (lv_nodeid lv)) (pf_level pf).

Lemma level_hashes_valid branch ids bs hs :
  Forall (Forall is_byte) ids -> level_hashes branch ids bs = Some hs -> Forall valid_key hs /\ length hs = length bs.
Proof.
  revert ids hs. induction bs as [|b bs IH]; intros ids hs Hids; cbn [level_hashes].
  { destruct ids; [|done]. intros [= <-]. by split. }
  destruct (Z.testbit branch b).
  - destruct ids as [|id ids]; [done|]. apply Forall_cons in Hids as [Hid Hids]. destruct (Nat.eqb_spec (length id) 32) as [El|]; [|done].
    destruct (level_hashes branch ids bs) as [hs'|] eqn:E; [|done]. intros [= <-]. destruct (IH _ _ Hids E) as [Hv Hl].
    split; [|cbn [length]; by rewrite Hl]. apply Forall_cons. split; [|done]. pose proof (be_value_bound id Hid) as Hb. by rewrite El in Hb.
  - destruct (level_hashes branch ids bs) as [hs'|] eqn:E; [|done]. intros [= <-]. destruct (IH _ _ Hids E) as [Hv Hl].
    split; [|cbn [length]; by rewrite Hl]. apply Forall_cons. by split.
Qed.

(** The hashes in an inner node of a tree are those of nodes of the tree. *)
Definition hash_in (l : list Preimage) (x : Z) : Prop := exists pre, pre ∈ l /\ x = hasher pre.1 pre.2.

Definition closed (l l' : list Preimage) (m : Items) : Prop :=
  forall pre, pre ∈ l ->
    (exists k v, m !! k = Some v /\ pre = value_preimage k v)
    \/ exists hs, pre = inner_preimage hs /\ Forall valid_key hs /\ length hs = 16%nat /\ forall x, x ∈ hs -> x <> 0 -> hash_in l' x.

Lemma tree_hash_in h m : within h m -> (h < 64)%nat -> m <> ∅ -> hash_in (tree_preimages h m) (tree_hash h m).
Proof.
  intros Hw Hh Hne. destruct (items_cases m) as [->|[(k & v & ->)|Hs]]; [done|..].
  - rewrite tree_hash_singleton, tree_preimages_singleton. exists (value_preimage k v). split; [left|].
    apply value_hash_preimage. by apply within_proper, map_Forall_singleton in Hw.
  - destruct h as [|h]; [apply within_0 in Hw; lia|]. rewrite tree_hash_S, tree_preimages_S by done. eexists. split; [left | done].
Qed.

Lemma hash_in_sub l l' x : l ⊆ l' -> hash_in l x -> hash_in l' x.
Proof. intros Hs (pre & Hin & ->). exists pre. split; [by apply Hs | done]. Qed.

Lemma inner_closed h d l m :
  (h < 64)%nat -> Proper_items m -> (forall b, within h (sub d b m)) ->
  (forall b, 0 <= b < 16 -> tree_preimages h (sub d b m) ⊆ l) ->
  exists hs, (fun b => tree_hash h (sub d b m)) <$> all_branches = hs /\ Forall valid_key hs /\ length hs = 16%nat
    /\ forall x, x ∈ hs -> x <> 0 -> hash_in l x.
Proof.
  intros Hh Hp Hw Hl. eexists. split; [done|]. split_and!.
  - apply Forall_fmap, Forall_true. intros b. by apply tree_hash_valid, sub_proper.
  - done.
  - intros x (b & -> & Hb%all_branches_spec)%list_elem_of_fmap Hx. apply (hash_in_sub (tree_preimages h (sub d b m))); [by apply Hl|].
    apply tree_hash_in; [done | done|]. intros E. by rewrite E, tree_hash_empty in Hx.
Qed.

Lemma tree_closed h l m : (h < 64)%nat -> within h m -> tree_preimages h m ⊆ l -> closed (tree_preimages h m) l m.
Proof.
  revert m. induction h as [|h IH]; intros m Hh Hw Hl pre Hpre; destruct (items_cases m) as [->|[(k & v & ->)|Hs]].
  all: try (cbn [tree_preimages] in Hpre; rewrite map_to_list_empty in Hpre; by apply not_elem_of_nil in Hpre).
  all: try (rewrite tree_preimages_singleton in Hpre; apply list_elem_of_singleton in Hpre as ->; left; exists k, v; by rewrite lookup_singleton_eq).
  - apply within_0 in Hw. lia.
  - rewrite tree_preimages_S in Hpre, Hl by done. pose proof (fun b => within_sub h b m ltac:(lia) Hw) as Hws.
    assert (Hlb : forall b, 0 <= b < 16 -> tree_preimages h (sub (63 - h) b m) ⊆ l).
    { intros b Hb x Hx. apply Hl. right. by apply (concat_branch (fun b => tree_preimages h (sub (63 - h) b m)) b). }
    apply elem_of_cons in Hpre as [->|Hpre].
    + right. destruct (inner_closed h (63 - h) l m ltac:(lia) (within_proper _ _ Hw) Hws Hlb) as (hs & -> & ?). by exists hs.
    + apply list_elem_of_In, in_concat in Hpre as (l' & Hl' & Hpre). apply list_elem_of_In, list_elem_of_fmap in Hl' as (b & -> & Hb%all_branches_spec).
      apply list_elem_of_In in Hpre. destruct (IH _ ltac:(lia) (Hws b) (Hlb b Hb) pre Hpre) as [(k & v & Hk & ->)|]; [left|by right].
      apply sub_lookup_Some in Hk as [Hk _]. by exists k, v.
Qed.

Lemma root_closed M : Proper_items M -> closed (root_preimages M) (root_preimages M) M.
Proof.
  intros Hp pre Hpre. unfold root_preimages in *. case_decide as E; [by apply not_elem_of_nil in Hpre|].
  pose proof (fun b => within_root b M Hp) as Hw. revert Hw Hpre. remember 63%nat as h eqn:Eh.
  assert (Hh : (h < 64)%nat) by lia. clear Eh. intros Hw Hpre. set (l := _ :: _) in *.
  assert (Hlb : forall b, 0 <= b < 16 -> tree_preimages h (sub 0 b M) ⊆ l).
  { intros b Hb x Hx. right. by apply (concat_branch (fun b => tree_preimages h (sub 0 b M)) b). }
  apply elem_of_cons in Hpre as [->|Hpre].
  - right. destruct (inner_closed h 0 l M Hh Hp Hw Hlb) as (hs & -> & ?). by exists hs.
  - apply list_elem_of_In, in_concat in Hpre as (l' & Hl' & Hpre). apply list_elem_of_In, list_elem_of_fmap in Hl' as (b & -> & Hb%all_branches_spec).
    apply list_elem_of_In in Hpre. destruct (tree_closed h l _ Hh (Hw b) (Hlb b Hb) pre Hpre) as [(k & v & Hk & ->)|]; [left|by right].
    apply sub_lookup_Some in Hk as [Hk _]. by exists k, v.
Qed.

(** A level that names a child is hashed to the next one. *)
Lemma verify_level_inv child lv c :
  verify_level chainHashTypeG child lv = Some c -> child <> 0 ->
  exists hs, level_hashes (lv_branch lv) (lv_nodeid lv) all_branches = Some hs /\ level_preimage lv = Some (inner_preimage hs)
    /\ child ∈ hs /\ c = inner_hash hs.
Proof.
  unfold verify_level, level_preimage. intros Hv Hne. destruct (_ =? _)%nat; [done|].
  destruct (level_hashes _ _ _) as [hs|]; [|done]. exists hs. destruct (existsb _ _) eqn:E; [|done]. injection Hv as <-. split_and!; try done.
  apply existsb_exists in E as (b & _ & Hb). apply andb_prop in Hb as [_ Hb%Z.eqb_eq].
  destruct (hs !! Z.to_nat b) as [x|] eqn:Ex; [|by subst]. simpl in Hb. subst x. by eapply list_elem_of_lookup_2.
Qed.

Lemma verify_levels_sound M l lvs child r :
  Proper_items M -> no_collision l -> root_preimages M ⊆ l -> omap level_preimage lvs ⊆ l ->
  Forall (fun lv => Forall (Forall is_byte) (lv_nodeid lv)) lvs ->
  verify_levels chainHashTypeG child lvs = Some r -> child <> 0 -> hash_in (root_preimages M) r -> hash_in (root_preimages M) child.
Proof.
  intros Hp Hn Hl. revert child. induction lvs as [|lv lvs IH]; intros child Hlv Hb Hv Hne Hr; [by injection Hv as ->|].
  cbn [verify_levels] in Hv. destruct (verify_level chainHashTypeG child lv) as [c|] eqn:Ec; [|done]. simpl in Hv.
  apply Forall_cons in Hb as [Hb1 Hb]. destruct (verify_level_inv child lv c Ec Hne) as (hs & Hhs & Hpre & Hin & ->).
  cbn [omap list_omap] in Hlv. rewrite Hpre in Hlv. destruct (level_hashes_valid _ _ _ _ Hb1 Hhs) as [Hval Hlen].
  destruct (IH (inner_hash hs)) as (pre & Hpin & Hpe); [| done | done | pose proof (inner_hash_pos Hrange hs); lia | done|].
  { intros x Hx. apply Hlv. by right. }
  assert (pre = inner_preimage hs) as ->.
  { apply (no_collision_use l); [done | by apply Hl | apply Hlv; left | done]. }
  destruct (root_closed M Hp _ Hpin) as [(k & v & Hk & E)|(hs' & E & Hval' & Hlen' & Hall)].
  - exfalso. apply (value_not_inner k v hs); [by apply Hp | done].
  - apply Hall; [|done]. assert (hs' = hs) as ->; [|done]. apply (f_equal snd) in E. cbn [snd inner_preimage] in E.
    apply app_inv_head in E. apply concat32_inj; try done. by rewrite Hlen, Hlen'.
Qed.

Lemma verify_levels_pos lvs child r : verify_levels chainHashTypeG child lvs = Some r -> 0 < child -> 0 < r.
Proof.
  revert child. induction lvs as [|lv lvs IH]; intros child Hv Hpos; [by injection Hv as ->|]. cbn [verify_levels] in Hv.
  destruct (verify_level chainHashTypeG child lv) as [c|] eqn:Ec; [|done]. apply (IH c Hv).
  apply verify_level_inv in Ec as (hs & _ & _ & _ & ->); [apply inner_hash_pos; done | lia].
Qed.

Lemma inner_hash_in hs l : inner_preimage hs ∈ l -> hash_in l (inner_hash hs).
Proof. intros Hin. by exists (inner_preimage hs). Qed.

Lemma root_hash_in M : 0 < root_hash M -> hash_in (root_preimages M) (root_hash M).
Proof. unfold root_hash, root_preimages. case_decide; [lia|]. intros _. apply inner_hash_in. left. Qed.

(** What is proved to be in a map is in it. *)
Lemma verifyProof_item M pf k v :
  Proper_items M -> proper k v -> proof_bytes pf ->
  no_collision (value_preimage k v :: proof_preimages pf ++ root_preimages M) ->
  verifyProof (value_hash k v) pf (root_hash M) chainHashTypeG = true -> M !! k = Some v.
Proof.
  intros Hp Hkv Hb Hn Hv. unfold verifyProof in Hv. destruct (negb _); [done|].
  destruct (Z.eqb_spec (be_value (pf_rootid pf)) (root_hash M)) as [Er|]; [|done]. simpl in Hv.
  destruct (verify_levels _ _ _) as [c|] eqn:Ec; [|done]. apply Z.eqb_eq in Hv. rewrite Er in Hv. subst c.
  pose proof (value_hash_pos Hrange k v Hkv) as Hpos. pose proof (verify_levels_pos _ _ _ Ec ltac:(lia)) as Hr.
  apply (verify_levels_sound M (value_preimage k v :: proof_preimages pf ++ root_preimages M)) in Ec; [| done | done | | | done | lia |].
  - destruct Ec as (pre & Hin & E). assert (value_preimage k v = pre) as <-.
    { eapply no_collision_use; [done | left | right; apply elem_of_app; by right |]. by rewrite <- value_hash_preimage. }
    destruct (root_closed M Hp _ Hin) as [(k' & v' & Hk & E')|(hs & E' & _)].
    + apply value_preimage_inj in E' as [-> ->]; [done | done | by apply Hp].
    + by apply (value_not_inner k v hs) in E'.
  - intros x Hx. right. apply elem_of_app. by right.
  - intros x Hx. right. apply elem_of_app. by left.
  - by apply root_hash_in.
Qed.

End Proofs.
