(* ===== verification/ShaMapDelta.v ===== *)
(** * The state tree: comparison of two maps

    The comparison, which skips the branches with equal hashes, finds exactly the items
    in which two maps differ. *)

From S2P Require Import Prelude HsTypes ShaMapNode ShaMap ShaMapRep ShaMapProps ShaMapOps ShaMapHash ShaMapInj ShaMapIter ShaMapProof.

#[local] Open Scope Z_scope.

(** ** Differences *)

Abbreviation Pair := (option SHAMapItem * option SHAMapItem)%type.

Definition entry (a b : option SHAMapItem) : option Pair :=
  match a, b with
  | None, None => None
  | Some x, Some y => if decide (it_data x = it_data y) then None else Some (a, b)
  | _, _ => Some (a, b)
  end.

Definition items_of (m : Items) : gmap Z SHAMapItem := map_imap (fun k v => Some (item_of k v)) m.

Lemma items_of_lookup m k : items_of m !! k = item_of k <$> m !! k.
Proof. unfold items_of. rewrite map_lookup_imap. by destruct (m !! k). Qed.

(** The keys in which two maps differ, with the items of both. *)
Definition differences (m1 m2 : Items) : Delta := merge entry (items_of m1) (items_of m2).

Lemma item_differences_lookup m1 m2 k : differences m1 m2 !! k = entry (item_of k <$> m1 !! k) (item_of k <$> m2 !! k).
Proof. unfold differences. rewrite lookup_merge, !items_of_lookup. by destruct (m1 !! k), (m2 !! k). Qed.

Definition side (isFirstMap : bool) (here there : option SHAMapItem) : Pair := if isFirstMap then (here, there) else (there, here).

(** ** Notes *)

Definition notes (l : list (Z * Pair)) (w : Walk) : Walk :=
  fold_left (fun w e => if wk_go w then note e.1 e.2.1 e.2.2 w else w) l w.

Lemma notes_app l1 l2 w : notes (l1 ++ l2) w = notes l2 (notes l1 w).
Proof. apply fold_left_app. Qed.

Lemma notes_stopped l w : wk_go w = false -> notes l w = w.
Proof. intros Hw. induction l as [|e l IH]; [done|]. unfold notes in *. cbn [fold_left]. by rewrite Hw. Qed.

Lemma note_side_notes first k a b w : wk_go w = true -> note_side first k a b w = notes [(k, side first a b)] w.
Proof. intros Hw. unfold notes, note_side, side. cbn [fold_left fst snd]. rewrite Hw. by destruct first. Qed.

Lemma notes_cons k a b l w : wk_go w = true -> notes ((k, (a, b)) :: l) w = notes l (note k a b w).
Proof. intros Hw. unfold notes. cbn [fold_left fst snd]. by rewrite Hw. Qed.

Lemma note_new k a b D c : D !! k = None -> note k a b (mkWalk true D c) = mkWalk (negb (c - 1 <=? 0)) (<[k := (a, b)]> D) (c - 1).
Proof. intros HD. unfold note. cbn [wk_delta wk_maxCount]. by rewrite HD. Qed.

Lemma list_to_map_union (k : Z) (e : Pair) l (D : Delta) :
  k ∉ l.*1 -> list_to_map l ∪ <[k := e]> D = list_to_map ((k, e) :: l) ∪ D.
Proof. intros Hk. rewrite <- insert_union_r by (by apply not_elem_of_list_to_map_1). by rewrite insert_union_l. Qed.

(** All notes fit. *)
Lemma notes_all l D c :
  NoDup l.*1 -> (forall k, k ∈ l.*1 -> D !! k = None) -> Z.of_nat (length l) < c ->
  notes l (mkWalk true D c) = mkWalk true (list_to_map l ∪ D) (c - Z.of_nat (length l)).
Proof.
  revert D c. induction l as [|[k [a b]] l IH]; intros D c Hnd HD Hc.
  { cbn. rewrite left_id by apply _. by rewrite Z.sub_0_r. }
  rewrite fmap_cons, NoDup_cons in Hnd. destruct Hnd as [Hk Hnd]. cbn [length] in Hc.
  rewrite notes_cons, note_new by (done || apply HD; left). rewrite (proj2 (Z.leb_gt _ _)) by lia. cbn [negb].
  rewrite IH; [rewrite list_to_map_union by done; f_equal; cbn [length]; lia | done | | lia].
  intros j Hj. rewrite lookup_insert_ne; [apply HD; by right | by intros ->].
Qed.

(** The comparison stops when there are as many as allowed. *)
Lemma notes_stop l D c :
  NoDup l.*1 -> (forall k, k ∈ l.*1 -> D !! k = None) -> 0 < c <= Z.of_nat (length l) ->
  notes l (mkWalk true D c) = mkWalk false (list_to_map (take (Z.to_nat c) l) ∪ D) 0.
Proof.
  revert D c. induction l as [|[k [a b]] l IH]; intros D c Hnd HD Hc; [cbn [length] in Hc; lia|].
  rewrite fmap_cons, NoDup_cons in Hnd. destruct Hnd as [Hk Hnd]. cbn [length] in Hc.
  rewrite notes_cons, note_new by (done || apply HD; left). destruct (Z.leb_spec (c - 1) 0) as [Hle|Hgt].
  - assert (c = 1) as -> by lia. rewrite notes_stopped by done. f_equal. change (take (Z.to_nat 1) _) with [(k, (a, b))].
    cbn [list_to_map foldr]. by rewrite insert_empty, insert_union_singleton_l.
  - rewrite IH; [|done| |lia].
    + replace (Z.to_nat c) with (S (Z.to_nat (c - 1))) by lia. rewrite firstn_cons, list_to_map_union; [done|].
      intros Hin. apply Hk. rewrite fmap_take in Hin. by eapply subseteq_take.
    + intros j Hj. rewrite lookup_insert_ne; [apply HD; by right | by intros ->].
Qed.

Section Delta.

Context `{Hashers} (M1 M2 : Items).

Definition diff (k : Z) : option Pair := entry (item_of k <$> M1 !! k) (item_of k <$> M2 !! k).

(** ** Enumerations

    [l] has the differences of the keys that satisfy [P]. *)
Definition Enum (P : Z -> Prop) (l : list (Z * Pair)) : Prop :=
  NoDup l.*1 /\ forall k e, (k, e) ∈ l <-> P k /\ diff k = Some e.

Lemma Enum_ext P Q l : (forall k, is_Some (diff k) -> P k <-> Q k) -> Enum P l -> Enum Q l.
Proof. intros HPQ [Hn Hin]. split; [done|]. intros k e. rewrite Hin. split; intros [HP He]; (split; [|done]); by apply HPQ. Qed.

Lemma Enum_nil P : (forall k, P k -> diff k = None) -> Enum P [].
Proof.
  intros HP. split; [apply NoDup_nil_2|]. intros k e. split; [by intros ?%not_elem_of_nil|]. intros [Hk He]. by rewrite HP in He.
Qed.

Lemma Enum_single k e (P : Z -> Prop) : P k -> diff k = Some e -> (forall j, P j -> j = k) -> Enum P [(k, e)].
Proof.
  intros HP He Hu. split; [apply NoDup_singleton|]. intros j e'. rewrite list_elem_of_singleton. split; [by intros [= -> ->]|].
  intros [Hj Hd]. apply Hu in Hj as ->. congruence.
Qed.

Lemma Enum_app P Q l1 l2 : (forall k, P k -> Q k -> False) -> Enum P l1 -> Enum Q l2 -> Enum (fun k => P k \/ Q k) (l1 ++ l2).
Proof.
  intros Hd [Hn1 H1] [Hn2 H2]. split.
  - rewrite fmap_app. apply NoDup_app. split_and!; try done. intros k ([k1 e1] & -> & Hk1)%list_elem_of_fmap ([k2 e2] & E & Hk2)%list_elem_of_fmap.
    simpl in *. subst k2. apply H1 in Hk1 as [Hp _]. apply H2 in Hk2 as [Hq _]. by eapply Hd.
  - intros k e. rewrite elem_of_app, H1, H2. tauto.
Qed.

Lemma Enum_perm P l1 l2 : l1 ≡ₚ l2 -> Enum P l1 -> Enum P l2.
Proof. intros Hp [Hn Hin]. split; [by rewrite <- Hp|]. intros k e. by rewrite <- Hp. Qed.

(** ** Regions: the items with a prefix *)

Definition Region (d : nat) (p : Z) (M m : Items) : Prop := forall k, m !! k = if decide (prefix d k = p) then M !! k else None.

Lemma prefix_child d p b k :
  (d < 64)%nat -> 0 <= b < 16 -> prefix (S d) k = 16 * p + b <-> prefix d k = p /\ nibble d k = b.
Proof. intros Hd Hb. rewrite prefix_S by done. pose proof (nibble_range d k). lia. Qed.

Lemma Region_sub d p M m b : (d < 64)%nat -> 0 <= b < 16 -> Region d p M m -> Region (S d) (16 * p + b) M (sub d b m).
Proof.
  intros Hd Hb Hm k. rewrite sub_lookup, Hm, prefix_S by done. pose proof (nibble_range d k). repeat case_decide; try done; lia.
Qed.

(** ** Walking one side *)

Section Side.

Context (db : NodeStore) (mp : SHAMap) (first : bool).

Let Ms := if first then M1 else M2.
Let Mo := if first then M2 else M1.

#[local] Abbreviation fetch := (fetchNodeNT db mp).

Lemma diff_side k : diff k = (fun e => side first e.1 e.2) <$> entry (item_of k <$> Ms !! k) (item_of k <$> Mo !! k).
Proof.
  unfold diff, Ms, Mo, side. destruct first, (M1 !! k), (M2 !! k); simpl; repeat case_decide; try done; congruence.
Qed.

(** The other side has at most one item there. *)
Definition Other (d : nat) (p : Z) (o : option SHAMapItem) : Prop :=
  forall k, prefix d k = p -> item_of k <$> Mo !! k = match o with Some oi => if decide (it_key oi = k) then Some oi else None | None => None end.

Lemma Other_sub d p o b : (d < 64)%nat -> 0 <= b < 16 -> Other d p o -> Other (S d) (16 * p + b) o.
Proof. intros Hd Hb Ho k Hk. apply Ho. rewrite prefix_S in Hk by done. pose proof (nibble_range d k). lia. Qed.

(** Whether the item of the other side is among those of this side. *)
Definition hit (o : option SHAMapItem) (m : Items) : bool :=
  match o with Some oi => bool_decide (is_Some (m !! it_key oi)) | None => false end.

(** What a walk from a state does. *)
Definition Walks (P : Z -> Prop) (o : option SHAMapItem) (m : Items) (f : bool * Walk -> MapRes (bool * Walk)) : Prop :=
  exists l, Enum P l /\ forall u w, (wk_go w = true -> hit o m = true -> u = true) ->
    exists u', f (u, w) = Done (u', notes l w) /\ (wk_go (notes l w) = true -> u' = u && negb (hit o m)).

Lemma walk_leaf_walks fuel d p o t m :
  Rep fetch d p (Leaf t) m -> Region d p Ms m -> Other d p o ->
  Walks (fun k => prefix d k = p /\ is_Some (Ms !! k)) o m (walk_nodes fuel db mp first o (Leaf t)).
Proof.
  intros HR Hreg Ho. apply Rep_leaf_inv in HR as (-> & Hv & Hp & _).
  assert (Hu : forall j, prefix d j = p /\ is_Some (Ms !! j) -> j = leaf_key t).
  { intros j [Hj [v Hs]]. specialize (Hreg j). rewrite decide_True, Hs in Hreg by done. by apply lookup_singleton_Some in Hreg as [<- _]. }
  assert (Hs : Ms !! leaf_key t = Some (leaf_value t)).
  { specialize (Hreg (leaf_key t)). by rewrite lookup_singleton_eq, decide_True in Hreg by done. }
  pose proof (diff_side (leaf_key t)) as Hdiff. rewrite Hs, Ho in Hdiff by done. cbn [fmap option_fmap option_map] in Hdiff. rewrite <- leaf_item in Hdiff.
  assert (Hone : forall l, Enum (fun k => prefix d k = p /\ is_Some (Ms !! k)) l ->
    (forall u w, wk_go w = true -> (hit o {[leaf_key t := leaf_value t]} = true -> u = true) ->
       exists u', walk_leaf first o (tr_item t) u w = (u', notes l w) /\ u' = u && negb (hit o {[leaf_key t := leaf_value t]})) ->
    Walks (fun k => prefix d k = p /\ is_Some (Ms !! k)) o {[leaf_key t := leaf_value t]} (walk_nodes fuel db mp first o (Leaf t))).
  { intros l Hl Hstep. exists l. split; [done|]. intros u w Hut. replace (walk_nodes fuel db mp first o (Leaf t) (u, w))
      with (Done (if wk_go w then walk_leaf first o (tr_item t) u w else (u, w))) by (destruct fuel; simpl; by destruct (wk_go w)).
    destruct (wk_go w) eqn:Ew; [destruct (Hstep u w Ew (Hut eq_refl)) as (u' & -> & ->); by eexists|].
    exists u. rewrite notes_stopped by done. split; [done|]. by rewrite Ew. }
  assert (Hent : forall e, diff (leaf_key t) = Some e -> Enum (fun k => prefix d k = p /\ is_Some (Ms !! k)) [(leaf_key t, e)]).
  { intros e He. apply Enum_single; [by rewrite Hs | done | done]. }
  unfold walk_leaf in Hone. change (it_key (tr_item t)) with (leaf_key t) in Hone. destruct o as [oi|].
  - destruct (decide (it_key oi = leaf_key t)) as [E|E].
    + unfold hit in Hone. rewrite E, lookup_singleton_eq, bool_decide_eq_true_2, Z.eqb_refl in Hone by done. simpl in Hone.
      simpl in Hdiff. case_decide as Ed; simpl in Hdiff.
      * apply (Hone []); [apply Enum_nil; intros j Hj; by rewrite (Hu j Hj)|]. intros u w Hw Hut. rewrite (Hut eq_refl). simpl.
        rewrite bool_decide_eq_true_2 by done. by eexists.
      * apply (Hone _ (Hent _ Hdiff)). intros u w Hw Hut. rewrite (Hut eq_refl). simpl. rewrite bool_decide_eq_false_2 by done.
        rewrite note_side_notes by done. by eexists.
    + unfold hit in Hone. rewrite lookup_singleton_ne, (bool_decide_eq_false_2 (is_Some None)) in Hone by (done || by intros [? ?]).
      apply (Hone _ (Hent _ Hdiff)). intros u w Hw _. rewrite (proj2 (Z.eqb_neq _ _)) by congruence. rewrite orb_true_r, note_side_notes by done.
      eexists. split; [done|]. by rewrite andb_true_r.
  - apply (Hone _ (Hent _ Hdiff)). intros u w Hw _. rewrite note_side_notes by done. eexists. split; [done|]. by rewrite andb_true_r.
Qed.

Lemma Walks_comp P Q o ma mb m f g :
  (forall k, P k -> Q k -> False) -> hit o m = hit o ma || hit o mb -> hit o ma && hit o mb = false ->
  Walks P o ma f -> Walks Q o mb g -> Walks (fun k => P k \/ Q k) o m (fun st => f st ≫= g).
Proof.
  intros Hd Hor Hand (l1 & He1 & H1) (l2 & He2 & H2). exists (l1 ++ l2). split; [by apply Enum_app|]. intros u w Hu. rewrite Hor in *.
  destruct (H1 u w) as (u1 & -> & Hu1); [intros Hw Ha; apply Hu; [done|]; by rewrite Ha|]. rewrite bind_done.
  destruct (H2 u1 (notes l1 w)) as (u2 & -> & Hu2).
  { intros Hw Hb. rewrite (Hu1 Hw). rewrite Hb, andb_true_r in Hand. rewrite Hand, andb_true_r. apply Hu; [|by rewrite Hb, orb_true_r].
    destruct (wk_go w) eqn:Ew; [done|]. by rewrite notes_stopped, Ew in Hw by done. }
  exists u2. rewrite notes_app. split; [done|]. intros Hw. rewrite (Hu2 Hw), Hu1; [by rewrite negb_orb, andb_assoc|].
  destruct (wk_go (notes l1 w)) eqn:Ew; [done|]. by rewrite notes_stopped, Ew in Hw by done.
Qed.

Lemma Walks_ext P Q o m f g :
  (forall k, is_Some (diff k) -> P k <-> Q k) -> (forall st, f st = g st) -> Walks P o m f -> Walks Q o m g.
Proof.
  intros HPQ Hfg (l & He & Hl). exists l. split; [by eapply Enum_ext|]. intros u w Hu. rewrite <- Hfg. by apply Hl.
Qed.

Lemma Walks_none P o : (forall k, P k -> diff k = None) -> Walks P o ∅ (fun st => Done st).
Proof.
  intros HP. exists []. split; [by apply Enum_nil|]. intros u w _. exists u. split; [done|]. intros _.
  unfold hit. destruct o; [|by rewrite andb_true_r]. rewrite lookup_empty, bool_decide_eq_false_2; [by rewrite andb_true_r | by intros []].
Qed.

(** The branches in [bs]. *)
Definition among (d : nat) (bs : list Z) (m : Items) : Items := base.filter (fun e => nibble d e.1 ∈ bs) m.

Lemma among_lookup d bs m k : among d bs m !! k = if decide (nibble d k ∈ bs) then m !! k else None.
Proof.
  unfold among. case_decide as Hb.
  - destruct (m !! k) eqn:E; [by apply map_lookup_filter_Some | by apply map_lookup_filter_None; left].
  - apply map_lookup_filter_None. right. by intros v _.
Qed.

Lemma hit_cons d b bs o m :
  b ∉ bs -> hit o (among d (b :: bs) m) = hit o (among d bs m) || hit o (sub d b m)
  /\ hit o (among d bs m) && hit o (sub d b m) = false.
Proof.
  intros Hb. unfold hit. destruct o as [oi|]; [|done]. rewrite !among_lookup, sub_lookup.
  destruct (m !! it_key oi) as [v|]; repeat case_decide; set_solver.
Qed.

Lemma walk_branches_walks fuel d p o n m bs :
  Open fetch d p n m -> Region d p Ms m -> Other d p o -> NoDup bs -> Forall (fun b => 0 <= b < 16) bs ->
  (forall b c, 0 <= b < 16 -> Rep fetch (S d) (16 * p + b) c (sub d b m) ->
     Walks (fun k => prefix (S d) k = 16 * p + b /\ is_Some (Ms !! k)) o (sub d b m) (walk_nodes fuel db mp first o c)) ->
  exists cs, descend_all db mp n bs = Done cs
    /\ Walks (fun k => prefix d k = p /\ nibble d k ∈ bs /\ is_Some (Ms !! k)) o (among d bs m)
         (fun st => foldr (fun c r => r ≫= walk_nodes fuel db mp first o c) (Done st) cs).
Proof.
  intros HO Hreg Ho Hnd Hbs IH. pose proof (fd_depth _ _ _ _ _ (proj1 HO)) as Hd.
  induction bs as [|b bs IHbs].
  { exists []. split; [done|]. replace (among d [] m) with (∅ : Items); [apply Walks_none; set_solver|]. apply map_eq. intros k. by rewrite among_lookup, lookup_empty. }
  apply NoDup_cons in Hnd as [Hb Hnd]. apply Forall_cons in Hbs as [Hbr Hbs]. destruct (IHbs Hnd Hbs) as (cs & Hcs & HW). destruct (hit_cons d b bs o m Hb) as [Hor Hand].
  assert (HPQ : forall k, prefix (S d) k = 16 * p + b <-> prefix d k = p /\ nibble d k = b).
  { intros k. by apply prefix_child. }
  cbn [descend_all]. destruct (isEmptyBranch n b) eqn:He.
  - exists cs. split; [done|]. apply (Open_isEmpty _ _ _ _ _ _ HO Hbr) in He as Hs.
    replace (among d (b :: bs) m) with (among d bs m).
    + eapply Walks_ext; [| |exact HW]; [|done]. intros k _. split; [set_solver|]. intros (Hp & Hn & Hm). split_and!; try done.
      apply elem_of_cons in Hn as [Hn|]; [|done]. exfalso. destruct Hm as [v Hv]. apply (sub_nonempty d m k v); [|by rewrite Hn].
      by rewrite Hreg, decide_True.
    + apply map_eq. intros k. rewrite !among_lookup. destruct (decide (nibble d k = b)) as [<-|].
      * rewrite <- (sub_own d m k), Hs, lookup_empty. by repeat case_decide.
      * repeat case_decide; set_solver.
  - assert (Hne : sub d b m <> ∅) by (intros E; apply (Open_isEmpty _ _ _ _ _ _ HO Hbr) in E; congruence).
    destruct (Open_child _ _ _ _ _ _ HO Hbr Hne) as (c & Hc & HRc). specialize (IH b c Hbr HRc).
    exists (c :: cs). rewrite (descendThrow_resolve _ _ _ _ _ Hc), bind_done, Hcs. split; [done|].
    eapply Walks_ext; [| |eapply Walks_comp; [| exact Hor | exact Hand | exact HW | exact IH]].
    + intros k _. simpl. rewrite HPQ. set_solver.
    + done.
    + intros k (_ & Hn & _) [Hk _]. apply HPQ in Hk as [_ <-]. done.
Qed.

Lemma walk_nodes_walks fuel d p o n m :
  Rep fetch d p n m -> Region d p Ms m -> Other d p o -> (64 - d <= fuel)%nat ->
  Walks (fun k => prefix d k = p /\ is_Some (Ms !! k)) o m (walk_nodes fuel db mp first o n).
Proof.
  revert d p n m. induction fuel as [|fuel IH]; intros d p n m HR Hreg Ho Hf.
  all: destruct n as [t|n]; [by apply walk_leaf_walks|].
  all: pose proof (Rep_open _ _ _ _ _ HR) as HO; pose proof (fd_depth _ _ _ _ _ (proj1 HO)) as Hd.
  1: lia.
  pose proof (walk_branches_walks fuel d p o n m all_branches HO Hreg Ho all_branches_nodup) as (cs & Hcs & l & He & Hl).
  { apply Forall_forall. intros b. apply all_branches_spec. }
  { intros b c Hb HRc. apply IH; [done | by apply Region_sub | by apply Other_sub | lia]. }
  assert (Eall : among d all_branches m = m).
  { apply map_eq. intros k. rewrite among_lookup, decide_True; [done|]. apply all_branches_spec, nibble_range. }
  rewrite Eall in Hl. exists l. split.
  - eapply Enum_ext; [|done]. intros k _. pose proof (proj2 (all_branches_spec (nibble d k)) (nibble_range d k)). tauto.
  - intros u w Hu. cbn [walk_nodes snd]. destruct (wk_go w) eqn:Ew; [rewrite Hcs, bind_done; by apply Hl; rewrite Ew|].
    exists u. rewrite notes_stopped by done. split; [done|]. by rewrite Ew.
Qed.

(** A step that takes a list of notes. *)
Definition Takes (P : Z -> Prop) (f : Walk -> MapRes Walk) : Prop := exists l, Enum P l /\ forall w, f w = Done (notes l w).

Lemma walkBranch_takes d p o n m :
  Rep fetch d p n m -> Region d p Ms m -> Other d p o -> (forall oi, o = Some oi -> prefix d (it_key oi) = p) ->
  Takes (fun k => prefix d k = p) (walkBranch db mp n o first).
Proof.
  intros HR Hreg Ho Hop. destruct (walk_nodes_walks max_depth d p o n m HR Hreg Ho) as (l & He & Hl); [unfold max_depth; lia|].
  assert (Hin : forall k, is_Some (diff k) -> prefix d k = p -> Ms !! k = None -> exists oi, o = Some oi /\ it_key oi = k).
  { intros k Hk Hp Hn. rewrite diff_side, Hn, (Ho k Hp) in Hk. destruct o as [oi|]; [|by destruct Hk]. exists oi. split; [done|].
    case_decide; [done|]. by destruct Hk. }
  destruct (match o with Some oi => if hit o m then None else Some oi | None => None end) as [oi|] eqn:Eo.
  - destruct o as [oi'|]; [|done]. destruct (hit (Some oi') m) eqn:Eh; [done|]. injection Eo as ->.
    assert (Hno : Ms !! it_key oi = None).
    { unfold hit in Eh. apply bool_decide_eq_false in Eh. rewrite Hreg, decide_True in Eh by (by apply Hop). by apply eq_None_not_Some. }
    assert (Hdi : diff (it_key oi) = Some (side first None (Some oi))).
    { rewrite diff_side, Hno, Ho by (by apply Hop). by rewrite decide_True. }
    exists (l ++ [(it_key oi, side first None (Some oi))]). split.
    + eapply Enum_ext; [|eapply Enum_app; [|exact He|apply (Enum_single _ _ (fun k => k = it_key oi)); done]].
      * intros k Hk. simpl. split; [intros [[]| ->]; [done | by apply Hop]|]. intros Hp. destruct (Ms !! k) as [v|] eqn:E; [by left; split|].
        destruct (Hin k Hk Hp E) as (oi2 & [= <-] & <-). by right.
      * intros k [_ [v Hv]] ->. congruence.
    + intros w. unfold walkBranch. destruct (Hl (bool_decide (is_Some (Some oi))) w) as (u' & -> & Hu); [done|]. rewrite bind_done, notes_app. f_equal.
      destruct (wk_go (notes l w)) eqn:Ew; [|symmetry; by apply notes_stopped]. rewrite (Hu eq_refl). simpl. by apply note_side_notes.
  - exists l. split.
    + eapply Enum_ext; [|exact He]. intros k Hk. split; [by intros []|]. intros Hp. split; [done|]. destruct (Ms !! k) as [v|] eqn:E; [done|].
      destruct (Hin k Hk Hp E) as (oi & -> & <-). destruct (hit (Some oi) m) eqn:Eh; [|done]. unfold hit in Eh.
      apply bool_decide_eq_true in Eh. rewrite Hreg, decide_True, E in Eh by done. by destruct Eh.
    + intros w. unfold walkBranch. destruct (Hl (bool_decide (is_Some o)) w) as (u' & -> & Hu); [intros _ Hh; by destruct o|]. rewrite bind_done. f_equal.
      destruct o as [oi|]; [|done]. destruct (wk_go (notes l w)) eqn:Ew; [|done]. rewrite (Hu eq_refl). destruct (hit (Some oi) m); [|done].
      by rewrite andb_false_r.
Qed.

End Side.

(** ** Comparing *)

Section Compare.

Context (Hrange : hash_range).
Context (L : list Preimage) (Hn : no_collision L).
Context (db : NodeStore) (mp1 mp2 : SHAMap).

#[local] Abbreviation fetch1 := (fetchNodeNT db mp1).
#[local] Abbreviation fetch2 := (fetchNodeNT db mp2).

(** A node at depth [d] of a hashed map. *)
Record Side_at (mp : SHAMap) (d : nat) (p : Z) (n : Node) (M m : Items) : Prop := {
  sa_rep : Rep (fetchNodeNT db mp) d p n m;
  sa_region : Region d p M m;
  sa_proper : Proper_items m;
  sa_hash : isInner n = true -> getNodeHash n = node_hash d m;
  sa_covered : isInner n = true -> forall b, 0 <= b < 16 -> tree_preimages (63 - d) (sub d b m) ⊆ L
}.

Lemma child_hash mp d p n m b :
  Rep (fetchNodeNT db mp) d p (Inner n) m -> in_hash n = node_hash d m -> Proper_items m -> 0 <= b < 16 ->
  getChildHash n b = tree_hash (63 - d) (sub d b m).
Proof.
  intros HR Hh Hp Hb. destruct (decide (m = ∅)) as [->|Hne]; [|by apply (hashed_child Hrange d p db mp n m b)].
  pose proof (Rep_open _ _ _ _ _ HR) as [HF _]. rewrite sub_empty_map, tree_hash_empty. by apply (fd_none _ _ _ _ _ HF b Hb), sub_empty_map.
Qed.

Lemma Side_child mp d p n M m b :
  Side_at mp d p (Inner n) M m -> 0 <= b < 16 -> sub d b m <> ∅ ->
  exists c, descendThrow db mp n b = Done c /\ Side_at mp (S d) (16 * p + b) c M (sub d b m).
Proof.
  intros [HR Hreg Hp Hh Hc] Hb Hne. pose proof (Rep_open _ _ _ _ _ HR) as HO. pose proof (fd_depth _ _ _ _ _ (proj1 HO)) as Hd.
  destruct (Open_child _ _ _ _ _ _ HO Hb Hne) as (c & Hr & HRc). exists c. split; [by apply descendThrow_resolve|].
  assert (Hm : m <> ∅) by (intros ->; by rewrite sub_empty_map in Hne). split; [done | by apply Region_sub | by apply sub_proper | |].
  - intros _. destruct (hashed_child Hrange _ _ _ _ _ _ _ HR (Hh eq_refl) Hp Hm Hb) as [_ Hx]. rewrite (Hx c Hne Hr).
    by replace (63 - d)%nat with (64 - S d)%nat by lia.
  - intros Hi b' Hb'. destruct c as [|c]; [done|]. specialize (Hc eq_refl b Hb).
    assert (Hs : (2 <= size (sub d b m))%nat) by (inversion HRc; lia). pose proof (fd_depth _ _ _ _ _ (proj1 (Rep_open _ _ _ _ _ HRc))).
    replace (63 - d)%nat with (S (63 - S d)) in Hc by lia. rewrite tree_preimages_S in Hc by done.
    replace (63 - (63 - S d))%nat with (S d) in Hc by lia. intros x Hx. apply Hc. right.
    by apply (concat_branch (fun b' => tree_preimages (63 - S d) (sub (S d) b' (sub d b m))) b').
Qed.

(** The items of a leaf as seen from the other side. *)
Lemma leaf_region mp d p t M m :
  Side_at mp d p (Leaf t) M m ->
  prefix d (leaf_key t) = p
  /\ forall k, prefix d k = p -> item_of k <$> M !! k = if decide (leaf_key t = k) then Some (tr_item t) else None.
Proof.
  intros [HR Hreg _ _ _]. apply Rep_leaf_inv in HR as (-> & _ & Hp & _). split; [done|]. intros k Hk.
  specialize (Hreg k). rewrite decide_True in Hreg by done. rewrite <- Hreg. case_decide as E.
  - subst k. rewrite lookup_singleton_eq. simpl. by rewrite <- leaf_item.
  - by rewrite lookup_singleton_ne.
Qed.

Lemma compare_leaves_takes d p t1 t2 m1 m2 :
  Side_at mp1 d p (Leaf t1) M1 m1 -> Side_at mp2 d p (Leaf t2) M2 m2 ->
  exists l, Enum (fun k => prefix d k = p) l
    /\ forall w, wk_go w = true -> compare_leaves (tr_item t1) (tr_item t2) w = notes l w.
Proof.
  intros [Hk1 H1]%leaf_region [Hk2 H2]%leaf_region. unfold compare_leaves.
  change (it_key (tr_item t1)) with (leaf_key t1). change (it_key (tr_item t2)) with (leaf_key t2).
  assert (Hd : forall k, prefix d k = p -> diff k = entry (if decide (leaf_key t1 = k) then Some (tr_item t1) else None)
                                                  (if decide (leaf_key t2 = k) then Some (tr_item t2) else None)).
  { intros k Hk. unfold diff. by rewrite H1, H2. }
  assert (Hu : forall k, is_Some (diff k) -> prefix d k = p -> k = leaf_key t1 \/ k = leaf_key t2).
  { intros k Hk Hp. rewrite Hd in Hk by done. repeat case_decide; auto. by destruct Hk. }
  pose proof (Hd (leaf_key t1) Hk1) as D1. pose proof (Hd (leaf_key t2) Hk2) as D2. rewrite (decide_True (P := leaf_key t1 = leaf_key t1)) in D1 by done.
  rewrite (decide_True (P := leaf_key t2 = leaf_key t2)) in D2 by done.
  destruct (Z.eqb_spec (leaf_key t1) (leaf_key t2)) as [E|E].
  - rewrite decide_True in D1 by congruence. simpl in D1. destruct (decide (it_data (tr_item t1) = it_data (tr_item t2))) as [Ed|Ed].
    + exists []. split; [|intros w _; by rewrite bool_decide_eq_true_2]. apply Enum_nil. intros k Hk. apply eq_None_not_Some. intros Hs.
      destruct (Hu k Hs Hk) as [-> | ->]; [|rewrite <- E in Hs]; by rewrite D1 in Hs; destruct Hs.
    + exists [(leaf_key t1, (Some (tr_item t1), Some (tr_item t2)))]. split.
      * eapply Enum_ext; [|apply (Enum_single _ _ (fun k => k = leaf_key t1)); done]. intros k Hk. split; [by intros ->|].
        intros Hp. destruct (Hu k Hk Hp); congruence.
      * intros w Hw. rewrite bool_decide_eq_false_2 by done. unfold notes. simpl. by rewrite Hw.
  - rewrite decide_False in D1 by congruence. rewrite decide_False in D2 by congruence. simpl in D1, D2.
    exists ([(leaf_key t1, (Some (tr_item t1), None))] ++ [(leaf_key t2, (None, Some (tr_item t2)))]). split.
    + eapply Enum_ext; [|apply Enum_app; [|apply (Enum_single _ _ (fun k => k = leaf_key t1)); done|apply (Enum_single _ _ (fun k => k = leaf_key t2)); done]].
      * intros k Hk. simpl. split; [by intros [-> | ->]|]. by apply Hu.
      * intros k -> ?. done.
    + intros w Hw. unfold notes. simpl. by rewrite Hw.
Qed.

(** The pairs that were put aside. *)
Definition compare_pairs (fuel : nat) (pairs : list (Node * Node)) (r : MapRes Walk) : MapRes Walk :=
  fold_left (fun r q => r ≫= compare_nodes fuel db mp1 mp2 q.1 q.2) pairs r.

Lemma compare_pairs_stopped fuel pairs w : wk_go w = false -> compare_pairs fuel pairs (Done w) = Done w.
Proof.
  intros Hw. induction pairs as [|q pairs IH]; [done|]. unfold compare_pairs in *. cbn [fold_left]. rewrite bind_done.
  destruct fuel; cbn [compare_nodes]; by rewrite Hw.
Qed.

(** One branch: the notes taken at once, those taken later, and the pair put aside. *)
Definition Branch_step (fuel : nat) (d : nat) (p b : Z) (i1 i2 : InnerNode Node) : Prop :=
  exists ld lp pr, Enum (fun k => prefix (S d) k = 16 * p + b) (ld ++ lp)
    /\ (forall w pairs, wk_go w = true -> compare_branch db mp1 mp2 i1 i2 (w, pairs) b = Done (notes ld w, pr ++ pairs))
    /\ (forall w, compare_pairs fuel pr (Done w) = Done (notes lp w)).

Lemma same_region_diff d p m : Region d p M1 m -> Region d p M2 m -> forall k, prefix d k = p -> diff k = None.
Proof.
  intros H1 H2 k Hk. specialize (H1 k). specialize (H2 k). rewrite decide_True in H1, H2 by done. unfold diff. rewrite <- H1, <- H2.
  destruct (m !! k); simpl; [by rewrite decide_True | done].
Qed.

Lemma empty_other (first : bool) d p M :
  (if first then M2 else M1) = M -> Region d p M ∅ -> Other first d p None.
Proof. intros <- HR k Hk. specialize (HR k). rewrite lookup_empty, decide_True in HR by done. by rewrite <- HR. Qed.

Lemma Side_within mp d p n M m b : Side_at mp d p (Inner n) M m -> within (63 - d) (sub d b m).
Proof.
  intros HS. pose proof (Rep_open _ _ _ _ _ (sa_rep _ _ _ _ _ _ HS)) as HO. pose proof (fd_depth _ _ _ _ _ (proj1 HO)) as Hd.
  exists (16 * p + b). intros k v [Hk Hb]%sub_lookup_Some. split; [by apply (sa_proper _ _ _ _ _ _ HS)|].
  replace (64 - (63 - d))%nat with (S d) by lia. rewrite prefix_S by done. by destruct (fd_keys _ _ _ _ _ (proj1 HO) k v Hk) as [_ ->]; lia.
Qed.

Lemma branch_step fuel d p b i1 i2 m1 m2 :
  Side_at mp1 d p (Inner i1) M1 m1 -> Side_at mp2 d p (Inner i2) M2 m2 -> 0 <= b < 16 ->
  (forall c1 c2, Side_at mp1 (S d) (16 * p + b) c1 M1 (sub d b m1) -> Side_at mp2 (S d) (16 * p + b) c2 M2 (sub d b m2) ->
     Takes (fun k => prefix (S d) k = 16 * p + b) (compare_nodes fuel db mp1 mp2 c1 c2)) ->
  Branch_step fuel d p b i1 i2.
Proof.
  intros S1 S2 Hb IH. pose proof (Rep_open _ _ _ _ _ (sa_rep _ _ _ _ _ _ S1)) as O1. pose proof (Rep_open _ _ _ _ _ (sa_rep _ _ _ _ _ _ S2)) as O2.
  pose proof (fd_depth _ _ _ _ _ (proj1 O1)) as Hd.
  pose proof (Region_sub d p M1 m1 b Hd Hb (sa_region _ _ _ _ _ _ S1)) as R1. pose proof (Region_sub d p M2 m2 b Hd Hb (sa_region _ _ _ _ _ _ S2)) as R2.
  pose proof (child_hash _ _ _ _ _ b (sa_rep _ _ _ _ _ _ S1) (sa_hash _ _ _ _ _ _ S1 eq_refl) (sa_proper _ _ _ _ _ _ S1) Hb) as E1.
  pose proof (child_hash _ _ _ _ _ b (sa_rep _ _ _ _ _ _ S2) (sa_hash _ _ _ _ _ _ S2 eq_refl) (sa_proper _ _ _ _ _ _ S2) Hb) as E2.
  unfold Branch_step, compare_branch. destruct (Z.eqb_spec (getChildHash i1 b) (getChildHash i2 b)) as [E|E].
  { exists [], [], []. split_and!; [|intros w pairs ->; done | done]. apply Enum_nil. apply (same_region_diff (S d) _ (sub d b m1) R1).
    rewrite (tree_hash_inj Hrange (63 - d) L (sub d b m1) (sub d b m2)); [done | lia | by eapply Side_within | by eapply Side_within | done | | | congruence].
    - by apply (sa_covered _ _ _ _ _ _ S1).
    - by apply (sa_covered _ _ _ _ _ _ S2). }
  destruct (isEmptyBranch i2 b) eqn:Ee2; [|destruct (isEmptyBranch i1 b) eqn:Ee1].
  - apply (Open_isEmpty _ _ _ _ _ _ O2 Hb) in Ee2. destruct (Side_child _ _ _ _ _ _ b S1 Hb) as (c & -> & Sc).
    { intros E0. apply E. by rewrite E1, E2, E0, Ee2. }
    rewrite Ee2 in R2. destruct (walkBranch_takes db mp1 true (S d) (16 * p + b) None c _ (sa_rep _ _ _ _ _ _ Sc) R1) as (l & He & Hl); [|done|].
    { by apply (empty_other true _ _ M2). }
    exists l, [], []. rewrite app_nil_r. split_and!; [done | | done]. intros w pairs ->. simpl. by rewrite Hl.
  - apply (Open_isEmpty _ _ _ _ _ _ O1 Hb) in Ee1. destruct (Side_child _ _ _ _ _ _ b S2 Hb) as (c & -> & Sc).
    { intros E0. apply E. by rewrite E1, E2, E0, Ee1. }
    rewrite Ee1 in R1. destruct (walkBranch_takes db mp2 false (S d) (16 * p + b) None c _ (sa_rep _ _ _ _ _ _ Sc) R2) as (l & He & Hl); [|done|].
    { by apply (empty_other false _ _ M1). }
    exists l, [], []. rewrite app_nil_r. split_and!; [done | | done]. intros w pairs ->. simpl. by rewrite Hl.
  - assert (N1 : sub d b m1 <> ∅) by (intros E0; apply (Open_isEmpty _ _ _ _ _ _ O1 Hb) in E0; congruence).
    assert (N2 : sub d b m2 <> ∅) by (intros E0; apply (Open_isEmpty _ _ _ _ _ _ O2 Hb) in E0; congruence).
    destruct (Side_child _ _ _ _ _ _ b S1 Hb N1) as (c1 & -> & Sc1). destruct (Side_child _ _ _ _ _ _ b S2 Hb N2) as (c2 & -> & Sc2).
    destruct (IH c1 c2 Sc1 Sc2) as (l & He & Hl). exists [], l, [(c1, c2)]. split_and!; [done | intros w pairs ->; done |].
    intros w. unfold compare_pairs. cbn [fold_left fst snd]. by rewrite bind_done, Hl.
Qed.

Definition compare_loop (i1 i2 : InnerNode Node) (bs : list Z) (r : MapRes (Walk * list (Node * Node))) : MapRes (Walk * list (Node * Node)) :=
  fold_left (fun r b => r ≫= fun st => compare_branch db mp1 mp2 i1 i2 st b) bs r.

Lemma compare_loop_stopped i1 i2 bs w pairs : wk_go w = false -> compare_loop i1 i2 bs (Done (w, pairs)) = Done (w, pairs).
Proof.
  intros Hw. induction bs as [|b bs IH]; [done|]. unfold compare_loop in *. cbn [fold_left]. rewrite bind_done. unfold compare_branch.
  by rewrite Hw.
Qed.

Lemma compare_branches fuel d p i1 i2 bs :
  (d < 64)%nat -> NoDup bs -> Forall (fun b => 0 <= b < 16) bs -> (forall b, b ∈ bs -> Branch_step fuel d p b i1 i2) ->
  exists ld lp pr, Enum (fun k => prefix d k = p /\ nibble d k ∈ bs) (ld ++ lp)
    /\ (forall w pairs, exists pairs', compare_loop i1 i2 bs (Done (w, pairs)) = Done (notes ld w, pairs')
          /\ (wk_go (notes ld w) = true -> pairs' = pr ++ pairs))
    /\ (forall w, compare_pairs fuel pr (Done w) = Done (notes lp w)).
Proof.
  intros Hd Hnd Hbs Hstep. induction bs as [|b bs IH].
  { exists [], [], []. split_and!; [apply Enum_nil; set_solver | intros w pairs; by exists pairs | done]. }
  apply NoDup_cons in Hnd as [Hb Hnd]. apply Forall_cons in Hbs as [Hbr Hbs].
  destruct (Hstep b ltac:(left)) as (ld & lp & pr & He & Hld & Hlp).
  destruct (IH Hnd Hbs ltac:(intros b' Hb'; apply Hstep; by right)) as (ld' & lp' & pr' & He' & Hld' & Hlp').
  exists (ld ++ ld'), (lp' ++ lp), (pr' ++ pr). split_and!.
  - apply (Enum_perm _ ((ld ++ lp) ++ (ld' ++ lp'))); [solve_Permutation|]. eapply Enum_ext; [|apply Enum_app; [|exact He|exact He']].
    + intros k _. simpl. rewrite prefix_child by done. set_solver.
    + intros k Hk [_ Hk']. apply prefix_child in Hk as [_ <-]; done.
  - intros w pairs. unfold compare_loop in *. cbn [fold_left]. rewrite bind_done, notes_app. destruct (wk_go w) eqn:Ew.
    + rewrite Hld by done. destruct (Hld' (notes ld w) (pr ++ pairs)) as (pairs' & -> & Hp'). exists pairs'. split; [done|].
      intros Hw. by rewrite Hp', app_assoc.
    + exists pairs. rewrite !(notes_stopped _ w), Ew by done. split; [|done]. unfold compare_branch. rewrite Ew. by apply compare_loop_stopped.
  - intros w. unfold compare_pairs in *. by rewrite fold_left_app, Hlp', Hlp, notes_app.
Qed.

Lemma leaf_other (first : bool) mp d p t M m :
  (if first then M2 else M1) = M -> Side_at mp d p (Leaf t) M m -> Other first d p (Some (tr_item t)) /\ prefix d (leaf_key t) = p.
Proof. intros <- [Hp Hr]%leaf_region. by split. Qed.

Lemma compare_nodes_takes fuel d p n1 n2 m1 m2 :
  Side_at mp1 d p n1 M1 m1 -> Side_at mp2 d p n2 M2 m2 -> (64 - d <= fuel)%nat ->
  Takes (fun k => prefix d k = p) (compare_nodes fuel db mp1 mp2 n1 n2).
Proof.
  revert d p n1 n2 m1 m2. induction fuel as [|fuel IH]; intros d p n1 n2 m1 m2 S1 S2 Hf.
  all: assert (Hgo : forall l f, Enum (fun k => prefix d k = p) l -> (forall w, wk_go w = true -> f w = Done (notes l w)) ->
    (forall w, wk_go w = false -> f w = Done w) -> Takes (fun k => prefix d k = p) f)
    by (intros l f He H1 H0; exists l; split; [done|]; intros w; destruct (wk_go w) eqn:Ew; [by apply H1|]; rewrite notes_stopped by done; by apply H0).
  all: destruct n1 as [t1|i1], n2 as [t2|i2].
  all: try (destruct (compare_leaves_takes d p t1 t2 m1 m2 S1 S2) as (l & He & Hl); apply (Hgo l _ He); intros w Hw; cbn [compare_nodes]; rewrite Hw;
    [by rewrite Hl | done]).
  all: try (destruct (leaf_other true mp2 d p t2 M2 m2 eq_refl S2) as [Ho Hp];
    destruct (walkBranch_takes db mp1 true d p (Some (tr_item t2)) (Inner i1) m1 (sa_rep _ _ _ _ _ _ S1) (sa_region _ _ _ _ _ _ S1) Ho)
      as (l & He & Hl); [by intros oi [= <-]|]; apply (Hgo l _ He); intros w Hw; cbn [compare_nodes]; rewrite Hw; [apply Hl | done]).
  all: try (destruct (leaf_other false mp1 d p t1 M1 m1 eq_refl S1) as [Ho Hp];
    destruct (walkBranch_takes db mp2 false d p (Some (tr_item t1)) (Inner i2) m2 (sa_rep _ _ _ _ _ _ S2) (sa_region _ _ _ _ _ _ S2) Ho)
      as (l & He & Hl); [by intros oi [= <-]|]; apply (Hgo l _ He); intros w Hw; cbn [compare_nodes]; rewrite Hw; [apply Hl | done]).
  all: pose proof (fd_depth _ _ _ _ _ (proj1 (Rep_open _ _ _ _ _ (sa_rep _ _ _ _ _ _ S1)))) as Hd.
  1: lia.
  destruct (compare_branches fuel d p i1 i2 all_branches Hd all_branches_nodup) as (ld & lp & pr & He & Hld & Hlp).
  { apply Forall_forall. intros b. apply all_branches_spec. }
  { intros b Hb%all_branches_spec. apply (branch_step fuel d p b i1 i2 m1 m2); try done. intros c1 c2 Sc1 Sc2. apply (IH _ _ _ _ _ _ Sc1 Sc2). lia. }
  apply (Hgo (ld ++ lp)).
  - eapply Enum_ext; [|exact He]. intros k _. pose proof (proj2 (all_branches_spec (nibble d k)) (nibble_range d k)). tauto.
  - intros w Hw. cbn [compare_nodes]. rewrite Hw. fold (compare_loop i1 i2 all_branches (Done (w, []))).
    destruct (Hld w []) as (pairs' & -> & Hp'). rewrite bind_done, notes_app. fold (compare_pairs fuel pairs' (Done (notes ld w))).
    destruct (wk_go (notes ld w)) eqn:Ew; [by rewrite Hp', app_nil_r|]. by rewrite compare_pairs_stopped, (notes_stopped lp) by done.
  - intros w Hw. cbn [compare_nodes]. by rewrite Hw.
Qed.

End Compare.

Lemma Enum_map l : Enum (fun _ => True) l -> list_to_map l = differences M1 M2.
Proof.
  intros [Hn Hin]. apply map_eq. intros k. apply option_eq. intros e. rewrite <- elem_of_list_to_map by done.
  rewrite Hin, item_differences_lookup. unfold diff. tauto.
Qed.

Lemma Enum_size l : Enum (fun _ => True) l -> length l = size (differences M1 M2).
Proof.
  intros He. rewrite <- (Enum_map l He). destruct He as [Hn _]. rewrite <- length_map_to_list. by rewrite map_to_list_to_map.
Qed.

Lemma differences_empty : M1 = M2 -> differences M1 M2 = ∅.
Proof.
  intros <-. apply map_eq. intros k. rewrite item_differences_lookup, lookup_empty. destruct (M1 !! k); simpl; [by rewrite decide_True | done].
Qed.

Lemma root_covered L M : root_preimages M ⊆ L -> forall b, 0 <= b < 16 -> tree_preimages (63 - 0) (sub 0 b M) ⊆ L.
Proof.
  intros Hl b Hb x Hx. unfold root_preimages in Hl. case_decide as E.
  - subst M. rewrite sub_empty_map in Hx. cbn [tree_preimages Nat.sub] in Hx. rewrite map_to_list_empty in Hx. by apply not_elem_of_nil in Hx.
  - apply Hl. right. by apply (concat_branch (fun b => tree_preimages 63 (sub 0 b M)) b).
Qed.

Lemma root_side L db mp M :
  Holds db mp M -> getNodeHash (mp_root mp) = root_hash M -> Proper_items M -> root_preimages M ⊆ L ->
  Side_at L db mp 0 0 (mp_root mp) M M.
Proof.
  intros HM Hh Hp Hl. pose proof (ho_rep _ _ _ HM) as HR. split; try done.
  - intros k. case_decide as E; [done|]. destruct (M !! k) as [v|] eqn:Hk; [|done]. apply (Holds_keys db mp) in Hk; [|done]. by rewrite prefix_0 in E.
  - intros _. by apply root_covered.
Qed.

(** The comparison finds the differences, or as many of them as were asked for. *)
Lemma compare_spec db mp1 mp2 maxCount :
  hash_range -> Holds db mp1 M1 -> Holds db mp2 M2 -> Proper_items M1 -> Proper_items M2 ->
  no_collision (root_preimages M1 ++ root_preimages M2) -> 0 < maxCount ->
  if decide (Z.of_nat (size (differences M1 M2)) < maxCount)
  then compare db mp1 mp2 maxCount = Done (true, differences M1 M2)
  else exists D, compare db mp1 mp2 maxCount = Done (false, D) /\ D ⊆ differences M1 M2 /\ Z.of_nat (size D) = maxCount.
Proof.
  intros Hr HM1 HM2 Hp1 Hp2 Hn Hc. destruct (getHash_spec db mp1 M1 HM1) as (G1 & HM1' & _ & Hh1), (getHash_spec db mp2 M2 HM2) as (G2 & HM2' & _ & Hh2).
  unfold compare. destruct (getHash mp1) as [h1 mp1'], (getHash mp2) as [h2 mp2']. cbn [fst snd] in *. subst h1 h2.
  set (L := root_preimages M1 ++ root_preimages M2) in Hn.
  assert (L1 : root_preimages M1 ⊆ L) by (intros x Hx; apply elem_of_app; by left).
  assert (L2 : root_preimages M2 ⊆ L) by (intros x Hx; apply elem_of_app; by right).
  destruct (Z.eqb_spec (root_hash M1) (root_hash M2)) as [E|E].
  { apply (root_hash_inj Hr L) in E; [|done..]. rewrite (differences_empty E). by rewrite map_size_empty, decide_True by lia. }
  destruct (compare_nodes_takes Hr L Hn db mp1' mp2' max_depth 0 0 _ _ M1 M2 (root_side L _ _ _ HM1' Hh1 Hp1 L1) (root_side L _ _ _ HM2' Hh2 Hp2 L2))
    as (l & He & ->); [unfold max_depth; lia|]. rewrite bind_done.
  apply (Enum_ext _ (fun _ => True)) in He; cycle 1.
  { intros k Hk. split; [done|]. intros _. apply prefix_0. unfold diff in Hk.
    destruct (M1 !! k) eqn:K1; [by eapply (Holds_keys db mp1)|]. destruct (M2 !! k) eqn:K2; [by eapply (Holds_keys db mp2)|]. by destruct Hk. }
  pose proof (Enum_map l He) as Hmap. pose proof (Enum_size l He) as Hsz. destruct He as [Hnd _]. case_decide as Hd.
  - rewrite notes_all; [|done|intros k _; apply lookup_empty|lia]. cbn [wk_go wk_delta]. by rewrite (right_id ∅ (∪)), Hmap by apply _.
  - rewrite notes_stop; [|done|intros k _; apply lookup_empty|lia]. cbn [wk_go wk_delta]. eexists. split; [done|]. rewrite (right_id ∅ (∪)) by apply _. split.
    + rewrite <- Hmap. rewrite <- (take_drop (Z.to_nat maxCount) l) at 2. rewrite list_to_map_app. apply map_union_subseteq_l.
    + rewrite map_size_list_to_map; [rewrite length_take; lia|]. rewrite fmap_take. by eapply sublist_NoDup, sublist_take.
Qed.

End Delta.
