(* ===== verification/ShaMapCodec.v ===== *)
(** * The state tree: encodings

    A node that is encoded for a peer or for the store decodes to the same node without
    its children. *)

From S2P Require Import Prelude HsTypes ShaMapNode ShaMap ShaMapRep ShaMapProps ShaMapOps ShaMapHash ShaMapInj ShaMapProof.

#[local] Open Scope Z_scope.

#[local] Opaque be_bytes.

Section Codec.

Context `{Hashers}.

(** ** Inner nodes *)

(** An inner node whose hashes are those of its branches. *)
Record Plain (n : InnerNode Node) : Prop := {
  pl_length : length (in_hashes n) = 16%nat;
  pl_valid : Forall valid_key (in_hashes n);
  pl_bits : forall b, 0 <= b < 16 -> isEmptyBranch n b = (getChildHash n b =? 0);
  pl_high : forall i, 16 <= i -> Z.testbit (in_isBranch n) i = false
}.

(** The node without its children. *)
Definition bare (n : InnerNode Node) (hash : Z) : InnerNode Node := mkInner (in_hashes n) (replicate 16 None) (in_isBranch n) hash 0.

Definition own_hash (n : InnerNode Node) : Z := if in_isBranch n =? 0 then 0 else inner_hash (in_hashes n).

Lemma updateHash_own hs ch br h s :
  (inner_updateHash (mkInner hs ch br h s)).2 = mkInner hs ch br (if br =? 0 then 0 else inner_hash hs) s.
Proof. unfold inner_updateHash. simpl. destruct (Z.eqb_spec (if br =? 0 then 0 else inner_hash hs) h) as [<-|]; done. Qed.

Lemma Plain_hash n b : Plain n -> 0 <= b < 16 -> in_hashes n !! Z.to_nat b = Some (getChildHash n b) /\ valid_key (getChildHash n b).
Proof.
  intros Hp Hb. unfold getChildHash. destruct (lookup_lt_is_Some_2 (in_hashes n) (Z.to_nat b)) as [h Eh]; [rewrite (pl_length _ Hp); lia|].
  rewrite Eh. simpl. split; [done|]. pose proof (pl_valid _ Hp) as Hv. rewrite Forall_lookup in Hv. by eapply Hv.
Qed.

Lemma Plain_hashes n : Plain n -> in_hashes n = getChildHash n <$> all_branches.
Proof. intros Hp. apply branch_list; [apply Hp|]. intros b Hb. by apply Plain_hash. Qed.

Lemma testbit_step b i x : 0 <= b -> Z.testbit (Z.lor x (Z.shiftl 1 b)) i = Z.testbit x i || (i =? b).
Proof.
  intros Hb. rewrite Z.lor_spec. f_equal. destruct (Z.lt_ge_cases i 0) as [Hi|Hi].
  { rewrite Z.testbit_neg_r by done. symmetry. apply Z.eqb_neq. lia. }
  rewrite Z.shiftl_spec by done. destruct (Z.eqb_spec i b) as [->|Hne]; [by rewrite Z.sub_diag|].
  destruct (Z.lt_ge_cases i b); [by rewrite Z.testbit_neg_r by lia|]. change 1 with (2 ^ 0). apply Z.pow2_bits_false. lia.
Qed.

Lemma bits_below n : Plain n -> forall x, (forall i, Z.testbit x i = true <-> 0 <= i < 16 /\ getChildHash n i <> 0) -> x = in_isBranch n.
Proof.
  intros Hp x Hx. apply Z.bits_inj'. intros i Hi. apply eq_bool_prop_intro. split; intros Ht.
  - apply Is_true_true in Ht. apply Hx in Ht as [Hr Hne]. apply Is_true_true. pose proof (pl_bits _ Hp i Hr) as He. unfold isEmptyBranch in He.
    rewrite (proj2 (Z.eqb_neq _ _) Hne) in He. by destruct (Z.testbit (in_isBranch n) i).
  - apply Is_true_true in Ht. apply Is_true_true, Hx. destruct (Z.lt_ge_cases i 16); [|by rewrite (pl_high _ Hp) in Ht]. split; [lia|].
    pose proof (pl_bits _ Hp i ltac:(lia)) as He. unfold isEmptyBranch in He. rewrite Ht in He. intros E. by rewrite E in He.
Qed.

Lemma branch_bits_spec (hs : list Z) bs i :
  Forall (fun b => 0 <= b) bs ->
  Z.testbit (foldr (fun m bits => if default 0 (hs !! Z.to_nat m) =? 0 then bits else Z.lor bits (Z.shiftl 1 m)) 0 bs) i = true
  <-> i ∈ bs /\ default 0 (hs !! Z.to_nat i) <> 0.
Proof.
  induction 1 as [|b bs Hb Hbs IH]; simpl; [rewrite Z.bits_0; split; [done|]; by intros [?%not_elem_of_nil _]|].
  rewrite elem_of_cons. destruct (Z.eqb_spec (default 0 (hs !! Z.to_nat b)) 0) as [E|E].
  - rewrite IH. split; [naive_solver|]. intros [[->|] ?]; [congruence | done].
  - rewrite testbit_step, orb_true_iff, IH, Z.eqb_eq by done. naive_solver.
Qed.

Lemma branch_bits_plain n : Plain n -> branch_bits (in_hashes n) = in_isBranch n.
Proof.
  intros Hp. apply (bits_below n Hp). intros i. unfold branch_bits. rewrite branch_bits_spec, all_branches_spec; [done|].
  apply Forall_forall. intros b. rewrite all_branches_spec. lia.
Qed.

Lemma concat32_take hs i h :
  hs !! i = Some h -> take 32 (drop (32 * i) (concat (be_bytes 32 <$> hs))) = be_bytes 32 h.
Proof.
  revert i. induction hs as [|x hs IH]; intros [|i] Hi; try done; rewrite fmap_cons, concat_cons.
  - injection Hi as ->. rewrite Nat.mul_0_r, drop_0. rewrite take_app_le, take_ge; rewrite ?be_bytes_length; done.
  - replace (32 * S i)%nat with (length (be_bytes 32 x) + 32 * i)%nat by (rewrite be_bytes_length; lia).
    rewrite drop_app_add'; [by apply IH | done].
Qed.

Lemma concat32_length hs : length (concat (be_bytes 32 <$> hs)) = (32 * length hs)%nat.
Proof. induction hs as [|x hs IH]; [done|]. rewrite fmap_cons, concat_cons, length_app, be_bytes_length, IH. cbn [length]. lia. Qed.

Lemma makeFullInner_plain n hash :
  Plain n ->
  makeFullInner (concat (be_bytes 32 <$> in_hashes n)) hash
  = Done (Inner (bare n (match hash with Some h => h | None => own_hash n end))).
Proof.
  intros Hp. unfold makeFullInner. rewrite concat32_length, (pl_length _ Hp). change (negb (32 * 16 =? 512)%nat) with false.
  assert (E : (fun m => be_value (take 32 (drop (32 * Z.to_nat m) (concat (be_bytes 32 <$> in_hashes n))))) <$> all_branches = in_hashes n).
  { symmetry. apply branch_list; [apply Hp|]. intros b Hb. destruct (Plain_hash n b Hp Hb) as [Hl Hv].
    by rewrite (concat32_take _ _ _ Hl), be32_round. }
  cbv zeta. rewrite E, (branch_bits_plain n Hp).
  destruct hash as [h|]; [done|]. rewrite updateHash_own. done.
Qed.

(** ** Compressed inner nodes *)

Definition chunk (n : InnerNode Node) (b : Z) : Bytes := be_bytes 32 (getChildHash n b) ++ [b].

Lemma compressed_chunks n bs :
  concat (compressed_branch n <$> bs) = concat (chunk n <$> base.filter (fun b => isEmptyBranch n b = false) bs).
Proof.
  induction bs as [|b bs IH]; [done|]. rewrite fmap_cons, concat_cons, IH, filter_cons. unfold compressed_branch at 1.
  destruct (isEmptyBranch n b); [by rewrite decide_False|]. by rewrite decide_True by done.
Qed.

Lemma chunk_length n b : length (chunk n b) = 33%nat.
Proof. unfold chunk. by rewrite length_app, be_bytes_length. Qed.

Lemma chunks_length n bs : length (concat (chunk n <$> bs)) = (33 * length bs)%nat.
Proof. induction bs as [|b bs IH]; [done|]. rewrite fmap_cons, concat_cons, length_app, chunk_length, IH. cbn [length]. lia. Qed.

(** An entry of a compressed node, a hash and a branch, and what one turn does with it. *)
Definition entry_bytes (e : Z * Z) : Bytes := be_bytes 32 e.1 ++ [e.2].

Definition put_entry (m : InnerNode Node) (e : Z * Z) : InnerNode Node :=
  mkInner (<[Z.to_nat e.2 := e.1]> (in_hashes m)) (in_children m)
    (if e.1 =? 0 then in_isBranch m else Z.lor (in_isBranch m) (Z.shiftl 1 e.2)) (in_hash m) (in_seq m).

Lemma compressed_loop_entries es pre m i :
  Forall (fun e => valid_key e.1 /\ 0 <= e.2 < 16) es -> length pre = (i * 33)%nat ->
  compressed_loop (pre ++ concat (entry_bytes <$> es)) m (seq i (length es)) = Done (fold_left put_entry es m).
Proof.
  intros Hes. revert pre m i. induction Hes as [|[h b] es [Hh Hb] Hes IH]; intros pre m i Hpre; [done|]. cbn [fst snd] in Hh, Hb.
  rewrite fmap_cons, concat_cons. cbn [length seq compressed_loop fold_left].
  assert (Ht : compressed_turn (pre ++ entry_bytes (h, b) ++ concat (entry_bytes <$> es)) m i = Done (put_entry m (h, b))).
  { assert (Hlk : (pre ++ entry_bytes (h, b) ++ concat (entry_bytes <$> es)) !! (32 + i * 33)%nat = Some b).
    { rewrite lookup_app_r by lia. replace (32 + i * 33 - length pre)%nat with 32%nat by lia. unfold entry_bytes at 1. cbn [fst snd]. rewrite <- app_assoc.
      rewrite lookup_app_r by (rewrite be_bytes_length; lia). by rewrite be_bytes_length. }
    unfold compressed_turn. rewrite Hlk, Z.geb_leb, (proj2 (Z.leb_gt 16 b)), drop_app_length' by (done || lia).
    assert (Htk : take 32 (entry_bytes (h, b) ++ concat (entry_bytes <$> es)) = be_bytes 32 h).
    { unfold entry_bytes at 1. rewrite <- app_assoc. apply take_app_length'. by rewrite be_bytes_length. }
    by rewrite Htk, be32_round. }
  rewrite Ht, bind_done. rewrite app_assoc. apply IH. rewrite length_app. unfold entry_bytes. rewrite length_app, be_bytes_length. simpl. lia.
Qed.

(** The entries of the branches of a node. *)
Definition entries (n : InnerNode Node) (bs : list Z) : list (Z * Z) := (fun b => (getChildHash n b, b)) <$> bs.

Definition put (n : InnerNode Node) (m : InnerNode Node) (b : Z) : InnerNode Node := put_entry m (getChildHash n b, b).

Lemma entries_bytes n bs : entry_bytes <$> entries n bs = chunk n <$> bs.
Proof. unfold entries. by rewrite <- list_fmap_compose. Qed.

Lemma entries_valid n bs :
  Plain n -> Forall (fun b => 0 <= b < 16) bs -> Forall (fun e => valid_key e.1 /\ 0 <= e.2 < 16) (entries n bs).
Proof. intros Hp Hbs. apply Forall_fmap. eapply Forall_impl; [done|]. intros b Hb. split; [by apply (Plain_hash n b Hp Hb) | done]. Qed.

Lemma put_entries n bs m : fold_left put_entry (entries n bs) m = fold_left (put n) bs m.
Proof. revert m. induction bs as [|b bs IH]; intros m; [done|]. apply IH. Qed.

Lemma compressed_loop_chunks n bs pre m i :
  Plain n -> Forall (fun b => 0 <= b < 16) bs -> length pre = (i * 33)%nat ->
  compressed_loop (pre ++ concat (chunk n <$> bs)) m (seq i (length bs)) = Done (fold_left (put n) bs m).
Proof.
  intros Hp Hbs Hpre. rewrite <- entries_bytes, <- put_entries. replace (length bs) with (length (entries n bs)) by apply length_fmap.
  apply compressed_loop_entries; [by apply entries_valid | done].
Qed.

Lemma puts_spec n bs m :
  Forall (fun b => 0 <= b < 16) bs -> NoDup bs -> length (in_hashes m) = 16%nat ->
  let r := fold_left (put n) bs m in
  length (in_hashes r) = 16%nat /\ in_children r = in_children m /\ in_hash r = in_hash m /\ in_seq r = in_seq m
  /\ (forall b, 0 <= b < 16 -> getChildHash r b = if decide (b ∈ bs) then getChildHash n b else getChildHash m b)
  /\ (forall i, Z.testbit (in_isBranch r) i = true <-> Z.testbit (in_isBranch m) i = true \/ i ∈ bs /\ getChildHash n i <> 0).
Proof.
  intros Hbs. revert m. induction Hbs as [|b bs Hb Hbs IH]; intros m Hnd Hl.
  { simpl. split_and!; try done. intros i. split; [by left|]. intros [|[?%not_elem_of_nil _]]; done. }
  apply NoDup_cons in Hnd as [Hin Hnd]. cbn [fold_left].
  destruct (IH (put n m b) Hnd) as (H1 & H2 & H3 & H4 & H5 & H6); [simpl; by rewrite length_insert|]. split_and!; try done.
  - intros b' Hb'. rewrite H5 by done. unfold getChildHash at 2. simpl. destruct (decide (b' = b)) as [->|Hne].
    + rewrite decide_False, decide_True by set_solver. by rewrite list_lookup_insert_eq by lia.
    + rewrite list_lookup_insert_ne by lia. repeat case_decide; set_solver.
  - intros i. rewrite H6. unfold put. simpl. rewrite elem_of_cons. destruct (Z.eqb_spec (getChildHash n b) 0) as [E|E].
    + split; [naive_solver|]. intros [|[[->|] ?]]; [by left | congruence | by right].
    + rewrite testbit_step, orb_true_iff, Z.eqb_eq by lia. naive_solver.
Qed.

(** The branches of a node with a hash, put into an empty node. *)
Definition full_branches (n : InnerNode Node) : list Z := base.filter (fun b => isEmptyBranch n b = false) all_branches.

Lemma full_branches_range n : Forall (fun b => 0 <= b < 16) (full_branches n).
Proof. apply Forall_forall. intros b [_ Hb]%list_elem_of_filter. by apply all_branches_spec. Qed.

Lemma put_branches n : Plain n -> fold_left (put n) (full_branches n) (inner_new 0) = bare n 0.
Proof.
  intros Hp. set (bs := full_branches n). pose proof (full_branches_range n) as Hbs.
  destruct (puts_spec n bs (inner_new 0) Hbs (NoDup_filter _ _ all_branches_nodup) eq_refl) as (H1 & H2 & H3 & H4 & H5 & H6).
  set (r := fold_left (put n) bs (inner_new 0)) in *.
  assert (Ehs : in_hashes r = in_hashes n).
  { rewrite (Plain_hashes n Hp). apply branch_list; [done|]. intros b Hb. specialize (H5 b Hb). unfold getChildHash in H5 at 1.
    destruct (lookup_lt_is_Some_2 (in_hashes r) (Z.to_nat b)) as [h Eh]; [lia|]. rewrite Eh in H5 |- *. simpl in H5. f_equal. rewrite H5.
    case_decide as Hd; [done|]. rewrite inner_new_hash. pose proof (pl_bits _ Hp b Hb) as He. symmetry. apply Z.eqb_eq. rewrite <- He.
    apply not_false_iff_true. intros Hf. apply Hd, list_elem_of_filter. split; [done|]. by apply all_branches_spec. }
  assert (Ebr : in_isBranch r = in_isBranch n).
  { apply (bits_below n Hp). intros i. rewrite H6. simpl. rewrite Z.bits_0. unfold bs, full_branches. rewrite list_elem_of_filter, all_branches_spec. split.
    - intros [?|[[_ Hi] Hne]]; done.
    - intros [Hi Hne]. right. split_and!; try done; try lia. rewrite (pl_bits _ Hp) by done. by apply Z.eqb_neq. }
  destruct r as [hs ch br h s]. simpl in *. by subst.
Qed.

Lemma makeCompressedInner_plain n :
  Plain n -> makeCompressedInner (concat (compressed_branch n <$> all_branches)) = Done (Inner (bare n (own_hash n))).
Proof.
  intros Hp. unfold makeCompressedInner. rewrite compressed_chunks, chunks_length. fold (full_branches n).
  rewrite Nat.mul_comm, Nat.div_mul by done. rewrite (compressed_loop_chunks n (full_branches n) [] _ 0 Hp (full_branches_range n) eq_refl), bind_done.
  rewrite (put_branches n Hp). unfold bare. by rewrite updateHash_own.
Qed.

(** ** Leaves *)

(** An item the decoders accept. *)
Definition codable (k : Z) (v : Value) : Prop :=
  proper k v /\ match v_type v with tnTRANSACTION_NM => v_data v <> [] | tnACCOUNT_STATE | tnCONTRACT_STATE => k <> 0 | _ => True end.

Lemma split_tag_app data k : valid_key k -> split_tag (data ++ be_bytes 32 k) = Done (data, k).
Proof.
  intros Hk. unfold split_tag. rewrite length_app, be_bytes_length. rewrite (proj2 (Nat.ltb_ge _ _)) by lia.
  replace (length data + 32 - 32)%nat with (length data) by lia.
  by rewrite take_app_length, drop_app_length, be32_round.
Qed.

(** The decoders of the four kinds of leaves on what follows the mark. *)
Lemma make_leaf data k ty root hash :
  codable k (mkValue data ty root) ->
  match ty with
  | tnTRANSACTION_NM => makeTransaction data hash
  | tnTRANSACTION_MD => makeTransactionWithMeta (data ++ be_bytes 32 k) hash
  | tnACCOUNT_STATE => makeAccountState (data ++ be_bytes 32 k) hash
  | tnCONTRACT_STATE => makeContractState (data ++ be_bytes 32 (default 0 root) ++ be_bytes 32 k) hash
  | _ => Fault RuntimeError
  end = Done (leaf_make (mkItem k data) ty root hash).
Proof.
  intros [[Hk Hp] Hc]. destruct ty; try done; simpl in Hp, Hc.
  - destruct Hp as (-> & Hkey & _). unfold makeTransaction. destruct data as [|b data]; [done|]. do 3 f_equal.
    etrans; [|symmetry; exact Hkey]. unfold value_hash, leaf_hash. simpl. by destruct b.
  - subst root. unfold makeTransactionWithMeta. by rewrite split_tag_app.
  - subst root. unfold makeAccountState. rewrite split_tag_app, bind_done by done. by rewrite (proj2 (Z.eqb_neq _ _)).
  - destruct root as [r|]; [|done]. unfold makeContractState. rewrite app_assoc, split_tag_app, bind_done by done.
    rewrite (proj2 (Z.eqb_neq _ _)) by done. simpl. by rewrite split_tag_app.
Qed.

(** ** Whole nodes *)

Definition Codable (n : Node) : Prop :=
  match n with Leaf t => codable (leaf_key t) (leaf_value t) | Inner i => Plain i end.

(** The node without its children and with a given hash. *)
Definition decoded (n : Node) (hash : Z) : Node :=
  match n with
  | Leaf t => Leaf (mkTreeNode (tr_item t) (tr_type t) (tr_storageRoot t) hash 0)
  | Inner i => Inner (bare i hash)
  end.

Definition recomputed (n : Node) : Z :=
  match n with Leaf t => value_hash (leaf_key t) (leaf_value t) | Inner i => own_hash i end.

Lemma leaf_new_make item ty root : leaf_make item ty root None = Leaf (mkTreeNode item ty root (leaf_hash ty item root) 0).
Proof.
  unfold leaf_make, leaf_new, leaf_updateHash. simpl. f_equal. destruct (Z.eqb_spec (leaf_hash ty item root) 0) as [->|]; done.
Qed.

Lemma codable_item t : codable (leaf_key t) (leaf_value t) -> codable (it_key (tr_item t)) (mkValue (it_data (tr_item t)) (tr_type t) (tr_storageRoot t)).
Proof. done. Qed.

Lemma wire_round n : Codable n -> makeFromWire (addRaw n snfWIRE) = Done (Some (decoded n (recomputed n))).
Proof.
  assert (Hlast : forall raw b, makeFromWire (raw ++ [b]) = Some <$> (if b =? 0 then makeTransaction raw None
      else if b =? 1 then makeAccountState raw None else if b =? 2 then makeFullInner raw None else if b =? 3 then makeCompressedInner raw
      else if b =? 4 then makeTransactionWithMeta raw None else if b =? 5 then makeContractState raw None else Fault RuntimeError)).
  { intros raw b. unfold makeFromWire. by rewrite last_snoc, removelast_last. }
  intros Hc. destruct n as [[[k data] ty root h s]|i]; simpl in Hc.
  - pose proof (make_leaf data k ty root None Hc) as Hm. rewrite leaf_new_make in Hm.
    unfold addRaw, leaf_addRaw, decoded, recomputed. cbn [tr_item tr_type tr_storageRoot it_data it_key leaf_key leaf_value].
    destruct ty; try done; rewrite ?app_assoc, Hlast; simpl; rewrite ?app_assoc in Hm; by rewrite Hm.
  - unfold addRaw, inner_addRaw. destruct (_ <? _); rewrite Hlast; cbn [Z.eqb Pos.eqb].
    + by rewrite makeCompressedInner_plain.
    + by rewrite makeFullInner_plain.
Qed.

Lemma prefix_round n hash : Codable n -> makeFromPrefix (addRaw n snfPREFIX) hash = Done (decoded n hash).
Proof.
  destruct prefix_bytes as (E1 & E2 & E3 & E4 & E5).
  intros Hc. destruct n as [[[k data] ty root h s]|i]; simpl in Hc.
  - pose proof (make_leaf data k ty root (Some hash) Hc) as Hm. cbn [leaf_make] in Hm.
    unfold addRaw, leaf_addRaw, decoded. cbn [tr_item tr_type tr_storageRoot it_data it_key].
    destruct ty; try done; rewrite ?E1, ?E2, ?E3, ?E4; unfold makeFromPrefix; simpl; exact Hm.
  - unfold addRaw, inner_addRaw. rewrite E5. by apply (makeFullInner_plain i (Some hash)) in Hc.
Qed.

End Codec.
