(* ===== verification/ShaMapRun.v ===== *)
(** * The state tree: sequences of operations

    The operations on a tree as commands, what they do to a plain map of items, and that
    a tree does the same. *)

From S2P Require Import Prelude HsTypes ShaMapNode ShaMap ShaMapRep ShaMapProps ShaMapOps ShaMapHash ShaMapIter.
From coqutil Require Import Datatypes.RecordSetters.
Import DoubleBraceUpdate.

#[local] Open Scope Z_scope.

(** How an item is to be stored. *)
Record Style := mkStyle { sy_isTransaction : bool; sy_hasMeta : bool; sy_root : option Z }.

#[export] Instance Style_eq_dec : EqDecision Style.
Proof. solve_decision. Defined.

Definition styled (s : Style) (data : Bytes) : Value := mkValue data (leaf_type (sy_isTransaction s) (sy_hasMeta s) (sy_root s)) (sy_root s).

Inductive MapOp :=
| OpAdd (item : SHAMapItem) (s : Style)
| OpUpdate (item : SHAMapItem) (s : Style)
| OpDelete (k : Z)
| OpPeek (k : Z)
| OpHas (k : Z)
| OpSnapShot (isMutable : bool)
| OpHash.

Inductive OpResult := RBool (b : bool) | RItem (i : option SHAMapItem) | RHash (h : Z) | RUnit.

Section Run.

Context `{Hashers}.

Definition step_op (db : NodeStore) (mp : SHAMap) (op : MapOp) : MapRes (OpResult * SHAMap) :=
  match op with
  | OpAdd item s => addGiveItem db mp item (sy_isTransaction s) (sy_hasMeta s) (sy_root s) ≫= fun '(b, mp) => Done (RBool b, mp)
  | OpUpdate item s => updateGiveItem db mp item (sy_isTransaction s) (sy_hasMeta s) (sy_root s) ≫= fun '(b, mp) => Done (RBool b, mp)
  | OpDelete k => delItem db mp k ≫= fun '(b, mp) => Done (RBool b, mp)
  | OpPeek k => peekItem db mp k ≫= fun i => Done (RItem i, mp)
  | OpHas k => hasItem db mp k ≫= fun b => Done (RBool b, mp)
  | OpSnapShot isMutable => Done (RUnit, snapShot mp isMutable)
  | OpHash => Done (RHash (getHash mp).1, (getHash mp).2)
  end.

Fixpoint run_ops (db : NodeStore) (mp : SHAMap) (ops : list MapOp) : MapRes (list OpResult * SHAMap) :=
  match ops with
  | [] => Done ([], mp)
  | op :: ops => step_op db mp op ≫= fun '(r, mp) => run_ops db mp ops ≫= fun '(rs, mp) => Done (r :: rs, mp)
  end.

(** ** The plain map *)

Definition spec_op (M : Items) (op : MapOp) : OpResult * Items :=
  match op with
  | OpAdd item s =>
      match M !! it_key item with Some _ => (RBool false, M) | None => (RBool true, <[it_key item := styled s (it_data item)]> M) end
  | OpUpdate item s =>
      match M !! it_key item with Some _ => (RBool true, <[it_key item := styled s (it_data item)]> M) | None => (RBool false, M) end
  | OpDelete k => (RBool (bool_decide (is_Some (M !! k))), delete k M)
  | OpPeek k => (RItem (item_of k <$> M !! k), M)
  | OpHas k => (RBool (bool_decide (is_Some (M !! k))), M)
  | OpSnapShot _ => (RUnit, M)
  | OpHash => (RHash (root_hash M), M)
  end.

Fixpoint spec_ops (M : Items) (ops : list MapOp) : list OpResult * Items :=
  match ops with
  | [] => ([], M)
  | op :: ops => let '(r, M) := spec_op M op in let '(rs, M) := spec_ops M ops in (r :: rs, M)
  end.

(** ** Commands that can be run *)

Definition op_keys (op : MapOp) : list Z :=
  match op with OpAdd i _ | OpUpdate i _ => [it_key i] | OpDelete k | OpPeek k | OpHas k => [k] | _ => [] end.

Definition op_items (op : MapOp) : list SHAMapItem := match op with OpAdd i _ | OpUpdate i _ => [i] | _ => [] end.
Definition op_styles (op : MapOp) : list Style := match op with OpAdd _ s | OpUpdate _ s => [s] | _ => [] end.

(** Every item in every style there is. *)
Definition op_values (ops : list MapOp) : list (Z * Value) :=
  concat ((fun i => (fun s => (it_key i, styled s (it_data i))) <$> concat (op_styles <$> ops)) <$> concat (op_items <$> ops)).

(** Two values under one key do not have the same hash. *)
Definition no_clash (l : list (Z * Value)) : Prop :=
  Forall (fun x => Forall (fun y => x.1 = y.1 -> value_hash x.1 x.2 = value_hash y.1 y.2 -> x.2 = y.2) l) l.

Definition runnable (ops : list MapOp) : Prop :=
  Forall (Forall valid_key) (op_keys <$> ops) /\ no_clash (op_values ops) /\ Z.of_nat (length ops) < 2 ^ 32 - 2.

(** ** One command *)

Lemma walkSubTree_seq mp w db : mp_seq (walkSubTree mp w db).1.2 = mp_seq mp.
Proof.
  unfold walkSubTree. destruct (_ =? _); [done|]. destruct (mp_root mp) as [t|n]; [by destruct (flush_node _ _ _ _ _) as [[]]|].
  destruct (inner_isEmpty n); [done|]. by destruct (flush_node _ _ _ _ _) as [[]].
Qed.

Lemma getHash_seq mp : mp_seq (getHash mp).2 = mp_seq mp.
Proof. unfold getHash. destruct (_ =? _); [apply walkSubTree_seq | done]. Qed.

Lemma snapShot_seq mp b : 0 < mp_seq mp -> mp_seq mp < 2 ^ 32 - 1 -> mp_seq (snapShot mp b) = mp_seq mp + 1.
Proof.
  intros H0 H1. unfold snapShot. assert (E : u32 (mp_seq mp + 1) = mp_seq mp + 1) by (unfold u32; rewrite Z.mod_small; lia).
  case_match; [|done]. unfold unshare. by rewrite walkSubTree_seq.
Qed.

Lemma snapShot_backed mp b : mp_backed (snapShot mp b) = mp_backed mp.
Proof.
  unfold snapShot. case_match; [|done]. unfold unshare, walkSubTree. destruct (_ =? _); [done|].
  destruct (mp_root _) as [t|n]; [by destruct (flush_node _ _ _ _ _) as [[]]|]. destruct (inner_isEmpty n); [done|].
  by destruct (flush_node _ _ _ _ _) as [[]].
Qed.

(** The same keys with the same data. *)
Definition Agree (m m' : Items) : Prop := forall k, v_data <$> m !! k = v_data <$> m' !! k.

Lemma Agree_refl m : Agree m m.
Proof. by intros k. Qed.

Lemma Agree_some m m' k : Agree m m' -> is_Some (m !! k) <-> is_Some (m' !! k).
Proof. intros HA. specialize (HA k). destruct (m !! k), (m' !! k); try done; split; by intros []. Qed.

Lemma Agree_insert m m' k v : Agree m m' -> Agree (<[k := v]> m) (<[k := v]> m').
Proof. intros HA j. destruct (decide (j = k)) as [->|]; [by rewrite !lookup_insert_eq | by rewrite !lookup_insert_ne]. Qed.

Lemma Agree_delete m m' k : Agree m m' -> Agree (delete k m) (delete k m').
Proof. intros HA j. destruct (decide (j = k)) as [->|]; [by rewrite !lookup_delete_eq | by rewrite !lookup_delete_ne]. Qed.

Lemma Agree_styled t m m' : Styled t m m' -> Agree m' m.
Proof. intros Hs j. destruct (Hs j) as [->| ->]; [done|]. by destruct (m !! j). Qed.

Lemma Agree_trans m1 m2 m3 : Agree m1 m2 -> Agree m2 m3 -> Agree m1 m3.
Proof. intros H1 H2 k. by rewrite H1. Qed.

Lemma Agree_spec m m' op :
  Agree m m' -> op <> OpHash -> (spec_op m op).1 = (spec_op m' op).1 /\ Agree (spec_op m op).2 (spec_op m' op).2.
Proof.
  intros HA Hop. destruct op as [i st|i st|k|k|k|b|]; simpl; try done.
  - specialize (HA (it_key i)) as Hk. destruct (m !! it_key i), (m' !! it_key i); try done. split; [done | by apply Agree_insert].
  - specialize (HA (it_key i)) as Hk. destruct (m !! it_key i), (m' !! it_key i); try done. split; [done | by apply Agree_insert].
  - split; [|by apply Agree_delete]. f_equal. apply bool_decide_ext. by apply Agree_some.
  - split; [|done]. specialize (HA k). f_equal. destruct (m !! k), (m' !! k); try done. simpl in *. unfold item_of. congruence.
  - split; [|done]. f_equal. apply bool_decide_ext. by apply Agree_some.
Qed.

(** The values that can come up. *)
Definition Inside (U : list (Z * Value)) (m : Items) : Prop := forall k v, m !! k = Some v -> (k, v) ∈ U.

Definition Closed (U : list (Z * Value)) : Prop :=
  forall k v j w, (k, v) ∈ U -> (j, w) ∈ U -> (k, mkValue (v_data v) (v_type w) (v_root w)) ∈ U.

Definition Single (U : list (Z * Value)) : Prop := exists ty root, forall k v, (k, v) ∈ U -> v_type v = ty /\ v_root v = root.

Lemma no_clash_use U k v w : no_clash U -> (k, v) ∈ U -> (k, w) ∈ U -> value_hash k v = value_hash k w -> v = w.
Proof. unfold no_clash. rewrite Forall_forall. intros Hn Hv Hw. specialize (Hn _ Hv). rewrite Forall_forall in Hn. by apply (Hn (k, w)). Qed.

Lemma Inside_insert U m k v : Inside U m -> (k, v) ∈ U -> Inside U (<[k := v]> m).
Proof. intros HI Hv j w [[<- <-]|[_ Hj]]%lookup_insert_Some; [done | by apply HI]. Qed.

Lemma Inside_styled U t m m' k :
  Closed U -> Inside U m -> m !! k = Some (leaf_value t) -> Styled t (delete k m) m' -> Inside U m'.
Proof.
  intros HC HI Hk Hs j v Hj. destruct (Hs j) as [E|E]; rewrite E in Hj.
  - apply lookup_delete_Some in Hj as [_ Hj]. by apply HI.
  - destruct (delete k m !! j) as [w|] eqn:Ew; [|done]. injection Hj as <-. apply lookup_delete_Some in Ew as [_ Ew].
    apply HI in Ew. apply HI in Hk. apply (HC _ _ _ _ Ew Hk).
Qed.

(** A map after a command whose plain counterpart leaves [M]. *)
Definition After (U : list (Z * Value)) (db : NodeStore) (mp mp' : SHAMap) (M : Items) : Prop :=
  mp_seq mp' <= mp_seq mp + 1 /\ mp_backed mp' = mp_backed mp /\ exists M', Holds db mp' M' /\ Agree M' M /\ Inside U M' /\ (Single U -> M' = M).

Lemma after_same U db mp mp' M :
  mp_seq mp' = mp_seq mp -> mp_backed mp' = mp_backed mp -> Holds db mp' M -> Inside U M -> After U db mp mp' M.
Proof. intros Hs Hb HM HI. split; [lia|]. split; [done|]. by exists M. Qed.

Lemma delete_after U db mp M k :
  Closed U -> Holds db mp M -> Inside U M -> valid_key k ->
  exists mp', delItem db mp k = Done (bool_decide (is_Some (M !! k)), mp') /\ After U db mp mp' (delete k M).
Proof.
  intros HC HM HI Hk. destruct (delItem_spec db mp M k HM Hk) as (mp' & M' & -> & Hs & Hb & _ & HM' & HD). exists mp'. split; [done|].
  split; [lia|]. split; [done|]. exists M'. split; [done|]. destruct (M !! k) as [v|] eqn:E; [|subst M'; by rewrite delete_id].
  destruct HD as (t & <- & Hst & _). split_and!; [by eapply Agree_styled | by eapply Inside_styled |].
  intros (ty & root & HU). apply HI in E as Ht. apply HU in Ht as [H1 H2]. apply (Styled_uniform ty root t); try done.
  intros j v [_ Hj]%lookup_delete_Some. by apply (HU j), HI.
Qed.

Lemma peekItem_spec db mp M k : Holds db mp M -> valid_key k -> peekItem db mp k = Done (item_of k <$> M !! k).
Proof.
  intros HM Hk. destruct (findKey_spec db mp M k HM Hk) as (r & Hr & Hm). unfold peekItem. rewrite Hr, bind_done. f_equal.
  destruct r as [t|]; [|by rewrite Hm]. destruct Hm as [<- ->]. simpl. by rewrite leaf_item at 1.
Qed.

Lemma step_spec U db mp M op :
  Closed U -> no_clash U -> Holds db mp M -> Inside U M -> mp_seq mp < 2 ^ 32 - 1 -> Forall valid_key (op_keys op) ->
  (forall i s, i ∈ op_items op -> s ∈ op_styles op -> (it_key i, styled s (it_data i)) ∈ U) ->
  exists mp', step_op db mp op = Done ((spec_op M op).1, mp') /\ After U db mp mp' (spec_op M op).2.
Proof.
  intros HC Hn HM HI Hseq Hk HU. destruct op as [i st|i st|k|k|k|b|]; cbn [step_op spec_op op_keys op_items op_styles] in *.
  all: try (rewrite Forall_singleton in Hk).
  - destruct (addGiveItem_spec db mp M i (sy_isTransaction st) (sy_hasMeta st) (sy_root st) HM Hk) as (mp' & -> & Hs & Hb & _ & HM').
    rewrite bind_done. specialize (HU i st ltac:(left) ltac:(left)). destruct (M !! it_key i) as [v|] eqn:E; eexists; (split; [done|]); apply after_same; try done.
    by apply Inside_insert.
  - specialize (HU i st ltac:(left) ltac:(left)).
    destruct (updateGiveItem_spec db mp M i (sy_isTransaction st) (sy_hasMeta st) (sy_root st) HM Hk) as (mp' & -> & Hs & Hb & _ & HM').
    { intros w Hw. apply (no_clash_use U); [done | done | by apply HI]. }
    rewrite bind_done. destruct (M !! it_key i) as [v|] eqn:E; eexists; (split; [done|]); apply after_same; try done.
    by apply Inside_insert.
  - destruct (delete_after U db mp M k HC HM HI Hk) as (mp' & -> & HA). rewrite bind_done. by exists mp'.
  - exists mp. rewrite (peekItem_spec db mp M k HM Hk), bind_done. split; [done | by apply after_same].
  - destruct (findKey_spec db mp M k HM Hk) as (r & Hr & Hm). unfold hasItem. rewrite Hr, !bind_done. exists mp.
    split; [|by apply after_same]. do 2 f_equal. cbn [fst]. f_equal. apply bool_decide_ext. destruct r as [t|]; [|by rewrite Hm]. destruct Hm as [_ ->]. done.
  - exists (snapShot mp b). split; [done|]. split; [|split; [apply snapShot_backed|]; exists M; split_and!; try done; by apply snapShot_holds]. rewrite snapShot_seq by (apply HM || done). lia.
  - destruct (getHash_spec db mp M HM) as (-> & HM' & Hb & _). exists (getHash mp).2. split; [done|]. split; [rewrite getHash_seq; lia|]. split; [done|]. by exists M.
Qed.

(** ** Sequences of commands *)

Lemma op_values_spec ops k v :
  (k, v) ∈ op_values ops
  <-> exists i s, i ∈ concat (op_items <$> ops) /\ s ∈ concat (op_styles <$> ops) /\ k = it_key i /\ v = styled s (it_data i).
Proof.
  unfold op_values. rewrite list_elem_of_In, in_concat. split.
  - intros (l & Hl & Hin). apply list_elem_of_In, list_elem_of_fmap in Hl as (i & -> & Hi).
    apply list_elem_of_In, list_elem_of_fmap in Hin as (s & [= -> ->] & Hs). by exists i, s.
  - intros (i & s & Hi & Hs & -> & ->). eexists. split; [by apply list_elem_of_In, list_elem_of_fmap_2|].
    apply list_elem_of_In. by apply (list_elem_of_fmap_2 (fun s => (it_key i, styled s (it_data i)))).
Qed.

Lemma op_values_closed ops : Closed (op_values ops).
Proof.
  intros k v j w Hv Hw. apply op_values_spec in Hv as (i & s & Hi & _ & -> & ->), Hw as (i' & s' & _ & Hs' & _ & ->).
  apply op_values_spec. by exists i, s'.
Qed.

Lemma op_values_single ops s : Forall (fun op => Forall (eq s) (op_styles op)) ops -> Single (op_values ops).
Proof.
  intros Hs. exists (v_type (styled s [])), (sy_root s). intros k v (i & s' & _ & Hs' & _ & ->)%op_values_spec.
  assert (s' = s) as ->; [|done]. apply list_elem_of_In, in_concat in Hs' as (l & Hl & Hin). apply list_elem_of_In, list_elem_of_fmap in Hl as (op & -> & Hop).
  rewrite Forall_forall in Hs. specialize (Hs _ Hop). rewrite Forall_forall in Hs. symmetry. by apply Hs, list_elem_of_In.
Qed.

Lemma op_values_own ops op i s :
  op ∈ ops -> i ∈ op_items op -> s ∈ op_styles op -> (it_key i, styled s (it_data i)) ∈ op_values ops.
Proof.
  intros Hop Hi Hs. apply op_values_spec. exists i, s. split_and!; try done.
  all: apply list_elem_of_In, in_concat; eexists; split; [by apply list_elem_of_In, list_elem_of_fmap_2 | by apply list_elem_of_In].
Qed.

Lemma run_spec U db mp M' M ops :
  Closed U -> no_clash U -> Holds db mp M' -> Agree M' M -> Inside U M' -> mp_seq mp + Z.of_nat (length ops) < 2 ^ 32 - 1 ->
  Forall (fun op => Forall valid_key (op_keys op)
                    /\ forall i s, i ∈ op_items op -> s ∈ op_styles op -> (it_key i, styled s (it_data i)) ∈ U) ops ->
  (Single U /\ M' = M \/ Forall (fun op => op <> OpHash) ops) ->
  exists mp1 M1, run_ops db mp ops = Done ((spec_ops M ops).1, mp1)
    /\ Holds db mp1 M1 /\ Agree M1 (spec_ops M ops).2 /\ (Single U -> M' = M -> M1 = (spec_ops M ops).2).
Proof.
  intros HC Hn. revert mp M' M. induction ops as [|op ops IH]; intros mp M' M HM HA HI Hseq Hops Hcase; [by exists mp, M'|].
  apply Forall_cons in Hops as [[Hk HU] Hops]. cbn [length] in Hseq.
  destruct (step_spec U db mp M' op HC Hn HM HI ltac:(lia) Hk HU) as (mp1 & Hst & Hs1 & _ & M1' & HM1 & HA1 & HI1 & HE1).
  cbn [run_ops spec_ops]. rewrite Hst, bind_done. destruct (spec_op M op) as [r M1] eqn:Eop.
  assert (Hop : (spec_op M' op).1 = r /\ Agree M1' M1 /\ (Single U -> M' = M -> M1' = M1)).
  { destruct Hcase as [[HS ->]|Hh].
    - rewrite Eop in HA1, HE1 |- *. by split_and!; auto.
    - apply Forall_cons in Hh as [Hh _]. destruct (Agree_spec M' M op HA Hh) as [E1 E2]. rewrite Eop in E1, E2. split_and!; [done | by eapply Agree_trans|].
      intros HS ->. rewrite Eop in HE1. by apply HE1. }
  destruct Hop as (Hr & HA1' & HE1').
  destruct (IH mp1 M1' M1 HM1 HA1' HI1 ltac:(lia) Hops) as (mp2 & M2 & Hrun & HM2 & HA2 & HE2).
  { destruct Hcase as [[HS E]|Hh]; [left; auto | right; by apply Forall_cons in Hh as []]. }
  rewrite Hr, Hrun, bind_done. destruct (spec_ops M1 ops) as [rs M3]. exists mp2, M2. split_and!; try done. intros HS E. by auto.
Qed.

Lemma new_holds db : Holds db SHAMap_new ∅.
Proof. split; [done | done|]. apply Rep_empty_root. Qed.

Lemma runnable_spec ops db :
  runnable ops ->
  (exists s, Forall (fun op => Forall (eq s) (op_styles op)) ops) \/ Forall (fun op => op <> OpHash) ops ->
  exists mp M, run_ops db SHAMap_new ops = Done ((spec_ops ∅ ops).1, mp) /\ Holds db mp M /\ Agree M (spec_ops ∅ ops).2
    /\ ((exists s, Forall (fun op => Forall (eq s) (op_styles op)) ops) -> M = (spec_ops ∅ ops).2).
Proof.
  intros (Hk & Hn & Hl) Hcase. destruct (run_spec (op_values ops) db SHAMap_new ∅ ∅ ops) as (mp & M & H1 & H2 & H3 & H4); try done.
  - apply op_values_closed.
  - apply new_holds.
  - simpl. lia.
  - apply Forall_forall. intros op Hop. split.
    + rewrite Forall_fmap, Forall_forall in Hk. by apply Hk.
    + intros i s. by apply op_values_own.
  - destruct Hcase as [[s Hs]|]; [left | by right]. split; [by eapply op_values_single | done].
  - exists mp, M. split_and!; try done. intros [s Hs]. apply H4; [by eapply op_values_single | done].
Qed.

End Run.
