(* ===== verification/ShaMapStore.v ===== *)
(** * The state tree: the node store

    A tree that is flushed can be read back from the store by its root hash. *)

From S2P Require Import Prelude HsTypes ShaMapNode ShaMap ShaMapRep ShaMapProps ShaMapOps ShaMapHash ShaMapInj ShaMapProof ShaMapCodec ShaMapRun.
From coqutil Require Import Datatypes.RecordSetters.
Import DoubleBraceUpdate.

#[local] Open Scope Z_scope.

#[local] Opaque be_bytes.

Section Store.

Context `{Hashers}.

(** ** Shared nodes are in the store

    Every node at hand that is shared is found in the store under its hash. *)
Inductive Backed (fetch : Z -> option Node) : Node -> Prop :=
| Backed_leaf t :
    (tr_seq t = 0 -> fetch (tr_hash t) = Some (decoded (Leaf t) (tr_hash t))) -> Backed fetch (Leaf t)
| Backed_inner n :
    (in_seq n = 0 -> fetch (in_hash n) = Some (decoded (Inner n) (in_hash n))) ->
    (forall b c, getChild n b = Some c -> Backed fetch c) -> Backed fetch (Inner n).

Lemma Backed_found fetch n : Backed fetch n -> getSeq n = 0 -> fetch (getNodeHash n) = Some (decoded n (getNodeHash n)).
Proof. by destruct 1. Qed.

Lemma Backed_child fetch n b c : Backed fetch (Inner n) -> getChild n b = Some c -> Backed fetch c.
Proof. inversion 1 as [|? ? Hc]; subst. apply Hc. Qed.

Lemma leaf_Backed fetch n : isInner n = false -> fetch (getNodeHash n) = Some (decoded n (getNodeHash n)) -> Backed fetch n.
Proof. intros Hi Hf. destruct n as [t|]; [|done]. by apply Backed_leaf. Qed.

Lemma getChild_setChild_any b c n b' d :
  getChild (setChild b c n) b' = Some d -> c = Some d \/ getChild n b' = Some d.
Proof.
  unfold getChild, setChild. simpl. destruct (decide (Z.to_nat b' = Z.to_nat b)) as [->|Hne].
  - destruct (decide (Z.to_nat b < length (in_children n))%nat) as [Hl|Hl].
    + rewrite list_lookup_insert_eq by done. by left.
    + rewrite list_insert_ge by lia. by right.
  - rewrite list_lookup_insert_ne by done. by right.
Qed.

Lemma Backed_setChild fetch b child n s :
  s <> 0 -> (forall b c, getChild n b = Some c -> Backed fetch c) -> (forall c, child = Some c -> Backed fetch c) ->
  Backed fetch (Inner (setChild b child (with_seq s n))).
Proof.
  intros Hs Hn Hc. apply Backed_inner; [done|]. intros b' c' [->|Hg]%getChild_setChild_any; [by apply Hc | by eapply Hn].
Qed.

Lemma Backed_new_leaf fetch item ty s root : s <> 0 -> Backed fetch (Leaf (leaf_new item ty s root)).
Proof. intros Hs. apply Backed_leaf. destruct (leaf_new_spec item ty s root) as (_ & _ & _ & ->). done. Qed.

Section Map.

Context (db : NodeStore) (mp : SHAMap).

#[local] Abbreviation fetch := (fetchNodeNT db mp).

(** What is read is in the store. *)
Lemma fetched_decoded h n : fetch h = Some n -> getSeq n = 0 /\ getNodeHash n = h /\ decoded n h = n.
Proof.
  unfold fetchNodeNT. destruct (mp_backed mp); [|done]. destruct (db !! h) as [data|]; [|done].
  destruct (makeFromPrefix data h) as [n'|] eqn:E; [|done]. intros [= ->]. revert E.
  unfold makeFromPrefix, makeTransaction, makeAccountState, makeContractState, makeTransactionWithMeta, makeFullInner, split_tag.
  repeat (case_match; simpl; try done); by intros [= <-].
Qed.

Lemma Backed_fetched h n : fetch h = Some n -> Backed fetch n.
Proof.
  intros Hf. destruct (fetched_decoded h n Hf) as (Hs & Hh & Hd). destruct n as [t|n]; simpl in Hh; subst h.
  - apply Backed_leaf. intros _. by rewrite Hd.
  - apply Backed_inner; [intros _; by rewrite Hd|]. intros b c Hg. unfold decoded in Hd. injection Hd as Hd. rewrite <- Hd in Hg.
    change (mjoin (replicate 16 (@None Node) !! Z.to_nat b) = Some c) in Hg. destruct (_ !! _) eqn:E; [|done]. apply lookup_replicate in E as [-> _]. done.
Qed.

Lemma Backed_descend n b c : Backed fetch (Inner n) -> descendThrow db mp n b = Done c -> Backed fetch c.
Proof.
  intros Hb. unfold descendThrow, descend. destruct (getChild n b) as [c'|] eqn:E; [intros [= ->]; by eapply Backed_child|].
  destruct (fetch (getChildHash n b)) as [c'|] eqn:E'; [intros [= ->]; by eapply Backed_fetched | done].
Qed.

Lemma Backed_walk fuel k n id stack r :
  Backed fetch n -> Forall (fun e => Backed fetch e.1) stack -> walk fuel db mp k n id stack = Done r ->
  Forall (fun e => Backed fetch e.1) r.2.
Proof.
  revert n id stack. induction fuel as [|fuel IH]; intros [t|n] id stack Hn Hs; cbn [walk].
  1, 3: intros [= <-]; by apply Forall_cons.
  1: done.
  destruct (isEmptyBranch _ _); [intros [= <-]; by apply Forall_cons|].
  destruct (descendThrow db mp n _) as [c|] eqn:E; [|done]. rewrite bind_done. apply IH; [by eapply Backed_descend | by apply Forall_cons].
Qed.

Lemma Backed_dirtyUp stack k c :
  0 < mp_seq mp -> Forall (fun e => Backed fetch e.1) stack -> Backed fetch c -> Backed fetch (dirtyUp mp stack k c).
Proof.
  intros Hs Hst. revert c. induction Hst as [|[[t|n] id] stack Hn Hst IH]; intros c Hc; cbn [dirtyUp]; [done | done|].
  apply IH. rewrite unshare_inner_eq. apply Backed_setChild; [lia | intros b d; by apply Backed_child | by intros d [= <-]].
Qed.

Lemma Backed_place stack k c :
  Forall (fun e => Backed fetch e.1) stack -> Backed fetch c -> Backed fetch (place stack k c).
Proof.
  intros Hst. revert c. induction Hst as [|[[t|n] id] stack Hn Hst IH]; intros c Hc; cbn [place]; [done | done|].
  apply IH. inversion Hn as [|? Hself Hch]; subst. apply Backed_inner; [done|].
  intros b d Hg. unfold getChild, shareChild in Hg. simpl in Hg. destruct (decide (Z.to_nat b = Z.to_nat (selectBranch id k))) as [E|E].
  - rewrite E in Hg. destruct (decide (Z.to_nat (selectBranch id k) < length (in_children n))%nat) as [Hl|Hl].
    + rewrite list_lookup_insert_eq in Hg by done. by injection Hg as <-.
    + rewrite list_insert_ge in Hg by lia. by apply (Hch (selectBranch id k)).
  - rewrite list_lookup_insert_ne in Hg by done. by apply (Hch b).
Qed.

Lemma Backed_split fuel tag other n id stack r :
  0 < mp_seq mp -> (forall b c, getChild n b = Some c -> Backed fetch c) -> in_seq n <> 0 -> Forall (fun e => Backed fetch e.1) stack ->
  split_loop fuel mp tag other n id stack = Done r ->
  (forall b c, getChild r.1.1 b = Some c -> Backed fetch c) /\ in_seq r.1.1 <> 0 /\ Forall (fun e => Backed fetch e.1) r.2.
Proof.
  intros Hs. revert n id stack. induction fuel as [|fuel IH]; intros n id stack Hn Hn0 Hst; cbn [split_loop]; [done|].
  destruct (_ =? _); [|intros [= <-]; done]. apply IH.
  - intros b c. by rewrite inner_new_child.
  - simpl. lia.
  - apply Forall_cons. split; [by apply Backed_inner | done].
Qed.

(** ** The operations keep it so *)

Context (Hseq : 0 < mp_seq mp) (Hin : isInner (mp_root mp) = true) (Hroot : Backed fetch (mp_root mp)).

Lemma Backed_path k r : walkTowardsKey db mp k = Done r -> Forall (fun e => Backed fetch e.1) r.2.
Proof. unfold walkTowardsKey. generalize max_depth. intros fuel. apply Backed_walk; [done | by constructor]. Qed.

Lemma Backed_set_root n : Backed fetch n -> Backed fetch (mp_root (set_root n mp)).
Proof. intros Hn. unfold set_root. by destruct (mp_root mp). Qed.

Lemma Backed_add item isTransaction hasMeta root b mp' :
  addGiveItem db mp item isTransaction hasMeta root = Done (b, mp') -> Backed fetch (mp_root mp').
Proof.
  unfold addGiveItem. generalize (S max_depth). intros fuel.
  destruct (walkTowardsKey db mp (it_key item)) as [[lf st]|] eqn:Ew; [|done]. rewrite bind_done.
  apply Backed_path in Ew. cbn [snd] in Ew. destruct st as [|[[t|n] id] st]; [done|..].
  all: apply Forall_cons in Ew as [Hn Ew]; simpl in Hn; cbv zeta beta iota.
  - destruct (_ =? _); [by intros [= <- <-]|]. destruct (split_loop _ _ _ _ _ _ _) as [[[n' id'] st']|] eqn:Es; [|done]. rewrite bind_done.
    apply Backed_split in Es as (Hc & Hn0 & Hst); [|done | intros b' c'; by rewrite inner_new_child | simpl; lia | done]. cbn [fst snd] in *.
    intros [= <- <-]. apply Backed_set_root, Backed_dirtyUp; [done | done|]. apply Backed_inner; [done|].
    intros b' c' [[= <-]|[[= <-]|Hg]%getChild_setChild_any]%getChild_setChild_any; [apply Backed_new_leaf; lia.. | by eapply Hc].
  - intros [= <- <-]. apply Backed_set_root, Backed_dirtyUp; [done | done|]. rewrite unshare_inner_eq.
    apply Backed_setChild; [lia | intros b' c'; by apply Backed_child|]. intros c [= <-]. apply Backed_new_leaf. lia.
Qed.

Lemma Backed_del_loop k t st prev mp' :
  Forall (fun e => Backed fetch e.1) st -> (forall c, prev = Some c -> Backed fetch c) ->
  del_loop db mp k t st prev = Done mp' -> Backed fetch (mp_root mp').
Proof.
  intros Hst. revert prev. induction Hst as [|[[t'|n] id] st Hn Hst IH]; intros prev Hp; cbn [del_loop].
  1, 2: by intros [= <-].
  assert (Hnode : Backed fetch (Inner (setChild (selectBranch id k) prev (unshare_inner mp n)))).
  { rewrite unshare_inner_eq. apply Backed_setChild; [lia | intros b c; by apply Backed_child | done]. }
  destruct (isRoot id); [intros [= <-]; by apply Backed_set_root|].
  unfold pull_up. destruct (_ =? 0); [by apply IH|]. destruct (_ =? 1); [|apply IH; by intros c [= <-]].
  destruct (onlyBelow _ _ _ _) as [item|]; [|done]. rewrite !bind_done. apply IH. intros c [= <-]. destruct item as [item|]; [|done].
  apply Backed_new_leaf. rewrite unshare_inner_eq. simpl. lia.
Qed.

Lemma Backed_del k b mp' : delItem db mp k = Done (b, mp') -> Backed fetch (mp_root mp').
Proof.
  unfold delItem. destruct (walkTowardsKey db mp k) as [[lf st]|] eqn:Ew; [|done]. rewrite bind_done.
  apply Backed_path in Ew. cbn [snd] in Ew. destruct st as [|[[t|n] id] st]; [done| |by intros [= <- <-]].
  destruct (_ =? _); [|by intros [= <- <-]]. apply Forall_cons in Ew as [_ Ew].
  destruct (del_loop db mp k t st None) as [mp1|] eqn:Ed; [|done]. intros [= <- <-]. by eapply Backed_del_loop in Ed.
Qed.

Lemma Backed_update item isTransaction hasMeta root b mp' :
  updateGiveItem db mp item isTransaction hasMeta root = Done (b, mp') -> Backed fetch (mp_root mp').
Proof.
  unfold updateGiveItem. destruct (walkTowardsKey db mp (it_key item)) as [[lf st]|] eqn:Ew; [|done]. rewrite bind_done.
  apply Backed_path in Ew. cbn [snd] in Ew. destruct st as [|[[t|n] id] st]; [done| |by intros [= <- <-]].
  cbv zeta beta iota. destruct (_ =? _); [|by intros [= <- <-]]. apply Forall_cons in Ew as [_ Ew].
  fold (update_leaf mp item (leaf_type isTransaction hasMeta root) root t).
  destruct (update_leaf_spec mp item (leaf_type isTransaction hasMeta root) root t) as (_ & _ & _ & Hs & _).
  destruct (update_leaf mp item _ root t) as [changed t']. cbn [snd] in Hs.
  assert (Hl : Backed fetch (Leaf t')) by (apply Backed_leaf; lia).
  destruct changed; [intros [= <- <-]; by apply Backed_dirtyUp|]. destruct (_ || _); intros [= <- <-]; [by apply Backed_place | done].
Qed.

End Map.

(** ** What is written *)

Definition value_raw (k : Z) (v : Value) : Bytes :=
  leaf_addRaw (mkTreeNode (mkItem k (v_data v)) (v_type v) (v_root v) 0 0) snfPREFIX.

Definition hashes_raw (hs : list Z) : Bytes := be_bytes 4 hp_innerNode ++ concat (be_bytes 32 <$> hs).

(** The nodes of a tree: hashes and encodings. *)
Fixpoint tree_nodes (h : nat) (m : Items) : list (Z * Bytes) :=
  match map_to_list m with
  | [] => []
  | [(k, v)] => [(value_hash k v, value_raw k v)]
  | _ =>
      match h with
      | O => []
      | S h' =>
          let hs := (fun b => tree_hash h' (sub (64 - h) b m)) <$> all_branches in
          (inner_hash hs, hashes_raw hs) :: concat ((fun b => tree_nodes h' (sub (64 - h) b m)) <$> all_branches)
      end
  end.

Definition root_nodes (m : Items) : list (Z * Bytes) :=
  if decide (m = ∅) then []
  else
    let hs := (fun b => tree_hash 63 (sub 0 b m)) <$> all_branches in
    (inner_hash hs, hashes_raw hs) :: concat ((fun b => tree_nodes 63 (sub 0 b m)) <$> all_branches).

(** A store that has them. *)
Definition Has (U : NodeStore) (l : list (Z * Bytes)) : Prop := Forall (fun e => U !! e.1 = Some e.2) l.

Lemma tree_nodes_singleton h k v : tree_nodes h {[k := v]} = [(value_hash k v, value_raw k v)].
Proof. destruct h; cbn [tree_nodes]; by rewrite map_to_list_singleton. Qed.

Lemma tree_nodes_S h m :
  (2 <= size m)%nat ->
  let hs := (fun b => tree_hash h (sub (63 - h) b m)) <$> all_branches in
  tree_nodes (S h) m = (inner_hash hs, hashes_raw hs) :: concat ((fun b => tree_nodes h (sub (63 - h) b m)) <$> all_branches).
Proof.
  rewrite <- length_map_to_list. cbn [tree_nodes]. intros Hm.
  destruct (map_to_list m) as [|[k v] [|e l]]; cbn [length] in Hm; [lia | lia | done].
Qed.

Lemma Has_branch U (f : Z -> list (Z * Bytes)) b : Has U (concat (f <$> all_branches)) -> 0 <= b < 16 -> Has U (f b).
Proof.
  unfold Has. rewrite !Forall_forall. intros HU Hb x Hx. apply HU. apply list_elem_of_In, in_concat. exists (f b).
  split; [by apply list_elem_of_In, list_elem_of_fmap_2, all_branches_spec | by apply list_elem_of_In].
Qed.

(** What a node at depth [d] needs of the store. *)
Definition Node_has (U : NodeStore) (d : nat) (n : Node) (m : Items) : Prop :=
  match n with
  | Leaf t => U !! value_hash (leaf_key t) (leaf_value t) = Some (value_raw (leaf_key t) (leaf_value t))
  | Inner _ =>
      U !! node_hash d m = Some (hashes_raw ((fun b => tree_hash (63 - d) (sub d b m)) <$> all_branches))
      /\ forall b, 0 <= b < 16 -> Has U (tree_nodes (63 - d) (sub d b m))
  end.

Lemma Node_has_tree U fetch d p n m :
  Rep fetch d p n m -> (0 < d)%nat -> Has U (tree_nodes (64 - d) m) -> Node_has U d n m.
Proof.
  intros HR Hd HU. destruct n as [t|n].
  - apply Rep_leaf_inv in HR as (-> & _). rewrite tree_nodes_singleton in HU. by apply Forall_cons in HU as [HU _].
  - assert (Hs : (2 <= size m)%nat) by (inversion HR; lia). pose proof (fd_depth _ _ _ _ _ (proj1 (Rep_open _ _ _ _ _ HR))) as Hd64.
    replace (64 - d)%nat with (S (63 - d)) in HU by lia. rewrite tree_nodes_S in HU by done. cbv zeta in HU.
    replace (63 - (63 - d))%nat with d in HU by lia. apply Forall_cons in HU as [HU1 HU2]. cbn [fst snd] in HU1. split.
    + rewrite node_hash_inner by (done || lia). done.
    + intros b Hb. by apply (Has_branch U (fun b => tree_nodes (63 - d) (sub d b m)) b).
Qed.

Lemma Node_has_root U fetch p n M : Rep fetch 0 p (Inner n) M -> M <> ∅ -> Has U (root_nodes M) -> Node_has U 0 (Inner n) M.
Proof.
  intros HR Hne HU. unfold root_nodes in HU. rewrite decide_False in HU by done. cbv zeta in HU. apply Forall_cons in HU as [HU1 HU2].
  cbn [fst snd] in HU1. split.
  - unfold node_hash, root_hash. rewrite decide_False by done. exact HU1.
  - intros b Hb. by apply (Has_branch U (fun b => tree_nodes 63 (sub 0 b M)) b).
Qed.

(** ** Writing *)

Section Flush.

Context (Hrange : hash_range) (mp : SHAMap) (Hseq : 0 < mp_seq mp) (Hbk : mp_backed mp = true) (U : NodeStore) (fetch0 : Z -> option Node).

#[local] Abbreviation F db := (fetchNodeNT db mp).

Definition codable_items (m : Items) : Prop := map_Forall codable m.

Lemma codable_proper m : codable_items m -> Proper_items m.
Proof. intros Hm k v Hk. by destruct (Hm k v Hk). Qed.

Lemma codable_sub d b m : codable_items m -> codable_items (sub d b m).
Proof. intros Hm k v [Hk _]%sub_lookup_Some. by apply Hm. Qed.

Lemma fetch_mono db db' h n : db ⊆ db' -> F db h = Some n -> F db' h = Some n.
Proof.
  intros Hs. unfold fetchNodeNT. destruct (mp_backed mp); [|done]. destruct (db !! h) as [x|] eqn:E; [|done].
  by rewrite (lookup_weaken _ _ _ _ E Hs).
Qed.

Lemma Backed_mono db db' n : db ⊆ db' -> Backed (F db) n -> Backed (F db') n.
Proof.
  intros Hs. induction 1 as [t Ht|n Hn Hc IH].
  - apply Backed_leaf. intros E. by apply (fetch_mono db), Ht.
  - apply Backed_inner; [|done]. intros E. by apply (fetch_mono db), Hn.
Qed.

Lemma Backed_setSeq fetch s n : s <> 0 -> Backed fetch n -> Backed fetch (setSeq s n).
Proof. intros Hs. destruct 1 as [[i y r h s'] Ht|n Hn Hc]; [by apply Backed_leaf | by apply Backed_inner]. Qed.

(** Adding the encoding the store should have. *)
Lemma write_mono db h raw : db ⊆ U -> U !! h = Some raw -> db ⊆ <[h := raw]> db /\ <[h := raw]> db ⊆ U.
Proof.
  intros Hs HU. split.
  - apply map_subseteq_spec. intros j x Hj. destruct (decide (j = h)) as [->|]; [|by rewrite lookup_insert_ne].
    rewrite lookup_insert_eq. apply (lookup_weaken _ _ _ _ Hj) in Hs. congruence.
  - apply map_subseteq_spec. intros j x [[<- <-]|[_ Hj]]%lookup_insert_Some; [done | by eapply lookup_weaken].
Qed.

Lemma write_found db n : Codable n -> F (<[getNodeHash n := addRaw n snfPREFIX]> db) (getNodeHash n) = Some (decoded n (getNodeHash n)).
Proof. intros Hc. unfold fetchNodeNT. by rewrite Hbk, lookup_insert_eq, prefix_round. Qed.

Lemma leaf_raw t s : addRaw (setSeq s (Leaf t)) snfPREFIX = value_raw (leaf_key t) (leaf_value t).
Proof. destruct t as [[k data] ty root h s']. unfold value_raw. by destruct ty. Qed.

(** A leaf that is flushed. *)
Lemma flush_leaf d p t m db :
  Rep fetch0 d p (Leaf t) m -> codable_items m -> db ⊆ U -> Node_has U d (Leaf t) m ->
  let r := share mp true (Leaf (leaf_updateHash t).2) db in
  Backed (F r.2) r.1 /\ db ⊆ r.2 /\ r.2 ⊆ U.
Proof.
  intros HR Hc Hs HU. pose proof (leaf_rep_shared fetch0 mp d p t m true db HR) as (t' & Hsh & HR' & Hs').
  apply Rep_leaf_inv in HR as (-> & _ & _ & Hh & _). apply map_Forall_singleton in Hc.
  assert (Et : (leaf_updateHash t).2 = t).
  { unfold leaf_updateHash. rewrite Hh. unfold value_hash, leaf_key, leaf_value. simpl.
    replace (mkItem (it_key (tr_item t)) (it_data (tr_item t))) with (tr_item t) by (by destruct (tr_item t)). by rewrite Z.eqb_refl. }
  rewrite Et. unfold share, writeNode. rewrite Hbk. cbn [andb]. cbv zeta. rewrite leaf_raw.
  assert (Eh : getNodeHash (setSeq 0 (Leaf t)) = value_hash (leaf_key t) (leaf_value t)) by (by destruct t).
  destruct (write_mono db _ _ Hs HU) as [W1 W2]. cbn [fst snd]. rewrite Eh. split_and!; [|done|done].
  pose proof (write_found db (setSeq 0 (Leaf t))) as Wf. rewrite Eh, leaf_raw in Wf.
  apply leaf_Backed; [done|]. rewrite Eh. apply Wf. by destruct t.
Qed.

(** The hashes of a node whose children are shared. *)
Lemma settled_plain d p n m :
  Rep fetch0 d p (Inner n) m -> Settled n -> Proper_items m -> (forall b, within (63 - d) (sub d b m)) ->
  exists n', setSeq 0 (Inner (updateHashDeep n)) = Inner n' /\ Plain n' /\ in_children n' = in_children n
    /\ inner_addRaw n' snfPREFIX = hashes_raw ((fun b => tree_hash (63 - d) (sub d b m)) <$> all_branches).
Proof.
  intros HR Hst Hp Hw. destruct (settle_rep fetch0 d p n m HR Hst) as [HR' Hh]. pose proof (Rep_open _ _ _ _ _ HR) as HO.
  pose proof (settled_hashes fetch0 d p n m HO Hst) as Hhs. destruct (setSeq 0 (Inner (updateHashDeep n))) as [|n'] eqn:E; [done|].
  exists n'. assert (En : in_hashes n' = (fun b => tree_hash (63 - d) (sub d b m)) <$> all_branches /\ in_children n' = in_children n).
  { injection E as <-. unfold updateHashDeep. rewrite Hhs. unfold inner_updateHash. cbn [in_isBranch in_hashes in_hash].
    destruct (_ =? _); done. }
  destruct En as [En Ec]. pose proof (Rep_open _ _ _ _ _ HR') as [HF' _]. split_and!; [done | | done | cbn [inner_addRaw]; by rewrite En].
  pose proof (fd_depth _ _ _ _ _ HF') as Hd.
  assert (Hch : forall b, 0 <= b < 16 -> getChildHash n' b = tree_hash (63 - d) (sub d b m)).
  { intros b Hb. unfold getChildHash. rewrite En, branch_lookup by lia. simpl. by rewrite Z2Nat.id by lia. }
  split; [apply HF' | | | apply HF'].
  - rewrite En. apply Forall_fmap, Forall_true. intros b. by apply tree_hash_valid, sub_proper.
  - intros b Hb. rewrite (fd_empty _ _ _ _ _ HF') by done. rewrite Hch by done. apply eq_true_iff_eq. rewrite bool_decide_eq_true, Z.eqb_eq.
    split; [intros ->; apply tree_hash_empty | by apply (tree_hash_zero Hrange); [|lia]].
Qed.

Lemma Rep_within fetch d p n m b : Rep fetch d p (Inner n) m -> Proper_items m -> within (63 - d) (sub d b m).
Proof.
  intros HR Hp. pose proof (Rep_open _ _ _ _ _ HR) as [HF _]. pose proof (fd_depth _ _ _ _ _ HF) as Hd.
  exists (16 * p + b). intros k v [Hk Hb]%sub_lookup_Some. split; [by apply Hp|]. replace (64 - (63 - d))%nat with (S d) by lia.
  rewrite prefix_S by done. destruct (fd_keys _ _ _ _ _ HF k v Hk) as [_ ->]. lia.
Qed.

(** A subtree that is flushed. *)
Definition Flushed (db : NodeStore) (r : Z * Node * NodeStore) : Prop := Backed (F r.2) r.1.2 /\ db ⊆ r.2 /\ r.2 ⊆ U.

Definition children_backed (db : NodeStore) (n : InnerNode Node) : Prop := forall b c, getChild n b = Some c -> Backed (F db) c.

Lemma flush_branch_store fuel d p n m z db b :
  (forall c db, Rep fetch0 (S d) (16 * p + b) c (sub d b m) -> getSeq c = mp_seq mp -> Backed (F db) c -> db ⊆ U ->
     Node_has U (S d) c (sub d b m) -> Flushed db (flush_node fuel mp true c db)) ->
  Rep fetch0 d p (Inner n) m -> 0 <= b < 16 -> children_backed db n -> db ⊆ U -> Has U (tree_nodes (63 - d) (sub d b m)) ->
  let r := flush_branch mp fuel true (z, n, db) b in
  children_backed r.2 r.1.2 /\ db ⊆ r.2 /\ r.2 ⊆ U.
Proof.
  intros IH HR Hb Hn Hs HU. pose proof (Rep_open _ _ _ _ _ HR) as HO. pose proof (fd_depth _ _ _ _ _ (proj1 HO)) as Hd. unfold flush_branch.
  destruct (isEmptyBranch n b) eqn:Ee; [done|].
  assert (Hne : sub d b m <> ∅) by (intros E; apply (Open_isEmpty _ _ _ _ _ _ HO Hb) in E; congruence).
  destruct (getChild n b) as [c|] eqn:Eg; [|done]. destruct (Z.eqb_spec (getSeq c) 0) as [E0|E0]; [done|].
  assert (HRc : Rep fetch0 (S d) (16 * p + b) c (sub d b m)) by (apply HO; [done..|]; unfold resolve; by rewrite Eg).
  destruct (preFlushNode_rep fetch0 mp Hseq _ _ _ _ HRc) as (HRc' & Hsc & _).
  assert (Hbc : Backed (F db) (preFlushNode mp c)).
  { unfold preFlushNode, clone. destruct (_ =? _); [by eapply Hn | apply Backed_setSeq; [lia | by eapply Hn]]. }
  destruct (IH (preFlushNode mp c) db HRc' Hsc Hbc Hs) as (HB & Hm & HmU).
  { eapply Node_has_tree; [done | lia|]. by replace (64 - S d)%nat with (63 - d)%nat by lia. }
  destruct (flush_node fuel mp true (preFlushNode mp c) db) as [[k c'] db']. cbn [fst snd] in *. split_and!; [|done|done].
  intros b' d' Hg. destruct (decide (Z.to_nat b' = Z.to_nat b)) as [E|E].
  - unfold getChild, shareChild in Hg. simpl in Hg. rewrite E, list_lookup_insert_eq in Hg by (rewrite (fd_children _ _ _ _ _ (proj1 HO)); lia).
    by injection Hg as <-.
  - unfold getChild, shareChild in Hg. simpl in Hg. rewrite list_lookup_insert_ne in Hg by done. apply (Backed_mono db); [done|]. by apply (Hn b').
Qed.

Lemma flush_branches_store fuel d p m bs z n db :
  (forall b c db, 0 <= b < 16 -> Rep fetch0 (S d) (16 * p + b) c (sub d b m) -> getSeq c = mp_seq mp ->
     Clean fetch0 (S d) (16 * p + b) c (sub d b m) (flush_node fuel mp true c db).1.2) ->
  (forall b c db, 0 <= b < 16 -> Rep fetch0 (S d) (16 * p + b) c (sub d b m) -> getSeq c = mp_seq mp -> Backed (F db) c -> db ⊆ U ->
     Node_has U (S d) c (sub d b m) -> Flushed db (flush_node fuel mp true c db)) ->
  (forall b, 0 <= b < 16 -> Has U (tree_nodes (63 - d) (sub d b m))) ->
  Rep fetch0 d p (Inner n) m -> in_seq n <> 0 -> Forall (fun b => 0 <= b < 16) bs -> children_backed db n -> db ⊆ U ->
  let r := fold_left (flush_branch mp fuel true) bs (z, n, db) in
  children_backed r.2 r.1.2 /\ db ⊆ r.2 /\ r.2 ⊆ U.
Proof.
  intros HC IH HU. revert z n db. induction bs as [|b bs IHbs]; intros z n db HR Hs Hbs Hn Hdb; [done|].
  apply Forall_cons in Hbs as [Hb Hbs]. cbn [fold_left].
  pose proof (flush_branch_spec fetch0 mp Hseq fuel true d p n m z db b (fun c db => HC b c db Hb) HR Hs Hb) as (HR1 & Hs1 & _ & _).
  pose proof (flush_branch_store fuel d p n m z db b (fun c db => IH b c db Hb) HR Hb Hn Hdb (HU b Hb)) as (Hn1 & Hm1 & HmU1).
  destruct (flush_branch mp fuel true (z, n, db) b) as [[z1 n1] db1]. cbn [fst snd] in *.
  destruct (IHbs z1 n1 db1 HR1 Hs1 Hbs Hn1 HmU1) as (Hn2 & Hm2 & HmU2). split_and!; [done | by etrans | done].
Qed.

Lemma flush_node_store fuel d p n m db :
  Rep fetch0 d p n m -> getSeq n = mp_seq mp -> (64 - d <= fuel)%nat -> codable_items m -> Backed (F db) n -> db ⊆ U -> Node_has U d n m ->
  Flushed db (flush_node fuel mp true n db).
Proof.
  revert d p n m db. induction fuel as [|fuel IH]; intros d p n m db HR Hs Hf Hc HB Hdb HU.
  all: destruct n as [t|n];
    [pose proof (flush_leaf d p t m db HR Hc Hdb HU) as Hl; cbn [flush_node]; by destruct (share mp true (Leaf (leaf_updateHash t).2) db)|].
  { pose proof (fd_depth _ _ _ _ _ (proj1 (Rep_open _ _ _ _ _ HR))). lia. }
  simpl in Hs. destruct HU as [HUn HUb]. rewrite flush_node_inner. pose proof (codable_proper m Hc) as Hp.
  assert (HC : forall b c db, 0 <= b < 16 -> Rep fetch0 (S d) (16 * p + b) c (sub d b m) -> getSeq c = mp_seq mp ->
     Clean fetch0 (S d) (16 * p + b) c (sub d b m) (flush_node fuel mp true c db).1.2).
  { intros b c db' Hb HRc Hsc. apply flush_node_spec; [done | done | done | lia]. }
  assert (Hall : Forall (fun b => 0 <= b < 16) all_branches) by (by apply Forall_forall, all_branches_spec).
  destruct (flush_branches_spec fetch0 mp Hseq fuel true d p m all_branches 0 n db HC HR ltac:(lia) Hall) as (HR1 & Hset & _).
  destruct (flush_branches_store fuel d p m all_branches 0 n db HC) as (Hn1 & Hm1 & HmU1);
    [|exact HUb | exact HR | lia | exact Hall | intros b c; by apply Backed_child | exact Hdb|].
  { intros b c db' Hb HRc Hsc HBc Hd' HUc. apply (IH (S d) (16 * p + b) c (sub d b m)); [done | done | lia | by apply codable_sub | done | done | done]. }
  destruct (fold_left _ _ _) as [[z n1] db1]. cbn [fst snd] in *.
  assert (Hst : Settled n1) by (intros b c Hb; by apply Hset, all_branches_spec).
  destruct (settled_plain d p n1 m HR1 Hst Hp (fun b => Rep_within _ _ _ _ _ b HR Hp)) as (n2 & E2 & Hpl & Ech & Eraw).
  destruct (settle_rep fetch0 d p n1 m HR1 Hst) as [_ Hh]. unfold share, writeNode. rewrite Hbk. cbn [andb]. rewrite E2 in Hh |- *. cbv zeta.
  destruct (write_mono db1 (getNodeHash (Inner n2)) (addRaw (Inner n2) snfPREFIX) HmU1) as [W1 W2].
  { unfold addRaw. by rewrite Hh, Eraw. }
  split_and!; cbn [fst snd]; [|by etrans|done]. apply Backed_inner; [intros _; by apply (write_found db1 (Inner n2))|].
  intros b c Hg. apply (Backed_mono db1); [done|]. apply (Hn1 b). unfold getChild in *. by rewrite <- Ech.
Qed.

End Flush.

(** ** Reading back *)

Lemma Rep_mono (f f' : Z -> option Node) d p n m :
  (forall h c, f h = Some c -> f' h = Some c) -> Rep f d p n m -> Rep f' d p n m.
Proof.
  intros Hf. induction 1 as [d p t H1 H2 H3 H4|d p n m HF Hs Hc IH]; [by apply Rep_leaf|].
  assert (Hres : forall b, 0 <= b < 16 -> sub d b m <> ∅ -> resolve f' n b = resolve f n b).
  { intros b Hb Hne. destruct (fd_some _ _ _ _ _ HF b Hb Hne) as [c Hr]. rewrite Hr. unfold resolve in *.
    destruct (getChild n b); [done | by apply Hf]. }
  apply Rep_inner; [|done|].
  - destruct HF. split; try done. intros b Hb Hne. rewrite Hres by done. by apply fd_some.
  - intros b c Hb Hne. rewrite Hres by done. by apply IH.
Qed.

(** A shared node as the store has it. *)
Lemma decoded_rep f d p n m :
  Rep f d p n m -> Backed f n -> getSeq n = 0 -> Rep f d p (decoded n (getNodeHash n)) m.
Proof.
  induction 1 as [d p t H1 H2 H3 H4|d p n m HF Hs Hc IH]; intros HB H0.
  { destruct t as [i y r h s]. by apply (Rep_leaf f d p (mkTreeNode i y r h 0)). }
  simpl in H0. assert (Hres : forall b, 0 <= b < 16 -> sub d b m <> ∅ ->
    getChildHash n b = tree_hash (63 - d) (sub d b m)
    /\ exists c, f (getChildHash n b) = Some c /\ Rep f (S d) (16 * p + b) c (sub d b m)).
  { intros b Hb Hne. destruct (fd_hash _ _ _ _ _ HF b Hb Hne) as [[Hh Hch]|(_ & ? & _)]; [|done]. split; [done|].
    destruct (fd_some _ _ _ _ _ HF b Hb Hne) as [c Hr]. specialize (IH b c Hb Hne Hr). specialize (Hc b c Hb Hne Hr).
    unfold resolve in Hr. destruct (getChild n b) as [c'|] eqn:Eg; [|by exists c]. injection Hr as ->.
    pose proof (fd_shared _ _ _ _ _ HF b c H0 Eg) as Hsc. pose proof (Backed_child _ _ _ _ HB Eg) as HBc.
    exists (decoded c (getNodeHash c)). split; [|by apply IH]. rewrite Hh, <- (Hch c eq_refl). by apply Backed_found. }
  assert (Hnone : forall b, getChild (bare n (in_hash n)) b = None).
  { intros b. unfold getChild. change (in_children (bare n (in_hash n))) with (replicate 16 (@None Node)).
    destruct (_ !! _) eqn:E; [|done]. by apply lookup_replicate in E as [-> _]. }
  assert (Hr : forall b, resolve f (bare n (in_hash n)) b = f (getChildHash n b)) by (intros b; unfold resolve; by rewrite Hnone).
  cbn [decoded getNodeHash]. apply Rep_inner; [|done|].
  - destruct HF. split; try done.
    + intros b Hb He. split; [apply Hnone | by apply fd_none].
    + intros b Hb Hne. rewrite Hr. destruct (Hres b Hb Hne) as (_ & c & -> & _). done.
    + intros b Hb Hne. left. split; [by apply Hres|]. intros c. by rewrite Hnone.
    + left. by destruct fd_own as [|[_ ?]].
    + intros b c _. by rewrite Hnone.
  - intros b c Hb Hne. rewrite Hr. destruct (Hres b Hb Hne) as (_ & c' & -> & HRc). by intros [= <-].
Qed.

(** ** Whole maps *)

(** A map whose shared nodes are in the store. *)
Definition Sound (db : NodeStore) (mp : SHAMap) (M : Items) : Prop := Holds db mp M /\ Backed (fetchNodeNT db mp) (mp_root mp).

Lemma new_sound db : Sound db SHAMap_new ∅.
Proof. split; [apply new_holds|]. apply Backed_inner; [done|]. intros b c. by rewrite inner_new_child. Qed.

(** The commands that leave nothing shared that is not stored. *)
Definition storing (op : MapOp) : bool := match op with OpSnapShot _ | OpHash => false | _ => true end.

Lemma fetch_backed db mp mp' : mp_backed mp = mp_backed mp' -> fetchNodeNT db mp = fetchNodeNT db mp'.
Proof. intros E. unfold fetchNodeNT. by rewrite E. Qed.

Lemma step_add_inv db mp i st r mp' :
  step_op db mp (OpAdd i st) = Done (r, mp') ->
  exists b, addGiveItem db mp i (sy_isTransaction st) (sy_hasMeta st) (sy_root st) = Done (b, mp').
Proof.
  unfold step_op. destruct (addGiveItem db mp i (sy_isTransaction st) (sy_hasMeta st) (sy_root st)) as [[b1 mp1]|e] eqn:E; [|done].
  intros [= _ <-]. by exists b1.
Qed.

Lemma step_update_inv db mp i st r mp' :
  step_op db mp (OpUpdate i st) = Done (r, mp') ->
  exists b, updateGiveItem db mp i (sy_isTransaction st) (sy_hasMeta st) (sy_root st) = Done (b, mp').
Proof.
  unfold step_op. destruct (updateGiveItem db mp i (sy_isTransaction st) (sy_hasMeta st) (sy_root st)) as [[b1 mp1]|e] eqn:E; [|done].
  intros [= _ <-]. by exists b1.
Qed.

Lemma step_delete_inv db mp k r mp' : step_op db mp (OpDelete k) = Done (r, mp') -> exists b, delItem db mp k = Done (b, mp').
Proof. unfold step_op. destruct (delItem db mp k) as [[b1 mp1]|e] eqn:E; [|done]. intros [= _ <-]. by exists b1. Qed.

Lemma step_peek_inv db mp k r mp' : step_op db mp (OpPeek k) = Done (r, mp') -> mp' = mp.
Proof. unfold step_op. destruct (peekItem db mp k) as [x|e]; [|done]. by intros [= _ <-]. Qed.

Lemma step_has_inv db mp k r mp' : step_op db mp (OpHas k) = Done (r, mp') -> mp' = mp.
Proof. unfold step_op. destruct (hasItem db mp k) as [x|e]; [|done]. by intros [= _ <-]. Qed.

Lemma op_backed db mp op r mp' M :
  Sound db mp M -> storing op = true -> step_op db mp op = Done (r, mp') -> mp_backed mp' = mp_backed mp ->
  Backed (fetchNodeNT db mp') (mp_root mp').
Proof.
  intros [HM HB] Hop Hst Hb. rewrite (fetch_backed db mp' mp Hb). pose proof (ho_seq _ _ _ HM) as Hs. pose proof (ho_inner _ _ _ HM) as Hi.
  destruct op as [i st|i st|k|k|k|b|]; [..|discriminate Hop|discriminate Hop].
  - apply step_add_inv in Hst as [b E]. exact (Backed_add db mp Hs Hi HB _ _ _ _ _ _ E).
  - apply step_update_inv in Hst as [b E]. exact (Backed_update db mp Hs HB _ _ _ _ _ _ E).
  - apply step_delete_inv in Hst as [b E]. exact (Backed_del db mp Hs Hi HB _ _ _ E).
  - apply step_peek_inv in Hst as ->. exact HB.
  - apply step_has_inv in Hst as ->. exact HB.
Qed.

Lemma run_sound U db mp M ops rs mp' :
  Closed U -> no_clash U -> Sound db mp M -> Inside U M -> mp_seq mp + Z.of_nat (length ops) < 2 ^ 32 - 1 ->
  Forall (fun op => Forall valid_key (op_keys op)
                    /\ forall i s, i ∈ op_items op -> s ∈ op_styles op -> (it_key i, styled s (it_data i)) ∈ U) ops ->
  Forall (fun op => storing op = true) ops -> run_ops db mp ops = Done (rs, mp') ->
  mp_backed mp' = mp_backed mp /\ Backed (fetchNodeNT db mp') (mp_root mp').
Proof.
  intros HC Hn. revert mp M rs. induction ops as [|op ops IH]; intros mp M rs HS HI Hseq Hops Hsto Hrun.
  { injection Hrun as _ <-. split; [done | apply HS]. }
  apply Forall_cons in Hops as [[Hk HU] Hops], Hsto as [Hop Hsto]. cbn [length] in Hseq.
  destruct (step_spec U db mp M op HC Hn (proj1 HS) HI ltac:(lia) Hk HU) as (mp1 & Hst & Hs1 & Hb1 & M1 & HM1 & _ & HI1 & _).
  cbn [run_ops] in Hrun. rewrite Hst, bind_done in Hrun. destruct (run_ops db mp1 ops) as [[rs2 mp2]|e] eqn:E; [|done].
  injection Hrun as _ <-. destruct (IH mp1 M1 rs2) as [Hb2 HB2]; try done; [|lia|by rewrite Hb2].
  split; [done|]. by apply (op_backed db mp op _ mp1 M HS Hop Hst).
Qed.

(** What a run from an empty map leaves. *)
Lemma runnable_sound ops db :
  runnable ops -> Forall (fun op => storing op = true) ops ->
  exists mp M, run_ops db SHAMap_new ops = Done ((spec_ops ∅ ops).1, mp) /\ mp_backed mp = true /\ Sound db mp M /\ Agree M (spec_ops ∅ ops).2.
Proof.
  intros Hr Hsto. destruct (runnable_spec ops db Hr) as (mp & M & Hrun & HM & HA & _).
  { right. eapply Forall_impl; [done|]. by intros op Hop ->. }
  exists mp, M. split; [done|]. destruct Hr as (Hk & Hn & Hl).
  assert (Hrest : mp_backed mp = mp_backed SHAMap_new /\ Backed (fetchNodeNT db mp) (mp_root mp)); [|by destruct Hrest].
  apply (run_sound (op_values ops) db SHAMap_new ∅ ops (spec_ops ∅ ops).1 mp (op_values_closed ops) Hn (new_sound db)); try done.
  - simpl. lia.
  - apply Forall_forall. intros op Hop. split; [rewrite Forall_fmap, Forall_forall in Hk; by apply Hk|].
    intros i st. by apply op_values_own.
Qed.

Lemma root_hash_nonzero m : hash_range -> m <> ∅ -> root_hash m <> 0.
Proof.
  intros Hr Hm. unfold root_hash. rewrite decide_False by done.
  match goal with |- inner_hash ?x <> 0 => pose proof (inner_hash_pos Hr x); lia end.
Qed.

(** The root hash is enough to get a shared map back from the store. *)
Lemma stored_root db mp M fresh :
  Sound db mp M -> mp_backed mp = true -> getSeq (mp_root mp) = 0 ->
  0 < mp_seq fresh -> mp_backed fresh = true -> getNodeHash (mp_root fresh) <> root_hash M ->
  exists mp', fetchRoot db fresh (root_hash M) = (true, mp') /\ Sound db mp' M.
Proof.
  intros [[Hs Hi HR] HB] Hbk H0 Hfs Hfb Hfh. unfold fetchRoot. rewrite (proj2 (Z.eqb_neq _ _)) by congruence.
  destruct (mp_root mp) as [|n] eqn:Er; [done|].
  assert (Hh : getNodeHash (Inner n) = root_hash M) by (destruct (fd_own _ _ _ _ _ (proj1 (Rep_open _ _ _ _ _ HR))) as [E|[_ E]]; done).
  assert (Hfound : fetchNodeNT db mp (root_hash M) = Some (decoded (Inner n) (root_hash M))) by (rewrite <- Hh; by apply Backed_found).
  rewrite (fetch_backed db fresh mp) by congruence. rewrite Hfound. eexists. split; [done|].
  assert (Eb : mp_backed (fresh {{ mp_root := decoded (Inner n) (root_hash M) }}) = mp_backed mp) by (by rewrite Hbk).
  split; rewrite ?(fetch_backed db _ mp Eb).
  - split; [done | done|]. rewrite (fetch_backed db _ mp Eb), <- Hh. by apply decoded_rep.
  - by apply (Backed_fetched db mp) in Hfound.
Qed.

(** Flushing writes the tree. *)
Lemma flush_sound db mp M U :
  hash_range -> Sound db mp M -> mp_backed mp = true -> codable_items M -> M <> ∅ -> db ⊆ U -> Has U (root_nodes M) ->
  let '(_, mp', db') := flushDirty mp db in
  db ⊆ db' /\ Sound db' mp' M /\ mp_backed mp' = true /\ getSeq (mp_root mp') = 0.
Proof.
  intros Hr [HM HB] Hbk Hc Hne HdU HU. pose proof (walkSubTree_holds db mp M true db HM) as (HM' & Hs' & Hb' & _ & H0 & _).
  pose proof HM as [Hs Hi HR]. unfold flushDirty in *. unfold walkSubTree in *. destruct (mp_root mp) as [t|n] eqn:Er; [done|].
  destruct (Z.eqb_spec (getSeq (Inner n)) 0) as [Hsq|Hsq]; [split_and!; try done; by split; rewrite ?Er|].
  pose proof (Rep_open _ _ _ _ _ HR) as HO.
  destruct (inner_isEmpty n) eqn:Ee; [apply Z.eqb_eq, (isBranch_zero _ _ _ _ _ HO) in Ee; by subst|].
  destruct (preFlushNode_rep _ mp Hs _ _ _ _ HR) as (HRp & Hsp & Hip).
  assert (HBp : Backed (fetchNodeNT db mp) (preFlushNode mp (Inner n))).
  { unfold preFlushNode, clone. destruct (_ =? _); [done|]. apply Backed_setSeq; [lia | done]. }
  destruct (flush_node_store Hr mp Hs Hbk U _ max_depth 0 0 _ M db HRp Hsp ltac:(unfold max_depth; lia) Hc HBp HdU) as (HB' & Hm & _).
  { destruct (preFlushNode mp (Inner n)) as [|n']; [done|]. by eapply Node_has_root. }
  destruct (flush_node _ _ _ _ _) as [[z n'] db'] eqn:Ef. cbn [fst snd] in *. split; [done|].
  assert (HR' : Rep (fetchNodeNT db' mp) 0 0 n' M).
  { apply (Rep_mono (fetchNodeNT db mp)); [intros h c; by apply fetch_mono | exact (ho_rep _ _ _ HM')]. }
  split; [split; [split; [done | exact (ho_inner _ _ _ HM') | exact HR'] | exact HB']|]. split; [done | exact H0].
Qed.

End Store.
