(* ===== verification/TxSetMap.v ===== *)
(** * Transaction sets on the state tree (RCLTxSet, MutableTxSet)

    The set of transactions of a consensus round is a state tree, from
    [src/src/ripple/app/consensus/RCLCxTx.h].  The consensus model works on plain maps
    from transaction ids to data; here these maps are what the tree holds. *)

From S2P Require Import Prelude HsTypes RpcaTypes.
From S2P Require Import ShaMapNode ShaMap ShaMapRep ShaMapProps ShaMapOps ShaMapHash ShaMapInj ShaMapIter ShaMapDelta.

#[local] Open Scope Z_scope.

Section TxSetMap.

Context `{Hashers}.

(** ** The operations *)

Definition MutableTxSet_new (mp : SHAMap) : SHAMap := snapShot mp true.

Definition MutableTxSet_insert (db : NodeStore) (mp : SHAMap) (t : RCLCxTx) : MapRes (bool * SHAMap) :=
  addItem db mp (mkItem (tx_id t) (tx_data t)) true false.

Definition MutableTxSet_erase (db : NodeStore) (mp : SHAMap) (entry : Z) : MapRes (bool * SHAMap) := delItem db mp entry.

Definition RCLTxSet_new (mp : SHAMap) : SHAMap := snapShot mp false.

Definition RCLTxSet_exists (db : NodeStore) (mp : SHAMap) (entry : Z) : MapRes bool := hasItem db mp entry.

Definition RCLTxSet_find (db : NodeStore) (mp : SHAMap) (entry : Z) : MapRes (option SHAMapItem) := peekItem db mp entry.

Definition RCLTxSet_id (mp : SHAMap) : Z := (getHash mp).1.

(** Whether the comparison was cut off is not looked at. *)
Definition RCLTxSet_compare (db : NodeStore) (mp j : SHAMap) : MapRes (gmap Z bool) :=
  ShaMap.compare db mp j 65536 ≫= fun r : bool * Delta => Done ((fun v : Pair => bool_decide (is_Some v.1)) <$> r.2).

(** ** What a set is *)

Definition tx_value (data : Bytes) : Value := mkValue data tnTRANSACTION_NM None.

Definition tx_items (s : TxSet) : Items := tx_value <$> s.

Lemma tx_items_lookup s k : tx_items s !! k = tx_value <$> s !! k.
Proof. apply lookup_fmap. Qed.

Lemma tx_items_uniform s : Uniform tnTRANSACTION_NM None (tx_items s).
Proof. intros k v Hk. rewrite tx_items_lookup in Hk. destruct (s !! k); [|done]. by injection Hk as <-. Qed.

Lemma tx_items_inj a b : tx_items a = tx_items b -> a = b.
Proof. apply (map_fmap_inj tx_value). by intros x y [= ->]. Qed.

Lemma tx_differences a b :
  (fun v : Pair => bool_decide (is_Some v.1)) <$> ShaMapDelta.differences (tx_items a) (tx_items b) = RpcaTypes.differences a b.
Proof.
  apply map_eq. intros k. rewrite lookup_fmap, item_differences_lookup, !tx_items_lookup. unfold RpcaTypes.differences. rewrite lookup_merge.
  destruct (a !! k) as [x|], (b !! k) as [y|]; simpl; try done.
  destruct (decide (x = y)) as [->|]; [by rewrite !decide_True | by rewrite !decide_False by congruence].
Qed.

(** ** A tree that is a set *)

Definition Is_set (db : NodeStore) (mp : SHAMap) (s : TxSet) : Prop := Holds db mp (tx_items s).

Lemma insert_refines db mp s t :
  Is_set db mp s -> valid_key (tx_id t) ->
  exists mp', MutableTxSet_insert db mp t = Done (bool_decide (s !! tx_id t = None), mp') /\ Is_set db mp' (tx_insert s t).
Proof.
  intros HM Hk. unfold MutableTxSet_insert, addItem.
  destruct (addGiveItem_spec db mp (tx_items s) (mkItem (tx_id t) (tx_data t)) true false None HM Hk) as (mp' & -> & _ & _ & _ & HM').
  cbn [it_key it_data] in *. exists mp'. rewrite tx_items_lookup in HM' |- *. unfold Is_set, tx_insert.
  destruct (s !! tx_id t) as [d|]; (split; [done|]); [done|]. unfold tx_items. by rewrite fmap_insert.
Qed.

Lemma erase_refines db mp s id :
  Is_set db mp s -> valid_key id ->
  exists mp', MutableTxSet_erase db mp id = Done (bool_decide (is_Some (s !! id)), mp') /\ Is_set db mp' (tx_erase s id).
Proof.
  intros HM Hk. destruct (delItem_uniform db mp _ _ _ id HM Hk (tx_items_uniform s)) as (mp' & Hd & _ & _ & _ & HM').
  exists mp'. unfold MutableTxSet_erase, Is_set, tx_erase, tx_items in *. rewrite Hd, fmap_delete. split; [|done]. do 2 f_equal.
  apply bool_decide_ext. rewrite lookup_fmap. by rewrite fmap_is_Some.
Qed.

Lemma exists_refines db mp s id :
  Is_set db mp s -> valid_key id -> RCLTxSet_exists db mp id = Done (bool_decide (is_Some (s !! id))).
Proof.
  intros HM Hk. destruct (findKey_spec db mp _ id HM Hk) as (r & Hr & Hm). unfold RCLTxSet_exists, hasItem. rewrite Hr, bind_done.
  f_equal. apply bool_decide_ext. rewrite tx_items_lookup in Hm. destruct r as [t|]; [destruct Hm as [_ Hm]|]; by destruct (s !! id).
Qed.

Lemma compare_refines db mp1 mp2 a b :
  hash_range -> Is_set db mp1 a -> Is_set db mp2 b -> Proper_items (tx_items a) -> Proper_items (tx_items b) ->
  no_collision (root_preimages (tx_items a) ++ root_preimages (tx_items b)) ->
  exists d, RCLTxSet_compare db mp1 mp2 = Done d /\ d ⊆ RpcaTypes.differences a b
    /\ (Z.of_nat (size (RpcaTypes.differences a b)) <= 65536 -> d = RpcaTypes.differences a b)
    /\ (65536 < Z.of_nat (size (RpcaTypes.differences a b)) -> Z.of_nat (size d) = 65536).
Proof.
  intros Hr HA HB Hpa Hpb Hn. unfold RCLTxSet_compare.
  pose proof (compare_spec _ _ db mp1 mp2 65536 Hr HA HB Hpa Hpb Hn ltac:(lia)) as Hc. rewrite <- (tx_differences a b), map_size_fmap.
  case_decide as Hd.
  - rewrite Hc, bind_done. eexists. split; [done|]. split; [done|]. split; [done|]. lia.
  - destruct Hc as (D & -> & Hsub & Hsz). rewrite bind_done. eexists. split; [done|]. split; [by apply map_fmap_mono|].
    split; [|by rewrite map_size_fmap]. intros Hle. f_equal. apply (map_subseteq_size_eq D _ Hsub); lia.
Qed.

End TxSetMap.
