(* ===== verification/ShaMapTheorems.v ===== *)
(** * The state tree: theorems

    What the tree promises: it is a map of items, its hash stands for its items, the
    iterators and the comparison are complete, proofs are sound, nodes survive being
    encoded, and transaction sets are sets. *)

From S2P Require Import Prelude HsTypes RpcaTypes.
From S2P Require Import ShaMapNode ShaMap ShaMapRep ShaMapProps ShaMapOps ShaMapHash ShaMapInj ShaMapIter ShaMapProof ShaMapDelta ShaMapCodec ShaMapRun ShaMapStore TxSetMap.

#[local] Open Scope Z_scope.

(** ** The theorems *)

(** C28: From an empty tree every sequence of additions, updates, removals, lookups and
    copies runs without an error, whatever kinds of items are mixed; the answers are
    those of a plain map, and the tree stays well-formed and has the keys and data of
    the plain map. *)
Theorem map_well_formed `{Hashers} (db : NodeStore) (ops : list MapOp) :
  runnable ops -> Forall (fun op => op <> OpHash) ops ->
  exists mp M, run_ops db SHAMap_new ops = Done ((spec_ops ∅ ops).1, mp) /\ Holds db mp M /\ Agree M (spec_ops ∅ ops).2.
Proof.
  intros Hr Hh. destruct (runnable_spec ops db Hr (or_intror Hh)) as (mp & M & Hrun & HM & HA & _). by exists mp, M.
Qed.

(** C3: With items of one kind, and of one storage root if they have any, the tree is the
    plain map: all answers, the hashes among them, and the items it holds at the end are
    those of the plain map. *)
Theorem map_refines `{Hashers} (db : NodeStore) (s : Style) (ops : list MapOp) :
  runnable ops -> Forall (fun op => Forall (eq s) (op_styles op)) ops ->
  exists mp, run_ops db SHAMap_new ops = Done ((spec_ops ∅ ops).1, mp) /\ Holds db mp (spec_ops ∅ ops).2.
Proof.
  intros Hr Hs. destruct (runnable_spec ops db Hr (or_introl (ex_intro _ s Hs))) as (mp & M & Hrun & HM & _ & HE).
  rewrite (HE (ex_intro _ s Hs)) in HM. by exists mp.
Qed.

(** C4: Two trees have the same hash exactly when they hold the same items, however they
    were built and wherever their nodes are, unless two of the strings hashed collide. *)
Theorem hash_stands_for_items `{Hashers} (db1 db2 : NodeStore) (mp1 mp2 : SHAMap) (M1 M2 : Items) :
  hash_range -> Holds db1 mp1 M1 -> Holds db2 mp2 M2 -> Proper_items M1 -> Proper_items M2 ->
  no_collision (root_preimages M1 ++ root_preimages M2) ->
  (getHash mp1).1 = (getHash mp2).1 <-> M1 = M2.
Proof.
  intros Hr H1 H2 Hp1 Hp2 Hn. destruct (getHash_spec db1 mp1 M1 H1) as [-> _], (getHash_spec db2 mp2 M2 H2) as [-> _].
  split; [|by intros ->]. apply (root_hash_inj Hr _ _ _ Hp1 Hp2 Hn); intros x Hx; apply elem_of_app; [by left | by right].
Qed.

(** C29: From the first item on the iterator visits every item of the tree once, in the
    order of the keys, and the search for an upper bound finds the item with the next
    larger key. *)
Theorem iteration_in_order `{Hashers} (db : NodeStore) (mp : SHAMap) (M : Items) (k : Z) :
  Holds db mp M -> valid_key k ->
  (exists l, peekFirstItem db mp ≫= items_from (size M) db mp = Done l
    /\ StronglySorted (fun x y => it_key x < it_key y) l
    /\ forall x, x ∈ l <-> exists v, M !! it_key x = Some v /\ it_data x = v_data v)
  /\ exists r, upper_bound db mp k = Done r
    /\ match r.1 with
       | Some t => k < leaf_key t /\ M !! leaf_key t = Some (leaf_value t) /\ forall j v, M !! j = Some v -> k < j -> leaf_key t <= j
       | None => forall j v, M !! j = Some v -> j <= k
       end.
Proof.
  intros HM Hk. split; [by apply iteration_spec|]. destruct (upper_bound_spec db mp M k HM Hk) as (r & Hr & Hl). exists r. split; [done|].
  unfold Least in Hl. destruct (r.1) as [t|]; [naive_solver|]. intros j v Hj. specialize (Hl j v Hj). lia.
Qed.

(** C9: The comparison of two trees finds exactly the items in which they differ, though
    it skips every branch with equal hashes; when there are more than it may return it
    returns that many of them and says so. *)
Theorem compare_finds_differences `{Hashers} (db : NodeStore) (mp1 mp2 : SHAMap) (M1 M2 : Items) (maxCount : Z) :
  hash_range -> Holds db mp1 M1 -> Holds db mp2 M2 -> Proper_items M1 -> Proper_items M2 ->
  no_collision (root_preimages M1 ++ root_preimages M2) -> 0 < maxCount ->
  if decide (Z.of_nat (size (ShaMapDelta.differences M1 M2)) < maxCount)
  then ShaMap.compare db mp1 mp2 maxCount = Done (true, ShaMapDelta.differences M1 M2)
  else exists D, ShaMap.compare db mp1 mp2 maxCount = Done (false, D) /\ D ⊆ ShaMapDelta.differences M1 M2 /\ Z.of_nat (size D) = maxCount.
Proof. apply compare_spec. Qed.

(** C30: For every item of a hashed tree a proof is made and is accepted with the hash of
    the item and the root hash; for other keys none is made. *)
Theorem proofs_complete `{Hashers} (db : NodeStore) (mp : SHAMap) (M : Items) (k : Z) :
  hash_range -> Holds db mp M -> getNodeHash (mp_root mp) = root_hash M -> Proper_items M -> valid_key k ->
  match M !! k with
  | Some v => exists pf, genNodeProof db mp k = Done (Some (value_hash k v, pf))
      /\ verifyProof (value_hash k v) pf (root_hash M) chainHashTypeG = true
  | None => genNodeProof db mp k = Done None
  end.
Proof.
  intros Hr HM HH Hp Hk. destruct (M !! k) as [v|] eqn:E; [by eapply genNodeProof_complete | by eapply genNodeProof_none].
Qed.

(** C25: An item whose proof is accepted for the root hash of a tree is in the tree,
    unless two of the strings hashed collide. *)
Theorem proofs_sound `{Hashers} (M : Items) (pf : SHAMapProof) (k : Z) (v : Value) :
  hash_range -> Proper_items M -> proper k v -> proof_bytes pf ->
  no_collision (value_preimage k v :: proof_preimages pf ++ root_preimages M) ->
  verifyProof (value_hash k v) pf (root_hash M) chainHashTypeG = true -> M !! k = Some v.
Proof. intros Hr. by apply verifyProof_item. Qed.

(** A node encoded for a peer decodes to the same node, its hash computed from what
    was sent; one encoded for the store decodes to the same node with the hash it is
    stored under. *)
Theorem node_roundtrip `{Hashers} (n : Node) (hash : Z) :
  Codable n ->
  makeFromWire (addRaw n snfWIRE) = Done (Some (decoded n (recomputed n)))
  /\ makeFromPrefix (addRaw n snfPREFIX) hash = Done (decoded n hash).
Proof. intros Hc. split; [by apply wire_round | by apply prefix_round]. Qed.

(** C26: A tree built by additions, updates and removals of items of any kinds, and not
    hashed or copied before, is written by [flushDirty] and can be had back from its root
    hash alone: nothing that was stored is lost, and the tree that the root hash leads to
    holds the same items and answers every lookup as the tree did, provided the store has no
    other bytes under the hash of one of the nodes. [unshare], with which a tree is hashed
    and copied, marks the nodes as stored without writing them: [flushDirty] then writes
    nothing. *)
Theorem store_roundtrip `{Hashers} (db U : NodeStore) (ops : list MapOp) :
  hash_range -> runnable ops -> Forall (fun op => storing op = true) ops ->
  exists mp, run_ops db SHAMap_new ops = Done ((spec_ops ∅ ops).1, mp)
    /\ (exists M, Holds db mp M /\ Agree M (spec_ops ∅ ops).2)
    /\ (forall M, Holds db mp M -> codable_items M -> M <> ∅ -> db ⊆ U -> Has U (root_nodes M) ->
         let '(_, _, db') := flushDirty mp db in
         db ⊆ db' /\ exists mp', fetchRoot db' SHAMap_new (getHash mp).1 = (true, mp') /\ Holds db' mp' M
           /\ forall k, valid_key k -> peekItem db' mp' k = peekItem db mp k)
    /\ flushDirty (unshare mp) db = (0, unshare mp, db).
Proof.
  intros Hr Hrun Hsto. destruct (runnable_sound ops db Hrun Hsto) as (mp & M0 & E & Hb & [HM0 HB] & HA). exists mp. split; [done|].
  split; [by exists M0|]. split.
  - intros M HM Hc Hne HdU HU. rewrite (proj1 (getHash_spec db mp M HM)).
    pose proof (flush_sound db mp M U Hr (conj HM HB) Hb Hc Hne HdU HU) as Hf. destruct (flushDirty mp db) as [[z mp1] db1].
    destruct Hf as (Hdb & HS1 & Hb1 & H0). split; [done|].
    destruct (stored_root db1 mp1 M SHAMap_new HS1 Hb1 H0 eq_refl eq_refl) as (mp2 & Ef & [HM2 _]).
    { apply not_eq_sym, root_hash_nonzero; done. }
    exists mp2. split_and!; [done | done|]. intros k Hk. by rewrite !(peekItem_spec _ _ M).
  - unfold unshare. pose proof (walkSubTree_holds db mp M0 false ∅ HM0) as (_ & _ & _ & _ & H0 & _).
    unfold flushDirty. unfold walkSubTree at 1. by rewrite H0.
Qed.

(** C10: Transaction sets on the tree are the sets of the consensus model: insertion and
    removal, membership, the identifier, which two sets share only when they are equal,
    and the comparison, which is complete up to 65536 differences and stops with 65536 of
    them if there are more. *)
Theorem txset_refines `{Hashers} (db : NodeStore) (mp mp' : SHAMap) (s s' : TxSet) (t : RCLCxTx) (id : Z) :
  Is_set db mp s -> Is_set db mp' s' -> valid_key (tx_id t) -> valid_key id ->
  hash_range -> Proper_items (tx_items s) -> Proper_items (tx_items s') ->
  no_collision (root_preimages (tx_items s) ++ root_preimages (tx_items s')) ->
  (exists mp1, MutableTxSet_insert db mp t = Done (bool_decide (s !! tx_id t = None), mp1) /\ Is_set db mp1 (tx_insert s t))
  /\ (exists mp1, MutableTxSet_erase db mp id = Done (bool_decide (is_Some (s !! id)), mp1) /\ Is_set db mp1 (tx_erase s id))
  /\ RCLTxSet_exists db mp id = Done (bool_decide (is_Some (s !! id)))
  /\ (RCLTxSet_id mp = RCLTxSet_id mp' <-> s = s')
  /\ exists d, RCLTxSet_compare db mp mp' = Done d /\ d ⊆ RpcaTypes.differences s s'
       /\ (Z.of_nat (size (RpcaTypes.differences s s')) <= 65536 -> d = RpcaTypes.differences s s')
       /\ (65536 < Z.of_nat (size (RpcaTypes.differences s s')) -> Z.of_nat (size d) = 65536).
Proof.
  intros Hs Hs' Ht Hid Hr Hp Hp' Hn. split_and!; [by apply insert_refines | by apply erase_refines | by apply exists_refines | |by apply compare_refines].
  unfold RCLTxSet_id. destruct (getHash_spec db mp _ Hs) as [-> _], (getHash_spec db mp' _ Hs') as [-> _]. split; [|by intros ->].
  intros E. apply tx_items_inj. apply (root_hash_inj Hr _ _ _ Hp Hp' Hn) in E; [done|..]; intros x Hx; apply elem_of_app; [by left | by right].
Qed.

(** ** Witnesses

    A small hash function and trees with keys that share nibbles. *)

Definition demo_digest (t : HashType) (x : Bytes) : Z :=
  let h := fold_left (fun acc b => Z.land (acc * 257 + b) (Z.ones 64)) x (match t with sha => 0 | sm3 => 1 | sha3 => 2 end) in
  1 + Z.land h (Z.ones 64) * 2 ^ 190.

#[local] Instance demo_hashers : Hashers := {| hasher := demo_digest; chainHashTypeG := sha |}.

Lemma demo_range : hash_range.
Proof.
  intros t x. change (0 < demo_digest t x < 2 ^ 256). unfold demo_digest. rewrite Z.land_ones by lia.
  set (y := fold_left _ _ _). pose proof (Z.mod_pos_bound y (2 ^ 64) eq_refl) as Hy.
  assert (2 ^ 64 < 2 ^ 66) by reflexivity. assert (0 < 2 ^ 190) by reflexivity. change (2 ^ 256) with (2 ^ 66 * 2 ^ 190). nia.
Qed.

#[local] Instance valid_key_dec k : Decision (valid_key k) := _ : Decision (_ /\ _).
#[local] Instance no_clash_dec U : Decision (no_clash U) := _ : Decision (Forall _ _).
#[local] Instance no_collision_dec l : Decision (no_collision l) := _ : Decision (Forall _ _).
#[local] Instance runnable_dec ops : Decision (runnable ops) := _ : Decision (_ /\ _ /\ _).

Definition demo_key (a b r : Z) : Z := a * 16 ^ 63 + b * 16 ^ 62 + r.

Definition account : Style := mkStyle false false None.
Definition contract : Style := mkStyle false false (Some 77).

Definition item_a : SHAMapItem := mkItem (demo_key 1 1 5) [10; 11].
Definition item_b : SHAMapItem := mkItem (demo_key 1 2 6) [20; 21; 22].
Definition item_c : SHAMapItem := mkItem (demo_key 9 3 7) [30].

Definition mixed_ops : list MapOp :=
  [OpAdd item_a account; OpAdd item_b contract; OpSnapShot true; OpUpdate (mkItem (it_key item_a) [12]) account; OpPeek (it_key item_a);
   OpDelete (it_key item_c); OpDelete (it_key item_a); OpHas (it_key item_a); OpPeek (it_key item_b)].

Lemma map_well_formed_witness :
  (spec_ops ∅ mixed_ops).1
  = [RBool true; RBool true; RUnit; RBool true; RItem (Some (mkItem (it_key item_a) [12])); RBool false; RBool true; RBool false;
     RItem (Some item_b)]
  /\ exists mp M, run_ops ∅ SHAMap_new mixed_ops = Done ((spec_ops ∅ mixed_ops).1, mp) /\ Holds ∅ mp M /\ Agree M (spec_ops ∅ mixed_ops).2.
Proof.
  split; [by vm_compute|]. apply map_well_formed; [|by repeat constructor].
  apply (bool_decide_eq_true_1 (runnable mixed_ops)). by vm_compute.
Defined.

Definition account_ops : list MapOp :=
  [OpAdd item_a account; OpAdd item_b account; OpHash; OpAdd item_c account; OpDelete (it_key item_b); OpSnapShot false; OpHash].

Lemma map_refines_witness :
  exists mp, run_ops ∅ SHAMap_new account_ops = Done ((spec_ops ∅ account_ops).1, mp) /\ Holds ∅ mp (spec_ops ∅ account_ops).2.
Proof.
  apply (map_refines ∅ account account_ops); [|by repeat constructor].
  apply (bool_decide_eq_true_1 (runnable account_ops)). by vm_compute.
Defined.

(** Trees for the other theorems: the items of a run of commands. *)
Definition demo_map (ops : list MapOp) : SHAMap := match run_ops ∅ SHAMap_new ops with Done (_, mp) => mp | Fault _ => SHAMap_new end.

Definition demo_items (ops : list MapOp) : Items := (spec_ops ∅ ops).2.

Lemma demo_holds s ops :
  runnable ops -> Forall (fun op => Forall (eq s) (op_styles op)) ops -> Holds ∅ (demo_map ops) (demo_items ops).
Proof.
  intros Hr Hs. destruct (runnable_spec ops ∅ Hr (or_introl (ex_intro _ s Hs))) as (mp & M & Hrun & HM & _ & HE).
  unfold demo_map, demo_items. rewrite Hrun. by rewrite (HE (ex_intro _ s Hs)) in HM.
Qed.

(** Items of several kinds, by what is found in the tree. *)
Lemma mixed_holds ops M0 :
  runnable ops -> Forall (fun op => op <> OpHash) ops -> Agree M0 (demo_items ops) -> Forall valid_key (map_to_list M0).*1 ->
  map_Forall (fun k v => leaf_value <$> (match findKey ∅ (demo_map ops) k with Done o => o | Fault _ => None end) = Some v) M0 ->
  Holds ∅ (demo_map ops) M0.
Proof.
  intros Hr Hh HA Hv HF. destruct (runnable_spec ops ∅ Hr (or_intror Hh)) as (mp & M & Hrun & HM & HA' & _).
  unfold demo_map in *. rewrite Hrun in HF |- *. assert (M0 = M) as ->; [|done]. apply map_eq. intros k. specialize (HA k). specialize (HA' k).
  unfold demo_items in HA. destruct (M0 !! k) as [v|] eqn:E; [|destruct (M !! k); [rewrite <- HA in HA'; discriminate HA' | done]].
  assert (Hk : valid_key k). { rewrite Forall_forall in Hv. apply Hv, list_elem_of_fmap. exists (k, v). split; [done|]. by apply elem_of_map_to_list. }
  destruct (findKey_spec ∅ mp M k HM Hk) as (o & Ho & Hm). specialize (HF k v E). simpl in HF. rewrite Ho in HF.
  destruct o as [t|]; [|done]. destruct Hm as [_ ->]. done.
Qed.

Definition ops_ab : list MapOp := [OpAdd item_a account; OpAdd item_b account; OpHash].
Definition ops_bac : list MapOp := [OpAdd item_b account; OpAdd item_c account; OpAdd item_a account; OpHash].

Lemma holds_ab : Holds ∅ (demo_map ops_ab) (demo_items ops_ab).
Proof. apply (demo_holds account); [|by repeat constructor]. apply (bool_decide_eq_true_1 (runnable ops_ab)). by vm_compute. Qed.

Lemma holds_bac : Holds ∅ (demo_map ops_bac) (demo_items ops_bac).
Proof. apply (demo_holds account); [|by repeat constructor]. apply (bool_decide_eq_true_1 (runnable ops_bac)). by vm_compute. Qed.

Lemma account_proper i : valid_key (it_key i) -> proper (it_key i) (styled account (it_data i)).
Proof. by split. Qed.

Lemma proper_ab : Proper_items (demo_items ops_ab).
Proof. apply map_Forall_insert_2; [by apply account_proper|]. apply map_Forall_insert_2; [by apply account_proper | apply map_Forall_empty]. Qed.

Lemma proper_bac : Proper_items (demo_items ops_bac).
Proof. repeat (apply map_Forall_insert_2; [by apply account_proper|]). apply map_Forall_empty. Qed.

Lemma no_collision_demo : no_collision (root_preimages (demo_items ops_ab) ++ root_preimages (demo_items ops_bac)).
Proof. apply (bool_decide_eq_true_1 (no_collision _)). by vm_compute. Qed.

Lemma hash_stands_for_items_witness :
  (getHash (demo_map ops_ab)).1 = (getHash (demo_map ops_bac)).1 <-> demo_items ops_ab = demo_items ops_bac.
Proof.
  apply (hash_stands_for_items ∅ ∅); [apply demo_range | apply holds_ab | apply holds_bac | apply proper_ab | apply proper_bac | apply no_collision_demo].
Defined.

Lemma iteration_in_order_witness :
  (exists l, peekFirstItem ∅ (demo_map ops_bac) ≫= items_from (size (demo_items ops_bac)) ∅ (demo_map ops_bac) = Done l
    /\ StronglySorted (fun x y => it_key x < it_key y) l
    /\ forall x, x ∈ l <-> exists v, demo_items ops_bac !! it_key x = Some v /\ it_data x = v_data v)
  /\ exists r, upper_bound ∅ (demo_map ops_bac) (demo_key 1 1 9) = Done r
    /\ match r.1 with
       | Some t => demo_key 1 1 9 < leaf_key t /\ demo_items ops_bac !! leaf_key t = Some (leaf_value t)
           /\ forall j v, demo_items ops_bac !! j = Some v -> demo_key 1 1 9 < j -> leaf_key t <= j
       | None => forall j v, demo_items ops_bac !! j = Some v -> j <= demo_key 1 1 9
       end.
Proof. apply iteration_in_order; [apply holds_bac | by split]. Defined.

Lemma compare_finds_differences_witness :
  size (ShaMapDelta.differences (demo_items ops_ab) (demo_items ops_bac)) = 1%nat
  /\ ShaMap.compare ∅ (demo_map ops_ab) (demo_map ops_bac) 100 = Done (true, ShaMapDelta.differences (demo_items ops_ab) (demo_items ops_bac)).
Proof.
  split; [by vm_compute|].
  pose proof (compare_finds_differences ∅ (demo_map ops_ab) (demo_map ops_bac) _ _ 100 demo_range holds_ab holds_bac proper_ab proper_bac
    no_collision_demo ltac:(lia)) as Hc.
  rewrite decide_True in Hc by (by vm_compute). exact Hc.
Defined.

Lemma proofs_complete_witness :
  exists pf, genNodeProof ∅ (demo_map ops_ab) (it_key item_a) = Done (Some (value_hash (it_key item_a) (styled account (it_data item_a)), pf))
    /\ verifyProof (value_hash (it_key item_a) (styled account (it_data item_a))) pf (root_hash (demo_items ops_ab)) chainHashTypeG = true.
Proof.
  pose proof (proofs_complete ∅ (demo_map ops_ab) (demo_items ops_ab) (it_key item_a) demo_range holds_ab ltac:(by vm_compute) proper_ab
    ltac:(by split)) as Hp.
  replace (demo_items ops_ab !! it_key item_a) with (Some (styled account (it_data item_a))) in Hp by (by vm_compute). exact Hp.
Defined.

(** The proof made for the first item. *)
Definition demo_proof : SHAMapProof :=
  match genNodeProof ∅ (demo_map ops_ab) (it_key item_a) with Done (Some (_, pf)) => pf | _ => mkProof [] [] end.

#[local] Instance is_byte_dec b : Decision (is_byte b) := _ : Decision (_ /\ _).

Lemma proofs_sound_witness : demo_items ops_ab !! it_key item_a = Some (styled account (it_data item_a)).
Proof.
  apply (proofs_sound (demo_items ops_ab) demo_proof); [apply demo_range | apply proper_ab | by apply account_proper | | |].
  - apply (bool_decide_eq_true_1 (Forall (fun lv => Forall (Forall is_byte) (lv_nodeid lv)) (pf_level demo_proof))). by vm_compute.
  - apply (bool_decide_eq_true_1 (no_collision _)). by vm_compute.
  - by vm_compute.
Defined.

(** A leaf and the root above two of them. *)
Definition demo_leaf : TreeNode := mkTreeNode item_a tnACCOUNT_STATE None 0 1.
Definition demo_inner : InnerNode Node := match mp_root (demo_map ops_bac) with Inner n => n | Leaf _ => inner_new 0 end.

Lemma demo_plain : Plain demo_inner.
Proof.
  assert (Hb : forallb (fun b => eqb (isEmptyBranch demo_inner b) (getChildHash demo_inner b =? 0)) all_branches = true) by (by vm_compute).
  split; [by vm_compute | | |].
  - apply (bool_decide_eq_true_1 (Forall valid_key (in_hashes demo_inner))). by vm_compute.
  - intros b Hr. apply eqb_prop. rewrite forallb_forall in Hb. by apply Hb, list_elem_of_In, all_branches_spec.
  - intros i Hi. replace (in_isBranch demo_inner) with 514 by (by vm_compute). apply Z.bits_above_log2; [lia|]. change (Z.log2 514) with 9. lia.
Qed.

Lemma node_roundtrip_witness :
  (makeFromWire (addRaw (Leaf demo_leaf) snfWIRE) = Done (Some (decoded (Leaf demo_leaf) (recomputed (Leaf demo_leaf))))
   /\ makeFromPrefix (addRaw (Leaf demo_leaf) snfPREFIX) 8 = Done (decoded (Leaf demo_leaf) 8))
  /\ (makeFromWire (addRaw (Inner demo_inner) snfWIRE) = Done (Some (decoded (Inner demo_inner) (recomputed (Inner demo_inner))))
   /\ makeFromPrefix (addRaw (Inner demo_inner) snfPREFIX) 9 = Done (decoded (Inner demo_inner) 9)).
Proof.
  split; apply node_roundtrip; [|exact demo_plain]. split; [by apply (account_proper item_a)|]. by vm_compute.
Defined.

(** An account beside a contract. *)
Definition stored_ops : list MapOp := [OpAdd item_a account; OpAdd item_b contract; OpPeek (it_key item_b)].
Definition stored_nodes : NodeStore := list_to_map (root_nodes (demo_items stored_ops)).

#[local] Instance Has_dec U l : Decision (Has U l) := _ : Decision (Forall _ _).

Lemma stored_runnable : runnable stored_ops.
Proof. apply (bool_decide_eq_true_1 (runnable stored_ops)). by vm_compute. Qed.

Lemma stored_holds : Holds ∅ (demo_map stored_ops) (demo_items stored_ops).
Proof.
  apply mixed_holds; [exact stored_runnable | by repeat constructor | done | |].
  - apply (bool_decide_eq_true_1 (Forall valid_key _)). by vm_compute.
  - apply (bool_decide_eq_true_1 (map_Forall _ _)). by vm_compute.
Qed.

Lemma stored_items :
  demo_items stored_ops = <[it_key item_b := styled contract (it_data item_b)]> (<[it_key item_a := styled account (it_data item_a)]> ∅).
Proof. apply (bool_decide_eq_true_1 (_ = _)). by vm_compute. Qed.

Lemma stored_proper : Proper_items (demo_items stored_ops).
Proof. apply map_Forall_insert_2; [|apply map_Forall_insert_2; [|apply map_Forall_empty]]; (split; [by vm_compute | done]). Qed.

Lemma stored_codable : codable_items (demo_items stored_ops).
Proof.
  assert (Hd : map_Forall (fun k v => k <> 0 /\ v_data v <> []) (demo_items stored_ops)) by (apply (bool_decide_eq_true_1 (map_Forall _ _)); by vm_compute).
  intros k v Hv. split; [exact (stored_proper k v Hv)|]. destruct (Hd k v Hv), (v_type v); done.
Qed.

Lemma store_roundtrip_witness :
  (exists mp', fetchRoot (flushDirty (demo_map stored_ops) ∅).2 SHAMap_new (getHash (demo_map stored_ops)).1 = (true, mp')
    /\ Holds (flushDirty (demo_map stored_ops) ∅).2 mp' (demo_items stored_ops)
    /\ forall k, valid_key k -> peekItem (flushDirty (demo_map stored_ops) ∅).2 mp' k = peekItem ∅ (demo_map stored_ops) k)
  /\ flushDirty (unshare (demo_map stored_ops)) ∅ = (0, unshare (demo_map stored_ops), ∅).
Proof.
  destruct (store_roundtrip ∅ stored_nodes stored_ops demo_range stored_runnable ltac:(by repeat constructor)) as (mp & Hrun & _ & Hst & Hno).
  assert (demo_map stored_ops = mp) as <- by (unfold demo_map; by rewrite Hrun). split; [|exact Hno].
  specialize (Hst _ stored_holds). destruct (flushDirty (demo_map stored_ops) ∅) as [[z mp1] db1]. apply Hst.
  - exact stored_codable.
  - rewrite stored_items. apply insert_non_empty.
  - apply map_empty_subseteq.
  - apply (bool_decide_eq_true_1 (Has _ _)). by vm_compute.
Defined.

(** Transactions under their ids, one of them of Ethereum. *)
Definition tx_of (data : Bytes) : RCLCxTx := mkTx (value_hash 0 (tx_value data)) data.
Definition tx1 : RCLCxTx := tx_of [5; 6].
Definition tx2 : RCLCxTx := tx_of [0; 193; 7].
Definition tx_style : Style := mkStyle true false None.

Definition tx_ops (l : list RCLCxTx) : list MapOp := (fun t => OpAdd (mkItem (tx_id t) (tx_data t)) tx_style) <$> l.
Definition set_12 : TxSet := <[tx_id tx2 := tx_data tx2]> {[tx_id tx1 := tx_data tx1]}.
Definition set_1 : TxSet := {[tx_id tx1 := tx_data tx1]}.

Lemma items_12 : demo_items (tx_ops [tx1; tx2]) = tx_items set_12.
Proof. vm_compute. reflexivity. Qed.

Lemma items_1 : demo_items (tx_ops [tx1]) = tx_items set_1.
Proof. vm_compute. reflexivity. Qed.

Lemma holds_12 : Is_set ∅ (demo_map (tx_ops [tx1; tx2])) set_12.
Proof.
  unfold Is_set. rewrite <- items_12. apply (demo_holds tx_style); [|by repeat constructor].
  apply (bool_decide_eq_true_1 (runnable _)). by vm_compute.
Qed.

Lemma holds_1 : Is_set ∅ (demo_map (tx_ops [tx1])) set_1.
Proof.
  unfold Is_set. rewrite <- items_1. apply (demo_holds tx_style); [|by repeat constructor].
  apply (bool_decide_eq_true_1 (runnable _)). by vm_compute.
Qed.

Lemma tx1_proper : proper (tx_id tx1) (tx_value (tx_data tx1)).
Proof. split; [by vm_compute|]. by split_and!; vm_compute. Qed.

Lemma tx2_proper : proper (tx_id tx2) (tx_value (tx_data tx2)).
Proof. split; [by vm_compute|]. by split_and!; vm_compute. Qed.

Lemma proper_1 : Proper_items (tx_items set_1).
Proof. unfold set_1, tx_items. rewrite map_fmap_singleton. apply map_Forall_singleton, tx1_proper. Qed.

Lemma proper_12 : Proper_items (tx_items set_12).
Proof. unfold set_12, tx_items. rewrite fmap_insert. apply map_Forall_insert_2; [apply tx2_proper | apply proper_1]. Qed.

Lemma txset_refines_witness :
  (exists mp1, MutableTxSet_insert ∅ (demo_map (tx_ops [tx1])) tx2 = Done (bool_decide (set_1 !! tx_id tx2 = None), mp1)
    /\ Is_set ∅ mp1 (tx_insert set_1 tx2))
  /\ (exists mp1, MutableTxSet_erase ∅ (demo_map (tx_ops [tx1])) (tx_id tx1) = Done (bool_decide (is_Some (set_1 !! tx_id tx1)), mp1)
    /\ Is_set ∅ mp1 (tx_erase set_1 (tx_id tx1)))
  /\ RCLTxSet_exists ∅ (demo_map (tx_ops [tx1])) (tx_id tx1) = Done (bool_decide (is_Some (set_1 !! tx_id tx1)))
  /\ (RCLTxSet_id (demo_map (tx_ops [tx1])) = RCLTxSet_id (demo_map (tx_ops [tx1; tx2])) <-> set_1 = set_12)
  /\ exists d, RCLTxSet_compare ∅ (demo_map (tx_ops [tx1])) (demo_map (tx_ops [tx1; tx2])) = Done d
       /\ d ⊆ RpcaTypes.differences set_1 set_12
       /\ (Z.of_nat (size (RpcaTypes.differences set_1 set_12)) <= 65536 -> d = RpcaTypes.differences set_1 set_12)
       /\ (65536 < Z.of_nat (size (RpcaTypes.differences set_1 set_12)) -> Z.of_nat (size d) = 65536).
Proof.
  apply txset_refines; [exact holds_1 | exact holds_12 | | | exact demo_range | exact proper_1 | exact proper_12 |].
  - by vm_compute.
  - by vm_compute.
  - apply (bool_decide_eq_true_1 (no_collision (root_preimages (tx_items set_1) ++ root_preimages (tx_items set_12)))). by vm_compute.
Defined.

(** ** A flaw *)

(** C37: When an item is removed and below one of the inner nodes on the way to it, other
    than the root, there is only one other item, that item takes on the kind and the storage
    root of the removed one, whatever its own are; all others stay. So removing an account
    makes an account of the contract beside it. The hash is that of the tree without the
    removed item exactly when the two were of the same kind and had the same storage root. *)
Theorem removal_changes_neighbour `{Hashers} (db : NodeStore) (mp : SHAMap) (M : Items) (k k' : Z) (v v' : Value) :
  Holds db mp M -> valid_key k -> M !! k = Some v -> M !! k' = Some v' -> Neighbour k k' 1 M ->
  let M' := <[k' := mkValue (v_data v') (v_type v) (v_root v)]> (delete k M) in
  exists mp', delItem db mp k = Done (true, mp') /\ Holds db mp' M'
    /\ (hash_range -> Proper_items M' -> Proper_items M -> no_collision (root_preimages M' ++ root_preimages (delete k M)) ->
        (getHash mp').1 = root_hash (delete k M) <-> v_type v' = v_type v /\ v_root v' = v_root v).
Proof.
  intros HM Hk Hv Hv' HN M'. destruct (delItem_spec db mp M k HM Hk) as (mp' & M1 & Hd & _ & _ & _ & HM1 & HD). rewrite Hv in Hd, HD.
  destruct HD as (t & <- & Hst & Hre). destruct (Hre k' (proj1 HN)) as [Hk' _]. specialize (Hk' HN). rewrite Hv' in Hk'. assert (M1 = M') as ->.
  { apply map_eq. intros j. unfold M'. destruct (decide (j = k')) as [->|Hj]; [by rewrite lookup_insert_eq|]. rewrite lookup_insert_ne by done.
    destruct (decide (j = k)) as [->|Hjk]; [destruct (Hst k) as [->| ->]; by rewrite ?lookup_delete_eq|]. rewrite lookup_delete_ne by done.
    apply (Hre j Hjk). intros HN'. by apply Hj, (Neighbour_unique k k' j M). }
  exists mp'. split; [done|]. split; [done|]. intros Hr Hp' Hp Hn. rewrite (proj1 (getHash_spec db mp' M' HM1)).
  assert (Hpd : Proper_items (delete k M)) by (by apply map_Forall_delete).
  assert (Hiff : root_hash M' = root_hash (delete k M) <-> M' = delete k M).
  { split; [|by intros ->]. apply (root_hash_inj Hr _ _ _ Hp' Hpd Hn); intros x Hx; apply elem_of_app; [by left | by right]. }
  rewrite Hiff. unfold M'. split.
  - intros E. apply (f_equal (lookup k')) in E. rewrite lookup_insert_eq, lookup_delete_ne, Hv' in E by (apply not_eq_sym, HN). by injection E as <-.
  - intros [<- <-]. apply insert_id. rewrite lookup_delete_ne, Hv' by (apply not_eq_sym, HN). by destruct v'.
Qed.

Lemma restyled_proper : Proper_items {[it_key item_b := styled account (it_data item_b)]}.
Proof. apply map_Forall_singleton. apply (account_proper item_b). by vm_compute. Qed.

Lemma restyled_no_collision :
  no_collision (root_preimages {[it_key item_b := styled account (it_data item_b)]}
    ++ root_preimages {[it_key item_b := styled contract (it_data item_b)]}).
Proof. apply (bool_decide_eq_true_1 (no_collision _)). by vm_compute. Qed.

(** The account beside the contract is removed. *)
Lemma removal_changes_neighbour_witness :
  exists mp', delItem ∅ (demo_map stored_ops) (it_key item_a) = Done (true, mp')
    /\ Holds ∅ mp' {[it_key item_b := styled account (it_data item_b)]}
    /\ (getHash mp').1 <> root_hash {[it_key item_b := styled contract (it_data item_b)]}.
Proof.
  destruct (removal_changes_neighbour ∅ (demo_map stored_ops) (demo_items stored_ops) (it_key item_a) (it_key item_b)
    (styled account (it_data item_a)) (styled contract (it_data item_b)) stored_holds) as (mp' & Hd & HM & Hh).
  - by vm_compute.
  - by vm_compute.
  - by vm_compute.
  - split; [by vm_compute|]. split; [by vm_compute; eexists|]. exists 1%nat. split_and!; [lia | lia | lia | by vm_compute|].
    intros j [w Hj] _. rewrite stored_items in Hj. apply lookup_insert_Some in Hj as [[<- _]|[_ Hj]]; [by right|].
    apply lookup_insert_Some in Hj as [[<- _]|[_ Hj]]; [by left | by rewrite lookup_empty in Hj].
  - assert (E : delete (it_key item_a) (demo_items stored_ops) = {[it_key item_b := styled contract (it_data item_b)]})
      by (apply (bool_decide_eq_true_1 (_ = _)); by vm_compute).
    rewrite E in HM, Hh. rewrite insert_singleton_eq in HM, Hh. exists mp'. split_and!; [done | done|]. intros Heq. apply Hh in Heq as [_ Heq]; [discriminate Heq | ..].
    + exact demo_range.
    + exact restyled_proper.
    + exact stored_proper.
    + exact restyled_no_collision.
Defined.
