(* ===== verification/ShaMapSync.v ===== *)
(** * The state tree: synchronisation with peers (SHAMapSync)

    A map that is filled with the nodes peers send, the replies to peers that ask for
    nodes, the traversals of a map and the fetch packs made by them, from
    [src/src/ripple/shamap/impl/SHAMapSync.cpp], with the filters of
    [src/src/ripple/app/ledger/AccountStateSF.cpp], [TransactionStateSF.cpp] and
    [ConsensusTransSetSF.cpp] that a map asks before it asks peers.

    The node a peer sends is hooked to its parent where it stands; in the model the path
    from the root to it is rebuilt.  What is known to be complete, the marks on inner
    nodes and the cache of their hashes, is set by the search for missing nodes and is
    an argument here.  What a visitor does is a function on a state that also says whether
    to go on. *)

From S2P Require Import Prelude HsTypes ShaMapNode ShaMap.
From coqutil Require Import Datatypes.RecordSetters.
Import DoubleBraceUpdate.

#[local] Open Scope Z_scope.

(** ** Results of adding nodes *)

Record SHAMapAddNode := mkAddNode { an_good : Z; an_bad : Z; an_duplicate : Z }.

Definition an_none : SHAMapAddNode := mkAddNode 0 0 0.
Definition duplicate : SHAMapAddNode := mkAddNode 0 0 1.
Definition useful : SHAMapAddNode := mkAddNode 1 0 0.
Definition invalid : SHAMapAddNode := mkAddNode 0 1 0.

Definition an_plus (a b : SHAMapAddNode) : SHAMapAddNode :=
  mkAddNode (an_good a + an_good b) (an_bad a + an_bad b) (an_duplicate a + an_duplicate b).

Definition isGood (a : SHAMapAddNode) : bool := an_good a + an_duplicate a >? an_bad a.
Definition isInvalid (a : SHAMapAddNode) : bool := an_bad a >? 0.
Definition isUseful (a : SHAMapAddNode) : bool := an_good a >? 0.

(** ** What a map is filled from

    The node store, the fetch packs peers have sent, the nodes of transaction sets seen
    lately, the transactions at hand under their hashes, and the transactions handed on
    to be submitted. *)

Record SyncEnv := mkSyncEnv {
  se_db : NodeStore;
  se_packs : gmap Z Bytes;
  se_cache : gmap Z Bytes;
  se_txns : gmap Z Bytes;
  se_submitted : list Bytes
}.

(** A filter: [getNode] is asked for a node, [gotNode] told of one. *)
Record SyncFilter := mkFilter {
  sf_getNode : SyncEnv -> Z -> option Bytes * SyncEnv;
  sf_gotNode : bool -> Z -> Bytes -> TNType -> SyncEnv -> SyncEnv
}.

Definition getType (n : Node) : TNType := match n with Leaf t => tr_type t | Inner _ => tnINNER end.

(** What the search for missing nodes has marked as complete: nodes by their place, and
    hashes. *)
Record FullBelow := mkFullBelow { fb_node : SHAMapNodeID -> bool; fb_cache : Z -> bool }.

Definition SHAMap_sync : SHAMap := mkMap 1 (Inner (inner_new 1)) Synching true.

Definition isSynching (mp : SHAMap) : bool := bool_decide (mp_state mp = Floating) || bool_decide (mp_state mp = Synching).

Definition isInBounds (n : Node) (id : SHAMapNodeID) : bool := negb (isInner n) || (ni_depth id <? 64).

Definition same_id (a b : SHAMapNodeID) : bool := (ni_depth a =? ni_depth b) && (ni_nodeID a =? ni_nodeID b).

(** The leaves of the state are not kept in memory. *)
Definition kept (n : Node) : bool := match getType n with tnACCOUNT_STATE | tnCONTRACT_STATE => false | _ => true end.

Definition canonicalizeChild (branch : Z) (node : Node) (parent : InnerNode Node) : Node * InnerNode Node :=
  match getChild parent branch with
  | Some child => (child, parent)
  | None => (node, if kept node then shareChild branch node parent else parent)
  end.

(** The changed child of a node that has it in memory. *)
Definition relink (branch : Z) (child : Node) (parent : InnerNode Node) : InnerNode Node :=
  match getChild parent branch with Some _ => shareChild branch child parent | None => parent end.

Section Sync.

Context `{Hashers}.

(** ** The filters *)

(** [LedgerMaster::getFetchPack]: an entry is used once, and only if it has its hash. *)
Definition getFetchPack_entry (env : SyncEnv) (hash : Z) : option Bytes * SyncEnv :=
  match se_packs env !! hash with
  | Some data =>
      (if hash =? sha512Half data then Some data else None, env {{ se_packs := delete hash (se_packs env) }})
  | None => (None, env)
  end.

Definition AccountStateSF : SyncFilter :=
  mkFilter getFetchPack_entry
    (fun _ hash data _ env => env {{ se_db := <[hash := data]> (se_db env) }}).

Definition TransactionStateSF : SyncFilter :=
  mkFilter getFetchPack_entry
    (fun _ hash data _ env => env {{ se_db := <[hash := data]> (se_db env) }}).

(** A transaction of Ethereum, whose first byte is 0, has no mark.  [readable] says from
    which bytes [makeSTTx] makes a transaction; a failure to make one is caught. *)
Definition ConsensusTransSetSF (readable : Bytes -> bool) : SyncFilter :=
  mkFilter
    (fun env hash =>
       (match se_cache env !! hash with
        | Some data => Some data
        | None =>
            match se_txns env !! hash with
            | Some raw => Some (match raw with 0 :: _ => raw | _ => be_bytes 4 hp_transactionID ++ raw end)
            | None => None
            end
        end, env))
    (fun fromFilter hash data type env =>
       if fromFilter : bool then env
       else
         let env := env {{ se_cache := <[hash := data]> (se_cache env) }} in
         if bool_decide (type = tnTRANSACTION_NM) && (16 <? length data)%nat && readable (drop 4 data)
         then env {{ se_submitted := se_submitted env ++ [drop 4 data] }} else env).

(** ** Nodes from the store or the filter *)

Definition checkFilter (env : SyncEnv) (f : SyncFilter) (hash : Z) : option Node * SyncEnv :=
  match sf_getNode f env hash with
  | (Some data, env) =>
      match makeFromPrefix data hash with
      | Done node => (Some node, sf_gotNode f true hash data (getType node) env)
      | Fault _ => (None, env)
      end
  | (None, env) => (None, env)
  end.

Definition fetchNodeNT_filter (env : SyncEnv) (mp : SHAMap) (f : option SyncFilter) (hash : Z) : option Node * SyncEnv :=
  match fetchNodeNT (se_db env) mp hash with
  | Some node => (Some node, env)
  | None => match f with Some f => checkFilter env f hash | None => (None, env) end
  end.

(** The node of a branch, and its parent with the node hooked to it. *)
Definition descend_filter (env : SyncEnv) (mp : SHAMap) (f : option SyncFilter) (parent : InnerNode Node) (branch : Z)
    : option Node * InnerNode Node * SyncEnv :=
  match getChild parent branch with
  | Some child => (Some child, parent, env)
  | None =>
      match fetchNodeNT_filter env mp f (getChildHash parent branch) with
      | (Some node, env) => let '(child, parent) := canonicalizeChild branch node parent in (Some child, parent, env)
      | (None, env) => (None, parent, env)
      end
  end.

(** ** Adding nodes *)

Definition tell (f : option SyncFilter) (hash : Z) (node : Node) (env : SyncEnv) : SyncEnv :=
  match f with Some f => sf_gotNode f false hash (addRaw node snfPREFIX) (getType node) env | None => env end.

Definition addRootNode (env : SyncEnv) (mp : SHAMap) (f : option SyncFilter) (hash : Z) (rootNode : Bytes)
    : MapRes (SHAMapAddNode * SHAMap * SyncEnv) :=
  if negb (getNodeHash (mp_root mp) =? 0) then Done (duplicate, mp, env)
  else
    makeFromWire rootNode ≫= fun node =>
      match node with
      | None => Done (invalid, mp, env)
      | Some node =>
          if negb (getNodeHash node =? hash) then Done (invalid, mp, env)
          else
            let mp := mp {{ mp_root := node }} in
            let mp := if isLeaf node then mp {{ mp_state := Modifying }} else mp in
            Done (useful, mp, tell f (getNodeHash node) node env)
      end.

(** The node with the given place is looked for from a node downwards.  The result has
    what is answered, whether the map turned out to be invalid, the node with what was
    hooked below it, and what the filter made of it. *)
Fixpoint add_known (fuel : nat) (mp : SHAMap) (f : option SyncFilter) (fb : FullBelow) (newNode : option Node)
    (node : SHAMapNodeID) (env : SyncEnv) (iNode : Node) (iNodeID : SHAMapNodeID)
    : SHAMapAddNode * bool * Node * SyncEnv :=
  match fuel, iNode with
  | S fuel, Inner inner =>
      if fb_node fb iNodeID || negb (ni_depth iNodeID <? ni_depth node) then (duplicate, false, iNode, env)
      else
        let branch := selectBranch iNodeID (ni_nodeID node) in
        if isEmptyBranch inner branch then (invalid, false, iNode, env)
        else
          let childHash := getChildHash inner branch in
          if fb_cache fb childHash then (duplicate, false, iNode, env)
          else
            let '(child, inner, env) := descend_filter env mp f inner branch in
            let childID := getChildNodeID iNodeID branch in
            match child with
            | Some child =>
                let '(r, bad, child, env) := add_known fuel mp f fb newNode node env child childID in
                (r, bad, Inner (relink branch child inner), env)
            | None =>
                match newNode with
                | None => (invalid, false, Inner inner, env)
                | Some newNode =>
                    if negb (childHash =? getNodeHash newNode) then (invalid, false, Inner inner, env)
                    else if negb (isInBounds newNode childID) then (useful, true, Inner inner, env)
                    else if negb (same_id childID node) then (useful, false, Inner inner, env)
                    else
                      let '(newNode, inner) := canonicalizeChild branch newNode inner in
                      (useful, false, Inner inner, tell f childHash newNode env)
                end
            end
  | _, _ => (duplicate, false, iNode, env)
  end.

Definition addKnownNode (env : SyncEnv) (mp : SHAMap) (f : option SyncFilter) (fb : FullBelow) (node : SHAMapNodeID)
    (rawNode : Bytes) : MapRes (SHAMapAddNode * SHAMap * SyncEnv) :=
  if negb (isSynching mp) then Done (duplicate, mp, env)
  else
    makeFromWire rawNode ≫= fun newNode =>
      let '(r, bad, root, env) := add_known (Z.to_nat (ni_depth node)) mp f fb newNode node env (mp_root mp) root_id in
      let mp := mp {{ mp_root := root }} in
      Done (r, if bad : bool then mp {{ mp_state := Invalid }} else mp, env).

(** ** Replies to peers *)

Definition getRootNode (mp : SHAMap) (format : SHANodeFormat) : Bytes := addRaw (mp_root mp) format.

(** The walk towards the place of a node: where it ends, or nothing at an empty branch. *)
Fixpoint walk_to (fuel : nat) (db : NodeStore) (mp : SHAMap) (target : SHAMapNodeID) (node : Node) (nodeID : SHAMapNodeID)
    : MapRes (option (Node * SHAMapNodeID)) :=
  match fuel, node with
  | S fuel, Inner inner =>
      if negb (ni_depth nodeID <? ni_depth target) then Done (Some (node, nodeID))
      else
        let branch := selectBranch nodeID (ni_nodeID target) in
        if isEmptyBranch inner branch then Done None
        else
          descendThrow db mp inner branch ≫= fun child =>
            walk_to fuel db mp target child (getChildNodeID nodeID branch)
  | _, _ => Done (Some (node, nodeID))
  end.

(** What goes into the reply next, and what is still to be worked on. *)
Inductive FatChild := Include (node : Node) (id : SHAMapNodeID) | Later (node : Node) (id : SHAMapNodeID).

Definition fat_child (fatLeaves : bool) (depth bc : Z) (child : Node) (id : SHAMapNodeID) : list FatChild :=
  if isInner child && ((depth >? 1) || (bc =? 1)) then [Later child id]
  else if isInner child || fatLeaves then [Include child id]
  else [].

Fixpoint fat_children (db : NodeStore) (mp : SHAMap) (fatLeaves : bool) (depth : Z) (inner : InnerNode Node)
    (nodeID : SHAMapNodeID) (branches : list Z) : MapRes (list FatChild) :=
  match branches with
  | [] => Done []
  | i :: branches =>
      if isEmptyBranch inner i then fat_children db mp fatLeaves depth inner nodeID branches
      else
        descendThrow db mp inner i ≫= fun child =>
          app (fat_child fatLeaves depth (getBranchCount inner) child (getChildNodeID nodeID i))
            <$> fat_children db mp fatLeaves depth inner nodeID branches
  end.

Definition included (l : list FatChild) : list (SHAMapNodeID * Bytes) :=
  omap (fun e => match e with Include n id => Some (id, addRaw n snfWIRE) | Later _ _ => None end) l.

Definition later (l : list FatChild) : list (Node * SHAMapNodeID) :=
  omap (fun e => match e with Later n id => Some (n, id) | Include _ _ => None end) l.

(** A node and some of its children.  The children still to be worked on are stacked, so
    the last one comes first. *)
Fixpoint fat_node (fuel : nat) (db : NodeStore) (mp : SHAMap) (fatLeaves : bool) (depth : Z) (node : Node) (nodeID : SHAMapNodeID)
    : MapRes (list (SHAMapNodeID * Bytes)) :=
  let own := (nodeID, addRaw node snfWIRE) in
  match fuel, node with
  | S fuel, Inner inner =>
      let bc := getBranchCount inner in
      if (depth >? 0) || (bc =? 1) then
        fat_children db mp fatLeaves depth inner nodeID all_branches ≫= fun l =>
          (fix stacked (l : list (Node * SHAMapNodeID)) : MapRes (list (SHAMapNodeID * Bytes)) :=
             match l with
             | [] => Done []
             | (child, id) :: l =>
                 fat_node fuel db mp fatLeaves (if bc >? 1 then depth - 1 else depth) child id ≫= fun first =>
                   app first <$> stacked l
             end) (rev (later l)) ≫= fun rest =>
            Done (own :: included l ++ rest)
      else Done [own]
  | O, Inner _ => Fault TooDeep
  | _, Leaf _ => Done [own]
  end.

Definition getNodeFat (db : NodeStore) (mp : SHAMap) (wanted : SHAMapNodeID) (fatLeaves : bool) (depth : Z)
    : MapRes (option (list (SHAMapNodeID * Bytes))) :=
  walk_to (Z.to_nat (ni_depth wanted)) db mp wanted (mp_root mp) root_id ≫= fun found =>
    match found with
    | None => Done None
    | Some (node, nodeID) =>
        if negb (same_id wanted nodeID) then Done None
        else if match node with Inner inner => inner_isEmpty inner | Leaf _ => false end then Done None
        else Some <$> fat_node max_depth db mp fatLeaves depth node nodeID
    end.

End Sync.

(** ** Traversals *)

Section Visit.

Context `{Hashers} {A : Type}.

(** *** Every node *)

(** The nodes below an inner node, in the order of the branches. *)
Fixpoint visit_below (fuel : nat) (db : NodeStore) (mp : SHAMap) (f : Node -> A -> bool * A) (inner : InnerNode Node)
    (branches : list Z) (acc : A) : MapRes (bool * A) :=
  (fix go (branches : list Z) (acc : A) : MapRes (bool * A) :=
     match branches with
     | [] => Done (true, acc)
     | pos :: branches =>
         if isEmptyBranch inner pos then go branches acc
         else
           descendThrow db mp inner pos ≫= fun child =>
             let '(goon, acc) := f child acc in
             if negb goon then Done (false, acc)
             else
               match child, fuel with
               | Leaf _, _ => go branches acc
               | Inner child, S fuel =>
                   visit_below fuel db mp f child all_branches acc ≫= fun '(goon, acc) =>
                     if goon : bool then go branches acc else Done (false, acc)
               | Inner _, O => Fault TooDeep
               end
     end) branches acc.

(** What the visitor says of the root is not heeded. *)
Definition visitNodes (db : NodeStore) (mp : SHAMap) (f : Node -> A -> bool * A) (acc : A) : MapRes A :=
  let acc := (f (mp_root mp) acc).2 in
  match mp_root mp with
  | Inner node => snd <$> visit_below max_depth db mp f node all_branches acc
  | Leaf _ => Done acc
  end.

Definition visitLeaves (db : NodeStore) (mp : SHAMap) (leafFunction : SHAMapItem -> A -> A) (acc : A) : MapRes A :=
  visitNodes db mp (fun node acc => (true, match node with Leaf t => leafFunction (tr_item t) acc | Inner _ => acc end)) acc.

(** *** What another map has *)

Definition hasInnerNode (db : NodeStore) (mp : SHAMap) (targetNodeID : SHAMapNodeID) (targetNodeHash : Z) : MapRes bool :=
  walk_to (Z.to_nat (ni_depth targetNodeID)) db mp targetNodeID (mp_root mp) root_id ≫= fun found =>
    Done (match found with
          | Some (node, _) => isInner node && (getNodeHash node =? targetNodeHash)
          | None => false
          end).

(** The walk towards a key until a branch has the hash. *)
Fixpoint leaf_loop (fuel : nat) (db : NodeStore) (mp : SHAMap) (tag hash : Z) (inner : InnerNode Node) (nodeID : SHAMapNodeID)
    : MapRes bool :=
  let branch := selectBranch nodeID tag in
  if isEmptyBranch inner branch then Done false
  else if getChildHash inner branch =? hash then Done true
  else
    descendThrow db mp inner branch ≫= fun child =>
      match child, fuel with
      | Inner child, S fuel => leaf_loop fuel db mp tag hash child (getChildNodeID nodeID branch)
      | Inner _, O => Fault TooDeep
      | Leaf _, _ => Done false
      end.

Definition hasLeafNode (db : NodeStore) (mp : SHAMap) (tag hash : Z) : MapRes bool :=
  match mp_root mp with
  | Leaf t => Done (tr_hash t =? hash)
  | Inner inner => leaf_loop max_depth db mp tag hash inner root_id
  end.

Definition has_inner (db : NodeStore) (have : option SHAMap) (id : SHAMapNodeID) (hash : Z) : MapRes bool :=
  match have with Some mp => hasInnerNode db mp id hash | None => Done false end.

Definition has_leaf (db : NodeStore) (have : option SHAMap) (tag hash : Z) : MapRes bool :=
  match have with Some mp => hasLeafNode db mp tag hash | None => Done false end.

(** *** Differences *)

(** The children of a node: leaves the other map does not have are visited, inner nodes it
    does not have are stacked. *)
Fixpoint diff_children (db : NodeStore) (mp : SHAMap) (have : option SHAMap) (f : Node -> A -> bool * A) (node : InnerNode Node)
    (nodeID : SHAMapNodeID) (branches : list Z) (stack : list (InnerNode Node * SHAMapNodeID)) (acc : A)
    : MapRes (bool * list (InnerNode Node * SHAMapNodeID) * A) :=
  match branches with
  | [] => Done (true, stack, acc)
  | i :: branches =>
      if isEmptyBranch node i then diff_children db mp have f node nodeID branches stack acc
      else
        let childHash := getChildHash node i in
        let childID := getChildNodeID nodeID i in
        descendThrow db mp node i ≫= fun next =>
          match next with
          | Inner inner =>
              has_inner db have childID childHash ≫= fun had =>
                diff_children db mp have f node nodeID branches (if had : bool then stack else (inner, childID) :: stack) acc
          | Leaf t =>
              has_leaf db have (it_key (tr_item t)) childHash ≫= fun had =>
                if had : bool then diff_children db mp have f node nodeID branches stack acc
                else
                  let '(goon, acc) := f next acc in
                  if goon : bool then diff_children db mp have f node nodeID branches stack acc else Done (false, stack, acc)
          end
  end.

(** A node and what is below it, before anything stacked earlier. *)
Fixpoint diff_node (fuel : nat) (db : NodeStore) (mp : SHAMap) (have : option SHAMap) (f : Node -> A -> bool * A)
    (node : InnerNode Node) (nodeID : SHAMapNodeID) (acc : A) : MapRes (bool * A) :=
  match fuel with
  | O => Fault TooDeep
  | S fuel =>
      let '(goon, acc) := f (Inner node) acc in
      if negb goon then Done (false, acc)
      else
        diff_children db mp have f node nodeID all_branches [] acc ≫= fun '(goon, stack, acc) =>
          if negb goon then Done (false, acc)
          else
            (fix pop (stack : list (InnerNode Node * SHAMapNodeID)) (acc : A) : MapRes (bool * A) :=
               match stack with
               | [] => Done (true, acc)
               | (next, id) :: stack =>
                   diff_node fuel db mp have f next id acc ≫= fun '(goon, acc) =>
                     if goon : bool then pop stack acc else Done (false, acc)
               end) stack acc
  end.

Definition visitDifferences (db : NodeStore) (mp : SHAMap) (have : option SHAMap) (f : Node -> A -> bool * A) (acc : A) : MapRes A :=
  if getNodeHash (mp_root mp) =? 0 then Done acc
  else if match have with Some h => getNodeHash (mp_root mp) =? getNodeHash (mp_root h) | None => false end then Done acc
  else
    match mp_root mp with
    | Leaf t =>
        has_leaf db have (it_key (tr_item t)) (tr_hash t) ≫= fun had => Done (if had : bool then acc else (f (mp_root mp) acc).2)
    | Inner node => snd <$> diff_node max_depth db mp have f node root_id acc
    end.

End Visit.

Section FetchPack.

Context `{Hashers}.

(** The nodes of a fetch pack, the last one first, and how many there may still be. *)
Definition pack_node (includeLeaves : bool) (smn : Node) (acc : Z * list (Z * Bytes)) : bool * (Z * list (Z * Bytes)) :=
  if includeLeaves || isInner smn then
    let acc := (acc.1 - 1, (getNodeHash smn, addRaw smn snfPREFIX) :: acc.2) in
    (negb (acc.1 <=? 0), acc)
  else (true, acc).

Definition getFetchPack (db : NodeStore) (mp : SHAMap) (have : option SHAMap) (includeLeaves : bool) (max : Z) : MapRes (list (Z * Bytes)) :=
  (fun acc => rev acc.2) <$> visitDifferences db mp have (pack_node includeLeaves) (max, []).

End FetchPack.
