(* ===== verification/ShaMapPart.v ===== *)
(** * The state tree: nodes that peers send

    What the decoder makes of bytes that come from anywhere, that a node with the hash of
    a place in a tree is the node of that place unless two strings have the same hash, and
    the invariant of a map that is filled by peers: what it has is a part of the tree
    whose root hash it was given. *)

From S2P Require Import Prelude HsTypes ShaMapNode ShaMap ShaMapRep ShaMapProps ShaMapOps ShaMapHash ShaMapInj ShaMapProof ShaMapCodec ShaMapSync.
From coqutil Require Import Datatypes.RecordSetters.
Import DoubleBraceUpdate.

#[local] Open Scope Z_scope.

#[local] Opaque be_bytes.

Section Wire.

Context {HA : Hashers} (Hrange : hash_range).

(** ** Leaves *)

(** An item as the decoder makes it: one that can be in a map, or a transaction of
    Ethereum with anything after its mark. *)
Definition wired (k : Z) (v : Value) : Prop :=
  codable k v \/ exists rest, v = mkValue (0 :: rest) tnTRANSACTION_NM None /\ k = hasher sha3 rest.

Lemma wired_hash k v : wired k v -> value_hash k v = hasher (value_preimage k v).1 (value_preimage k v).2.
Proof. intros [[Hp _]|(rest & -> & ->)]; [by apply value_hash_preimage | done]. Qed.

Lemma preimage_chain k v : proper k v -> chainHashTypeG <> sha3 ->
  (value_preimage k v).1 = sha3 -> exists rest, v_type v = tnTRANSACTION_NM /\ v_data v = 0 :: rest.
Proof.
  intros [_ Hp] Hc. unfold value_preimage. destruct (v_type v); try done.
  - destruct (v_data v) as [|[] data]; try done. by eexists.
  - simpl. by destruct chainHashTypeG.
Qed.

Lemma wired_inj k v k' v' :
  chainHashTypeG <> sha3 -> wired k v -> proper k' v' -> value_preimage k v = value_preimage k' v' -> k = k' /\ v = v'.
Proof.
  intros Hc [[Hp _]|(rest & -> & ->)] Hp' E; [by apply value_preimage_inj|].
  destruct (preimage_chain k' v' Hp' Hc) as (rest' & Ht & Hd); [by rewrite <- E|].
  destruct v' as [data ty root]. simpl in Ht, Hd. subst. destruct Hp' as [_ Hp']. simpl in Hp'.
  destruct Hp' as (-> & Hk & _). cbn in E. injection E as ->. split; [by rewrite Hk | done].
Qed.

Lemma wired_not_inner k v hs : chainHashTypeG <> sha3 -> wired k v -> value_preimage k v <> inner_preimage hs.
Proof. intros Hc [[Hp _]|(rest & -> & ->)]; [by apply value_not_inner|]. intros [= E _]. by symmetry in E. Qed.

(** ** Decoding *)

Lemma be_value_valid l : Forall is_byte l -> (length l <= 32)%nat -> valid_key (be_value l).
Proof.
  intros Hb Hl. pose proof (be_value_bound l Hb) as [H1 H2]. split; [done|]. eapply Z.lt_le_trans; [exact H2|].
  change (2 ^ 256) with (256 ^ 32). apply Z.pow_le_mono_r; lia.
Qed.

Lemma split_tag_inv data d k : Forall is_byte data -> split_tag data = Done (d, k) -> Forall is_byte d /\ valid_key k.
Proof.
  unfold split_tag. intros Hb. case_match; [done|]. intros [= <- <-]. split; [by apply Forall_take|].
  apply be_value_valid; [by apply Forall_drop|]. rewrite length_drop. apply Nat.ltb_ge in H. lia.
Qed.

Lemma hasher_valid t x : valid_key (hasher t x).
Proof. pose proof (Hrange t x). split; lia. Qed.

(** An inner node without children.  Every branch with a hash has its bit; a bit may have
    no hash. *)
Record Loose (i : InnerNode Node) : Prop := {
  lo_length : length (in_hashes i) = 16%nat;
  lo_valid : Forall valid_key (in_hashes i);
  lo_children : in_children i = replicate 16 None;
  lo_bits : forall b, 0 <= b < 16 -> getChildHash i b <> 0 -> isEmptyBranch i b = false
}.

Definition Wire (n : Node) : Prop :=
  match n with
  | Leaf t => wired (leaf_key t) (leaf_value t) /\ tr_hash t = value_hash (leaf_key t) (leaf_value t)
  | Inner i => Loose i /\ in_hash i = own_hash i
  end.

Lemma leaf_Wire item ty root : wired (it_key item) (mkValue (it_data item) ty root) -> Wire (leaf_make item ty root None).
Proof. rewrite leaf_new_make. by destruct item. Qed.

Lemma makeTransaction_Wire raw n : makeTransaction raw None = Done n -> Wire n.
Proof.
  destruct raw as [|b rest]; [done|]. cbn [makeTransaction]. intros [= <-]. apply leaf_Wire. cbn [it_key it_data].
  destruct (Z.eqb_spec b 0) as [->|Hb]; [right; by exists rest|]. left. split; [|done].
  split; [apply hasher_valid|]. simpl. split_and!; [done| |by destruct b].
  unfold value_hash, leaf_hash. simpl. by destruct b.
Qed.

Lemma makeTransactionWithMeta_Wire raw n : Forall is_byte raw -> makeTransactionWithMeta raw None = Done n -> Wire n.
Proof.
  unfold makeTransactionWithMeta. intros Hb. destruct (split_tag raw) as [[d k]|] eqn:E; [|done]. intros [= <-].
  apply split_tag_inv in E as [_ Hk]; [|done]. apply leaf_Wire. by left.
Qed.

Lemma makeAccountState_Wire raw n : Forall is_byte raw -> makeAccountState raw None = Done n -> Wire n.
Proof.
  unfold makeAccountState. intros Hb. destruct (split_tag raw) as [[d k]|] eqn:E; [|done]. rewrite bind_done.
  destruct (Z.eqb_spec k 0); [done|]. intros [= <-]. apply split_tag_inv in E as [_ Hk]; [|done]. apply leaf_Wire. by left.
Qed.

Lemma makeContractState_Wire raw n : Forall is_byte raw -> makeContractState raw None = Done n -> Wire n.
Proof.
  unfold makeContractState. intros Hb. destruct (split_tag raw) as [[d k]|] eqn:E; [|done]. rewrite bind_done.
  destruct (Z.eqb_spec k 0); [done|]. apply split_tag_inv in E as [Hd Hk]; [|done].
  destruct (split_tag d) as [[d' r]|] eqn:E'; [|done]. intros [= <-]. apply split_tag_inv in E' as [_ Hr]; [|done]. apply leaf_Wire. by left.
Qed.

Lemma inner_Wire hs br h s :
  Loose (mkInner hs (replicate 16 None) br h s) -> Wire (Inner (inner_updateHash (mkInner hs (replicate 16 None) br h s)).2).
Proof. intros [H1 H2 H3 H4]. rewrite updateHash_own. by split. Qed.

Lemma full_Loose (hs : list Z) h s :
  length hs = 16%nat -> Forall valid_key hs -> Loose (mkInner hs (replicate 16 None) (branch_bits hs) h s).
Proof.
  intros Hl Hv. split; try done. intros b Hb Hne. unfold isEmptyBranch. cbn [in_isBranch]. apply negb_false_iff.
  unfold branch_bits. apply (branch_bits_spec hs all_branches b).
  - apply Forall_forall. intros x. rewrite all_branches_spec. lia.
  - by rewrite all_branches_spec.
Qed.

Lemma makeFullInner_Wire raw n : Forall is_byte raw -> makeFullInner raw None = Done n -> Wire n.
Proof.
  unfold makeFullInner. intros Hb. destruct (negb _); [done|]. cbv zeta. set (hs := _ <$> all_branches).
  assert (Hl : length hs = 16%nat) by done. enough (Hv : Forall valid_key hs).
  { clearbody hs. intros [= <-]. by apply inner_Wire, full_Loose. }
  apply Forall_fmap, Forall_true. intros b. apply be_value_valid; [by apply Forall_take, Forall_drop|]. rewrite length_take. lia.
Qed.

Lemma compressed_turn_Loose data i j i' :
  Forall is_byte data -> Loose i -> compressed_turn data i j = Done i' -> Loose i'.
Proof.
  intros Hb [H1 H2 H3 H4]. unfold compressed_turn. destruct (data !! (32 + j * 33)%nat) as [pos|] eqn:Ep; [|done].
  assert (0 <= pos) by (rewrite Forall_lookup in Hb; by apply Hb in Ep as []). destruct (Z.geb_spec pos 16); [done|].
  set (h := be_value _). assert (Hh : valid_key h).
  { apply be_value_valid; [by apply Forall_take, Forall_drop|]. rewrite length_take. lia. }
  intros [= <-]. split; simpl; [by rewrite length_insert | by apply Forall_insert | done|].
  intros b Hr. unfold getChildHash, isEmptyBranch. simpl. destruct (decide (b = pos)) as [->|Hne].
  - rewrite list_lookup_insert_eq by lia. simpl. intros Hn. rewrite (proj2 (Z.eqb_neq _ _) Hn), testbit_step, Z.eqb_refl by lia.
    by rewrite orb_true_r.
  - rewrite list_lookup_insert_ne by lia. intros Hn. specialize (H4 b Hr Hn). unfold isEmptyBranch in H4.
    destruct (h =? 0); [done|]. rewrite testbit_step by lia. by destruct (Z.testbit _ _).
Qed.

Lemma compressed_loop_Loose data turns i i' :
  Forall is_byte data -> Loose i -> compressed_loop data i turns = Done i' -> Loose i'.
Proof.
  intros Hb. revert i. induction turns as [|j turns IH]; intros i Hi; cbn [compressed_loop]; [by intros [= <-]|].
  destruct (compressed_turn data i j) as [i1|] eqn:E; [|done]. rewrite bind_done. by eapply IH, compressed_turn_Loose.
Qed.

Lemma makeCompressedInner_Wire raw n : Forall is_byte raw -> makeCompressedInner raw = Done n -> Wire n.
Proof.
  unfold makeCompressedInner. intros Hb. destruct (compressed_loop _ _ _) as [i|] eqn:E; [|done]. rewrite bind_done. intros [= <-].
  apply compressed_loop_Loose in E; [|done|].
  - pose proof (lo_children _ E). destruct i as [hs ch br h s]. simpl in *. subst ch. by apply inner_Wire.
  - split; [done | by repeat constructor | done|]. intros b _. by rewrite inner_new_hash.
Qed.

(** Whatever bytes arrive, a node that is made of them has the hash of its contents. *)
Lemma makeFromWire_Wire raw n : Forall is_byte raw -> makeFromWire raw = Done (Some n) -> Wire n.
Proof.
  intros Hb. unfold makeFromWire. destruct (last raw) as [ty|]; [|done].
  assert (Hr : Forall is_byte (removelast raw)).
  { apply Forall_forall. intros x Hx. rewrite Forall_forall in Hb. apply Hb. destruct raw as [|y raw]; [by apply not_elem_of_nil in Hx|].
    rewrite (app_removelast_last y (l := y :: raw)) by done. apply elem_of_app. by left. }
  assert (Hs : forall r, Some <$> r = Done (Some n) -> r = Done n) by (intros [x|]; [by intros [= ->] | done]).
  intros E. apply Hs in E. clear Hs.
  repeat (destruct (_ =? _) in E;
    [first [by eapply makeTransaction_Wire | by eapply makeAccountState_Wire | by eapply makeFullInner_Wire
           | by eapply makeCompressedInner_Wire | by eapply makeTransactionWithMeta_Wire | by eapply makeContractState_Wire]|]).
  done.
Qed.

End Wire.

(** ** A part of a tree *)

(** A node of which some children are at hand.  The hashes are those of the tree with the
    items [m]; a branch without items may have its bit, and below it there may be an empty
    inner node. *)
Inductive Part `{Hashers} : nat -> Node -> Items -> Prop :=
| Part_leaf d t :
    tr_hash t = value_hash (leaf_key t) (leaf_value t) -> Part d (Leaf t) {[leaf_key t := leaf_value t]}
| Part_empty d n :
    in_isBranch n = 0 -> (forall b, getChild n b = None) -> in_hash n = 0 -> Part d (Inner n) ∅
| Part_inner d n m :
    (d < 64)%nat -> m <> ∅ -> length (in_children n) = 16%nat ->
    (forall b, 0 <= b < 16 -> getChildHash n b = tree_hash (63 - d) (sub d b m)) ->
    (forall b, 0 <= b < 16 -> sub d b m <> ∅ -> isEmptyBranch n b = false) ->
    (0 < d -> 2 <= size m)%nat -> in_hash n = node_hash d m ->
    (forall b c, 0 <= b < 16 -> getChild n b = Some c -> Part (S d) c (sub d b m)) ->
    Part d (Inner n) m.

Section Part.

Context {HA : Hashers} (Hrange : hash_range) (Hchain : chainHashTypeG <> sha3).

(** The tree that is asked for, and the strings that are hashed on the way to it: those
    of them that are hashed like a node of the tree are that node. *)
Context (M : Items) (HMc : map_Forall codable M) (HM0 : M <> ∅).

Lemma target_proper : Proper_items M.
Proof using HMc. intros k v Hk. by destruct (HMc k v Hk). Qed.

Context (P : Preimage -> Prop).

Definition unmistakable : Prop :=
  forall x y, P x -> y ∈ root_preimages M -> hasher x.1 x.2 = hasher y.1 y.2 -> x = y.

Context (HP : unmistakable).

(** ** Places in the tree *)

Definition At (d : nat) (m : Items) : Prop :=
  match d with
  | O => m = M
  | S _ => (d <= 64)%nat /\ within (64 - d) m /\ tree_preimages (64 - d) m ⊆ root_preimages M /\ m ⊆ M
  end.

Lemma root_preimages_M :
  root_preimages M
  = inner_preimage ((fun b => tree_hash 63 (sub 0 b M)) <$> all_branches) :: concat ((fun b => tree_preimages 63 (sub 0 b M)) <$> all_branches).
Proof. unfold root_preimages. by rewrite decide_False. Qed.

Lemma At_sub d b m :
  At d m -> (d < 64)%nat -> (0 < d -> 2 <= size m)%nat -> 0 <= b < 16 -> At (S d) (sub d b m).
Proof.
  intros HA' Hd Hs Hb. destruct d as [|d].
  - simpl in HA'. subst m. split_and!; [lia | apply within_root, target_proper | | apply sub_subseteq]. rewrite root_preimages_M. intros x Hx. right.
    by apply (concat_branch (fun b => tree_preimages 63 (sub 0 b M)) b).
  - destruct HA' as (H1 & H2 & H3 & H4). unfold At. replace (64 - S d)%nat with (S (63 - S d)) in H2, H3 by lia.
    replace (64 - S (S d))%nat with (63 - S d)%nat by lia.
    pose proof (within_sub (63 - S d) b m ltac:(lia) H2) as Hw. replace (63 - (63 - S d))%nat with (S d) in Hw by lia.
    split_and!; [lia | done | | etrans; [apply sub_subseteq | done]]. rewrite tree_preimages_S in H3 by (apply Hs; lia). replace (63 - (63 - S d))%nat with (S d) in H3 by lia. intros x Hx. apply H3. right.
    by apply (concat_branch (fun b => tree_preimages (63 - S d) (sub (S d) b m)) b).
Qed.

Lemma At_proper d m : At d m -> Proper_items m.
Proof. destruct d; [intros ->; apply target_proper | intros (_ & Hw & _); by apply within_proper in Hw]. Qed.

Lemma At_0 d m : At d m -> m = ∅ -> (0 < d)%nat.
Proof. destruct d; [|lia]. by intros -> ->. Qed.

(** What is hashed for the node of a place. *)
Lemma At_cases d m :
  At d m ->
  m = ∅ /\ node_hash d m = 0
  \/ (exists k v, m = {[k := v]} /\ (0 < d)%nat /\ node_hash d m = value_hash k v /\ codable k v /\ value_preimage k v ∈ root_preimages M)
  \/ m <> ∅ /\ (d < 64)%nat /\ (0 < d -> 2 <= size m)%nat
     /\ let hs := (fun b => tree_hash (63 - d) (sub d b m)) <$> all_branches in
        node_hash d m = inner_hash hs /\ inner_preimage hs ∈ root_preimages M.
Proof.
  clear Hrange Hchain HP P. intros Hat. destruct d as [|d].
  - simpl in Hat. rewrite Hat. right. right. split_and!; [done | lia | lia|]. cbv zeta. rewrite root_preimages_M.
    split; [by rewrite node_hash_inner by (done || lia) | left].
  - destruct Hat as (H1 & H2 & H3 & H4). destruct (items_cases m) as [->|[(k & v & ->)|Hs]].
    + left. split; [done|]. apply tree_hash_empty.
    + right. left. exists k, v. rewrite tree_preimages_singleton in H3. unfold node_hash. rewrite tree_hash_singleton. split_and!; try done; [lia| |set_solver].
      apply HMc, (lookup_weaken _ _ _ _ (lookup_singleton_eq k v) H4).
    + right. right. assert (Hm : m <> ∅) by (intros ->; rewrite map_size_empty in Hs; lia).
      assert (Hd : (S d < 64)%nat). { destruct (decide (d = 63)%nat) as [->|]; [|lia]. apply within_0 in H2. lia. }
      split_and!; [done | done | lia|]. cbv zeta. split; [by rewrite node_hash_inner by (done || lia)|]. apply H3.
      replace (64 - S d)%nat with (S (63 - S d)) by lia. rewrite tree_preimages_S by done. replace (63 - (63 - S d))%nat with (S d) by lia. left.
Qed.

Lemma sub_empty_hash d b m : At d m -> (d < 64)%nat -> (0 < d -> 2 <= size m)%nat -> 0 <= b < 16 ->
  tree_hash (63 - d) (sub d b m) = 0 -> sub d b m = ∅.
Proof.
  intros Hat Hd Hs Hb E. pose proof (At_sub d b m Hat Hd Hs Hb) as (_ & Hw & _ & _). replace (64 - S d)%nat with (63 - d)%nat in Hw by lia.
  apply (tree_hash_zero Hrange (63 - d)); [done | lia | done].
Qed.

(** ** Nodes for hashes *)

(** The node is the one of every place that has the hash. *)
Definition Right (h : Z) (n : Node) : Prop := forall d m, At d m -> node_hash d m = h -> Part d n m.

Definition node_preimage (n : Node) : Preimage :=
  match n with Leaf t => value_preimage (leaf_key t) (leaf_value t) | Inner i => inner_preimage (in_hashes i) end.

Lemma getChild_none (n : InnerNode Node) b : in_children n = replicate 16 None -> getChild n b = None.
Proof.
  intros E. unfold getChild. rewrite E. destruct (replicate 16 None !! Z.to_nat b) as [o|] eqn:El; [|done].
  by apply lookup_replicate in El as [-> _].
Qed.

Lemma Loose_Part d i m :
  Loose i -> At d m -> (d < 64)%nat -> m <> ∅ -> (0 < d -> 2 <= size m)%nat ->
  (forall b, 0 <= b < 16 -> getChildHash i b = tree_hash (63 - d) (sub d b m)) -> in_hash i = node_hash d m -> Part d (Inner i) m.
Proof.
  intros Hi Hat Hd Hne0 Hs Hh Ho. apply Part_inner; try done.
  - by rewrite (lo_children _ Hi).
  - intros b Hb Hne. apply (lo_bits _ Hi); [done|]. rewrite Hh by done. intros E. by apply (sub_empty_hash d b m) in E.
  - intros b c _ Hc. by rewrite (getChild_none i b (lo_children _ Hi)) in Hc.
Qed.

Lemma Loose_hashes i : Loose i -> in_hashes i = getChildHash i <$> all_branches.
Proof.
  intros Hi. apply branch_list; [apply Hi|]. intros b Hb. unfold getChildHash.
  destruct (lookup_lt_is_Some_2 (in_hashes i) (Z.to_nat b)) as [h Eh]; [rewrite (lo_length _ Hi); lia|]. by rewrite Eh.
Qed.

Lemma hashes_match i (f : Z -> Z) :
  Loose i -> (forall b, valid_key (f b)) -> inner_preimage (in_hashes i) = inner_preimage (f <$> all_branches) ->
  forall b, 0 <= b < 16 -> getChildHash i b = f b.
Proof.
  intros Hi Hf E. rewrite (Loose_hashes i Hi) in E. apply branches_inj; [|done|done]. intros b. unfold getChildHash.
  destruct (in_hashes i !! Z.to_nat b) as [h|] eqn:El; [|done]. pose proof (lo_valid _ Hi) as Hv. rewrite Forall_lookup in Hv. by apply (Hv _ _ El).
Qed.

Lemma leaf_Right t :
  wired (leaf_key t) (leaf_value t) -> tr_hash t = value_hash (leaf_key t) (leaf_value t) ->
  P (value_preimage (leaf_key t) (leaf_value t)) -> Right (tr_hash t) (Leaf t).
Proof.
  intros Hw Ht Hin d m Hat Hh. rewrite Ht, (wired_hash _ _ Hw) in Hh.
  destruct (At_cases d m Hat) as [[-> H0]|[(k & v & -> & Hd & Hv & [Hp Hc] & Hpre)|(Hne & Hd & Hs & Hi & Hpre)]].
  - pose proof (Hrange (value_preimage (leaf_key t) (leaf_value t)).1 (value_preimage (leaf_key t) (leaf_value t)).2). lia.
  - rewrite Hv, (value_hash_preimage _ _ Hp) in Hh. symmetry in Hh. apply (HP _ _ Hin Hpre) in Hh as E.
    apply (wired_inj _ _ _ _ Hchain Hw Hp) in E as [<- <-]. by constructor.
  - rewrite Hi in Hh. symmetry in Hh. apply (HP _ _ Hin Hpre) in Hh as E. by apply wired_not_inner in E.
Qed.

Lemma inner_Right i : Loose i -> in_hash i = inner_hash (in_hashes i) -> P (inner_preimage (in_hashes i)) -> Right (in_hash i) (Inner i).
Proof.
  intros Hl Ho Hin d m Hat Hh. rewrite Ho in Hh.
  destruct (At_cases d m Hat) as [[-> H0]|[(k & v & -> & Hd & Hv & [Hp Hc] & Hpre)|(Hne & Hd & Hs & Hi & Hpre)]].
  - pose proof (inner_hash_pos Hrange (in_hashes i)). lia.
  - rewrite Hv, (value_hash_preimage _ _ Hp) in Hh. symmetry in Hh. apply (HP _ _ Hin Hpre) in Hh as E'.
    symmetry in E'. by apply value_not_inner in E'.
  - apply (Loose_Part d i m); try done; [|by rewrite Ho]. rewrite Hi in Hh. symmetry in Hh. apply (HP _ _ Hin Hpre) in Hh as E'.
    apply (hashes_match i (fun b => tree_hash (63 - d) (sub d b m)) Hl); [|done]. intros b. by apply tree_hash_valid, sub_proper, (At_proper d).
Qed.

Lemma empty_Right i : Loose i -> in_isBranch i = 0 -> in_hash i = 0 -> Right 0 (Inner i).
Proof.
  intros Hl E Ho d m Hat Hh.
  destruct (At_cases d m Hat) as [[-> H0]|[(k & v & -> & Hd & Hv & [Hp Hc] & Hpre)|(Hne & Hd & Hs & Hi & Hpre)]].
  - apply Part_empty; [done | | done]. intros b. apply getChild_none, Hl.
  - pose proof (value_hash_pos Hrange k v Hp). lia.
  - pose proof (inner_hash_pos Hrange ((fun b => tree_hash (63 - d) (sub d b m)) <$> all_branches)). lia.
Qed.

(** A node that is made of bytes from anywhere is the node of every place with its hash. *)
Lemma Wire_Right n : Wire n -> P (node_preimage n) -> Right (getNodeHash n) n.
Proof.
  intros Hw Hin. destruct n as [t|i]; [by apply leaf_Right; destruct Hw|]. destruct Hw as [Hl Ho]. unfold own_hash in Ho. simpl.
  destruct (Z.eqb_spec (in_isBranch i) 0) as [E|E]; [rewrite Ho; by apply empty_Right | by apply inner_Right].
Qed.

Definition data_Right (h : Z) (data : Bytes) : Prop := forall n, makeFromPrefix data h = Done n -> Right h n.

Lemma hashes_decode hs h :
  length hs = 16%nat -> Forall valid_key hs ->
  makeFromPrefix (be_bytes 4 hp_innerNode ++ concat (be_bytes 32 <$> hs)) h = Done (Inner (mkInner hs (replicate 16 None) (branch_bits hs) h 0)).
Proof.
  intros Hl Hv. set (i := mkInner hs (replicate 16 None) (branch_bits hs) h 0).
  assert (Hp : Plain i).
  { pose proof (full_Loose hs h 0 Hl Hv) as Hlo. split; [done | done | |].
    - intros b Hb. destruct (Z.eqb_spec (getChildHash i b) 0) as [E|E]; [|by apply (lo_bits _ Hlo)].
      unfold isEmptyBranch. apply negb_true_iff, not_true_is_false. cbn [i in_isBranch]. unfold branch_bits. rewrite branch_bits_spec; [by intros []|].
      apply Forall_forall. intros x. rewrite all_branches_spec. lia.
    - intros b Hb. apply not_true_is_false. cbn [i in_isBranch]. unfold branch_bits. rewrite branch_bits_spec, all_branches_spec; [lia|].
      apply Forall_forall. intros x. rewrite all_branches_spec. lia. }
  exact (prefix_round (Inner i) h Hp).
Qed.

(** What a filter is told about such a node decodes to a node that is right as well. *)
Lemma Wire_data n : Wire n -> P (node_preimage n) -> data_Right (getNodeHash n) (addRaw n snfPREFIX).
Proof.
  intros Hw Hin n' Hn'. destruct n as [t|i].
  - destruct Hw as [Hw Ht]. assert (n' = Leaf (mkTreeNode (tr_item t) (tr_type t) (tr_storageRoot t) (tr_hash t) 0)) as ->.
    { destruct Hw as [Hc|(rest & Ev & Ek)]; [rewrite (prefix_round (Leaf t) _ Hc) in Hn'; by injection Hn' as <-|].
      destruct t as [[k data] ty root h s]. injection Ev as -> -> ->. unfold leaf_key in Ek. simpl in Ek. subst k.
      destruct prefix_bytes as (E1 & _). cbn [addRaw leaf_addRaw tr_type tr_item it_data getNodeHash tr_hash] in Hn'. rewrite E1 in Hn'.
      unfold makeFromPrefix in Hn'. simpl in Hn'. by injection Hn' as <-. }
    by apply (leaf_Right (mkTreeNode (tr_item t) (tr_type t) (tr_storageRoot t) (tr_hash t) 0)).
  - destruct Hw as [Hl Ho]. pose proof (lo_length _ Hl) as H1. pose proof (lo_valid _ Hl) as H2.
    cbn [addRaw inner_addRaw] in Hn'. rewrite hashes_decode in Hn' by done. injection Hn' as <-. cbn [getNodeHash].
    pose proof (full_Loose (in_hashes i) (in_hash i) 0 H1 H2) as Hlo. unfold own_hash in Ho. destruct (Z.eqb_spec (in_isBranch i) 0) as [E|E].
    + rewrite Ho in Hlo |- *. apply empty_Right; [done| |done]. cbn [in_isBranch]. apply Z.bits_inj'. intros b Hb. rewrite Z.bits_0.
      apply not_true_is_false. unfold branch_bits. rewrite branch_bits_spec, all_branches_spec.
      * intros [Hr Hne]. apply (lo_bits _ Hl b Hr) in Hne. unfold isEmptyBranch in Hne. by rewrite E, Z.bits_0 in Hne.
      * apply Forall_forall. intros x. rewrite all_branches_spec. lia.
    + by apply (inner_Right (mkInner (in_hashes i) (replicate 16 None) (branch_bits (in_hashes i)) (in_hash i) 0)).
Qed.

(** ** What filters have *)

(** An entry of a fetch pack with its hash. *)
Lemma pack_Right data : P (chainHashTypeG, data) -> data_Right (sha512Half data) data.
Proof.
  intros Hin n Hn d m Hat Hh. unfold sha512Half in *.
  destruct (At_cases d m Hat) as [[-> H0]|[(k & v & -> & Hd & Hv & Hc & Hpre)|(Hne & Hd & Hs & Hi & Hpre)]].
  - pose proof (Hrange chainHashTypeG data). lia.
  - pose proof (proj1 Hc) as Hp. rewrite Hv, (value_hash_preimage _ _ Hp) in Hh. symmetry in Hh. apply (HP (chainHashTypeG, data) _ Hin Hpre) in Hh as E.
    set (t := mkTreeNode (mkItem k (v_data v)) (v_type v) (v_root v) (hasher chainHashTypeG data) 0).
    assert (Ev : leaf_value t = v) by (by destruct v). assert (Ed : data = addRaw (Leaf t) snfPREFIX).
    { unfold value_preimage in E. unfold addRaw, leaf_addRaw. destruct Hp as [_ Hp]. cbn [t tr_type tr_item it_data it_key tr_storageRoot].
      destruct (v_type v); try done; [destruct (v_data v) as [|[] data']; injection E; congruence | injection E; congruence..]. }
    assert (n = decoded (Leaf t) (hasher chainHashTypeG data)) as ->.
    { rewrite Ed in Hn at 1. rewrite prefix_round in Hn; [by injection Hn | change (codable k (leaf_value t)); rewrite Ev; exact Hc]. }
    change (Part d (Leaf t) {[leaf_key t := v]}). rewrite <- Ev. apply (Part_leaf d t). rewrite Ev. change (leaf_key t) with k. cbn [t tr_hash]. by rewrite (value_hash_preimage k v Hp).
  - set (hs := _ <$> all_branches) in *. assert (Hval : Forall valid_key hs).
    { apply Forall_fmap, Forall_true. intros b. by apply tree_hash_valid, sub_proper, (At_proper d). }
    assert (Hlen : length hs = 16%nat) by done. clearbody hs.
    rewrite Hi in Hh. symmetry in Hh. apply (HP (chainHashTypeG, data) _ Hin Hpre) in Hh as E. injection E as ->.
    rewrite hashes_decode in Hn by done. injection Hn as <-.
    eapply (inner_Right (mkInner hs _ _ _ 0)); [by apply full_Loose | done | done | done | done].
Qed.

(** A transaction at hand under its hash. *)
Definition txn_known (h : Z) (raw : Bytes) : Prop :=
  raw <> [] /\ h = leaf_hash tnTRANSACTION_NM (mkItem h raw) None /\ P (value_preimage h (mkValue raw tnTRANSACTION_NM None)).

Lemma txn_Right h raw :
  txn_known h raw -> data_Right h (match raw with 0 :: _ => raw | _ => be_bytes 4 hp_transactionID ++ raw end).
Proof.
  intros (Hne & Hh & Hin) n Hn. set (t := mkTreeNode (mkItem h raw) tnTRANSACTION_NM None h 0).
  assert (n = Leaf t) as ->.
  { destruct prefix_bytes as (E1 & _). rewrite E1 in Hn. unfold leaf_hash in Hh. cbn [it_data] in Hh.
    destruct raw as [|b rest]; [done|]. assert (Eb : makeTransaction (b :: rest) (Some h) = Done n).
    { destruct b; [|unfold makeFromPrefix in Hn; simpl in Hn; exact Hn..]. unfold makeFromPrefix in Hn. destruct (_ <? _)%nat; [done|]. exact Hn. }
    cbn [makeTransaction leaf_make] in Eb. assert (Ek : (if b =? 0 then hasher sha3 rest else sha512Half (be_bytes 4 hp_transactionID ++ b :: rest)) = h) by (rewrite Hh; by destruct b).
    rewrite Ek in Eb. by injection Eb as <-. }
  apply (leaf_Right t); [|done|done]. destruct raw as [|b rest]; [done|].
  destruct (Z.eqb_spec b 0) as [->|Hb]; [right; by exists rest|]. left. split; [|done].
  split; [unfold leaf_key; simpl; rewrite Hh; unfold leaf_hash; simpl; destruct b; by apply hasher_valid|].
  unfold leaf_key, leaf_value. simpl. split_and!; [done | done | by destruct b].
Qed.

Definition store_right (s : gmap Z Bytes) : Prop := forall h data, s !! h = Some data -> data_Right h data.

Record Env_right (env : SyncEnv) : Prop := {
  er_db : store_right (se_db env);
  er_cache : store_right (se_cache env);
  er_packs : forall h data, se_packs env !! h = Some data -> P (chainHashTypeG, data);
  er_txns : forall h raw, se_txns env !! h = Some raw -> txn_known h raw
}.

(** What a filter promises: what it gives is right, as long as what it is told is. *)
Class Lawful (f : SyncFilter) : Prop := {
  lf_get env h o env' :
    Env_right env -> sf_getNode f env h = (o, env') -> Env_right env' /\ forall data, o = Some data -> data_Right h data;
  lf_got env from h data ty : Env_right env -> data_Right h data -> Env_right (sf_gotNode f from h data ty env)
}.

Lemma store_right_insert s h data : store_right s -> data_Right h data -> store_right (<[h := data]> s).
Proof. intros Hs Hd h' data' [[-> ->]|[_ Hl]]%lookup_insert_Some; [done | by apply Hs]. Qed.

Lemma pack_entry env h o env' :
  Env_right env -> getFetchPack_entry env h = (o, env') -> Env_right env' /\ forall data, o = Some data -> data_Right h data.
Proof.
  intros [H1 H2 H3 H4]. unfold getFetchPack_entry. destruct (se_packs env !! h) as [data|] eqn:E; [|by intros [= <- <-]]. intros [= <- <-]. split.
  - split; try done. simpl. unfold constant. intros h' data' [_ Hl]%lookup_delete_Some. by apply (H3 h').
  - intros data'. destruct (Z.eqb_spec h (sha512Half data)) as [->|]; [|done]. intros [= <-]. by apply pack_Right, (H3 _ _ E).
Qed.

#[local] Instance AccountStateSF_lawful : Lawful AccountStateSF.
Proof.
  split; [apply pack_entry|]. intros env from h data ty [H1 H2 H3 H4] Hd. split; try done. by apply store_right_insert.
Qed.

#[local] Instance TransactionStateSF_lawful : Lawful TransactionStateSF.
Proof.
  split; [apply pack_entry|]. intros env from h data ty [H1 H2 H3 H4] Hd. split; try done. by apply store_right_insert.
Qed.

#[local] Instance ConsensusTransSetSF_lawful readable : Lawful (ConsensusTransSetSF readable).
Proof.
  split.
  - intros env h o env' He [= <- <-]. split; [done|]. intros data.
    destruct (se_cache env !! h) as [x|] eqn:Ec; [intros [= <-]; by apply (er_cache _ He)|].
    destruct (se_txns env !! h) as [raw|] eqn:Et; [|done]. intros [= <-]. by apply txn_Right, (er_txns _ He).
  - intros env from h data ty [H1 H2 H3 H4] Hd. simpl. destruct from; [done|].
    destruct (_ && _); split; try done; by apply store_right_insert.
Qed.

End Part.
