(* ===== verification/ShaMapFill.v ===== *)
(** * The state tree: filling a map

    Whatever peers send and filters give, a map keeps being a part of the tree it is
    filled with, and what is looked up in it is in that tree. *)

From S2P Require Import Prelude HsTypes ShaMapNode ShaMap ShaMapRep ShaMapProps ShaMapOps ShaMapHash ShaMapInj ShaMapProof ShaMapCodec ShaMapSync ShaMapPart.
From coqutil Require Import Datatypes.RecordSetters.
Import DoubleBraceUpdate.

#[local] Open Scope Z_scope.

#[local] Opaque be_bytes.

Section Fill.

Context {HA : Hashers} (Hrange : hash_range) (Hchain : chainHashTypeG <> sha3).
Context (M : Items) (HMc : map_Forall codable M) (HM0 : M <> ∅).
Context (P : Preimage -> Prop) (HP : unmistakable M P).

#[local] Notation At := (At M).
#[local] Notation Right := (Right M).
#[local] Notation Env_right := (Env_right M P).

(** ** Inner nodes of a part *)

Lemma Part_share d n m b c :
  Part d (Inner n) m -> m <> ∅ -> 0 <= b < 16 -> Part (S d) c (sub d b m) -> Part d (Inner (shareChild b c n)) m.
Proof.
  intros HPt Hne Hb Hc. inversion HPt as [|d' n' Hi1 Hi2 Hi3|d' n' m' H1 H2 H3 H4 H5 H6 H7 H8]; subst; [done|].
  apply Part_inner; try done; [by simpl; rewrite length_insert|].
  intros b' c' Hb'. rewrite getChild_shareChild by done. case_decide as E; [intros [= <-]; by subst | by apply H8].
Qed.

Lemma Part_getChild d n m b c : Part d (Inner n) m -> 0 <= b < 16 -> getChild n b = Some c -> Part (S d) c (sub d b m).
Proof.
  intros HPt Hb Hc. inversion HPt as [|d' n' Hi1 Hi2 Hi3|d' n' m' H1 H2 H3 H4 H5 H6 H7 H8]; subst; [by rewrite Hi2 in Hc | by apply H8].
Qed.

Lemma Part_children d n m b : Part d (Inner n) m -> isEmptyBranch n b = false ->
  m <> ∅ /\ (d < 64)%nat /\ (0 < d -> 2 <= size m)%nat /\ forall b, 0 <= b < 16 -> getChildHash n b = node_hash (S d) (sub d b m).
Proof.
  intros HPt He. inversion HPt as [|d' n' Hi1 Hi2 Hi3|d' n' m' H1 H2 H3 H4 H5 H6 H7 H8]; subst.
  - unfold isEmptyBranch in He. by rewrite Hi1, Z.bits_0 in He.
  - by split_and!.
Qed.

Lemma Right_child d n m b c :
  At d m -> Part d (Inner n) m -> isEmptyBranch n b = false -> 0 <= b < 16 -> Right (getChildHash n b) c -> Part (S d) c (sub d b m).
Proof.
  intros Hat HPt He Hb HR. destruct (Part_children d n m b HPt He) as (Hne & Hd & Hs & Hh). apply HR; [|by rewrite Hh].
  by apply At_sub.
Qed.

Lemma At_child d n m b : At d m -> Part d (Inner n) m -> isEmptyBranch n b = false -> 0 <= b < 16 -> At (S d) (sub d b m).
Proof. intros Hat HPt He Hb. destruct (Part_children d n m b HPt He) as (Hne & Hd & Hs & _). by apply At_sub. Qed.

Lemma fetch_Right env mp h n : Env_right env -> fetchNodeNT (se_db env) mp h = Some n -> Right h n.
Proof.
  intros He. unfold fetchNodeNT. destruct (mp_backed mp); [|done]. destruct (se_db env !! h) as [data|] eqn:E; [|done].
  destruct (makeFromPrefix data h) as [n'|] eqn:E'; [|done]. intros [= ->]. by eapply (er_db _ _ _ He).
Qed.

(** ** Adding nodes *)

Context (f : option SyncFilter) (Hf : forall f', f = Some f' -> Lawful M P f').

Lemma fetch_filter env mp h o env' :
  Env_right env -> fetchNodeNT_filter env mp f h = (o, env') -> Env_right env' /\ forall n, o = Some n -> Right h n.
Proof.
  intros He. unfold fetchNodeNT_filter. destruct (fetchNodeNT (se_db env) mp h) as [n|] eqn:E.
  { intros [= <- <-]. split; [done|]. intros n' [= <-]. by eapply fetch_Right. }
  destruct f as [f'|]; [|by intros [= <- <-]]. specialize (Hf f' eq_refl). unfold checkFilter.
  destruct (sf_getNode f' env h) as [[data|] env1] eqn:Eg; destruct (lf_get M P _ _ _ _ He Eg) as [He1 Hd];
    [|by intros [= <- <-]].
  specialize (Hd data eq_refl). destruct (makeFromPrefix data h) as [n|] eqn:Em; [|by intros [= <- <-]]. intros [= <- <-].
  split; [by apply lf_got|]. intros n' [= <-]. by apply Hd.
Qed.

Lemma canonicalize_Part d n m b c c' n' :
  Part d (Inner n) m -> m <> ∅ -> 0 <= b < 16 -> Part (S d) c (sub d b m) -> canonicalizeChild b c n = (c', n') ->
  Part d (Inner n') m /\ Part (S d) c' (sub d b m).
Proof.
  unfold canonicalizeChild. intros HPt Hne Hb Hc. destruct (getChild n b) as [x|] eqn:E.
  - intros [= <- <-]. split; [done | by eapply Part_getChild].
  - intros [= <- <-]. split; [|done]. destruct (kept c); [by apply Part_share | done].
Qed.

Lemma descend_Part d n m b env mp o n' env' :
  At d m -> Part d (Inner n) m -> isEmptyBranch n b = false -> 0 <= b < 16 -> Env_right env ->
  descend_filter env mp f n b = (o, n', env') ->
  Env_right env' /\ Part d (Inner n') m /\ (forall c, o = Some c -> Part (S d) c (sub d b m))
  /\ (o = None -> n' = n /\ getChild n b = None).
Proof.
  intros Hat HPt He Hb Henv. unfold descend_filter. destruct (Part_children d n m b HPt He) as (Hne & _ & _ & _).
  destruct (getChild n b) as [c|] eqn:E.
  { intros [= <- <- <-]. split_and!; [done | done | | done]. intros c' [= <-]. by eapply Part_getChild. }
  destruct (fetchNodeNT_filter env mp f (getChildHash n b)) as [[c|] env1] eqn:Ef; apply fetch_filter in Ef as [He1 HR]; [|done| |done].
  - specialize (HR c eq_refl). pose proof (Right_child d n m b c Hat HPt He Hb HR) as Hc.
    destruct (canonicalizeChild b c n) as [c' n1] eqn:Ec. apply (canonicalize_Part d n m b c) in Ec as [H1 H2]; try done.
    intros [= <- <- <-]. split_and!; [done | done | | done]. by intros c'' [= <-].
  - by intros [= <- <- <-].
Qed.

Lemma relink_Part d n m b c :
  Part d (Inner n) m -> m <> ∅ -> 0 <= b < 16 -> Part (S d) c (sub d b m) -> Part d (Inner (relink b c n)) m.
Proof. unfold relink. intros. destruct (getChild n b); [by apply Part_share | done]. Qed.

(** A node that has come from a peer. *)
Definition Arrived (n : Node) : Prop := Wire n /\ P (node_preimage n).

Lemma tell_right env h n : Env_right env -> Arrived n -> h = getNodeHash n -> Env_right (tell f h n env).
Proof.
  intros He [Hw Hin] ->. unfold tell. destruct f as [f'|]; [|done]. specialize (Hf f' eq_refl). apply lf_got; [done | done|].
  by apply (Wire_data Hrange Hchain M HMc HM0 P HP).
Qed.

Lemma add_known_Part fuel mp fb nn target d n m id env r bad n' env' :
  At d m -> Part d n m -> ni_depth id = Z.of_nat d -> Env_right env -> (forall x, nn = Some x -> Arrived x) ->
  add_known fuel mp f fb nn target env n id = (r, bad, n', env') -> Part d n' m /\ Env_right env'.
Proof.
  intros Hat HPt Hid He Hnn. revert d n m id env r bad n' env' Hat HPt Hid He.
  induction fuel as [|fuel IH]; intros d n m id env r bad n' env' Hat HPt Hid He; cbn [add_known]; [by intros [= <- <- <- <-]|].
  destruct n as [t|n]; [by intros [= <- <- <- <-]|]. destruct (_ || _); [by intros [= <- <- <- <-]|].
  destruct (isEmptyBranch n _) eqn:Eb; [by intros [= <- <- <- <-]|]. destruct (Part_children d n m _ HPt Eb) as (Hne & Hd & Hs & Hh).
  rewrite (selectBranch_nibble id _ d) in * by done. pose proof (nibble_range d (ni_nodeID target)) as Hb. set (b := nibble d _) in *.
  destruct (fb_cache _ _); [by intros [= <- <- <- <-]|].
  destruct (descend_filter env mp f n b) as [[o n1] env1] eqn:Ed. apply (descend_Part d n m b) in Ed as (He1 & HP1 & Hc & Hnone); try done.
  destruct o as [c|].
  - destruct (add_known fuel mp f fb nn target env1 c _) as [[[r1 bad1] c1] env2] eqn:Ea.
    apply (IH (S d) c (sub d b m)) in Ea as [HPc He2]; [|by apply (At_child d n) | by apply Hc | by apply child_depth | done].
    intros [= <- <- <- <-]. split; [by apply relink_Part | done].
  - destruct nn as [x|]; [|by intros [= <- <- <- <-]]. specialize (Hnn x eq_refl). destruct (Z.eqb_spec (getChildHash n b) (getNodeHash x)) as [Ex|];
      [|by intros [= <- <- <- <-]]. simpl. destruct (negb _); [by intros [= <- <- <- <-]|]. destruct (negb _); [by intros [= <- <- <- <-]|].
    assert (Hx : Part (S d) x (sub d b m)).
    { destruct Hnn as [Hw Hin]. apply (Right_child d n m b); try done. rewrite Ex. by apply (Wire_Right Hrange Hchain M HMc HM0 P HP). }
    destruct (Hnone eq_refl) as [-> Hg]. unfold canonicalizeChild. rewrite Hg. intros [= <- <- <- <-].
    split; [|by apply tell_right]. destruct (kept x); [by apply Part_share | done].
Qed.

Lemma addKnownNode_Part env mp fb id raw r mp' env' :
  Part 0 (mp_root mp) M -> Env_right env -> Forall is_byte raw -> (forall n, makeFromWire raw = Done (Some n) -> P (node_preimage n)) ->
  addKnownNode env mp f fb id raw = Done (r, mp', env') -> Part 0 (mp_root mp') M /\ Env_right env'.
Proof.
  intros HPt He Hb Hin. unfold addKnownNode. destruct (negb _); [by intros [= <- <- <-]|].
  destruct (makeFromWire raw) as [nn|] eqn:En; [|done]. rewrite bind_done.
  destruct (add_known _ _ _ _ _ _ _ _ _) as [[[r1 bad] n1] env1] eqn:Ea. apply (add_known_Part _ _ _ _ _ 0 _ M) in Ea as [H1 H2]; try done.
  - intros [= <- <- <-]. split; [by destruct bad | done].
  - intros x ->. split; [by eapply makeFromWire_Wire | by apply Hin].
Qed.

Lemma addRootNode_Part env mp raw r mp' env' :
  getNodeHash (mp_root mp) = 0 -> Env_right env -> Forall is_byte raw -> (forall n, makeFromWire raw = Done (Some n) -> P (node_preimage n)) ->
  addRootNode env mp f (root_hash M) raw = Done (r, mp', env') ->
  Env_right env' /\ (mp' = mp \/ Part 0 (mp_root mp') M).
Proof.
  intros H0 He Hb Hin. unfold addRootNode. rewrite H0. simpl. destruct (makeFromWire raw) as [[n|]|] eqn:En; [| |done]; rewrite bind_done.
  - destruct (Z.eqb_spec (getNodeHash n) (root_hash M)) as [Eh|]; simpl; [|intros [= <- <- <-]; split; [done | by left]].
    assert (Ha : Arrived n) by (split; [by eapply makeFromWire_Wire | by apply Hin]).
    intros [= <- <- <-]. split; [by apply tell_right|]. right. destruct (isLeaf n); simpl; unfold constant;
      by apply (Wire_Right Hrange Hchain M HMc HM0 P HP n (proj1 Ha) (proj2 Ha)).
  - intros [= <- <- <-]. split; [done | by left].
Qed.

(** ** Lookup *)

Lemma Part_root_pos n : Part 0 n M -> 0 < getNodeHash n.
Proof.
  clear Hf f HP P. intros HPt. inversion HPt as [d t Ht E1 E2|d n' Hi1 Hi2 Hi3|d n' m' H1 H2 H3 H4 H5 H6 H7 H8]; subst; simpl; [|done|].
  - rewrite Ht. apply value_hash_pos; [done|]. destruct (HMc (leaf_key t) (leaf_value t)) as [Hp _]; [|done]. by rewrite lookup_singleton_eq.
  - rewrite H7, node_hash_inner by (done || lia). by apply inner_hash_pos.
Qed.

Lemma walk_Part fuel env mp k d n m id stack r st :
  Env_right env -> At d m -> Part d n m -> ni_depth id = Z.of_nat d -> walk fuel (se_db env) mp k n id stack = Done (r, st) ->
  match r with
  | Some t => m !! k = if it_key (tr_item t) =? k then Some (leaf_value t) else None
  | None => m !! k = None
  end.
Proof.
  intros He. revert d n m id stack. induction fuel as [|fuel IH]; intros d n m id stack Hat HPt Hid.
  all: destruct n as [t|n]; cbn [walk].
  1, 3: intros [= <- <-]; inversion HPt; subst; fold (leaf_key t); destruct (Z.eqb_spec (leaf_key t) k) as [<-|];
    [by rewrite lookup_singleton_eq | by rewrite lookup_singleton_ne].
  1: done.
  destruct (isEmptyBranch n (selectBranch id k)) eqn:Eb.
  - intros [= <- <-]. inversion HPt as [|d' n' Hi1 Hi2 Hi3|d' n' m' H1 H2 H3 H4 H5 H6 H7 H8]; subst; [done|].
    rewrite (selectBranch_nibble id k d) in Eb by done. rewrite <- (sub_own d). destruct (decide (sub d (nibble d k) m = ∅)) as [->|Hn]; [done|].
    rewrite H5 in Eb; [done | apply nibble_range | done].
  - destruct (Part_children d n m _ HPt Eb) as (Hne & Hd & Hs & Hh). rewrite (selectBranch_nibble id k d) in * by done.
    pose proof (nibble_range d k) as Hb. unfold descendThrow. destruct (descend (se_db env) mp n (nibble d k)) as [c|] eqn:Ec; [|done].
    rewrite bind_done. intros Hw. apply (IH (S d) c (sub d (nibble d k) m)) in Hw; [by rewrite sub_own in Hw | by apply (At_child d n) | |by apply child_depth].
    unfold descend in Ec. destruct (getChild n (nibble d k)) as [c'|] eqn:Eg; [injection Ec as ->; by eapply Part_getChild|].
    apply fetch_Right in Ec; [|done]. by apply (Right_child d n).
Qed.

Lemma findKey_Part env mp k r :
  Env_right env -> Part 0 (mp_root mp) M -> findKey (se_db env) mp k = Done r ->
  match r with Some t => leaf_key t = k /\ M !! k = Some (leaf_value t) | None => M !! k = None end.
Proof.
  intros He HPt. unfold findKey, walkTowardsKey. generalize max_depth. intros fuel. destruct (walk _ _ _ _ _ _ _) as [[o st]|] eqn:Ew; [|done].
  rewrite bind_done. apply (walk_Part fuel env mp k 0 _ M) in Ew; try done. intros [= <-].
  destruct o as [t|]; [|done]. unfold leaf_key. destruct (Z.eqb_spec (it_key (tr_item t)) k); done.
Qed.

End Fill.

(** ** Messages *)

(** What a peer sends: a root, or a node for a place, with what is marked as complete at
    the time. *)
Inductive PeerNode := RootNode (raw : Bytes) | KnownNode (fb : FullBelow) (id : SHAMapNodeID) (raw : Bytes).

Definition raw_of (p : PeerNode) : Bytes := match p with RootNode raw => raw | KnownNode _ _ raw => raw end.

Section Messages.

Context {HA : Hashers}.

Definition add_peer_node (f : option SyncFilter) (hash : Z) (p : PeerNode) (env : SyncEnv) (mp : SHAMap) : MapRes (SHAMapAddNode * SHAMap * SyncEnv) :=
  match p with
  | RootNode raw => addRootNode env mp f hash raw
  | KnownNode fb id raw => addKnownNode env mp f fb id raw
  end.

(** An exception leaves everything as it was. *)
Definition take_node (f : option SyncFilter) (hash : Z) (s : SHAMap * SyncEnv) (p : PeerNode) : SHAMap * SyncEnv :=
  match add_peer_node f hash p s.2 s.1 with Done (_, mp, env) => (mp, env) | Fault _ => s end.

Definition take_nodes (f : option SyncFilter) (hash : Z) (s : SHAMap * SyncEnv) (ps : list PeerNode) : SHAMap * SyncEnv :=
  fold_left (take_node f hash) ps s.

(** A store under whose hashes there are nodes with these hashes. *)
Definition known_store (P : Preimage -> Prop) (s : gmap Z Bytes) : Prop :=
  forall h data, s !! h = Some data -> exists n, Wire n /\ P (node_preimage n) /\ data = addRaw n snfPREFIX /\ h = getNodeHash n.

Record known_env (P : Preimage -> Prop) (env : SyncEnv) : Prop := {
  ke_db : known_store P (se_db env);
  ke_cache : known_store P (se_cache env);
  ke_packs : forall h data, se_packs env !! h = Some data -> P (chainHashTypeG, data);
  ke_txns : forall h raw, se_txns env !! h = Some raw -> txn_known P h raw
}.

Definition known_node (P : Preimage -> Prop) (p : PeerNode) : Prop :=
  Forall is_byte (raw_of p) /\ forall n, makeFromWire (raw_of p) = Done (Some n) -> P (node_preimage n).

Context (Hrange : hash_range) (Hchain : chainHashTypeG <> sha3).
Context (M : Items) (HMc : map_Forall codable M) (HM0 : M <> ∅).
Context (P : Preimage -> Prop) (HP : unmistakable M P).

Lemma known_store_right s : known_store P s -> store_right M s.
Proof. intros Hs h data Hl. destruct (Hs h data Hl) as (n & Hw & Hin & -> & ->). by apply (Wire_data Hrange Hchain M HMc HM0 P HP). Qed.

Lemma known_env_right env : known_env P env -> Env_right M P env.
Proof. intros [H1 H2 H3 H4]. split; [by apply known_store_right.. | done | done]. Qed.

(** A map that is being filled. *)
Definition Filling (s : SHAMap * SyncEnv) : Prop :=
  Env_right M P s.2 /\ ((exists q, mp_root s.1 = Inner (inner_new q)) \/ Part 0 (mp_root s.1) M).

Context (f : option SyncFilter) (Hf : forall f', f = Some f' -> Lawful M P f').

Lemma add_known_new fuel mp fb nn id env q iid :
  exists r, add_known fuel mp f fb nn id env (Inner (inner_new q)) iid = (r, false, Inner (inner_new q), env).
Proof.
  destruct fuel as [|fuel]; cbn [add_known]; [by eexists|]. destruct (_ || _); [by eexists|]. unfold isEmptyBranch. simpl. rewrite Z.bits_0. by eexists.
Qed.

Lemma take_node_filling s p : Filling s -> known_node P p -> Filling (take_node f (root_hash M) s p).
Proof.
  destruct s as [mp env]. intros [He Hr] [Hb Hin]. unfold take_node, add_peer_node. cbn [fst snd] in *. destruct p as [raw|fb id raw]; simpl in Hb, Hin.
  - destruct (addRootNode env mp f (root_hash M) raw) as [[[r mp'] env']|] eqn:Ea; [|done]. destruct Hr as [[q Hr]|Hr].
    + apply (addRootNode_Part Hrange Hchain M HMc HM0 P HP f Hf) in Ea as [He' [->|Hp]]; [| | by rewrite Hr | done..].
      * split; [done|]. left. by exists q.
      * split; [done | by right].
    + unfold addRootNode in Ea. assert (0 < getNodeHash (mp_root mp)) by (by eapply Part_root_pos). rewrite (proj2 (Z.eqb_neq _ _)) in Ea by lia.
      injection Ea as <- <- <-. split; [done | by right].
  - destruct (addKnownNode env mp f fb id raw) as [[[r mp'] env']|] eqn:Ea; [|done]. destruct Hr as [[q Hr]|Hr].
    + unfold addKnownNode in Ea. destruct (negb _); [injection Ea as <- <- <-; split; [done | left; by exists q]|].
      destruct (makeFromWire raw) as [nn|]; [|done]. rewrite bind_done, Hr in Ea.
      destruct (add_known_new (Z.to_nat (ni_depth id)) mp fb nn id env q root_id) as [r' Er]. rewrite Er in Ea. injection Ea as <- <- <-.
      split; [done|]. left. by exists q.
    + apply (addKnownNode_Part Hrange Hchain M HMc HM0 P HP f Hf) in Ea as [H1 H2]; [|done..]. split; [done | by right].
Qed.

Lemma take_nodes_filling s ps : Filling s -> Forall (known_node P) ps -> Filling (take_nodes f (root_hash M) s ps).
Proof.
  unfold take_nodes. intros Hs Hps. revert s Hs. induction Hps as [|p ps Hp Hps IH]; intros s Hs; [done|]. simpl. by apply IH, take_node_filling.
Qed.

End Messages.
