(* ===== verification/ShaMapReply.v ===== *)
(** * The state tree: replies to peers

    A peer that has a tree answers a request for a place in it with the node of the place,
    and what it sends decodes to that node.  A fetch pack has every node of a tree that the
    map of the receiver does not have.  The leaves of a map are visited in the order of
    their keys. *)

From stdpp Require Import sorting.
From S2P Require Import Prelude HsTypes ShaMapNode ShaMap ShaMapRep ShaMapProps ShaMapOps ShaMapHash ShaMapInj ShaMapProof ShaMapCodec ShaMapStore ShaMapSync ShaMapPart.

#[local] Open Scope Z_scope.

#[local] Opaque be_bytes.

(** ** Places *)

(** The place at depth [d] whose path has the value [p]. *)
Definition id_at (d : nat) (p : Z) : SHAMapNodeID := mkNodeID (p * 16 ^ (64 - Z.of_nat d)) (Z.of_nat d).

Lemma lor_low x b : 0 <= b < 16 -> Z.lor (16 * x) b = 16 * x + b.
Proof.
  intros Hb. pose proof (Z.add_lor_land (16 * x) b) as E. enough (Z.land (16 * x) b = 0) by lia. clear E. apply Z.bits_inj'. intros i Hi.
  rewrite Z.land_spec, Z.bits_0. replace (16 * x) with (Z.shiftl x 4) by (rewrite Z.shiftl_mul_pow2 by lia; lia).
  destruct (Z.lt_ge_cases i 4); [by rewrite Z.shiftl_spec_low|]. rewrite (Z.bits_above_log2 b i), andb_false_r; [done | lia|].
  destruct (Z.eq_dec b 0) as [->|]; [simpl; lia|]. apply Z.log2_lt_pow2; [lia|].
  assert (2 ^ 4 <= 2 ^ i) by (apply Z.pow_le_mono_r; lia). lia.
Qed.

Lemma child_id d p b : (d < 64)%nat -> 0 <= b < 16 -> getChildNodeID (id_at d p) b = id_at (S d) (16 * p + b).
Proof.
  intros Hd Hb. unfold getChildNodeID, id_at. cbn [ni_depth ni_nodeID]. f_equal; [|lia].
  assert (Eb : Z.shiftl (if Z.odd (Z.of_nat d) then b else Z.shiftl b 4) (8 * (31 - Z.of_nat d / 2)) = Z.shiftl b (4 * (63 - Z.of_nat d))).
  { rewrite Zodd_mod. pose proof (Z.div_mod (Z.of_nat d) 2 ltac:(lia)). pose proof (Z.mod_pos_bound (Z.of_nat d) 2 ltac:(lia)).
    destruct (Z.eq_dec (Z.of_nat d mod 2) 1) as [E|E].
    - rewrite E. simpl Zeq_bool. cbv iota. f_equal. lia.
    - replace (Z.of_nat d mod 2) with 0 by lia. simpl Zeq_bool. cbv iota. rewrite Z.shiftl_shiftl by lia. f_equal. lia. }
  rewrite Eb. replace (p * 16 ^ (64 - Z.of_nat d)) with (Z.shiftl (16 * p) (4 * (63 - Z.of_nat d))).
  - rewrite <- Z.shiftl_lor, lor_low, Z.shiftl_mul_pow2 by lia. replace (64 - Z.of_nat (S d)) with (63 - Z.of_nat d) by lia.
    by rewrite Z.pow_mul_r by lia.
  - rewrite Z.shiftl_mul_pow2, Z.pow_mul_r by lia. change (2 ^ 4) with 16. replace (64 - Z.of_nat d) with (63 - Z.of_nat d + 1) by lia.
    rewrite Z.pow_add_r by lia. lia.
Qed.

(** A place below another one, in the tree with the items [m]. *)
Inductive Below : nat -> Z -> Items -> nat -> Z -> Items -> Prop :=
| Below_here d p m : Below d p m d p m
| Below_step d p m b d' p' m' :
    (d < 64)%nat -> 0 <= b < 16 -> (0 < d -> 2 <= size m)%nat -> sub d b m <> ∅ ->
    Below (S d) (16 * p + b) (sub d b m) d' p' m' -> Below d p m d' p' m'.

Lemma Below_path d p m d' p' m' : Below d p m d' p' m' -> (d <= d')%nat /\ p = p' / 16 ^ (Z.of_nat d' - Z.of_nat d).
Proof.
  induction 1 as [d p m|d p m b d' p' m' Hd Hb Hs Hne HB [IH1 IH2]].
  - split; [lia|]. rewrite Z.sub_diag. by rewrite Z.div_1_r.
  - split; [lia|]. replace (Z.of_nat d' - Z.of_nat d) with (Z.of_nat d' - Z.of_nat (S d) + 1) by lia.
    rewrite Z.pow_add_r, <- Z.div_div, <- IH2 by lia. rewrite Z.pow_1_r, Z.add_comm, Z.mul_comm, Z.div_add by lia. by rewrite Z.div_small.
Qed.

Lemma Below_depth d p m d' p' m' : Below d p m d' p' m' -> (d <= 64 -> d' <= 64)%nat.
Proof. induction 1; lia. Qed.

Lemma Below_branch d p b m d' p' m' :
  Below (S d) (16 * p + b) m d' p' m' -> (d < 64)%nat -> 0 <= b < 16 -> selectBranch (id_at d p) (ni_nodeID (id_at d' p')) = b.
Proof.
  intros HB Hd Hb. rewrite (selectBranch_nibble _ _ d) by done. destruct (Below_path _ _ _ _ _ _ HB) as [H1 H2].
  pose proof (Below_depth _ _ _ _ _ _ HB ltac:(lia)) as H3. unfold nibble, id_at. cbn [ni_nodeID].
  replace (63 - Z.of_nat d) with ((64 - Z.of_nat d') + (Z.of_nat d' - Z.of_nat (S d))) by lia.
  rewrite Z.pow_add_r, <- Z.div_div, Z.div_mul by lia. rewrite <- H2, Z.add_comm, Z.mul_comm, Z.mod_add by lia. by apply Z.mod_small.
Qed.

Lemma Below_sub_items d p m d' p' m' : Below d p m d' p' m' -> m' ⊆ m.
Proof. induction 1 as [|d p m b d' p' m' Hd Hb Hs Hne HB IH]; [done|]. etrans; [exact IH | apply sub_subseteq]. Qed.

Lemma same_id_refl id : same_id id id = true.
Proof. unfold same_id. by rewrite !Z.eqb_refl. Qed.

Section Reply.

Context {HA : Hashers} (Hrange : hash_range).

Context (db : NodeStore) (mp : SHAMap).

#[local] Notation fetch := (fetchNodeNT db mp).

(** ** Nodes that are shared *)

Lemma Rep_child_shared d p n m b c : Rep fetch d p (Inner n) m -> in_seq n = 0 -> resolve fetch n b = Some c -> getSeq c = 0.
Proof.
  intros HR Hs. unfold resolve. destruct (getChild n b) as [x|] eqn:E; [|apply fetchNodeNT_seq].
  intros [= <-]. by eapply (fd_shared _ _ _ _ _ (proj1 (Rep_open _ _ _ _ _ HR))).
Qed.

Lemma Rep_shared_hash d p n m : Rep fetch d p (Inner n) m -> in_seq n = 0 -> in_hash n = node_hash d m.
Proof. intros HR Hs. by destruct (fd_own _ _ _ _ _ (proj1 (Rep_open _ _ _ _ _ HR))) as [|[_ ?]]. Qed.

Lemma Rep_plain d p n m : Rep fetch d p (Inner n) m -> in_seq n = 0 -> Proper_items m -> m <> ∅ -> Plain n.
Proof.
  intros HR Hs Hp Hne. pose proof (Rep_shared_hash _ _ _ _ HR Hs) as Hh. pose proof (Rep_open _ _ _ _ _ HR) as [HF _].
  pose proof (fun b Hb => proj1 (hashed_child Hrange d p db mp n m b HR Hh Hp Hne Hb)) as Hch. pose proof (fd_depth _ _ _ _ _ HF) as Hd.
  split; [apply HF | | | apply HF].
  - apply Forall_lookup. intros i x Hx. pose proof (lookup_lt_Some _ _ _ Hx) as Hi. rewrite (fd_hashes _ _ _ _ _ HF) in Hi.
    specialize (Hch (Z.of_nat i) ltac:(lia)). unfold getChildHash in Hch. rewrite Nat2Z.id, Hx in Hch. simpl in Hch. rewrite Hch. by apply tree_hash_valid, sub_proper.
  - intros b Hb. rewrite (fd_empty _ _ _ _ _ HF) by done. rewrite Hch by done. apply eq_true_iff_eq. rewrite bool_decide_eq_true, Z.eqb_eq.
    split; [intros ->; apply tree_hash_empty|]. apply (tree_hash_zero Hrange); [by eapply Rep_within | lia].
Qed.

(** A node as it is sent. *)
Lemma Rep_sent d p n m :
  Rep fetch d p n m -> getSeq n = 0 -> map_Forall codable m -> m <> ∅ -> (d = 0%nat -> isInner n = true) ->
  Codable n /\ recomputed n = node_hash d m /\ makeFromWire (addRaw n snfWIRE) = Done (Some (decoded n (node_hash d m))).
Proof.
  intros HR Hs Hc Hne Hi. assert (Hp : Proper_items m) by (intros k v Hk; by destruct (Hc k v Hk)).
  assert (Hcd : Codable n).
  { destruct n as [t|n]; [|by eapply Rep_plain]. pose proof (Rep_leaf_inv _ _ _ _ _ HR) as (-> & _). apply Hc. by rewrite lookup_singleton_eq. }
  assert (Hr : recomputed n = node_hash d m); [|split_and!; [done | done|]; by rewrite wire_round, Hr].
  destruct n as [t|n].
  - pose proof (Rep_leaf_inv _ _ _ _ _ HR) as (-> & _ & _ & Hh & _). destruct d; [by specialize (Hi eq_refl)|]. unfold node_hash. by rewrite tree_hash_singleton.
  - pose proof (Rep_open _ _ _ _ _ HR) as [HF _]. pose proof (fd_depth _ _ _ _ _ HF) as Hd. simpl. unfold own_hash.
    pose proof (Rep_shared_hash _ _ _ _ HR Hs) as Hh.
    assert (Hsz : (0 < d -> 2 <= size m)%nat) by (by inversion HR). rewrite node_hash_inner by (done || lia).
    destruct (Z.eqb_spec (in_isBranch n) 0) as [E|E].
    + exfalso. apply map_choose in Hne as (k & v & Hk). pose proof (fd_empty _ _ _ _ _ HF (nibble d k) (nibble_range d k)) as He.
      unfold isEmptyBranch in He. rewrite E, Z.bits_0 in He. simpl in He. symmetry in He. apply bool_decide_eq_true in He. by eapply sub_nonempty.
    + f_equal. rewrite (Plain_hashes n Hcd). apply list_fmap_ext. intros i b Hb.
      apply (hashed_child Hrange d p db mp n m b HR Hh Hp Hne), all_branches_spec. by eapply list_elem_of_lookup_2.
Qed.

(** ** Replies *)

Lemma walk_to_spec d p m d' p' m' n :
  Below d p m d' p' m' -> Rep fetch d p n m -> getSeq n = 0 -> (d = 0%nat -> isInner n = true) ->
  exists n', walk_to (d' - d) db mp (id_at d' p') n (id_at d p) = Done (Some (n', id_at d' p'))
    /\ Rep fetch d' p' n' m' /\ getSeq n' = 0 /\ (d' = 0%nat -> isInner n' = true).
Proof.
  intros HB. revert n. induction HB as [d p m|d p m b d' p' m' Hd Hb Hs Hne HB IH]; intros n HR Hn Hi.
  { exists n. rewrite Nat.sub_diag. by destruct n. }
  destruct n as [t|n].
  { pose proof (Rep_leaf_inv _ _ _ _ _ HR) as (-> & _). destruct d; [by specialize (Hi eq_refl)|]. rewrite map_size_singleton in Hs. lia. }
  pose proof (Rep_open _ _ _ _ _ HR) as HO. destruct (Open_child _ _ _ _ _ _ HO Hb Hne) as (c & Hc & HRc).
  destruct (IH c HRc) as (n' & Hw & Hrest); [by eapply Rep_child_shared | lia|]. exists n'. split; [|done].
  destruct (Below_path _ _ _ _ _ _ HB) as [Hle _]. replace (d' - d)%nat with (S (d' - S d)) by lia. cbn [walk_to id_at ni_depth].
  rewrite (proj2 (Z.ltb_lt _ _)) by lia. cbn [negb]. fold (id_at d p). fold (id_at d' p'). rewrite (Below_branch d p b _ d' p' m' HB Hd Hb).
  destruct (isEmptyBranch n b) eqn:He; [by apply (Open_isEmpty _ _ _ _ _ _ HO Hb) in He|].
  rewrite (descendThrow_resolve _ _ _ _ _ Hc), bind_done, child_id by done. exact Hw.
Qed.

(** What is sent is a node of the tree. *)
Definition Sent (d : nat) (p : Z) (m : Items) (n : Node) : Prop :=
  exists d' p' m', Below d p m d' p' m' /\ m' <> ∅ /\ Rep fetch d' p' n m' /\ getSeq n = 0 /\ (d' = 0%nat -> isInner n = true).

Definition Entry (d : nat) (p : Z) (m : Items) (e : SHAMapNodeID * Bytes) : Prop := exists n, e.2 = addRaw n snfWIRE /\ Sent d p m n.

(** The children of a node. *)
Definition Child (d : nat) (p : Z) (m : Items) (c : Node) : Prop :=
  exists b, 0 <= b < 16 /\ sub d b m <> ∅ /\ getSeq c = 0 /\ Rep fetch (S d) (16 * p + b) c (sub d b m).

Lemma Sent_child d p m c n b :
  (d < 64)%nat -> (0 < d -> 2 <= size m)%nat -> 0 <= b < 16 -> sub d b m <> ∅ -> getSeq c = 0 -> Rep fetch (S d) (16 * p + b) c (sub d b m) ->
  (n = c \/ Sent (S d) (16 * p + b) (sub d b m) n) -> Sent d p m n.
Proof.
  intros Hd Hs Hb Hne Hc HR [->|(d' & p' & m' & HB & Hrest)].
  - exists (S d), (16 * p + b), (sub d b m). split_and!; try done. apply (Below_step d p m b); try done. constructor.
  - exists d', p', m'. split; [|done]. by apply (Below_step d p m b).
Qed.

Lemma fat_children_done fatLeaves depth d p n m id bs :
  Rep fetch d p (Inner n) m -> in_seq n = 0 -> Forall (fun b => 0 <= b < 16) bs ->
  exists l, fat_children db mp fatLeaves depth n id bs = Done l
    /\ Forall (fun e => Child d p m e.1) (later l) /\ Forall (Entry d p m) (included l).
Proof.
  intros HR Hn Hbs. pose proof (Rep_open _ _ _ _ _ HR) as HO. pose proof (fd_depth _ _ _ _ _ (proj1 HO)) as Hd.
  induction Hbs as [|b bs Hb Hbs (l & Hl & IH1 & IH2)]; [by exists []|].
  cbn [fat_children]. destruct (isEmptyBranch n b) eqn:He; [by exists l|].
  assert (Hne : sub d b m <> ∅) by (intros E; apply (Open_isEmpty _ _ _ _ _ _ HO Hb) in E; congruence).
  destruct (Open_child _ _ _ _ _ _ HO Hb Hne) as (c & Hc & HRc). rewrite (descendThrow_resolve _ _ _ _ _ Hc), bind_done, Hl.
  assert (Hsc : getSeq c = 0) by (by eapply Rep_child_shared).
  eexists. split; [done|]. unfold later, included. rewrite !omap_app, !Forall_app. split; (split; [|done]).
  - unfold fat_child. destruct (_ && _); [|destruct (_ || _); constructor]. constructor; [by exists b | constructor].
  - unfold fat_child. destruct (_ && _); [constructor|]. destruct (_ || _); constructor; [|constructor]. exists c. split; [done|].
    apply (Sent_child d p m c c b); try done; [by inversion HR | by left].
Qed.

Lemma fat_node_done fuel fatLeaves depth d p n m id :
  Rep fetch d p n m -> getSeq n = 0 -> m <> ∅ -> (d = 0%nat -> isInner n = true) -> (64 - d <= fuel)%nat ->
  exists rest, fat_node fuel db mp fatLeaves depth n id = Done ((id, addRaw n snfWIRE) :: rest)
    /\ Forall (Entry d p m) ((id, addRaw n snfWIRE) :: rest).
Proof.
  revert depth d p n m id. induction fuel as [|fuel IH]; intros depth d p n m id HR Hn Hne Hi Hf.
  all: assert (Hown : Entry d p m (id, addRaw n snfWIRE)) by (exists n; split; [done|]; exists d, p, m; split_and!; [constructor | done..]).
  all: destruct n as [t|n]; cbn [fat_node]; try (exists []; split; [done | by constructor]).
  all: pose proof (fd_depth _ _ _ _ _ (proj1 (Rep_open _ _ _ _ _ HR))) as Hd.
  { lia. }
  destruct (_ || _); [|exists []; split; [done | by constructor]].
  destruct (fat_children_done fatLeaves depth d p n m id all_branches HR Hn) as (l & -> & Hl & Hincl).
  { apply Forall_forall. intros b. by rewrite all_branches_spec. }
  rewrite bind_done. match goal with |- context [(?s (rev (later l)))] => set (stacked := s) end.
  assert (Hs : forall l', Forall (fun e => Child d p m e.1) l' -> exists r, stacked l' = Done r /\ Forall (Entry d p m) r).
  { induction 1 as [|[c cid] l' (b & Hb & Hnb & Hsc & HRc) _ (r & Hr & Hall)]; [by exists []|]. cbn [stacked]. fold stacked. cbn [fst] in HRc, Hsc.
    destruct (IH (if getBranchCount n >? 1 then depth - 1 else depth) (S d) _ c _ cid HRc Hsc Hnb ltac:(done) ltac:(lia)) as (rest & -> & Hrest).
    rewrite bind_done, Hr. eexists. split; [done|]. apply Forall_app. split; [|done]. eapply Forall_impl; [exact Hrest|].
    intros e (x & Ex & Hx). exists x. split; [done|]. apply (Sent_child d p m c x b); try done; [by inversion HR | by right]. }
  destruct (Hs (rev (later l))) as (r & -> & Hr).
  - apply Forall_forall. intros x Hx. rewrite Forall_forall in Hl. apply Hl. by apply list_elem_of_In, in_rev, list_elem_of_In.
  - eexists. split; [done|]. constructor; [done|]. by apply Forall_app.
Qed.

(** The reply to a request for a place starts with the node of the place. *)
Lemma getNodeFat_spec M d p m fatLeaves depth :
  Holds db mp M -> getSeq (mp_root mp) = 0 -> map_Forall codable M -> Below 0 0 M d p m -> m <> ∅ ->
  exists n rest, getNodeFat db mp (id_at d p) fatLeaves depth = Done (Some ((id_at d p, addRaw n snfWIRE) :: rest))
    /\ Rep fetch d p n m /\ getSeq n = 0 /\ (d = 0%nat -> isInner n = true)
    /\ Forall (Entry d p m) ((id_at d p, addRaw n snfWIRE) :: rest).
Proof.
  intros [Hq Hi HR] Hs Hc HB Hne. destruct (walk_to_spec 0 0 M d p m (mp_root mp) HB HR Hs ltac:(done)) as (n & Hw & HRn & Hsn & Hin).
  destruct (fat_node_done max_depth fatLeaves depth d p n m (id_at d p) HRn Hsn Hne Hin) as (rest & Hr & Hall); [unfold max_depth; lia|].
  exists n, rest. split; [|done]. unfold getNodeFat. rewrite Nat.sub_0_r in Hw. cbn [id_at ni_depth]. rewrite Nat2Z.id. change root_id with (id_at 0 0).
  fold (id_at d p). rewrite Hw, bind_done, same_id_refl. cbn [negb].
  destruct (match n with Leaf _ => false | Inner inner => inner_isEmpty inner end) eqn:E; [|by rewrite Hr].
  destruct n as [|n]; [done|]. exfalso. unfold inner_isEmpty in E. apply Z.eqb_eq in E.
  assert (Hcm : map_Forall codable m) by (intros k v Hk; apply Hc; eapply lookup_weaken; [done | by eapply Below_sub_items]).
  destruct (Rep_sent d p (Inner n) m HRn Hsn Hcm Hne Hin) as (_ & Hrc & _). simpl in Hrc. unfold own_hash in Hrc. rewrite E in Hrc. simpl in Hrc.
  assert (0 < node_hash d m); [|lia]. eapply node_hash_pos; try done. intros k v Hk. by destruct (Hcm k v Hk).
Qed.

End Reply.

(** ** Fetch packs *)

Section Places.

Context {HA : Hashers}.

(** A place in the tree of [M] other than the root. *)
Definition Place (M : Items) (d : nat) (m : Items) : Prop :=
  match d with
  | O => m = M
  | S _ => within (64 - d) m /\ tree_preimages (64 - d) m ⊆ root_preimages M /\ tree_nodes (64 - d) m ⊆ root_nodes M
  end.

Lemma concat_branches_sub {A} (f : Z -> list A) b : 0 <= b < 16 -> f b ⊆ concat (f <$> all_branches).
Proof.
  intros Hb x Hx. apply list_elem_of_In, in_concat. exists (f b). split; [|by apply list_elem_of_In].
  by apply list_elem_of_In, list_elem_of_fmap_2, all_branches_spec.
Qed.

Lemma Place_sub M d b m :
  Proper_items M -> Place M d m -> (d < 64)%nat -> (0 < d -> 2 <= size m)%nat -> 0 <= b < 16 -> sub d b m <> ∅ -> Place M (S d) (sub d b m).
Proof.
  intros HM HP Hd Hs Hb Hne. destruct d as [|d].
  - simpl in HP. subst m. assert (H0 : M <> ∅) by (intros ->; by rewrite sub_empty_map in Hne).
    split_and!; [by apply within_root | |]; unfold root_preimages, root_nodes; rewrite decide_False by done; cbv zeta; intros x Hx; right.
    + by apply (concat_branches_sub (fun b => tree_preimages 63 (sub 0 b M)) b).
    + by apply (concat_branches_sub (fun b => tree_nodes 63 (sub 0 b M)) b).
  - destruct HP as (H1 & H2 & H3). specialize (Hs ltac:(lia)). unfold Place. replace (64 - S d)%nat with (S (63 - S d)) in H1, H2, H3 by lia.
    replace (64 - S (S d))%nat with (63 - S d)%nat by lia. rewrite tree_preimages_S in H2 by done. rewrite tree_nodes_S in H3 by done. cbv zeta in H3.
    pose proof (within_sub (63 - S d) b m ltac:(lia) H1) as Hw. replace (63 - (63 - S d))%nat with (S d) in * by lia.
    split_and!; [done | |]; intros x Hx; [apply H2 | apply H3]; right.
    + by apply (concat_branches_sub (fun b => tree_preimages (63 - S d) (sub (S d) b m)) b).
    + by apply (concat_branches_sub (fun b => tree_nodes (63 - S d) (sub (S d) b m)) b).
Qed.

End Places.

Section Pack.

Context {HA : Hashers} (Hrange : hash_range).

Context (db : NodeStore) (mp have : SHAMap) (M H : Items).
Context (HM : Holds db mp M) (HH : Holds db have H) (HMs : getSeq (mp_root mp) = 0) (HHs : getSeq (mp_root have) = 0).
Context (HMp : Proper_items M) (HHp : Proper_items H) (Hn : no_collision (root_preimages M ++ root_preimages H)).

#[local] Notation fetch := (fetchNodeNT db mp).
#[local] Notation fetch' := (fetchNodeNT db have).

Lemma in_M x : x ⊆ root_preimages M -> x ⊆ root_preimages M ++ root_preimages H.
Proof. intros Hx y Hy. apply elem_of_app. left. by apply Hx. Qed.

Lemma in_H x : x ⊆ root_preimages H -> x ⊆ root_preimages M ++ root_preimages H.
Proof. intros Hx y Hy. apply elem_of_app. right. by apply Hx. Qed.

(** The hash of a child. *)
Lemma shared_child d p n m b c mp' :
  Rep (fetchNodeNT db mp') d p (Inner n) m -> in_seq n = 0 -> Proper_items m -> 0 <= b < 16 -> sub d b m <> ∅ ->
  resolve (fetchNodeNT db mp') n b = Some c ->
  getSeq c = 0 /\ Rep (fetchNodeNT db mp') (S d) (16 * p + b) c (sub d b m)
  /\ getChildHash n b = tree_hash (63 - d) (sub d b m) /\ getNodeHash c = tree_hash (63 - d) (sub d b m).
Proof.
  intros HR Hs Hp Hb Hne Hc. assert (Hm : m <> ∅) by (intros ->; by rewrite sub_empty_map in Hne).
  pose proof (hashed_child Hrange d p db mp' n m b HR (Rep_shared_hash db mp' d p n m HR Hs) Hp Hm Hb) as [H1 H2].
  split_and!; [by eapply Rep_child_shared | by apply (proj2 (Rep_open _ _ _ _ _ HR)) | done | by apply H2].
Qed.

Lemma Place_proper T d m : Proper_items T -> Place T d m -> Proper_items m.
Proof. intros HT. destruct d; [by intros -> | intros (Hw & _); by apply within_proper in Hw]. Qed.

(** ** What the other map has *)

Lemma walk_to_have fuel target d p n m :
  Rep fetch' d p n m -> getSeq n = 0 -> Place H d m ->
  exists r, walk_to fuel db have target n (id_at d p) = Done r
    /\ forall n', (exists id, r = Some (n', id)) -> isInner n' = true -> ni_depth target = Z.of_nat (d + fuel) ->
         exists m', getNodeHash n' = node_hash (d + fuel) m' /\ Place H (d + fuel) m' /\ (d + fuel < 64)%nat.
Proof.
  revert d p n m. induction fuel as [|fuel IH]; intros d p n m HR Hs HP.
  { exists (Some (n, id_at d p)). split; [by destruct n|]. intros n' [id [= <- _]] Hi _. rewrite Nat.add_0_r. exists m.
    destruct n as [t|n]; [done|]. split_and!; [by apply (Rep_shared_hash db have d p n m HR) | done | apply (fd_depth _ _ _ _ _ (proj1 (Rep_open _ _ _ _ _ HR)))]. }
  destruct n as [t|n]; [eexists; split; [done|]; by intros n' [id [= <- _]]|]. cbn [walk_to].
  pose proof (Rep_open _ _ _ _ _ HR) as HO. pose proof (fd_depth _ _ _ _ _ (proj1 HO)) as Hd.
  destruct (_ <? _) eqn:Elt; cbn [negb].
  2: { eexists. split; [done|]. intros n' _ _ Ht. apply Z.ltb_ge in Elt. cbn [id_at ni_depth] in Elt. lia. }
  rewrite (selectBranch_nibble (id_at d p) _ d) by done. pose proof (nibble_range d (ni_nodeID target)) as Hb. set (b := nibble d _) in *.
  destruct (isEmptyBranch n b) eqn:Eb; [eexists; split; [done|]; by intros n' [id [=]]|].
  assert (Hne : sub d b m <> ∅) by (intros E; apply (Open_isEmpty _ _ _ _ _ _ HO Hb) in E; congruence).
  destruct (Open_child _ _ _ _ _ _ HO Hb Hne) as (c & Hc & _). rewrite (descendThrow_resolve _ _ _ _ _ Hc), bind_done, child_id by done.
  destruct (shared_child d p n m b c have HR Hs (Place_proper H d m HHp HP) Hb Hne Hc) as (Hsc & HRc & _).
  destruct (IH (S d) (16 * p + b) c (sub d b m) HRc Hsc) as (r & Hr & Hspec); [apply Place_sub; try done; by inversion HR|].
  exists r. split; [done|]. intros n' Hn' Hi Ht. replace (d + S fuel)%nat with (S d + fuel)%nat by lia. apply Hspec; [done | done|]. lia.
Qed.

Lemma hasInnerNode_spec d p m :
  (0 < d < 64)%nat -> Place M d m -> (2 <= size m)%nat ->
  exists had, hasInnerNode db have (id_at d p) (tree_hash (64 - d) m) = Done had /\ (had = true -> tree_nodes (64 - d) m ⊆ root_nodes H).
Proof.
  intros Hd HP Hs. destruct HH as [_ Hi HR].
  destruct (walk_to_have d (id_at d p) 0 0 (mp_root have) H HR HHs eq_refl) as (r & Hr & Hspec). rewrite Nat.add_0_l in Hspec.
  unfold hasInnerNode. cbn [id_at ni_depth]. rewrite Nat2Z.id. change root_id with (id_at 0 0). fold (id_at d p). rewrite Hr, bind_done.
  eexists. split; [done|]. destruct r as [[n' id]|]; [|done]. intros [Hin Hh%Z.eqb_eq]%andb_prop.
  destruct (Hspec n') as (m' & Hm' & HP' & _); [by exists id | done | done|]. destruct d as [|d]; [lia|]. unfold node_hash in Hm'.
  destruct HP as (Hw & Hpre & _), HP' as (Hw' & Hpre' & Hno').
  assert (m = m') as ->; [|done]. apply (tree_hash_inj Hrange (64 - S d) (root_preimages M ++ root_preimages H)); try done; [lia | by apply in_M | by apply in_H|].
  by rewrite <- Hh, Hm'.
Qed.

Lemma leaf_loop_spec fuel d p k v n m :
  Rep fetch' d p (Inner n) m -> in_seq n = 0 -> Place H d m -> (64 - d <= fuel)%nat -> proper k v -> value_preimage k v ∈ root_preimages M ->
  exists had, leaf_loop fuel db have k (value_hash k v) n (id_at d p) = Done had
    /\ (had = true -> (value_hash k v, value_raw k v) ∈ root_nodes H).
Proof.
  revert d p n m. induction fuel as [|fuel IH]; intros d p n m HR Hs HP Hf Hkv Hin.
  all: pose proof (Rep_open _ _ _ _ _ HR) as HO; pose proof (fd_depth _ _ _ _ _ (proj1 HO)) as Hd.
  { lia. }
  cbn [leaf_loop]. rewrite (selectBranch_nibble (id_at d p) k d) by done. pose proof (nibble_range d k) as Hb. set (b := nibble d k) in *.
  destruct (isEmptyBranch n b) eqn:Eb; [by exists false|].
  assert (Hne : sub d b m <> ∅) by (intros E; apply (Open_isEmpty _ _ _ _ _ _ HO Hb) in E; congruence).
  destruct (Open_child _ _ _ _ _ _ HO Hb Hne) as (c & Hc & _).
  destruct (shared_child d p n m b c have HR Hs (Place_proper H d m HHp HP) Hb Hne Hc) as (Hsc & HRc & Hch & _).
  assert (HPc : Place H (S d) (sub d b m)) by (apply Place_sub; try done; by inversion HR).
  destruct (Z.eqb_spec (getChildHash n b) (value_hash k v)) as [E|E].
  - exists true. split; [done|]. intros _. destruct HPc as (Hw & Hpre & Hno). replace (64 - S d)%nat with (63 - d)%nat in * by lia. rewrite Hch in E.
    assert (Em : sub d b m = {[k := v]}).
    { apply (singleton_inj Hrange (63 - d) (root_preimages M ++ root_preimages H)); try done; [lia | apply elem_of_app; by left | by apply in_H]. }
    apply Hno. rewrite Em, tree_nodes_singleton. left.
  - rewrite (descendThrow_resolve _ _ _ _ _ Hc), bind_done. destruct c as [t|c]; [by exists false|]. rewrite child_id by done.
    apply (IH (S d) (16 * p + b) c (sub d b m)); try done. lia.
Qed.

Lemma hasLeafNode_spec k v :
  proper k v -> value_preimage k v ∈ root_preimages M ->
  exists had, hasLeafNode db have k (value_hash k v) = Done had /\ (had = true -> (value_hash k v, value_raw k v) ∈ root_nodes H).
Proof.
  intros Hkv Hin. destruct HH as [_ Hi HR]. unfold hasLeafNode. destruct (mp_root have) as [|n] eqn:Er; [done|]. change root_id with (id_at 0 0).
  apply (leaf_loop_spec max_depth 0 0 k v n H); try done.
Qed.

(** ** The nodes that are sent *)

(** The nodes in [new] are among [all], and the receiver has the others. *)
Definition Covered (new all : list (Z * Bytes)) : Prop :=
  new ⊆ all /\ (length new <= length all)%nat /\ forall e, e ∈ all -> e ∈ new \/ e ∈ root_nodes H.

Lemma Covered_app n1 n2 l1 l2 : Covered n1 l1 -> Covered n2 l2 -> Covered (n2 ++ n1) (l1 ++ l2).
Proof.
  intros (A1 & A2 & A3) (B1 & B2 & B3). split_and!.
  - set_solver.
  - rewrite !length_app. lia.
  - intros e [He|He]%elem_of_app; [destruct (A3 e He) | destruct (B3 e He)]; try (by right); left; apply elem_of_app; by auto.
Qed.

Lemma Covered_rest new rest new' all : Covered (new ++ rest) all -> Covered new' rest -> Covered (new' ++ new) all.
Proof.
  intros (A1 & A2 & A3) (B1 & B2 & B3). rewrite length_app in A2. split_and!.
  - set_solver.
  - rewrite length_app. lia.
  - intros e He. destruct (A3 e He) as [[He1|He1]%elem_of_app|]; [| |by right]; [left; apply elem_of_app; by right|].
    destruct (B3 e He1); [left; apply elem_of_app; by left | by right].
Qed.

Lemma Covered_had l : l ⊆ root_nodes H -> Covered [] l.
Proof. intros Hl. split_and!; [by intros x Hx%not_elem_of_nil | simpl; lia|]. intros e He. right. by apply Hl. Qed.

Lemma Covered_all l : Covered l l.
Proof. split_and!; [done | done|]. by left. Qed.

Definition below_nodes (d : nat) (m : Items) (b : Z) : list (Z * Bytes) := tree_nodes (63 - d) (sub d b m).

(** An inner node to be worked on, and its branch. *)
Definition Pushed (d : nat) (p : Z) (m : Items) (e : InnerNode Node * Z) : Prop :=
  0 <= e.2 < 16 /\ sub d e.2 m <> ∅ /\ in_seq e.1 = 0 /\ Rep fetch (S d) (16 * p + e.2) (Inner e.1) (sub d e.2 m).

Definition at_id (d : nat) (p : Z) (e : InnerNode Node * Z) : InnerNode Node * SHAMapNodeID := (e.1, id_at (S d) (16 * p + e.2)).

(** The node of a place, as it is stored. *)
Lemma shared_raw d p n m :
  Rep fetch d p n m -> getSeq n = 0 -> Proper_items m -> m <> ∅ -> (d = 0%nat -> isInner n = true) ->
  (getNodeHash n, addRaw n snfPREFIX)
  = match n with
    | Leaf t => (value_hash (leaf_key t) (leaf_value t), value_raw (leaf_key t) (leaf_value t))
    | Inner _ => (node_hash d m, hashes_raw ((fun b => tree_hash (63 - d) (sub d b m)) <$> all_branches))
    end.
Proof.
  intros HR Hs Hp Hne Hi. destruct n as [t|n].
  - pose proof (Rep_leaf_inv _ _ _ _ _ HR) as (_ & _ & _ & Hh & _). cbn [getNodeHash]. by rewrite Hh.
  - cbn [getNodeHash addRaw inner_addRaw]. rewrite (Rep_shared_hash db mp d p n m HR Hs). f_equal. unfold hashes_raw. do 3 f_equal.
    rewrite (Plain_hashes n (Rep_plain Hrange db mp d p n m HR Hs Hp Hne)). apply list_fmap_ext. intros i b Hb.
    apply (hashed_child Hrange d p db mp n m b HR (Rep_shared_hash db mp d p n m HR Hs) Hp Hne), all_branches_spec. by eapply list_elem_of_lookup_2.
Qed.

Definition pushed_nodes (d : nat) (m : Items) (pushed : list (InnerNode Node * Z)) : list (Z * Bytes) :=
  concat ((fun e => below_nodes d m e.2) <$> pushed).

Lemma pushed_cons d m e pushed : pushed_nodes d m (e :: pushed) = below_nodes d m e.2 ++ pushed_nodes d m pushed.
Proof. done. Qed.

Lemma Covered_perm new new' all : new ≡ₚ new' -> Covered new all -> Covered new' all.
Proof. intros Hp (A1 & A2 & A3). split_and!; [by rewrite <- Hp | by rewrite <- Hp|]. intros e He. rewrite <- Hp. by apply A3. Qed.

(** One branch: what is sent at once and what is stacked. *)
Lemma diff_branch d p n m b bs st c l :
  Rep fetch d p (Inner n) m -> in_seq n = 0 -> Place M d m -> 0 <= b < 16 -> Z.of_nat (length (below_nodes d m b)) < c ->
  exists new pushed,
    diff_children db mp (Some have) (pack_node true) n (id_at d p) (b :: bs) st (c, l)
      = diff_children db mp (Some have) (pack_node true) n (id_at d p) bs ((at_id d p <$> pushed) ++ st) (c - Z.of_nat (length new), new ++ l)
    /\ Forall (Pushed d p m) pushed /\ Covered (new ++ pushed_nodes d m pushed) (below_nodes d m b).
Proof.
  intros HR Hs HP Hb Hc. pose proof (Rep_open _ _ _ _ _ HR) as HO. pose proof (fd_depth _ _ _ _ _ (proj1 HO)) as Hd.
  pose proof (Place_proper M d m HMp HP) as Hpm. cbn [diff_children]. destruct (isEmptyBranch n b) eqn:Eb.
  { apply (Open_isEmpty _ _ _ _ _ _ HO Hb) in Eb. exists [], []. rewrite Z.sub_0_r. split_and!; [done | constructor|].
    assert (En : below_nodes d m b = []) by (unfold below_nodes; rewrite Eb; destruct (63 - d)%nat; cbn [tree_nodes]; by rewrite map_to_list_empty).
    rewrite En. apply Covered_all. }
  assert (Hne : sub d b m <> ∅) by (intros E; apply (Open_isEmpty _ _ _ _ _ _ HO Hb) in E; congruence).
  destruct (Open_child _ _ _ _ _ _ HO Hb Hne) as (x & Hx & _). rewrite (descendThrow_resolve _ _ _ _ _ Hx), bind_done.
  destruct (shared_child d p n m b x mp HR Hs Hpm Hb Hne Hx) as (Hsx & HRx & Hch & _).
  assert (HPx : Place M (S d) (sub d b m)) by (apply Place_sub; try done; by inversion HR). rewrite Hch, child_id by done.
  pose proof (Place_proper M (S d) _ HMp HPx) as Hpx. destruct x as [t|x].
  - pose proof (Rep_leaf_inv _ _ _ _ _ HRx) as (Em & _). set (e := (value_hash (leaf_key t) (leaf_value t), value_raw (leaf_key t) (leaf_value t))).
    assert (Eb' : below_nodes d m b = [e]) by (unfold below_nodes; by rewrite Em, tree_nodes_singleton).
    rewrite Em, tree_hash_singleton. cbn [has_leaf]. change (it_key (tr_item t)) with (leaf_key t).
    destruct (hasLeafNode_spec (leaf_key t) (leaf_value t)) as (had & -> & Hhad).
    { apply Hpx. by rewrite Em, lookup_singleton_eq. }
    { apply (proj1 (proj2 HPx)). rewrite Em, tree_preimages_singleton. left. }
    rewrite bind_done. rewrite Eb' in *. destruct had.
    + exists [], []. rewrite Z.sub_0_r. split_and!; [done | constructor|]. apply Covered_had. intros y ->%list_elem_of_singleton. by apply Hhad.
    + exists [e], []. split_and!; [|constructor | apply Covered_all]. unfold pack_node at 1. cbn [orb]. cbv zeta. cbn [fst snd].
      rewrite (shared_raw (S d) _ (Leaf t) (sub d b m) HRx Hsx Hpx Hne ltac:(done)). fold e. simpl in Hc.
      by rewrite (proj2 (Z.leb_gt (c - 1) 0)) by lia.
  - pose proof (fd_depth _ _ _ _ _ (proj1 (Rep_open _ _ _ _ _ HRx))) as Hd'. assert (Hsz : (2 <= size (sub d b m))%nat) by (inversion HRx; lia).
    cbn [has_inner]. destruct (hasInnerNode_spec (S d) (16 * p + b) (sub d b m) ltac:(lia) HPx Hsz) as (had & Eh & Hhad).
    replace (63 - d)%nat with (64 - S d)%nat by lia. rewrite Eh, bind_done. destruct had.
    + exists [], []. rewrite Z.sub_0_r. split_and!; [done | constructor|]. apply Covered_had. unfold below_nodes. by apply Hhad.
    + exists [], [(x, b)]. rewrite Z.sub_0_r. split_and!; [done | by apply Forall_singleton|]. unfold pushed_nodes. cbn. rewrite app_nil_r. apply Covered_all.
Qed.

Lemma diff_children_spec d p n m bs st c l :
  Rep fetch d p (Inner n) m -> in_seq n = 0 -> Place M d m -> Forall (fun b => 0 <= b < 16) bs ->
  Z.of_nat (length (concat (below_nodes d m <$> bs))) < c ->
  exists new pushed,
    diff_children db mp (Some have) (pack_node true) n (id_at d p) bs st (c, l)
      = Done (true, (at_id d p <$> pushed) ++ st, (c - Z.of_nat (length new), new ++ l))
    /\ Forall (Pushed d p m) pushed /\ Covered (new ++ pushed_nodes d m pushed) (concat (below_nodes d m <$> bs)).
Proof.
  intros HR Hs HP Hbs. revert st c l. induction Hbs as [|b bs Hb Hbs IH]; intros st c l Hc.
  { exists [], []. rewrite Z.sub_0_r. split_and!; [done | constructor | apply Covered_all]. }
  rewrite fmap_cons, concat_cons, length_app in Hc. rewrite fmap_cons, concat_cons.
  destruct (diff_branch d p n m b bs st c l HR Hs HP Hb ltac:(lia)) as (new1 & pushed1 & -> & Hp1 & C1). pose proof (proj1 (proj2 C1)) as Hl1. rewrite length_app in Hl1.
  destruct (IH ((at_id d p <$> pushed1) ++ st) (c - Z.of_nat (length new1)) (new1 ++ l) ltac:(lia)) as (new2 & pushed2 & -> & Hp2 & C2).
  exists (new2 ++ new1), (pushed2 ++ pushed1). split_and!.
  - rewrite fmap_app, <- !app_assoc, length_app. do 3 f_equal. lia.
  - by apply Forall_app.
  - eapply Covered_perm; [|by apply (Covered_app _ _ _ _ C1 C2)]. unfold pushed_nodes. rewrite fmap_app, concat_app. solve_Permutation.
Qed.

(** The nodes of a place. *)
Definition place_nodes (d : nat) (m : Items) : list (Z * Bytes) :=
  (node_hash d m, hashes_raw ((fun b => tree_hash (63 - d) (sub d b m)) <$> all_branches)) :: concat (below_nodes d m <$> all_branches).

Lemma pushed_place d p m e : Pushed d p m e -> (S d < 64)%nat /\ place_nodes (S d) (sub d e.2 m) = below_nodes d m e.2.
Proof.
  intros (Hb & Hne & Hs & HR). pose proof (fd_depth _ _ _ _ _ (proj1 (Rep_open _ _ _ _ _ HR))) as Hd. split; [done|].
  assert (Hsz : (2 <= size (sub d e.2 m))%nat) by (inversion HR; lia). unfold place_nodes, below_nodes. rewrite node_hash_inner by (done || lia).
  replace (63 - d)%nat with (S (63 - S d)) by lia. rewrite tree_nodes_S by done. cbv zeta. by replace (63 - (63 - S d))%nat with (S d) by lia.
Qed.

Lemma diff_node_spec fuel d p n m c l :
  Rep fetch d p (Inner n) m -> in_seq n = 0 -> Place M d m -> m <> ∅ -> (64 - d <= fuel)%nat -> Z.of_nat (length (place_nodes d m)) < c ->
  exists new, diff_node fuel db mp (Some have) (pack_node true) n (id_at d p) (c, l) = Done (true, (c - Z.of_nat (length new), new ++ l))
    /\ Covered new (place_nodes d m).
Proof.
  revert d p n m c l. induction fuel as [|fuel IH]; intros d p n m c l HR Hs HP Hne Hf Hc; pose proof (fd_depth _ _ _ _ _ (proj1 (Rep_open _ _ _ _ _ HR))) as Hd; [lia|].
  pose proof (Place_proper M d m HMp HP) as Hpm. assert (Hbr : Forall (fun b => 0 <= b < 16) all_branches) by (apply Forall_forall; intros b; by rewrite all_branches_spec).
  assert (Hown : (getNodeHash (Inner n), addRaw (Inner n) snfPREFIX) = (node_hash d m, hashes_raw ((fun b => tree_hash (63 - d) (sub d b m)) <$> all_branches)))
    by (by apply (shared_raw d p (Inner n) m)).
  cbn [diff_node]. unfold pack_node at 1. cbn [orb]. cbv zeta. cbn [fst snd]. rewrite Hown. set (e := (_, hashes_raw _)) in *.
  unfold place_nodes in Hc. fold e in Hc. cbn [length] in Hc. rewrite (proj2 (Z.leb_gt (c - 1) 0)) by lia. cbn [negb].
  destruct (diff_children_spec d p n m all_branches [] (c - 1) (e :: l) HR Hs HP Hbr ltac:(lia)) as (new & pushed & -> & Hpu & C). rewrite bind_done. cbn [negb].
  rewrite app_nil_r. match goal with |- context [(?s (at_id d p <$> pushed))] => set (pop := s) end. pose proof (proj1 (proj2 C)) as Hl. rewrite length_app in Hl.
  assert (Hpop : forall pushed c l, Forall (Pushed d p m) pushed -> Z.of_nat (length (pushed_nodes d m pushed)) < c ->
    exists new, pop (at_id d p <$> pushed) (c, l) = Done (true, (c - Z.of_nat (length new), new ++ l)) /\ Covered new (pushed_nodes d m pushed)).
  { clear Hpu C Hl new pushed Hc c l. intros pushed c l Hpu. revert c l. induction Hpu as [|[x b] pushed Hx Hpu IHp]; intros c l Hc.
    { exists []. rewrite Z.sub_0_r. split; [done | apply Covered_all]. }
    destruct (pushed_place d p m (x, b) Hx) as [Hd' Epl]. destruct Hx as (Hb & Hnb & Hsx & HRx). cbn [fst snd] in *.
    rewrite pushed_cons in Hc |- *. cbn [snd] in Hc |- *. rewrite length_app in Hc. rewrite <- Epl in Hc |- *.
    rewrite fmap_cons. unfold at_id at 1. cbn [pop fst snd]. fold pop.
    destruct (IH (S d) (16 * p + b) x (sub d b m) c l) as (new1 & -> & C1); try done; [apply Place_sub; try done; by inversion HR | lia | lia|].
    rewrite bind_done. pose proof (proj1 (proj2 C1)) as Hl1.
    destruct (IHp (c - Z.of_nat (length new1)) (new1 ++ l)) as (new2 & -> & C2); [lia|]. exists (new2 ++ new1). split.
    - rewrite length_app, <- app_assoc. do 3 f_equal. lia.
    - by apply Covered_app. }
  destruct (Hpop pushed (c - 1 - Z.of_nat (length new)) (new ++ e :: l) Hpu ltac:(lia)) as (new2 & -> & C2). exists (new2 ++ new ++ [e]). split.
  - rewrite !length_app, <- !app_assoc. simpl. do 3 f_equal. lia.
  - unfold place_nodes. fold e. rewrite app_assoc. apply (Covered_app [e] _ [e]); [apply Covered_all | by eapply Covered_rest].
Qed.

End Pack.

(** ** A store with the nodes of a tree *)

Section Stored.

Context {HA : Hashers} (Hrange : hash_range) (U : NodeStore).

#[local] Notation F := (fetchNodeNT U SHAMap_new).

Lemma stored_inner d p m :
  (d < 64)%nat -> m <> ∅ -> (0 < d -> 2 <= size m)%nat -> Proper_items m -> (forall k v, m !! k = Some v -> valid_key k /\ prefix d k = p) ->
  U !! node_hash d m = Some (hashes_raw ((fun b => tree_hash (63 - d) (sub d b m)) <$> all_branches)) ->
  (forall b, 0 <= b < 16 -> sub d b m <> ∅ ->
     exists c, F (tree_hash (63 - d) (sub d b m)) = Some c /\ Rep F (S d) (16 * p + b) c (sub d b m)) ->
  exists n, F (node_hash d m) = Some n /\ Rep F d p n m /\ isInner n = true.
Proof.
  intros Hd Hne Hs Hp Hk HU Hc. set (hs := (fun b => tree_hash (63 - d) (sub d b m)) <$> all_branches) in *.
  assert (Hv : Forall valid_key hs) by (apply Forall_fmap, Forall_true; intros b; by apply tree_hash_valid, sub_proper).
  assert (Hlen : length hs = 16%nat) by done. set (i := mkInner hs (replicate 16 (@None Node)) (branch_bits hs) (node_hash d m) 0).
  assert (Hf : F (node_hash d m) = Some (Inner i)).
  { unfold fetchNodeNT. simpl. rewrite HU. unfold hashes_raw. by rewrite hashes_decode. }
  assert (Hch : forall b, 0 <= b < 16 -> getChildHash i b = tree_hash (63 - d) (sub d b m)).
  { intros b Hb. unfold getChildHash, i. cbn [in_hashes]. unfold hs. rewrite branch_lookup by lia. by rewrite Z2Nat.id by lia. }
  assert (Hg : forall b, getChild i b = None) by (intros b; by apply getChild_none).
  assert (Hbit : forall b, Z.testbit (branch_bits hs) b = true <-> 0 <= b < 16 /\ default 0 (hs !! Z.to_nat b) <> 0).
  { intros b. unfold branch_bits. rewrite branch_bits_spec, all_branches_spec; [done|]. apply Forall_forall. intros x. rewrite all_branches_spec. lia. }
  assert (Hz : forall b, 0 <= b < 16 -> tree_hash (63 - d) (sub d b m) = 0 -> sub d b m = ∅).
  { intros b Hb E. destruct (decide (sub d b m = ∅)) as [|Hnb]; [done|]. apply (tree_hash_zero Hrange (63 - d)); [|lia|done].
    exists (16 * p + b). intros k v [Hkv Hkb]%sub_lookup_Some. split; [by apply Hp|]. replace (64 - (63 - d))%nat with (S d) by lia.
    rewrite prefix_S by done. destruct (Hk k v Hkv) as [_ ->]. lia. }
  exists (Inner i). split_and!; [done | | done]. apply Rep_inner; [|done|].
  - split; try done.
    + intros b Hb. apply not_true_is_false. cbn [i in_isBranch]. rewrite Hbit. lia.
    + intros b Hb. unfold isEmptyBranch. cbn [i in_isBranch]. apply eq_true_iff_eq. rewrite negb_true_iff, <- not_true_iff_false, bool_decide_eq_true, Hbit.
      pose proof (Hch b Hb) as E. unfold getChildHash in E. cbn [i in_hashes] in E. rewrite E. split.
      * intros Hx. apply Hz; [done|]. destruct (decide (tree_hash (63 - d) (sub d b m) = 0)); naive_solver.
      * intros ->. rewrite tree_hash_empty. naive_solver.
    + intros b Hb E. by rewrite Hg, Hch, E, tree_hash_empty.
    + intros b Hb Hnb. unfold resolve. rewrite Hg, Hch by done. destruct (Hc b Hb Hnb) as (c & -> & _). by eexists.
    + intros b Hb Hnb. left. split; [by apply Hch|]. intros c. by rewrite Hg.
    + by left.
    + intros b c _. by rewrite Hg.
  - intros b c Hb Hnb Hr. unfold resolve in Hr. rewrite Hg, Hch in Hr by done. destruct (Hc b Hb Hnb) as (c' & E & HR). rewrite E in Hr. by injection Hr as <-.
Qed.

Lemma stored_leaf d p k v :
  (d <= 64)%nat -> codable k v -> valid_key k -> prefix d k = p -> U !! value_hash k v = Some (value_raw k v) ->
  exists n, F (value_hash k v) = Some n /\ Rep F d p n {[k := v]}.
Proof.
  intros Hd Hc Hv Hp HU. set (t := mkTreeNode (mkItem k (v_data v)) (v_type v) (v_root v) (value_hash k v) 0).
  assert (Ev : leaf_value t = v) by (by destruct v). exists (Leaf t). split.
  - unfold fetchNodeNT. simpl. rewrite HU. change (value_raw k v) with (addRaw (Leaf t) snfPREFIX). rewrite prefix_round; [done|].
    change (codable k (leaf_value t)). by rewrite Ev.
  - change (Rep F d p (Leaf t) {[leaf_key t := v]}). rewrite <- Ev. apply (Rep_leaf F d p t); [done | done | done|]. by rewrite Ev.
Qed.

Lemma stored_rep h d p m :
  h = (64 - d)%nat -> (0 < d <= 64)%nat -> m <> ∅ -> map_Forall codable m -> (forall k v, m !! k = Some v -> valid_key k /\ prefix d k = p) ->
  Has U (tree_nodes h m) -> exists n, F (tree_hash h m) = Some n /\ Rep F d p n m.
Proof.
  revert d p m. induction h as [|h IH]; intros d p m Hh Hd Hne Hc Hk HU; destruct (items_cases m) as [->|[(k & v & ->)|Hs]]; try done.
  1, 3: rewrite tree_nodes_singleton in HU; rewrite tree_hash_singleton; destruct (Hk k v) as [Hv Hpk]; [by rewrite lookup_singleton_eq|];
    apply stored_leaf; [lia | by apply map_Forall_singleton in Hc | done | done | by apply Forall_cons in HU as [HU _]].
  - assert (Hw : within 0 m) by (exists p; intros k v Hkv; split; [by destruct (Hc k v Hkv) | replace (64 - 0)%nat with d by lia; by apply (Hk k v)]).
    apply within_0 in Hw. lia.
  - assert (Hd' : (d < 64)%nat) by lia. rewrite tree_nodes_S in HU by done. cbv zeta in HU. replace (63 - h)%nat with d in HU by lia.
    apply Forall_cons in HU as [HU1 HU2]. cbn [fst snd] in HU1. assert (Hp : Proper_items m) by (intros k v Hkv; by destruct (Hc k v Hkv)).
    assert (En : node_hash d m = tree_hash (S h) m) by (destruct d; [lia|]; unfold node_hash; by replace (64 - S d)%nat with (S h) by lia).
    replace h with (63 - d)%nat in HU1, HU2 by lia.
    destruct (stored_inner d p m) as (n & Hn & HR & _); try done; [rewrite node_hash_inner by (done || lia); exact HU1 | |by exists n; rewrite <- En].
    intros b Hb Hnb. replace (63 - d)%nat with h by lia. apply (IH (S d)); [lia | lia | done | | |].
    + intros k v [Hkv _]%sub_lookup_Some. by apply Hc.
    + intros k v [Hkv Hkb]%sub_lookup_Some. destruct (Hk k v Hkv) as [Hv Hpk]. split; [done|]. rewrite prefix_S by done. lia.
    + replace h with (63 - d)%nat by lia. by apply (Has_branch U (fun b => tree_nodes (63 - d) (sub d b m)) b).
Qed.

(** A map is had from the store by its root hash. *)
Lemma stored_map M :
  M <> ∅ -> map_Forall codable M -> Has U (root_nodes M) -> exists mp, fetchRoot U SHAMap_new (root_hash M) = (true, mp) /\ Holds U mp M.
Proof.
  intros H0 Hc HU. unfold root_nodes in HU. rewrite decide_False in HU by done. cbv zeta in HU. apply Forall_cons in HU as [HU1 HU2]. cbn [fst snd] in HU1.
  assert (Hp : Proper_items M) by (intros k v Hkv; by destruct (Hc k v Hkv)).
  destruct (stored_inner 0 0 M) as (n & Hn & HR & Hi); try done; try lia.
  - intros k v Hkv. destruct (Hp k v Hkv) as [Hv _]. split; [done | by apply prefix_0].
  - unfold node_hash, root_hash. by rewrite decide_False.
  - intros b Hb Hnb. apply (stored_rep 63 1); [lia | lia | done | | |].
    + intros k v [Hkv _]%sub_lookup_Some. by apply Hc.
    + intros k v [Hkv Hkb]%sub_lookup_Some. destruct (Hp k v Hkv) as [Hv _]. split; [done|]. rewrite prefix_S, prefix_0 by (done || lia). lia.
    + by apply (Has_branch U (fun b => tree_nodes 63 (sub 0 b M)) b).
  - change (node_hash 0 M) with (root_hash M) in Hn. unfold fetchRoot. rewrite Hn. pose proof (root_hash_nonzero M Hrange H0) as Hnz.
    rewrite (proj2 (Z.eqb_neq (root_hash M) (getNodeHash (mp_root SHAMap_new)))) by done. eexists. split; [done|]. split; [done | done|]. exact HR.
Qed.

End Stored.

(** ** Leaves *)

Section Leaves.

Context {HA : Hashers} (db : NodeStore) (mp : SHAMap).

#[local] Notation fetch := (fetchNodeNT db mp).

(** What [visitLeaves] makes of the items of a node, one after the other. *)
Definition note_leaf (node : Node) (acc : list SHAMapItem) : bool * list SHAMapItem :=
  (true, match node with Leaf t => acc ++ [tr_item t] | Inner _ => acc end).

(** The items with these branches, in the order of their keys. *)
Definition In_order (d : nat) (m : Items) (bs : list Z) (l : list SHAMapItem) : Prop :=
  StronglySorted Z.lt (it_key <$> l)
  /\ forall x, x ∈ l <-> nibble d (it_key x) ∈ bs /\ exists v, m !! it_key x = Some v /\ it_data x = v_data v.

Lemma In_order_cons d p m b bs l1 l2 :
  (d < 64)%nat -> (forall k v, m !! k = Some v -> prefix d k = p) -> Forall (Z.lt b) bs ->
  In_order d m [b] l1 -> In_order d m bs l2 -> In_order d m (b :: bs) (l1 ++ l2).
Proof.
  intros Hd Hp Hb [S1 I1] [S2 I2]. split.
  - rewrite fmap_app. apply StronglySorted_app_2; [|done|done]. intros k1 k2 (x & -> & Hx)%list_elem_of_fmap (y & -> & Hy)%list_elem_of_fmap. apply I1 in Hx as (Hx & v & Hv & _). apply I2 in Hy as (Hy & w & Hw & _).
    apply list_elem_of_singleton in Hx. rewrite Forall_forall in Hb. apply (nibble_lt d); [done | by rewrite (Hp _ _ Hv), (Hp _ _ Hw)|].
    rewrite Hx. by apply Hb.
  - intros x. rewrite elem_of_app, I1, I2, !elem_of_cons, elem_of_nil. tauto.
Qed.

Lemma In_order_empty d m b : sub d b m = ∅ -> In_order d m [b] [].
Proof.
  intros E. split; [constructor|]. intros x. split; [by intros ?%not_elem_of_nil|]. intros (Hx%list_elem_of_singleton & v & Hv & _).
  assert (Hs : sub d b m !! it_key x = Some v) by (by apply sub_lookup_Some). by rewrite E, lookup_empty in Hs.
Qed.

Lemma In_order_sub d b m l :
  (forall x, x ∈ l <-> exists v, sub d b m !! it_key x = Some v /\ it_data x = v_data v) -> StronglySorted Z.lt (it_key <$> l) -> In_order d m [b] l.
Proof.
  intros Hl Hs. split; [done|]. intros x. rewrite Hl, list_elem_of_singleton. split.
  - intros (v & [Hv Hb]%sub_lookup_Some & Ed). split; [done | by exists v].
  - intros (Hb & v & Hv & Ed). exists v. by rewrite sub_lookup_Some.
Qed.

Lemma visit_below_spec fuel d p n m bs acc :
  Rep fetch d p (Inner n) m -> (64 - d <= fuel)%nat -> Forall (fun b => 0 <= b < 16) bs -> StronglySorted Z.lt bs ->
  exists l, visit_below fuel db mp note_leaf n bs acc = Done (true, acc ++ l) /\ In_order d m bs l.
Proof.
  revert d p n m bs acc. induction fuel as [|fuel IH]; intros d p n m bs acc HR Hf Hbs Hss;
    pose proof (Rep_open _ _ _ _ _ HR) as HO; pose proof (fd_depth _ _ _ _ _ (proj1 HO)) as Hd; [lia|].
  assert (Hpk : forall k v, m !! k = Some v -> prefix d k = p) by (intros k v Hk; apply (fd_keys _ _ _ _ _ (proj1 HO) k v Hk)).
  revert acc. induction Hbs as [|b bs Hb Hbs IHb]; intros acc.
  { exists []. rewrite app_nil_r. split; [done|]. split; [constructor|]. intros x. split; [by intros ?%not_elem_of_nil | by intros [?%not_elem_of_nil _]]. }
  apply StronglySorted_inv in Hss as [Hss Hlt]. specialize (IHb Hss). cbn [visit_below] in IHb |- *. destruct (isEmptyBranch n b) eqn:Eb.
  { destruct (IHb acc) as (l & -> & Hl). exists l. split; [done|]. apply (In_order_cons d p m b bs [] l); try done.
    by apply In_order_empty, (Open_isEmpty _ _ _ _ _ _ HO Hb). }
  assert (Hne : sub d b m <> ∅) by (intros E; apply (Open_isEmpty _ _ _ _ _ _ HO Hb) in E; congruence).
  destruct (Open_child _ _ _ _ _ _ HO Hb Hne) as (c & Hc & HRc). rewrite (descendThrow_resolve _ _ _ _ _ Hc), bind_done.
  destruct c as [t|c].
  - change (note_leaf (Leaf t) acc) with (true, acc ++ [tr_item t]). cbn [negb]. pose proof (Rep_leaf_inv _ _ _ _ _ HRc) as (Em & _). destruct (IHb (acc ++ [tr_item t])) as (l & -> & Hl). exists (tr_item t :: l).
    split; [by rewrite <- app_assoc|]. apply (In_order_cons d p m b bs [tr_item t] l); try done. apply In_order_sub; [|by repeat constructor].
    intros x. rewrite list_elem_of_singleton, Em. split.
    + intros ->. exists (leaf_value t). by rewrite lookup_singleton_eq.
    + intros (v & [Hkx Hvx]%lookup_singleton_Some & Ed). destruct x as [k data]. rewrite <- Hvx in Ed. unfold leaf_key in Hkx. simpl in *. subst.
      by destruct (tr_item t).
  - change (note_leaf (Inner c) acc) with (true, acc). cbn [negb].
    destruct (IH (S d) (16 * p + b) c (sub d b m) all_branches acc HRc ltac:(lia)) as (l1 & -> & Hl1).
    { apply Forall_forall. intros x. by rewrite all_branches_spec. }
    { unfold all_branches. repeat (constructor; [|repeat constructor; lia]). constructor. }
    rewrite bind_done. destruct (IHb (acc ++ l1)) as (l & -> & Hl). exists (l1 ++ l). split; [by rewrite <- app_assoc|].
    apply (In_order_cons d p m b bs l1 l); try done. destruct Hl1 as [S1 I1]. apply In_order_sub; [|done]. intros x. rewrite I1, all_branches_spec.
    split; [by intros [_ ?] | intros ?; split; [apply nibble_range | done]].
Qed.

(** Visiting the leaves of a map gives its items in the order of their keys. *)
Theorem leaves_in_order M :
  Holds db mp M ->
  exists l, visitLeaves db mp (fun item acc => acc ++ [item]) [] = Done l
    /\ StronglySorted Z.lt (it_key <$> l) /\ forall x, x ∈ l <-> exists v, M !! it_key x = Some v /\ it_data x = v_data v.
Proof.
  intros [_ Hi HR]. unfold visitLeaves, visitNodes. destruct (mp_root mp) as [|n]; [done|]. fold note_leaf.
  destruct (visit_below_spec max_depth 0 0 n M all_branches [] HR) as (l & Hl & S1 & I1); [done | | |].
  - apply Forall_forall. intros x. by rewrite all_branches_spec.
  - unfold all_branches. repeat (constructor; [|repeat constructor; lia]). constructor.
  - exists l. cbn [snd]. change (fun node acc => _) with note_leaf. rewrite Hl. split_and!; [done | done|]. intros x. rewrite I1, all_branches_spec.
    split; [by intros [_ ?] | intros ?; split; [apply nibble_range | done]].
Qed.

End Leaves.
