(* ===== verification/ShaMapComplete.v ===== *)
(** * The state tree: a map is filled completely

    A map that asks a peer that has the tree for one missing node after the other gets
    all of them, in as many rounds as the tree has nodes at most. *)

From S2P Require Import Prelude HsTypes ShaMapNode ShaMap ShaMapRep ShaMapProps ShaMapOps ShaMapHash ShaMapInj ShaMapProof ShaMapCodec ShaMapStore ShaMapSync ShaMapPart ShaMapFill ShaMapReply.
From coqutil Require Import Datatypes.RecordSetters.
Import DoubleBraceUpdate.

#[local] Open Scope Z_scope.

#[local] Opaque be_bytes.

(** ** What is missing *)

(** The nodes whose branches are those with a hash. *)
Inductive Exact : Node -> Prop :=
| Exact_leaf t : Exact (Leaf t)
| Exact_inner n :
    (forall b, 0 <= b < 16 -> isEmptyBranch n b = (getChildHash n b =? 0)) -> (forall b c, getChild n b = Some c -> Exact c) ->
    Exact (Inner n).

Section Missing.

Context `{Hashers}.

(** The store of a map that writes what it gets. *)
Definition look (db : NodeStore) : Z -> option Node := fetchNodeNT db SHAMap_sync.

(** The places below a node whose nodes are not at hand. *)
Fixpoint missing (fuel : nat) (fetch : Z -> option Node) (n : Node) (id : SHAMapNodeID) : list SHAMapNodeID :=
  match fuel, n with
  | S fuel, Inner i =>
      concat ((fun b =>
        if isEmptyBranch i b then []
        else match resolve fetch i b with
             | Some c => missing fuel fetch c (getChildNodeID id b)
             | None => [getChildNodeID id b]
             end) <$> all_branches)
  | _, _ => []
  end.

(** The number of nodes of the tree that are not at hand below a node. *)
Fixpoint absent (fuel : nat) (fetch : Z -> option Node) (d : nat) (n : Node) (m : Items) : nat :=
  match fuel, n with
  | S fuel, Inner i =>
      sum_list_with (fun b =>
        if isEmptyBranch i b then 0%nat
        else match resolve fetch i b with
             | Some c => absent fuel fetch (S d) c (sub d b m)
             | None => length (tree_preimages (63 - d) (sub d b m))
             end) all_branches
  | _, _ => 0%nat
  end.

Definition branch_absent (fuel : nat) (fetch : Z -> option Node) (d : nat) (i : InnerNode Node) (m : Items) (b : Z) : nat :=
  if isEmptyBranch i b then 0%nat
  else match resolve fetch i b with
       | Some c => absent fuel fetch (S d) c (sub d b m)
       | None => length (tree_preimages (63 - d) (sub d b m))
       end.

Lemma absent_S fuel fetch d i m : absent (S fuel) fetch d (Inner i) m = sum_list_with (branch_absent fuel fetch d i m) all_branches.
Proof. done. Qed.

End Missing.

Lemma sum_le (f g : Z -> nat) l : (forall x, x ∈ l -> (f x <= g x)%nat) -> (sum_list_with f l <= sum_list_with g l)%nat.
Proof.
  induction l as [|x l IH]; intros Hl; [done|]. cbn [sum_list_with]. pose proof (Hl x ltac:(left)). specialize (IH (fun y Hy => Hl y (list_elem_of_further _ _ _ Hy))). lia.
Qed.

Lemma sum_lt (f g : Z -> nat) l x :
  (forall x, x ∈ l -> (f x <= g x)%nat) -> x ∈ l -> (f x < g x)%nat -> (sum_list_with f l < sum_list_with g l)%nat.
Proof.
  induction l as [|y l IH]; intros Hl Hx Hlt; [by apply not_elem_of_nil in Hx|]. cbn [sum_list_with].
  pose proof (sum_le f g l (fun z Hz => Hl z (list_elem_of_further _ _ _ Hz))). pose proof (Hl y ltac:(left)).
  apply elem_of_cons in Hx as [->|Hx]; [lia|]. specialize (IH (fun z Hz => Hl z (list_elem_of_further _ _ _ Hz)) Hx Hlt). lia.
Qed.

Lemma length_concat_branches (f : Z -> list Preimage) l : length (concat (f <$> l)) = sum_list_with (fun b => length (f b)) l.
Proof. induction l as [|x l IH]; [done|]. rewrite fmap_cons, concat_cons, length_app, IH. done. Qed.

Section Complete.

Context {HA : Hashers} (Hrange : hash_range) (Hchain : chainHashTypeG <> sha3).
Context (M : Items) (HMc : map_Forall codable M) (HM0 : M <> ∅).
Context (P : Preimage -> Prop) (HP : unmistakable M P).

#[local] Notation At := (At M).
#[local] Notation Right := (Right M).
#[local] Notation Env_right := (Env_right M P).

(** A node in its place in the tree, and the nodes a store has. *)
Record Good (d : nat) (n : Node) (m : Items) : Prop := {
  gd_at : At d m;
  gd_part : Part d n m;
  gd_exact : Exact n;
  gd_items : m <> ∅
}.

Definition Fetch_good (fetch : Z -> option Node) : Prop := forall h n, fetch h = Some n -> Right h n /\ Exact n.

Lemma Good_inner d n m b :
  Good d (Inner n) m -> 0 <= b < 16 ->
  (d < 64)%nat /\ (0 < d -> 2 <= size m)%nat /\ getChildHash n b = node_hash (S d) (sub d b m)
  /\ (isEmptyBranch n b = true <-> sub d b m = ∅) /\ At (S d) (sub d b m) /\ length (in_children n) = 16%nat.
Proof.
  intros [Hat HPt He Hne] Hb. inversion HPt as [|d' n' Hi1 Hi2 Hi3|d' n' m' H1 H2 H3 H4 H5 H6 H7 H8]; subst; [done|].
  inversion He as [|n' Hx _]; subst.
  split_and!; try done; [by apply H4 | | by apply At_sub].
  rewrite Hx, H4, Z.eqb_eq by done. split; [|intros ->; by rewrite tree_hash_empty]. intros E. by eapply sub_empty_hash.
Qed.

Lemma Good_child fetch d n m b c :
  Fetch_good fetch -> Good d (Inner n) m -> 0 <= b < 16 -> isEmptyBranch n b = false -> resolve fetch n b = Some c -> Good (S d) c (sub d b m).
Proof.
  intros HF HG Hb He Hc. destruct (Good_inner d n m b HG Hb) as (Hd & Hs & Hh & Hx & Hat & _).
  assert (Hne : sub d b m <> ∅) by (intros E; apply Hx in E; congruence). destruct HG as [_ HPt HE _].
  unfold resolve in Hc. destruct (getChild n b) as [c'|] eqn:Eg.
  - injection Hc as ->. split; [done | by eapply Part_getChild | | done]. inversion HE as [|n' _ Hc']; subst. by eapply Hc'.
  - destruct (HF _ _ Hc) as [HR Hex]. split; [done | | done | done]. by apply HR.
Qed.

Lemma absent_bound fetch h d n m :
  Fetch_good fetch -> Good d n m -> h = (64 - d)%nat -> (0 < d)%nat -> (absent h fetch d n m < length (tree_preimages h m))%nat.
Proof.
  intros HF. revert d n m. induction h as [|h IH]; intros d n m HG Hh Hd0.
  all: assert (Hpos : (0 < length (tree_preimages (64 - d) m))%nat).
  1, 3: destruct (At_cases M HMc HM0 d m (gd_at _ _ _ HG)) as [[-> _]|[(k & v & -> & _)|(Hne & Hd & Hs & _)]];
    [by destruct (gd_items _ _ _ HG) | rewrite tree_preimages_singleton; simpl; lia|];
    replace (64 - d)%nat with (S (63 - d)) by lia; rewrite tree_preimages_S by (apply Hs; lia); simpl; lia.
  - rewrite <- Hh in Hpos. done.
  - destruct n as [t|n]; [cbn [absent]; by rewrite Hh|]. rewrite absent_S.
    destruct (Good_inner d n m 0 HG ltac:(lia)) as (Hd & Hs & _). rewrite tree_preimages_S by (apply Hs; lia).
    replace (63 - h)%nat with d by lia. cbn [length]. rewrite length_concat_branches. apply Nat.lt_succ_r, sum_le. intros b Hb%all_branches_spec.
    unfold branch_absent. destruct (isEmptyBranch n b) eqn:Eb; [lia|]. destruct (resolve fetch n b) as [c|] eqn:Ec.
    + apply Nat.lt_le_incl, IH; [by eapply Good_child | lia | lia].
    + by replace (63 - d)%nat with h by lia.
Qed.

(** A change of one branch, and more nodes in the store. *)
Lemma absent_replace fetch fetch' h d n n' m b :
  Good d (Inner n) m -> in_hashes n' = in_hashes n -> in_isBranch n' = in_isBranch n ->
  (forall b', 0 <= b' < 16 -> b' <> b -> getChild n' b' = getChild n b') -> 0 <= b < 16 ->
  (forall b', 0 <= b' < 16 -> (branch_absent h fetch' d n m b' <= branch_absent h fetch d n m b')%nat) ->
  ((branch_absent h fetch' d n' m b <= branch_absent h fetch d n m b)%nat ->
   (absent (S h) fetch' d (Inner n') m <= absent (S h) fetch d (Inner n) m)%nat)
  /\ ((branch_absent h fetch' d n' m b < branch_absent h fetch d n m b)%nat ->
      (absent (S h) fetch' d (Inner n') m < absent (S h) fetch d (Inner n) m)%nat).
Proof.
  intros HG Hhs Hbr Hch Hb Hmono. rewrite !absent_S.
  assert (Hall : forall b', 0 <= b' < 16 -> b' <> b -> branch_absent h fetch' d n' m b' = branch_absent h fetch' d n m b').
  { intros b' Hb' Hne. unfold branch_absent, isEmptyBranch, resolve, getChildHash. by rewrite Hhs, Hbr, Hch. }
  assert (Hle : (branch_absent h fetch' d n' m b <= branch_absent h fetch d n m b)%nat ->
    forall b', b' ∈ all_branches -> (branch_absent h fetch' d n' m b' <= branch_absent h fetch d n m b')%nat).
  { intros Hle b' Hb'%all_branches_spec. destruct (decide (b' = b)) as [->|Hne]; [done|]. rewrite Hall by done. by apply Hmono. }
  split; intros Hb1; [apply sum_le, Hle, Hb1|]. eapply sum_lt; [apply Hle; lia | by apply all_branches_spec | done].
Qed.

Definition grows (fetch fetch' : Z -> option Node) : Prop := forall h c, fetch h = Some c -> fetch' h = Some c.

Lemma absent_mono fetch fetch' h d n m :
  Fetch_good fetch' -> grows fetch fetch' -> Good d n m -> h = (64 - d)%nat -> (absent h fetch' d n m <= absent h fetch d n m)%nat.
Proof.
  intros HF Hg. revert d n m. induction h as [|h IH]; intros d n m HG Hh; [done|]. destruct n as [t|n]; [done|]. rewrite !absent_S.
  apply sum_le. intros b Hb%all_branches_spec. unfold branch_absent. destruct (isEmptyBranch n b) eqn:Eb; [done|].
  destruct (resolve fetch n b) as [c|] eqn:Ec.
  - assert (Ec' : resolve fetch' n b = Some c). { unfold resolve in *. destruct (getChild n b); [done | by apply Hg]. }
    rewrite Ec'. apply IH; [by eapply Good_child | lia].
  - destruct (resolve fetch' n b) as [c|] eqn:Ec'; [|done]. replace (63 - d)%nat with h by lia. apply Nat.lt_le_incl, absent_bound; try done; [|lia..].
    by eapply Good_child.
Qed.

Lemma branch_mono fetch fetch' h d n m b :
  Fetch_good fetch' -> grows fetch fetch' -> Good d (Inner n) m -> h = (63 - d)%nat -> 0 <= b < 16 ->
  (branch_absent h fetch' d n m b <= branch_absent h fetch d n m b)%nat.
Proof.
  intros HF Hg HG Hh Hb. unfold branch_absent. destruct (isEmptyBranch n b) eqn:Eb; [done|].
  destruct (resolve fetch n b) as [c|] eqn:Ec.
  - assert (Ec' : resolve fetch' n b = Some c). { unfold resolve in *. destruct (getChild n b); [done | by apply Hg]. }
    rewrite Ec'. apply (absent_mono fetch fetch'); try done. by eapply Good_child.
  - destruct (resolve fetch' n b) as [c|] eqn:Ec'; [|done]. subst h. apply Nat.lt_le_incl.
    change (63 - d)%nat with (64 - S d)%nat. apply absent_bound; try done; [|lia]. by eapply Good_child.
Qed.

(** ** The store *)

Lemma decoded_exact data h n : makeFromPrefix data h = Done n -> Exact n.
Proof.
  assert (Hi : forall raw, makeFullInner raw (Some h) = Done n -> Exact n).
  { intros raw. unfold makeFullInner. destruct (negb _); [done|]. cbv zeta. set (hs := _ <$> all_branches). clearbody hs. intros [= <-].
    constructor; [|intros b c Hc; by rewrite (getChild_none _ b) in Hc]. intros b Hb. unfold isEmptyBranch. cbn [in_isBranch].
    apply eq_true_iff_eq. rewrite negb_true_iff, Z.eqb_eq. rewrite <- not_true_iff_false. unfold branch_bits.
    rewrite branch_bits_spec, all_branches_spec by (apply Forall_forall; intros x; rewrite all_branches_spec; lia).
    unfold getChildHash. cbn [in_hashes]. destruct (decide (default 0 (hs !! Z.to_nat b) = 0)); naive_solver. }
  unfold makeFromPrefix. destruct (_ <? _)%nat; [done|]. destruct (if default 0 (head data) =? 0 then _ else _) as [ty raw].
  unfold makeTransaction, makeAccountState, makeContractState, makeTransactionWithMeta, split_tag.
  repeat (case_match; simpl; try done); try (by eauto); intros [= <-]; constructor.
Qed.

Lemma look_good env : Env_right env -> Fetch_good (look (se_db env)).
Proof.
  intros He h n Hl. split; [by eapply fetch_Right|]. unfold look, fetchNodeNT in Hl. simpl in Hl. destruct (se_db env !! h) as [data|]; [|done].
  destruct (makeFromPrefix data h) as [x|] eqn:E; [|done]. injection Hl as ->. by eapply decoded_exact.
Qed.

Lemma look_backed db mp : mp_backed mp = true -> fetchNodeNT db mp = look db.
Proof. intros E. unfold look. by apply fetch_backed. Qed.

Lemma look_insert db h data : look db h = None -> grows (look db) (look (<[h := data]> db)).
Proof.
  intros Hn h' c Hc. assert (h' <> h) by congruence. unfold look, fetchNodeNT in *. by rewrite lookup_insert_ne by done.
Qed.

(** ** One level of adding a node *)

(** The parent with the child hooked to it. *)
Definition hooked (n : InnerNode Node) (b : Z) (c : Node) : InnerNode Node :=
  match getChild n b with Some _ => n | None => if kept c then shareChild b c n else n end.

Lemma descend_cases env mp n b :
  mp_backed mp = true -> se_packs env = ∅ ->
  descend_filter env mp (Some AccountStateSF) n b
  = match resolve (look (se_db env)) n b with Some c => (Some c, hooked n b c, env) | None => (None, n, env) end.
Proof.
  intros Hb Hp. unfold descend_filter, resolve, hooked, canonicalizeChild, fetchNodeNT_filter. rewrite (look_backed _ _ Hb).
  destruct (getChild n b) as [c|]; [done|]. destruct (look (se_db env) (getChildHash n b)) as [c|]; [done|].
  unfold checkFilter. cbn [AccountStateSF sf_getNode]. unfold getFetchPack_entry. by rewrite Hp, lookup_empty.
Qed.

Lemma Exact_share n b c : Exact (Inner n) -> Exact c -> Exact (Inner (shareChild b c n)).
Proof.
  intros Hn Hc. inversion Hn as [|n' H1 H2]; subst. constructor; [done|]. intros b' c'. unfold getChild, shareChild. cbn [in_children].
  destruct (decide (Z.to_nat b' = Z.to_nat b)) as [->|Hne]; [|rewrite list_lookup_insert_ne by done; apply H2].
  destruct (decide (Z.to_nat b < length (in_children n))%nat).
  - rewrite list_lookup_insert_eq by done. by intros [= <-].
  - rewrite list_insert_ge by lia. apply H2.
Qed.

Lemma hooked_child n b c : length (in_children n) = 16%nat -> 0 <= b < 16 ->
  getChild (hooked n b c) b = match getChild n b with Some x => Some x | None => if kept c then Some c else None end.
Proof.
  intros Hl Hb. unfold hooked. destruct (getChild n b) as [x|] eqn:E; [done|]. destruct (kept c); [|done].
  rewrite getChild_shareChild by done. by rewrite decide_True.
Qed.

Lemma hooked_same n b c :
  in_hashes (hooked n b c) = in_hashes n /\ in_isBranch (hooked n b c) = in_isBranch n /\ length (in_children (hooked n b c)) = length (in_children n)
  /\ forall b', 0 <= b' < 16 -> b' <> b -> 0 <= b < 16 -> length (in_children n) = 16%nat -> getChild (hooked n b c) b' = getChild n b'.
Proof.
  unfold hooked. destruct (getChild n b); [done|]. destruct (kept c); [|done]. split_and!; [done | done | simpl; by rewrite length_insert|].
  intros b' Hb' Hne Hb Hl. rewrite getChild_shareChild by done. by rewrite decide_False.
Qed.

(** The way down through a child. *)
Lemma relink_absent fetch fetch' d n m b c c1 :
  Fetch_good fetch' -> grows fetch fetch' -> Good d (Inner n) m -> 0 <= b < 16 -> isEmptyBranch n b = false ->
  resolve fetch n b = Some c -> Exact c1 -> (kept c = false -> c1 = c) ->
  let n' := relink b c1 (hooked n b c) in
  Exact c -> Exact (Inner n')
  /\ ((absent (63 - d) fetch' (S d) c1 (sub d b m) <= absent (63 - d) fetch (S d) c (sub d b m))%nat ->
      (absent (64 - d) fetch' d (Inner n') m <= absent (64 - d) fetch d (Inner n) m)%nat)
  /\ ((absent (63 - d) fetch' (S d) c1 (sub d b m) < absent (63 - d) fetch (S d) c (sub d b m))%nat ->
      (absent (64 - d) fetch' d (Inner n') m < absent (64 - d) fetch d (Inner n) m)%nat).
Proof.
  intros HF Hg HG Hb He Hc Hx1 Hk n' Hx. destruct (Good_inner d n m b HG Hb) as (Hd & _ & _ & _ & _ & Hl).
  destruct (hooked_same n b c) as (S1 & S2 & S3 & S4).
  assert (Hn' : in_hashes n' = in_hashes n /\ in_isBranch n' = in_isBranch n).
  { unfold n', relink. by destruct (getChild (hooked n b c) b). }
  assert (Hch : forall b', 0 <= b' < 16 -> b' <> b -> getChild n' b' = getChild n b').
  { intros b' Hb' Hne. unfold n', relink. destruct (getChild (hooked n b c) b); [|by apply S4]. rewrite getChild_shareChild by (done || congruence).
    rewrite decide_False by done. by apply S4. }
  assert (Hr : resolve fetch' n' b = Some c1).
  { unfold n', relink. rewrite hooked_child by done. unfold resolve in *. destruct (getChild n b) as [x|] eqn:Eg.
    - rewrite getChild_shareChild by (done || congruence). by rewrite decide_True.
    - destruct (kept c) eqn:Ek; [rewrite getChild_shareChild by (done || congruence); by rewrite decide_True|].
      unfold hooked. rewrite Eg, Ek, Eg. rewrite (Hk eq_refl). by apply Hg. }
  split.
  { unfold n', relink, hooked. destruct HG as [_ _ HE _]. destruct (getChild n b) as [x|] eqn:Eg; [rewrite Eg; by apply Exact_share|].
    destruct (kept c); [|by rewrite Eg]. destruct (getChild (shareChild b c n) b); [by apply Exact_share, Hx1; apply Exact_share | by apply Exact_share]. }
  replace (64 - d)%nat with (S (63 - d)) by lia.
  destruct (absent_replace fetch fetch' (63 - d) d n n' m b HG (proj1 Hn') (proj2 Hn') Hch Hb) as [H1 H2].
  { intros b' Hb'. by apply branch_mono. }
  assert (E1 : branch_absent (63 - d) fetch' d n' m b = absent (63 - d) fetch' (S d) c1 (sub d b m)).
  { unfold branch_absent. rewrite Hr. unfold isEmptyBranch in *. by rewrite (proj2 Hn'), He. }
  assert (E2 : branch_absent (63 - d) fetch d n m b = absent (63 - d) fetch (S d) c (sub d b m)).
  { unfold branch_absent. by rewrite Hc, He. }
  rewrite E1, E2 in H1, H2. done.
Qed.

(** A new node where none was at hand. *)
Lemma hook_absent fetch fetch' d n m b x :
  Fetch_good fetch' -> grows fetch fetch' -> Good d (Inner n) m -> 0 <= b < 16 -> isEmptyBranch n b = false ->
  resolve fetch n b = None -> Good (S d) x (sub d b m) ->
  let n' := if kept x then shareChild b x n else n in
  Exact (Inner n')
  /\ (absent (64 - d) fetch' d (Inner n') m <= absent (64 - d) fetch d (Inner n) m)%nat
  /\ (is_Some (fetch' (getChildHash n b)) -> (absent (64 - d) fetch' d (Inner n') m < absent (64 - d) fetch d (Inner n) m)%nat).
Proof.
  intros HF Hg HG Hb He Hc Hx n'. destruct (Good_inner d n m b HG Hb) as (Hd & _ & _ & _ & _ & Hl).
  assert (Hn' : in_hashes n' = in_hashes n /\ in_isBranch n' = in_isBranch n) by (unfold n'; by destruct (kept x)).
  assert (Hch : forall b', 0 <= b' < 16 -> b' <> b -> getChild n' b' = getChild n b').
  { intros b' Hb' Hne. unfold n'. destruct (kept x); [|done]. rewrite getChild_shareChild by done. by rewrite decide_False. }
  split; [unfold n'; destruct HG as [_ _ HE _], Hx as [_ _ HE' _]; destruct (kept x); [by apply Exact_share | done]|].
  replace (64 - d)%nat with (S (63 - d)) by lia.
  destruct (absent_replace fetch fetch' (63 - d) d n n' m b HG (proj1 Hn') (proj2 Hn') Hch Hb) as [H1 H2].
  { intros b' Hb'. by apply branch_mono. }
  assert (E2 : branch_absent (63 - d) fetch d n m b = length (tree_preimages (63 - d) (sub d b m))).
  { unfold branch_absent. by rewrite Hc, He. }
  assert (Hlt : forall z, resolve fetch' n' b = Some z -> Good (S d) z (sub d b m) ->
    (branch_absent (63 - d) fetch' d n' m b < branch_absent (63 - d) fetch d n m b)%nat).
  { intros z Hz Hgz. rewrite E2. unfold branch_absent. rewrite Hz. unfold isEmptyBranch in *. rewrite (proj2 Hn'), He.
    by apply absent_bound; [| |lia..]. }
  assert (Hg0 : getChild n b = None) by (unfold resolve in Hc; by destruct (getChild n b)).
  destruct (kept x) eqn:Ek; unfold n' in *.
  - assert (Hz : resolve fetch' (shareChild b x n) b = Some x) by (unfold resolve; rewrite getChild_shareChild by done; by rewrite decide_True).
    specialize (Hlt x Hz Hx). split; [apply H1; lia | intros _; by apply H2].
  - split; [apply H1; by apply branch_mono|]. intros [z Hz]. assert (Hrz : resolve fetch' n b = Some z) by (unfold resolve; by rewrite Hg0).
    apply H2, (Hlt z Hrz). by eapply Good_child.
Qed.

(** ** Adding a node *)

(** A place whose node is not at hand while its parent is. *)
Inductive Gap (fetch : Z -> option Node) : nat -> Z -> Node -> Items -> nat -> Z -> Items -> Prop :=
| Gap_here d p n m b :
    0 <= b < 16 -> isEmptyBranch n b = false -> resolve fetch n b = None -> Gap fetch d p (Inner n) m (S d) (16 * p + b) (sub d b m)
| Gap_below d p n m b c d' p' m' :
    0 <= b < 16 -> isEmptyBranch n b = false -> resolve fetch n b = Some c -> Gap fetch (S d) (16 * p + b) c (sub d b m) d' p' m' ->
    Gap fetch d p (Inner n) m d' p' m'.

Lemma Gap_Below fetch d p n m d' p' m' :
  Fetch_good fetch -> Good d n m -> Gap fetch d p n m d' p' m' -> Below d p m d' p' m' /\ m' <> ∅ /\ (d < d')%nat /\ At d' m'.
Proof.
  intros HF HG Hgap. induction Hgap as [d p n m b Hb He Hc|d p n m b c d' p' m' Hb He Hc Hgap IH];
    destruct (Good_inner d n m b HG Hb) as (Hd & Hs & _ & Hx & Hat & _);
    (assert (Hne : sub d b m <> ∅) by (intros E; apply Hx in E; congruence)).
  - split_and!; [|done|lia|done]. apply (Below_step d p m b); try done. constructor.
  - destruct IH as (HB & Hm & Hlt & Hat'); [by eapply Good_child|]. split_and!; [|done|lia|done]. by apply (Below_step d p m b).
Qed.

Definition fb_none : FullBelow := mkFullBelow (fun _ => false) (fun _ => false).

(** The node that fills a gap. *)
Definition Fills (x : Node) (d : nat) (m : Items) : Prop :=
  getNodeHash x = node_hash d m /\ (isInner x = true -> (d < 64)%nat) /\ exists y, makeFromPrefix (addRaw x snfPREFIX) (getNodeHash x) = Done y.

Definition filled (d : nat) (n : Node) (m : Items) (env : SyncEnv) (n' : Node) (env' : SyncEnv) : Prop :=
  Good d n' m /\ Env_right env' /\ se_packs env' = ∅ /\ grows (look (se_db env)) (look (se_db env'))
  /\ (absent (64 - d) (look (se_db env')) d n' m <= absent (64 - d) (look (se_db env)) d n m)%nat.

Lemma filled_same d n m env : Good d n m -> Env_right env -> se_packs env = ∅ -> filled d n m env n env /\ false = false.
Proof. intros. split; [|done]. split_and!; try done. by intros h c. Qed.

Lemma new_Good d n m b x :
  Good d (Inner n) m -> 0 <= b < 16 -> isEmptyBranch n b = false -> getChildHash n b = getNodeHash x -> Arrived P x -> Exact x ->
  Good (S d) x (sub d b m).
Proof.
  intros HG Hb Eb Ex [Hw Hin] Hx. destruct (Good_inner d n m b HG Hb) as (Hd & Hs & Hh & Hem & Hat & Hl).
  split; [done | | done | intros E; apply Hem in E; congruence]. apply (Wire_Right Hrange Hchain M HMc HM0 P HP x Hw Hin); [done|]. by rewrite <- Hh.
Qed.

Definition stored (env : SyncEnv) (h : Z) (x : Node) : SyncEnv := env {{ se_db := <[h := addRaw x snfPREFIX]> (se_db env) }}.

Lemma hook_new d n m b x env :
  Good d (Inner n) m -> Env_right env -> 0 <= b < 16 -> isEmptyBranch n b = false -> resolve (look (se_db env)) n b = None ->
  getChildHash n b = getNodeHash x -> Arrived P x -> Exact x ->
  let n' := if kept x then shareChild b x n else n in
  let env' := stored env (getChildHash n b) x in
  grows (look (se_db env)) (look (se_db env')) /\ (Exact (Inner n')
  /\ (absent (64 - d) (look (se_db env')) d (Inner n') m <= absent (64 - d) (look (se_db env)) d (Inner n) m)%nat)
  /\ ((exists y, makeFromPrefix (addRaw x snfPREFIX) (getNodeHash x) = Done y) ->
      (absent (64 - d) (look (se_db env')) d (Inner n') m < absent (64 - d) (look (se_db env)) d (Inner n) m)%nat).
Proof.
  intros HG He Hb Eb Ec Ex [Hw Hin] Hx n' env'.
  assert (Hgr : grows (look (se_db env)) (look (se_db env'))).
  { unfold env', stored. simpl. unfold constant. apply look_insert. unfold resolve in Ec. by destruct (getChild n b). }
  assert (HL : Lawful M P AccountStateSF) by (by apply AccountStateSF_lawful).
  assert (He' : Env_right env').
  { apply (lf_got M P (f := AccountStateSF) env false (getChildHash n b) (addRaw x snfPREFIX) tnERROR He). rewrite Ex. by apply (Wire_data Hrange Hchain M HMc HM0 P HP). }
  destruct (Good_inner d n m b HG Hb) as (Hd & Hs & Hh & Hem & Hat & Hl).
  assert (HGx : Good (S d) x (sub d b m)) by (by apply (new_Good d n)).
  destruct (hook_absent (look (se_db env)) (look (se_db env')) d n m b x) as (H1 & H2 & H3); try done; [by apply look_good|].
  split_and!; try done. intros [y Hy]. apply H3. exists y. unfold env', stored, look, fetchNodeNT. simpl. unfold constant. rewrite lookup_insert_eq.
  by rewrite Ex, Hy.
Qed.

(** No node of the tree is out of bounds. *)
Lemma hook_bounds d n m b x p :
  Good d (Inner n) m -> 0 <= b < 16 -> isEmptyBranch n b = false -> getChildHash n b = getNodeHash x -> Arrived P x -> Exact x ->
  isInBounds x (id_at (S d) (16 * p + b)) = true.
Proof.
  intros HG Hb Eb Ex Ha Hx. pose proof (new_Good d n m b x HG Hb Eb Ex Ha Hx) as [_ HPt _ Hne]. unfold isInBounds. destruct x as [t|x]; [done|].
  inversion HPt; subst; [done|]. cbn [isInner negb orb id_at ni_depth]. apply Z.ltb_lt. lia.
Qed.

Lemma add_known_fill fuel mp fb nn target d p n m env r bad n' env' :
  mp_backed mp = true -> se_packs env = ∅ -> Good d n m -> Env_right env -> (forall x, nn = Some x -> Arrived P x /\ Exact x) ->
  add_known fuel mp (Some AccountStateSF) fb nn target env n (id_at d p) = (r, bad, n', env') -> filled d n m env n' env' /\ bad = false.
Proof.
  intros Hbk Hpk HG He Hnn. revert d p n m env r bad n' env' Hpk HG He.
  induction fuel as [|fuel IH]; intros d p n m env r bad n' env' Hpk HG He Hadd; pose proof Hadd as Hadd'; cbn [add_known] in Hadd.
  { injection Hadd as <- <- <- <-. by apply filled_same. }
  destruct n as [t|n]; [injection Hadd as <- <- <- <-; by apply filled_same|].
  destruct (Good_inner d n m 0 HG ltac:(lia)) as (Hd & _ & _ & _ & _ & Hl).
  destruct (_ || _); [injection Hadd as <- <- <- <-; by apply filled_same|]. rewrite (selectBranch_nibble (id_at d p) _ d) in Hadd by done.
  pose proof (nibble_range d (ni_nodeID target)) as Hb. set (b := nibble d _) in *.
  destruct (isEmptyBranch n b) eqn:Eb; [injection Hadd as <- <- <- <-; by apply filled_same|].
  destruct (fb_cache _ _); [injection Hadd as <- <- <- <-; by apply filled_same|].
  assert (HL : forall f', Some AccountStateSF = Some f' -> Lawful M P f') by (intros f' [= <-]; by apply AccountStateSF_lawful).
  assert (Hpart : Part d n' m /\ Env_right env').
  { apply (add_known_Part Hrange Hchain M HMc HM0 P HP _ HL (S fuel) mp fb nn target d (Inner n) m (id_at d p) env r bad); [apply HG | apply HG | done | done | | exact Hadd']. intros x Hx. by apply Hnn. }
  rewrite descend_cases in Hadd by done. destruct (resolve (look (se_db env)) n b) as [c|] eqn:Ec.
  - rewrite child_id in Hadd by done. destruct (add_known fuel _ _ _ _ _ _ _ _) as [[[r1 bad1] c1] env1] eqn:Ea. injection Hadd as <- <- <- <-.
    assert (HGc : Good (S d) c (sub d b m)) by (by eapply Good_child; [apply look_good|..]).
    pose proof (IH _ _ _ _ _ _ _ _ _ Hpk HGc He Ea) as [(HGc1 & He1 & Hp1 & Hg1 & Ha1) ->].
    destruct (relink_absent (look (se_db env)) (look (se_db env1)) d n m b c c1) as (R1 & R2 & _); try done; [by apply look_good | apply HGc1 | | apply HGc|].
    { intros Hk. destruct c as [t|i]; [|done]. destruct fuel; cbn [add_known] in Ea; by injection Ea. }
    split; [|done]. split_and!; try done; [split; [apply HG | apply Hpart | done | apply HG]|]. by apply R2.
  - destruct nn as [x|]; [|injection Hadd as <- <- <- <-; by apply filled_same].
    destruct (Z.eqb_spec (getChildHash n b) (getNodeHash x)) as [Ex|]; [|injection Hadd as <- <- <- <-; by apply filled_same].
    cbn [negb] in Hadd. rewrite child_id, (hook_bounds d n m b x p HG Hb Eb Ex) in Hadd by (done || by apply Hnn). cbn [negb] in Hadd.
    destruct (negb _); [injection Hadd as <- <- <- <-; by apply filled_same|].
    destruct (hook_new d n m b x env HG He Hb Eb Ec Ex) as (K1 & K2 & K3); [by apply Hnn..|].
    assert (Hg0 : getChild n b = None) by (unfold resolve in Ec; by destruct (getChild n b)).
    unfold canonicalizeChild in Hadd. rewrite Hg0 in Hadd. injection Hadd as <- <- <- <-.
    change (tell (Some AccountStateSF) (getChildHash n b) x env) with (stored env (getChildHash n b) x) in Hpart |- *.
    split; [|done]. split_and!; [split; [apply HG | apply Hpart | apply K2 | apply HG] | apply Hpart | done | done | apply K2].
Qed.

End Complete.

(** ** Rounds of requests *)

Lemma concat_nil_inv {A} (l : list (list A)) x : concat l = [] -> x ∈ l -> x = [].
Proof.
  induction l as [|y l IH]; intros Hl Hx; [by apply not_elem_of_nil in Hx|]. rewrite concat_cons in Hl. apply app_eq_nil in Hl as [-> Hl].
  apply elem_of_cons in Hx as [->|Hx]; [done | by apply IH].
Qed.

Section Requests.

Context `{Hashers}.

(** The places that are missing in a map. *)
Definition missing_nodes (mp : SHAMap) (env : SyncEnv) : list SHAMapNodeID :=
  missing max_depth (look (se_db env)) (mp_root mp) root_id.

(** What a peer replies to a request for a place. *)
Definition reply (pdb : NodeStore) (peer : SHAMap) (fatLeaves : bool) (depth : Z) (id : SHAMapNodeID) : list PeerNode :=
  match getNodeFat pdb peer id fatLeaves depth with
  | Done (Some l) => (fun e => KnownNode fb_none e.1 e.2) <$> l
  | _ => []
  end.

(** A round: one of the missing places, [choose] says which, is asked for. *)
Definition sync_round (choose : list SHAMapNodeID -> SHAMapNodeID) (pdb : NodeStore) (peer : SHAMap) (fatLeaves : bool) (depth hash : Z)
    (s : SHAMap * SyncEnv) : SHAMap * SyncEnv :=
  match missing_nodes s.1 s.2 with
  | [] => s
  | ids => take_nodes (Some AccountStateSF) hash s (reply pdb peer fatLeaves depth (choose ids))
  end.

(** First the root, then rounds. *)
Definition sync (choose : list SHAMapNodeID -> SHAMapNodeID) (pdb : NodeStore) (peer : SHAMap) (fatLeaves : bool) (depth hash : Z) (rounds : nat)
    (s : SHAMap * SyncEnv) : SHAMap * SyncEnv :=
  Nat.iter rounds (sync_round choose pdb peer fatLeaves depth hash)
    (take_node (Some AccountStateSF) hash s (RootNode (getRootNode peer snfWIRE))).

End Requests.

Section Rounds.

Context {HA : Hashers} (Hrange : hash_range) (Hchain : chainHashTypeG <> sha3).
Context (M : Items) (HMc : map_Forall codable M) (HM0 : M <> ∅).
Context (P : Preimage -> Prop) (HP : unmistakable M P) (HPM : forall x, x ∈ root_preimages M -> P x).

#[local] Notation At := (At M).
#[local] Notation Good := (Good M).
#[local] Notation Fetch_good := (Fetch_good M).
#[local] Notation Env_right := (Env_right M P).

(** ** The node of a gap *)

Lemma add_known_gap d p n m d' p' m' mp x env :
  Gap (look (se_db env)) d p n m d' p' m' -> mp_backed mp = true -> se_packs env = ∅ -> Good d n m -> Env_right env ->
  Arrived P x -> Exact x -> Fills x d' m' ->
  exists n' env', add_known (d' - d) mp (Some AccountStateSF) fb_none (Some x) (id_at d' p') env n (id_at d p) = (useful, false, n', env')
    /\ (absent (64 - d) (look (se_db env')) d n' m < absent (64 - d) (look (se_db env)) d n m)%nat.
Proof.
  intros Hgap Hbk Hpk HG He Ha Hx. pose proof (look_good M P env He) as HF.
  induction Hgap as [d p n m b Hb Eb Ec|d p n m b c d' p' m' Hb Eb Ec Hgap IH]; intros (Hh & Hin & Hy);
    destruct (Good_inner Hrange M HMc HM0 d n m b HG Hb) as (Hd & Hs & Hch & Hem & Hat & Hl).
  - replace (S d - d)%nat with 1%nat by lia. cbn [add_known fb_none fb_node fb_cache orb]. cbn [id_at ni_depth]. fold (id_at d p). fold (id_at (S d) (16 * p + b)).
    rewrite (proj2 (Z.ltb_lt _ _)) by lia. cbn [negb].
    rewrite (Below_branch d p b (sub d b m) (S d) (16 * p + b) (sub d b m)) by (done || constructor). rewrite Eb, descend_cases, Ec by done.
    assert (Ex : getChildHash n b = getNodeHash x) by (by rewrite Hch, Hh). rewrite (proj2 (Z.eqb_eq _ _) Ex). cbn [negb].
    rewrite child_id by done. rewrite (hook_bounds Hrange Hchain M HMc HM0 P HP d n m b x p HG Hb Eb Ex Ha Hx), same_id_refl. cbn [negb].
    assert (Hg0 : getChild n b = None) by (unfold resolve in Ec; by destruct (getChild n b)). unfold canonicalizeChild. rewrite Hg0.
    do 2 eexists. split; [done|]. destruct (hook_new Hrange Hchain M HMc HM0 P HP d n m b x env HG He Hb Eb Ec Ex Ha Hx) as (_ & _ & K). by apply K.
  - assert (HGc : Good (S d) c (sub d b m)) by (by eapply Good_child).
    destruct (Gap_Below Hrange M HMc HM0 _ _ _ _ _ _ _ _ HF HGc Hgap) as (HB & _ & Hlt & _).
    destruct (IH HGc) as (c1 & env1 & Ea & Hab); [done|].
    replace (d' - d)%nat with (S (d' - S d)) by lia. cbn [add_known fb_none fb_node fb_cache orb]. cbn [id_at ni_depth]. fold (id_at d p). fold (id_at d' p').
    rewrite (proj2 (Z.ltb_lt _ _)) by lia. cbn [negb]. rewrite (Below_branch d p b _ d' p' m' HB Hd Hb), Eb, descend_cases, Ec by done.
    rewrite child_id, Ea by done. do 2 eexists. split; [done|].
    assert (Hnn : forall y, Some x = Some y -> Arrived P y /\ Exact y) by (by intros y [= <-]).
    pose proof (add_known_fill Hrange Hchain M HMc HM0 P HP _ _ _ _ _ _ _ _ _ _ _ _ _ _ Hbk Hpk HGc He Hnn Ea) as [(HGc1 & He1 & Hp1 & Hg1 & _) _].
    destruct (relink_absent Hrange M HMc HM0 (look (se_db env)) (look (se_db env1)) d n m b c c1) as (_ & _ & R); try done;
      [by eapply look_good | apply HGc1 | | apply HGc | by apply R].
    intros Hk. destruct c as [t|i]; [by inversion Hgap | done].
Qed.

Lemma missing_Gap fetch h d p n m id :
  Fetch_good fetch -> Good d n m -> h = (64 - d)%nat -> id ∈ missing h fetch n (id_at d p) ->
  exists d' p' m', id = id_at d' p' /\ Gap fetch d p n m d' p' m'.
Proof.
  intros HF. revert d p n m. induction h as [|h IH]; intros d p n m HG Hh Hin; [by apply not_elem_of_nil in Hin|].
  destruct n as [t|n]; [by apply not_elem_of_nil in Hin|]. cbn [missing] in Hin. destruct (Good_inner Hrange M HMc HM0 d n m 0 HG ltac:(lia)) as (Hd & _).
  apply list_elem_of_In, in_concat in Hin as (l & Hl & Hin). apply list_elem_of_In, list_elem_of_fmap in Hl as (b & -> & Hb%all_branches_spec).
  apply list_elem_of_In in Hin. destruct (isEmptyBranch n b) eqn:Eb; [by apply not_elem_of_nil in Hin|]. rewrite child_id in Hin by done.
  destruct (resolve fetch n b) as [c|] eqn:Ec.
  - destruct (IH (S d) (16 * p + b) c (sub d b m)) as (d' & p' & m' & -> & Hgap); [by eapply Good_child | lia | done|].
    exists d', p', m'. split; [done|]. by eapply Gap_below.
  - apply list_elem_of_singleton in Hin as ->. do 3 eexists. split; [done|]. by apply Gap_here.
Qed.

(** ** Nodes of an honest peer *)

Lemma Below_At d p m d' p' m' : Below d p m d' p' m' -> At d m -> At d' m'.
Proof. induction 1 as [|d p m b d' p' m' Hd Hb Hs Hne HB IH]; [done|]. intros Hat. apply IH. by apply At_sub. Qed.

Lemma sent_arrives pdb peer n :
  Sent pdb peer 0 0 M n ->
  exists x, makeFromWire (addRaw n snfWIRE) = Done (Some x) /\ Arrived P x /\ Exact x
    /\ forall d p m, Rep (fetchNodeNT pdb peer) d p n m -> m ⊆ M -> m <> ∅ -> getSeq n = 0 -> (d = 0%nat -> isInner n = true) -> Fills x d m.
Proof.
  intros (d & p & m & HB & Hne & HR & Hs & Hi). pose proof (Below_At _ _ _ _ _ _ HB eq_refl) as Hat.
  assert (Hcm : map_Forall codable m) by (intros k v Hk; apply HMc; eapply lookup_weaken; [done | by eapply Below_sub_items]).
  destruct (Rep_sent Hrange pdb peer d p n m HR Hs Hcm Hne Hi) as (Hcd & Hr & Hw). rewrite Hw. eexists. split; [done|]. rewrite <- Hr.
  assert (Hx : Exact (decoded n (recomputed n))).
  { destruct n as [t|n]; [constructor|]. constructor; [apply Hcd|]. intros b c Hc. by rewrite (getChild_none _ b) in Hc. }
  split_and!; [|done|].
  - split.
    + destruct n as [t|n]; [split; [by left | done]|]. split; [|done]. split; [apply Hcd | apply Hcd | done|].
      intros b Hb Hn. change (isEmptyBranch n b = false). rewrite (pl_bits _ Hcd b Hb). by apply Z.eqb_neq.
    + apply HPM. destruct (At_cases M HMc HM0 d m Hat) as [[-> _]|[(k & v & -> & Hd & Hv & Hc & Hpre)|(_ & Hd & Hsz & Hh & Hpre)]]; [done|..].
      * destruct n as [t|n]; [|inversion HR as [|? ? ? ? ? Hsz]; subst; specialize (Hsz Hd); rewrite map_size_singleton in Hsz; lia].
        pose proof (Rep_leaf_inv _ _ _ _ _ HR) as (E & _). assert (El : ({[k := v]} : Items) !! leaf_key t = Some (leaf_value t)) by (by rewrite E, lookup_singleton_eq).
        apply lookup_singleton_Some in El as [-> ->]. exact Hpre.
      * destruct n as [t|n].
        { pose proof (Rep_leaf_inv _ _ _ _ _ HR) as (-> & _). destruct d; [by specialize (Hi eq_refl)|]. rewrite map_size_singleton in Hsz. lia. }
        change (inner_preimage (in_hashes n) ∈ root_preimages M). rewrite (Plain_hashes n Hcd).
        replace (getChildHash n <$> all_branches) with ((fun b => tree_hash (63 - d) (sub d b m)) <$> all_branches); [done|].
        apply list_fmap_ext. intros i b Hb. symmetry. assert (Hp : Proper_items m) by (intros k v Hk; by destruct (Hcm k v Hk)).
        apply (hashed_child Hrange d p pdb peer n m b HR (Rep_shared_hash pdb peer d p n m HR Hs) Hp Hne), all_branches_spec. by eapply list_elem_of_lookup_2.
  - intros d' p' m' HR' Hsub' Hne' Hs' Hi'. assert (Hcm' : map_Forall codable m') by (intros k v Hk; apply HMc; by eapply lookup_weaken).
    destruct (Rep_sent Hrange pdb peer d' p' n m' HR' Hs' Hcm' Hne' Hi') as (_ & Hr' & _).
    split_and!; [by destruct n | |].
    + intros Hin. destruct n as [t|n]; [done|]. apply (fd_depth _ _ _ _ _ (proj1 (Rep_open _ _ _ _ _ HR'))).
    + eexists. replace (addRaw (decoded n (recomputed n)) snfPREFIX) with (addRaw n snfPREFIX) by (by destruct n as [[[] [] ? ? ?]|]). by apply prefix_round.
Qed.

(** ** The map between rounds *)

Record Synced (s : SHAMap * SyncEnv) : Prop := {
  sy_backed : mp_backed s.1 = true;
  sy_state : isSynching s.1 = true;
  sy_packs : se_packs s.2 = ∅;
  sy_good : Good 0 (mp_root s.1) M;
  sy_env : Env_right s.2
}.

Definition gap_count (s : SHAMap * SyncEnv) : nat := absent 64 (look (se_db s.2)) 0 (mp_root s.1) M.

Lemma take_known s hash fb id raw x :
  Synced s -> makeFromWire raw = Done (Some x) -> Arrived P x -> Exact x ->
  let s' := take_node (Some AccountStateSF) hash s (KnownNode fb id raw) in
  Synced s' /\ (gap_count s' <= gap_count s)%nat
  /\ (forall d p m, fb = fb_none -> id = id_at d p -> Gap (look (se_db s.2)) 0 0 (mp_root s.1) M d p m -> Fills x d m ->
        (gap_count s' < gap_count s)%nat).
Proof.
  destruct s as [mp env]. intros [Hbk Hst Hpk HG He] Hw Ha Hx. cbn [fst snd] in *. unfold take_node, add_peer_node. cbn [fst snd].
  unfold addKnownNode. rewrite Hst, Hw, bind_done. cbn [negb].
  destruct (add_known (Z.to_nat (ni_depth id)) mp (Some AccountStateSF) fb (Some x) id env (mp_root mp) root_id) as [[[r bad] n'] env'] eqn:Ea.
  assert (Hnn : forall y, Some x = Some y -> Arrived P y /\ Exact y) by (by intros y [= <-]). change root_id with (id_at 0 0) in Ea.
  pose proof (add_known_fill Hrange Hchain M HMc HM0 P HP _ _ _ _ _ _ _ _ _ _ _ _ _ _ Hbk Hpk HG He Hnn Ea) as [(HG1 & He1 & Hp1 & Hg1 & Hle) ->].
  split_and!; [by split | exact Hle|]. intros d p m -> -> Hgap Hf. cbn [id_at ni_depth] in Ea. rewrite Nat2Z.id in Ea. fold (id_at d p) in Ea.
  destruct (add_known_gap 0 0 (mp_root mp) M d p m mp x env Hgap Hbk Hpk HG He Ha Hx Hf) as (n1 & env1 & Ea1 & Hlt).
  rewrite Nat.sub_0_r in Ea1. change (id_at 0 0) with root_id in Ea, Ea1. rewrite Ea1 in Ea. by injection Ea as _ <- <-.
Qed.

Lemma Below_trans d p m d1 p1 m1 d2 p2 m2 : Below d p m d1 p1 m1 -> Below d1 p1 m1 d2 p2 m2 -> Below d p m d2 p2 m2.
Proof. induction 1 as [|d p m b d1 p1 m1 Hd Hb Hs Hne HB IH]; [done|]. intros H2. apply (Below_step d p m b); try done. by apply IH. Qed.

Lemma Sent_up pdb peer d p m n : Below 0 0 M d p m -> Sent pdb peer d p m n -> Sent pdb peer 0 0 M n.
Proof. intros HB (d' & p' & m' & HB' & Hrest). exists d', p', m'. split; [by eapply Below_trans | done]. Qed.

Lemma take_entries pdb peer s hash l :
  Synced s -> Forall (Entry pdb peer 0 0 M) l ->
  let s' := take_nodes (Some AccountStateSF) hash s ((fun e => KnownNode fb_none e.1 e.2) <$> l) in
  Synced s' /\ (gap_count s' <= gap_count s)%nat.
Proof.
  intros Hs Hl. revert s Hs. induction Hl as [|[id raw] l (n & Er & Hn) Hl IH]; intros s Hs; [by split|]. cbn [snd] in Er.
  rewrite fmap_cons. cbn [take_nodes fold_left fst snd].
  destruct (sent_arrives pdb peer n Hn) as (x & Hx & Ha & Hex & _). rewrite <- Er in Hx.
  destruct (take_known s hash fb_none id raw x Hs Hx Ha Hex) as (Hs1 & Hle & _). destruct (IH _ Hs1) as [Hs2 Hle2]. split; [done|].
  unfold take_nodes in Hle2. lia.
Qed.

Context (pdb : NodeStore) (peer : SHAMap) (Hpeer : Holds pdb peer M) (Hshared : getSeq (mp_root peer) = 0).

Context (choose : list SHAMapNodeID -> SHAMapNodeID) (Hchoose : forall ids, ids <> [] -> choose ids ∈ ids).

(** A round with something missing makes progress. *)
Lemma round_progress fatLeaves depth s :
  Synced s -> missing_nodes s.1 s.2 <> [] ->
  let s' := sync_round choose pdb peer fatLeaves depth (root_hash M) s in Synced s' /\ (gap_count s' < gap_count s)%nat.
Proof.
  intros Hs Hm. unfold sync_round. destruct (missing_nodes s.1 s.2) as [|id' ids] eqn:Em; [done|].
  specialize (Hchoose (id' :: ids) Hm). set (id := choose _) in *. clearbody id.
  assert (HF : Fetch_good (look (se_db s.2))) by (eapply look_good, Hs).
  destruct (missing_Gap (look (se_db s.2)) max_depth 0 0 (mp_root s.1) M id HF (sy_good _ Hs) eq_refl) as (d & p & m & -> & Hgap).
  { change (id_at 0 0) with root_id. fold (missing_nodes s.1 s.2). by rewrite Em. }
  destruct (Gap_Below Hrange M HMc HM0 _ _ _ _ _ _ _ _ HF (sy_good _ Hs) Hgap) as (HB & Hne & _ & _).
  destruct (getNodeFat_spec Hrange pdb peer M d p m fatLeaves depth Hpeer Hshared HMc HB Hne) as (n & rest & Hg & HR & Hn & Hi & Hall).
  unfold reply. rewrite Hg, fmap_cons. cbn [take_nodes fold_left fst snd]. apply Forall_cons in Hall as [(n0 & E0 & Hn0) Hall]. cbn [snd] in E0.
  assert (Hsent : Sent pdb peer 0 0 M n) by (by exists d, p, m).
  destruct (sent_arrives pdb peer n Hsent) as (x & Hx & Ha & Hex & Hfill).
  destruct (take_known s (root_hash M) fb_none (id_at d p) _ x Hs Hx Ha Hex) as (Hs1 & _ & Hlt).
  assert (Hf : Fills x d m) by (apply (Hfill d p m); try done; by eapply Below_sub_items).
  specialize (Hlt d p m eq_refl eq_refl Hgap Hf).
  destruct (take_entries pdb peer _ (root_hash M) rest Hs1) as [Hs2 Hle].
  { eapply Forall_impl; [exact Hall|]. intros e (n' & E & Hn'). exists n'. split; [done | by eapply Sent_up]. }
  split; [exact Hs2|]. unfold take_nodes in Hle. lia.
Qed.

Lemma rounds_complete fatLeaves depth k s :
  Synced s -> (gap_count s <= k)%nat ->
  let s' := Nat.iter k (sync_round choose pdb peer fatLeaves depth (root_hash M)) s in Synced s' /\ missing_nodes s'.1 s'.2 = [].
Proof.
  intros Hs Hk. assert (Hiter : Synced (Nat.iter k (sync_round choose pdb peer fatLeaves depth (root_hash M)) s)
    /\ (gap_count (Nat.iter k (sync_round choose pdb peer fatLeaves depth (root_hash M)) s) <= gap_count s - k
        \/ missing_nodes (Nat.iter k (sync_round choose pdb peer fatLeaves depth (root_hash M)) s).1 (Nat.iter k (sync_round choose pdb peer fatLeaves depth (root_hash M)) s).2 = [])%nat).
  { clear Hk. induction k as [|k [IH1 IH2]]; [split; [done | left; simpl; lia]|]. cbn [Nat.iter nat_rect]. fold (Nat.iter k (sync_round choose pdb peer fatLeaves depth (root_hash M)) s).
    set (t := Nat.iter k _ s) in *. destruct (decide (missing_nodes t.1 t.2 = [])) as [E|E].
    - unfold sync_round at 1 2 3 4. rewrite E. split; [done | by right].
    - destruct IH2 as [IH2|?]; [|done]. destruct (round_progress fatLeaves depth t IH1 E) as [H1 H2]. split; [done|]. left. lia. }
  destruct Hiter as [H1 [H2|H2]]; [|done]. split; [done|]. destruct (decide (missing_nodes (Nat.iter k (sync_round choose pdb peer fatLeaves depth (root_hash M)) s).1
    (Nat.iter k (sync_round choose pdb peer fatLeaves depth (root_hash M)) s).2 = [])) as [|E]; [done|].
  destruct (round_progress fatLeaves depth _ H1 E) as [_ H3]. lia.
Qed.

(** ** A map with nothing missing *)

Lemma walk_complete h d p n m db mp k stack :
  mp_backed mp = true -> Fetch_good (look db) -> Good d n m -> h = (64 - d)%nat -> missing h (look db) n (id_at d p) = [] ->
  exists r, walk h db mp k n (id_at d p) stack = Done r.
Proof.
  intros Hbk HF. revert d p n m stack. induction h as [|h IH]; intros d p n m stack HG Hh Hm; (destruct n as [t|n]; [by eexists|]).
  all: destruct (Good_inner Hrange M HMc HM0 d n m 0 HG ltac:(lia)) as (Hd & _).
  { lia. }
  cbn [walk]. rewrite (selectBranch_nibble (id_at d p) k d) by done. pose proof (nibble_range d k) as Hb. set (b := nibble d k) in *.
  destruct (isEmptyBranch n b) eqn:Eb; [by eexists|]. unfold descendThrow, descend. rewrite (look_backed _ _ Hbk). fold (resolve (look db) n b).
  cbn [missing] in Hm. assert (Hmb : (if isEmptyBranch n b then [] else match resolve (look db) n b with
    | Some c => missing h (look db) c (getChildNodeID (id_at d p) b) | None => [getChildNodeID (id_at d p) b] end) = []).
  { eapply concat_nil_inv; [exact Hm|]. apply list_elem_of_fmap. exists b. split; [done|]. by apply all_branches_spec. }
  rewrite Eb in Hmb. destruct (resolve (look db) n b) as [c|] eqn:Ec; [|done]. rewrite bind_done. rewrite child_id in * by done.
  apply (IH (S d) (16 * p + b) c (sub d b m)); [by eapply Good_child | lia | done].
Qed.

End Rounds.
