(* ===== verification/ShaMapSyncTheorems.v ===== *)
(** * The state tree: theorems on synchronisation

    That nothing peers send makes a map answer wrongly, that an honest peer fills it, and
    that one message from a dishonest peer keeps it from being filled. *)

From S2P Require Import Prelude HsTypes ShaMapNode ShaMap ShaMapRep ShaMapProps ShaMapOps ShaMapHash ShaMapInj ShaMapProof ShaMapCodec ShaMapStore ShaMapRun ShaMapTheorems ShaMapSync ShaMapPart ShaMapFill ShaMapReply ShaMapComplete.
From coqutil Require Import Datatypes.RecordSetters.
Import DoubleBraceUpdate.

#[local] Open Scope Z_scope.

#[local] Opaque be_bytes.

Section Theorems.

Context {HA : Hashers}.

(** The filters the program uses. *)
Definition program_filter (f : option SyncFilter) : Prop :=
  f = None \/ f = Some AccountStateSF \/ f = Some TransactionStateSF \/ exists readable, f = Some (ConsensusTransSetSF readable).

Lemma program_filter_lawful M P f :
  hash_range -> chainHashTypeG <> sha3 -> map_Forall codable M -> M <> ∅ -> unmistakable M P -> program_filter f ->
  forall f', f = Some f' -> Lawful M P f'.
Proof.
  intros Hr Hc HM H0 HP [->|[->|[->|[readable ->]]]] f' [= <-];
    [by apply AccountStateSF_lawful | by apply TransactionStateSF_lawful | by apply ConsensusTransSetSF_lawful].
Qed.

(** C5: whatever peers send, in whatever order and with whatever bytes, and whatever the
    filter of the map has under the right hashes, a lookup in the map that is being filled
    gives what the tree with the wanted root hash has or reports a missing node: a key is
    never said to have other data, and never said not to be there when it is, unless two
    of the strings involved have the same hash. *)
Theorem sync_never_lies M P f ps env k :
  hash_range -> chainHashTypeG <> sha3 -> map_Forall codable M -> M <> ∅ -> unmistakable M P -> program_filter f ->
  known_env P env -> Forall (known_node P) ps ->
  let s := take_nodes f (root_hash M) (SHAMap_sync, env) ps in
  getNodeHash (mp_root s.1) <> 0 ->
  match findKey (se_db s.2) s.1 k with
  | Done (Some t) => leaf_key t = k /\ M !! k = Some (leaf_value t)
  | Done None => M !! k = None
  | Fault _ => True
  end.
Proof.
  intros Hr Hc HM H0 HP Hf He Hps s Hs.
  assert (HF : Filling M P s).
  { apply take_nodes_filling; try done; [by apply program_filter_lawful|]. split; [by apply known_env_right | left; by eexists]. }
  destruct HF as [HE [[q Hq]|HPt]]; [by rewrite Hq in Hs|].
  destruct (findKey (se_db s.2) s.1 k) as [r|] eqn:E; [|done].
  by apply (findKey_Part M HM H0 P s.2 s.1 k r HE HPt).
Qed.

(** ** The root of an honest peer *)

Lemma absent_root M P env n :
  hash_range -> map_Forall codable M -> M <> ∅ -> Env_right M P env -> Good M 0 n M ->
  (absent 64 (look (se_db env)) 0 n M <= length (root_preimages M))%nat.
Proof.
  intros Hr HM H0 He HG. pose proof (look_good M P env He) as HF. destruct n as [t|n]; [cbn [absent]; lia|]. rewrite absent_S, (root_preimages_M M H0).
  cbn [length]. rewrite length_concat_branches. apply Nat.le_le_succ_r, sum_le. intros b Hb%all_branches_spec. unfold branch_absent.
  destruct (isEmptyBranch n b) eqn:Eb; [lia|]. destruct (resolve (look (se_db env)) n b) as [c|] eqn:Ec; [|done].
  apply Nat.lt_le_incl, (absent_bound Hr M HM H0); [done | by eapply Good_child | done | lia].
Qed.

Lemma take_root M P pdb peer env :
  hash_range -> chainHashTypeG <> sha3 -> map_Forall codable M -> M <> ∅ -> unmistakable M P -> (forall x, x ∈ root_preimages M -> P x) ->
  Holds pdb peer M -> getSeq (mp_root peer) = 0 -> Env_right M P env -> se_packs env = ∅ ->
  let s := take_node (Some AccountStateSF) (root_hash M) (SHAMap_sync, env) (RootNode (getRootNode peer snfWIRE)) in
  Synced M P s /\ (gap_count M s <= length (root_preimages M))%nat.
Proof.
  intros Hr Hc HM H0 HP HPM Hpeer Hs He Hpk. destruct Hpeer as [Hq Hi HR].
  assert (Hsent : Sent pdb peer 0 0 M (mp_root peer)) by (exists 0%nat, 0, M; split_and!; [constructor | done..]).
  destruct (sent_arrives Hr M HM H0 P HPM pdb peer _ Hsent) as (x & Hx & Ha & Hex & Hf).
  destruct (Hf 0%nat 0 M HR ltac:(done) H0 Hs ltac:(done)) as (Hh & Hin & _). change (node_hash 0 M) with (root_hash M) in Hh.
  assert (Hp : Part 0 x M) by (by apply (Wire_Right Hr Hc M HM H0 P HP x (proj1 Ha) (proj2 Ha))).
  assert (HL : Lawful M P AccountStateSF) by (by apply AccountStateSF_lawful).
  assert (Hix : isLeaf x = false).
  { rewrite (proj2 (proj2 (Rep_sent Hr pdb peer 0 0 _ M HR Hs HM H0 (fun _ => Hi)))) in Hx. injection Hx as <-. by destruct (mp_root peer). }
  unfold take_node, add_peer_node, addRootNode, getRootNode. cbn [fst snd].
  change (negb (getNodeHash (mp_root SHAMap_sync) =? 0)) with false. cbv iota. rewrite Hx, bind_done, Hh, Z.eqb_refl, Hix. cbn [negb].
  cbn [tell]. set (env' := sf_gotNode AccountStateSF false (root_hash M) (addRaw x snfPREFIX) (getType x) env).
  assert (He' : Env_right M P env').
  { apply (lf_got M P (f := AccountStateSF)); [done|]. rewrite <- Hh. apply (Wire_data Hr Hc M HM H0 P HP); apply Ha. }
  assert (HG : Good M 0 x M) by (by split).
  split; [by split|]. exact (absent_root M P env' x Hr HM H0 He' HG).
Qed.

(** C6: a map that asks a peer with the tree for its root, and then in every round for the
    any node it misses, has the whole tree after as many rounds as the tree has nodes at
    most, whatever the peer adds to its replies: every lookup is answered, with what the
    tree has. *)
Theorem sync_completes M P choose pdb peer env fatLeaves depth rounds :
  hash_range -> chainHashTypeG <> sha3 -> map_Forall codable M -> M <> ∅ -> unmistakable M P -> (forall x, x ∈ root_preimages M -> P x) ->
  Holds pdb peer M -> getSeq (mp_root peer) = 0 -> known_env P env -> se_packs env = ∅ -> (forall ids, ids <> [] -> choose ids ∈ ids) ->
  (length (root_preimages M) <= rounds)%nat ->
  let s := sync choose pdb peer fatLeaves depth (root_hash M) rounds (SHAMap_sync, env) in
  missing_nodes s.1 s.2 = []
  /\ forall k, exists r, findKey (se_db s.2) s.1 k = Done r /\ option_map leaf_value r = M !! k.
Proof.
  intros Hr Hc HM H0 HP HPM Hpeer Hsh He Hpk Hch Hn s. apply known_env_right with (M := M) in He; try done.
  destruct (take_root M P pdb peer env) as [Hs Hg]; try done.
  destruct (rounds_complete Hr Hc M HM H0 P HP HPM pdb peer Hpeer Hsh choose Hch fatLeaves depth rounds _ Hs) as [Hs' Hm]; [lia|].
  fold (sync choose pdb peer fatLeaves depth (root_hash M) rounds (SHAMap_sync, env)) in Hs', Hm. fold s in Hs', Hm. split; [done|]. intros k.
  destruct Hs' as [Hbk _ _ HG HE].
  destruct (walk_complete Hr M HM H0 max_depth 0 0 (mp_root s.1) M (se_db s.2) s.1 k [] Hbk) as [[o st] Hw]; [by eapply look_good | done | done | done|].
  assert (Hfk : findKey (se_db s.2) s.1 k = Done (match o with Some t => if it_key (tr_item t) =? k then Some t else None | None => None end)).
  { unfold findKey, walkTowardsKey. change root_id with (id_at 0 0). by rewrite Hw. }
  eexists. split; [exact Hfk|]. pose proof (findKey_Part M HM H0 P s.2 s.1 k _ HE (gd_part _ _ _ _ HG) Hfk) as Hk.
  destruct o as [t|]; [|done]. destruct (_ =? _); [|done]. destruct Hk as [_ ->]. done.
Qed.

(** ** Fetch packs *)

(** C27: a fetch pack with room for the tree has nodes of the tree only, and together with
    the nodes of the map the receiver is said to have they make up the whole tree: from a
    store with both the map is had back by its root hash. *)
Theorem fetch_pack_suffices db mp have M H max :
  hash_range -> Holds db mp M -> Holds db have H -> getSeq (mp_root mp) = 0 -> getSeq (mp_root have) = 0 -> M <> ∅ ->
  map_Forall codable M -> Proper_items H -> no_collision (root_preimages M ++ root_preimages H) -> Z.of_nat (length (root_nodes M)) < max ->
  exists pack, getFetchPack db mp (Some have) true max = Done pack /\ pack ⊆ root_nodes M
    /\ forall U, Has U (root_nodes H) -> Has U pack -> exists mp', fetchRoot U SHAMap_new (root_hash M) = (true, mp') /\ Holds U mp' M.
Proof.
  intros Hr HM HH Hs Hs' H0 Hc Hp' Hn Hmax. assert (Hp : Proper_items M) by (intros k v Hk; by destruct (Hc k v Hk)).
  assert (Henough : exists pack, getFetchPack db mp (Some have) true max = Done pack /\ Covered H pack (root_nodes M)).
  { pose proof HM as [_ Hi HR]. pose proof HH as [_ Hi' HR']. destruct (mp_root mp) as [|n] eqn:En; [done|]. destruct (mp_root have) as [|n'] eqn:En'; [done|].
    pose proof (Rep_shared_hash db mp 0 0 n M HR Hs) as Eh. pose proof (Rep_shared_hash db have 0 0 n' H HR' Hs') as Eh'. simpl in Eh, Eh'.
    unfold getFetchPack, visitDifferences. rewrite En, En'. cbn [getNodeHash]. rewrite Eh, Eh', (proj2 (Z.eqb_neq _ _) (root_hash_nonzero M Hr H0)).
    destruct (Z.eqb_spec (root_hash M) (root_hash H)) as [E|_].
    - exists []. split; [done|]. assert (M = H) as -> by (by apply (root_hash_inj Hr (root_preimages M ++ root_preimages H)); try done; set_solver).
      by apply Covered_had.
    - change root_id with (id_at 0 0). assert (Hs1 : getSeq (mp_root mp) = 0) by (by rewrite En). assert (Hs2 : getSeq (mp_root have) = 0) by (by rewrite En').
      destruct (diff_node_spec Hr db mp have M H HM HH Hs1 Hs2 Hp Hp' Hn max_depth 0 0 n M max []) as (new & -> & C); try done.
      { by unfold place_nodes, below_nodes; unfold root_nodes in Hmax; rewrite decide_False in Hmax. }
      exists (rev (new ++ [])). split; [done|]. rewrite app_nil_r.
      replace (root_nodes M) with (place_nodes 0 M) by (unfold place_nodes, root_nodes, node_hash, root_hash; by rewrite !decide_False).
      eapply Covered_perm; [apply Permutation_rev | done]. }
  destruct Henough as (pack & Hpack & C1 & _ & C3). exists pack. split_and!; [done | done|]. intros U HU HU'. apply stored_map; [done | done | done|].
  apply Forall_forall. intros e He. unfold Has in HU, HU'. rewrite Forall_forall in HU, HU'. destruct (C3 e He); [by apply HU' | by apply HU].
Qed.

(** ** A branch that is named twice *)

(** The compressed form of an inner node, followed by two entries for a branch: one with a
    hash, one without. *)
Definition poisoned (i : InnerNode Node) (b : Z) : Bytes :=
  concat (entry_bytes <$> (entries i (full_branches i) ++ [(1, b); (0, b)])) ++ [3].

Definition with_bit (i : InnerNode Node) (b : Z) : InnerNode Node :=
  mkInner (in_hashes i) (replicate 16 None) (Z.lor (in_isBranch i) (Z.shiftl 1 b)) (inner_hash (in_hashes i)) 0.

Lemma entries_length es : length (concat (entry_bytes <$> es)) = (33 * length es)%nat.
Proof.
  induction es as [|e es IH]; [done|]. rewrite fmap_cons, concat_cons, length_app, IH. unfold entry_bytes. rewrite length_app, be_bytes_length. simpl. lia.
Qed.

Lemma poisoned_decodes i b :
  Plain i -> 0 <= b < 16 -> isEmptyBranch i b = true -> makeFromWire (poisoned i b) = Done (Some (Inner (with_bit i b))).
Proof.
  intros Hp Hb He. unfold makeFromWire, poisoned. rewrite last_snoc, removelast_last. cbn [Z.eqb Pos.eqb]. unfold makeCompressedInner.
  set (es := entries i (full_branches i) ++ [(1, b); (0, b)]). rewrite entries_length, Nat.mul_comm, Nat.div_mul by done.
  rewrite (compressed_loop_entries es [] _ 0); [|apply Forall_app; split; [apply entries_valid; [done | apply full_branches_range] |] | done].
  2: { apply Forall_cons. split; [split; [by split | done]|]. apply Forall_cons. by split; [split; [split|]|]. }
  rewrite bind_done. unfold es. rewrite fold_left_app, put_entries, (put_branches i Hp). cbn [fold_left]. unfold put_entry, bare.
  cbn [fst snd in_hashes in_children in_isBranch in_hash in_seq Z.eqb]. rewrite list_insert_insert, decide_True by done.
  assert (Eh : in_hashes i !! Z.to_nat b = Some 0).
  { destruct (Plain_hash i b Hp Hb) as [-> _]. f_equal. rewrite (pl_bits _ Hp b Hb) in He. by apply Z.eqb_eq. }
  rewrite list_insert_id by done. rewrite updateHash_own.
  destruct (Z.eqb_spec (Z.lor (in_isBranch i) (Z.shiftl 1 b)) 0) as [E|]; [|done].
  assert (Ht : Z.testbit (Z.lor (in_isBranch i) (Z.shiftl 1 b)) b = true) by (rewrite testbit_step by lia; by rewrite Z.eqb_refl, orb_true_r).
  by rewrite E, Z.bits_0 in Ht.
Qed.

(** Nothing is at hand under the hash 0. *)
Record no_zero (env : SyncEnv) : Prop := {
  nz_db : se_db env !! 0 = None;
  nz_packs : se_packs env !! 0 = None;
  nz_cache : se_cache env !! 0 = None;
  nz_txns : se_txns env !! 0 = None
}.

Lemma filter_no_zero f env h :
  program_filter (Some f) -> no_zero env -> no_zero (sf_getNode f env h).2 /\ (h = 0 -> (sf_getNode f env h).1 = None)
  /\ forall from data ty, h <> 0 -> no_zero (sf_gotNode f from h data ty env).
Proof.
  assert (Hpack : no_zero env -> no_zero (getFetchPack_entry env h).2 /\ (h = 0 -> (getFetchPack_entry env h).1 = None)).
  { intros [H1 H2 H3 H4]. unfold getFetchPack_entry. destruct (se_packs env !! h) eqn:E; [|by split].
    split; [split; simpl; unfold constant; [done | | done | done] | intros ->; congruence].
    destruct (decide (h = 0)) as [->|]; [by rewrite lookup_delete_eq | by rewrite lookup_delete_ne]. }
  intros [[=]|[[= ->]|[[= ->]|[readable [= ->]]]]] Hz; try (destruct (Hpack Hz); split_and!; [done | done|]; intros from data ty Hh; destruct Hz as [H1 H2 H3 H4];
    split; simpl; unfold constant; try done; by rewrite lookup_insert_ne).
  destruct Hz as [H1 H2 H3 H4]. split_and!; [done | intros ->; simpl; by rewrite H3, H4|]. intros from data ty Hh. simpl. destruct from; [done|].
  destruct (_ && _); split; simpl; unfold constant; try done; by rewrite lookup_insert_ne.
Qed.

Section Stuck.

Context (f : option SyncFilter) (Hf : program_filter f).

Lemma fetch_no_zero env mp h :
  no_zero env -> no_zero (fetchNodeNT_filter env mp f h).2 /\ (h = 0 -> (fetchNodeNT_filter env mp f h).1 = None).
Proof.
  intros Hz. unfold fetchNodeNT_filter. destruct (fetchNodeNT (se_db env) mp h) as [n|] eqn:E.
  { split; [done|]. intros ->. unfold fetchNodeNT in E. rewrite (nz_db _ Hz) in E. by destruct (mp_backed mp). }
  destruct f as [f'|]; [|done]. destruct (filter_no_zero f' env h Hf Hz) as (G1 & G2 & _). unfold checkFilter.
  destruct (sf_getNode f' env h) as [[data|] env1] eqn:Eg; [|done]. cbn [fst snd] in *.
  destruct (makeFromPrefix data h) as [n|]; [|by split; [|intros Hh; specialize (G2 Hh)]].
  assert (Hh : h <> 0) by (intros Hh; by specialize (G2 Hh)). split; [|done].
  by apply (filter_no_zero f' env1 h Hf G1).
Qed.

Lemma descend_no_zero env mp n b : no_zero env -> no_zero (descend_filter env mp f n b).2.
Proof.
  intros Hz. unfold descend_filter. destruct (getChild n b); [done|]. pose proof (proj1 (fetch_no_zero env mp (getChildHash n b) Hz)) as H1.
  destruct (fetchNodeNT_filter env mp f (getChildHash n b)) as [[c|] env1]; [|done]. by destruct (canonicalizeChild b c n).
Qed.

Lemma add_known_no_zero fuel mp fb nn target env n id :
  no_zero env -> (forall x, nn = Some x -> getNodeHash x <> 0) -> no_zero (add_known fuel mp f fb nn target env n id).2.
Proof.
  intros Hz Hnn. revert env n id Hz. induction fuel as [|fuel IH]; intros env n id Hz; cbn [add_known]; [done|]. destruct n as [t|n]; [done|].
  destruct (_ || _); [done|]. destruct (isEmptyBranch n _); [done|]. destruct (fb_cache _ _); [done|].
  pose proof (descend_no_zero env mp n (selectBranch id (ni_nodeID target)) Hz) as Hd.
  destruct (descend_filter env mp f n _) as [[o n1] env1]. cbn [snd] in Hd. destruct o as [c|].
  - specialize (IH env1 c (getChildNodeID id (selectBranch id (ni_nodeID target))) Hd). by destruct (add_known fuel _ _ _ _ _ _ _ _) as [[[r bad] c1] env2].
  - destruct nn as [x|]; [|done]. specialize (Hnn x eq_refl). destruct (Z.eqb_spec (getChildHash n (selectBranch id (ni_nodeID target))) (getNodeHash x)) as [Ex|]; [|done].
    cbn [negb]. destruct (negb _); [done|]. destruct (negb _); [done|]. destruct (canonicalizeChild _ x n1) as [x' n2]. cbn [snd]. unfold tell.
    destruct f as [f'|]; [|done]. rewrite Ex. by apply (filter_no_zero f' env1 (getNodeHash x) Hf Hd).
Qed.

(** A branch with a bit, no hash and no node. *)
Definition Hole (b : Z) (h : Z) (n : InnerNode Node) : Prop :=
  isEmptyBranch n b = false /\ getChildHash n b = 0 /\ getChild n b = None /\ length (in_children n) = 16%nat /\ in_hash n = h.

Lemma Hole_share b h n b' c : 0 <= b < 16 -> 0 <= b' < 16 -> b' <> b -> Hole b h n -> Hole b h (shareChild b' c n).
Proof.
  intros Hb Hb' Hne (H1 & H2 & H3 & H4 & H5). split_and!; try done; [|simpl; by rewrite length_insert]. rewrite getChild_shareChild by done.
  by rewrite decide_False.
Qed.

Lemma descend_Hole env mp n b h b' :
  0 <= b < 16 -> 0 <= b' < 16 -> Hole b h n -> no_zero env ->
  Hole b h (descend_filter env mp f n b').1.2 /\ (b' = b -> (descend_filter env mp f n b').1.1 = None).
Proof.
  intros Hb Hb' HH Hz. pose proof HH as (H1 & H2 & H3 & H4 & H5). unfold descend_filter. destruct (decide (b' = b)) as [->|Hne].
  - rewrite H3. destruct (fetch_no_zero env mp (getChildHash n b) Hz) as [_ G]. specialize (G H2).
    destruct (fetchNodeNT_filter env mp f (getChildHash n b)) as [o env1]. cbn [fst] in G. by subst o.
  - split; [|done]. destruct (getChild n b') as [x|] eqn:Eg; [done|]. destruct (fetchNodeNT_filter env mp f (getChildHash n b')) as [[c|] env1]; [|done].
    unfold canonicalizeChild. rewrite Eg. cbn. destruct (kept c); [by apply Hole_share | done].
Qed.

Lemma add_known_Hole fuel mp fb nn target env n b h :
  0 <= b < 16 -> Hole b h n -> no_zero env -> (forall x, nn = Some x -> getNodeHash x <> 0) ->
  exists n', (add_known fuel mp f fb nn target env (Inner n) root_id).1.2 = Inner n' /\ Hole b h n'.
Proof.
  intros Hb HH Hz Hnn. destruct fuel as [|fuel]; cbn [add_known]; [by exists n|]. destruct (_ || _); [by exists n|].
  rewrite (selectBranch_nibble root_id _ 0) by (done || lia). pose proof (nibble_range 0 (ni_nodeID target)) as Hb'. set (b' := nibble 0 _) in *.
  destruct (isEmptyBranch n b'); [by exists n|]. destruct (fb_cache _ _); [by exists n|].
  destruct (descend_Hole env mp n b h b' Hb Hb' HH Hz) as [HD HN]. destruct (descend_filter env mp f n b') as [[o n1] env1]. cbn [fst snd] in HD, HN.
  destruct o as [c|].
  - assert (Hne : b' <> b) by (intros E; by specialize (HN E)). destruct (add_known fuel _ _ _ _ _ _ _ _) as [[[r bad] c1] env2]. eexists. split; [done|].
    unfold relink. destruct (getChild n1 b'); [by apply Hole_share | done].
  - destruct nn as [x|]; [|by exists n1]. specialize (Hnn x eq_refl). destruct (Z.eqb_spec (getChildHash n b') (getNodeHash x)) as [Ex|]; [|by exists n1].
    assert (Hne : b' <> b) by (intros ->; destruct HH as (_ & H2 & _); congruence).
    cbn [negb]. destruct (negb _); [by exists n1|]. destruct (negb _); [by exists n1|]. unfold canonicalizeChild.
    destruct (getChild n1 b'); [by exists n1|]. eexists. split; [done|]. destruct (kept x); [by apply Hole_share | done].
Qed.

Definition Stuck (b h : Z) (s : SHAMap * SyncEnv) : Prop := no_zero s.2 /\ exists n, mp_root s.1 = Inner n /\ Hole b h n.

(** The bytes do not make a node with the hash 0, which only an empty inner node has. *)
Definition not_empty (p : PeerNode) : Prop := forall x, makeFromWire (raw_of p) = Done (Some x) -> getNodeHash x <> 0.

Lemma take_stuck b h s p : 0 <= b < 16 -> h <> 0 -> Stuck b h s -> not_empty p -> Stuck b h (take_node f h s p).
Proof.
  destruct s as [mp env]. intros Hb Hh [Hz (n & Hn & HH)] Hp. cbn [fst snd] in *. unfold take_node, add_peer_node. cbn [fst snd]. destruct p as [raw|fb id raw].
  - unfold addRootNode. rewrite Hn. destruct HH as (H1 & H2 & H3 & H4 & H5). cbn [getNodeHash]. rewrite H5, (proj2 (Z.eqb_neq _ _) Hh). split; [done|]. by exists n.
  - unfold addKnownNode. destruct (negb _); [split; [done | by exists n]|]. destruct (makeFromWire raw) as [nn|] eqn:En; [|split; [done | by exists n]]. rewrite bind_done.
    assert (Hnn : forall x, nn = Some x -> getNodeHash x <> 0) by (intros x ->; by apply Hp).
    rewrite Hn. pose proof (add_known_no_zero (Z.to_nat (ni_depth id)) mp fb nn id env (Inner n) root_id Hz Hnn) as Hz'.
    destruct (add_known_Hole (Z.to_nat (ni_depth id)) mp fb nn id env n b h Hb HH Hz Hnn) as (n' & En' & HH').
    destruct (add_known _ _ _ _ _ _ _ _ _) as [[[r bad] n1] env1]. cbn [fst snd] in *. subst n1. split; [done|]. exists n'. split; [by destruct bad | done].
Qed.

End Stuck.

(** C39: a peer can keep a map from ever being complete with one message.  The compressed
    form of the right root, followed by an entry with a hash and one without for a branch
    that is empty, is decoded to a node with the right hash whose empty branch counts as
    not empty.  It is taken for the root; from then on, and whatever nodes other than empty
    ones arrive, the right root among them, a key in that branch is never found to be
    absent: its lookup always ends in a missing node, the one with the hash 0. *)
Theorem duplicate_branch_blocks f i b ps env k :
  program_filter f -> Plain i -> 0 <= b < 16 -> isEmptyBranch i b = true -> inner_hash (in_hashes i) <> 0 -> no_zero env ->
  Forall not_empty ps -> nibble 0 k = b ->
  let s := take_nodes f (inner_hash (in_hashes i)) (SHAMap_sync, env) (RootNode (poisoned i b) :: ps) in
  getNodeHash (mp_root s.1) = inner_hash (in_hashes i) /\ findKey (se_db s.2) s.1 k = Fault (MissingNode 0).
Proof.
  intros Hf Hp Hb He Hh Hz Hps Hk s. assert (HS : Stuck b (inner_hash (in_hashes i)) s).
  { unfold s, take_nodes. cbn [fold_left]. assert (H0 : Stuck b (inner_hash (in_hashes i)) (take_node f (inner_hash (in_hashes i)) (SHAMap_sync, env) (RootNode (poisoned i b)))).
    { unfold take_node, add_peer_node, addRootNode. cbn [fst snd]. change (negb (getNodeHash (mp_root SHAMap_sync) =? 0)) with false. cbv iota.
      rewrite poisoned_decodes, bind_done by done. cbn [with_bit getNodeHash in_hash]. rewrite Z.eqb_refl. cbn [negb isLeaf isInner]. split.
      - cbn [snd]. unfold tell. destruct f as [f'|]; [|done]. by apply (filter_no_zero f' env _ Hf Hz).
      - exists (with_bit i b). split; [done|]. split_and!; [|rewrite (pl_bits _ Hp b Hb) in He; by apply Z.eqb_eq | by apply getChild_none | done | done].
        unfold isEmptyBranch. cbn [with_bit in_isBranch]. rewrite testbit_step by lia. by rewrite Z.eqb_refl, orb_true_r. }
    clear s. revert H0. generalize (take_node f (inner_hash (in_hashes i)) (SHAMap_sync, env) (RootNode (poisoned i b))).
    induction Hps as [|p ps Hp' Hps IH]; intros s Hs; [done|]. cbn [fold_left]. by apply IH, take_stuck. }
  destruct HS as [Hz' (n & Hn & H1 & H2 & H3 & H4 & H5)]. rewrite Hn. split; [done|].
  unfold findKey, walkTowardsKey. rewrite Hn. change max_depth with (S 63). generalize 63%nat. intros fuel. cbn [walk]. rewrite (selectBranch_nibble root_id k 0), Hk, H1 by (done || lia).
  unfold descendThrow, descend. rewrite H3, H2. unfold fetchNodeNT. rewrite (nz_db _ Hz'). by destruct (mp_backed s.1).
Qed.

End Theorems.

(** ** Witnesses

    The tree of three accounts of [ShaMapTheorems]. *)

#[local] Existing Instance demo_hashers.

Definition tree_peer : SHAMap := demo_map ops_bac.
Definition tree_items : Items := demo_items ops_bac.
Definition tree_strings (x : Preimage) : Prop := x ∈ root_preimages tree_items.
Definition env_new : SyncEnv := mkSyncEnv ∅ ∅ ∅ ∅ [].

Lemma tree_codable : map_Forall codable tree_items.
Proof. repeat (apply map_Forall_insert_2; [split; [by apply account_proper | by vm_compute]|]). apply map_Forall_empty. Qed.

Lemma tree_nonempty : tree_items <> ∅.
Proof. intros E. apply (f_equal (fun m : Items => bool_decide (m = ∅))) in E. by vm_compute in E. Qed.

Lemma tree_unmistakable : unmistakable tree_items tree_strings.
Proof.
  intros x y Hx Hy. apply (no_collision_use _ x y no_collision_demo); apply elem_of_app; by right.
Qed.

Lemma env_new_known : known_env tree_strings env_new.
Proof. split; intros h data Hl; cbn [env_new se_db se_packs se_cache se_txns] in Hl; by rewrite lookup_empty in Hl. Qed.

(** A message that does not decode, and the root. *)
Definition two_messages : list PeerNode := [KnownNode fb_none (mkNodeID 0 1) [9]; RootNode (getRootNode tree_peer snfWIRE)].

#[local] Instance byte_dec b : Decision (is_byte b) := _ : Decision (_ /\ _).

Lemma two_messages_known : Forall (known_node tree_strings) two_messages.
Proof.
  apply Forall_cons. split; [|apply Forall_singleton]; (split; cbn [raw_of]).
  - by apply Forall_singleton.
  - intros n E. by vm_compute in E.
  - apply (bool_decide_eq_true_1 (Forall is_byte (getRootNode tree_peer snfWIRE))). by vm_compute.
  - assert (Hn : match makeFromWire (getRootNode tree_peer snfWIRE) with
                 | Done (Some n) => bool_decide (node_preimage n ∈ root_preimages tree_items) | _ => true end = true) by (by vm_compute).
    intros n E. rewrite E in Hn. by apply bool_decide_eq_true in Hn.
Qed.

Lemma sync_never_lies_witness :
  let s := take_nodes (Some AccountStateSF) (root_hash tree_items) (SHAMap_sync, env_new) two_messages in
  match findKey (se_db s.2) s.1 (demo_key 2 2 2) with
  | Done (Some t) => leaf_key t = demo_key 2 2 2 /\ tree_items !! demo_key 2 2 2 = Some (leaf_value t)
  | Done None => tree_items !! demo_key 2 2 2 = None
  | Fault _ => True
  end.
Proof.
  apply (sync_never_lies tree_items tree_strings); [exact demo_range | done | exact tree_codable | exact tree_nonempty | exact tree_unmistakable | | exact env_new_known
    | exact two_messages_known | by vm_compute].
  right. by left.
Defined.

(** The last missing node is asked for. *)
Definition choose_last (ids : list SHAMapNodeID) : SHAMapNodeID := default root_id (last ids).

Lemma choose_last_in ids : ids <> [] -> choose_last ids ∈ ids.
Proof. intros Hids. destruct (exists_last Hids) as (l & x & ->). unfold choose_last. rewrite last_snoc. set_solver. Qed.

Lemma sync_completes_witness :
  let s := sync choose_last ∅ tree_peer true 1 (root_hash tree_items) 10 (SHAMap_sync, env_new) in
  missing_nodes s.1 s.2 = [] /\ forall k, exists r, findKey (se_db s.2) s.1 k = Done r /\ option_map leaf_value r = tree_items !! k.
Proof.
  apply (sync_completes tree_items tree_strings); [exact demo_range | done | exact tree_codable | exact tree_nonempty | exact tree_unmistakable | done
    | exact holds_bac | by vm_compute | exact env_new_known | done | exact choose_last_in | by vm_compute; lia].
Defined.

(** A pack for a node that has the tree without the third account. *)
Lemma fetch_pack_suffices_witness :
  exists pack, getFetchPack ∅ tree_peer (Some (demo_map ops_ab)) true 10 = Done pack /\ pack ⊆ root_nodes tree_items
    /\ forall U, Has U (root_nodes (demo_items ops_ab)) -> Has U pack ->
         exists mp', fetchRoot U SHAMap_new (root_hash tree_items) = (true, mp') /\ Holds U mp' tree_items.
Proof.
  apply (fetch_pack_suffices ∅ tree_peer (demo_map ops_ab)); [exact demo_range | exact holds_bac | exact holds_ab | by vm_compute | by vm_compute
    | exact tree_nonempty | exact tree_codable | exact proper_ab | | by vm_compute].
  eapply no_collision_sub; [|exact no_collision_demo]. intros x [Hx|Hx]%elem_of_app; apply elem_of_app; [by right | by left].
Defined.

Lemma duplicate_branch_blocks_witness :
  let s := take_nodes (Some AccountStateSF) (inner_hash (in_hashes demo_inner)) (SHAMap_sync, env_new)
             [RootNode (poisoned demo_inner 0); RootNode (getRootNode tree_peer snfWIRE)] in
  getNodeHash (mp_root s.1) = inner_hash (in_hashes demo_inner) /\ findKey (se_db s.2) s.1 (demo_key 0 5 5) = Fault (MissingNode 0).
Proof.
  apply (duplicate_branch_blocks (Some AccountStateSF) demo_inner 0 [RootNode (getRootNode tree_peer snfWIRE)] env_new (demo_key 0 5 5));
    [right; by left | exact demo_plain | lia | by vm_compute | by vm_compute | done | | by vm_compute].
  assert (Hn : match makeFromWire (getRootNode tree_peer snfWIRE) with Done (Some n) => negb (getNodeHash n =? 0) | _ => true end = true) by (by vm_compute).
  apply Forall_singleton. intros x E. cbn [raw_of] in E. rewrite E in Hn. by apply negb_true_iff, Z.eqb_neq in Hn.
Defined.
