(* ===== verification/StateManager.v ===== *)
(** * Account sequences a node hands out and checks

    [peersafe/app/misc/impl/StateManager.cpp]: for each account the next sequence to
    sign with, the next one a transaction is checked against, and the sequences whose
    transactions failed.  A view of the ledger is the map from its accounts to their
    sequences. *)

From S2P Require Import Prelude.
From coqutil Require Import Datatypes.RecordSetters.
Import DoubleBraceUpdate.

#[local] Open Scope Z_scope.

Record State := mkState { st_signSeq : Z; st_checkSeq : Z; st_setFailedSeq : gset Z }.

(** What [operator[]] makes of an account without an entry. *)
Definition State_default : State := mkState 0 0 ∅.

Abbreviation StateManager := (gmap Z State).
Abbreviation SeqView := (gmap Z Z).

Definition state_of (sm : StateManager) (id : Z) : State := default State_default (sm !! id).

(** The first element of an ordered set. *)
Definition first_of (s : gset Z) : option Z :=
  foldr (fun x acc => Some (match acc with Some y => Z.min x y | None => x end)) None (elements s).

Definition getAndIncSignSeq (id : Z) (view : SeqView) (sm : StateManager) : Z * StateManager :=
  match view !! id with
  | None => (0, sm)
  | Some sle =>
      let st := state_of sm id in
      let seq := Z.max sle (st_checkSeq st) in
      if seq <=? st_signSeq st then
        match first_of (st_setFailedSeq st) with
        | Some ret => (ret, <[id := st {{ st_setFailedSeq := st_setFailedSeq st ∖ {[ret]} }}]> sm)
        | None =>
            let signSeq := u32 (st_signSeq st + 1) in
            (u32 (signSeq - 1), <[id := st {{ st_signSeq := signSeq }}]> sm)
        end
      else (seq, <[id := mkState (u32 (seq + 1)) seq (st_setFailedSeq st)]> sm)
  end.

(** [getAccountCheckSeq] with the entry of the account in the ledger. *)
Definition check_seq (id sle : Z) (sm : StateManager) : Z * StateManager :=
  match sm !! id with
  | Some st =>
      if sle <=? st_checkSeq st then (st_checkSeq st, sm) else (sle, <[id := mkState sle sle (st_setFailedSeq st)]> sm)
  | None => (sle, <[id := mkState sle sle ∅]> sm)
  end.

Definition getAccountCheckSeq (id : Z) (view : SeqView) (sm : StateManager) : Z * StateManager :=
  match view !! id with Some sle => check_seq id sle sm | None => (0, sm) end.

Definition resetAccountSeq (id : Z) (sm : StateManager) : StateManager := delete id sm.

Definition onTxCheckSuccess (id : Z) (sm : StateManager) : StateManager :=
  match sm !! id with
  | Some st =>
      <[id := mkState (st_signSeq st) (u32 (st_checkSeq st + 1)) (st_setFailedSeq st ∖ {[st_checkSeq st]})]> sm
  | None => sm
  end.

Definition addFailedSeq (id seq : Z) (sm : StateManager) : StateManager :=
  let st := state_of sm id in
  <[id := st {{ st_setFailedSeq := {[seq]} ∪ st_setFailedSeq st }}]> sm.

Definition sm_clear (sm : StateManager) : StateManager := ∅.

(** ** The sequence a transaction is checked against *)

(** The sequence the next transaction of an account must have. *)
Definition next_seq (view : SeqView) (sm : StateManager) (id : Z) : option Z :=
  (fun sle => Z.max sle (st_checkSeq (state_of sm id))) <$> view !! id.

Lemma state_of_insert sm id st id' : state_of (<[id := st]> sm) id' = if decide (id' = id) then st else state_of sm id'.
Proof. unfold state_of. case_decide as E; [subst; by rewrite lookup_insert_eq | by rewrite lookup_insert_ne]. Qed.

(** The sequences of a view. *)
Definition valid_view (view : SeqView) : Prop := map_Forall (fun _ s => 0 <= s < 2 ^ 32) view.

Lemma next_seq_insert view sm id st id' :
  next_seq view (<[id := st]> sm) id'
  = if decide (id' = id) then (fun s => Z.max s (st_checkSeq st)) <$> view !! id' else next_seq view sm id'.
Proof. unfold next_seq. rewrite state_of_insert. by case_decide. Qed.

Lemma getAccountCheckSeq_spec id view sm :
  valid_view view ->
  (getAccountCheckSeq id view sm).1 = default 0 (next_seq view sm id)
  /\ (forall a, next_seq view (getAccountCheckSeq id view sm).2 a = next_seq view sm a)
  /\ (is_Some (view !! id) -> is_Some ((getAccountCheckSeq id view sm).2 !! id)).
Proof.
  intros Hv. unfold getAccountCheckSeq, check_seq. destruct (view !! id) as [s|] eqn:Es.
  2:{ unfold next_seq. rewrite Es. split_and!; [done | done | by intros []]. }
  apply Hv in Es as Hs. unfold next_seq at 1, state_of. rewrite Es. simpl.
  destruct (sm !! id) as [st|] eqn:E; [destruct (Z.leb_spec s (st_checkSeq st))|]; simpl; (split; [lia|]); rewrite ?lookup_insert_eq;
    (split; [|by rewrite ?E]); try done.
  all: intros a; rewrite next_seq_insert; case_decide; [subst|done]; unfold next_seq, state_of; rewrite Es, E; simpl; f_equal; lia.
Qed.

(** The entry the check leaves. *)
Lemma getAccountCheckSeq_entry id view sm :
  is_Some (view !! id) ->
  exists st, (getAccountCheckSeq id view sm).2 !! id = Some st /\ st_checkSeq st = (getAccountCheckSeq id view sm).1.
Proof.
  intros [s Es]. unfold getAccountCheckSeq, check_seq. rewrite Es. destruct (sm !! id) as [st|] eqn:E; [case_match|]; simpl.
  - by exists st.
  - eexists. by rewrite lookup_insert_eq.
  - eexists. by rewrite lookup_insert_eq.
Qed.

(** Accounts that are not in the view are not checked. *)
Definition unknown_zero (view : SeqView) (sm : StateManager) : Prop := forall a, view !! a = None -> st_checkSeq (state_of sm a) = 0.

Lemma unknown_zero_insert view sm id st :
  unknown_zero view sm -> (view !! id = None -> st_checkSeq st = 0) -> unknown_zero view (<[id := st]> sm).
Proof. intros Hu Hs a Ha. rewrite state_of_insert. case_decide; [subst; by apply Hs | by apply Hu]. Qed.

Lemma getAccountCheckSeq_unknown id view sm : unknown_zero view sm -> unknown_zero view (getAccountCheckSeq id view sm).2.
Proof.
  intros Hu. unfold getAccountCheckSeq, check_seq. destruct (view !! id) eqn:E; [|done].
  destruct (sm !! id); [case_match; [done|]|]; apply unknown_zero_insert; try done; congruence.
Qed.

Lemma getAndIncSignSeq_unknown id view sm : unknown_zero view sm -> unknown_zero view (getAndIncSignSeq id view sm).2.
Proof.
  intros Hu. unfold getAndIncSignSeq. destruct (view !! id) eqn:E; [|done].
  destruct (_ <=? _); [destruct (first_of _)|]; apply unknown_zero_insert; try done; congruence.
Qed.

Lemma addFailedSeq_unknown id seq view sm : unknown_zero view sm -> unknown_zero view (addFailedSeq id seq sm).
Proof. intros Hu. apply unknown_zero_insert; [done|]. simpl. apply Hu. Qed.

Lemma resetAccountSeq_state id sm a : state_of (resetAccountSeq id sm) a = if decide (a = id) then State_default else state_of sm a.
Proof. unfold resetAccountSeq, state_of. case_decide; [subst; by rewrite lookup_delete_eq | by rewrite lookup_delete_ne]. Qed.

Lemma resets_state ids sm a : state_of (foldr resetAccountSeq sm ids) a = if decide (a ∈ ids) then State_default else state_of sm a.
Proof.
  induction ids as [|id ids IH]; cbn [foldr]; [by rewrite decide_False by apply not_elem_of_nil|].
  rewrite resetAccountSeq_state, IH. destruct (decide (a = id)) as [->|Hne]; [by rewrite decide_True by left|].
  destruct (decide (a ∈ ids)); [by rewrite decide_True by (by right)|]. rewrite decide_False; [done|]. by intros [?|?]%elem_of_cons.
Qed.

Lemma onTxCheckSuccess_next id view sm st s a :
  view !! id = Some s -> sm !! id = Some st ->
  next_seq view (onTxCheckSuccess id sm) a
  = if decide (a = id) then Some (Z.max s (u32 (st_checkSeq st + 1))) else next_seq view sm a.
Proof. intros Hv Hst. unfold onTxCheckSuccess. rewrite Hst, next_seq_insert. case_decide; [subst; by rewrite Hv | done]. Qed.

Lemma getAndIncSignSeq_next id view sm a :
  valid_view view -> next_seq view (getAndIncSignSeq id view sm).2 a = next_seq view sm a.
Proof.
  intros Hv. unfold getAndIncSignSeq. destruct (view !! id) as [s|] eqn:Es; [|done]. apply Hv in Es as Hs.
  destruct (_ <=? _); [destruct (first_of _)|]; simpl; rewrite next_seq_insert; case_decide; try done; subst; unfold next_seq; rewrite Es; simpl; f_equal; lia.
Qed.

Lemma addFailedSeq_next id seq view sm a : next_seq view (addFailedSeq id seq sm) a = next_seq view sm a.
Proof. unfold addFailedSeq. rewrite next_seq_insert. by case_decide; [subst|]. Qed.
