(* ===== verification/TxPool.v ===== *)
(** * The transaction pool

    [peersafe/app/misc/TxPool.h] and [impl/TxPool.cpp]: the transactions waiting for a
    ledger, those a set in progress already has ("avoided"), and the ledgers whose
    transactions are still to be taken out.  [doTransactionCheck] of
    [ripple/app/misc/NetworkOPs.cpp] with the sequence check of
    [ripple/app/tx/impl/Transactor.cpp] puts transactions in.

    An iterator into the ordered set is the account and the sequence of the transaction
    it points to.  A tree whose items are visited gives a list of keys, and whether a
    missing node ended the visit. *)

From S2P Require Import Prelude StateManager ShaMapNode ShaMap.
#[local] Open Scope Z_scope.

(** ** Transactions and the ordered set *)

Record PoolTx := mkPoolTx { pt_id : Z; pt_account : Z; pt_sequence : Z; pt_lastLedger : option Z }.

#[export] Instance PoolTx_eq_dec : EqDecision PoolTx.
Proof. solve_decision. Defined.

Abbreviation TxKey := (Z * Z)%type.

Definition tx_key (t : PoolTx) : TxKey := (pt_account t, pt_sequence t).

Definition transactionCompare (first second : PoolTx) : bool :=
  if pt_account first =? pt_account second then pt_sequence first <? pt_sequence second
  else pt_account first <? pt_account second.

(** [std::set::insert]: nothing happens when an equivalent element is there. *)
Fixpoint set_insert (t : PoolTx) (l : list PoolTx) : bool * list PoolTx :=
  match l with
  | [] => (true, [t])
  | x :: r =>
      if transactionCompare t x then (true, t :: l)
      else if transactionCompare x t then let '(b, r) := set_insert t r in (b, x :: r)
      else (false, l)
  end.

Definition set_erase (k : TxKey) (l : list PoolTx) : list PoolTx := base.filter (fun t => tx_key t <> k) l.

(** ** The pool *)

Record sync_status := mkSync {
  ss_pool_start_seq : Z;
  ss_max_advance_seq : Z;
  ss_prevHash : Z;
  ss_prevSeq : Z;
  ss_mapSynced : gmap Z Z
}.

Definition sync_init : sync_status := mkSync 0 0 0 0 ∅.

Record TxPool := mkPool {
  tp_mMaxTxsInPool : Z;
  tp_mTxsSet : list PoolTx;
  tp_mTxsHash : gmap Z TxKey;
  tp_mInLedgerCache : list (Z * Z);
  tp_mDeleteTime : Z;
  tp_mAvoidBySeq : gmap Z (gset Z);
  tp_mAvoidByHash : gmap Z Z;
  tp_mSyncStatus : sync_status
}.

Definition set_txs (txs : list PoolTx) (index : gmap Z TxKey) (p : TxPool) : TxPool :=
  mkPool (tp_mMaxTxsInPool p) txs index (tp_mInLedgerCache p) (tp_mDeleteTime p) (tp_mAvoidBySeq p) (tp_mAvoidByHash p) (tp_mSyncStatus p).

Definition set_avoid (bySeq : gmap Z (gset Z)) (byHash : gmap Z Z) (p : TxPool) : TxPool :=
  mkPool (tp_mMaxTxsInPool p) (tp_mTxsSet p) (tp_mTxsHash p) (tp_mInLedgerCache p) (tp_mDeleteTime p) bySeq byHash (tp_mSyncStatus p).

Definition set_cache (cache : list (Z * Z)) (deleteTime : Z) (p : TxPool) : TxPool :=
  mkPool (tp_mMaxTxsInPool p) (tp_mTxsSet p) (tp_mTxsHash p) cache deleteTime (tp_mAvoidBySeq p) (tp_mAvoidByHash p) (tp_mSyncStatus p).

Definition set_sync (sync : sync_status) (p : TxPool) : TxPool :=
  mkPool (tp_mMaxTxsInPool p) (tp_mTxsSet p) (tp_mTxsHash p) (tp_mInLedgerCache p) (tp_mDeleteTime p) (tp_mAvoidBySeq p)
    (tp_mAvoidByHash p) sync.

Definition TxPool_new (capacity closeTime : Z) : TxPool := mkPool capacity [] ∅ [] closeTime ∅ ∅ sync_init.

(** Seconds of the network clock, and nanoseconds of the clock of the cache. *)
Definition inLedgerCacheDeleteInterval : Z := 5.
Definition inLedgerCacheLiveTime : Z := 60 * 10 ^ 9.

Definition txExists (hash : Z) (p : TxPool) : bool := bool_decide (is_Some (tp_mTxsHash p !! hash)).
Definition pool_isEmpty (p : TxPool) : bool := (length (tp_mTxsSet p) =? 0)%nat.
Definition getTxCountInPool (p : TxPool) : Z := Z.of_nat (length (tp_mTxsSet p)).

Definition getQueuedTxCountInPool (p : TxPool) : Z :=
  u64 (Z.of_nat (length (tp_mTxsSet p)) - Z.of_nat (size (tp_mAvoidByHash p))).

(** [count] of the cache. *)
Definition in_cache (hash : Z) (cache : list (Z * Z)) : bool := existsb (fun e => e.1 =? hash) cache.

(** The transactions no set in progress has, at most [limit] of them, from the first. *)
Fixpoint take_free (limit : Z) (avoid : gmap Z Z) (l : list PoolTx) : list PoolTx :=
  match l with
  | [] => []
  | t :: l =>
      if 0 <? limit then
        match avoid !! pt_id t with
        | Some _ => take_free limit avoid l
        | None => t :: take_free (limit - 1) avoid l
        end
      else []
  end.

Definition topTransactions (limit : Z) (set : gset Z) (p : TxPool) : Z * gset Z :=
  let taken := take_free limit (tp_mAvoidByHash p) (tp_mTxsSet p) in
  (Z.of_nat (length taken), set ∪ list_to_set (pt_id <$> taken)).

(** Results of checks: the ones the pool itself gives, and any other. *)
Inductive TER :=
| tesSUCCESS | telTX_POOL_FULL | telLOCAL_ERROR | tefPAST_SEQ | tefALREADY | tefMAX_LEDGER | terPRE_SEQ | terNO_ACCOUNT
| terOther (code : Z).

#[export] Instance TER_eq_dec : EqDecision TER.
Proof. solve_decision. Defined.

Definition insertTx (t : PoolTx) (ledgerSeq : Z) (p : TxPool) : TER * TxPool :=
  if tp_mMaxTxsInPool p <=? getTxCountInPool p then (telTX_POOL_FULL, p)
  else if in_cache (pt_id t) (tp_mInLedgerCache p) then (tesSUCCESS, p)
  else
    let '(inserted, txs) := set_insert t (tp_mTxsSet p) in
    if inserted then
      match tp_mTxsHash p !! pt_id t with
      | None =>
          let s := tp_mSyncStatus p in
          let sync :=
            if ss_pool_start_seq s =? 0 then mkSync ledgerSeq (ss_max_advance_seq s) (ss_prevHash s) (ss_prevSeq s) (ss_mapSynced s)
            else s in
          (tesSUCCESS, set_sync sync (set_txs txs (<[pt_id t := tx_key t]> (tp_mTxsHash p)) p))
      | Some _ => (telLOCAL_ERROR, set_txs (set_erase (tx_key t) txs) (tp_mTxsHash p) p)
      end
    else (tefPAST_SEQ, p).

(** ** Avoided transactions *)

Definition clearAvoid (seq : Z) (p : TxPool) : TxPool :=
  let hashes := default ∅ (tp_mAvoidBySeq p !! seq) in
  set_avoid (delete seq (tp_mAvoidBySeq p)) (base.filter (fun e => e.1 ∉ hashes) (tp_mAvoidByHash p)) p.

Definition clearAvoid_all (p : TxPool) : TxPool := set_avoid ∅ ∅ p.

(** One item of a set in progress; an entry by hash that is there stays. *)
Definition avoid_item (seq : Z) (p : TxPool) (key : Z) : TxPool :=
  set_avoid (<[seq := {[key]} ∪ default ∅ (tp_mAvoidBySeq p !! seq)]> (tp_mAvoidBySeq p))
    (match tp_mAvoidByHash p !! key with Some _ => tp_mAvoidByHash p | None => <[key := seq]> (tp_mAvoidByHash p) end) p.

(** [updateAvoid], [validSeq] being the number of the last validated ledger. *)
Definition updateAvoid (keys : list Z) (seq validSeq : Z) (p : TxPool) : TxPool :=
  if seq <=? validSeq then p else fold_left (avoid_item seq) keys p.

(** ** Validated ledgers *)

(** The highest number from [i] down to [start] that is not there. *)
Fixpoint find_gap (n : nat) (i start : Z) (synced : gmap Z Z) : option Z :=
  match n with
  | O => None
  | S n =>
      if i <? start then None
      else match synced !! i with None => Some i | Some _ => find_gap n (i - 1) start synced end
  end.

Definition sync_ledger (ledgerSeq prevHash : Z) (s : sync_status) : sync_status :=
  if 0 <? ss_pool_start_seq s then
    let max := if ss_max_advance_seq s <? ledgerSeq then ledgerSeq else ss_max_advance_seq s in
    let synced := <[ledgerSeq := prevHash]> (ss_mapSynced s) in
    let top := u32 (max - 1) in
    let '(due, synced) :=
      match find_gap (Z.to_nat (top - ss_pool_start_seq s + 1)) top (ss_pool_start_seq s) synced with
      | Some i => let h := default 0 (synced !! u32 (i + 1)) in (h, <[u32 (i + 1) := h]> synced)
      | None => (0, synced)
      end in
    if due =? 0 then mkSync (u32 (max + 1)) max (ss_prevHash s) (ss_prevSeq s) ∅
    else mkSync (ss_pool_start_seq s) max due (ss_prevSeq s) synced
  else s.

Definition checkSyncStatus (ledgerSeq prevHash : Z) (p : TxPool) : TxPool :=
  set_sync (if pool_isEmpty p then sync_init else sync_ledger ledgerSeq prevHash (tp_mSyncStatus p)) p.

(** One transaction of a validated ledger. *)
Definition remove_item (clock : Z) (p : TxPool) (key : Z) : TxPool :=
  match tp_mTxsHash p !! key with
  | None =>
      if in_cache key (tp_mInLedgerCache p) then p
      else set_cache (tp_mInLedgerCache p ++ [(key, clock)]) (tp_mDeleteTime p) p
  | Some k => set_txs (set_erase k (tp_mTxsSet p)) (delete key (tp_mTxsHash p)) p
  end.

(** The keys of a tree in the order of its iterators; [true] when a node was missing. *)
Fixpoint keys_from `{Hashers} (n : nat) (db : NodeStore) (mp : SHAMap) (at_ : option TreeNode * NodeStack) : list Z * bool :=
  match n, at_.1 with
  | S n, Some t =>
      let key := it_key (tr_item t) in
      match peekNextItem db mp key at_.2 with
      | Done next => let '(keys, missing) := keys_from n db mp next in (key :: keys, missing)
      | Fault _ => ([key], true)
      end
  | _, _ => ([], false)
  end.

Definition tree_keys `{Hashers} (n : nat) (db : NodeStore) (mp : SHAMap) : list Z * bool :=
  match peekFirstItem db mp with Done first => keys_from n db mp first | Fault _ => ([], true) end.

Definition removeTxs (items : list Z * bool) (ledgerSeq prevHash clock : Z) (p : TxPool) : TxPool :=
  let p := fold_left (remove_item clock) items.1 p in
  let p := if items.2 then p else clearAvoid ledgerSeq p in
  checkSyncStatus ledgerSeq prevHash p.

Definition isAvailable (p : TxPool) : bool := ss_max_advance_seq (tp_mSyncStatus p) <=? ss_pool_start_seq (tp_mSyncStatus p).

(** What the pool reads of a ledger. *)
Record PoolLedger := mkPoolLedger { pl_seq : Z; pl_parentHash : Z; pl_txs : list Z * bool }.

(** [beast::expire] on entries in the order of their times. *)
Fixpoint expire (now age : Z) (cache : list (Z * Z)) : list (Z * Z) :=
  match cache with
  | e :: rest => if e.2 <=? now - age then expire now age rest else cache
  | [] => []
  end.

Definition pool_timerEntry (getLedgerByHash : Z -> option PoolLedger) (now clock : Z) (p : TxPool) : TxPool :=
  let p :=
    if isAvailable p then p
    else
      match getLedgerByHash (ss_prevHash (tp_mSyncStatus p)) with
      | Some l => removeTxs (pl_txs l) (pl_seq l) (pl_parentHash l) clock p
      | None => p
      end in
  if inLedgerCacheDeleteInterval <=? u32 (now - tp_mDeleteTime p) then
    set_cache (expire clock inLedgerCacheLiveTime (tp_mInLedgerCache p)) now p
  else p.

(** ** Other removals *)

(** The second half of [removeTx]. *)
Definition unavoid (hash : Z) (p : TxPool) : TxPool :=
  match tp_mAvoidByHash p !! hash with
  | Some seq =>
      let hashes := default ∅ (tp_mAvoidBySeq p !! seq) ∖ {[hash]} in
      set_avoid (if decide (hashes = ∅) then delete seq (tp_mAvoidBySeq p) else <[seq := hashes]> (tp_mAvoidBySeq p))
        (delete hash (tp_mAvoidByHash p)) p
  | None => p
  end.

(** [removeTx] reads the entry of the index after it has erased it: for a transaction of
    the pool its outcome is undefined, [None]. *)
Definition removeTx (hash : Z) (p : TxPool) : option TxPool :=
  match tp_mTxsHash p !! hash with
  | Some _ => None
  | None => Some (unavoid hash p)
  end.

(** What [removeTx] does to a transaction of the pool if the erased entry still reads as it
    was, [k]. *)
Definition removeTx_read (hash : Z) (k : TxKey) (p : TxPool) : TxPool :=
  unavoid hash (set_txs (set_erase k (tp_mTxsSet p)) (delete hash (tp_mTxsHash p)) p).

Definition expired (validSeq : Z) (t : PoolTx) : bool :=
  match pt_lastLedger t with Some last => last <? validSeq | None => false end.

Definition removeExpired (validSeq : Z) (p : TxPool) (sm : StateManager) : TxPool * StateManager :=
  let gone := base.filter (fun t => expired validSeq t = true) (tp_mTxsSet p) in
  let accounts : gset Z := list_to_set (pt_account <$> gone) in
  (set_avoid
     (foldr (fun e m => if e.2 <? validSeq then delete e.2 m else m) (tp_mAvoidBySeq p) (map_to_list (tp_mAvoidByHash p)))
     (base.filter (fun e => validSeq <= e.2) (tp_mAvoidByHash p))
     (set_txs (base.filter (fun t => expired validSeq t = false) (tp_mTxsSet p))
        (foldr (fun t => delete (pt_id t)) (tp_mTxsHash p) gone) p),
   foldr resetAccountSeq sm (elements accounts)).

(** ** Admission *)

(** [Transactor::checkSeq2], [viewSeq] being the number of the ledger of the view. *)
Definition checkSeq2 (t : PoolTx) (view : SeqView) (viewSeq : Z) (sm : StateManager) : TER * StateManager :=
  let '(a_seq, sm) := getAccountCheckSeq (pt_account t) view sm in
  (if a_seq =? 0 then terNO_ACCOUNT
   else if pt_sequence t =? a_seq then
     match pt_lastLedger t with Some last => if last <? viewSeq then tefMAX_LEDGER else tesSUCCESS | None => tesSUCCESS end
   else if a_seq <? pt_sequence t then terPRE_SEQ
   else tefPAST_SEQ, sm).

(** [NetworkOPsImp::check]; [others] is the result of the checks before that of the
    sequence. *)
Definition check (others : TER) (t : PoolTx) (view : SeqView) (viewSeq : Z) (sm : StateManager) : TER * StateManager :=
  match others with tesSUCCESS => checkSeq2 t view viewSeq sm | ter => (ter, sm) end.

(** [NetworkOPsImp::doTransactionCheck]: the result and whether the transaction was taken. *)
Definition doTransactionCheck (others : TER) (t : PoolTx) (view : SeqView) (viewSeq : Z) (p : TxPool) (sm : StateManager) :
    TER * bool * TxPool * StateManager :=
  if txExists (pt_id t) p then (tefALREADY, false, p, sm)
  else
    let '(ter, sm) := check others t view viewSeq sm in
    match ter with
    | tesSUCCESS =>
        let '(ter, p) := insertTx t viewSeq p in
        match ter with
        | tesSUCCESS => (tesSUCCESS, true, p, onTxCheckSuccess (pt_account t) sm)
        | ter => (ter, false, p, sm)
        end
    | terPRE_SEQ | tefPAST_SEQ => (ter, false, p, sm)
    | ter => (ter, false, p, addFailedSeq (pt_account t) (pt_sequence t) sm)
    end.
