(* ===== verification/TxPoolProps.v ===== *)
(** * The transaction pool: its invariant and what every operation does *)

From S2P Require Import Prelude StateManager ShaMapNode ShaMap ShaMapRep ShaMapIter TxPool.
#[local] Open Scope Z_scope.

(** ** The ordered set *)

Definition tx_lt (a b : PoolTx) : Prop := transactionCompare a b = true.

Lemma tx_lt_spec a b : tx_lt a b <-> pt_account a < pt_account b \/ pt_account a = pt_account b /\ pt_sequence a < pt_sequence b.
Proof. unfold tx_lt, transactionCompare. destruct (Z.eqb_spec (pt_account a) (pt_account b)); lia. Qed.

Lemma tx_lt_neq a b : tx_lt a b -> tx_key a <> tx_key b.
Proof. rewrite tx_lt_spec. unfold tx_key. intros Hl [= H1 H2]. lia. Qed.

Lemma tx_lt_trans a b c : tx_lt a b -> tx_lt b c -> tx_lt a c.
Proof. rewrite !tx_lt_spec. lia. Qed.

Lemma tx_lt_total a b : tx_lt a b \/ tx_lt b a \/ tx_key a = tx_key b.
Proof.
  rewrite !tx_lt_spec. unfold tx_key. destruct (Z.lt_trichotomy (pt_account a) (pt_account b)) as [|[E|]]; [lia| |lia].
  destruct (Z.lt_trichotomy (pt_sequence a) (pt_sequence b)) as [|[E'|]]; [lia| |lia]. do 2 right. congruence.
Qed.

Abbreviation tx_sorted := (StronglySorted tx_lt).

Lemma sorted_key_inj l a b : tx_sorted l -> a ∈ l -> b ∈ l -> tx_key a = tx_key b -> a = b.
Proof.
  induction 1 as [|x l Hs IH Hx]; intros Ha Hb E; [by apply not_elem_of_nil in Ha|]. rewrite Forall_forall in Hx.
  apply elem_of_cons in Ha as [->|Ha], Hb as [->|Hb]; [done| | |by apply IH].
  - by apply Hx, tx_lt_neq in Hb.
  - apply Hx, tx_lt_neq in Ha. by symmetry in E.
Qed.

Lemma sorted_filter (P : PoolTx -> Prop) `{forall x, Decision (P x)} l : tx_sorted l -> tx_sorted (base.filter P l).
Proof.
  induction 1 as [|x l Hs IH Hx]; [apply SSorted_nil|]. rewrite filter_cons. case_decide; [|done].
  apply SSorted_cons; [done|]. apply Forall_forall. intros y [_ Hy]%list_elem_of_filter. rewrite Forall_forall in Hx. by apply Hx.
Qed.

Lemma set_insert_spec t l :
  tx_sorted l ->
  let '(b, l') := set_insert t l in
  b = bool_decide (tx_key t ∉ tx_key <$> l) /\ tx_sorted l' /\ if b then l' ≡ₚ t :: l else l' = l.
Proof.
  induction 1 as [|x l Hs IH Hx]; cbn [set_insert].
  { split; [by vm_compute|]. split; [by repeat constructor | done]. }
  destruct (transactionCompare t x) eqn:E1.
  { split; [|split; [|done]].
    - symmetry. apply bool_decide_eq_true. rewrite list_elem_of_fmap. intros (y & Ey & Hy). apply (tx_lt_neq t y); [|done].
      apply elem_of_cons in Hy as [->|Hy]; [done|]. rewrite Forall_forall in Hx. by apply (tx_lt_trans _ x), Hx.
    - apply SSorted_cons; [by apply SSorted_cons|]. apply Forall_cons. split; [done|]. rewrite Forall_forall in Hx |- *.
      intros y Hy. by apply (tx_lt_trans _ x), Hx. }
  destruct (transactionCompare x t) eqn:E2.
  - destruct (set_insert t l) as [b r]. destruct IH as (-> & Hr & Hp). split; [|split].
    + apply bool_decide_ext. rewrite fmap_cons, not_elem_of_cons. assert (tx_key t <> tx_key x) by (symmetry; by apply tx_lt_neq). tauto.
    + apply SSorted_cons; [done|]. case_bool_decide; [|by subst]. rewrite Hp. apply Forall_cons. by split.
    + case_bool_decide; [|by subst]. rewrite Hp. apply Permutation_swap.
  - assert (Ek : tx_key x = tx_key t).
    { destruct (tx_lt_total x t) as [Hl|[Hl|]]; [unfold tx_lt in Hl; congruence | unfold tx_lt in Hl; congruence | done]. }
    split; [|split; [by apply SSorted_cons | done]]. symmetry. apply bool_decide_eq_false. rewrite fmap_cons, Ek. intros Hn. apply Hn. left.
Qed.

Lemma set_erase_in k l t : t ∈ set_erase k l <-> t ∈ l /\ tx_key t <> k.
Proof. unfold set_erase. rewrite list_elem_of_filter. tauto. Qed.

(** A sorted list is determined by its elements. *)
Lemma sorted_ext l m : tx_sorted l -> tx_sorted m -> (forall x, x ∈ l <-> x ∈ m) -> l = m.
Proof.
  intros Hl. revert m. induction Hl as [|x l Hl IH Hx]; intros m Hm Hlm.
  { destruct m as [|y m]; [done|]. destruct (not_elem_of_nil y). apply Hlm. left. }
  destruct Hm as [|y m Hm Hy]; [destruct (not_elem_of_nil x); apply Hlm; left|]. rewrite Forall_forall in Hx, Hy.
  assert (Hirr : forall z, ~ tx_lt z z) by (intros z Hz; by apply (tx_lt_neq z z)).
  assert (x = y) as ->.
  { destruct (proj1 (elem_of_cons _ _ _) (proj1 (Hlm x) ltac:(left))) as [|H1]; [done|].
    destruct (proj1 (elem_of_cons _ _ _) (proj2 (Hlm y) ltac:(left))) as [|H2]; [done|].
    destruct (Hirr x). by apply (tx_lt_trans _ y); [apply Hx | apply Hy]. }
  f_equal. apply IH; [done|]. intros z. specialize (Hlm z). rewrite !elem_of_cons in Hlm. split; intros Hz.
  - destruct (proj1 Hlm (or_intror Hz)) as [->|]; [|done]. by apply Hx, Hirr in Hz.
  - destruct (proj2 Hlm (or_intror Hz)) as [->|]; [|done]. by apply Hy, Hirr in Hz.
Qed.

Lemma set_erase_insert t l l' : tx_sorted l -> tx_sorted l' -> tx_key t ∉ tx_key <$> l -> l' ≡ₚ t :: l -> set_erase (tx_key t) l' = l.
Proof.
  intros Hs Hs' Hn Hp. apply sorted_ext; [by apply sorted_filter | done|]. intros x. rewrite set_erase_in, Hp, elem_of_cons.
  split; [intros [[->|] ?]; done|]. intros Hx. split; [by right|]. intros E. apply Hn. rewrite <- E. by apply list_elem_of_fmap_2.
Qed.

(** ** The invariant *)

Record Pool_ok (p : TxPool) : Prop := {
  po_sorted : tx_sorted (tp_mTxsSet p);
  po_index : forall h k, tp_mTxsHash p !! h = Some k <-> exists t, t ∈ tp_mTxsSet p /\ pt_id t = h /\ tx_key t = k;
  po_capacity : tp_mTxsSet p = [] \/ getTxCountInPool p <= tp_mMaxTxsInPool p;
  po_avoid : forall h s, tp_mAvoidByHash p !! h = Some s -> h ∈ default ∅ (tp_mAvoidBySeq p !! s)
}.

(** Changes that leave the transactions alone, and those that leave the avoided ones. *)
Definition same_txs (p p' : TxPool) : Prop :=
  tp_mTxsSet p' = tp_mTxsSet p /\ tp_mTxsHash p' = tp_mTxsHash p /\ tp_mMaxTxsInPool p' = tp_mMaxTxsInPool p.

Definition same_avoid (p p' : TxPool) : Prop := tp_mAvoidByHash p' = tp_mAvoidByHash p /\ tp_mAvoidBySeq p' = tp_mAvoidBySeq p.

Lemma ok_same p p' : Pool_ok p -> same_txs p p' -> same_avoid p p' -> Pool_ok p'.
Proof. intros [H1 H2 H3 H4] (E1 & E2 & E3) (E4 & E5). split; unfold getTxCountInPool in *; by rewrite ?E1, ?E2, ?E3, ?E4, ?E5. Qed.

Lemma ok_avoid p p' :
  Pool_ok p -> same_txs p p' -> (forall h s, tp_mAvoidByHash p' !! h = Some s -> h ∈ default ∅ (tp_mAvoidBySeq p' !! s)) -> Pool_ok p'.
Proof. intros [H1 H2 H3 _] (E1 & E2 & E3) H4. split; unfold getTxCountInPool in *; by rewrite ?E1, ?E2, ?E3. Qed.

Lemma new_ok capacity closeTime : Pool_ok (TxPool_new capacity closeTime).
Proof.
  split; [apply SSorted_nil | | by left | done]. intros h k. split; [done|]. intros (t & Ht & _). by apply not_elem_of_nil in Ht.
Qed.

Lemma index_id p t : Pool_ok p -> t ∈ tp_mTxsSet p -> tp_mTxsHash p !! pt_id t = Some (tx_key t).
Proof. intros Hp Ht. apply (po_index _ Hp). by exists t. Qed.

Lemma id_inj p t t' : Pool_ok p -> t ∈ tp_mTxsSet p -> t' ∈ tp_mTxsSet p -> pt_id t = pt_id t' -> t = t'.
Proof.
  intros Hp Ht Ht' E. pose proof (index_id p t Hp Ht) as H1. pose proof (index_id p t' Hp Ht') as H2.
  apply (sorted_key_inj _ _ _ (po_sorted _ Hp) Ht Ht'). congruence.
Qed.

(** Removing transactions keeps the invariant when the index follows. *)
Lemma ok_remove p p' (gone : PoolTx -> Prop) :
  Pool_ok p -> tx_sorted (tp_mTxsSet p') -> (length (tp_mTxsSet p') <= length (tp_mTxsSet p))%nat ->
  (forall t, t ∈ tp_mTxsSet p' <-> t ∈ tp_mTxsSet p /\ ~ gone t) ->
  (forall h k, tp_mTxsHash p' !! h = Some k <-> tp_mTxsHash p !! h = Some k /\ ~ exists t, t ∈ tp_mTxsSet p /\ pt_id t = h /\ gone t) ->
  tp_mMaxTxsInPool p' = tp_mMaxTxsInPool p ->
  (forall h s, tp_mAvoidByHash p' !! h = Some s -> h ∈ default ∅ (tp_mAvoidBySeq p' !! s)) -> Pool_ok p'.
Proof.
  intros Hp Hs Hl Hin Hix Hm Ha. split; [done| | |done].
  - intros h k. rewrite Hix, (po_index _ Hp). split.
    + intros [(t & Ht & <- & <-) Hg]. exists t. rewrite Hin. split; [|done]. split; [done|]. intros Hgt. apply Hg. by exists t.
    + intros (t & [Ht Hg]%Hin & <- & <-). split; [by exists t|]. intros (t' & Ht' & E & Hg'). by rewrite (id_inj p t' t Hp Ht' Ht E) in Hg'.
  - destruct (po_capacity _ Hp) as [E|Hc]; [left; rewrite E in Hl; by destruct (tp_mTxsSet p'); simpl in Hl; [|lia]|].
    right. rewrite Hm. unfold getTxCountInPool in *. lia.
Qed.

(** ** Insertion *)

Lemma insertTx_spec t seq p :
  Pool_ok p ->
  let '(ter, p') := insertTx t seq p in
  Pool_ok p' /\ same_avoid p p' /\ tp_mInLedgerCache p' = tp_mInLedgerCache p
  /\ match ter with
     | tesSUCCESS =>
         in_cache (pt_id t) (tp_mInLedgerCache p) = true /\ p' = p
         \/ tx_key t ∉ tx_key <$> tp_mTxsSet p /\ tp_mTxsSet p' ≡ₚ t :: tp_mTxsSet p
     | _ => same_txs p p' /\ tp_mSyncStatus p' = tp_mSyncStatus p
     end.
Proof.
  intros Hp. unfold insertTx. destruct (Z.leb_spec (tp_mMaxTxsInPool p) (getTxCountInPool p)) as [|Hc]; [done|].
  destruct (in_cache _ _); [by split_and!; auto|].
  pose proof (set_insert_spec t (tp_mTxsSet p) (po_sorted _ Hp)) as Hi. destruct (set_insert t (tp_mTxsSet p)) as [b txs].
  destruct Hi as (-> & Hs & Hb). case_bool_decide as Hn; [|done]. destruct (tp_mTxsHash p !! pt_id t) as [k|] eqn:Eh.
  { assert (Hsame : set_erase (tx_key t) txs = tp_mTxsSet p) by (apply set_erase_insert; [apply Hp | done | done | done]).
    assert (same_txs p (set_txs (set_erase (tx_key t) txs) (tp_mTxsHash p) p)) by done. split_and!; try done. by eapply ok_same. }
  split; [|split_and!; try done; right; done]. split; simpl; [done | | |apply Hp].
  - intros h k. rewrite lookup_insert_Some, (po_index _ Hp). split.
    + intros [[<- <-]|[Hne (t' & Ht' & <- & <-)]]; [exists t | exists t']; (split; [rewrite Hb|done]); [left | by right].
    + intros (t' & Ht' & <- & <-). rewrite Hb in Ht'. apply elem_of_cons in Ht' as [->|Ht']; [by left|]. right.
      split; [|by exists t']. intros E. rewrite E, (index_id p t' Hp Ht') in Eh. done.
  - right. unfold getTxCountInPool in *. simpl. apply Permutation_length in Hb. rewrite Hb. simpl. lia.
Qed.

(** ** Removal *)

Lemma filter_shorter (P : PoolTx -> Prop) `{forall x, Decision (P x)} l : (length (base.filter P l) <= length l)%nat.
Proof. apply length_filter. Qed.

Lemma remove_item_spec clock p key :
  Pool_ok p ->
  let p' := remove_item clock p key in
  Pool_ok p' /\ same_avoid p p' /\ tp_mSyncStatus p' = tp_mSyncStatus p /\ tp_mDeleteTime p' = tp_mDeleteTime p
  /\ tp_mMaxTxsInPool p' = tp_mMaxTxsInPool p
  /\ (forall t, t ∈ tp_mTxsSet p' <-> t ∈ tp_mTxsSet p /\ pt_id t <> key)
  /\ (forall h, in_cache h (tp_mInLedgerCache p') = in_cache h (tp_mInLedgerCache p) || ((h =? key) && negb (txExists key p))).
Proof.
  intros Hp p'. subst p'. unfold remove_item, txExists. destruct (tp_mTxsHash p !! key) as [k|] eqn:E.
  - apply (po_index _ Hp) in E as E'. destruct E' as (t0 & Ht0 & <- & <-).
    assert (Hin : forall t, t ∈ set_erase (tx_key t0) (tp_mTxsSet p) <-> t ∈ tp_mTxsSet p /\ pt_id t <> pt_id t0).
    { intros t. rewrite set_erase_in. split; intros [Ht Hne]; (split; [done|]); intros Eq; apply Hne.
      - by rewrite (id_inj p t t0 Hp Ht Ht0 Eq).
      - by rewrite (sorted_key_inj _ _ _ (po_sorted _ Hp) Ht Ht0 Eq). }
    split_and!; try done.
    + apply (ok_remove p _ (fun t => pt_id t = pt_id t0) Hp); simpl; [apply sorted_filter, Hp | apply filter_shorter | | |done|apply Hp].
      * intros t. by rewrite Hin.
      * intros h k. rewrite lookup_delete_Some. split.
        -- intros [Hne Hk]. split; [done|]. intros (t & Ht & <- & Eq). congruence.
        -- intros [Hk Hg]. split; [|done]. intros <-. apply Hg. by exists t0.
    + intros h. simpl. by rewrite andb_false_r, orb_false_r.
  - assert (Hno : forall t, t ∈ tp_mTxsSet p <-> t ∈ tp_mTxsSet p /\ pt_id t <> key).
    { intros t. split; [|tauto]. intros Ht. split; [done|]. intros <-. by rewrite (index_id p t Hp Ht) in E. }
    destruct (in_cache key _) eqn:Ec.
    + split_and!; try done. intros h. simpl. rewrite andb_true_r. destruct (Z.eqb_spec h key) as [->|]; [by rewrite Ec | by rewrite orb_false_r].
    + split_and!; try done; [by apply (ok_same p)|]. intros h. simpl. unfold in_cache. rewrite existsb_app. simpl. by rewrite orb_false_r, andb_true_r, Z.eqb_sym.
Qed.

Lemma remove_items_spec clock keys p :
  Pool_ok p ->
  let p' := fold_left (remove_item clock) keys p in
  Pool_ok p' /\ same_avoid p p' /\ tp_mSyncStatus p' = tp_mSyncStatus p /\ tp_mDeleteTime p' = tp_mDeleteTime p
  /\ tp_mMaxTxsInPool p' = tp_mMaxTxsInPool p
  /\ (forall t, t ∈ tp_mTxsSet p' <-> t ∈ tp_mTxsSet p /\ pt_id t ∉ keys)
  /\ (forall h, in_cache h (tp_mInLedgerCache p') = true -> in_cache h (tp_mInLedgerCache p) = true \/ h ∈ keys)
  /\ (forall h, h ∈ keys -> txExists h p = false -> in_cache h (tp_mInLedgerCache p') = true)
  /\ (forall h, in_cache h (tp_mInLedgerCache p) = true -> in_cache h (tp_mInLedgerCache p') = true).
Proof.
  revert p. induction keys as [|key keys IH]; intros p Hp p'; subst p'; cbn [fold_left].
  { split_and!; try done; [|by left|set_solver]. intros t. set_solver. }
  destruct (remove_item_spec clock p key Hp) as (Hp1 & [Ha1 Ha2] & Hs & Hd & Hm & Hin & Hc).
  destruct (IH _ Hp1) as (Hp2 & [Hb1 Hb2] & Hs2 & Hd2 & Hm2 & Hin2 & Hc2 & Hn2 & Hk2).
  split_and!; try done; try congruence; [split; congruence| | | |].
  - intros t. rewrite Hin2, Hin. set_solver.
  - intros h Hh. apply Hc2 in Hh as [Hh|]; [|by right; right]. rewrite Hc in Hh. apply orb_true_iff in Hh as [|Hh]; [by left|].
    right. apply andb_true_iff in Hh as [->%Z.eqb_eq _]. left.
  - intros h Hh Hex. assert (Hex1 : txExists h (remove_item clock p key) = false).
    { unfold txExists in *. apply bool_decide_eq_false in Hex. apply bool_decide_eq_false. intros [k Hk]. apply Hex.
      apply (po_index _ Hp1) in Hk as (t & [Ht _]%Hin & <- & _). exists (tx_key t). by apply index_id. }
    apply elem_of_cons in Hh as [->|Hh]; [|by apply Hn2]. apply Hk2. by rewrite Hc, Z.eqb_refl, Hex, orb_true_r.
  - intros h Hh. apply Hk2. by rewrite Hc, Hh.
Qed.

(** ** Avoided transactions *)

Lemma clearAvoid_spec seq p :
  Pool_ok p ->
  Pool_ok (clearAvoid seq p) /\ same_txs p (clearAvoid seq p) /\ tp_mAvoidByHash (clearAvoid seq p) ⊆ tp_mAvoidByHash p
  /\ (forall h s, tp_mAvoidByHash p !! h = Some s -> s <> seq ->
        h ∉ default ∅ (tp_mAvoidBySeq p !! seq) -> tp_mAvoidByHash (clearAvoid seq p) !! h = Some s).
Proof.
  intros Hp. split_and!; try done.
  - apply (ok_avoid p); [done | done|]. intros h s. simpl. rewrite map_lookup_filter_Some. simpl. intros [Hh Hn].
    apply (po_avoid _ Hp) in Hh as Hs. rewrite lookup_delete_ne; [done|]. by intros <-.
  - apply map_filter_subseteq.
  - intros h s Hh _ Hn. simpl. by apply map_lookup_filter_Some.
Qed.

Lemma clearAvoid_all_ok p : Pool_ok p -> Pool_ok (clearAvoid_all p).
Proof. intros Hp. by apply (ok_avoid p). Qed.

Lemma avoid_items_spec seq keys p :
  Pool_ok p ->
  let p' := fold_left (avoid_item seq) keys p in
  Pool_ok p' /\ same_txs p p' /\ tp_mInLedgerCache p' = tp_mInLedgerCache p /\ tp_mSyncStatus p' = tp_mSyncStatus p
  /\ tp_mAvoidByHash p ⊆ tp_mAvoidByHash p' /\ forall h, h ∈ keys -> is_Some (tp_mAvoidByHash p' !! h).
Proof.
  revert p. induction keys as [|key keys IH]; intros p Hp p'; subst p'; cbn [fold_left]; [by split_and!; try done; set_solver|].
  assert (Hp1 : Pool_ok (avoid_item seq p key)).
  { apply (ok_avoid p); [done | done|]. intros h s. simpl. intros Hh.
    assert (Hcase : tp_mAvoidByHash p !! h = Some s \/ h = key /\ s = seq).
    { destruct (tp_mAvoidByHash p !! key) as [s'|] eqn:E; [by left|]. apply lookup_insert_Some in Hh as [[<- <-]|[_ Hh]]; auto. }
    destruct Hcase as [Hs|[-> ->]]; [|rewrite lookup_insert_eq; set_solver]. apply (po_avoid _ Hp) in Hs.
    destruct (decide (s = seq)) as [->|]; [rewrite lookup_insert_eq; set_solver | by rewrite lookup_insert_ne]. }
  destruct (IH _ Hp1) as (Hp2 & (E1 & E2 & E3) & Hc & Hs & Hsub & Hall). split_and!; try done.
  - etrans; [|exact Hsub]. simpl. destruct (tp_mAvoidByHash p !! key) eqn:E; [done|]. by apply insert_subseteq.
  - intros h [->|Hh]%elem_of_cons; [|by apply Hall]. assert (Hk : is_Some (tp_mAvoidByHash (avoid_item seq p key) !! key)).
    { simpl. destruct (tp_mAvoidByHash p !! key) eqn:E; [by rewrite E | by rewrite lookup_insert_eq]. }
    destruct Hk as [s' Hk]. exists s'. by apply (lookup_weaken _ _ _ _ Hk).
Qed.

Lemma unavoid_ok hash p : Pool_ok p -> Pool_ok (unavoid hash p) /\ same_txs p (unavoid hash p) /\ tp_mInLedgerCache (unavoid hash p) = tp_mInLedgerCache p.
Proof.
  intros Hp. unfold unavoid. destruct (tp_mAvoidByHash p !! hash) as [seq|] eqn:E; [|done]. split; [|done]. apply (ok_avoid p); [done | done|].
  intros h s. simpl. rewrite lookup_delete_Some. intros [Hne Hh]. apply (po_avoid _ Hp) in Hh as Hs.
  destruct (decide (s = seq)) as [->|Hne']; [|case_decide; [by rewrite lookup_delete_ne | by rewrite lookup_insert_ne]].
  rewrite decide_False by set_solver. rewrite lookup_insert_eq. set_solver.
Qed.

Lemma removeTx_ok hash p p' : Pool_ok p -> removeTx hash p = Some p' -> Pool_ok p' /\ same_txs p p' /\ tp_mInLedgerCache p' = tp_mInLedgerCache p.
Proof. intros Hp. unfold removeTx. destruct (tp_mTxsHash p !! hash); [done|]. intros [= <-]. by apply unavoid_ok. Qed.

Lemma removeTx_read_ok hash k p :
  Pool_ok p -> tp_mTxsHash p !! hash = Some k ->
  let p' := removeTx_read hash k p in
  Pool_ok p' /\ tp_mInLedgerCache p' = tp_mInLedgerCache p /\ forall t, t ∈ tp_mTxsSet p' <-> t ∈ tp_mTxsSet p /\ pt_id t <> hash.
Proof.
  intros Hp Hk. pose proof (remove_item_spec 0 p hash Hp) as Hr. unfold remove_item in Hr. rewrite Hk in Hr.
  destruct Hr as (Hp1 & _ & _ & _ & _ & Hin & _). destruct (unavoid_ok hash _ Hp1) as (Hp2 & (E & _) & Hc).
  split_and!; [done | done|]. intros t. unfold removeTx_read. by rewrite E, Hin.
Qed.

(** ** The batch for a set *)

Definition free (p : TxPool) (t : PoolTx) : Prop := tp_mAvoidByHash p !! pt_id t = None.

#[export] Instance free_dec p t : Decision (free p t) := _ : Decision (_ = None).

Lemma take_free_spec limit p l : take_free limit (tp_mAvoidByHash p) l = take (Z.to_nat limit) (base.filter (free p) l).
Proof.
  revert limit. induction l as [|t l IH]; intros limit; cbn [take_free]; [by destruct (Z.to_nat limit)|].
  destruct (Z.ltb_spec 0 limit) as [Hl|Hl]; [|by replace (Z.to_nat limit) with 0%nat by lia].
  rewrite filter_cons. case_decide as E; unfold free in E.
  2:{ destruct (tp_mAvoidByHash p !! pt_id t); [apply IH | done]. }
  rewrite E. replace (Z.to_nat limit) with (S (Z.to_nat (limit - 1))) by lia. cbn [take]. by rewrite IH.
Qed.

Lemma sorted_take_closed n l a b : tx_sorted l -> a ∈ l -> b ∈ take n l -> tx_lt a b -> a ∈ take n l.
Proof.
  intros Hs. revert n. induction Hs as [|x l Hs IH Hx]; intros n Ha Hb Hlt; [by apply not_elem_of_nil in Ha|].
  destruct n as [|n]; [by apply not_elem_of_nil in Hb|]. cbn [take] in *. rewrite Forall_forall in Hx.
  apply elem_of_cons in Ha as [->|Ha]; [left|]. right. apply elem_of_cons in Hb as [->|Hb]; [|by apply IH].
  destruct (tx_lt_neq x x); [|done]. apply (tx_lt_trans _ a); [by apply Hx | done].
Qed.

(** ** Validated ledgers *)

Lemma removeTxs_spec items seq prevHash clock p :
  Pool_ok p ->
  let p' := removeTxs items seq prevHash clock p in
  Pool_ok p' /\ tp_mMaxTxsInPool p' = tp_mMaxTxsInPool p
  /\ (forall t, t ∈ tp_mTxsSet p' <-> t ∈ tp_mTxsSet p /\ pt_id t ∉ items.1)
  /\ tp_mAvoidByHash p' = (if items.2 then tp_mAvoidByHash p else tp_mAvoidByHash (clearAvoid seq p))
  /\ tp_mSyncStatus p' = (if pool_isEmpty p' then sync_init else sync_ledger seq prevHash (tp_mSyncStatus p))
  /\ (forall h, in_cache h (tp_mInLedgerCache p') = true -> in_cache h (tp_mInLedgerCache p) = true \/ h ∈ items.1)
  /\ (forall h, h ∈ items.1 -> txExists h p = false -> in_cache h (tp_mInLedgerCache p') = true).
Proof.
  intros Hp p'. subst p'. unfold removeTxs, checkSyncStatus.
  destruct (remove_items_spec clock items.1 p Hp) as (Hp1 & [Ea Eb] & Hs & _ & Hm & Hin & Hc & Hn & _).
  set (p1 := fold_left _ _ _) in *. destruct items.2.
  - split_and!; try done; [by apply (ok_same p1)|]. by rewrite <- Hs.
  - destruct (clearAvoid_spec seq p1 Hp1) as (Hp2 & _). split_and!; try done.
    + by apply (ok_same (clearAvoid seq p1)).
    + simpl. by rewrite Ea, Eb.
    + by rewrite <- Hs.
Qed.

(** The transactions a timer takes out. *)
Definition timer_items (get : Z -> option PoolLedger) (p : TxPool) : list Z :=
  if isAvailable p then []
  else match get (ss_prevHash (tp_mSyncStatus p)) with Some l => (pl_txs l).1 | None => [] end.

Lemma in_cache_expire h now age cache : in_cache h (expire now age cache) = true -> in_cache h cache = true.
Proof.
  induction cache as [|e cache IH]; [done|]. cbn [expire]. destruct (_ <=? _); [|done]. intros Hh%IH. unfold in_cache in *. simpl. rewrite Hh.
  apply orb_true_r.
Qed.

Lemma timer_spec get now clock p :
  Pool_ok p ->
  let p' := pool_timerEntry get now clock p in
  Pool_ok p' /\ (forall t, t ∈ tp_mTxsSet p' <-> t ∈ tp_mTxsSet p /\ pt_id t ∉ timer_items get p)
  /\ (forall h, in_cache h (tp_mInLedgerCache p') = true -> in_cache h (tp_mInLedgerCache p) = true \/ h ∈ timer_items get p).
Proof.
  intros Hp p'. subst p'. unfold pool_timerEntry, timer_items. set (p1 := if isAvailable p then p else _).
  set (items := if isAvailable p then [] else _).
  assert (H1 : Pool_ok p1 /\ (forall t, t ∈ tp_mTxsSet p1 <-> t ∈ tp_mTxsSet p /\ pt_id t ∉ items)
    /\ (forall h, in_cache h (tp_mInLedgerCache p1) = true -> in_cache h (tp_mInLedgerCache p) = true \/ h ∈ items)).
  { unfold p1, items. destruct (isAvailable p); [split_and!; [done | set_solver | by left]|].
    destruct (get _) as [l|]; [|split_and!; [done | set_solver | by left]].
    destruct (removeTxs_spec (pl_txs l) (pl_seq l) (pl_parentHash l) clock p Hp) as (H1 & _ & H2 & _ & _ & H3 & _). done. }
  destruct H1 as (H1 & H2 & H3). case_match; [|done]. split_and!; [by apply (ok_same p1) | done|].
  intros h Hh%in_cache_expire. by apply H3.
Qed.

Lemma removeExpired_ok validSeq p sm :
  Pool_ok p ->
  Pool_ok (removeExpired validSeq p sm).1
  /\ (forall t, t ∈ tp_mTxsSet (removeExpired validSeq p sm).1 <-> t ∈ tp_mTxsSet p /\ expired validSeq t = false).
Proof.
  intros Hp. assert (Hin : forall t, t ∈ tp_mTxsSet (removeExpired validSeq p sm).1 <-> t ∈ tp_mTxsSet p /\ expired validSeq t = false).
  { intros t. simpl. rewrite list_elem_of_filter. tauto. }
  split; [|done]. apply (ok_remove p _ (fun t => expired validSeq t = true) Hp); [apply sorted_filter, Hp | apply filter_shorter | | |done|].
  - intros t. by rewrite Hin, not_true_iff_false.
  - intros h k. simpl. assert (Hf : forall l, foldr (fun t => delete (pt_id t)) (tp_mTxsHash p) l !! h = Some k
      <-> tp_mTxsHash p !! h = Some k /\ ~ exists t, t ∈ l /\ pt_id t = h).
    { induction l as [|t l IH]; cbn [foldr].
      - split; [|tauto]. intros Hk. split; [done|]. intros (t & Ht & _). by apply not_elem_of_nil in Ht.
      - rewrite lookup_delete_Some, IH. split.
        + intros (Hne & Hk & Hno). split; [done|]. intros (t' & [->|Ht']%elem_of_cons & E); [done|]. apply Hno. by exists t'.
        + intros [Hk Hno]. split_and!; [|done|]; [intros E; apply Hno; exists t; by split; [left|]|].
          intros (t' & Ht' & E). apply Hno. exists t'. by split; [right|]. }
    rewrite Hf. apply and_iff_compat_l. split; intros Hno (t & Ht).
    + apply Hno. exists t. rewrite list_elem_of_filter. tauto.
    + apply Hno. exists t. rewrite list_elem_of_filter in Ht. tauto.
  - intros h s. simpl. rewrite map_lookup_filter_Some. simpl. intros [Hh Hs]. apply (po_avoid _ Hp) in Hh.
    assert (Hk : forall l m, h ∈ default ∅ (m !! s) ->
      h ∈ default ∅ (foldr (fun (e : Z * Z) (m : gmap Z (gset Z)) => if e.2 <? validSeq then delete e.2 m else m) m l !! s)).
    { induction l as [|e l IH]; intros m Hm; [done|]. cbn [foldr]. destruct (Z.ltb_spec e.2 validSeq); [|by apply IH].
      rewrite lookup_delete_ne by lia. by apply IH. }
    by apply Hk.
Qed.
