(* ===== verification/TxPoolSystem.v ===== *)
(** * The transaction pool among its users

    The pool and the account sequences under every call the server makes, the view of
    the ledger they are used with, and the transactions that left the pool: those of
    validated ledgers, those removed and those expired.  What holds of every reachable
    state, and how a pool that missed ledgers catches up. *)

From S2P Require Import Prelude StateManager ShaMapNode ShaMap ShaMapRep ShaMapOps ShaMapIter TxPool TxPoolProps.

#[local] Open Scope Z_scope.

(** ** States and steps *)

(** The hashes of the transactions of validated ledgers, of those that expired in the pool,
    and of those [removeTx] took out. *)
Record Gone := mkGone { gn_ledgers : list Z; gn_expired : list Z; gn_removed : list Z }.

Definition gone_none : Gone := mkGone [] [] [].
Definition add_ledger (keys : list Z) (g : Gone) : Gone := mkGone (keys ++ gn_ledgers g) (gn_expired g) (gn_removed g).
Definition add_expired (keys : list Z) (g : Gone) : Gone := mkGone (gn_ledgers g) (keys ++ gn_expired g) (gn_removed g).
Definition add_removed (key : Z) (g : Gone) : Gone := mkGone (gn_ledgers g) (gn_expired g) (key :: gn_removed g).

Record PoolSys := mkSys { sy_pool : TxPool; sy_sm : StateManager; sy_view : SeqView; sy_gone : Gone }.

(** The sequences of accounts do not fall. *)
Definition grows (view view' : SeqView) : Prop := forall a s, view !! a = Some s -> exists s', view' !! a = Some s' /\ s <= s'.

(** A transaction of the pool that a ledger has is below the sequence of its account. *)
Definition applied (keys : list Z) (p : TxPool) (view : SeqView) : Prop :=
  forall t, t ∈ tp_mTxsSet p -> pt_id t ∈ keys -> exists s, view !! pt_account t = Some s /\ pt_sequence t < s.

(** The transactions a sweep takes out. *)
Definition swept (validSeq : Z) (p : TxPool) : list Z := pt_id <$> base.filter (fun t => expired validSeq t = true) (tp_mTxsSet p).

(** The calls of the server.  [removeTx] is undefined for a transaction of the pool; the
    step for one takes the erased entry to read as it was. *)
Inductive sys_step : PoolSys -> PoolSys -> Prop :=
| StepSubmit p sm view l others t viewSeq ter b p' sm' :
    doTransactionCheck others t view viewSeq p sm = (ter, b, p', sm') -> sys_step (mkSys p sm view l) (mkSys p' sm' view l)
| StepSign p sm view l a : sys_step (mkSys p sm view l) (mkSys p (getAndIncSignSeq a view sm).2 view l)
| StepCheckSeq p sm view l a : sys_step (mkSys p sm view l) (mkSys p (getAccountCheckSeq a view sm).2 view l)
| StepFailed p sm view l a seq : sys_step (mkSys p sm view l) (mkSys p (addFailedSeq a seq sm) view l)
| StepClear p sm view l : sys_step (mkSys p sm view l) (mkSys p (sm_clear sm) view l)
| StepValidated p sm view l items seq prevHash clock view' :
    valid_view view' -> grows view view' -> applied items.1 p view' ->
    sys_step (mkSys p sm view l) (mkSys (removeTxs items seq prevHash clock p) sm view' (add_ledger items.1 l))
| StepTimer p sm view l get now clock :
    applied (timer_items get p) p view ->
    sys_step (mkSys p sm view l) (mkSys (pool_timerEntry get now clock p) sm view (add_ledger (timer_items get p) l))
| StepAvoid p sm view l keys seq validSeq : sys_step (mkSys p sm view l) (mkSys (updateAvoid keys seq validSeq p) sm view l)
| StepClearAvoid p sm view l seq : sys_step (mkSys p sm view l) (mkSys (clearAvoid seq p) sm view l)
| StepClearAll p sm view l : sys_step (mkSys p sm view l) (mkSys (clearAvoid_all p) sm view l)
| StepRemove p sm view l hash p' : removeTx hash p = Some p' -> sys_step (mkSys p sm view l) (mkSys p' sm view l)
| StepRemoveRead p sm view l hash k :
    tp_mTxsHash p !! hash = Some k -> sys_step (mkSys p sm view l) (mkSys (removeTx_read hash k p) sm view (add_removed hash l))
| StepSweep p sm view l validSeq :
    sys_step (mkSys p sm view l)
      (mkSys (removeExpired validSeq p sm).1 (removeExpired validSeq p sm).2 view (add_expired (swept validSeq p) l)).

Inductive reachable (capacity closeTime : Z) (view : SeqView) : PoolSys -> Prop :=
| Start : valid_view view -> reachable capacity closeTime view (mkSys (TxPool_new capacity closeTime) ∅ view gone_none)
| Next x y : reachable capacity closeTime view x -> sys_step x y -> reachable capacity closeTime view y.

(** ** Every sequence below the next one is accounted for *)

(** A transaction of an account and sequence is in the pool or in a validated ledger, or
    was taken out by [removeTx]. *)
Definition accounted (p : TxPool) (g : Gone) (k : TxKey) : Prop :=
  exists t, tx_key t = k /\ (t ∈ tp_mTxsSet p \/ pt_id t ∈ gn_ledgers g \/ pt_id t ∈ gn_removed g).

(** One has expired. *)
Definition lapsed (g : Gone) (k : TxKey) : Prop := exists t, tx_key t = k /\ pt_id t ∈ gn_expired g.

Record Sys_ok (x : PoolSys) : Prop := {
  so_pool : Pool_ok (sy_pool x);
  so_view : valid_view (sy_view x);
  so_unknown : unknown_zero (sy_view x) (sy_sm x);
  so_cache : forall h, in_cache h (tp_mInLedgerCache (sy_pool x)) = true -> h ∈ gn_ledgers (sy_gone x);
  so_covered : forall a s n k, sy_view x !! a = Some s -> next_seq (sy_view x) (sy_sm x) a = Some n -> s <= k < n ->
    accounted (sy_pool x) (sy_gone x) (a, k);
  so_earlier : forall t, t ∈ tp_mTxsSet (sy_pool x) -> exists s, sy_view x !! pt_account t = Some s /\
    forall k, s <= k < pt_sequence t ->
      accounted (sy_pool x) (sy_gone x) (pt_account t, k) \/ lapsed (sy_gone x) (pt_account t, k)
}.

(** Nothing is forgotten of what is gone. *)
Definition gone_sub (g g' : Gone) : Prop :=
  gn_ledgers g ⊆ gn_ledgers g' /\ gn_expired g ⊆ gn_expired g' /\ gn_removed g ⊆ gn_removed g'.

Lemma add_ledger_sub keys g : gone_sub g (add_ledger keys g).
Proof. split_and!; simpl; set_solver. Qed.

Lemma accounted_mono p g p' g' k :
  (forall t, t ∈ tp_mTxsSet p -> t ∈ tp_mTxsSet p' \/ pt_id t ∈ gn_ledgers g' \/ pt_id t ∈ gn_removed g') -> gone_sub g g' ->
  accounted p g k -> accounted p' g' k.
Proof.
  intros Hp (H1 & _ & H3) (t & Ek & Ht). exists t. split; [done|]. destruct Ht as [Ht|[Ht|Ht]]; [by apply Hp | right; left | right; right]; set_solver.
Qed.

(** What is known of earlier sequences stays known when transactions go and views grow. *)
Lemma earlier_mono p p' view view' g g' t :
  gone_sub g g' -> grows view view' ->
  (forall x, x ∈ tp_mTxsSet p -> x ∈ tp_mTxsSet p' \/ pt_id x ∈ gn_ledgers g' \/ pt_id x ∈ gn_removed g' \/ pt_id x ∈ gn_expired g') ->
  (exists s, view !! pt_account t = Some s /\
     forall k, s <= k < pt_sequence t -> accounted p g (pt_account t, k) \/ lapsed g (pt_account t, k)) ->
  exists s, view' !! pt_account t = Some s /\
     forall k, s <= k < pt_sequence t -> accounted p' g' (pt_account t, k) \/ lapsed g' (pt_account t, k).
Proof.
  intros (H1 & H2 & H3) Hg Hp (s & Es & Hk). destruct (Hg _ _ Es) as (s' & Es' & Hle). exists s'. split; [done|]. intros k Hr.
  destruct (Hk k ltac:(lia)) as [(x & Ex & Hx)|(x & Ex & Hx)]; [|right; exists x; set_solver].
  assert (Hc : x ∈ tp_mTxsSet p' \/ pt_id x ∈ gn_ledgers g' \/ pt_id x ∈ gn_removed g' \/ pt_id x ∈ gn_expired g').
  { destruct Hx as [Hx|[Hx|Hx]]; [by apply Hp | set_solver..]. }
  destruct Hc as [Hc|[Hc|[Hc|Hc]]]; [left | left | left | right]; exists x; tauto.
Qed.

Lemma grows_refl view : grows view view.
Proof. intros a s Hs. by exists s. Qed.

(** Steps of the account sequences alone. *)
Lemma ok_sm p sm sm' view l :
  Sys_ok (mkSys p sm view l) -> unknown_zero view sm' ->
  (forall a s n', view !! a = Some s -> next_seq view sm' a = Some n' -> exists n, next_seq view sm a = Some n /\ n' <= Z.max s n) ->
  Sys_ok (mkSys p sm' view l).
Proof.
  intros [H1 H2 H3 H4 H5 H6] Hu Hn. split; try done. simpl in *. intros a s n' k Hs Hn' Hk.
  destruct (Hn a s n' Hs Hn') as (n & Hn0 & Hle). apply (H5 a s n k Hs Hn0). lia.
Qed.

Lemma ok_sm_same p sm sm' view l :
  Sys_ok (mkSys p sm view l) -> unknown_zero view sm' -> (forall a, next_seq view sm' a = next_seq view sm a) -> Sys_ok (mkSys p sm' view l).
Proof. intros Hok Hu Hn. apply (ok_sm p sm); [done | done|]. intros a s n' Hs Hn'. exists n'. rewrite <- Hn. split; [done | lia]. Qed.

(** Steps of the pool alone that take no transaction out. *)
Lemma ok_pool p p' sm view l :
  Sys_ok (mkSys p sm view l) -> Pool_ok p' -> same_txs p p' -> tp_mInLedgerCache p' = tp_mInLedgerCache p -> Sys_ok (mkSys p' sm view l).
Proof.
  intros [H1 H2 H3 H4 H5 H6] Hp (E & _) Hc. split; try done; simpl in *; [by rewrite Hc| |].
  - intros a s n k Hs Hn Hk. apply (accounted_mono p l); [intros t Ht; left; by rewrite E | done | by apply (H5 a s n)].
  - intros t Ht. rewrite E in Ht. apply (earlier_mono p p' view view l l); [done | apply grows_refl | | by apply H6]. intros x Hx. left. by rewrite E.
Qed.

(** Transactions taken out by validated ledgers. *)
Lemma ok_ledger p p' sm view view' l keys :
  Sys_ok (mkSys p sm view l) -> valid_view view' -> grows view view' -> applied keys p view' -> Pool_ok p' ->
  (forall t, t ∈ tp_mTxsSet p' <-> t ∈ tp_mTxsSet p /\ pt_id t ∉ keys) ->
  (forall h, in_cache h (tp_mInLedgerCache p') = true -> in_cache h (tp_mInLedgerCache p) = true \/ h ∈ keys) ->
  Sys_ok (mkSys p' sm view' (add_ledger keys l)).
Proof.
  intros [H1 H2 H3 H4 H5 H6] Hv Hg Ha Hp Hin Hc. simpl in *. split; try done; simpl.
  - intros a Ha'. apply H3. destruct (view !! a) as [s|] eqn:E; [|done]. destruct (Hg a s E) as (s' & E' & _). congruence.
  - intros h Hh. apply elem_of_app. apply Hc in Hh as [Hh|]; [right; by apply H4 | by left].
  - intros a s' n' k Hs' Hn' Hk. unfold next_seq in Hn'. rewrite Hs' in Hn'. injection Hn' as <-.
    destruct (view !! a) as [s|] eqn:E; [|rewrite (H3 a E) in Hk; apply Hv in Hs'; simpl in Hs'; lia].
    destruct (Hg a s E) as (s'' & E' & Hle). assert (s'' = s') as -> by congruence.
    destruct (H5 a s (Z.max s (st_checkSeq (state_of sm a))) k E) as (t & Ek & Ht); [unfold next_seq; by rewrite E | lia|].
    exists t. split; [done|]. simpl. rewrite elem_of_app. destruct Ht as [Ht|[Ht|Ht]]; [|tauto|tauto].
    left. apply Hin. split; [done|]. intros Hid. destruct (Ha t Ht Hid) as (s0 & Es0 & Hlt). injection Ek as Ea Es.
    rewrite Ea, Hs' in Es0. injection Es0 as <-. lia.
  - intros t [Ht _]%Hin. apply (earlier_mono p p' view view' l (add_ledger keys l)); [apply add_ledger_sub | done | | by apply H6].
    intros x Hx. destruct (decide (pt_id x ∈ keys)) as [Hk|Hk]; [right; left; simpl; set_solver | left; by apply Hin].
Qed.

Lemma check_spec others t view viewSeq sm :
  valid_view view -> unknown_zero view sm ->
  let '(ter, sm') := check others t view viewSeq sm in
  unknown_zero view sm' /\ (forall a, next_seq view sm' a = next_seq view sm a)
  /\ (ter = tesSUCCESS -> exists s st, view !! pt_account t = Some s /\ sm' !! pt_account t = Some st
        /\ st_checkSeq st = pt_sequence t /\ s <= pt_sequence t).
Proof.
  intros Hv Hu. unfold check. destruct others; try done. unfold checkSeq2.
  pose proof (getAccountCheckSeq_spec (pt_account t) view sm Hv) as (Hr & Hn & _).
  pose proof (getAccountCheckSeq_unknown (pt_account t) view sm Hu) as Hu'. pose proof (getAccountCheckSeq_entry (pt_account t) view sm) as He.
  destruct (getAccountCheckSeq (pt_account t) view sm) as [a_seq sm']. cbn [fst snd] in *. split; [done|]. split; [done|].
  destruct (Z.eqb_spec a_seq 0) as [|H0]; [done|]. destruct (Z.eqb_spec (pt_sequence t) a_seq) as [E|]; [|by case_match].
  intros _. unfold next_seq in Hr. destruct (view !! pt_account t) as [s|]; [|done]. destruct (He ltac:(done)) as (st & Est & Ec).
  exists s, st. simpl in Hr. split_and!; [done | done | congruence | lia].
Qed.

Lemma ok_submit others t view viewSeq p sm l ter b p' sm' :
  Sys_ok (mkSys p sm view l) -> doTransactionCheck others t view viewSeq p sm = (ter, b, p', sm') -> Sys_ok (mkSys p' sm' view l).
Proof.
  intros Hok. pose proof Hok as [H1 H2 H3 H4 H5 H6]. simpl in *. unfold doTransactionCheck. destruct (txExists _ _); [by intros [= <- <- <- <-]|].
  pose proof (check_spec others t view viewSeq sm H2 H3) as Hc. destruct (check others t view viewSeq sm) as [ter1 sm1].
  destruct Hc as (Hu & Hn & Hs). assert (Hok1 : Sys_ok (mkSys p sm1 view l)) by (by apply (ok_sm_same p sm)).
  destruct ter1; try (by intros [= <- <- <- <-]);
    try (intros [= <- <- <- <-]; apply (ok_sm_same p sm1); [done | by apply addFailedSeq_unknown | apply addFailedSeq_next]).
  pose proof (insertTx_spec t viewSeq p H1) as Hi. destruct (insertTx t viewSeq p) as [ter2 p2]. destruct Hi as (Hp2 & _ & Hca & Hcase).
  destruct (decide (ter2 = tesSUCCESS)) as [->|Hne]; [|destruct ter2; try done; intros [= <- <- <- <-]; by apply (ok_pool p); try apply Hcase].
  intros [= <- <- <- <-]. destruct (Hs eq_refl) as (s & st & Ev & Est & Ec & Hle).
  assert (Hin : forall x, x ∈ tp_mTxsSet p -> x ∈ tp_mTxsSet p2).
  { intros x Hx. destruct Hcase as [[_ ->]|[_ ->]]; [done | by right]. }
  destruct Hok1 as [_ _ _ _ H5' _]. simpl in H5'. split; simpl; try done.
  - intros a Ha. unfold onTxCheckSuccess. rewrite Est. rewrite state_of_insert. case_decide; [congruence | by apply Hu].
  - by rewrite Hca.
  - intros a s' n k Hs' Hn' Hk. rewrite (onTxCheckSuccess_next _ _ _ _ _ _ Ev Est) in Hn'.
    assert (Hold : forall n, next_seq view sm1 a = Some n -> k < n -> accounted p2 l (a, k)).
    { intros n0 Hn0 Hk0. apply (accounted_mono p l); [intros x Hx; left; by apply Hin | done|]. apply (H5' a s' n0 k Hs' Hn0). lia. }
    case_decide as Ea; [|apply (Hold n Hn'); lia]. subst a. injection Hn' as <-. assert (s' = s) as -> by congruence.
    assert (Hnx : next_seq view sm1 (pt_account t) = Some (Z.max s (st_checkSeq st))) by (unfold next_seq, state_of; by rewrite Ev, Est).
    destruct (Z.lt_ge_cases k (Z.max s (st_checkSeq st))) as [Hlt|Hge]; [by apply (Hold _ Hnx)|].
    assert (Hu1 : u32 (st_checkSeq st + 1) <= st_checkSeq st + 1) by (apply H2 in Ev; simpl in Ev; apply Z.mod_le; lia).
    exists t. split; [unfold tx_key; f_equal; lia|]. destruct Hcase as [[Hca' _]|[_ ->]]; [right; left; by apply H4 | left; left].
  - assert (Hsub : forall x, x ∈ tp_mTxsSet p -> x ∈ tp_mTxsSet p2 \/ pt_id x ∈ gn_ledgers l \/ pt_id x ∈ gn_removed l \/ pt_id x ∈ gn_expired l)
      by (intros x Hx; left; by apply Hin).
    assert (Hold : forall x, x ∈ tp_mTxsSet p -> exists s, view !! pt_account x = Some s /\
      forall k, s <= k < pt_sequence x -> accounted p2 l (pt_account x, k) \/ lapsed l (pt_account x, k)).
    { intros x Hx. by apply (earlier_mono p p2 view view l l); [|apply grows_refl| |apply H6]. }
    intros x Hx. destruct Hcase as [[_ ->]|[_ Ep]]; [by apply Hold|]. rewrite Ep in Hx. apply elem_of_cons in Hx as [->|Hx]; [|by apply Hold].
    exists s. split; [done|]. intros k Hk. left. apply (accounted_mono p l); [intros y Hy; left; by apply Hin | done|].
    apply (H5' _ s (Z.max s (st_checkSeq st))); [done | unfold next_seq, state_of; by rewrite Ev, Est | lia].
Qed.

(** A transaction of the pool that is removed. *)
Lemma ok_removed p sm view l hash k :
  Sys_ok (mkSys p sm view l) -> tp_mTxsHash p !! hash = Some k -> Sys_ok (mkSys (removeTx_read hash k p) sm view (add_removed hash l)).
Proof.
  intros [H1 H2 H3 H4 H5 H6] Hk. simpl in *. destruct (removeTx_read_ok hash k p H1 Hk) as (Hp & Hc & Hin).
  assert (Hg : gone_sub l (add_removed hash l)) by (split_and!; simpl; set_solver).
  assert (Hsub : forall x, x ∈ tp_mTxsSet p -> x ∈ tp_mTxsSet (removeTx_read hash k p) \/ pt_id x ∈ hash :: gn_removed l).
  { intros x Hx. destruct (decide (pt_id x = hash)) as [<-|Hne]; [right; left | left; by apply Hin]. }
  split; try done; simpl.
  - by rewrite Hc.
  - intros a s n j Hs Hn Hj. apply (accounted_mono p l); [|done | by apply (H5 a s n)]. intros x Hx. destruct (Hsub x Hx); simpl; tauto.
  - intros t [Ht _]%Hin. apply (earlier_mono p _ view view l); [done | apply grows_refl | | by apply H6].
    intros x Hx. destruct (Hsub x Hx); simpl; tauto.
Qed.

(** ** Reachable states *)

Lemma ok_timer p sm view l get now clock :
  Sys_ok (mkSys p sm view l) -> applied (timer_items get p) p view ->
  Sys_ok (mkSys (pool_timerEntry get now clock p) sm view (add_ledger (timer_items get p) l)).
Proof.
  intros Hok Ha. pose proof Hok as [H1 H2 _ _ _ _]. destruct (timer_spec get now clock p H1) as (Hp & Hin & Hc).
  apply (ok_ledger p _ sm view); try done. intros a s Hs. by exists s.
Qed.

Lemma ok_sweep p sm view l validSeq :
  Sys_ok (mkSys p sm view l) ->
  Sys_ok (mkSys (removeExpired validSeq p sm).1 (removeExpired validSeq p sm).2 view (add_expired (swept validSeq p) l)).
Proof.
  intros [H1 H2 H3 H4 H5 H6]. simpl in *. destruct (removeExpired_ok validSeq p sm H1) as [Hp Hin]. split; simpl; try done.
  - intros a Ha. rewrite resets_state. case_decide; [done | by apply H3].
  - intros a s n k Hs Hn Hk. unfold next_seq in Hn. rewrite Hs in Hn. injection Hn as <-. rewrite resets_state in Hk.
    case_decide as Hgone; [apply H2 in Hs; simpl in Hs, Hk; lia|].
    destruct (H5 a s (Z.max s (st_checkSeq (state_of sm a))) k Hs) as (t & Ek & Ht); [unfold next_seq; by rewrite Hs | done|].
    exists t. split; [done|]. destruct Ht as [Ht|]; [left | by right]. apply list_elem_of_filter. split; [|done].
    apply not_true_iff_false. intros He. apply Hgone. rewrite elem_of_elements, elem_of_list_to_set. injection Ek as <- _.
    apply list_elem_of_fmap_2. by apply list_elem_of_filter.
  - intros t [_ Ht]%list_elem_of_filter. apply (earlier_mono p _ view view l); [split_and!; simpl; set_solver | apply grows_refl | | by apply H6].
    intros x Hx. simpl. destruct (expired validSeq x) eqn:Ex; [do 3 right; apply elem_of_app; left | left; by apply list_elem_of_filter].
    apply list_elem_of_fmap_2. by apply list_elem_of_filter.
Qed.

Lemma step_ok x y : Sys_ok x -> sys_step x y -> Sys_ok y.
Proof.
  intros Hok Hst.
  destruct Hst as [p sm view l others t viewSeq ter b p' sm' Hd|p sm view l a|p sm view l a|p sm view l a seq|p sm view l
    |p sm view l items seq prevHash clock view' Hv Hg Ha|p sm view l get now clock Ha|p sm view l keys seq validSeq|p sm view l seq
    |p sm view l|p sm view l hash p' Hr|p sm view l hash k Hk|p sm view l validSeq]; pose proof Hok as [H1 H2 H3 H4 H5 H6]; simpl in *.
  - by eapply ok_submit.
  - apply (ok_sm_same p sm); [done | by apply getAndIncSignSeq_unknown|]. intros b. by apply getAndIncSignSeq_next.
  - apply (ok_sm_same p sm); [done | by apply getAccountCheckSeq_unknown|]. by apply getAccountCheckSeq_spec.
  - apply (ok_sm_same p sm); [done | by apply addFailedSeq_unknown|]. intros b. apply addFailedSeq_next.
  - apply (ok_sm p sm); [done | done|]. intros a s n' Hs. unfold next_seq at 1. rewrite Hs. intros [= <-]. unfold next_seq. rewrite Hs.
    eexists. split; [done|]. change (st_checkSeq (state_of (sm_clear sm) a)) with 0. apply H2 in Hs. simpl in Hs. lia.
  - destruct (removeTxs_spec items seq prevHash clock p H1) as (Hp & _ & Hin & _ & _ & Hc & _). by apply (ok_ledger p _ sm view).
  - by apply ok_timer.
  - unfold updateAvoid. destruct (_ <=? _); [done|]. destruct (avoid_items_spec seq keys p H1) as (Hp & Hs & Hc & _). by apply (ok_pool p).
  - destruct (clearAvoid_spec seq p H1) as (Hp & Hs & _). by apply (ok_pool p).
  - apply (ok_pool p); try done. by apply clearAvoid_all_ok.
  - destruct (removeTx_ok hash p p' H1 Hr) as (Hp & Hs & Hc). by apply (ok_pool p).
  - by apply ok_removed.
  - by apply ok_sweep.
Qed.

Lemma reachable_ok capacity closeTime view x : reachable capacity closeTime view x -> Sys_ok x.
Proof.
  induction 1 as [Hv|x y _ IH Hst]; [|by eapply step_ok]. split; simpl; try done; [apply new_ok| |by intros t ?%not_elem_of_nil].
  intros a s n k Hs Hn Hk. unfold next_seq in Hn. rewrite Hs in Hn. injection Hn as <-. change (st_checkSeq (state_of ∅ a)) with 0 in Hk.
  apply Hv in Hs. simpl in Hs. lia.
Qed.

(** ** The keys of a tree *)

Lemma keys_from_items `{Hashers} n db mp at_ l : items_from n db mp at_ = Done l -> keys_from n db mp at_ = (it_key <$> l, false).
Proof.
  revert at_ l. induction n as [|n IH]; intros at_ l; cbn [items_from keys_from]; [by intros [= <-]|].
  destruct (at_.1) as [t|]; [|by intros [= <-]]. destruct (peekNextItem _ _ _ _) as [next|e]; [|done]. rewrite bind_done.
  destruct (items_from n db mp next) as [r|] eqn:E; [|done]. intros [= <-]. by rewrite (IH next r E).
Qed.

Lemma tree_keys_spec `{Hashers} db mp M :
  Holds db mp M -> exists keys, tree_keys (size M) db mp = (keys, false) /\ forall k, k ∈ keys <-> is_Some (M !! k).
Proof.
  intros HM. destruct (iteration_spec db mp M HM) as (l & Hl & _ & Hin). exists (it_key <$> l). split.
  - unfold tree_keys. destruct (peekFirstItem db mp) as [first|]; [|done]. rewrite bind_done in Hl. by apply keys_from_items.
  - intros k. rewrite list_elem_of_fmap. split.
    + intros (x & -> & (v & Hv & _)%Hin). by exists v.
    + intros [v Hv]. exists (mkItem k (v_data v)). split; [done|]. apply Hin. by exists v.
Qed.

(** ** Catching up *)

Lemma find_gap_some n i start g synced :
  (forall j, g < j <= i -> is_Some (synced !! j)) -> synced !! g = None -> start <= g <= i -> i - start < Z.of_nat n ->
  find_gap n i start synced = Some g.
Proof.
  revert i. induction n as [|n IH]; intros i Hall Hg Hr Hn; [lia|]. cbn [find_gap]. rewrite (proj2 (Z.ltb_ge _ _)) by lia.
  destruct (decide (i = g)) as [->|Hne]; [by rewrite Hg|]. destruct (Hall i ltac:(lia)) as [h ->].
  apply IH; [|done|lia|lia]. intros j Hj. apply Hall. lia.
Qed.

Lemma find_gap_none n i start synced : (forall j, start <= j <= i -> is_Some (synced !! j)) -> find_gap n i start synced = None.
Proof.
  revert i. induction n as [|n IH]; intros i Hall; [done|]. cbn [find_gap]. destruct (Z.ltb_spec i start); [done|].
  destruct (Hall i ltac:(lia)) as [h ->]. apply IH. intros j Hj. apply Hall. lia.
Qed.

Section Chase.

Context (hash_of : Z -> Z) (get : Z -> option PoolLedger) (start top : Z).
Context (Hrange : 0 < start /\ start < top /\ top < 2 ^ 32 - 1) (Hnz : forall i, hash_of i <> 0).
Context (Hget : forall i, start <= i < top -> exists l, get (hash_of i) = Some l /\ pl_seq l = i /\ pl_parentHash l = hash_of (i - 1)).

(** The ledgers above [i] have been taken out, those from the start to [i] are missing. *)
Record Chasing (i : Z) (s : sync_status) : Prop := {
  ch_start : ss_pool_start_seq s = start;
  ch_max : ss_max_advance_seq s = top;
  ch_hash : ss_prevHash s = hash_of i;
  ch_done : forall j, i < j <= top -> ss_mapSynced s !! j = Some (hash_of (j - 1));
  ch_left : forall j, start <= j <= i -> ss_mapSynced s !! j = None
}.

(** What taking out ledger [i] does to a map of ledgers with the ones above it. *)
Lemma sync_next i s :
  start <= i <= top -> ss_pool_start_seq s = start ->
  (ss_max_advance_seq s = top \/ i = top /\ ss_max_advance_seq s < top) ->
  (forall j, i < j <= top -> ss_mapSynced s !! j = Some (hash_of (j - 1))) ->
  (forall j, start <= j < i -> ss_mapSynced s !! j = None) ->
  let s' := sync_ledger i (hash_of (i - 1)) s in
  if decide (i = start) then ss_pool_start_seq s' = top + 1 /\ ss_max_advance_seq s' = top else Chasing (i - 1) s'.
Proof.
  intros Hi Hs Hm Hd Hl s'. subst s'. unfold sync_ledger. rewrite Hs, (proj2 (Z.ltb_lt 0 start)) by lia.
  assert (Em : (if ss_max_advance_seq s <? i then i else ss_max_advance_seq s) = top).
  { destruct Hm as [->|[-> Hm]]; [by rewrite (proj2 (Z.ltb_ge _ _)) by lia | by rewrite (proj2 (Z.ltb_lt _ _))]. }
  rewrite Em. rewrite (u32_small (top - 1)) by lia. set (synced := <[i := _]> _).
  assert (Hsyn : forall j, i <= j <= top -> synced !! j = Some (hash_of (j - 1))).
  { intros j Hj. unfold synced. destruct (decide (j = i)) as [->|]; [by rewrite lookup_insert_eq|]. rewrite lookup_insert_ne by done. apply Hd. lia. }
  assert (Hno : forall j, start <= j < i -> synced !! j = None).
  { intros j Hj. unfold synced. rewrite lookup_insert_ne by lia. by apply Hl. }
  case_decide as Ei.
  - subst i. rewrite find_gap_none; [|intros j Hj; eexists; apply Hsyn; lia]. simpl. by rewrite u32_small by lia.
  - rewrite (find_gap_some _ _ _ (i - 1)); [|intros j Hj; eexists; apply Hsyn; lia|apply Hno; lia|lia|lia].
    replace (i - 1 + 1) with i by lia. rewrite (u32_small i) by lia. rewrite (Hsyn i) by lia. cbn [from_option]. unfold id.
    rewrite (proj2 (Z.eqb_neq _ _) (Hnz (i - 1))). split; simpl; try done.
    + intros j Hj. destruct (decide (j = i)) as [->|]; [by rewrite lookup_insert_eq|]. rewrite lookup_insert_ne by done. apply Hsyn. lia.
    + intros j Hj. rewrite lookup_insert_ne by lia. apply Hno. lia.
Qed.

Definition ticks_of (ticks : list (Z * Z)) (p : TxPool) : TxPool :=
  fold_left (fun p tick => pool_timerEntry get tick.1 tick.2 p) ticks p.

Lemma timer_sync now clock p : isAvailable p = true -> tp_mSyncStatus (pool_timerEntry get now clock p) = tp_mSyncStatus p.
Proof. intros Ha. unfold pool_timerEntry. rewrite Ha. by case_match. Qed.

Lemma ticks_keep ticks p :
  Pool_ok p -> Pool_ok (ticks_of ticks p) /\ (forall t, t ∈ tp_mTxsSet (ticks_of ticks p) -> t ∈ tp_mTxsSet p)
  /\ (isAvailable p = true -> isAvailable (ticks_of ticks p) = true).
Proof.
  revert p. induction ticks as [|[now clock] ticks IH]; intros p Hp; [done|]. cbn [ticks_of fold_left fst snd].
  destruct (timer_spec get now clock p Hp) as (Hp1 & Hin & _). destruct (IH _ Hp1) as (Hp2 & Hin2 & Ha2). split_and!; [done| |].
  - intros t Ht%Hin2. by apply Hin in Ht as [].
  - intros Ha. apply Ha2. unfold isAvailable. by rewrite timer_sync.
Qed.

(** One ledger is taken out by every tick. *)
Lemma chase_tick i now clock p :
  Pool_ok p -> start <= i < top -> Chasing i (tp_mSyncStatus p) ->
  let p' := pool_timerEntry get now clock p in
  (forall t l, t ∈ tp_mTxsSet p' -> get (hash_of i) = Some l -> pt_id t ∉ (pl_txs l).1)
  /\ (tp_mTxsSet p' = [] /\ isAvailable p' = true
      \/ (if decide (i = start) then isAvailable p' = true else Chasing (i - 1) (tp_mSyncStatus p'))).
Proof.
  intros Hp Hi [Es Em Eh Hd Hl] p'. subst p'. destruct (Hget i Hi) as (l & Eg & Eseq & Epar).
  assert (Hna : isAvailable p = false) by (unfold isAvailable; rewrite Es, Em; apply Z.leb_gt; lia). split.
  { intros t l' Ht [= ->]%(eq_trans (eq_sym Eg)). destruct (timer_spec get now clock p Hp) as (_ & Hin & _). apply Hin in Ht as [_ Ht].
    unfold timer_items in Ht. by rewrite Hna, Eh, Eg in Ht. }
  unfold pool_timerEntry. rewrite Hna, Eh, Eg. set (p1 := removeTxs _ _ _ _ _). cbv zeta. set (p2 := if _ <=? _ then _ else _).
  assert (Hsync : tp_mSyncStatus p2 = tp_mSyncStatus p1) by (unfold p2; by case_match).
  assert (Hset : tp_mTxsSet p2 = tp_mTxsSet p1) by (unfold p2; by case_match).
  destruct (removeTxs_spec (pl_txs l) (pl_seq l) (pl_parentHash l) clock p Hp) as (_ & _ & _ & _ & Hs & _). fold p1 in Hs.
  rewrite Hset, Hsync. unfold isAvailable. rewrite Hsync, Hs. destruct (pool_isEmpty p1) eqn:Ee.
  { left. split; [|done]. unfold pool_isEmpty in Ee. apply Nat.eqb_eq in Ee. by apply length_zero_iff_nil. }
  right. rewrite Eseq, Epar. pose proof (sync_next i (tp_mSyncStatus p) ltac:(lia) Es (or_introl Em) Hd) as Hn.
  cbv zeta in Hn. case_decide; [|apply Hn; intros j Hj; apply Hl; lia]. destruct Hn as [-> ->]; [intros j Hj; apply Hl; lia|]. apply Z.leb_le. lia.
Qed.

Lemma chase i ticks p :
  Pool_ok p -> start <= i < top -> Chasing i (tp_mSyncStatus p) -> i - start < Z.of_nat (length ticks) ->
  let p' := ticks_of ticks p in
  isAvailable p' = true /\ forall j l t, start <= j <= i -> get (hash_of j) = Some l -> t ∈ tp_mTxsSet p' -> pt_id t ∉ (pl_txs l).1.
Proof.
  revert i p. induction ticks as [|[now clock] ticks IH]; intros i p Hp Hi Hc Hlen; [simpl in Hlen; lia|]. cbn [length] in Hlen.
  destruct (timer_spec get now clock p Hp) as (Hp1 & _). destruct (chase_tick i now clock p Hp Hi Hc) as (Hno & Hcase).
  intros p'. subst p'. cbn [ticks_of fold_left fst snd]. set (p1 := pool_timerEntry get now clock p) in *.
  destruct (ticks_keep ticks p1 Hp1) as (Hp2 & Hin2 & Ha2). fold (ticks_of ticks p1). destruct Hcase as [[He Ha]|Hcase].
  { split; [by apply Ha2|]. intros j l t _ _ Ht%Hin2. rewrite He in Ht. by apply not_elem_of_nil in Ht. }
  case_decide as Ei.
  - split; [by apply Ha2|]. intros j l t Hj El Ht%Hin2. assert (j = i) as -> by lia. by apply Hno.
  - destruct (IH (i - 1) p1 Hp1 ltac:(lia) Hcase ltac:(lia)) as [Hav Hrest]. split; [done|]. intros j l t Hj El Ht.
    destruct (decide (j = i)) as [->|]; [apply Hin2 in Ht; by apply Hno|]. apply (Hrest j); [lia | done | done].
Qed.

End Chase.
