(* ===== verification/TxPoolTheorems.v ===== *)
(** * The transaction pool: theorems

    The pool stays consistent, hands out batches in order with every sequence they leave
    out accounted for, forgets the transactions of validated ledgers, and catches up with
    ledgers it missed. *)

From S2P Require Import Prelude StateManager ShaMapNode ShaMap ShaMapRep ShaMapOps ShaMapHash ShaMapIter ShaMapRun TxSetMap ShaMapTheorems TxPool TxPoolProps TxPoolSystem.

#[local] Open Scope Z_scope.

(** ** Batches *)

Lemma sorted_nodup l : tx_sorted l -> NoDup l.
Proof.
  induction 1 as [|x l Hs IH Hx]; [apply NoDup_nil_2|]. apply NoDup_cons. split; [|done]. intros Hin. rewrite Forall_forall in Hx.
  by apply Hx, tx_lt_neq in Hin.
Qed.

Lemma taken_in p limit t : t ∈ take_free limit (tp_mAvoidByHash p) (tp_mTxsSet p) -> t ∈ tp_mTxsSet p /\ free p t.
Proof. rewrite take_free_spec. intros Ht%(subseteq_take _ _). apply list_elem_of_filter in Ht. tauto. Qed.

Lemma batch_spec p limit h :
  h ∈ (topTransactions limit ∅ p).2 <-> exists t, t ∈ take_free limit (tp_mAvoidByHash p) (tp_mTxsSet p) /\ pt_id t = h.
Proof. simpl. rewrite elem_of_union, elem_of_list_to_set, list_elem_of_fmap. set_solver. Qed.

(** A free transaction before one of the batch is in the batch. *)
Lemma batch_closed p limit t t' :
  Pool_ok p -> t ∈ tp_mTxsSet p -> t' ∈ tp_mTxsSet p -> free p t -> tx_lt t t' ->
  pt_id t' ∈ (topTransactions limit ∅ p).2 -> pt_id t ∈ (topTransactions limit ∅ p).2.
Proof.
  intros Hp Ht Ht' Hf Hlt (x & Hx & E)%batch_spec. apply taken_in in Hx as Hx'. destruct Hx' as [Hxp _].
  rewrite (id_inj p x t' Hp Hxp Ht' E) in Hx. apply batch_spec. exists t. split; [|done]. rewrite take_free_spec in *.
  apply (sorted_take_closed _ _ t t'); [apply sorted_filter, Hp | by apply list_elem_of_filter | done | done].
Qed.

Lemma ids_nodup p l : Pool_ok p -> NoDup l -> (forall t, t ∈ l -> t ∈ tp_mTxsSet p) -> NoDup (pt_id <$> l).
Proof.
  intros Hp. induction 1 as [|x l Hx Hl IH]; intros Hin; [apply NoDup_nil_2|]. rewrite fmap_cons. apply NoDup_cons. split.
  - intros (y & E & Hy)%list_elem_of_fmap. apply Hx. rewrite (id_inj p x y Hp); [done | apply Hin; left | apply Hin; by right | done].
  - apply IH. intros t Ht. apply Hin. by right.
Qed.

(** ** The theorems *)

(** C31: Whatever the server does with the pool, as long as the entry [removeTx] reads after
    it has erased it still reads as it was, its transactions stay ordered by account and
    sequence with one for each, the index by hash has exactly their hashes, their
    number stays within the capacity, and every avoided hash is one of the set it is
    avoided for. *)
Theorem pool_consistent (capacity closeTime : Z) (view : SeqView) (x : PoolSys) :
  reachable capacity closeTime view x -> Pool_ok (sy_pool x).
Proof. intros Hx. apply (so_pool _ (reachable_ok _ _ _ _ Hx)). Qed.

(** A batch has as many transactions as asked for, or all that no set in progress
    has; each is one of these, and with a transaction every one of these that comes
    before it in the order of accounts and sequences. *)
Theorem batch_in_order (p : TxPool) (limit : Z) :
  Pool_ok p -> 0 <= limit ->
  let '(n, batch) := topTransactions limit ∅ p in
  n = Z.min limit (Z.of_nat (length (base.filter (free p) (tp_mTxsSet p)))) /\ Z.of_nat (size batch) = n
  /\ (forall h, h ∈ batch -> exists t, t ∈ tp_mTxsSet p /\ pt_id t = h /\ free p t)
  /\ forall t t', t ∈ tp_mTxsSet p -> t' ∈ tp_mTxsSet p -> free p t -> tx_lt t t' -> pt_id t' ∈ batch -> pt_id t ∈ batch.
Proof.
  intros Hp Hl. destruct (topTransactions limit ∅ p) as [n batch] eqn:E. assert (Eb : (topTransactions limit ∅ p).2 = batch) by (by rewrite E).
  assert (En : n = Z.of_nat (length (take_free limit (tp_mAvoidByHash p) (tp_mTxsSet p)))) by (unfold topTransactions in E; by injection E).
  split_and!.
  - rewrite En, take_free_spec, length_take. lia.
  - rewrite <- Eb, En. cbn [topTransactions snd]. rewrite union_empty_l_L. f_equal. rewrite size_list_to_set; [apply length_fmap|].
    apply (ids_nodup p); [done| |intros t Ht; by apply taken_in in Ht as []]. rewrite take_free_spec.
    assert (Hd : NoDup (base.filter (free p) (tp_mTxsSet p))) by apply NoDup_filter, sorted_nodup, Hp.
    rewrite <- (take_drop (Z.to_nat limit)) in Hd. by apply NoDup_app in Hd as [].
  - intros h. rewrite <- Eb. intros (t & Ht & <-)%batch_spec. exists t. apply taken_in in Ht. tauto.
  - intros t t'. rewrite <- Eb. by apply batch_closed.
Qed.


(** When a ledger is validated, the pool loses exactly the transactions of its tree,
    the transactions of the set in progress with its number are no longer avoided, and a
    transaction of the ledger that comes later is not taken into the pool. *)
Theorem ledger_taken_out `{Hashers} (db : NodeStore) (mp : SHAMap) (M : Items) (seq prevHash clock : Z) (p : TxPool) :
  Pool_ok p -> Holds db mp M ->
  let p' := removeTxs (tree_keys (size M) db mp) seq prevHash clock p in
  (forall t, t ∈ tp_mTxsSet p' <-> t ∈ tp_mTxsSet p /\ M !! pt_id t = None)
  /\ (forall h, h ∈ default ∅ (tp_mAvoidBySeq p !! seq) -> tp_mAvoidByHash p' !! h = None)
  /\ forall t viewSeq, is_Some (M !! pt_id t) -> txExists (pt_id t) p = false ->
       (insertTx t viewSeq p').2 = p' /\ (getTxCountInPool p' < tp_mMaxTxsInPool p' -> (insertTx t viewSeq p').1 = tesSUCCESS).
Proof.
  intros Hp HM p'. subst p'. destruct (tree_keys_spec db mp M HM) as (keys & -> & Hkeys).
  destruct (removeTxs_spec (keys, false) seq prevHash clock p Hp) as (Hp' & _ & Hin & Ha & _ & _ & Hc). cbn [fst snd] in *. split_and!.
  - intros t. by rewrite Hin, Hkeys, eq_None_not_Some.
  - intros h Hh. rewrite Ha. simpl. apply map_lookup_filter_None. right. intros s _ Hn. by apply Hn.
  - intros t viewSeq Ht%Hkeys Hex. specialize (Hc _ Ht Hex). unfold insertTx. rewrite Hc.
    destruct (Z.leb_spec (tp_mMaxTxsInPool (removeTxs (keys, false) seq prevHash clock p)) (getTxCountInPool (removeTxs (keys, false) seq prevHash clock p))); (split; [done|]); [lia | done].
Qed.

(** C19: A pool that waits from ledger [start] and hears of the validated ledger [top]
    asks for the ledgers between them one after the other: when they are at hand, as many
    ticks of the timer as there are ledgers make it available again, and no transaction
    of these ledgers is left in it. *)
Theorem pool_catches_up (hash_of : Z -> Z) (get : Z -> option PoolLedger) (start top : Z) (p : TxPool)
    (items : list Z * bool) (clock : Z) (ticks : list (Z * Z)) :
  0 < start /\ start < top /\ top < 2 ^ 32 - 1 -> (forall i, hash_of i <> 0) ->
  (forall i, start <= i < top -> exists l, get (hash_of i) = Some l /\ pl_seq l = i /\ pl_parentHash l = hash_of (i - 1)) ->
  Pool_ok p -> ss_pool_start_seq (tp_mSyncStatus p) = start -> ss_max_advance_seq (tp_mSyncStatus p) < top ->
  ss_mapSynced (tp_mSyncStatus p) = ∅ -> top - start <= Z.of_nat (length ticks) ->
  let p' := ticks_of get ticks (removeTxs items top (hash_of (top - 1)) clock p) in
  isAvailable p' = true
  /\ forall t, t ∈ tp_mTxsSet p' -> pt_id t ∉ items.1 /\ forall i l, start <= i < top -> get (hash_of i) = Some l -> pt_id t ∉ (pl_txs l).1.
Proof.
  intros Hr Hnz Hget Hp Es Em Esyn Hlen p'. subst p'.
  destruct (removeTxs_spec items top (hash_of (top - 1)) clock p Hp) as (Hp1 & _ & Hin & _ & Hs & _).
  set (p1 := removeTxs _ _ _ _ _) in *. destruct (ticks_keep get ticks p1 Hp1) as (_ & Hin2 & Ha2).
  assert (Hitems : forall t, t ∈ tp_mTxsSet (ticks_of get ticks p1) -> pt_id t ∉ items.1) by (intros t Ht%Hin2; by apply Hin in Ht as []).
  destruct (pool_isEmpty p1) eqn:Ee.
  { split; [apply Ha2; unfold isAvailable; by rewrite Hs|]. intros t Ht. apply Hin2 in Ht. unfold pool_isEmpty in Ee. apply Nat.eqb_eq, length_zero_iff_nil in Ee.
    rewrite Ee in Ht. by apply not_elem_of_nil in Ht. }
  pose proof (sync_next hash_of start top Hr Hnz top (tp_mSyncStatus p) ltac:(lia) Es ltac:(auto)) as Hn. cbv zeta in Hn.
  rewrite decide_False in Hn by lia. rewrite <- Hs in Hn.
  destruct (chase hash_of get start top Hr Hnz Hget (top - 1) ticks p1 Hp1 ltac:(lia)) as [Hav Hrest]; [|lia|].
  { apply Hn; [lia|]. intros j _. by rewrite Esyn. }
  split; [done|]. intros t Ht. split; [by apply Hitems|]. intros i l Hi El. apply (Hrest i l t); [lia | done | done].
Qed.

(** ** Witnesses

    Two accounts, three transactions, one of them in a set in progress. *)

Definition demo_view : SeqView := {[7 := 5; 8 := 2]}.

Definition ptx1 : PoolTx := mkPoolTx 101 7 5 None.
Definition ptx2 : PoolTx := mkPoolTx 102 7 6 None.
Definition ptx3 : PoolTx := mkPoolTx 103 8 2 (Some 20).

Definition submit (t : PoolTx) (viewSeq : Z) (x : PoolSys) : PoolSys :=
  let '(_, _, p, sm) := doTransactionCheck tesSUCCESS t (sy_view x) viewSeq (sy_pool x) (sy_sm x) in mkSys p sm (sy_view x) (sy_gone x).

Lemma submit_step t viewSeq x : sys_step x (submit t viewSeq x).
Proof.
  unfold submit. destruct x as [p sm view l]. simpl. destruct (doTransactionCheck _ _ _ _ _ _) as [[[ter b] p'] sm'] eqn:E. by eapply StepSubmit.
Qed.

Definition demo_sys : PoolSys := submit ptx3 3 (submit ptx2 3 (submit ptx1 3 (mkSys (TxPool_new 10 0) ∅ demo_view gone_none))).

Lemma demo_reachable : reachable 10 0 demo_view demo_sys.
Proof.
  assert (Hv : valid_view demo_view) by (apply (bool_decide_eq_true_1 (map_Forall _ demo_view)); by vm_compute).
  do 3 (eapply Next; [|apply submit_step]). by apply Start.
Qed.

Definition busy_pool : TxPool := updateAvoid [101] 4 3 (sy_pool demo_sys).

Lemma busy_ok : Pool_ok busy_pool.
Proof. apply avoid_items_spec, (so_pool _ (reachable_ok _ _ _ _ demo_reachable)). Qed.

Lemma pool_consistent_witness : tp_mTxsSet (sy_pool demo_sys) = [ptx1; ptx2; ptx3] /\ Pool_ok (sy_pool demo_sys).
Proof. split; [by vm_compute|]. exact (pool_consistent 10 0 demo_view demo_sys demo_reachable). Defined.

Lemma batch_in_order_witness :
  let '(n, batch) := topTransactions 1 ∅ busy_pool in
  n = Z.min 1 (Z.of_nat (length (base.filter (free busy_pool) (tp_mTxsSet busy_pool)))) /\ Z.of_nat (size batch) = n
  /\ (forall h, h ∈ batch -> exists t, t ∈ tp_mTxsSet busy_pool /\ pt_id t = h /\ free busy_pool t)
  /\ forall t t', t ∈ tp_mTxsSet busy_pool -> t' ∈ tp_mTxsSet busy_pool -> free busy_pool t -> tx_lt t t' -> pt_id t' ∈ batch -> pt_id t ∈ batch.
Proof. apply (batch_in_order busy_pool 1 busy_ok). lia. Defined.






(** A pool with a transaction of the tree, and one that comes later. *)
Definition pool_tx1 : PoolTx := mkPoolTx (RpcaTypes.tx_id tx1) 7 5 None.

Definition tree_pool : TxPool := sy_pool (submit pool_tx1 3 (submit ptx3 3 (mkSys (TxPool_new 10 0) ∅ demo_view gone_none))).

Lemma tree_pool_ok : Pool_ok tree_pool.
Proof.
  assert (Hv : valid_view demo_view) by (apply (bool_decide_eq_true_1 (map_Forall _ demo_view)); by vm_compute).
  apply (so_pool _ (reachable_ok 10 0 demo_view _ (Next _ _ _ _ _ (Next _ _ _ _ _ (Start _ _ _ Hv) (submit_step ptx3 3 _)) (submit_step pool_tx1 3 _)))).
Qed.

Lemma ledger_taken_out_witness :
  let p' := removeTxs (@tree_keys demo_hashers (size (tx_items set_12)) ∅ (demo_map (tx_ops [tx1; tx2]))) 4 99 0 tree_pool in
  (forall t, t ∈ tp_mTxsSet p' <-> t ∈ tp_mTxsSet tree_pool /\ tx_items set_12 !! pt_id t = None)
  /\ (forall h, h ∈ default ∅ (tp_mAvoidBySeq tree_pool !! 4) -> tp_mAvoidByHash p' !! h = None)
  /\ forall t viewSeq, is_Some (tx_items set_12 !! pt_id t) -> txExists (pt_id t) tree_pool = false ->
       (insertTx t viewSeq p').2 = p' /\ (getTxCountInPool p' < tp_mMaxTxsInPool p' -> (insertTx t viewSeq p').1 = tesSUCCESS).
Proof. exact (@ledger_taken_out demo_hashers ∅ (demo_map (tx_ops [tx1; tx2])) (tx_items set_12) 4 99 0 tree_pool tree_pool_ok holds_12). Defined.

(** Ledgers 3 to 5 of a chain that is at hand. *)
Definition demo_hash (i : Z) : Z := Z.abs i + 100.
Definition demo_get (h : Z) : option PoolLedger := Some (mkPoolLedger (h - 100) (h - 1) ([h; 101], false)).

Lemma pool_catches_up_witness :
  let p' := ticks_of demo_get [(1, 0); (2, 0); (3, 0)] (removeTxs ([102], false) 6 (demo_hash 5) 0 (sy_pool demo_sys)) in
  isAvailable p' = true
  /\ forall t, t ∈ tp_mTxsSet p' -> pt_id t ∉ [102] /\ forall i l, 3 <= i < 6 -> demo_get (demo_hash i) = Some l -> pt_id t ∉ (pl_txs l).1.
Proof.
  apply (pool_catches_up demo_hash demo_get 3 6 (sy_pool demo_sys) ([102], false) 0 [(1, 0); (2, 0); (3, 0)]).
  - lia.
  - intros i. unfold demo_hash. lia.
  - intros i Hi. unfold demo_get, demo_hash. rewrite !Z.abs_eq by lia. eexists. split; [reflexivity|]. cbn [pl_seq pl_parentHash].
    lia.
  - apply (so_pool _ (reachable_ok _ _ _ _ demo_reachable)).
  - by vm_compute.
  - by vm_compute.
  - by vm_compute.
  - simpl. lia.
Defined.

(** ** Flaws *)

(** A transaction of two sets in progress is avoided for the first only: when that ledger
    is done, the transaction is free although the second set has it. *)
Theorem second_avoid_lost :
  let p := clearAvoid 5 (updateAvoid [101] 6 4 (updateAvoid [101] 5 4 (sy_pool demo_sys))) in
  101 ∈ default ∅ (tp_mAvoidBySeq p !! 6) /\ 101 ∈ (topTransactions 5 ∅ p).2.
Proof.
  split; [apply (bool_decide_eq_true_1 (101 ∈ default ∅ (tp_mAvoidBySeq (clearAvoid 5 (updateAvoid [101] 6 4 (updateAvoid [101] 5 4 (sy_pool demo_sys)))) !! 6)))
    | apply (bool_decide_eq_true_1 (101 ∈ (topTransactions 5 ∅ (clearAvoid 5 (updateAvoid [101] 6 4 (updateAvoid [101] 5 4 (sy_pool demo_sys))))).2))]; by vm_compute.
Qed.

(** Transactions that are avoided but not in the pool are subtracted from its size. *)
Theorem queued_count_wraps : getQueuedTxCountInPool (updateAvoid [101] 4 3 (TxPool_new 10 0)) = 2 ^ 64 - 1.
Proof. by vm_compute. Qed.

(** A transaction with a past sequence that fails an earlier check makes the node sign the
    next transaction of the account with that sequence. *)
Theorem failed_past_sequence_signed :
  let sm := (getAndIncSignSeq 7 demo_view ∅).2 in
  let '(ter, _, _, sm) := doTransactionCheck (terOther 1) (mkPoolTx 104 7 3 None) demo_view 3 (TxPool_new 10 0) sm in
  ter = terOther 1 /\ (getAndIncSignSeq 7 demo_view sm).1 = 3.
Proof. by vm_compute. Qed.

(** Sequences that were handed out for signing are handed out again after the ledger has
    moved past the sequence last checked. *)
Theorem signed_sequence_repeated :
  let '(a, sm) := getAndIncSignSeq 7 demo_view ∅ in
  let '(b, sm) := getAndIncSignSeq 7 demo_view sm in
  let sm := (getAccountCheckSeq 7 (<[7 := 6]> demo_view) sm).2 in
  a = 5 /\ b = 6 /\ (getAndIncSignSeq 7 (<[7 := 6]> demo_view) sm).1 = 6.
Proof. by vm_compute. Qed.
