(* ===== verification/Serializer.v ===== *)
(** * The serializer and its reader

    [ripple/protocol/impl/Serializer.cpp]: [Serializer] appends big-endian integers, field
    identifiers and byte strings behind their length to a buffer; [SerialIter] reads them
    back.  A reader maps the data left to the value read and what remains, [None] being
    the exception it throws.  The offset each [add] returns, the length of the buffer
    before the call, is left out. *)

From S2P Require Import Prelude.

#[local] Open Scope Z_scope.

(** ** Writing *)

(** A conversion to [unsigned char]. *)
Definition u8 (z : Z) : Z := z mod 256.

Definition add8 (byte : Z) (mData : Bytes) : Bytes := mData ++ [byte].

Definition add16 (i : Z) (mData : Bytes) : Bytes := mData ++ [u8 (Z.shiftr i 8); u8 (Z.land i 255)].

Definition add32 (i : Z) (mData : Bytes) : Bytes :=
  mData ++ [u8 (Z.shiftr i 24); u8 (Z.land (Z.shiftr i 16) 255); u8 (Z.land (Z.shiftr i 8) 255); u8 (Z.land i 255)].

Definition add64 (i : Z) (mData : Bytes) : Bytes :=
  mData ++ [u8 (Z.shiftr i 56); u8 (Z.land (Z.shiftr i 48) 255); u8 (Z.land (Z.shiftr i 40) 255);
            u8 (Z.land (Z.shiftr i 32) 255); u8 (Z.land (Z.shiftr i 24) 255); u8 (Z.land (Z.shiftr i 16) 255);
            u8 (Z.land (Z.shiftr i 8) 255); u8 (Z.land i 255)].

Definition addRaw (data mData : Bytes) : Bytes := mData ++ data.

Definition add256 (i : Z) (mData : Bytes) : Bytes := mData ++ be_bytes 32 i.

Definition addFieldID (type name : Z) (mData : Bytes) : Bytes :=
  if type <? 16 then
    if name <? 16 then mData ++ [u8 (Z.lor (Z.shiftl type 4) name)]
    else mData ++ [u8 (Z.shiftl type 4); u8 name]
  else if name <? 16 then mData ++ [u8 name; u8 type]
  else mData ++ [u8 0; u8 type; u8 name].

Definition addEncoded (length : Z) (mData : Bytes) : option Bytes :=
  if length <=? 192 then Some (addRaw [u8 length] mData)
  else if length <=? 12480 then
    let length := length - 193 in
    Some (addRaw [u8 (193 + u8 (Z.shiftr length 8)); u8 (Z.land length 255)] mData)
  else if length <=? 918744 then
    let length := length - 12481 in
    Some (addRaw [u8 (241 + u8 (Z.shiftr length 16)); u8 (Z.land (Z.shiftr length 8) 255); u8 (Z.land length 255)] mData)
  else None.

(** The length is passed as an [int]. *)
Definition addVL (slice mData : Bytes) : option Bytes :=
  addRaw slice <$> addEncoded (i32 (Z.of_nat (length slice))) mData.

Definition chop (bytes : Z) (mData : Bytes) : bool * Bytes :=
  if Z.of_nat (length mData) <? bytes then (false, mData)
  else (true, take (Z.to_nat (Z.of_nat (length mData) - bytes)) mData).

Definition encodeLengthLength (length : Z) : option Z :=
  if length <? 0 then None
  else if length <=? 192 then Some 1
  else if length <=? 12480 then Some 2
  else if length <=? 918744 then Some 3
  else None.

(** ** Reading *)

Definition decodeLengthLength (b1 : Z) : option Z :=
  if b1 <? 0 then None
  else if b1 <=? 192 then Some 1
  else if b1 <=? 240 then Some 2
  else if b1 <=? 254 then Some 3
  else None.

Definition decodeVLLength1 (b1 : Z) : option Z :=
  if b1 <? 0 then None else if 254 <? b1 then None else Some b1.

Definition decodeVLLength2 (b1 b2 : Z) : option Z :=
  if b1 <? 193 then None else if 240 <? b1 then None else Some (193 + (b1 - 193) * 256 + b2).

Definition decodeVLLength3 (b1 b2 b3 : Z) : option Z :=
  if b1 <? 241 then None else if 254 <? b1 then None
  else Some (12481 + (b1 - 241) * 65536 + b2 * 256 + b3).

Definition SerialIter (A : Type) : Type := Bytes -> option (A * Bytes).

Definition si_ret {A} (a : A) : SerialIter A := fun p => Some (a, p).

Definition si_bind {A B} (m : SerialIter A) (k : A -> SerialIter B) : SerialIter B :=
  fun p => match m p with Some (a, p') => k a p' | None => None end.

Declare Scope serial_scope.
Delimit Scope serial_scope with serial.
Notation "x <- m ;; k" := (si_bind m (fun x => k)) (at level 100, m at next level, right associativity) : serial_scope.

(** A test that throws. *)
Definition si_lift {A} (o : option A) : SerialIter A := fun p => (fun a => (a, p)) <$> o.

Definition getRaw (size : Z) : SerialIter Bytes := fun p =>
  if Z.of_nat (length p) <? size then None
  else Some (take (Z.to_nat size) p, drop (Z.to_nat size) p).

Definition skip (num : Z) : SerialIter unit := fun p =>
  if Z.of_nat (length p) <? num then None else Some (tt, drop (Z.to_nat num) p).

Definition get8 : SerialIter Z := fun p => match p with t :: p => Some (t, p) | [] => None end.

Definition get16 : SerialIter Z := fun p =>
  match p with t0 :: t1 :: p => Some (Z.shiftl t0 8 + t1, p) | _ => None end.

Definition get32 : SerialIter Z := fun p =>
  match p with
  | t0 :: t1 :: t2 :: t3 :: p => Some (Z.shiftl t0 24 + Z.shiftl t1 16 + Z.shiftl t2 8 + t3, p)
  | _ => None
  end.

Definition get64 : SerialIter Z := fun p =>
  match p with
  | t0 :: t1 :: t2 :: t3 :: t4 :: t5 :: t6 :: t7 :: p =>
      Some (Z.shiftl t0 56 + Z.shiftl t1 48 + Z.shiftl t2 40 + Z.shiftl t3 32 +
            Z.shiftl t4 24 + Z.shiftl t5 16 + Z.shiftl t6 8 + t7, p)
  | _ => None
  end.

(** [getBitString<8 * n>]: the value of [n] bytes. *)
Definition getBitString (n : nat) : SerialIter Z := fun p =>
  if (length p <? n)%nat then None else Some (be_value (take n p), drop n p).

Definition get256 : SerialIter Z := getBitString 32.

Definition getFieldID : SerialIter (Z * Z) :=
  (b <- get8 ;;
   let name := Z.land b 15 in
   let type := Z.shiftr b 4 in
   type <- (if type =? 0 then type <- get8 ;; if type <? 16 then si_lift None else si_ret type else si_ret type) ;;
   name <- (if name =? 0 then name <- get8 ;; if name <? 16 then si_lift None else si_ret name else si_ret name) ;;
   si_ret (type, name))%serial.

Definition getVLDataLength : SerialIter Z :=
  (b1 <- get8 ;;
   lenLen <- si_lift (decodeLengthLength b1) ;;
   if lenLen =? 1 then si_lift (decodeVLLength1 b1)
   else if lenLen =? 2 then b2 <- get8 ;; si_lift (decodeVLLength2 b1 b2)
   else b2 <- get8 ;; b3 <- get8 ;; si_lift (decodeVLLength3 b1 b2 b3))%serial.

Definition getVL : SerialIter Bytes := (n <- getVLDataLength ;; getRaw n)%serial.

(** Arithmetic with quotients and remainders. *)
Ltac dlia := Z.to_euclidean_division_equations; lia.

(** ** Writers are big-endian images *)

Lemma u8_land z : u8 (Z.land z 255) = z mod 256.
Proof. unfold u8. change 255 with (Z.ones 8). rewrite Z.land_ones, Z.mod_mod by lia. done. Qed.

Lemma div256 z : z / 256 = Z.shiftr z 8.
Proof. by rewrite Z.shiftr_div_pow2. Qed.

Lemma shiftr_div256 z n k : 0 <= n -> k = n + 8 -> Z.shiftr z n / 256 = Z.shiftr z k.
Proof. intros H ->. change 256 with (2 ^ 8). rewrite <- Z.shiftr_div_pow2, Z.shiftr_shiftr by lia. done. Qed.

Lemma add16_be i mData : add16 i mData = mData ++ be_bytes 2 i.
Proof.
  unfold add16. f_equal. cbn [be_bytes app]. rewrite u8_land.
  by rewrite (div256 i).
Qed.

Lemma add32_be i mData : add32 i mData = mData ++ be_bytes 4 i.
Proof.
  unfold add32. f_equal. cbn [be_bytes app]. rewrite !u8_land.
  by rewrite (div256 i), (shiftr_div256 i 8 16), (shiftr_div256 i 16 24) by lia.
Qed.

Lemma add64_be i mData : add64 i mData = mData ++ be_bytes 8 i.
Proof.
  unfold add64. f_equal. cbn [be_bytes app]. rewrite !u8_land.
  by rewrite (div256 i), (shiftr_div256 i 8 16), (shiftr_div256 i 16 24), (shiftr_div256 i 24 32), (shiftr_div256 i 32 40),
    (shiftr_div256 i 40 48), (shiftr_div256 i 48 56) by lia.
Qed.

Lemma get32_be z rest : 0 <= z < 2 ^ 32 -> get32 (be_bytes 4 z ++ rest) = Some (z, rest).
Proof.
  intros Hz. pose proof (be_value_bytes 4 z) as E. rewrite Z.mod_small in E by lia. revert E.
  cbn [be_bytes app]. unfold get32, be_value. cbn [fold_left]. rewrite !Z.shiftl_mul_pow2 by lia.
  intros E. do 2 f_equal. lia.
Qed.

Lemma get64_be z rest : 0 <= z < 2 ^ 64 -> get64 (be_bytes 8 z ++ rest) = Some (z, rest).
Proof.
  intros Hz. pose proof (be_value_bytes 8 z) as E. rewrite Z.mod_small in E by lia. revert E.
  cbn [be_bytes app]. unfold get64, be_value. cbn [fold_left]. rewrite !Z.shiftl_mul_pow2 by lia.
  intros E. do 2 f_equal. lia.
Qed.

Lemma getBitString_be n z rest :
  0 <= z < 256 ^ Z.of_nat n -> getBitString n (be_bytes n z ++ rest) = Some (z, rest).
Proof.
  intros Hz. unfold getBitString. pose proof (be_bytes_length n z) as Hl.
  replace (length (be_bytes n z ++ rest) <? n)%nat with false
    by (symmetry; apply Nat.ltb_ge; rewrite length_app; lia).
  rewrite take_app_length', drop_app_length' by done. by rewrite be_value_bytes, Z.mod_small.
Qed.

(** ** Lengths *)

(** The bytes of a length. *)
Lemma addEncoded_spec n mData :
  0 <= n <= 918744 ->
  exists e, addEncoded n mData = Some (mData ++ e) /\ encodeLengthLength n = Some (Z.of_nat (length e)) /\
    forall rest, getVLDataLength (e ++ rest) = Some (n, rest).
Proof.
  intros Hn. unfold addEncoded, addRaw, encodeLengthLength.
  destruct (n <? 0) eqn:?; [btests; lia|].
  destruct (n <=? 192) eqn:E1; [|destruct (n <=? 12480) eqn:E2; [|destruct (n <=? 918744) eqn:E3; [|btests; lia]]]; btests.
  - exists [u8 n]. unfold u8. rewrite Z.mod_small by lia. repeat split. intros rest.
    unfold getVLDataLength, si_bind, get8, decodeLengthLength, decodeVLLength1. cbn [app].
    bsolve. 
  - exists [u8 (193 + u8 (Z.shiftr (n - 193) 8)); u8 (Z.land (n - 193) 255)]. repeat split. intros rest.
    rewrite u8_land, Z.shiftr_div_pow2 by lia. unfold u8. change (2 ^ 8) with 256.
    rewrite (Z.mod_small ((n - 193) / 256)), (Z.mod_small (193 + _)) by dlia.
    unfold getVLDataLength, si_bind, get8, decodeLengthLength, decodeVLLength2. cbn [app].
    repeat split_if; btests; try dlia. simpl. do 2 f_equal. dlia.
  - exists [u8 (241 + u8 (Z.shiftr (n - 12481) 16)); u8 (Z.land (Z.shiftr (n - 12481) 8) 255); u8 (Z.land (n - 12481) 255)].
    repeat split. intros rest. rewrite !u8_land, !Z.shiftr_div_pow2 by lia. unfold u8.
    change (2 ^ 8) with 256. change (2 ^ 16) with 65536.
    rewrite (Z.mod_small ((n - 12481) / 65536)), (Z.mod_small (241 + _)) by dlia.
    assert ((n - 12481) / 65536 = (n - 12481) / 256 / 256) as E by (rewrite Z.div_div by lia; done).
    unfold getVLDataLength, si_bind, get8, decodeLengthLength, decodeVLLength3. cbn [app]. rewrite E.
    repeat split_if; btests; try dlia. simpl. do 2 f_equal. dlia.
Qed.

(** A byte string behind its length. *)
Lemma addVL_getVL data mData :
  Z.of_nat (length data) <= 918744 ->
  exists e, addVL data mData = Some (mData ++ e) /\ forall rest, getVL (e ++ rest) = Some (data, rest).
Proof.
  intros Hn. unfold addVL, addRaw. rewrite i32_small by lia.
  destruct (addEncoded_spec (Z.of_nat (length data)) mData) as (e & -> & _ & He); [lia|].
  exists (e ++ data). split; [simpl; by rewrite (assoc_L _)|]. intros rest.
  unfold getVL, si_bind. rewrite <- (assoc_L _), He. unfold getRaw. rewrite length_app.
  destruct (_ <? _) eqn:E; btests; [lia|]. rewrite Nat2Z.id. by rewrite take_app_length, drop_app_length.
Qed.

(** A length the reader takes and the writer can write is written one way only.  Lengths
    from 918745 to 929984 can be read but not written. *)
Lemma vl_length_canonical p n rest :
  Forall is_byte p -> getVLDataLength p = Some (n, rest) ->
  0 <= n <= 929984 /\ (n <= 918744 -> exists e, addEncoded n [] = Some e /\ p = e ++ rest).
Proof.
  intros Hp. unfold getVLDataLength, si_bind, get8, decodeLengthLength.
  destruct p as [|b p]; [done|]. apply Forall_cons in Hp as [Hb Hp]. unfold is_byte in Hb.
  unfold addEncoded, addRaw. destruct (b <? 0) eqn:E0; [btests; lia|].
  destruct (b <=? 192) eqn:E1; [|destruct (b <=? 240) eqn:E2; [|destruct (b <=? 254) eqn:E3; [|done]]]; btests; simpl.
  - unfold decodeVLLength1. repeat split_if; btests; try lia; try done; simpl; intros [= <- <-]; split; try lia; intros _.
    exists [u8 b]. unfold u8. by rewrite Z.mod_small.
  - destruct p as [|b2 p]; [done|]. rewrite Forall_cons in Hp. unfold is_byte in Hp. unfold decodeVLLength2.
    repeat (split_if; btests; try lia); simpl; intros [= <- <-]; split; try lia; intros _; try lia.
    eexists. split; [done|]. rewrite u8_land, Z.shiftr_div_pow2 by lia. unfold u8. simpl. f_equal; [|f_equal]; dlia.
  - destruct p as [|b2 [|b3 p]]; [done..|]. rewrite !Forall_cons in Hp. unfold is_byte in Hp. unfold decodeVLLength3.
    repeat (split_if; btests; try lia); simpl; intros [= <- <-]; split; try lia; intros _; try lia.
    eexists. split; [done|]. rewrite !u8_land, !Z.shiftr_div_pow2 by lia. unfold u8. simpl.
    replace (12481 + (b - 241) * 65536 + b2 * 256 + b3 - 12481) with (((b - 241) * 256 + b2) * 256 + b3) by lia.
    change (2 ^ 16) with (256 * 256). change (2 ^ 8) with 256.
    rewrite <- Z.div_div, (Z.div_add_l _ 256 b3), (Z.div_small b3 256), Z.add_0_r, (Z.div_add_l (b - 241) 256 b2), (Z.div_small b2 256) by lia.
    f_equal; [|f_equal; [|f_equal]]; dlia.
Qed.

(** C24: a byte string of at most 918744 bytes is written behind its length and read back,
    whatever follows, and a longer one (as far as [int] goes) is refused; a length the
    reader takes is at most 929984, and if the writer can write it, it is written in one
    way only. *)
Theorem vl_roundtrip data mData p n rest :
  Z.of_nat (length data) < 2 ^ 31 -> Forall is_byte p ->
  (Z.of_nat (length data) <= 918744 ->
     exists e, addVL data mData = Some (mData ++ e) /\ forall rest, getVL (e ++ rest) = Some (data, rest)) /\
  (918744 < Z.of_nat (length data) -> addVL data mData = None) /\
  (getVLDataLength p = Some (n, rest) ->
     0 <= n <= 929984 /\ (n <= 918744 -> exists e, addEncoded n [] = Some e /\ p = e ++ rest)).
Proof.
  intros Hl Hp. split; [apply addVL_getVL|]. split; [|by apply vl_length_canonical].
  intros Hn. unfold addVL, addEncoded. rewrite i32_small by lia. repeat split_if; btests; try lia. done.
Qed.

(** ** Field identifiers *)

Lemma lor_nibbles t n : 0 <= n < 16 -> Z.lor (Z.shiftl t 4) n = t * 16 + n.
Proof.
  intros Hn. assert (Z.land (Z.shiftl t 4) n = 0) as H0.
  { apply Z.bits_inj'. intros i Hi. rewrite Z.land_spec, Z.bits_0, Z.shiftl_spec by lia.
    destruct (decide (i < 4)); [by rewrite Z.testbit_neg_r by lia|].
    replace n with (n mod 2 ^ 4) by (apply Z.mod_small; lia). rewrite Z.mod_pow2_bits_high by lia. apply andb_false_r. }
  rewrite <- Z.lxor_lor, <- Z.add_nocarry_lxor by done. by rewrite Z.shiftl_mul_pow2.
Qed.

Lemma low_nibble b : Z.land b 15 = b mod 16.
Proof. change 15 with (Z.ones 4). by rewrite Z.land_ones. Qed.

Lemma high_nibble b : Z.shiftr b 4 = b / 16.
Proof. by rewrite Z.shiftr_div_pow2. Qed.

Lemma addFieldID_bytes t n :
  0 < t < 256 -> 0 < n < 256 ->
  addFieldID t n [] = if t <? 16 then if n <? 16 then [t * 16 + n] else [t * 16; n]
                      else if n <? 16 then [n; t] else [0; t; n].
Proof.
  intros Ht Hn. unfold addFieldID, u8. cbn [app]. repeat split_if; btests;
    rewrite ?lor_nibbles, ?Z.shiftl_mul_pow2, ?Z.mod_small by lia; done.
Qed.

Ltac fid Hp Hok :=
  rewrite ?Forall_cons in Hp; unfold is_byte in Hp; btests; apply Hok; [dlia|]; repeat split_if; btests; try dlia;
  cbn [app]; f_equal; dlia.

(** C23: field identifiers between 1 and 255 are read back as written, and every identifier
    the reader accepts is the writing of the one it returns: no identifier has two forms. *)
Theorem field_id_bijective p :
  Forall is_byte p ->
  (forall type name, 0 < type < 256 -> 0 < name < 256 ->
     getFieldID (addFieldID type name [] ++ p) = Some ((type, name), p)) /\
  (forall type name rest, getFieldID p = Some ((type, name), rest) ->
     0 < type < 256 /\ 0 < name < 256 /\ p = addFieldID type name [] ++ rest).
Proof.
  intros Hp. split.
  - intros t n Ht Hn. rewrite addFieldID_bytes by done. unfold getFieldID, si_bind, get8, si_ret.
    destruct (t <? 16) eqn:E1, (n <? 16) eqn:E2; btests; cbn [app]; rewrite low_nibble, high_nibble;
      repeat (split_if; btests; try dlia); do 3 f_equal; dlia.
  - intros t n rest. unfold getFieldID, si_bind, si_ret, get8.
    assert (forall x y : Z, 0 < x < 256 /\ 0 < y < 256 -> p = (if x <? 16 then if y <? 16 then [x * 16 + y] else [x * 16; y]
              else if y <? 16 then [y; x] else [0; x; y]) ++ rest ->
      0 < x < 256 /\ 0 < y < 256 /\ p = addFieldID x y [] ++ rest) as Hok.
    { intros x y [Hx Hy] ->. by rewrite addFieldID_bytes. }
    destruct p as [|b p]; [done|]. rewrite low_nibble, high_nibble. apply Forall_cons in Hp as [Hb Hp].
    unfold is_byte in Hb.
    destruct (b / 16 =? 0) eqn:E1, (b mod 16 =? 0) eqn:E2; btests.
    + destruct p as [|b2 p]; [done|]. destruct (b2 <? 16) eqn:E3; [done|].
      destruct p as [|b3 p]; [done|]. destruct (b3 <? 16) eqn:E4; [done|]. intros [= <- <- <-].
      fid Hp Hok.
    + destruct p as [|b2 p]; [done|]. destruct (b2 <? 16) eqn:E3; [done|]. intros [= <- <- <-].
      fid Hp Hok.
    + destruct p as [|b2 p]; [done|]. destruct (b2 <? 16) eqn:E3; [done|]. intros [= <- <- <-].
      fid Hp Hok.
    + intros [= <- <- <-]. fid Hp Hok.
Qed.

Lemma vl_roundtrip_witness :
  exists e, addVL [7; 8] [1] = Some ([1] ++ e) /\ forall rest, getVL (e ++ rest) = Some ([7; 8], rest).
Proof.
  refine (proj1 (vl_roundtrip [7; 8] [1] [] 0 [] _ _) _); [simpl; lia | constructor | simpl; lia].
Defined.

Lemma field_id_bijective_witness : getFieldID (addFieldID 17 20 [] ++ [5]) = Some ((17, 20), [5]).
Proof.
  refine (proj1 (field_id_bijective [5] _) 17 20 _ _); [apply Forall_singleton; unfold is_byte; lia | lia | lia].
Defined.
