(* ===== verification/Hex.v ===== *)
(** * Hexadecimal text

    [ripple/basics/impl/strHex.cpp], [ripple/basics/StringUtilities.h] and the readers of
    [ripple/basics/base_uint.h].  A text is the list of its character codes.  Writing goes
    through [boost::algorithm::hex], a parameter that writes each byte as the two digits
    of [charHex]. *)

From S2P Require Import Prelude Serializer.

#[local] Open Scope Z_scope.

Definition charHex (digit : Z) : Z := if digit <? 10 then 48 + digit else 55 + digit.

Definition charUnHex (c : Z) : Z :=
  if (48 <=? c) && (c <? 58) then c - 48
  else if (65 <=? c) && (c <? 71) then c - 55
  else if (97 <=? c) && (c <? 103) then c - 87
  else -1.

(** [boost::algorithm::hex]. *)
Class HexText := {
  hex_text : Bytes -> Bytes;
  hex_text_spec : forall bs, Forall is_byte bs ->
    hex_text bs = bs ≫= fun b => [charHex (b / 16); charHex (b mod 16)]
}.

Definition tolower (c : Z) : Z := if (65 <=? c) && (c <? 91) then c + 32 else c.

Definition toLowerStr (inStr : Bytes) : Bytes := tolower <$> inStr.

(** [to_string] of a [base_uint] of [n] bytes. *)
Definition to_string `{HexText} (n : nat) (a : Z) : Bytes := hex_text (be_bytes n a).

Definition isspace (c : Z) : bool := (c =? 32) || (9 <=? c) && (c <=? 13).

Fixpoint skip_spaces (p : Bytes) : Bytes :=
  match p with c :: p' => if isspace c then skip_spaces p' else p | [] => [] end.

Definition skip_0x (p : Bytes) : Bytes :=
  match p with z :: x :: p' => if (z =? 48) && (tolower x =? 120) then p' else p | _ => p end.

(** The digits at the start of a text, and what follows them. *)
Fixpoint hex_digits (p : Bytes) : Bytes * Bytes :=
  match p with
  | c :: p' => if charUnHex c =? -1 then ([], p) else let '(ds, e) := hex_digits p' in (c :: ds, e)
  | [] => ([], [])
  end.

Fixpoint unhex_pairs (ds : Bytes) : Bytes :=
  match ds with
  | h :: l :: ds => Z.lor (Z.shiftl (charUnHex h) 4) (charUnHex l) :: unhex_pairs ds
  | [h] => [Z.lor (Z.shiftl (charUnHex h) 4) 0]
  | [] => []
  end.

Definition unhex (ds : Bytes) : Bytes :=
  match ds with
  | d :: ds' => if Nat.odd (length ds) then charUnHex d :: unhex_pairs ds' else unhex_pairs ds
  | [] => []
  end.

(** [SetHex] of [n] bytes: whether the whole text was read, and the value.  A string ends
    at its first zero character. *)
Definition SetHex (n : nat) (psz : Bytes) (bStrict : bool) : bool * Z :=
  let pBegin := if bStrict then psz else skip_spaces psz in
  let pBegin := if bStrict then pBegin else skip_0x pBegin in
  let '(ds, pEnd) := hex_digits pBegin in
  let ds := if (2 * n <? length ds)%nat then drop (length ds - 2 * n) ds else ds in
  (match pEnd with c :: _ => c =? 0 | [] => true end, be_value (unhex ds)).

Definition from_hex_text (n : nat) (text : Bytes) : Z := (SetHex n text false).2.

Fixpoint exact_pairs (n : nat) (psz : Bytes) : option (Bytes * Bytes) :=
  match n, psz with
  | O, _ => Some ([], psz)
  | S n, h :: l :: psz =>
      if charUnHex h =? -1 then None else if charUnHex l =? -1 then None
      else prod_map (Z.lor (Z.shiftl (charUnHex h) 4) (charUnHex l) ::.) id <$> exact_pairs n psz
  | S n, _ => None
  end.

(** [SetHexExact]: [None] when it returns [false]. *)
Definition SetHexExact (n : nat) (psz : Bytes) : option Z :=
  match exact_pairs n psz with
  | Some (out, rest) => if match rest with c :: _ => c =? 0 | [] => true end then Some (be_value out) else None
  | None => None
  end.

(** The prefix of an Ethereum number. *)
Definition hex_0x : Bytes := [48; 120].

(** ** Reading what was written *)

Lemma charUnHex_charHex d : 0 <= d < 16 -> charUnHex (charHex d) = d.
Proof. intros Hd. unfold charUnHex, charHex. bsolve. Qed.

Lemma charUnHex_lower d : 0 <= d < 16 -> charUnHex (tolower (charHex d)) = d.
Proof. intros Hd. unfold charUnHex, tolower, charHex. bsolve. Qed.

Definition digit (c : Z) : Prop := 0 <= charUnHex c < 16.

Lemma hex_digits_all ds : Forall digit ds -> hex_digits ds = (ds, []).
Proof.
  induction 1 as [|c ds Hc _ IH]; [done|]. simpl. rewrite IH. unfold digit in Hc.
  destruct (charUnHex c =? -1) eqn:E; btests; [lia | done].
Qed.

Lemma digit_plain c : digit c -> isspace c = false /\ tolower c <> 120.
Proof. unfold digit, charUnHex, isspace, tolower. intros H. split; bsolve. Qed.

Lemma unhex_even ds : Nat.even (length ds) = true -> unhex ds = unhex_pairs ds.
Proof. destruct ds as [|d ds]; [done|]. unfold unhex. intros H. by rewrite <- Nat.negb_even, H. Qed.

Lemma SetHex_digits n ds pre :
  Forall digit ds -> length ds = (2 * n)%nat -> pre = [] \/ pre = hex_0x ->
  SetHex n (pre ++ ds) false = (true, be_value (unhex_pairs ds)).
Proof.
  intros Hd Hl Hpre. unfold SetHex. assert (skip_0x (skip_spaces (pre ++ ds)) = ds) as ->.
  { destruct Hpre as [-> | ->]; [|done]. destruct Hd as [|c ds Hc Hd]; [done|]. simpl.
    destruct (digit_plain c Hc) as [-> _]. destruct Hd as [|c2 ds Hc2 Hd]; [done|].
    destruct (digit_plain c2 Hc2) as [_ Hx%Z.eqb_neq]. simpl. by rewrite Hx, andb_false_r. }
  rewrite hex_digits_all by done. rewrite Hl. rewrite (proj2 (Nat.ltb_ge _ _)) by lia.
  rewrite unhex_even; [done|]. rewrite Hl. apply Nat.even_spec. by exists n.
Qed.

Lemma written_digits (f : Z -> Z) bs :
  (forall d, 0 <= d < 16 -> charUnHex (f (charHex d)) = d) -> Forall is_byte bs ->
  let ds := f <$> (bs ≫= fun b => [charHex (b / 16); charHex (b mod 16)]) in
  Forall digit ds /\ length ds = (2 * length bs)%nat /\ unhex_pairs ds = bs.
Proof.
  intros Hf. induction 1 as [|b bs Hb _ (IH1 & IH2 & IH3)]; [repeat split; constructor|]. unfold is_byte in Hb.
  set (ds := f <$> _) in *. intros ds'. change ds' with (f (charHex (b / 16)) :: f (charHex (b mod 16)) :: ds). clear ds'.
  assert (0 <= b / 16 < 16 /\ 0 <= b mod 16 < 16) as [H1 H2] by dlia.
  split; [|split].
  - apply Forall_cons. split; [|apply Forall_cons; split; [|done]]; unfold digit; by rewrite Hf.
  - simpl. rewrite IH2. lia.
  - cbn [unhex_pairs]. rewrite IH3, !Hf by done. f_equal. rewrite lor_nibbles by done. dlia.
Qed.

Section Text.

Context `{HexText}.

(** Numbers written as hexadecimal text, in upper or lower case, with or without [0x], are
    read back. *)
Lemma from_hex_text_written n a pre f :
  0 <= a < 256 ^ Z.of_nat n -> pre = [] \/ pre = hex_0x ->
  f = id \/ f = toLowerStr -> from_hex_text n (pre ++ f (to_string n a)) = a.
Proof.
  intros Ha Hpre Hf. unfold from_hex_text, to_string. rewrite hex_text_spec by apply be_bytes_bytes.
  set (ds := f _). assert (Forall digit ds /\ length ds = (2 * n)%nat /\ unhex_pairs ds = be_bytes n a) as (H1 & H2 & H3).
  { replace (2 * n)%nat with (2 * length (be_bytes n a))%nat by (by rewrite be_bytes_length).
    subst ds. destruct Hf as [-> | ->].
    - unfold id. rewrite <- (list_fmap_id (_ ≫= _)). apply written_digits; [apply charUnHex_charHex | apply be_bytes_bytes].
    - apply written_digits; [apply charUnHex_lower | apply be_bytes_bytes]. }
  rewrite SetHex_digits by done. simpl. by rewrite H3, be_value_bytes, Z.mod_small.
Qed.

End Text.
