(* ===== verification/Bloom.v ===== *)
(** * Bloom filters of ledgers and their index

    [peersafe/app/bloom/]: [Bloom.cpp], the 2048-bit filter of a ledger's logs;
    [BloomIndexer.cpp], which turns the filters of 4096 ledgers, a section, into 2048 bit
    vectors, one for each bit of a filter, and stores them; [BloomManager.cpp], which finds
    a ledger in its section.

    The node store is the map from keys to data.  [None] stands for a run that does not
    return: a null pointer or an empty optional dereferenced, an index out of bounds, an
    endless loop, or an exception no caller catches. *)

From S2P Require Import Prelude Serializer ShaMapNode.

#[local] Open Scope Z_scope.

Definition BloomByteLength : Z := 256.
Definition BLOOM_LENGTH : Z := 2048.
Definition DEFAULT_SECTION_SIZE : Z := 4096.

(** The texts of [Tuning.h], as character codes. *)
Definition text (s : string) : Bytes := (fun c => Z.of_N (Ascii.N_of_ascii c)) <$> String.list_ascii_of_string s.

Definition BLOOM_PREFIX : Bytes := text "BLOOM-FILTER_".
Definition BLOOM_START_LEDGER_KEY : Bytes := text "start-ledger-key".
Definition BLOOM_SAVED_SECTION_COUNT : Bytes := text "saved_section_count".

(** The numbers a loop [for (seq = first; seq <= last; seq++)] over 32-bit numbers goes
    through; it does not end when every number is at most [last]. *)
Definition u32_loop (first last : Z) : option (list Z) :=
  if last =? 2 ^ 32 - 1 then None else Some (seqZ first (last - first + 1)).

(** What [hash_append] feeds a hasher for a string. *)
Definition append_string (s : Bytes) : Bytes := s ++ be_bytes 8 (Z.of_nat (length s)).

(** Entry [i] of an array, which the code keeps within bounds. *)
Definition byte_at (bs : Bytes) (i : Z) : Z := default 0 (bs !! Z.to_nat i).

Abbreviation NodeStore := (gmap Z Bytes).
Abbreviation BloomGenerator := (list Bytes).

Section Bloom.

Context `{Hashers}.

(** ** Bloom *)

Definition toBigEndian (b0 b1 : Z) : Z := Z.lor b1 (Z.shiftl b0 8).

Definition Bloom_new : Bytes := replicate 256 0.

(** Three pairs of the index of a byte and the bit in it. *)
Definition bloomValues (data : Bytes) : list (Z * Z) :=
  let hashbuf := take 6 (be_bytes 32 (hasher sha3 data)) in
  let value k := Z.shiftl 1 (Z.land (byte_at hashbuf k) 7) in
  let index k :=
    BloomByteLength - Z.shiftr (Z.land (toBigEndian (byte_at hashbuf k) (byte_at hashbuf (k + 1))) 2047) 3 - 1 in
  [(index 0, value 1); (index 2, value 3); (index 4, value 5)].

Definition add (data bloom : Bytes) : Bytes :=
  fold_left (fun bloom '(i, v) => alter (fun x => Z.lor x v) (Z.to_nat i) bloom) (bloomValues data) bloom.

Definition test (data bloom : Bytes) : bool :=
  forallb (fun '(i, v) => v =? Z.land v (byte_at bloom i)) (bloomValues data).

Definition bloomLookup (bloom topic : Bytes) : bool := test topic bloom.

(** ** BloomGenerator

    [blooms] has a row for each bit of a filter, of a bit for each ledger of a section. *)

Definition BloomGenerator_new : BloomGenerator :=
  replicate (Z.to_nat BLOOM_LENGTH) (replicate (Z.to_nat (DEFAULT_SECTION_SIZE / 8)) 0).

Definition or_cell (blooms : BloomGenerator) (row col v : Z) : BloomGenerator :=
  alter (alter (fun x => Z.lor x v) (Z.to_nat col)) (Z.to_nat row) blooms.

Definition addBloom (index : Z) (bloom : Bytes) (blooms : BloomGenerator) : BloomGenerator :=
  let byteIndex := index / 8 in
  let bitIndex := 7 - index mod 8 in
  let bloomByteLength := BLOOM_LENGTH / 8 in
  fold_left (fun blooms byt =>
    let bloomByte := byte_at bloom (bloomByteLength - 1 - byt) in
    if bloomByte =? 0 then blooms
    else
      let base := 8 * byt in
      fold_left (fun blooms k =>
        or_cell blooms (base + k) byteIndex (Z.shiftl (Z.land (Z.shiftr bloomByte k) 1) bitIndex))
        [7; 6; 5; 4; 3; 2; 1; 0] blooms)
    (seqZ 0 bloomByteLength) blooms.

Definition bitSet (idx : Z) (blooms : BloomGenerator) : Bytes := default [] (blooms !! Z.to_nat idx).

(** ** The ledgers of a node

    A ledger has its number, its hash, its filter, and the keys of its transactions in the
    order of the tree; [bl_missing] says that the walk over them meets a node that is not
    there, after those keys.  [lm_complete] are the ranges of ledgers said to be complete. *)

Record Ledger := mkLedger { bl_seq : Z; bl_hash : Z; bl_bloom : Bytes; bl_txs : list Z; bl_missing : bool }.

Record LedgerMaster := mkLedgerMaster {
  getLedgerBySeq : Z -> option Ledger;
  getLedgerByHash : Z -> option Ledger;
  mCompleteLedgers : list (Z * Z);
  getClosedLedger : option Ledger
}.

Definition haveLedger (lm : LedgerMaster) (seqMin seqMax : Z) : bool :=
  existsb (fun '(lower, upper) => (lower <=? seqMin) && (seqMax <=? upper)) (mCompleteLedgers lm).

(** ** BloomIndexer *)

Record BloomIndexer := mkBloomIndexer {
  storedSections_ : Z;
  knownSections_ : Z;
  bi_bloomStartSeq : option Z
}.

Definition BloomIndexer_new : BloomIndexer := mkBloomIndexer 0 0 None.

Definition setBloomStartSeq (startSeq : option Z) (bi : BloomIndexer) : BloomIndexer :=
  mkBloomIndexer (storedSections_ bi) (knownSections_ bi) startSeq.

Definition set_storedSections (n : Z) (bi : BloomIndexer) : BloomIndexer :=
  mkBloomIndexer n (knownSections_ bi) (bi_bloomStartSeq bi).

Definition set_knownSections (n : Z) (bi : BloomIndexer) : BloomIndexer :=
  mkBloomIndexer (storedSections_ bi) n (bi_bloomStartSeq bi).

Definition bloomStatus (bi : BloomIndexer) : Z * Z := (DEFAULT_SECTION_SIZE, storedSections_ bi).

Definition getSectionRange (bi : BloomIndexer) (section : Z) : option (Z * Z) :=
  match bi_bloomStartSeq bi with
  | None => None
  | Some bloomStartSeq =>
      Some (u32 (bloomStartSeq + section * DEFAULT_SECTION_SIZE),
            u32 (bloomStartSeq + (section + 1) * DEFAULT_SECTION_SIZE - 1))
  end.

Definition bloomSectionCountKey : Z := hasher sha (append_string (BLOOM_PREFIX ++ BLOOM_SAVED_SECTION_COUNT)).

Definition bloomBitsKey (bit section lastHash : Z) : Z :=
  hasher sha (append_string BLOOM_PREFIX ++ be_bytes 4 bit ++ be_bytes 4 section ++ be_bytes 32 lastHash).

Definition getBloomBits (lm : LedgerMaster) (db : NodeStore) (bi : BloomIndexer) (bit section : Z) : option Bytes :=
  match bi_bloomStartSeq bi with
  | None => Some []
  | Some _ =>
      '(_, lastSeq) ← getSectionRange bi section;
      match getLedgerBySeq lm lastSeq with
      | None => Some []
      | Some ledger =>
          match db !! bloomBitsKey bit section (bl_hash ledger) with
          | Some obj => fst <$> getVL obj
          | None => Some []
          end
      end
  end.

(** Handling of a published ledger; whether [processSections] is queued as a job. *)
Definition onPubLedger (seq : Z) (bi : BloomIndexer) : bool * BloomIndexer :=
  match bi_bloomStartSeq bi with
  | None => (false, bi)
  | Some bloomStartSeq =>
      let bi := set_knownSections (u32 (seq - bloomStartSeq + 1) / DEFAULT_SECTION_SIZE) bi in
      (storedSections_ bi <? knownSections_ bi, bi)
  end.

(** The loop over the ledgers of a section: the vectors and the hash of its last ledger. *)
Fixpoint add_blooms (lm : LedgerMaster) (start last : Z) (seqs : list Z) (bin : BloomGenerator) (lastHash : Z)
  : option (BloomGenerator * Z) :=
  match seqs with
  | [] => Some (bin, lastHash)
  | seq :: seqs =>
      ledger ← getLedgerBySeq lm seq;
      add_blooms lm start last seqs (addBloom (u32 (seq - start)) (bl_bloom ledger) bin)
        (if seq =? last then bl_hash ledger else lastHash)
  end.

(** The loop that stores the vectors. *)
Fixpoint store_bits (section lastHash : Z) (bin : BloomGenerator) (bits : list Z) (db : NodeStore) : option NodeStore :=
  match bits with
  | [] => Some db
  | i :: bits =>
      s ← addVL (bitSet i bin) [];
      store_bits section lastHash bin bits (<[bloomBitsKey i section lastHash := s]> db)
  end.

Definition processSection (lm : LedgerMaster) (bi : BloomIndexer) (section : Z) (db : NodeStore)
  : option (bool * NodeStore) :=
  '(start, last) ← getSectionRange bi section;
  if negb (haveLedger lm start last) then Some (false, db)
  else
    seqs ← u32_loop start last;
    '(bin, lastHash) ← add_blooms lm start last seqs BloomGenerator_new 0;
    pair true <$> store_bits section lastHash bin (seqZ 0 BLOOM_LENGTH) db.

Definition saveStoredSection (section : Z) (db : NodeStore) : NodeStore :=
  <[bloomSectionCountKey := add32 section []]> db.

Fixpoint sections_loop (n : nat) (lm : LedgerMaster) (bi : BloomIndexer) (db : NodeStore)
  : option (BloomIndexer * NodeStore) :=
  match n with
  | O => Some (bi, db)
  | S n =>
      '(ok, db) ← processSection lm bi (storedSections_ bi) db;
      if negb ok then Some (bi, db)
      else
        let bi := set_storedSections (u32 (storedSections_ bi + 1)) bi in
        sections_loop n lm bi (saveStoredSection (storedSections_ bi) db)
  end.

(** Every turn stores a section, so the loop has at most as many turns as sections are
    known and not stored. *)
Definition processSections (lm : LedgerMaster) (bi : BloomIndexer) (db : NodeStore)
  : option (BloomIndexer * NodeStore) :=
  sections_loop (Z.to_nat (knownSections_ bi - storedSections_ bi)) lm bi db.

Definition readStoredSection (db : NodeStore) (bi : BloomIndexer) : option BloomIndexer :=
  match db !! bloomSectionCountKey with
  | Some obj => '(n, _) ← get32 obj; Some (set_storedSections n bi)
  | None => Some bi
  end.

Definition BloomIndexer_init (startSeq : option Z) (db : NodeStore) (bi : BloomIndexer) : option BloomIndexer :=
  let bi := setBloomStartSeq startSeq bi in
  match bi_bloomStartSeq bi with
  | Some _ => readStoredSection db bi
  | None => Some bi
  end.

(** ** BloomManager *)

Record BloomManager := mkBloomManager { inited_ : bool; bm_bloomStartSeq : option Z; bloomIndexer : BloomIndexer }.

Definition bloomStartLedgerKey : Z := hasher sha (append_string (BLOOM_PREFIX ++ BLOOM_START_LEDGER_KEY)).

Definition saveBloomStartLedger (seq hash : Z) (bm : BloomManager) (db : NodeStore) : BloomManager * NodeStore :=
  (mkBloomManager (inited_ bm) (Some seq) (setBloomStartSeq (Some seq) (bloomIndexer bm)),
   <[bloomStartLedgerKey := add256 hash (add32 seq [])]> db).

(** The ledger whose hash is read with the number only serves an assertion. *)
Definition loadBloomStartLedger (db : NodeStore) (bm : BloomManager) : option BloomManager :=
  match db !! bloomStartLedgerKey with
  | Some obj =>
      '(seq, obj) ← get32 obj;
      _ ← get256 obj;
      Some (mkBloomManager (inited_ bm) (Some seq) (bloomIndexer bm))
  | None => Some bm
  end.

Definition BloomManager_init (db : NodeStore) (bm : BloomManager) : option BloomManager :=
  if inited_ bm then Some bm
  else
    bm ← loadBloomStartLedger db (mkBloomManager true (bm_bloomStartSeq bm) (bloomIndexer bm));
    bi ← BloomIndexer_init (bm_bloomStartSeq bm) db (bloomIndexer bm);
    Some (mkBloomManager (inited_ bm) (bm_bloomStartSeq bm) bi).

Definition getSectionBySeq (bm : BloomManager) (seq : Z) : option Z :=
  bloomStartSeq ← bm_bloomStartSeq bm;
  Some (u32 (seq - bloomStartSeq) / DEFAULT_SECTION_SIZE).

Definition getLedgerLocation (bm : BloomManager) (seq : Z) : option (Z * Z * Z) :=
  section ← getSectionBySeq bm seq;
  bloomStartSeq ← bm_bloomStartSeq bm;
  let index := u32 (seq - (bloomStartSeq + section * DEFAULT_SECTION_SIZE)) in
  Some (section, index / 8, 7 - index mod 8).

End Bloom.
