(* ===== verification/LogFilter.v ===== *)
(** * Queries for the logs of contracts

    [peersafe/app/bloom/]: [BloomHelper.cpp], the filter a ledger gets from its logs;
    [FilterHelper.cpp], the logs of a ledger and their selection by addresses and topics;
    [Matcher.cpp], the search for ledgers in the bit vectors; [Filter.cpp], a query over a
    range of ledgers.  [parseContractLogs] is in [eth/api/utils/Helpers.cpp], [doEthGetLogs]
    in [eth/api/handlers/EthRpcApi.cpp].

    JSON objects are records of the members the code reads; the account a log names is
    kept as the number its text stands for. *)

From S2P Require Import Prelude Serializer Hex ShaMapNode Bloom.

#[local] Open Scope Z_scope.

(** A log as the machine records it: the contract that emitted it, texts of topics and
    data. *)
Record RawLog := mkRawLog { rl_account : option Z; rl_topics : list Bytes; rl_data : Bytes }.

(** Where a log is: what [parseContractLogs] takes from the result it extends. *)
Record LogRef := mkLogRef { lr_transactionIndex : Z; lr_transactionHash : Z; lr_blockHash : Z; lr_blockNumber : Z }.

Record Log := mkLog { lg_logIndex : Z; lg_ref : option LogRef; lg_data : Bytes; lg_address : Bytes; lg_topics : list Bytes }.

(** A transaction of the master cache: whether it is of type [ttETH_TX] or [ttCONTRACT],
    its ledger, its contract by [getContractAddress], and the logs of its metadata when
    there is log data. *)
Record Transaction := mkTransaction {
  tx_contractType : bool;
  txn_getLedger : Z;
  tx_getContractAddress : option Z;
  tx_logs : option (list RawLog)
}.

Record FilterQuery := mkFilterQuery {
  q_blockHash : Z; q_fromBlock : Z; q_toBlock : Z; q_addresses : list Z; q_topics : list (list Z)
}.

(** ** Matcher: vectors *)

(** Bytes of [b] are read for every byte of [a]. *)
Definition AndBlob (a b : Bytes) : option Bytes :=
  if (length b <? length a)%nat then None else Some (zip_with Z.land a b).

Definition OrBlob (a b : Bytes) : option Bytes :=
  if (length b <? length a)%nat then None else Some (zip_with Z.lor a b).

Record Matcher := mkMatcher { sectionSize_ : Z; filters_ : list (list (list Z)) }.

Record Filter := mkFilter {
  blockhash_ : Z;
  matcher_ : option Matcher;
  from_ : Z;
  to_ : Z;
  addresses_ : list Z;
  topics_ : list (list Z)
}.

Section Logs.

Context {HA : Hashers} {HX : HexText}.

(** ** Logs of contracts *)

Definition parseContractLogs (jvLogs : list RawLog) (address : Bytes) (jvResult : option LogRef) : list Log :=
  imap (fun i it =>
    mkLog (Z.of_nat i) jvResult
      (match jvResult with Some _ => hex_0x ++ rl_data it | None => [] end)
      (match rl_account it with Some account => hex_0x ++ to_string 20 account | None => address end)
      ((fun iter => hex_0x ++ toLowerStr iter) <$> rl_topics it))
    jvLogs.

(** [BloomHelper]: the contracts of the transactions of the ledger that is built, with
    their logs. *)
Definition addContractLog (address : Z) (log : list RawLog) (vecLogs : list (Z * list RawLog))
  : list (Z * list RawLog) :=
  if (0 <? length log)%nat then vecLogs ++ [(address, log)] else vecLogs.

Definition add_log (address : Z) (bloom : Bytes) (log : Log) : Bytes :=
  fold_left (fun bloom topic => add (be_bytes 32 (from_hex_text 32 (drop 2 topic))) bloom)
    (lg_topics log) (add (be_bytes 20 address) bloom).

Definition calcBloom (vecLogs : list (Z * list RawLog)) : Bytes :=
  fold_left (fun bloom '(address, log) => fold_left (add_log address) (parseContractLogs log [] None) bloom)
    vecLogs Bloom_new.

(** ** FilterHelper *)

Section Fetch.

Context (fetch : Z -> option Transaction).

Fixpoint logs_loop (hash : Z) (items : list Z) (index : Z) : option (list (list Log)) :=
  match items with
  | [] => Some []
  | key :: items =>
      let index := index + 1 in
      match fetch key with
      | None => logs_loop hash items index
      | Some txn =>
          if negb (tx_contractType txn) then logs_loop hash items index
          else
            contract ← tx_getContractAddress txn;
            match tx_logs txn with
            | None => logs_loop hash items index
            | Some logs =>
                let value := mkLogRef index key hash (txn_getLedger txn) in
                cons (parseContractLogs logs (hex_0x ++ to_string 20 contract) (Some value)) <$> logs_loop hash items index
            end
      end
  end.

Definition getLogsByLedger (ledger : Ledger) : option (list (list Log) * bool) :=
  result ← logs_loop (bl_hash ledger) (bl_txs ledger) 0;
  Some (result, negb (bl_missing ledger)).

Definition includes (addresses : list Z) (address : Z) : bool := existsb (fun a => a =? address) addresses.

(** The loop over the topics of a filter. *)
Fixpoint match_topics (topics : list (list Z)) (topicsObject : list Bytes) : bool :=
  match topics, topicsObject with
  | [], _ => true
  | sub :: topics, object :: topicsObject =>
      (bool_decide (sub = []) || existsb (fun topic => bool_decide (object = hex_0x ++ toLowerStr (to_string 32 topic))) sub)
      && match_topics topics topicsObject
  | _ :: _, [] => false
  end.

Definition keep_log (from to : Z) (addresses : list Z) (topics : list (list Z)) (log : Log) : bool :=
  let seq := match lg_ref log with Some r => lr_blockNumber r | None => 0 end in
  if (0 <? from) && (seq <? from) then false
  else if (0 <? to) && (to <? seq) then false
  else
    let address := from_hex_text 20 (lg_address log) in
    if (0 <? length addresses)%nat && negb (includes addresses address) then false
    else if (length (lg_topics log) <? length topics)%nat then false
    else match_topics topics (lg_topics log).

Definition filterLogs (unfilteredLogs : list (list Log)) (from to : Z) (addresses : list Z) (topics : list (list Z))
  : list Log :=
  unfilteredLogs ≫= fun logs => filter (fun log => keep_log from to addresses topics log = true) logs.

(** ** Matcher *)

Definition calcBloomIndexes (s : Bytes) : list Z :=
  let bytes := be_bytes 32 (hasher sha3 s) in
  (fun i => u32 (Z.land (Z.shiftl (byte_at bytes (2 * i)) 8) 2047 + byte_at bytes (2 * i + 1))) <$> [0; 1; 2].

Definition newMatcher (sectionSize : Z) (filters : list (list Bytes)) : Matcher :=
  mkMatcher sectionSize (map (map calcBloomIndexes) (filter (fun f => f <> []) filters)).

Section Search.

Context (lm : LedgerMaster) (db : NodeStore) (bm : BloomManager).

(** The loop over the three bits of an index. *)
Fixpoint and_bits (section : Z) (index : list Z) (andResult : Bytes) : option Bytes :=
  match index with
  | [] => Some andResult
  | bit :: index =>
      blob ← getBloomBits lm db (bloomIndexer bm) bit section;
      andResult ← match andResult with [] => Some blob | _ => AndBlob andResult blob end;
      and_bits section index andResult
  end.

Fixpoint or_indexes (section : Z) (bloom : list (list Z)) (orResult : Bytes) : option Bytes :=
  match bloom with
  | [] => Some orResult
  | index :: bloom =>
      andResult ← and_bits section index [];
      orResult ← match orResult with [] => Some andResult | _ => OrBlob orResult andResult end;
      or_indexes section bloom orResult
  end.

Definition subMatch (m : Matcher) (next : Bytes) (section : Z) (bloom : list (list Z)) : option Bytes :=
  orResult ← or_indexes section bloom [];
  let orResult := match orResult with [] => replicate (Z.to_nat (sectionSize_ m / 8)) 0 | _ => orResult end in
  match next with [] => Some orResult | _ => AndBlob orResult next end.

Fixpoint match_filters (m : Matcher) (section : Z) (filters : list (list (list Z))) (next : Bytes) : option Bytes :=
  match filters with
  | [] => Some next
  | bloom :: filters => next ← subMatch m next section bloom; match_filters m section filters next
  end.

(** The ledgers of a section that match, from [i] on: [i] is a 32-bit number, and a byte
    without matches is skipped at once when [i] is a multiple of 8. *)
Fixpoint scan (fuel : nat) (i last : Z) (blob : Bytes) : option (list Z) :=
  if i <=? last then
    match fuel with
    | O => None
    | S fuel =>
        '(_, byteIndex, bitIndex) ← getLedgerLocation bm i;
        next ← blob !! Z.to_nat byteIndex;
        if next =? 0 then
          let i := if i mod 8 =? 0 then u32 (i + 7) else i in
          scan fuel (u32 (i + 1)) last blob
        else
          let matched := negb (Z.land next (Z.shiftl 1 bitIndex) =? 0) in
          rest ← scan fuel (u32 (i + 1)) last blob;
          Some (if matched then i :: rest else rest)
    end
  else Some [].

Definition section_ledgers (m : Matcher) (from to section : Z) : option (list Z) :=
  next ← match_filters m section (filters_ m) (replicate (Z.to_nat (sectionSize_ m / 8)) 255);
  '(sectionStart, sectionEnd) ← getSectionRange (bloomIndexer bm) section;
  let first := if sectionStart <? from then from else sectionStart in
  let last := if to <? sectionEnd then to else sectionEnd in
  scan (Z.to_nat (last - first + 1)) first last next.

Fixpoint all_sections (m : Matcher) (from to : Z) (sections : list Z) : option (list Z) :=
  match sections with
  | [] => Some []
  | s :: sections =>
      found ← section_ledgers m from to s;
      rest ← all_sections m from to sections;
      Some (found ++ rest)
  end.

Definition execute (m : Matcher) (from to : Z) : option (list Z) :=
  fromSections ← getSectionBySeq bm from;
  toSections ← getSectionBySeq bm to;
  sections ← u32_loop fromSections toSections;
  all_sections m from to sections.

(** ** Filter *)

Definition bloomFilter (bloom : Bytes) (addresses : list Z) (topics : list (list Z)) : bool :=
  (bool_decide (addresses = []) || existsb (fun address => bloomLookup bloom (be_bytes 20 address)) addresses)
  && forallb (fun sub => bool_decide (sub = []) || existsb (fun topic => bloomLookup bloom (be_bytes 32 topic)) sub) topics.

Definition newFilter : Filter := mkFilter 0 None 0 0 [] [].

Definition newBlockFilter (blockHash : Z) (addresses : list Z) (topics : list (list Z)) : Filter :=
  mkFilter blockHash None 0 0 addresses topics.

Definition newRangeFilter (from to : Z) (addresses : list Z) (topics : list (list Z)) : Filter :=
  let addressesFilter := be_bytes 20 <$> addresses in
  let filters := (match addressesFilter with [] => [] | _ => [addressesFilter] end)
    ++ (topics ≫= fun topic => match be_bytes 32 <$> topic with [] => [] | topicsFilter => [topicsFilter] end) in
  let '(sectionSize, _) := bloomStatus (bloomIndexer bm) in
  mkFilter 0 (Some (newMatcher sectionSize filters)) from to addresses topics.

(** The calls below pair JSON with a flag; [Some None] is a pair with [false]. *)
Definition checkMatches (f : Filter) (ledger : Ledger) : option (option (list Log)) :=
  '(logs, ok) ← getLogsByLedger ledger;
  Some (if negb ok then None else Some (filterLogs logs 0 0 (addresses_ f) (topics_ f))).

Definition blockLogs (f : Filter) (ledger : Ledger) : option (option (list Log)) :=
  if bloomFilter (bl_bloom ledger) (addresses_ f) (topics_ f) then checkMatches f ledger else Some None.

Fixpoint ledgers_logs (f : Filter) (seqs : list Z) : option (list Log) :=
  match seqs with
  | [] => Some []
  | seq :: seqs =>
      match getLedgerBySeq lm seq with
      | None => ledgers_logs f seqs
      | Some block =>
          result ← blockLogs f block;
          rest ← ledgers_logs f seqs;
          Some (default [] result ++ rest)
      end
  end.

Definition unindexedLogs (f : Filter) : option (list Log) :=
  seqs ← u32_loop (from_ f) (to_ f); ledgers_logs f seqs.

Definition set_from (from : Z) (f : Filter) : Filter :=
  mkFilter (blockhash_ f) (matcher_ f) from (to_ f) (addresses_ f) (topics_ f).

Definition indexedLogs (f : Filter) (last : Z) : option (list Log * Filter) :=
  m ← matcher_ f;
  matchedLedgers ← execute m (from_ f) (to_ f);
  logs ← ledgers_logs f matchedLedgers;
  Some (logs, set_from (u32 (last + 1)) f).

Definition Logs (f : Filter) : option (option (list Log)) :=
  if negb (blockhash_ f =? 0) then
    match getLedgerByHash lm (blockhash_ f) with
    | None => Some None
    | Some ledger => blockLogs f ledger
    end
  else
    let '(_, sections) := bloomStatus (bloomIndexer bm) in
    '(_, indexed) ← getSectionRange (bloomIndexer bm) (u32 (sections - 1));
    '(logs, f) ← (if from_ f <=? indexed then
                    if to_ f <? indexed then indexedLogs f (to_ f) else indexedLogs f indexed
                  else Some ([], f));
    uindexed ← unindexedLogs f;
    Some (Some (logs ++ uindexed)).

Definition doEthGetLogs (query : FilterQuery) : option (list Log) :=
  match bm_bloomStartSeq bm with
  | None => Some []
  | Some bloomStartSeq =>
      if negb (q_blockHash query =? 0) then
        default [] <$> Logs (newBlockFilter (q_blockHash query) (q_addresses query) (q_topics query))
      else if q_toBlock query <? bloomStartSeq then Some []
      else default [] <$> Logs (newRangeFilter (q_fromBlock query) (q_toBlock query) (q_addresses query) (q_topics query))
  end.

(** [getTxsFrom]: the keys of a ledger's transactions, and whether all could be read. *)
Definition getTxsFrom (ledger : Ledger) : list Z * bool := (bl_txs ledger, negb (bl_missing ledger)).

Definition getPendingTransactions : list Z * bool :=
  match getClosedLedger lm with None => ([], false) | Some closed => getTxsFrom closed end.

End Search.

End Fetch.

End Logs.
