(* ===== verification/BloomProps.v ===== *)
(** * Bits of filters and of their index

    The bits [Bloom] sets and tests are those [Matcher] looks for; [addBloom] transposes.
    What the index holds of the sections that are stored, and that the steps of the
    indexer keep it. *)

From S2P Require Import Prelude Serializer Hex ShaMapNode Bloom LogFilter.

#[local] Open Scope Z_scope.

(** ** Bits *)

Lemma byte_at_nth bs i : byte_at bs i = default 0 (bs !! Z.to_nat i).
Proof. done. Qed.

Lemma byte_at_bound bs i : Forall is_byte bs -> 0 <= byte_at bs i < 256.
Proof.
  intros Hb. unfold byte_at. destruct (bs !! Z.to_nat i) as [x|] eqn:E; simpl; [|lia].
  by apply (Forall_lookup_1 _ _ _ _ Hb) in E.
Qed.

(** Bit [n] of a filter: the last byte holds the first eight. *)
Definition bloom_bit (bloom : Bytes) (n : Z) : bool := Z.testbit (byte_at bloom (255 - n / 8)) (n mod 8).

(** Bit [idx] of a vector: the first byte holds the first eight, from its highest bit on. *)
Definition blob_bit (blob : Bytes) (idx : Z) : bool := Z.testbit (byte_at blob (idx / 8)) (7 - idx mod 8).

Section Bits.

Context {HA : Hashers} {HX : HexText}.

Lemma take_byte_at k n bs : 0 <= k < Z.of_nat n -> byte_at (take n bs) k = byte_at bs k.
Proof. intros Hk. unfold byte_at. by rewrite lookup_take_lt by lia. Qed.

Lemma index_value b0 b1 :
  0 <= b0 < 256 -> 0 <= b1 < 256 ->
  let n := Z.land (Z.shiftl b0 8) 2047 + b1 in
  n = (b0 mod 8) * 256 + b1 /\ Z.land (toBigEndian b0 b1) 2047 = n /\ Z.land b1 7 = n mod 8.
Proof.
  intros H0 H1. assert (Z.land (Z.shiftl b0 8) 2047 = (b0 mod 8) * 256) as E.
  { change 2047 with (Z.ones 11). rewrite Z.land_ones, Z.shiftl_mul_pow2 by lia. change (2 ^ 8) with 256.
    change (2 ^ 11) with (8 * 256). by rewrite Z.mul_mod_distr_r by lia. }
  simpl. rewrite E. split; [done|]. split.
  - unfold toBigEndian. rewrite Z.lor_comm. change 2047 with (Z.ones 11). rewrite Z.land_ones by lia.
    assert (Z.lor (Z.shiftl b0 8) b1 = b0 * 256 + b1) as ->.
    { assert (Z.land (Z.shiftl b0 8) b1 = 0) as Hz.
      { apply Z.bits_inj'. intros i Hi. rewrite Z.land_spec, Z.bits_0, Z.shiftl_spec by lia.
        destruct (decide (i < 8)); [by rewrite Z.testbit_neg_r by lia|].
        replace b1 with (b1 mod 2 ^ 8) by (apply Z.mod_small; lia).
        rewrite Z.mod_pow2_bits_high by lia. apply andb_false_r. }
      rewrite <- Z.lxor_lor, <- Z.add_nocarry_lxor by done. by rewrite Z.shiftl_mul_pow2. }
    change (2 ^ 11) with 2048. dlia.
  - change 7 with (Z.ones 3). rewrite Z.land_ones by lia. change (2 ^ 3) with 8. dlia.
Qed.

(** The bytes and bits [Bloom] works on are the indexes of [Matcher]. *)
Lemma bloomValues_indexes data :
  bloomValues data = (fun n => (255 - n / 8, Z.shiftl 1 (n mod 8))) <$> calcBloomIndexes data.
Proof.
  unfold bloomValues, calcBloomIndexes. set (bytes := be_bytes 32 _).
  assert (forall k, 0 <= k < 32 -> 0 <= byte_at bytes k < 256) as Hb.
  { intros. apply byte_at_bound, be_bytes_bytes. }
  assert (forall k, 0 <= k < 5 -> k mod 2 = 0 ->
    let n := u32 (Z.land (Z.shiftl (byte_at bytes k) 8) 2047 + byte_at bytes (k + 1)) in
    (BloomByteLength - Z.shiftr (Z.land (toBigEndian (byte_at (take 6 bytes) k) (byte_at (take 6 bytes) (k + 1))) 2047) 3 - 1,
     Z.shiftl 1 (Z.land (byte_at (take 6 bytes) (k + 1)) 7)) = (255 - n / 8, Z.shiftl 1 (n mod 8))) as Hk.
  { intros k Hk _. rewrite !take_byte_at by lia.
    destruct (index_value (byte_at bytes k) (byte_at bytes (k + 1)) ltac:(apply Hb; lia) ltac:(apply Hb; lia)) as (E1 & E2 & E3).
    simpl. pose proof (Hb (k + 1) ltac:(lia)). rewrite E2, E3, E1, u32_small by dlia.
    rewrite Z.shiftr_div_pow2 by lia. change (2 ^ 3) with 8. unfold BloomByteLength. f_equal. lia. }
  apply (f_equal2 cons); [exact (Hk 0 ltac:(lia) eq_refl)|].
  apply (f_equal2 cons); [exact (Hk 2 ltac:(lia) eq_refl)|].
  apply (f_equal2 cons); [exact (Hk 4 ltac:(lia) eq_refl) | done].
Qed.

Lemma indexes_bound data n : n ∈ calcBloomIndexes data -> 0 <= n < 2048.
Proof.
  unfold calcBloomIndexes. set (bytes := be_bytes 32 _).
  assert (forall k, 0 <= byte_at bytes k < 256) as Hb by (intros; apply byte_at_bound, be_bytes_bytes).
  rewrite list_elem_of_fmap. intros (i & -> & _).
  destruct (index_value _ _ (Hb (2 * i)) (Hb (2 * i + 1))) as (E & _). simpl in E. rewrite E.
  pose proof (Hb (2 * i + 1)). rewrite u32_small; dlia.
Qed.

Lemma indexes_length data : length (calcBloomIndexes data) = 3%nat.
Proof. done. Qed.

Lemma test_bit v k x : v = Z.shiftl 1 k -> 0 <= k -> (v =? Z.land v x) = Z.testbit x k.
Proof.
  intros -> Hk. rewrite Z.shiftl_1_l. rewrite <- Z.shiftl_1_l, Z.land_comm. apply eq_bool_prop_intro.
  rewrite Is_true_true, Z.eqb_eq. split.
  - intros E. apply (f_equal (fun z => Z.testbit z k)) in E. rewrite Z.land_spec, Z.shiftl_spec, Z.sub_diag in E by lia.
    simpl in E. rewrite andb_true_r in E. by rewrite <- E.
  - intros Hx%Is_true_true. apply Z.bits_inj'. intros i Hi. rewrite Z.land_spec, Z.shiftl_spec by lia.
    destruct (decide (i = k)) as [->|]; [by rewrite Z.sub_diag, Hx|].
    replace (Z.testbit 1 (i - k)) with false; [by rewrite andb_false_r|].
    symmetry. destruct (decide (i < k)); [by apply Z.testbit_neg_r; lia|]. apply Z.bits_above_log2; simpl; lia.
Qed.

Lemma test_bits data bloom : test data bloom = forallb (bloom_bit bloom) (calcBloomIndexes data).
Proof.
  unfold test. rewrite bloomValues_indexes. induction (calcBloomIndexes data) as [|n l IH]; [done|].
  rewrite fmap_cons. cbn [forallb]. rewrite IH.
  f_equal. apply test_bit; [done | apply Z.mod_pos_bound; lia].
Qed.

Definition bloom_ok (bloom : Bytes) : Prop := length bloom = 256%nat /\ Forall is_byte bloom.

Lemma Bloom_new_ok : bloom_ok Bloom_new.
Proof. split; [done|]. apply Forall_replicate. unfold is_byte. lia. Qed.

Lemma byte_at_alter bs i j v :
  0 <= i < Z.of_nat (length bs) -> 0 <= j ->
  byte_at (alter (fun x => Z.lor x v) (Z.to_nat i) bs) j =
    if i =? j then Z.lor (byte_at bs j) v else byte_at bs j.
Proof.
  intros Hi Hj. unfold byte_at. destruct (Z.eqb_spec i j) as [->|Hij].
  - rewrite list_lookup_alter_eq. destruct (bs !! Z.to_nat j) eqn:E; [done|].
    apply lookup_ge_None in E. lia.
  - by rewrite list_lookup_alter_ne by lia.
Qed.

Lemma is_byte_lor x y : is_byte x -> is_byte y -> is_byte (Z.lor x y).
Proof.
  unfold is_byte. intros Hx Hy. split; [apply Z.lor_nonneg; lia|].
  replace x with (x mod 2 ^ 8) by (apply Z.mod_small; lia). replace y with (y mod 2 ^ 8) by (apply Z.mod_small; lia).
  rewrite <- !Z.land_ones, <- Z.land_lor_distr_l, Z.land_ones by lia. apply Z.mod_pos_bound. lia.
Qed.

Lemma Forall_alter_lor bs i v : Forall is_byte bs -> is_byte v -> Forall is_byte (alter (fun x => Z.lor x v) i bs).
Proof. intros Hb Hv. apply Forall_alter; [done|]. intros x _ Hx. by apply is_byte_lor. Qed.

Lemma one_bit_byte k : 0 <= k < 8 -> is_byte (Z.shiftl 1 k).
Proof.
  intros Hk. rewrite Z.shiftl_1_l. unfold is_byte. split; [apply Z.pow_nonneg; lia|].
  change 256 with (2 ^ 8). apply Z.pow_lt_mono_r; lia.
Qed.

Lemma testbit_one k i : 0 <= i -> Z.testbit (Z.shiftl 1 k) i = (i =? k).
Proof.
  intros Hi. rewrite Z.shiftl_spec by done. destruct (Z.eqb_spec i k) as [->|]; [by rewrite Z.sub_diag|].
  destruct (decide (i < k)); [by apply Z.testbit_neg_r; lia|]. apply Z.bits_above_log2; simpl; lia.
Qed.

(** One of the three steps of [add]. *)
Lemma set_bit bloom m n :
  bloom_ok bloom -> 0 <= m < 2048 -> 0 <= n < 2048 ->
  let bloom' := alter (fun x => Z.lor x (Z.shiftl 1 (m mod 8))) (Z.to_nat (255 - m / 8)) bloom in
  bloom_ok bloom' /\ bloom_bit bloom' n = bloom_bit bloom n || (n =? m).
Proof.
  intros [Hl Hb] Hm Hn. split.
  - split; [by rewrite length_alter|]. apply Forall_alter_lor; [done|]. apply one_bit_byte. dlia.
  - unfold bloom_bit. rewrite byte_at_alter by dlia. destruct (Z.eqb_spec (255 - m / 8) (255 - n / 8)) as [E|E].
    + rewrite Z.lor_spec, testbit_one by dlia. f_equal. destruct (Z.eqb_spec n m); [subst; by rewrite Z.eqb_refl|].
      apply Z.eqb_neq. dlia.
    + destruct (Z.eqb_spec n m); [subst; done|]. by rewrite orb_false_r.
Qed.

(** [add] sets its three bits and no other. *)
Lemma add_bits data bloom n :
  bloom_ok bloom -> 0 <= n < 2048 ->
  bloom_ok (add data bloom) /\
  bloom_bit (add data bloom) n = bloom_bit bloom n || existsb (Z.eqb n) (calcBloomIndexes data).
Proof.
  intros Hok Hn. unfold add. rewrite bloomValues_indexes.
  assert (forall m, m ∈ calcBloomIndexes data -> 0 <= m < 2048) as Hb by apply indexes_bound.
  revert bloom Hok Hb. induction (calcBloomIndexes data) as [|m l IH]; intros bloom Hok Hb; [by rewrite orb_false_r|].
  rewrite fmap_cons. cbn [fold_left existsb].
  destruct (set_bit bloom m n Hok ltac:(apply Hb; by left) Hn) as [Hok' E].
  destruct (IH _ Hok') as [IH1 IH2]; [intros; apply Hb; by right|]. split; [done|]. by rewrite IH2, E, orb_assoc.
Qed.

Lemma add_ok data bloom : bloom_ok bloom -> bloom_ok (add data bloom).
Proof. intros Hok. by apply (add_bits data bloom 0). Qed.

(** What was added is found, and adding loses nothing. *)
Lemma test_add data bloom : bloom_ok bloom -> test data (add data bloom) = true.
Proof.
  intros Hok. rewrite test_bits, forallb_forall. intros n Hn.
  pose proof (indexes_bound data n ltac:(by apply list_elem_of_In)).
  rewrite (proj2 (add_bits data bloom n Hok ltac:(done))). apply orb_true_iff. right.
  apply existsb_exists. exists n. split; [done | apply Z.eqb_refl].
Qed.

Lemma test_add_mono data data' bloom : bloom_ok bloom -> test data bloom = true -> test data (add data' bloom) = true.
Proof.
  intros Hok. rewrite !test_bits, !forallb_forall. intros Ht n Hn. pose proof (indexes_bound data n ltac:(by apply list_elem_of_In)).
  by rewrite (proj2 (add_bits data' bloom n Hok ltac:(done))), Ht.
Qed.

(** ** The index of a section *)

Definition gen_ok (blooms : BloomGenerator) : Prop :=
  length blooms = 2048%nat /\ Forall (fun row => length row = 512%nat /\ Forall is_byte row) blooms.

(** Bit [idx] of row [n]. *)
Definition gen_bit (blooms : BloomGenerator) (n idx : Z) : bool := blob_bit (bitSet n blooms) idx.

Lemma BloomGenerator_new_ok : gen_ok BloomGenerator_new.
Proof.
  unfold gen_ok, BloomGenerator_new. split; [apply length_replicate|]. apply Forall_replicate.
  split; [apply length_replicate|]. apply Forall_replicate. unfold is_byte. lia.
Qed.

Lemma byte_at_zeros n i : byte_at (replicate n 0) i = 0.
Proof.
  unfold byte_at. destruct (replicate n 0 !! Z.to_nat i) eqn:E; [|done]. by apply lookup_replicate_1 in E as [-> _].
Qed.

Lemma gen_bit_new n idx : gen_bit BloomGenerator_new n idx = false.
Proof.
  unfold gen_bit, blob_bit, bitSet, BloomGenerator_new. destruct (_ !! _) eqn:E; cbn [default id]; unfold id.
  - apply lookup_replicate_1 in E as [-> _]. by rewrite byte_at_zeros, Z.bits_0.
  - unfold byte_at. by rewrite lookup_nil, Z.bits_0.
Qed.

Lemma gen_row blooms n : gen_ok blooms -> 0 <= n < 2048 ->
  exists row, blooms !! Z.to_nat n = Some row /\ length row = 512%nat /\ Forall is_byte row.
Proof.
  intros [Hl Hr] Hn. destruct (lookup_lt_is_Some_2 blooms (Z.to_nat n)) as [row E]; [lia|].
  exists row. split; [done|]. by apply (Forall_lookup_1 _ _ _ _ Hr) in E.
Qed.

Lemma or_cell_spec blooms row col v n idx :
  gen_ok blooms -> 0 <= row < 2048 -> 0 <= col < 512 -> is_byte v -> 0 <= n < 2048 -> 0 <= idx < 4096 ->
  gen_ok (or_cell blooms row col v) /\
  gen_bit (or_cell blooms row col v) n idx =
    gen_bit blooms n idx || ((n =? row) && (idx / 8 =? col) && Z.testbit v (7 - idx mod 8)).
Proof.
  intros Hok Hr Hc Hv Hn Hi. destruct (gen_row blooms row Hok Hr) as (rw & Erw & Hlen & Hby). split.
  - destruct Hok as [Hl Hall]. split; [unfold or_cell; by rewrite length_alter|]. apply Forall_alter; [done|].
    intros x _ [Hx1 Hx2]. split; [by rewrite length_alter | by apply Forall_alter_lor].
  - unfold gen_bit, bitSet, or_cell. destruct (Z.eqb_spec n row) as [->|Hne].
    + rewrite list_lookup_alter_eq, Erw. cbn [fmap option_fmap option_map default]. unfold blob_bit, id.
      rewrite byte_at_alter by dlia. rewrite (Z.eqb_sym col). destruct (Z.eqb_spec (idx / 8) col) as [E|E]; simpl.
      * by rewrite Z.lor_spec.
      * by rewrite orb_false_r.
    + rewrite list_lookup_alter_ne by lia. by rewrite orb_false_r.
Qed.

(** A loop whose turns each add to one bit. *)
Lemma fold_or {A} (f : BloomGenerator -> A -> BloomGenerator) (P : A -> bool) n idx l blooms :
  (forall b a, a ∈ l -> gen_ok b -> gen_ok (f b a) /\ gen_bit (f b a) n idx = gen_bit b n idx || P a) -> gen_ok blooms ->
  gen_ok (fold_left f l blooms) /\ gen_bit (fold_left f l blooms) n idx = gen_bit blooms n idx || existsb P l.
Proof.
  revert blooms. induction l as [|a l IH]; intros blooms Hf Hok; simpl; [by rewrite orb_false_r|].
  destruct (Hf blooms a ltac:(by left) Hok) as [H1 H2]. destruct (IH (f blooms a)) as [H3 H4]; [|done|].
  { intros b x Hx. apply Hf. by right. }
  split; [done|]. by rewrite H4, H2, orb_assoc.
Qed.

Lemma testbit_shifted x k b i : 0 <= k -> 0 <= i -> Z.testbit (Z.shiftl (Z.land (Z.shiftr x k) 1) b) i = (i =? b) && Z.testbit x k.
Proof.
  intros Hk Hi. rewrite Z.shiftl_spec by done. destruct (Z.eqb_spec i b) as [->|Hne]; simpl.
  - rewrite Z.sub_diag, Z.land_spec, Z.shiftr_spec by lia. simpl. by rewrite andb_true_r.
  - destruct (decide (i < b)); [by apply Z.testbit_neg_r; lia|]. rewrite Z.land_spec.
    rewrite (Z.bits_above_log2 1) by (simpl; lia). apply andb_false_r.
Qed.

Lemma shifted_byte x k b : 0 <= k -> 0 <= b < 8 -> is_byte (Z.shiftl (Z.land (Z.shiftr x k) 1) b).
Proof.
  intros Hk Hb. change 1 with (Z.ones 1) at 1. rewrite Z.land_ones by lia.
  assert (Z.shiftr x k mod 2 ^ 1 = 0 \/ Z.shiftr x k mod 2 ^ 1 = 1) as [-> | ->] by (change (2 ^ 1) with 2; dlia).
  - rewrite Z.shiftl_0_l. unfold is_byte. lia.
  - by apply one_bit_byte.
Qed.

(** [addBloom] sets in every row the bit of the ledger to that of the ledger's filter. *)
Lemma addBloom_bit index bloom blooms n idx :
  gen_ok blooms -> 0 <= index < 4096 -> 0 <= n < 2048 -> 0 <= idx < 4096 ->
  gen_ok (addBloom index bloom blooms) /\
  gen_bit (addBloom index bloom blooms) n idx = gen_bit blooms n idx || ((idx =? index) && bloom_bit bloom n).
Proof.
  intros Hok Hindex Hn Hidx. unfold addBloom. change (BLOOM_LENGTH / 8) with 256.
  set (P := fun byt => existsb (fun k => (n =? 8 * byt + k) && (idx =? index) && Z.testbit (byte_at bloom (255 - byt)) k)
    [7; 6; 5; 4; 3; 2; 1; 0]).
  replace ((idx =? index) && bloom_bit bloom n) with (existsb P (seqZ 0 256)).
  { apply fold_or; [|done]. intros b byt Hbyt Hb. apply elem_of_seqZ in Hbyt. subst P. cbv beta zeta. change (256 - 1) with 255.
    destruct (Z.eqb_spec (byte_at bloom (255 - byt)) 0) as [E0|_].
    - split; [done|]. rewrite E0. cbn [existsb]. rewrite !Z.bits_0, !andb_false_r. by rewrite orb_false_r.
    - apply fold_or; [|done]. intros b' k Hk Hb'. assert (0 <= k < 8) as Hk' by (set_unfold; lia).
      destruct (or_cell_spec b' (8 * byt + k) (index / 8) (Z.shiftl (Z.land (Z.shiftr (byte_at bloom (255 - byt)) k) 1) (7 - index mod 8)) n idx)
        as [H1 H2]; [done | lia | dlia | apply shifted_byte; dlia | done | done|].
      split; [done|]. rewrite H2, testbit_shifted by dlia. f_equal.
      destruct (Z.eqb_spec n (8 * byt + k)), (Z.eqb_spec idx index), (Z.eqb_spec (idx / 8) (index / 8)), (Z.eqb_spec (7 - idx mod 8) (7 - index mod 8));
        simpl; try done; exfalso; dlia. }
  apply eq_bool_prop_intro. rewrite !Is_true_true.
  rewrite existsb_exists. subst P. cbv beta. split.
  - intros (byt & Hin & Hex). apply list_elem_of_In, elem_of_seqZ in Hin. apply existsb_exists in Hex as (k & Hk & E). btests.
    destruct E as [[-> ->] E]. apply list_elem_of_In in Hk. assert (0 <= k < 8) by (set_unfold; lia). split; [done|].
    unfold bloom_bit. replace ((8 * byt + k) / 8) with byt by dlia. by replace ((8 * byt + k) mod 8) with k by dlia.
  - intros [->%Z.eqb_eq Hb]%andb_true_iff. exists (n / 8). split; [apply list_elem_of_In, elem_of_seqZ; dlia|].
    apply existsb_exists. exists (n mod 8). split.
    + apply list_elem_of_In. assert (0 <= n mod 8 < 8) by dlia. set_unfold. lia.
    + rewrite Z.eqb_refl. unfold bloom_bit in Hb. rewrite Hb, !andb_true_r. apply Z.eqb_eq. dlia.
Qed.

End Bits.

(** ** The steps of the indexer *)

Section Index.

Context {HA : Hashers} (chain : Z -> option Ledger) (start : Z).

(** Bit [n] of the filter of ledger [seq]. *)
Definition chain_bit (seq n : Z) : bool :=
  match chain seq with Some l => bloom_bit (bl_bloom l) n | None => false end.

(** The first ledger of a section. *)
Definition sec_start (s : Z) : Z := start + s * 4096.

(** The ledgers of the section have numbers below the last 32-bit number. *)
Definition sec_in_range (s : Z) : Prop := 0 <= start /\ 0 <= s /\ sec_start (s + 1) < 2 ^ 32.

Definition last_ledger (s : Z) : option Ledger := chain (sec_start (s + 1) - 1).

Lemma section_range bi s :
  bi_bloomStartSeq bi = Some start -> sec_in_range s ->
  getSectionRange bi s = Some (sec_start s, sec_start (s + 1) - 1).
Proof.
  intros E (H0 & H1 & H2). unfold getSectionRange, DEFAULT_SECTION_SIZE, sec_start in *. rewrite E.
  rewrite !u32_small by lia. done.
Qed.

Definition within (first len x : Z) : bool := (first <=? x) && (x <? first + len).

Lemma within_succ first len x : 0 <= len -> within first (len + 1) x = (x =? first) || within (first + 1) len x.
Proof.
  intros Hl. unfold within. destruct (Z.eqb_spec x first) as [->|]; simpl.
  - rewrite Z.leb_refl. simpl. apply Z.ltb_lt. lia.
  - apply eq_bool_prop_intro. rewrite !Is_true_true, !andb_true_iff, !Z.leb_le, !Z.ltb_lt. lia.
Qed.

Lemma within_out first len x : x < first -> within first len x = false.
Proof. intros Hx. unfold within. by rewrite (proj2 (Z.leb_gt _ _)). Qed.

(** The loop over the ledgers from [s0 + k] on. *)
Lemma add_blooms_spec lm s0 last k len bin h :
  getLedgerBySeq lm = chain -> gen_ok bin -> 0 <= s0 -> 0 <= k -> k + Z.of_nat len <= 4096 -> s0 + 4096 < 2 ^ 32 ->
  (forall i, 0 <= i < 4096 -> is_Some (chain (s0 + i))) ->
  exists bin' h', add_blooms lm s0 last (seqZ (s0 + k) (Z.of_nat len)) bin h = Some (bin', h') /\ gen_ok bin' /\
    (forall n idx, 0 <= n < 2048 -> 0 <= idx < 4096 ->
       gen_bit bin' n idx = gen_bit bin n idx || (within k (Z.of_nat len) idx && chain_bit (s0 + idx) n)) /\
    h' = match chain last with Some l => if within (s0 + k) (Z.of_nat len) last then bl_hash l else h | None => h end.
Proof.
  intros Hlm Hbin Hs0. revert k bin h Hbin. induction len as [|len IH]; intros k bin h Hbin Hk Hlen Hs Hc.
  - exists bin, h. assert (forall a x, within a 0 x = false) as H0.
    { intros. unfold within. apply andb_false_iff. btests. lia. }
    split; [done|]. split; [done|]. simpl. split; [intros; rewrite H0; by rewrite orb_false_r|].
    rewrite H0. by destruct (chain last).
  - rewrite seqZ_cons by lia. cbn [add_blooms]. rewrite Hlm. destruct (Hc k ltac:(lia)) as [l El]. rewrite El. cbn [mbind option_bind].
    rewrite u32_small by lia. replace (s0 + k - s0) with k by lia.
    destruct (IH (k + 1) (addBloom k (bl_bloom l) bin) (if s0 + k =? last then bl_hash l else h))
      as (bin' & h' & E & Hok' & Hb' & Hh'); [by apply (addBloom_bit k (bl_bloom l) bin 0 0); lia || done | lia | lia | done | done|].
    exists bin', h'. replace (Z.succ (s0 + k)) with (s0 + (k + 1)) by lia.
    replace (Z.pred (Z.of_nat (S len))) with (Z.of_nat len) by lia. split; [done|]. split; [done|].
    replace (Z.of_nat (S len)) with (Z.of_nat len + 1) by lia. split.
    + intros n idx Hn Hidx. rewrite Hb', within_succ by lia.
      rewrite (proj2 (addBloom_bit k (bl_bloom l) bin n idx Hbin ltac:(lia) Hn Hidx)), <- orb_assoc. f_equal.
      unfold chain_bit. destruct (Z.eqb_spec idx k) as [->|Hne]; [|done]. rewrite El, within_out by lia. by rewrite orb_false_r.
    + rewrite Hh', within_succ, Z.add_assoc by lia. rewrite (Z.eqb_sym last).
      destruct (Z.eqb_spec (s0 + k) last) as [<-|Hne]; [|done]. rewrite El, within_out by lia. done.
Qed.

(** The loop that stores the vectors of a section. *)
Lemma store_bits_spec s h bin bits db :
  gen_ok bin -> NoDup bits -> (forall n, n ∈ bits -> 0 <= n < 2048) ->
  (forall n n', n ∈ bits -> n' ∈ bits -> bloomBitsKey n s h = bloomBitsKey n' s h -> n = n') ->
  exists db', store_bits s h bin bits db = Some db' /\
    (forall n, n ∈ bits -> exists e, db' !! bloomBitsKey n s h = Some e /\ getVL e = Some (bitSet n bin, [])) /\
    (forall key, (forall n, n ∈ bits -> key <> bloomBitsKey n s h) -> db' !! key = db !! key).
Proof.
  intros Hbin. revert db. induction bits as [|n bits IH]; intros db Hnd Hb Hinj; cbn [store_bits].
  - exists db. split; [done|]. split; [|done]. intros n Hn. by apply elem_of_nil in Hn.
  - apply NoDup_cons in Hnd as [Hnot Hnd].
    destruct (gen_row bin n Hbin ltac:(apply Hb; by left)) as (row & Er & Hl & _).
    assert (bitSet n bin = row) as Ebs by (unfold bitSet; by rewrite Er).
    destruct (addVL_getVL (bitSet n bin) []) as (e & -> & He); [rewrite Ebs; lia|]. cbn [mbind option_bind app].
    destruct (IH (<[bloomBitsKey n s h := e]> db)) as (db' & -> & H1 & H2); [done | set_solver | set_solver|].
    exists db'. split; [done|]. split.
    + intros m [-> | Hm]%elem_of_cons; [|by apply H1]. exists e. split; [|by rewrite <- (app_nil_r e)].
      rewrite H2; [by rewrite lookup_insert_eq|]. intros m Hm Ek. apply Hinj in Ek; [by subst | by left | by right].
    + intros key Hkey. rewrite H2 by (intros; apply Hkey; by right). rewrite lookup_insert_ne; [done|].
      intros E. by apply (Hkey n); [left|].
Qed.

(** No two vectors that may be stored share a key, nor has one that of the count. *)
Definition keys_distinct : Prop :=
  forall s s' n n' l l', sec_in_range s -> sec_in_range s' -> 0 <= n < 2048 -> 0 <= n' < 2048 ->
    last_ledger s = Some l -> last_ledger s' = Some l' ->
    (bloomBitsKey n s (bl_hash l) = bloomBitsKey n' s' (bl_hash l') -> n = n' /\ s = s') /\
    bloomBitsKey n s (bl_hash l) <> bloomSectionCountKey.

(** The vector the index should hold for bit [n] of section [s]. *)
Definition is_row (s n : Z) (row : Bytes) : Prop :=
  length row = 512%nat /\ Forall is_byte row /\
  forall idx, 0 <= idx < 4096 -> blob_bit row idx = chain_bit (sec_start s + idx) n.

(** What the indexer and the store hold: the count and the vectors of the sections that
    are stored, and nothing of the others. *)
Record Indexed (bi : BloomIndexer) (db : NodeStore) : Prop := {
  ix_start : bi_bloomStartSeq bi = Some start;
  ix_range : 0 <= start /\ 0 <= storedSections_ bi /\ sec_start (storedSections_ bi) < 2 ^ 32;
  ix_count : db !! bloomSectionCountKey = if storedSections_ bi =? 0 then None else Some (add32 (storedSections_ bi) []);
  ix_rows : forall s n, 0 <= s < storedSections_ bi -> 0 <= n < 2048 ->
    exists l e row, last_ledger s = Some l /\ db !! bloomBitsKey n s (bl_hash l) = Some e /\
      getVL e = Some (row, []) /\ is_row s n row;
  ix_none : forall s n l, storedSections_ bi <= s -> sec_in_range s -> 0 <= n < 2048 -> last_ledger s = Some l ->
    db !! bloomBitsKey n s (bl_hash l) = None
}.

(** A view of the chain: the ranges said to be complete are there. *)
Definition view_of (lm : LedgerMaster) : Prop :=
  getLedgerBySeq lm = chain /\
  Forall (fun '(lower, upper) => forall seq, lower <= seq <= upper -> is_Some (chain seq)) (mCompleteLedgers lm).

Lemma haveLedger_chain lm a b seq : view_of lm -> haveLedger lm a b = true -> a <= seq <= b -> is_Some (chain seq).
Proof.
  intros [_ Hc] Hh Hs. unfold haveLedger in Hh. apply existsb_exists in Hh as ([lo up] & Hin & Hb). btests.
  rewrite Forall_forall in Hc. apply (Hc (lo, up)); [by apply list_elem_of_In | lia].
Qed.

Lemma section_in_stored bi s :
  0 <= start /\ 0 <= storedSections_ bi /\ sec_start (storedSections_ bi) < 2 ^ 32 -> 0 <= s < storedSections_ bi -> sec_in_range s.
Proof. unfold sec_in_range, sec_start. lia. Qed.

(** A section is stored whole or not at all. *)
Lemma processSection_spec lm bi db s :
  keys_distinct -> view_of lm -> bi_bloomStartSeq bi = Some start -> sec_in_range s ->
  (haveLedger lm (sec_start s) (sec_start (s + 1) - 1) = false /\ processSection lm bi s db = Some (false, db)) \/
  exists db' l, processSection lm bi s db = Some (true, db') /\ last_ledger s = Some l /\
    (forall n, 0 <= n < 2048 -> exists e row, db' !! bloomBitsKey n s (bl_hash l) = Some e /\
       getVL e = Some (row, []) /\ is_row s n row) /\
    (forall key, (forall n, 0 <= n < 2048 -> key <> bloomBitsKey n s (bl_hash l)) -> db' !! key = db !! key).
Proof.
  intros Hk Hv Hst Hr. unfold processSection. rewrite (section_range bi s Hst Hr). cbn [mbind option_bind].
  destruct (haveLedger _ _ _) eqn:Hh; simpl negb; cbv iota; [right | by left].
  destruct Hr as (Hr0 & Hr1 & Hr2) eqn:EHr. unfold u32_loop.
  assert (sec_start (s + 1) = sec_start s + 4096) as Es by (unfold sec_start; lia). assert (0 <= sec_start s) by (unfold sec_start; lia).
  destruct (Z.eqb_spec (sec_start (s + 1) - 1) (2 ^ 32 - 1)); [lia|]. cbn [mbind option_bind].
  replace (sec_start (s + 1) - 1 - sec_start s + 1) with (Z.of_nat 4096) by lia.
  assert (forall i, 0 <= i < 4096 -> is_Some (chain (sec_start s + i))) as Hc.
  { intros i Hi. apply (haveLedger_chain lm _ _ _ Hv Hh). lia. }
  destruct (add_blooms_spec lm (sec_start s) (sec_start (s + 1) - 1) 0 4096 BloomGenerator_new 0) as (bin & h & E & Hok & Hbits & Hh');
    [apply Hv | apply BloomGenerator_new_ok | done | done | lia | lia | done|].
  rewrite Z.add_0_r in E, Hh'. rewrite E. cbn [mbind option_bind].
  destruct (Hc 4095 ltac:(lia)) as [l Hl]. replace (sec_start s + 4095) with (sec_start (s + 1) - 1) in Hl by lia.
  rewrite Hl in Hh'. replace (within _ _ _) with true in Hh'; [subst h|by unfold within; symmetry; btests; lia].
  destruct (store_bits_spec s (bl_hash l) bin (seqZ 0 BLOOM_LENGTH) db Hok (NoDup_seqZ _ _)) as (db' & -> & H1 & H2).
  { intros m Hm%elem_of_seqZ. unfold BLOOM_LENGTH in Hm. lia. }
  { intros m m' Hm%elem_of_seqZ Hm'%elem_of_seqZ Ek. unfold BLOOM_LENGTH in *.
    apply (Hk s s m m' l l) in Ek as [-> _]; [done | done | done | lia | lia | done | done]. }
  exists db', l. split; [done|]. split; [done|]. split.
  - intros n' Hn'. destruct (H1 n') as (e & He & Hg); [apply elem_of_seqZ; unfold BLOOM_LENGTH; lia|].
    exists e, (bitSet n' bin). split; [done|]. split; [done|].
    destruct (gen_row bin n' Hok Hn') as (row & Er & Hlen & Hby).
    assert (bitSet n' bin = row) as Ebs by (unfold bitSet; by rewrite Er).
    split; [by rewrite Ebs|]. split; [by rewrite Ebs|]. intros idx Hidx.
    change (gen_bit bin n' idx = chain_bit (sec_start s + idx) n'). rewrite Hbits, gen_bit_new by done.
    replace (within 0 _ idx) with true; [done|]. unfold within. symmetry. btests. lia.
  - intros key Hkey. apply H2. intros n' Hn'%elem_of_seqZ. apply Hkey. unfold BLOOM_LENGTH in Hn'. lia.
Qed.

Definition Index_ok (st : BloomIndexer * NodeStore) : Prop :=
  Indexed st.1 st.2 /\ 0 <= knownSections_ st.1 /\ sec_start (knownSections_ st.1) < 2 ^ 32.

Lemma index_next bi db db' l :
  keys_distinct -> Indexed bi db -> sec_in_range (storedSections_ bi) -> last_ledger (storedSections_ bi) = Some l ->
  (forall n, 0 <= n < 2048 -> exists e row, db' !! bloomBitsKey n (storedSections_ bi) (bl_hash l) = Some e /\
     getVL e = Some (row, []) /\ is_row (storedSections_ bi) n row) ->
  (forall key, (forall n, 0 <= n < 2048 -> key <> bloomBitsKey n (storedSections_ bi) (bl_hash l)) -> db' !! key = db !! key) ->
  Indexed (set_storedSections (storedSections_ bi + 1) bi) (saveStoredSection (storedSections_ bi + 1) db').
Proof.
  intros Hk [Hst Hrg Hct Hrows Hnone] Hr Hl Hnew Hold. set (s := storedSections_ bi) in *.
  assert (forall s' n l', s' <> s -> sec_in_range s' -> 0 <= n < 2048 -> last_ledger s' = Some l' ->
    saveStoredSection (s + 1) db' !! bloomBitsKey n s' (bl_hash l') = db !! bloomBitsKey n s' (bl_hash l')) as Hother.
  { intros s' n l' Hne Hr' Hn Hl'. unfold saveStoredSection. destruct (Hk s' s n 0 l' l) as [_ Hc]; [done..| |done|done|]; [lia|].
    rewrite lookup_insert_ne by done. apply Hold. intros n' Hn' Ek.
    by destruct (Hk s' s n n' l' l) as [Hi _]; [..|destruct (Hi Ek)]. }
  split; simpl; fold s.
  - done.
  - unfold sec_in_range in Hr. lia.
  - unfold saveStoredSection. rewrite lookup_insert_eq. by destruct (Z.eqb_spec (s + 1) 0); [lia|].
  - intros s' n Hs' Hn. destruct (decide (s' = s)) as [->|Hne].
    + destruct (Hnew n Hn) as (e & row & He & Hg & Hrow). exists l, e, row. split; [done|]. split; [|done].
      unfold saveStoredSection. rewrite lookup_insert_ne; [done|].
      destruct (Hk s s n 0 l l) as [_ Hc]; [done..| |done|done|]; [lia | done].
    + destruct (Hrows s' n ltac:(lia) Hn) as (l' & e & row & Hl' & He & Hg & Hrow). exists l', e, row.
      split; [done|]. split; [|done]. rewrite Hother; [done | done | by apply (section_in_stored bi); [|lia] | done | done].
  - intros s' n l' Hs' Hr' Hn Hl'. rewrite Hother by (done || lia). apply (Hnone s'); (done || lia).
Qed.

Lemma processSections_ok lm bi db :
  keys_distinct -> view_of lm -> Index_ok (bi, db) ->
  exists bi' db', processSections lm bi db = Some (bi', db') /\ Index_ok (bi', db') /\
    storedSections_ bi <= storedSections_ bi' /\
    (storedSections_ bi' < knownSections_ bi ->
       haveLedger lm (sec_start (storedSections_ bi')) (sec_start (storedSections_ bi' + 1) - 1) = false).
Proof.
  intros Hk Hv [Hix [Hk0 Hkr]]. unfold processSections. simpl in Hix, Hk0, Hkr.
  remember (Z.to_nat (knownSections_ bi - storedSections_ bi)) as m eqn:Em.
  revert bi db Em Hix Hk0 Hkr. induction m as [|m IH]; intros bi db Em Hix Hk0 Hkr; cbn [sections_loop].
  - exists bi, db. split; [done|]. split; [done|]. lia.
  - pose proof (ix_range _ _ Hix) as (Hs0 & Hs1 & _).
    assert (sec_in_range (storedSections_ bi)) as Hr by (unfold sec_in_range, sec_start in *; lia).
    destruct (processSection_spec lm bi db (storedSections_ bi) Hk Hv (ix_start _ _ Hix) Hr)
      as [[Hno ->]|(db' & l & -> & Hl & Hnew & Hold)]; cbn [mbind option_bind negb].
    + exists bi, db. split; [done|]. split; [done|]. split; [lia|]. by intros _.
    + assert (u32 (storedSections_ bi + 1) = storedSections_ bi + 1) as Eu.
      { apply u32_small. unfold sec_in_range, sec_start in Hr. lia. }
      rewrite Eu. cbn [storedSections_ set_storedSections].
      destruct (IH (set_storedSections (storedSections_ bi + 1) bi) (saveStoredSection (storedSections_ bi + 1) db'))
        as (bi' & db2 & E & Hok & Hle & Hstop); [simpl; lia | by eapply index_next | done | done|].
      exists bi', db2. split; [exact E|]. split; [done|]. simpl in Hle. split; [lia | exact Hstop].
Qed.

(** What happens to the indexer: ledgers from the first on are published, the job runs on
    a view of the chain, the node restarts. *)
Inductive index_step : BloomIndexer * NodeStore -> BloomIndexer * NodeStore -> Prop :=
| index_publish seq bi db : start <= seq < 2 ^ 32 - 1 -> index_step (bi, db) ((onPubLedger seq bi).2, db)
| index_process lm bi db st : view_of lm -> processSections lm bi db = Some st -> index_step (bi, db) st
| index_restart bi db bi' : BloomIndexer_init (Some start) db BloomIndexer_new = Some bi' -> index_step (bi, db) (bi', db).

Lemma restart_ok bi db :
  Indexed bi db -> exists bi', BloomIndexer_init (Some start) db BloomIndexer_new = Some bi' /\
    Indexed bi' db /\ storedSections_ bi' = storedSections_ bi /\ knownSections_ bi' = 0.
Proof.
  intros Hix. pose proof Hix as [Hst Hrg Hct Hrows Hnone]. unfold BloomIndexer_init, readStoredSection. simpl.
  rewrite Hct. destruct (Z.eqb_spec (storedSections_ bi) 0) as [E0|E0].
  - exists (setBloomStartSeq (Some start) BloomIndexer_new). split; [done|]. simpl. split; [|by rewrite E0].
    rewrite E0 in *. split; simpl; [done | lia | by rewrite Hct | lia | done].
  - rewrite add32_be. cbn [app]. rewrite <- (app_nil_r (be_bytes 4 _)), get32_be by (unfold sec_start in Hrg; lia). simpl.
    eexists. split; [done|]. split; [|done]. split; simpl; [done | done | | done | done]. rewrite Hct. by destruct (Z.eqb_spec (storedSections_ bi) 0); [|rewrite add32_be].
Qed.

Lemma publish_ok seq bi db :
  Index_ok (bi, db) -> start <= seq < 2 ^ 32 - 1 ->
  Index_ok ((onPubLedger seq bi).2, db) /\ storedSections_ (onPubLedger seq bi).2 = storedSections_ bi /\
  knownSections_ (onPubLedger seq bi).2 = (seq - start + 1) / 4096.
Proof.
  intros [Hix Hkn] Hs. simpl in *. unfold onPubLedger, DEFAULT_SECTION_SIZE. rewrite (ix_start _ _ Hix). simpl.
  pose proof (ix_range _ _ Hix) as Hr. rewrite u32_small by lia. split; [|done]. split; simpl.
  - destruct Hix. by split.
  - unfold sec_start. dlia.
Qed.

Lemma index_step_ok st st' :
  keys_distinct -> Index_ok st -> index_step st st' -> Index_ok st' /\ storedSections_ st.1 <= storedSections_ st'.1.
Proof.
  intros Hk Hok Hst. destruct Hst as [seq bi db Hs | lm bi db st Hv E | bi db bi' E].
  - destruct (publish_ok seq bi db Hok Hs) as (H1 & H2 & _). split; [done|]. simpl. lia.
  - destruct (processSections_ok lm bi db Hk Hv Hok) as (bi' & db' & E' & H1 & H2 & _). by simplify_eq.
  - destruct (restart_ok bi db) as (bi2 & E' & H1 & H2 & H3); [apply Hok|]. simplify_eq. simpl. split; [|lia].
    split; [done|]. simpl. rewrite H3. pose proof (ix_range _ _ H1). unfold sec_start. split; [done|].
    destruct Hok as [Hix _]. pose proof (ix_range _ _ Hix) as Hr. unfold sec_start in Hr. simpl in Hr. lia.
Qed.

(** ** Reading the index *)

Lemma getBloomBits_stored lm db bi n s :
  getLedgerBySeq lm = chain -> Indexed bi db -> 0 <= s < storedSections_ bi -> 0 <= n < 2048 ->
  exists row, getBloomBits lm db bi n s = Some row /\ is_row s n row.
Proof.
  intros Hlm Hix Hs Hn. destruct (ix_rows _ _ Hix s n Hs Hn) as (l & e & row & Hl & He & Hg & Hrow). exists row. split; [|done].
  unfold getBloomBits. rewrite (ix_start _ _ Hix).
  rewrite (section_range bi s (ix_start _ _ Hix)) by (apply (section_in_stored bi); [apply (ix_range _ _ Hix) | done]).
  cbn [mbind option_bind]. rewrite Hlm. fold (last_ledger s). by rewrite Hl, He, Hg.
Qed.

Lemma getBloomBits_none lm db bi n s :
  getLedgerBySeq lm = chain -> Indexed bi db -> storedSections_ bi <= s -> sec_in_range s -> 0 <= n < 2048 ->
  getBloomBits lm db bi n s = Some [].
Proof.
  intros Hlm Hix Hs Hr Hn. unfold getBloomBits. rewrite (ix_start _ _ Hix).
  rewrite (section_range bi s (ix_start _ _ Hix) Hr). cbn [mbind option_bind]. rewrite Hlm. fold (last_ledger s).
  destruct (last_ledger s) as [l|] eqn:E; [|done]. by rewrite (ix_none _ _ Hix s n l).
Qed.

End Index.
