(* ===== verification/MatcherProps.v ===== *)
(** * What the search in the bit vectors finds

    Under the invariant of the index, [Matcher] returns the ledgers of a range whose
    filters have the bits that are looked for, provided the first indexed ledger is a
    multiple of 8. *)

From S2P Require Import Prelude Serializer Hex ShaMapNode Bloom LogFilter BloomProps.

#[local] Open Scope Z_scope.

(** ** Ranges of ledgers *)

Definition range (first last : Z) : list Z := seqZ first (last - first + 1).

Lemma elem_of_range x first last : x ∈ range first last <-> first <= x <= last.
Proof. unfold range. rewrite elem_of_seqZ. lia. Qed.

Lemma range_nil first last : last < first -> range first last = [].
Proof. intros Hl. unfold range. apply seqZ_nil. lia. Qed.

Lemma range_cons first last : first <= last -> range first last = first :: range (first + 1) last.
Proof. intros Hl. unfold range. rewrite seqZ_cons by lia. f_equal. f_equal; lia. Qed.

Lemma range_split first mid last : first <= mid + 1 <= last + 1 -> range first last = range first mid ++ range (mid + 1) last.
Proof.
  intros Hm. unfold range. replace (last - first + 1) with ((mid - first + 1) + (last - (mid + 1) + 1)) by lia.
  rewrite seqZ_app by lia. f_equal. f_equal. lia.
Qed.

Lemma filter_none (P : Z -> bool) (l : list Z) : (forall x, x ∈ l -> P x = false) -> filter (fun x => P x = true) l = [].
Proof.
  induction l as [|x l IH]; intros HP; [done|]. rewrite filter_cons, decide_False by (rewrite HP; [done | by left]).
  apply IH. intros. apply HP. by right.
Qed.

Lemma filter_same (P Q : Z -> bool) (l : list Z) :
  (forall x, x ∈ l -> P x = Q x) -> filter (fun x => P x = true) l = filter (fun x => Q x = true) l.
Proof.
  induction l as [|x l IH]; intros HP; [done|]. rewrite !filter_cons, HP by (by left).
  rewrite IH; [done|]. intros. apply HP. by right.
Qed.

(** Numbers that do not match can be skipped. *)
Lemma range_skip (P : Z -> bool) i i' last :
  i <= i' -> (forall j, i <= j < i' -> j <= last -> P j = false) ->
  filter (fun x => P x = true) (range i last) = filter (fun x => P x = true) (range i' last).
Proof.
  intros Hi HP. destruct (decide (i' <= last)) as [Hl|Hl].
  - rewrite (range_split i (i' - 1) last) by lia. rewrite filter_app, filter_none.
    + by replace (i' - 1 + 1) with i' by lia.
    + intros x Hx%elem_of_range. apply HP; lia.
  - rewrite (range_nil i') by lia. apply filter_none. intros x Hx%elem_of_range. apply HP; lia.
Qed.

(** ** Vectors *)

(** The vector of a section whose bits tell which ledgers satisfy [P]. *)
Definition is_blob (s0 : Z) (P : Z -> bool) (blob : Bytes) : Prop :=
  length blob = 512%nat /\ Forall is_byte blob /\ forall idx, 0 <= idx < 4096 -> blob_bit blob idx = P (s0 + idx).

Lemma is_blob_nonempty s0 P blob : is_blob s0 P blob -> blob <> [].
Proof. intros [Hl _] ->. done. Qed.

Lemma is_blob_ext s0 P Q blob : (forall x, P x = Q x) -> is_blob s0 P blob -> is_blob s0 Q blob.
Proof. intros E (H1 & H2 & H3). split; [done|]. split; [done|]. intros idx Hidx. by rewrite <- E, H3. Qed.

Lemma byte_at_zip f a b i :
  length a = length b -> 0 <= i < Z.of_nat (length a) -> byte_at (zip_with f a b) i = f (byte_at a i) (byte_at b i).
Proof.
  intros Hl Hi. unfold byte_at. rewrite lookup_zip_with.
  destruct (lookup_lt_is_Some_2 a (Z.to_nat i)) as [x ->]; [lia|].
  destruct (lookup_lt_is_Some_2 b (Z.to_nat i)) as [y ->]; [lia|]. done.
Qed.

Lemma is_byte_land x y : is_byte x -> is_byte y -> is_byte (Z.land x y).
Proof.
  unfold is_byte. intros Hx Hy. split; [apply Z.land_nonneg; lia|].
  replace x with (x mod 2 ^ 8) by (apply Z.mod_small; lia). rewrite <- Z.land_ones by lia.
  rewrite <- Z.land_assoc, (Z.land_comm _ y), Z.land_assoc, Z.land_ones by lia. apply Z.mod_pos_bound. lia.
Qed.

Lemma zip_bytes f a b :
  (forall x y, is_byte x -> is_byte y -> is_byte (f x y)) -> Forall is_byte a -> Forall is_byte b -> Forall is_byte (zip_with f a b).
Proof.
  intros Hf Ha. revert b. induction Ha as [|x a Hx Ha IH]; intros b Hb; [constructor|].
  destruct Hb as [|y b Hy Hb]; [constructor|]. simpl. constructor; auto.
Qed.

Lemma AndBlob_spec s0 P Q a b :
  is_blob s0 P a -> is_blob s0 Q b -> exists c, AndBlob a b = Some c /\ is_blob s0 (fun x => P x && Q x) c.
Proof.
  intros (La & Ba & Ha) (Lb & Bb & Hb). unfold AndBlob. rewrite La, Lb. simpl. eexists. split; [done|].
  split; [by rewrite length_zip_with, La, Lb|]. split; [apply zip_bytes; auto using is_byte_land|].
  intros idx Hidx. unfold blob_bit. rewrite byte_at_zip, Z.land_spec by (rewrite ?La, ?Lb; done || dlia).
  by rewrite <- Ha, <- Hb.
Qed.

Lemma OrBlob_spec s0 P Q a b :
  is_blob s0 P a -> is_blob s0 Q b -> exists c, OrBlob a b = Some c /\ is_blob s0 (fun x => P x || Q x) c.
Proof.
  intros (La & Ba & Ha) (Lb & Bb & Hb). unfold OrBlob. rewrite La, Lb. simpl. eexists. split; [done|].
  split; [by rewrite length_zip_with, La, Lb|]. split; [apply zip_bytes; auto using is_byte_lor|].
  intros idx Hidx. unfold blob_bit. rewrite byte_at_zip, Z.lor_spec by (rewrite ?La, ?Lb; done || dlia).
  by rewrite <- Ha, <- Hb.
Qed.

Lemma zeros_blob s0 : is_blob s0 (fun _ => false) (replicate 512 0).
Proof.
  split; [done|]. split; [apply Forall_replicate; unfold is_byte; lia|]. intros idx _. unfold blob_bit.
  by rewrite byte_at_zeros, Z.bits_0.
Qed.

Lemma ones_blob s0 : is_blob s0 (fun _ => true) (replicate 512 255).
Proof.
  split; [done|]. split; [apply Forall_replicate; unfold is_byte; lia|]. intros idx Hidx. unfold blob_bit, byte_at.
  rewrite lookup_replicate_2 by dlia. cbn [default]. unfold id. change 255 with (Z.ones 8). apply Z.ones_spec_low. dlia.
Qed.

(** ** The search *)

Section Search.

Context {HA : Hashers} {HX : HexText} (chain : Z -> option Ledger) (start : Z) (lm : LedgerMaster) (db : NodeStore) (bm : BloomManager).
Context (Hlm : getLedgerBySeq lm = chain) (Hbm : bm_bloomStartSeq bm = Some start) (Hix : Indexed chain start (bloomIndexer bm) db).

Abbreviation stored := (storedSections_ (bloomIndexer bm)).
Abbreviation secs := (sec_start start).

(** The section of a ledger. *)
Definition sec_of (seq : Z) : Z := (seq - start) / 4096.

(** The ledger's filter has the bits of one of the indexes. *)
Definition bits_match (bloom : list (list Z)) (seq : Z) : bool := existsb (fun index => forallb (chain_bit chain seq) index) bloom.

Definition all_match (filters : list (list (list Z))) (seq : Z) : bool := forallb (fun bloom => bits_match bloom seq) filters.

(** Indexes are of bits of a filter, and there is no empty alternative. *)
Definition wf_index (index : list Z) : Prop := index <> [] /\ Forall (fun n => 0 <= n < 2048) index.
Definition wf_bloom (bloom : list (list Z)) : Prop := bloom <> [] /\ Forall wf_index bloom.

Lemma and_bits_spec s index acc P :
  0 <= s < stored -> Forall (fun n => 0 <= n < 2048) index -> is_blob (secs s) P acc ->
  exists c, and_bits lm db bm s index acc = Some c /\ is_blob (secs s) (fun x => P x && forallb (chain_bit chain x) index) c.
Proof.
  intros Hs Hb. revert acc P. induction Hb as [|n index Hn _ IH]; intros acc P Hacc; cbn [and_bits forallb].
  - exists acc. split; [done|]. eapply is_blob_ext; [|done]. intros x. by rewrite andb_true_r.
  - destruct (getBloomBits_stored chain start lm db (bloomIndexer bm) n s Hlm Hix Hs Hn) as (row & -> & Hrow). cbn [mbind option_bind].
    destruct (AndBlob_spec (secs s) P (fun x => chain_bit chain x n) acc row Hacc Hrow) as (c & E & Hc).
    destruct acc as [|a acc]; [by apply is_blob_nonempty in Hacc|]. rewrite E. cbn [mbind option_bind].
    destruct (IH c _ Hc) as (d & -> & Hd). exists d. split; [done|]. eapply is_blob_ext; [|done].
    intros x. simpl. by rewrite andb_assoc.
Qed.

Lemma and_bits_start s index :
  0 <= s < stored -> wf_index index ->
  exists c, and_bits lm db bm s index [] = Some c /\ is_blob (secs s) (fun x => forallb (chain_bit chain x) index) c.
Proof.
  intros Hs [Hne Hb]. destruct Hb as [|n index Hn Hb]; [done|]. cbn [and_bits].
  destruct (getBloomBits_stored chain start lm db (bloomIndexer bm) n s Hlm Hix Hs Hn) as (row & -> & Hrow). cbn [mbind option_bind].
  by apply (and_bits_spec s index row (fun x => chain_bit chain x n)).
Qed.

Lemma or_indexes_spec s bloom acc P :
  0 <= s < stored -> Forall wf_index bloom -> is_blob (secs s) P acc ->
  exists c, or_indexes lm db bm s bloom acc = Some c /\ is_blob (secs s) (fun x => P x || bits_match bloom x) c.
Proof.
  intros Hs Hb. revert acc P. induction Hb as [|index bloom Hi _ IH]; intros acc P Hacc; cbn [or_indexes].
  - exists acc. split; [done|]. eapply is_blob_ext; [|done]. intros x. by rewrite orb_false_r.
  - destruct (and_bits_start s index Hs Hi) as (row & -> & Hrow). cbn [mbind option_bind].
    destruct (OrBlob_spec (secs s) P _ acc row Hacc Hrow) as (c & E & Hc).
    destruct acc as [|a acc]; [by apply is_blob_nonempty in Hacc|]. rewrite E. cbn [mbind option_bind].
    destruct (IH c _ Hc) as (d & -> & Hd). exists d. split; [done|]. eapply is_blob_ext; [|done].
    intros x. simpl. by rewrite orb_assoc.
Qed.

Lemma or_indexes_start s bloom :
  0 <= s < stored -> wf_bloom bloom ->
  exists c, or_indexes lm db bm s bloom [] = Some c /\ is_blob (secs s) (bits_match bloom) c.
Proof.
  intros Hs [Hne Hb]. destruct Hb as [|index bloom Hi Hb]; [done|]. cbn [or_indexes].
  destruct (and_bits_start s index Hs Hi) as (row & -> & Hrow). cbn [mbind option_bind].
  by apply (or_indexes_spec s bloom row (fun x => forallb (chain_bit chain x) index)).
Qed.

(** Of a section that is not stored there is no vector. *)
Lemma or_indexes_none s bloom :
  stored <= s -> sec_in_range start s -> wf_bloom bloom -> or_indexes lm db bm s bloom [] = Some [].
Proof.
  intros Hs Hr [_ Hb]. assert (forall index, Forall (fun n => 0 <= n < 2048) index -> and_bits lm db bm s index [] = Some []) as Ha.
  { induction 1 as [|n index Hn _ IH]; [done|]. cbn [and_bits].
    by rewrite (getBloomBits_none chain start lm db (bloomIndexer bm) n s Hlm Hix Hs Hr Hn). }
  induction Hb as [|index bloom [_ Hi] _ IH]; [done|]. cbn [or_indexes]. by rewrite Ha.
Qed.

Context (m : Matcher) (Hm : sectionSize_ m = 4096).

(** Which ledgers a section's search should find. *)
Definition found (filters : list (list (list Z))) (s x : Z) : bool :=
  ((s <? stored) || bool_decide (filters = [])) && all_match filters x.

Lemma subMatch_spec s bloom next P :
  sec_in_range start s -> wf_bloom bloom -> is_blob (secs s) P next ->
  exists c, subMatch lm db bm m next s bloom = Some c /\ is_blob (secs s) (fun x => P x && ((s <? stored) && bits_match bloom x)) c.
Proof.
  intros Hr Hb Hn. unfold subMatch. rewrite Hm. change (Z.to_nat (4096 / 8)) with 512%nat.
  assert (exists o, (orResult ← or_indexes lm db bm s bloom []; Some (match orResult with [] => replicate 512 0 | _ => orResult end)) = Some o /\
    is_blob (secs s) (fun x => (s <? stored) && bits_match bloom x) o) as (o & Eo & Ho).
  { destruct (Z.ltb_spec s stored) as [Hs|Hs].
    - destruct (or_indexes_start s bloom) as (c & -> & Hc); [unfold sec_in_range in Hr; lia | done|]. cbn [mbind option_bind].
      exists c. split; [|done]. by destruct c; [apply is_blob_nonempty in Hc|].
    - rewrite or_indexes_none by done. cbn [mbind option_bind]. eexists. split; [done|]. apply zeros_blob. }
  destruct (or_indexes lm db bm s bloom []) as [r|]; [|done]. cbn [mbind option_bind] in *. apply (inj Some) in Eo. rewrite Eo.
  destruct next as [|b next]; [by apply is_blob_nonempty in Hn|].
  destruct (AndBlob_spec _ _ _ _ _ Ho Hn) as (c & -> & Hc). exists c. split; [done|]. eapply is_blob_ext; [|done].
  intros x. simpl. apply andb_comm.
Qed.

Lemma match_filters_spec s filters next P :
  sec_in_range start s -> Forall wf_bloom filters -> is_blob (secs s) P next ->
  exists c, match_filters lm db bm m s filters next = Some c /\ is_blob (secs s) (fun x => P x && found filters s x) c.
Proof.
  intros Hr Hf. revert next P. induction Hf as [|bloom filters Hb Hf IH]; intros next P Hn; cbn [match_filters].
  - exists next. split; [done|]. eapply is_blob_ext; [|done]. intros x. unfold found. by rewrite orb_true_r, andb_true_r.
  - destruct (subMatch_spec s bloom next P Hr Hb Hn) as (c & -> & Hc). cbn [mbind option_bind].
    destruct (IH c _ Hc) as (d & -> & Hd). exists d. split; [done|]. eapply is_blob_ext; [|done].
    intros x. simpl. unfold found. simpl. rewrite orb_false_r. rewrite <- !andb_assoc. f_equal.
    destruct (s <? stored); simpl; [done|]. done.
Qed.

(** ** The walk over a section *)

Lemma location i s : sec_in_range start s -> secs s <= i < secs (s + 1) ->
  getLedgerLocation bm i = Some (s, (i - secs s) / 8, 7 - (i - secs s) mod 8).
Proof.
  intros (H0 & H1 & H2) Hi. unfold getLedgerLocation, getSectionBySeq, DEFAULT_SECTION_SIZE. rewrite Hbm. cbn [mbind option_bind].
  unfold sec_start in *. rewrite (u32_small (i - start)) by lia. replace ((i - start) / 4096) with s by dlia.
  by rewrite u32_small by lia.
Qed.

(** The byte of a ledger is 0 exactly when no ledger of the byte satisfies [P]. *)
Lemma byte_zero s P blob i j :
  is_blob (secs s) P blob -> secs s <= i < secs (s + 1) -> byte_at blob ((i - secs s) / 8) = 0 ->
  secs s <= j < secs (s + 1) -> (j - secs s) / 8 = (i - secs s) / 8 -> P j = false.
Proof.
  intros (_ & _ & Hb) Hi H0 Hj E. specialize (Hb (j - secs s) ltac:(unfold sec_start in *; lia)).
  unfold blob_bit in Hb. rewrite E, H0, Z.bits_0 in Hb. by replace (secs s + (j - secs s)) with j in Hb by lia.
Qed.

Lemma blob_lookup s P blob i :
  is_blob (secs s) P blob -> secs s <= i < secs (s + 1) ->
  blob !! Z.to_nat ((i - secs s) / 8) = Some (byte_at blob ((i - secs s) / 8)).
Proof.
  intros (Hl & _) Hi. unfold byte_at. destruct (lookup_lt_is_Some_2 blob (Z.to_nat ((i - secs s) / 8))) as [x ->]; [|done].
  rewrite Hl. unfold sec_start in *. dlia.
Qed.

Lemma tested_bit x k : 0 <= k -> negb (Z.land x (Z.shiftl 1 k) =? 0) = Z.testbit x k.
Proof.
  intros Hk. destruct (Z.testbit x k) eqn:E.
  - apply negb_true_iff, Z.eqb_neq. intros E0. apply (f_equal (fun z => Z.testbit z k)) in E0.
    by rewrite Z.land_spec, E, testbit_one, Z.eqb_refl, Z.bits_0 in E0.
  - apply negb_false_iff, Z.eqb_eq, Z.bits_inj'. intros i Hi. rewrite Z.land_spec, testbit_one, Z.bits_0 by done.
    destruct (Z.eqb_spec i k) as [->|]; [by rewrite E | apply andb_false_r].
Qed.

(** When the first indexed ledger is a multiple of 8, the walk finds the ledgers whose bits
    are set. *)
Lemma scan_spec s P blob last fuel i :
  start mod 8 = 0 -> sec_in_range start s -> is_blob (secs s) P blob -> secs s <= i -> last < secs (s + 1) -> last + 8 < 2 ^ 32 ->
  last - i + 1 <= Z.of_nat fuel ->
  scan bm fuel i last blob = Some (filter (fun x => P x = true) (range i last)).
Proof.
  intros Ha Hr Hblob. revert i. induction fuel as [|fuel IH]; intros i Hi Hlast Hbig Hfuel; cbn [scan].
  { destruct (Z.leb_spec i last); [lia | by rewrite range_nil]. }
  destruct (Z.leb_spec i last) as [Hle|Hgt]; [|by rewrite range_nil].
  rewrite (location i s) by (done || lia). cbn [mbind option_bind]. rewrite (blob_lookup s P) by (done || lia). cbn [mbind option_bind].
  assert (0 <= i) by (unfold sec_in_range, sec_start in *; lia).
  destruct (Z.eqb_spec (byte_at blob ((i - secs s) / 8)) 0) as [E0|_].
  - destruct (Z.eqb_spec (i mod 8) 0) as [E8|_].
    + rewrite !u32_small by (rewrite ?u32_small; lia). rewrite IH by lia. f_equal. symmetry. apply range_skip; [lia|].
      intros j Hj Hjl. apply (byte_zero s P blob i); [done | lia | done | lia|]. unfold sec_start in *. dlia.
    + rewrite u32_small by lia. rewrite IH by lia. f_equal. symmetry. apply range_skip; [lia|].
      intros j Hj Hjl. replace j with i by lia. by apply (byte_zero s P blob i); lia || done.
  - rewrite u32_small by lia. rewrite IH by lia. cbn [mbind option_bind]. rewrite tested_bit by dlia.
    rewrite (range_cons i) by done. rewrite filter_cons. destruct Hblob as (_ & _ & Hb).
    specialize (Hb (i - secs s) ltac:(unfold sec_start in *; lia)). replace (secs s + (i - secs s)) with i in Hb by lia.
    unfold blob_bit in Hb. rewrite Hb. by destruct (P i).
Qed.

Lemma byte_all_zero s P blob b :
  is_blob (secs s) P blob -> 0 <= b < 512 -> (forall i, secs s + 8 * b <= i < secs s + 8 * b + 8 -> P i = false) -> byte_at blob b = 0.
Proof.
  intros (Hl & Hby & Hb) Hr HP. pose proof (byte_at_bound blob b Hby) as Hbound. apply Z.bits_inj'. intros n Hn. rewrite Z.bits_0.
  destruct (decide (n < 8)) as [H8|H8].
  - specialize (Hb (8 * b + (7 - n)) ltac:(lia)). rewrite HP in Hb by lia. unfold blob_bit in Hb.
    replace ((8 * b + (7 - n)) / 8) with b in Hb by dlia. by replace (7 - (8 * b + (7 - n)) mod 8) with n in Hb by dlia.
  - replace (byte_at blob b) with (byte_at blob b mod 2 ^ 8) by (apply Z.mod_small; lia). by rewrite Z.mod_pow2_bits_high by lia.
Qed.

(** At a multiple of 8 whose byte is empty the walk goes on eight ledgers later. *)
Lemma scan_skip s P blob fuel i j last :
  sec_in_range start s -> is_blob (secs s) P blob -> secs s + 8 * ((j - secs s) / 8) <= i <= j -> secs s <= j < secs (s + 1) -> j <= last <= j + 7 ->
  last + 8 < 2 ^ 32 -> j mod 8 = 0 -> byte_at blob ((j - secs s) / 8) = 0 -> last - i + 1 <= Z.of_nat fuel -> scan bm fuel i last blob = Some [].
Proof.
  intros Hr Hb Hi Hj Hl Hbig H8 H0. assert (0 <= i) by (unfold sec_in_range, sec_start in *; dlia).
  revert i H Hi. induction fuel as [|fuel IH]; intros i H Hi Hf; [lia|]. cbn [scan].
  rewrite (proj2 (Z.leb_le i last)), (location i s) by (done || dlia). cbn [mbind option_bind].
  rewrite (blob_lookup s P) by (done || dlia). cbn [mbind option_bind]. replace ((i - secs s) / 8) with ((j - secs s) / 8) by dlia.
  rewrite H0. cbn [Z.eqb]. destruct (Z.eqb_spec (i mod 8) 0) as [E|E].
  - assert (i = j) as -> by dlia. rewrite !u32_small by (rewrite ?u32_small; lia).
    destruct fuel; cbn [scan]; by rewrite (proj2 (Z.leb_gt (j + 7 + 1) last)) by lia.
  - assert (i <> j) by congruence. rewrite u32_small by lia. apply IH; lia.
Qed.

(** ** Ranges of sections *)

Context (Hwf : Forall wf_bloom (filters_ m)).

(** When no ledger of the byte that holds [j] matches, [j] being a multiple of 8, a search
    that starts in this byte and comes to [j] finds nothing up to [j + 7], although these
    ledgers may be of the next byte. *)
Lemma execute_skips from to j s :
  sec_in_range start s -> secs s <= j -> secs s + 8 * ((j - secs s) / 8) <= from <= j -> j <= to <= j + 7 -> to < secs (s + 1) ->
  j mod 8 = 0 -> j + 15 < 2 ^ 32 ->
  (forall i, secs s + 8 * ((j - secs s) / 8) <= i < secs s + 8 * ((j - secs s) / 8) + 8 -> all_match (filters_ m) i = false) ->
  execute lm db bm m from to = Some [].
Proof.
  intros Hr Hj Hfrom Hto Hj7 Hj8 Hbig Hmiss. pose proof Hr as (Hr0 & Hr1 & Hr2). assert (secs s <= from) by dlia.
  unfold execute, getSectionBySeq, DEFAULT_SECTION_SIZE. rewrite Hbm. cbn [mbind option_bind].
  rewrite !u32_small by (unfold sec_start in *; lia).
  replace ((from - start) / 4096) with s by (unfold sec_start in *; dlia).
  replace ((to - start) / 4096) with s by (unfold sec_start in *; dlia).
  unfold u32_loop. destruct (Z.eqb_spec s (2 ^ 32 - 1)); [unfold sec_start in *; lia|]. cbn [mbind option_bind].
  replace (s - s + 1) with 1 by lia. rewrite (seqZ_cons s 1), (seqZ_nil _ (Z.pred 1)) by lia. cbn [all_sections].
  unfold section_ledgers. rewrite Hm. change (Z.to_nat (4096 / 8)) with 512%nat.
  destruct (match_filters_spec s (filters_ m) (replicate 512 255) (fun _ => true) Hr Hwf (ones_blob _)) as (c & E & Hc).
  rewrite E. cbn [mbind option_bind]. rewrite (section_range start (bloomIndexer bm) s (ix_start _ _ _ _ Hix) Hr). cbn [mbind option_bind].
  replace (if secs s <? from then from else secs s) with from by (destruct (Z.ltb_spec (secs s) from); lia).
  replace (if to <? secs (s + 1) - 1 then to else secs (s + 1) - 1) with to by (destruct (Z.ltb_spec to (secs (s + 1) - 1)); lia).
  rewrite (scan_skip s _ c _ from j to Hr Hc); try lia; [done|].
  apply (byte_all_zero s _ c _ Hc); [unfold sec_start in *; dlia|]. intros i Hi. unfold found. by rewrite Hmiss, andb_false_r.
Qed.

Context (Halign : start mod 8 = 0).

(** The ledgers the search should find. *)
Definition hit (x : Z) : bool := found (filters_ m) (sec_of x) x.

Lemma section_ledgers_spec from to s :
  sec_in_range start s -> 0 <= from -> to + 8 < 2 ^ 32 -> secs (s + 1) + 8 < 2 ^ 32 ->
  section_ledgers lm db bm m from to s =
    Some (filter (fun x => hit x = true) (range (Z.max from (secs s)) (Z.min to (secs (s + 1) - 1)))).
Proof.
  intros Hr Hf Ht Hs. unfold section_ledgers. rewrite Hm. change (Z.to_nat (4096 / 8)) with 512%nat.
  destruct (match_filters_spec s (filters_ m) (replicate 512 255) (fun _ => true) Hr Hwf (ones_blob _)) as (c & E & Hc).
  rewrite E. cbn [mbind option_bind]. rewrite (section_range start (bloomIndexer bm) s (ix_start _ _ _ _ Hix) Hr). cbn [mbind option_bind].
  replace (if secs s <? from then from else secs s) with (Z.max from (secs s)) by (destruct (Z.ltb_spec (secs s) from); lia).
  replace (if to <? secs (s + 1) - 1 then to else secs (s + 1) - 1) with (Z.min to (secs (s + 1) - 1))
    by (destruct (Z.ltb_spec to (secs (s + 1) - 1)); lia).
  rewrite (scan_spec s _ c _ _ _ Halign Hr Hc) by lia. f_equal. apply filter_same. intros x Hx%elem_of_range.
  unfold hit. replace (sec_of x) with s; [done|]. unfold sec_of, sec_start in *. dlia.
Qed.

Lemma all_sections_spec from to a len :
  0 <= from -> to + 8 < 2 ^ 32 -> 0 <= start -> 0 <= a -> secs (a + Z.of_nat len) + 8 < 2 ^ 32 -> from < secs (a + 1) ->
  (0 < len)%nat -> secs (a + Z.of_nat len - 1) <= to -> from <= to ->
  all_sections lm db bm m from to (seqZ a (Z.of_nat len)) =
    Some (filter (fun x => hit x = true) (range (Z.max from (secs a)) (Z.min to (secs (a + Z.of_nat len) - 1)))).
Proof.
  intros Hf Ht Hst. revert a. induction len as [|len IH]; intros a Ha Hb Hfa Hlen Hto Hft; [lia|].
  rewrite seqZ_cons by lia. cbn [all_sections]. replace (Z.pred (Z.of_nat (S len))) with (Z.of_nat len) by lia.
  rewrite section_ledgers_spec by (unfold sec_in_range, sec_start in *; lia). cbn [mbind option_bind].
  destruct (decide (len = 0%nat)) as [->|Hne].
  - rewrite seqZ_nil by lia. cbn [all_sections mbind option_bind]. rewrite app_nil_r. do 3 f_equal.
  - unfold Z.succ. rewrite IH by (unfold sec_start in *; lia). cbn [mbind option_bind]. f_equal. rewrite <- filter_app.
    f_equal. rewrite (range_split (Z.max from (secs a)) (secs (a + 1) - 1) (Z.min to (secs (a + Z.of_nat (S len)) - 1)))
      by (unfold sec_start in *; lia).
    f_equal; f_equal; unfold sec_start in *; lia.
Qed.

(** The search finds, in order, the ledgers of the range in stored sections whose filters
    have the bits that are looked for. *)
Lemma execute_spec from to :
  0 <= start -> start <= from <= to -> to + 8192 < 2 ^ 32 ->
  execute lm db bm m from to = Some (filter (fun x => hit x = true) (range from to)).
Proof.
  intros Hst Hft Hto. unfold execute, getSectionBySeq, DEFAULT_SECTION_SIZE. rewrite Hbm. cbn [mbind option_bind].
  rewrite !u32_small by lia. unfold u32_loop.
  destruct (Z.eqb_spec ((to - start) / 4096) (2 ^ 32 - 1)) as [E|_]; [dlia|]. cbn [mbind option_bind].
  assert ((from - start) / 4096 <= (to - start) / 4096) by (apply Z.div_le_mono; lia).
  replace ((to - start) / 4096 - (from - start) / 4096 + 1)
    with (Z.of_nat (Z.to_nat ((to - start) / 4096 - (from - start) / 4096 + 1))) by lia.
  rewrite all_sections_spec; unfold sec_start; try dlia; try lia.
  do 3 f_equal; rewrite ?Z2Nat.id by lia; dlia.
Qed.

End Search.
