(* ===== verification/FilterProps.v ===== *)
(** * What a query for logs returns

    The filter of a ledger covers its logs, so a ledger whose filter lacks the bits of a
    query has no log the query selects; with the search of [Matcher] this gives the answer
    of [Filter::Logs]. *)

From S2P Require Import Prelude Serializer Hex ShaMapNode Bloom LogFilter BloomProps MatcherProps.

#[local] Open Scope Z_scope.

Section Cover.

Context {HA : Hashers} {HX : HexText}.

(** ** The filter covers the logs *)

(** What [calcBloom] has added so far is kept by what follows. *)
Definition covers (bloom data : Bytes) : Prop := bloom_ok bloom /\ test data bloom = true.

Lemma covers_add data data' bloom : covers bloom data -> covers (add data' bloom) data.
Proof. intros [H1 H2]. split; [by apply add_ok | by apply test_add_mono]. Qed.

Lemma covers_new data bloom : bloom_ok bloom -> covers (add data bloom) data.
Proof. intros H. split; [by apply add_ok | by apply test_add]. Qed.

Lemma fold_add_keeps {A} (f : A -> Bytes) l bloom :
  let r := fold_left (fun b x => add (f x) b) l bloom in
  bloom_ok bloom -> bloom_ok r /\ (forall data, covers bloom data -> covers r data) /\ forall x, x ∈ l -> covers r (f x).
Proof.
  simpl. revert bloom. induction l as [|a l IH]; intros bloom Hok; simpl.
  - split; [done|]. split; [done|]. intros x Hx. by apply elem_of_nil in Hx.
  - destruct (IH (add (f a) bloom) (add_ok _ _ Hok)) as (H1 & H2 & H3). split; [done|]. split.
    + intros data Hd. by apply H2, covers_add.
    + intros x [-> | Hx]%elem_of_cons; [by apply H2, covers_new | by apply H3].
Qed.

Lemma add_log_covers address bloom log :
  bloom_ok bloom -> let r := add_log address bloom log in
  bloom_ok r /\ (forall data, covers bloom data -> covers r data) /\ covers r (be_bytes 20 address) /\
  forall topic, topic ∈ lg_topics log -> covers r (be_bytes 32 (from_hex_text 32 (drop 2 topic))).
Proof.
  intros Hok. simpl. unfold add_log.
  destruct (fold_add_keeps (fun topic => be_bytes 32 (from_hex_text 32 (drop 2 topic))) (lg_topics log) (add (be_bytes 20 address) bloom))
    as (H1 & H2 & H3); [by apply add_ok|].
  split; [done|]. split; [|split; [|done]].
  - intros data Hd. by apply H2, covers_add.
  - by apply H2, covers_new.
Qed.

Lemma fold_logs_covers address logs bloom :
  bloom_ok bloom -> let r := fold_left (add_log address) logs bloom in
  bloom_ok r /\ (forall data, covers bloom data -> covers r data) /\
  forall log, log ∈ logs -> covers r (be_bytes 20 address) /\
    forall topic, topic ∈ lg_topics log -> covers r (be_bytes 32 (from_hex_text 32 (drop 2 topic))).
Proof.
  simpl. revert bloom. induction logs as [|a logs IH]; intros bloom Hok; simpl.
  - split; [done|]. split; [done|]. intros x Hx. by apply elem_of_nil in Hx.
  - destruct (add_log_covers address bloom a Hok) as (H1 & H2 & H3 & H4). destruct (IH _ H1) as (I1 & I2 & I3).
    split; [done|]. split; [intros; by apply I2, H2|].
    intros x [-> | Hx]%elem_of_cons; [|by apply I3]. split; [by apply I2 | intros; by apply I2, H4].
Qed.

Lemma parse_topics logs address ref i raw :
  logs !! i = Some raw -> exists log, parseContractLogs logs address ref !! i = Some log /\
    lg_topics log = (fun iter => hex_0x ++ toLowerStr iter) <$> rl_topics raw.
Proof. intros E. unfold parseContractLogs. rewrite list_lookup_imap, E. simpl. eexists. by split. Qed.

(** The filter has the contract and the topics of the logs it was made from. *)
Lemma calcBloom_covers vecLogs address logs raw :
  (address, logs) ∈ vecLogs -> raw ∈ logs ->
  covers (calcBloom vecLogs) (be_bytes 20 address) /\
  forall topic, topic ∈ rl_topics raw -> covers (calcBloom vecLogs) (be_bytes 32 (from_hex_text 32 (toLowerStr topic))).
Proof.
  intros Hin Hraw. unfold calcBloom.
  assert (forall vl bloom, bloom_ok bloom ->
    let r := fold_left (fun bloom '(address, log) => fold_left (add_log address) (parseContractLogs log [] None) bloom) vl bloom in
    (forall data, covers bloom data -> covers r data) /\
    ((address, logs) ∈ vl -> covers r (be_bytes 20 address) /\
      forall topic, topic ∈ rl_topics raw -> covers r (be_bytes 32 (from_hex_text 32 (toLowerStr topic))))) as Hgen.
  { intros vl. induction vl as [|[ad ls] vl IH]; intros bloom Hok; simpl; [split; [done|]; intros Hx; by apply elem_of_nil in Hx|].
    destruct (fold_logs_covers ad (parseContractLogs ls [] None) bloom Hok) as (H1 & H2 & H3).
    destruct (IH _ H1) as [I1 I2]. split; [intros; by apply I1, H2|].
    intros [[= <- <-] | Hx]%elem_of_cons; [|by apply I2].
    apply list_elem_of_lookup in Hraw as [i Ei]. destruct (parse_topics logs [] None i raw Ei) as (log & El & Et).
    destruct (H3 log) as [C1 C2]; [by apply list_elem_of_lookup_2 in El|]. split; [by apply I1|].
    intros topic Ht. apply I1. apply (C2 (hex_0x ++ toLowerStr topic)). rewrite Et. apply list_elem_of_fmap. by exists topic. }
  by apply (Hgen vecLogs Bloom_new Bloom_new_ok).
Qed.

Definition uint160 (a : Z) : Prop := 0 <= a < 256 ^ Z.of_nat 20.
Definition uint256 (a : Z) : Prop := 0 <= a < 256 ^ Z.of_nat 32.

Lemma match_topics_covered bloom topics raws :
  Forall (Forall uint256) topics ->
  (forall raw, raw ∈ raws -> covers bloom (be_bytes 32 (from_hex_text 32 (toLowerStr raw)))) ->
  match_topics topics ((fun iter => hex_0x ++ toLowerStr iter) <$> raws) = true ->
  forallb (fun sub => bool_decide (sub = []) || existsb (fun topic => bloomLookup bloom (be_bytes 32 topic)) sub) topics = true.
Proof.
  intros Hu. revert raws. induction Hu as [|sub topics Hs _ IH]; intros raws Hc; [done|].
  destruct raws as [|raw raws]; [done|]. rewrite fmap_cons. cbn [match_topics forallb].
  intros [Hm Hrest]%andb_true_iff. rewrite (IH raws), andb_true_r; [|intros; apply Hc; by right|done].
  apply orb_true_iff in Hm as [->|Hm]; [done|]. apply orb_true_iff. right.
  apply existsb_exists in Hm as (topic & Hin & E%bool_decide_eq_true). apply existsb_exists. exists topic. split; [done|].
  apply app_inv_head in E. specialize (Hc raw ltac:(by left)). rewrite E in Hc.
  rewrite <- (app_nil_l (toLowerStr (to_string _ _))), from_hex_text_written in Hc; [by destruct Hc|..]; [|by left | by right].
  rewrite Forall_forall in Hs. apply Hs. by apply list_elem_of_In.
Qed.

(** A log that a query selects has its bits in the filter that covers it. *)
Lemma keep_log_covered bloom log raw contract addresses topics :
  uint160 contract -> Forall (Forall uint256) topics ->
  lg_address log = hex_0x ++ to_string 20 contract ->
  lg_topics log = (fun iter => hex_0x ++ toLowerStr iter) <$> rl_topics raw ->
  covers bloom (be_bytes 20 contract) ->
  (forall topic, topic ∈ rl_topics raw -> covers bloom (be_bytes 32 (from_hex_text 32 (toLowerStr topic)))) ->
  keep_log 0 0 addresses topics log = true -> bloomFilter bloom addresses topics = true.
Proof.
  intros Hu Ht Ea Et Ca Ct. unfold keep_log, bloomFilter. change (0 <? 0) with false. cbn [andb]. rewrite Ea.
  assert (from_hex_text 20 (hex_0x ++ to_string 20 contract) = contract) as ->.
  { by apply (from_hex_text_written 20 contract hex_0x id); [|right|left]. }
  rewrite Et. destruct ((0 <? length addresses)%nat && _) eqn:E1; [done|]. destruct (length (_ <$> _) <? _)%nat; [done|]. intros Hm.
  rewrite (match_topics_covered bloom topics (rl_topics raw)), andb_true_r by done.
  destruct addresses as [|a addresses]; [done|]. apply orb_true_iff. right. cbn [length Nat.ltb Nat.leb andb] in E1. apply negb_false_iff in E1.
  apply existsb_exists in E1 as (x & Hx & ->%Z.eqb_eq). apply existsb_exists. exists contract. split; [done|]. apply Ca.
Qed.

(** ** The logs of a ledger *)

Section Ledgers.

Context (fetch : Z -> option Transaction).

(** A transaction of the ledger that leaves logs. *)
Definition logging (l : Ledger) (contract : Z) (logs : list RawLog) : Prop :=
  exists key txn, key ∈ bl_txs l /\ fetch key = Some txn /\ tx_contractType txn = true /\
    tx_getContractAddress txn = Some contract /\ tx_logs txn = Some logs.

(** The ledger's filter was made from its logs. *)
Definition honest (l : Ledger) : Prop :=
  exists vecLogs, bl_bloom l = calcBloom vecLogs /\
    forall contract logs, logging l contract logs -> uint160 contract /\ (logs <> [] -> (contract, logs) ∈ vecLogs).

(** Every log was emitted by the contract the transaction is sent to. *)
Definition own_logs (l : Ledger) : Prop :=
  forall contract logs raw, logging l contract logs -> raw ∈ logs -> rl_account raw = None \/ rl_account raw = Some contract.

(** Every transaction of contract type in the ledger has a contract. *)
Definition contracts_known (l : Ledger) : Prop :=
  forall key txn, key ∈ bl_txs l -> fetch key = Some txn -> tx_contractType txn = true -> is_Some (tx_getContractAddress txn).

Lemma logs_loop_spec hash l items index :
  (forall key, key ∈ items -> key ∈ bl_txs l) -> contracts_known l ->
  exists res, logs_loop fetch hash items index = Some res /\
    forall ls log, ls ∈ res -> log ∈ ls -> exists contract logs i raw, logging l contract logs /\ logs !! i = Some raw /\
      lg_topics log = (fun iter => hex_0x ++ toLowerStr iter) <$> rl_topics raw /\
      lg_address log = match rl_account raw with Some a => hex_0x ++ to_string 20 a | None => hex_0x ++ to_string 20 contract end.
Proof.
  intros Hin Hk. revert index. induction items as [|key items IH]; intros index; cbn [logs_loop].
  - exists []. split; [done|]. intros ls log Hls. by apply elem_of_nil in Hls.
  - specialize (IH (fun k Hk => Hin k (list_elem_of_further _ _ _ Hk)) (index + 1)) as (res & E & Hres).
    destruct (fetch key) as [txn|] eqn:Ef; [|by exists res].
    destruct (tx_contractType txn) eqn:Ety; simpl negb; cbv iota; [|by exists res].
    destruct (Hk key txn ltac:(apply Hin; by left) Ef Ety) as [contract Ec]. rewrite Ec. cbn [mbind option_bind].
    destruct (tx_logs txn) as [logs|] eqn:El; [|by exists res]. rewrite E. cbn [fmap option_fmap option_map].
    eexists. split; [done|]. intros ls log [-> | Hls]%elem_of_cons Hlog; [|by apply (Hres ls)].
    apply list_elem_of_lookup in Hlog as [i Ei]. unfold parseContractLogs in Ei. rewrite list_lookup_imap in Ei.
    destruct (logs !! i) as [raw|] eqn:Er; [|done]. simpl in Ei. injection Ei as <-.
    exists contract, logs, i, raw. split; [|split; [done|split; [done|]]].
    + exists key, txn. split; [apply Hin; by left | done].
    + simpl. by destruct (rl_account raw).
Qed.

(** The logs of a ledger that a query selects, when the ledger can be read. *)
Definition ledger_logs (l : Ledger) (addresses : list Z) (topics : list (list Z)) : list Log :=
  match getLogsByLedger fetch l with
  | Some (logs, true) => filterLogs logs 0 0 addresses topics
  | _ => []
  end.

(** A ledger whose filter is not hit has none. *)
Lemma ledger_logs_none l addresses topics :
  honest l -> own_logs l -> contracts_known l -> Forall (Forall uint256) topics ->
  bloomFilter (bl_bloom l) addresses topics = false -> ledger_logs l addresses topics = [].
Proof.
  intros (vl & Hb & Hc) Hown Hk Ht Hno. unfold ledger_logs, getLogsByLedger.
  destruct (logs_loop_spec (bl_hash l) l (bl_txs l) 0 (fun k H => H) Hk) as (res & -> & Hres). cbn [mbind option_bind].
  destruct (bl_missing l); simpl; [done|]. apply elem_of_nil_inv. intros log Hlog. unfold filterLogs in Hlog.
  apply list_elem_of_bind in Hlog as (ls & Hlog & Hls). apply list_elem_of_filter in Hlog as [Hkeep Hlog].
  destruct (Hres ls log Hls Hlog) as (contract & logs & i & raw & Hg & Er & Et & Ea).
  destruct (Hc contract logs Hg) as [Hu Hin]. apply list_elem_of_lookup_2 in Er as Hraw.
  destruct (calcBloom_covers vl contract logs raw) as [C1 C2]; [apply Hin; by intros -> | done|].
  apply (keep_log_covered (bl_bloom l) log raw contract) in Hkeep; [congruence | done | done | | done | by rewrite Hb | by rewrite Hb].
  by destruct (Hown contract logs raw Hg Hraw) as [E | E]; rewrite E in Ea.
Qed.

End Ledgers.

End Cover.

(** ** Queries over a range *)

Section Query.

Context {HA : Hashers} {HX : HexText} (fetch : Z -> option Transaction).
Context (chain : Z -> option Ledger) (start : Z) (lm : LedgerMaster) (db : NodeStore) (bm : BloomManager).
Context (Hlm : getLedgerBySeq lm = chain).

Context (from to : Z) (addresses : list Z) (topics : list (list Z)).

(** The alternatives [newRangeFilter] hands to [newMatcher]. *)
Definition range_filters : list (list Bytes) :=
  let addressesFilter := be_bytes 20 <$> addresses in
  (match addressesFilter with [] => [] | _ => [addressesFilter] end)
    ++ (topics ≫= fun topic => match be_bytes 32 <$> topic with [] => [] | topicsFilter => [topicsFilter] end).

Definition range_matcher : Matcher := newMatcher 4096 range_filters.

Lemma newRangeFilter_eq : newRangeFilter bm from to addresses topics = mkFilter 0 (Some range_matcher) from to addresses topics.
Proof. done. Qed.

Lemma range_matcher_wf : Forall wf_bloom (filters_ range_matcher).
Proof.
  unfold range_matcher, newMatcher. cbn [filters_]. apply Forall_forall. intros bloom Hb.
  change (map (map calcBloomIndexes)) with (fmap (M := list) (map calcBloomIndexes)) in Hb.
  apply list_elem_of_fmap in Hb as (f & -> & [Hne _]%list_elem_of_filter). split.
  - by destruct f.
  - apply Forall_forall. intros index Hi. change (index ∈ calcBloomIndexes <$> f) in Hi. apply list_elem_of_fmap in Hi as (d & -> & _).
    split; [done|]. apply Forall_forall. intros n. apply indexes_bound.
Qed.

(** Whether a filter of a ledger has an alternative of [f]. *)
Definition has_one (bloom : Bytes) (f : list Bytes) : bool := existsb (bloomLookup bloom) f.

Lemma bits_match_has seq l f :
  chain seq = Some l -> bits_match chain (map calcBloomIndexes f) seq = has_one (bl_bloom l) f.
Proof.
  intros El. unfold bits_match, has_one. induction f as [|d f IH]; [done|]. cbn [map existsb]. rewrite IH. f_equal.
  unfold bloomLookup. rewrite test_bits. unfold chain_bit. by rewrite El.
Qed.

Lemma all_match_filters seq l fs :
  chain seq = Some l ->
  all_match chain (map (map calcBloomIndexes) (filter (fun f => f <> []) fs)) seq =
    forallb (fun f => bool_decide (f = []) || has_one (bl_bloom l) f) fs.
Proof.
  intros El. unfold all_match. induction fs as [|f fs IH]; [done|]. rewrite filter_cons. cbn [forallb].
  destruct f as [|d f].
  - rewrite decide_False by (by intros []). rewrite IH. done.
  - rewrite decide_True by done. cbn [map forallb]. rewrite IH. f_equal.
    change (calcBloomIndexes d :: map calcBloomIndexes f) with (map calcBloomIndexes (d :: f)). by apply bits_match_has.
Qed.

Lemma one_alternative bloom (g : Z -> Bytes) x xs :
  (bool_decide (g <$> x :: xs = []) || has_one bloom (g <$> x :: xs)) && true =
    bool_decide (x :: xs = []) || existsb (fun y => bloomLookup bloom (g y)) (x :: xs).
Proof.
  rewrite andb_true_r, !bool_decide_false by done. cbn [orb]. unfold has_one. generalize (x :: xs). intros l.
  induction l as [|y l IH]; [done|]. rewrite fmap_cons. cbn [existsb]. by rewrite IH.
Qed.

(** The search asks of a ledger what [bloomFilter] asks. *)
Lemma matcher_bloomFilter seq l :
  chain seq = Some l -> all_match chain (filters_ range_matcher) seq = bloomFilter (bl_bloom l) addresses topics.
Proof.
  intros El. unfold range_matcher, newMatcher. cbn [filters_]. rewrite (all_match_filters seq l) by done.
  unfold range_filters, bloomFilter. rewrite forallb_app. f_equal.
  - by destruct addresses as [|a ads]; [|rewrite fmap_cons; cbn [forallb]; rewrite <- fmap_cons, one_alternative].
  - induction topics as [|t ts IH]; [done|]. rewrite bind_cons, forallb_app, IH. cbn [forallb]. f_equal.
    by destruct t as [|x t]; [|rewrite fmap_cons; cbn [forallb]; rewrite <- fmap_cons, one_alternative].
Qed.

(** The query asks for something. *)
Definition constrained : Prop := addresses <> [] \/ exists t, t ∈ topics /\ t <> [].

Lemma constrained_filters : constrained -> filters_ range_matcher <> [].
Proof.
  intros Hc. unfold range_matcher, newMatcher. cbn [filters_].
  assert (exists f, f ∈ range_filters /\ f <> []) as (f & Hf & Hne).
  { unfold range_filters. destruct Hc as [Ha | (t & Ht & Hne)].
    - destruct addresses as [|a ads]; [done|]. exists (be_bytes 20 <$> (a :: ads)). split; [by left | done].
    - exists (be_bytes 32 <$> t). split; [|by destruct t]. apply elem_of_app. right. apply list_elem_of_bind. exists t. split; [|done].
      destruct t; [done|]. by left. }
  intros E. apply (f_equal length) in E. rewrite length_map in E. apply length_zero_iff_nil in E.
  assert (f ∈ filter (fun f => f <> []) range_filters) as Hin by (by apply list_elem_of_filter).
  rewrite E in Hin. by apply elem_of_nil in Hin.
Qed.

(** ** The answer *)

(** The logs of ledger [seq] that the query selects, without the help of filters. *)
Definition selected (seq : Z) : list Log :=
  match chain seq with Some l => ledger_logs fetch l addresses topics | None => [] end.

(** Ledgers of the chain can be read, and their filters cover their logs. *)
Definition sound_chain : Prop :=
  forall seq l, chain seq = Some l -> honest fetch l /\ own_logs fetch l /\ contracts_known fetch l.

Context (Hsound : sound_chain) (Htopics : Forall (Forall uint256) topics).

Lemma selected_none seq l :
  chain seq = Some l -> bloomFilter (bl_bloom l) addresses topics = false -> selected seq = [].
Proof. intros El Hno. unfold selected. rewrite El. destruct (Hsound seq l El) as (H1 & H2 & H3). by apply ledger_logs_none. Qed.

Lemma blockLogs_spec f seq l :
  addresses_ f = addresses -> topics_ f = topics -> chain seq = Some l ->
  exists r, blockLogs fetch f l = Some r /\ default [] r = selected seq.
Proof.
  intros Ea Et El. unfold blockLogs. rewrite Ea, Et. destruct (bloomFilter _ _ _) eqn:Eb.
  - unfold checkMatches. destruct (Hsound seq l El) as (H1 & H2 & H3).
    unfold selected, ledger_logs. rewrite El. unfold getLogsByLedger.
    destruct (logs_loop_spec fetch (bl_hash l) l (bl_txs l) 0 (fun k H => H) H3) as (res & -> & _). cbn [mbind option_bind].
    rewrite Ea, Et. eexists. split; [done|]. by destruct (bl_missing l).
  - exists None. split; [done|]. by rewrite (selected_none seq l).
Qed.

Lemma ledgers_logs_spec f seqs :
  addresses_ f = addresses -> topics_ f = topics -> ledgers_logs fetch lm f seqs = Some (seqs ≫= selected).
Proof.
  intros Ea Et. induction seqs as [|seq seqs IH]; [done|]. cbn [ledgers_logs]. rewrite bind_cons, Hlm, IH.
  destruct (chain seq) as [l|] eqn:El.
  - destruct (blockLogs_spec f seq l Ea Et El) as (r & -> & <-). done.
  - unfold selected at 2. by rewrite El.
Qed.

Lemma bind_filter (P : Z -> bool) (l : list Z) :
  (forall x, x ∈ l -> P x = false -> selected x = []) -> filter (fun x => P x = true) l ≫= selected = l ≫= selected.
Proof.
  induction l as [|x l IH]; intros HP; [done|]. rewrite filter_cons, bind_cons.
  rewrite <- IH by (intros y Hy; apply HP; by right). destruct (decide (P x = true)) as [E|E].
  - by rewrite bind_cons.
  - rewrite (HP x); [done | by left | by destruct (P x)].
Qed.

Context (Hbm : bm_bloomStartSeq bm = Some start) (Hix : Indexed chain start (bloomIndexer bm) db).

Abbreviation stored := (storedSections_ (bloomIndexer bm)).

(** The last ledger of the sections that are stored. *)
Lemma indexed_last :
  1 <= start -> exists a, getSectionRange (bloomIndexer bm) (u32 (stored - 1)) = Some (a, sec_start start stored - 1).
Proof.
  intros Hs. pose proof (ix_range _ _ _ _ Hix) as (_ & Hst & Hr). destruct (decide (stored = 0)) as [E|E].
  - unfold getSectionRange, DEFAULT_SECTION_SIZE. rewrite (ix_start _ _ _ _ Hix), E. eexists. f_equal. f_equal.
    unfold sec_start in *. rewrite E in Hr. unfold u32. change ((0 - 1) mod 2 ^ 32) with (2 ^ 32 - 1).
    replace (start + (2 ^ 32 - 1 + 1) * 4096 - 1) with (start - 1 + 4096 * 2 ^ 32) by lia.
    rewrite Z.mod_add, Z.mod_small by lia. lia.
  - rewrite u32_small by (unfold sec_start in Hr; lia).
    rewrite (section_range start) by (try apply (ix_start _ _ _ _ Hix); unfold sec_in_range, sec_start in *; lia).
    eexists. do 3 f_equal. unfold sec_start. lia.
Qed.

(** A ledger of a stored section that is not hit has no log of the query. *)
Lemma miss_none seq :
  sec_of start seq < stored -> hit chain start bm range_matcher seq = false -> selected seq = [].
Proof.
  intros Hs Hh. destruct (chain seq) as [l|] eqn:El; [|unfold selected; by rewrite El].
  apply (selected_none seq l El). rewrite <- (matcher_bloomFilter seq l El). unfold hit, found in Hh.
  rewrite (proj2 (Z.ltb_lt _ _) Hs) in Hh. done.
Qed.

(** Past the stored sections a query asks every ledger. *)
Lemma unindexedLogs_spec f :
  from_ f <= to_ f + 1 -> to_ f < 2 ^ 32 - 1 -> addresses_ f = addresses -> topics_ f = topics ->
  unindexedLogs fetch lm f = Some (range (from_ f) (to_ f) ≫= selected).
Proof.
  intros Hf Ht Ead Eto. unfold unindexedLogs, u32_loop. destruct (Z.eqb_spec (to_ f) (2 ^ 32 - 1)); [lia|].
  cbn [mbind option_bind]. by rewrite ledgers_logs_spec.
Qed.

Definition indexed : Z := sec_start start stored - 1.

(** [Logs] is what the search contributes, then the ledgers past the stored sections. *)
Lemma Logs_parts part :
  1 <= start -> from <= to -> to + 8192 < 2 ^ 32 ->
  (from <= indexed -> indexedLogs fetch lm db bm (mkFilter 0 (Some range_matcher) from to addresses topics) (Z.min to indexed) =
     Some (part, mkFilter 0 (Some range_matcher) (Z.min to indexed + 1) to addresses topics)) ->
  (indexed < from -> part = []) ->
  Logs fetch lm db bm (newRangeFilter bm from to addresses topics) =
    Some (Some (part ++ (range (if from <=? indexed then Z.min to indexed + 1 else from) to ≫= selected))).
Proof.
  intros Hs1 Hft Hto Hpart Hnone. rewrite newRangeFilter_eq. unfold Logs. cbn [blockhash_ Z.eqb negb bloomStatus from_ to_].
  destruct (indexed_last Hs1) as [a ->]. cbn [mbind option_bind]. fold indexed.
  destruct (Z.leb_spec from indexed) as [Hle|Hgt].
  - assert ((if to <? indexed then indexedLogs fetch lm db bm (mkFilter 0 (Some range_matcher) from to addresses topics) to
             else indexedLogs fetch lm db bm (mkFilter 0 (Some range_matcher) from to addresses topics) indexed) =
      Some (part, mkFilter 0 (Some range_matcher) (Z.min to indexed + 1) to addresses topics)) as ->.
    { rewrite <- (Hpart Hle). destruct (Z.ltb_spec to indexed);
        [by replace (Z.min to indexed) with to by lia | by replace (Z.min to indexed) with indexed by lia]. }
    cbn [mbind option_bind]. by rewrite unindexedLogs_spec by (simpl; lia || done).
  - cbn [mbind option_bind]. rewrite unindexedLogs_spec by (simpl; lia || done). by rewrite Hnone.
Qed.

Lemma indexedLogs_parts found :
  execute lm db bm range_matcher from to = Some found -> Z.min to indexed + 1 < 2 ^ 32 -> 0 <= Z.min to indexed + 1 ->
  indexedLogs fetch lm db bm (mkFilter 0 (Some range_matcher) from to addresses topics) (Z.min to indexed) =
    Some (found ≫= selected, mkFilter 0 (Some range_matcher) (Z.min to indexed + 1) to addresses topics).
Proof.
  intros E Hb Hp. unfold indexedLogs. cbn [matcher_ mbind option_bind from_ to_]. rewrite E. cbn [mbind option_bind].
  rewrite ledgers_logs_spec by done. cbn [mbind option_bind]. unfold set_from. cbn [blockhash_ matcher_ to_ addresses_ topics_].
  by rewrite u32_small by lia.
Qed.

Lemma sec_indexed x : start <= x -> (sec_of start x < stored <-> x <= indexed).
Proof. intros Hx. unfold sec_of, indexed, sec_start. dlia. Qed.

(** What the search contributes of the stored sections. *)
Lemma stored_hits last :
  start <= from -> last <= indexed ->
  filter (fun x => hit chain start bm range_matcher x = true) (range from last) ≫= selected = range from last ≫= selected.
Proof. intros Hs Hl. apply bind_filter. intros x Hx%elem_of_range. apply miss_none. apply sec_indexed; lia. Qed.

(** The answer to a query over a range: when the first indexed ledger is a multiple of 8,
    the logs that it selects of all the ledgers of the range, in order; a query without
    criteria gets those past the stored sections twice. *)
Lemma Logs_spec :
  start mod 8 = 0 -> 1 <= start -> start <= from <= to -> to + 8192 < 2 ^ 32 ->
  Logs fetch lm db bm (newRangeFilter bm from to addresses topics) =
    Some (Some ((range from to ≫= selected) ++
      (if bool_decide (filters_ range_matcher = []) && (from <=? indexed) then range (indexed + 1) to ≫= selected else []))).
Proof.
  intros Ha Hs1 Hft Hto. pose proof (ix_range _ _ _ _ Hix) as (Hst0 & Hst & Hr).
  assert (start - 1 <= indexed < 2 ^ 32 - 1) as Hin by (unfold indexed, sec_start in *; lia).
  rewrite (Logs_parts (if from <=? indexed then filter (fun x => hit chain start bm range_matcher x = true) (range from to) ≫= selected else []));
    [|lia..| |].
  - do 2 f_equal. destruct (Z.leb_spec from indexed) as [Hle|Hgt]; [|by rewrite andb_false_r, app_nil_r]. rewrite andb_true_r.
    rewrite (range_split from (Z.min to indexed) to) at 1 2 by lia. rewrite filter_app, !bind_app, stored_hits by lia. rewrite <- !(assoc_L (++)). f_equal.
    destruct (decide (filters_ range_matcher = [])) as [E|E].
    + rewrite bool_decide_true by done. f_equal.
      * apply bind_filter. intros x Hx%elem_of_range. unfold hit, found. rewrite E. rewrite bool_decide_true, orb_true_r by done. done.
      * destruct (decide (to <= indexed)); [by rewrite !range_nil by lia | by replace (Z.min to indexed) with indexed by lia].
    + rewrite bool_decide_false, app_nil_r by done. rewrite filter_none; [done|].
      intros x Hx%elem_of_range. unfold hit, found. destruct (Z.ltb_spec (sec_of start x) stored) as [Hlt|_].
      * apply sec_indexed in Hlt; lia.
      * by rewrite bool_decide_false.
  - intros Hle. rewrite (proj2 (Z.leb_le _ _)) by done. apply indexedLogs_parts; [|lia..].
    by apply (execute_spec chain start lm db bm Hlm Hbm Hix range_matcher eq_refl range_matcher_wf Ha from to); lia.
  - intros Hgt. by rewrite (proj2 (Z.leb_gt _ _)).
Qed.

(** A range that begins before the first indexed ledger gets nothing from the stored
    sections: the section of its first ledger wraps. *)
Lemma early_range_misses :
  1 <= start -> 0 <= from < start -> start <= to -> to + 8192 < 2 ^ 32 ->
  Logs fetch lm db bm (newRangeFilter bm from to addresses topics) =
    Some (Some (range (Z.min to indexed + 1) to ≫= selected)).
Proof.
  intros Hs1 Hf Ht Hto. pose proof (ix_range _ _ _ _ Hix) as (Hst0 & Hst & Hr).
  assert (start - 1 <= indexed < 2 ^ 32 - 1) as Hin by (unfold indexed, sec_start in *; lia).
  rewrite (Logs_parts []); [|lia..| |done].
  - by rewrite (proj2 (Z.leb_le _ _)) by lia.
  - intros Hle. rewrite (indexedLogs_parts []); [done| |lia..].
    unfold execute, getSectionBySeq, DEFAULT_SECTION_SIZE. rewrite Hbm. cbn [mbind option_bind].
    assert (u32 (from - start) = 2 ^ 32 + from - start) as ->.
    { unfold u32. rewrite <- (Z.mod_add _ 1) by lia. rewrite Z.mod_small by lia. lia. }
    rewrite u32_small by lia. unfold u32_loop. destruct (Z.eqb_spec ((to - start) / 4096) (2 ^ 32 - 1)); [dlia|].
    cbn [mbind option_bind]. rewrite seqZ_nil; [done|]. dlia.
Qed.

End Query.
