(* ===== verification/FilterApi.v ===== *)
(** * Installed filters

    [peersafe/app/bloom/FilterApi.cpp]: clients install filters, poll them for what was
    published since, and uninstall them; a timer drops those not polled for ten minutes.
    Filters are shared objects: [filters_] maps identifiers to pointers into [heap_].  The
    timer's handler takes [filters_] away under the lock and puts it back under a second
    one; [sweep_] is what it holds in between.  Clock readings are in nanoseconds, and the
    random identifiers of [newID] are arguments. *)

From S2P Require Import Prelude Serializer Hex ShaMapNode Bloom LogFilter.

#[local] Open Scope Z_scope.

Inductive FilterType := NewBlockFilter | NewFilter | NewPendingFilter.

#[export] Instance FilterType_eq_dec : EqDecision FilterType.
Proof. solve_decision. Defined.

Definition DEADLINE : Z := 600.

Record FilterWrapper := mkFilterWrapper {
  fw_type : FilterType;
  fw_filter : Filter;
  fw_blockHashs : list Z;
  fw_logs : list (list Log);
  fw_deadline : Z
}.

Definition FilterWrapper_new (type : FilterType) (filter : Filter) (now : Z) : FilterWrapper :=
  mkFilterWrapper type filter [] [] now.

(** What [result] returns: transactions or ledgers by their hashes, or logs. *)
Inductive FilterResult := Hashes (hashs : list Z) | LogsOf (logs : list Log).

Record FilterApi := mkFilterApi {
  filters_api : gmap Z nat;
  heap_ : gmap nat FilterWrapper;
  fresh_ : nat;
  sweep_ : option (gmap Z nat)
}.

Definition FilterApi_new : FilterApi := mkFilterApi ∅ ∅ 0 None.

Section Api.

Context {HA : Hashers} {HX : HexText} (fetch : Z -> option Transaction) (lm : LedgerMaster).

(** ** FilterWrapper *)

Definition FilterWrapper_result (now : Z) (w : FilterWrapper) : FilterResult * FilterWrapper :=
  let w := mkFilterWrapper (fw_type w) (fw_filter w) (fw_blockHashs w) (fw_logs w) now in
  let f := fw_filter w in
  match fw_type w with
  | NewPendingFilter => (Hashes (getPendingTransactions lm).1, w)
  | NewFilter =>
      (LogsOf (filterLogs (fw_logs w) (from_ f) (to_ f) (addresses_ f) (topics_ f)),
       mkFilterWrapper (fw_type w) f (fw_blockHashs w) [] now)
  | NewBlockFilter => (Hashes (fw_blockHashs w), mkFilterWrapper (fw_type w) f [] (fw_logs w) now)
  end.

Definition FilterWrapper_onPubLedger (ledger : Ledger) (w : FilterWrapper) : FilterWrapper :=
  mkFilterWrapper (fw_type w) (fw_filter w) (fw_blockHashs w ++ [bl_hash ledger]) (fw_logs w) (fw_deadline w).

Definition appendLogs (logs : list (list Log)) (w : FilterWrapper) : FilterWrapper :=
  mkFilterWrapper (fw_type w) (fw_filter w) (fw_blockHashs w) (fw_logs w ++ logs) (fw_deadline w).

Definition isDeadline (now : Z) (w : FilterWrapper) : bool := DEADLINE <? Z.quot (now - fw_deadline w) (10 ^ 9).

(** ** FilterApi *)

Definition set_filters (fs : gmap Z nat) (api : FilterApi) : FilterApi := mkFilterApi fs (heap_ api) (fresh_ api) (sweep_ api).
Definition set_heap (h : gmap nat FilterWrapper) (api : FilterApi) : FilterApi := mkFilterApi (filters_api api) h (fresh_ api) (sweep_ api).

(** A new object, entered under its identifier. *)
Definition install (id : Z) (w : FilterWrapper) (api : FilterApi) : FilterApi :=
  let p := fresh_ api in
  mkFilterApi (<[id := p]> (filters_api api)) (<[p := w]> (heap_ api)) (S p) (sweep_ api).

Definition installPendingTransactionFilter (id now : Z) (api : FilterApi) : FilterApi :=
  install id (FilterWrapper_new NewPendingFilter newFilter now) api.

Definition installFilter (bm : BloomManager) (query : FilterQuery) (id now : Z) (api : FilterApi) : FilterApi :=
  let filter :=
    if negb (q_blockHash query =? 0) then newBlockFilter (q_blockHash query) (q_addresses query) (q_topics query)
    else newRangeFilter bm (q_fromBlock query) (q_toBlock query) (q_addresses query) (q_topics query) in
  install id (FilterWrapper_new NewFilter filter now) api.

Definition installBlockFilter (id now : Z) (api : FilterApi) : FilterApi :=
  install id (FilterWrapper_new NewBlockFilter newFilter now) api.

Definition getFilter (id : Z) (api : FilterApi) : option nat := filters_api api !! id.

Definition uninstallFilter (id : Z) (api : FilterApi) : bool * FilterApi :=
  match filters_api api !! id with
  | None => (false, api)
  | Some _ => (true, set_filters (delete id (filters_api api)) api)
  end.

(** [doEthGetFilterChanges]. *)
Definition doEthGetFilterChanges (id now : Z) (api : FilterApi) : FilterResult * FilterApi :=
  match getFilter id api with
  | Some p =>
      match heap_ api !! p with
      | Some w => let '(r, w) := FilterWrapper_result now w in (r, set_heap (<[p := w]> (heap_ api)) api)
      | None => (LogsOf [], api)
      end
  | None => (LogsOf [], api)
  end.

(** What a published ledger does to one filter. *)
Definition pub_filter (ledger : Ledger) (w : FilterWrapper) : option FilterWrapper :=
  match fw_type w with
  | NewBlockFilter => Some (FilterWrapper_onPubLedger ledger w)
  | NewFilter =>
      '(logs, ok) ← getLogsByLedger fetch ledger;
      Some (if ok : bool then appendLogs logs w else w)
  | NewPendingFilter => Some w
  end.

Fixpoint pub_loop (ledger : Ledger) (filters : list nat) (heap : gmap nat FilterWrapper) : option (gmap nat FilterWrapper) :=
  match filters with
  | [] => Some heap
  | p :: filters =>
      match heap !! p with
      | Some w => w ← pub_filter ledger w; pub_loop ledger filters (<[p := w]> heap)
      | None => None
      end
  end.

Definition handlePubLedger (ledger : Ledger) (api : FilterApi) : option FilterApi :=
  heap ← pub_loop ledger (map_to_list (filters_api api)).*2 (heap_ api);
  Some (set_heap heap api).

(** The handler of [setCheckTimer] up to the end of its first critical section, and the rest. *)
Definition check_take (api : FilterApi) : FilterApi :=
  mkFilterApi ∅ (heap_ api) (fresh_ api) (Some (filters_api api)).

Definition expired (now : Z) (api : FilterApi) (p : nat) : bool :=
  match heap_ api !! p with Some w => isDeadline now w | None => false end.

Definition check_put (now : Z) (api : FilterApi) : FilterApi :=
  match sweep_ api with
  | None => api
  | Some filters =>
      let filters := filter (fun '(_, p) => expired now api p = false) filters in
      mkFilterApi (filters ∪ filters_api api) (heap_ api) (fresh_ api) None
  end.

End Api.
