(* ===== verification/FilterApiProps.v ===== *)
(** * Polling

    A filter that stays installed delivers the logs of the ledgers published since it was
    installed, each once and in order, whatever else clients do and through the runs of the
    timer, as long as it is polled in time.  A ledger published while the timer's handler
    holds the filters is the exception. *)

From S2P Require Import Prelude Serializer Hex ShaMapNode Bloom LogFilter BloomProps FilterProps FilterApi.

#[local] Open Scope Z_scope.

Section Api.

Context {HA : Hashers} {HX : HexText} (fetch : Z -> option Transaction) (lm : LedgerMaster) (bm : BloomManager).

(** ** Events *)

Inductive api_event :=
| EvInstallPending (id now : Z)
| EvInstall (query : FilterQuery) (id now : Z)
| EvInstallBlock (id now : Z)
| EvUninstall (id : Z)
| EvPoll (id now : Z)
| EvPublish (ledger : Ledger)
| EvTake
| EvPut (now : Z).

(** The state after an event, and what a poll of filter [id] returned. *)
Definition api_step (id : Z) (ev : api_event) (api : FilterApi) : option (list Log * FilterApi) :=
  match ev with
  | EvInstallPending i now => Some ([], installPendingTransactionFilter i now api)
  | EvInstall q i now => Some ([], installFilter bm q i now api)
  | EvInstallBlock i now => Some ([], installBlockFilter i now api)
  | EvUninstall i => Some ([], (uninstallFilter i api).2)
  | EvPoll i now =>
      let '(r, api) := doEthGetFilterChanges lm i now api in
      Some (match r with LogsOf logs => if i =? id then logs else [] | Hashes _ => [] end, api)
  | EvPublish ledger => pair [] <$> handlePubLedger fetch ledger api
  | EvTake => Some ([], check_take api)
  | EvPut now => Some ([], check_put now api)
  end.

Fixpoint api_run (id : Z) (evs : list api_event) (api : FilterApi) : option (list Log * FilterApi) :=
  match evs with
  | [] => Some ([], api)
  | ev :: evs =>
      '(got, api) ← api_step id ev api;
      '(rest, api) ← api_run id evs api;
      Some (got ++ rest, api)
  end.

(** What becomes of one filter: whether the timer's handler holds it, and when it was last
    polled. *)
Record Watch := mkWatch { wt_away : bool; wt_last : Z }.

Definition watch_step (id : Z) (ev : api_event) (wt : Watch) : Watch :=
  match ev with
  | EvPoll i now => if (i =? id) && negb (wt_away wt) then mkWatch false now else wt
  | EvTake => mkWatch true (wt_last wt)
  | EvPut _ => mkWatch false (wt_last wt)
  | _ => wt
  end.

(** The event leaves the entry of [id] alone: identifiers are not used twice, the handler
    does both its parts in turn, and it comes no more than ten minutes after a poll. *)
Definition keeps (id : Z) (wt : Watch) (ev : api_event) : Prop :=
  match ev with
  | EvInstallPending i _ | EvInstall _ i _ | EvInstallBlock i _ | EvUninstall i => i <> id
  | EvPoll _ _ => True
  | EvPublish ledger => contracts_known fetch ledger
  | EvTake => wt_away wt = false
  | EvPut now => wt_away wt = true /\ Z.quot (now - wt_last wt) (10 ^ 9) <= DEADLINE
  end.

Fixpoint keeps_all (id : Z) (wt : Watch) (evs : list api_event) : Prop :=
  match evs with
  | [] => wt_away wt = false
  | ev :: evs => keeps id wt ev /\ keeps_all id (watch_step id ev wt) evs
  end.

(** The logs of the ledgers an event publishes. *)
Definition published (ev : api_event) : list (list Log) :=
  match ev with
  | EvPublish ledger => match getLogsByLedger fetch ledger with Some (logs, true) => logs | _ => [] end
  | _ => []
  end.

(** The logs of the ledgers published while the filter is in place. *)
Definition reaching (wt : Watch) (ev : api_event) : list (list Log) := if wt_away wt then [] else published ev.

Fixpoint delivered (id : Z) (wt : Watch) (evs : list api_event) : list (list Log) :=
  match evs with
  | [] => []
  | ev :: evs => reaching wt ev ++ delivered id (watch_step id ev wt) evs
  end.

(** ** Well-formed states *)

(** Filter [id] is object [p], be it in place or in the hands of the timer's handler. *)
Definition entry (api : FilterApi) (id : Z) (p : nat) : Prop :=
  filters_api api !! id = Some p \/ exists fs, sweep_ api = Some fs /\ fs !! id = Some p.

Record Api_ok (api : FilterApi) : Prop := {
  ao_heap : forall id p, entry api id p -> is_Some (heap_ api !! p);
  ao_fresh : forall p, is_Some (heap_ api !! p) -> (p < fresh_ api)%nat;
  ao_inj : forall i j p, entry api i p -> entry api j p -> i = j
}.

Lemma FilterApi_new_ok : Api_ok FilterApi_new.
Proof.
  assert (forall i p, ~ entry FilterApi_new i p) as He by (intros i p [E | (fs & E & _)]; done).
  split; [by intros i p ?%He | by intros p [w E] | by intros i j p ?%He].
Qed.

Lemma entries_ok api api' :
  Api_ok api -> (forall p, is_Some (heap_ api' !! p) <-> is_Some (heap_ api !! p)) -> fresh_ api' = fresh_ api ->
  (forall i p, entry api' i p -> entry api i p) -> Api_ok api'.
Proof.
  intros [Hh Hf Hi] Hheap Hfr He. split; [intros i p ?%He; apply Hheap; by apply (Hh i) | intros p ?%Hheap; rewrite Hfr; by apply Hf|].
  intros i j p ?%He ?%He. by apply (Hi i j p).
Qed.

Lemma install_entry id w api i p : entry (install id w api) i p -> i = id /\ p = fresh_ api \/ entry api i p.
Proof.
  unfold entry, install. simpl. rewrite lookup_insert_Some. intros [[[-> <-]|[_ E]] | E]; [by left | right; by left | right; by right].
Qed.

Lemma install_ok id w api : Api_ok api -> Api_ok (install id w api).
Proof.
  intros [Hh Hf Hi]. split.
  - intros i p [[_ ->] | E]%install_entry; simpl; apply lookup_insert_is_Some'; [by left | right; by apply (Hh i)].
  - intros p. simpl. intros [-> | Hp]%lookup_insert_is_Some'; [lia|]. apply Hf in Hp. lia.
  - assert (forall k, ~ entry api k (fresh_ api)) as Hne by (intros k E%Hh%Hf; lia).
    intros i j p [[-> ->] | E]%install_entry [[-> E2] | E2]%install_entry; [done | by apply Hne in E2 | subst; by apply Hne in E | by apply (Hi i j p)].
Qed.

Lemma set_heap_ok p w api : Api_ok api -> is_Some (heap_ api !! p) -> Api_ok (set_heap (<[p := w]> (heap_ api)) api).
Proof.
  intros Hok Hp. apply (entries_ok api); [done | | done | done]. intros q. simpl. rewrite lookup_insert_is_Some'. naive_solver.
Qed.

Lemma pointers_distinct api : Api_ok api -> NoDup (map_to_list (filters_api api)).*2.
Proof.
  intros Hok. apply NoDup_fmap_2_strong; [|apply NoDup_map_to_list].
  intros [i p] [j q] Hi%elem_of_map_to_list Hj%elem_of_map_to_list. simpl. intros ->. f_equal. apply (ao_inj _ Hok i j q); by left.
Qed.

Lemma pub_filter_total ledger w : contracts_known fetch ledger -> is_Some (pub_filter fetch ledger w).
Proof.
  intros Hk. unfold pub_filter. destruct (fw_type w); [done | | done]. unfold getLogsByLedger.
  by destruct (logs_loop_spec fetch (bl_hash ledger) ledger (bl_txs ledger) 0 (fun k H => H) Hk) as (res & -> & _).
Qed.

Lemma pub_loop_spec ledger ps heap :
  contracts_known fetch ledger -> NoDup ps -> (forall p, p ∈ ps -> is_Some (heap !! p)) ->
  exists heap', pub_loop fetch ledger ps heap = Some heap' /\
    forall p, heap' !! p = if decide (p ∈ ps) then heap !! p ≫= pub_filter fetch ledger else heap !! p.
Proof.
  intros Hk. revert heap. induction ps as [|p ps IH]; intros heap Hnd Hin; cbn [pub_loop].
  - exists heap. split; [done|]. intros p. by rewrite decide_False by apply not_elem_of_nil.
  - apply NoDup_cons in Hnd as [Hp Hnd]. destruct (Hin p ltac:(by left)) as [w Ew]. rewrite Ew.
    destruct (pub_filter_total ledger w Hk) as [w' Ew']. rewrite Ew'. cbn [mbind option_bind]. destruct (IH (<[p := w']> heap)) as (heap' & -> & Hh); [done| |].
    { intros q Hq. apply lookup_insert_is_Some'. right. apply Hin. by right. }
    exists heap'. split; [done|]. intros q. rewrite Hh. destruct (decide (q = p)) as [->|Hne].
    + rewrite decide_False, lookup_insert_eq, decide_True, Ew by (done || by left). by rewrite <- Ew'.
    + rewrite lookup_insert_ne by done. destruct (decide (q ∈ ps)) as [Hq|Hq].
      * by rewrite decide_True by (by right).
      * by rewrite decide_False by (intros [->|]%elem_of_cons; done).
Qed.

(** ** One event *)

(** Where filter [id], which is object [p], is found. *)
Definition placed (id : Z) (p : nat) (away : bool) (api : FilterApi) : Prop :=
  if away then filters_api api !! id = None /\ exists fs, sweep_ api = Some fs /\ fs !! id = Some p
  else filters_api api !! id = Some p /\ sweep_ api = None.

Lemma placed_entry id p away api : placed id p away api -> entry api id p.
Proof. destruct away; [intros [_ Hs]; by right | intros [Hf _]; by left]. Qed.

(** Filter [id] is object [p], of the type for logs and with the selection of [f]. *)
Definition followed (id : Z) (p : nat) (f : Filter) (wt : Watch) (logs : list (list Log)) (api : FilterApi) : Prop :=
  Api_ok api /\ placed id p (wt_away wt) api /\
  exists w, heap_ api !! p = Some w /\ fw_type w = NewFilter /\ fw_filter w = f /\ fw_logs w = logs /\ fw_deadline w = wt_last wt.

Definition select (f : Filter) (logs : list (list Log)) : list Log := filterLogs logs (from_ f) (to_ f) (addresses_ f) (topics_ f).

Lemma select_app f a b : select f (a ++ b) = select f a ++ select f b.
Proof. unfold select, filterLogs. by rewrite bind_app. Qed.

Lemma install_followed id p f wt logs i w api : followed id p f wt logs api -> i <> id -> followed id p f wt logs (install i w api).
Proof.
  intros (Hok & Ef & w0 & Ew & H0) Hne. split; [by apply install_ok|]. split.
  - unfold placed, install in *. simpl. by rewrite lookup_insert_ne.
  - exists w0. split; [|done]. simpl. rewrite lookup_insert_ne; [done|]. pose proof (ao_fresh _ Hok p ltac:(by rewrite Ew)). lia.
Qed.

(** A poll of the filter takes what is pending, unless the handler holds the filter. *)
Lemma poll_followed id p f wt logs i now api :
  followed id p f wt logs api ->
  let '(r, api') := doEthGetFilterChanges lm i now api in
  if (i =? id) && negb (wt_away wt) then r = LogsOf (select f logs) /\ followed id p f (mkWatch false now) [] api'
  else (i = id -> r = LogsOf []) /\ followed id p f wt logs api'.
Proof.
  intros (Hok & Ef & w0 & Ew & Ht & Hf & Hl & Hd). unfold doEthGetFilterChanges, getFilter.
  destruct (Z.eqb_spec i id) as [->|Hne]; [destruct wt as [[] last]; cbn [wt_away wt_last andb negb] in *|]; cbn [andb].
  - destruct Ef as [Ef Hs]. rewrite Ef. split; [done|]. split; [done|]. split; [by split|]. by exists w0.
  - destruct Ef as [Ef Hs]. rewrite Ef, Ew. unfold FilterWrapper_result. rewrite Ht. cbn [fw_filter fw_logs]. rewrite Hf, Hl. split; [done|].
    split; [apply set_heap_ok; [done | by rewrite Ew]|]. split; [done|]. simpl. rewrite lookup_insert_eq. by eexists.
  - destruct (filters_api api !! i) as [q|] eqn:Ei; [|split; [done|]; by repeat (split; [done|]); exists w0].
    destruct (ao_heap _ Hok i q (or_introl Ei)) as [w Eq]. rewrite Eq. destruct (FilterWrapper_result lm now w) as [r w'].
    split; [done|]. split; [apply set_heap_ok; [done | by rewrite Eq]|]. split; [done|]. exists w0. split; [|done]. simpl.
    rewrite lookup_insert_ne; [done|]. intros ->. apply Hne. apply (ao_inj _ Hok i id p); [by left | by eapply placed_entry].
Qed.

Lemma pub_filter_shape ledger w w' : pub_filter fetch ledger w = Some w' -> fw_type w = NewFilter ->
  fw_type w' = NewFilter /\ fw_filter w' = fw_filter w /\ fw_logs w' = fw_logs w ++ published (EvPublish ledger)
  /\ fw_deadline w' = fw_deadline w.
Proof.
  unfold pub_filter, published. intros E Ht. rewrite Ht in E. destruct (getLogsByLedger fetch ledger) as [[logs ok]|]; [|done].
  cbn [mbind option_bind] in E. injection E as <-. destruct ok; simpl; [done|]. by rewrite app_nil_r.
Qed.

(** A ledger reaches the filter exactly when the filter is in place. *)
Lemma listed_pointer id p away api : Api_ok api -> placed id p away api -> p ∈ (map_to_list (filters_api api)).*2 <-> away = false.
Proof.
  intros Hok Hp. rewrite list_elem_of_fmap. split.
  - intros ([i q] & -> & Hi%elem_of_map_to_list). destruct away; [|done]. exfalso. simpl in Hp.
    assert (i = id) as -> by (apply (ao_inj _ Hok i id q); [by left | by apply (placed_entry id q true)]). destruct Hp as [Hp _]. by rewrite Hp in Hi.
  - intros ->. destruct Hp as [Hp _]. exists (id, p). split; [done|]. by apply elem_of_map_to_list.
Qed.

Lemma publish_followed id p f wt logs ledger api :
  followed id p f wt logs api -> contracts_known fetch ledger ->
  exists api', handlePubLedger fetch ledger api = Some api' /\ followed id p f wt (logs ++ reaching wt (EvPublish ledger)) api'.
Proof.
  intros (Hok & Ef & w0 & Ew & Ht & Hf & Hl & Hd) Hk. unfold handlePubLedger.
  destruct (pub_loop_spec ledger (map_to_list (filters_api api)).*2 (heap_ api) Hk (pointers_distinct api Hok)) as (heap' & E & Hh).
  { intros q ([i q'] & -> & Hq%elem_of_map_to_list)%list_elem_of_fmap. apply (ao_heap _ Hok i). by left. }
  rewrite E. cbn [mbind option_bind]. eexists. split; [done|].
  assert (forall q, is_Some (heap' !! q) <-> is_Some (heap_ api !! q)) as Hdom.
  { intros q. rewrite Hh. destruct (decide _) as [Hq|]; [|done]. split; [by destruct (heap_ api !! q)|]. intros Hs.
    destruct Hs as [w ->]. by apply pub_filter_total. }
  split; [by apply (entries_ok api)|]. split; [done|]. simpl.
  pose proof (listed_pointer id p (wt_away wt) api Hok Ef) as Hin. unfold reaching. destruct (wt_away wt).
  - exists w0. rewrite app_nil_r. split; [|done]. rewrite Hh, decide_False; [done|]. by intros ?%Hin.
  - destruct (proj2 (Hdom p) ltac:(by rewrite Ew)) as [w' Ew']. exists w'. split; [done|].
    rewrite Hh, decide_True, Ew in Ew' by (by apply Hin). cbn [mbind option_bind] in Ew'.
    destruct (pub_filter_shape ledger w0 w' Ew' Ht) as (-> & -> & -> & ->). by rewrite Hf, Hl.
Qed.

Lemma uninstall_followed id p f wt logs i api :
  followed id p f wt logs api -> i <> id -> followed id p f wt logs (uninstallFilter i api).2.
Proof.
  intros (Hok & Ef & w0 & Ew & H0) Hne. unfold uninstallFilter. destruct (filters_api api !! i) as [q|] eqn:Ei; simpl.
  - split; [|split; [|by exists w0]].
    + apply (entries_ok api); [done..|]. intros j r. unfold entry. simpl. rewrite lookup_delete_Some. naive_solver.
    + unfold placed in *. simpl. by rewrite lookup_delete_ne.
  - split; [done|]. split; [done|]. by exists w0.
Qed.

(** The two parts of the timer's handler. *)
Lemma take_followed id p f last logs api :
  followed id p f (mkWatch false last) logs api -> followed id p f (mkWatch true last) logs (check_take api).
Proof.
  intros (Hok & [Ef Es] & Hw). split; [|split; [|done]].
  - apply (entries_ok api); [done..|]. intros i q [E|(fs & [= <-] & E)]; [done | by left].
  - split; [done|]. by eexists.
Qed.

Lemma put_followed id p f last now logs api :
  followed id p f (mkWatch true last) logs api -> Z.quot (now - last) (10 ^ 9) <= DEADLINE ->
  followed id p f (mkWatch false last) logs (check_put now api).
Proof.
  intros (Hok & (Ef & fs & Es & Ep) & w & Ew & Ht & Hf & Hl & Hd) Hnow. simpl in Hd. unfold check_put. rewrite Es. split; [|split; [|by exists w]].
  - apply (entries_ok api); [done..|]. intros i q [[E|[_ E]]%lookup_union_Some_raw | (gs & E & _)]; [|by left | done].
    apply map_lookup_filter_Some in E as [E _]. right. by exists fs.
  - split; [|done]. cbn [filters_api]. apply lookup_union_Some_l. apply map_lookup_filter_Some. split; [done|].
    unfold expired, isDeadline. rewrite Ew, Hd. by apply Z.ltb_ge.
Qed.

(** An event adds what it publishes to what is pending, and a poll takes it. *)
Lemma step_followed id p f wt logs ev api :
  followed id p f wt logs api -> keeps id wt ev ->
  exists got api' logs', api_step id ev api = Some (got, api') /\ followed id p f (watch_step id ev wt) logs' api' /\
    select f logs ++ select f (reaching wt ev) = got ++ select f logs'.
Proof.
  intros Hfo Hk. assert (select f [] = []) as E0 by done.
  assert (forall ev', published ev' = [] -> reaching wt ev' = []) as Er by (intros ev' E; unfold reaching; by destruct (wt_away wt)).
  destruct ev as [i now | q i now | i now | i | i now | ledger | | now]; cbn [api_step watch_step keeps] in *.
  1-5,7,8: rewrite Er, E0, app_nil_r by done.
  1-3: eexists [], _, logs; split; [done|]; split; [by apply install_followed | done].
  - eexists [], _, logs. split; [done|]. split; [by apply uninstall_followed | done].
  - pose proof (poll_followed id p f wt logs i now api Hfo) as Hp. destruct (doEthGetFilterChanges lm i now api) as [r api'].
    destruct ((i =? id) && negb (wt_away wt)) eqn:Ei.
    + destruct Hp as [-> Hp]. apply andb_prop in Ei as [-> _]. exists (select f logs), api', []. by rewrite E0, app_nil_r.
    + destruct Hp as [Hr Hp]. exists [], api', logs. split; [|done]. destruct (Z.eqb_spec i id) as [Eid|_]; [by rewrite (Hr Eid) | by destruct r].
  - destruct wt as [[] last]; [done|]. eexists [], _, logs. split; [done|]. split; [by apply take_followed | done].
  - destruct wt as [[] last]; [|by destruct Hk]. eexists [], _, logs. split; [done|]. split; [by apply put_followed; [|apply Hk] | done].
  - destruct (publish_followed id p f wt logs ledger api Hfo Hk) as (api' & -> & Hp).
    exists [], api', (logs ++ reaching wt (EvPublish ledger)). split; [done|]. split; [done|]. by rewrite select_app.
Qed.

Lemma run_followed id p f evs wt logs api :
  followed id p f wt logs api -> keeps_all id wt evs ->
  exists got api' logs' last, api_run id evs api = Some (got, api') /\ followed id p f (mkWatch false last) logs' api' /\
    select f logs ++ select f (delivered id wt evs) = got ++ select f logs'.
Proof.
  revert wt logs api. induction evs as [|ev evs IH]; intros wt logs api Hfo Hk; cbn [api_run keeps_all delivered] in *.
  - destruct wt as [aw last]. simpl in Hk. subst aw. exists [], api, logs, last. by rewrite app_nil_r.
  - destruct Hk as [Hev Hk]. destruct (step_followed id p f wt logs ev api Hfo Hev) as (got & api1 & logs1 & -> & Hfo1 & E1). cbn [mbind option_bind].
    destruct (IH _ logs1 api1 Hfo1 Hk) as (rest & api2 & logs2 & last & -> & Hfo2 & E2). cbn [mbind option_bind].
    exists (got ++ rest), api2, logs2, last. split; [done|]. split; [done|].
    rewrite select_app, (assoc_L _), E1. rewrite <- (assoc_L _), E2. by rewrite (assoc_L _).
Qed.

Lemma installed_followed bm' q id now api :
  Api_ok api -> sweep_ api = None ->
  followed id (fresh_ api)
    (if negb (q_blockHash q =? 0) then newBlockFilter (q_blockHash q) (q_addresses q) (q_topics q)
     else newRangeFilter bm' (q_fromBlock q) (q_toBlock q) (q_addresses q) (q_topics q))
    (mkWatch false now) [] (installFilter bm' q id now api).
Proof.
  intros Hok Hs. unfold installFilter. split; [by apply install_ok|]. unfold install, placed. simpl. rewrite !lookup_insert_eq.
  split; [done|]. by eexists.
Qed.

End Api.
