(* ===== verification/BloomTheorems.v ===== *)
(** * Theorems on the index of logs

    The index holds the filters of the sections it stores, through restarts; a query over
    the range of the index returns the logs it selects; where the first indexed ledger is
    1, as it is on a new network, logs are missed; polled filters deliver every log of the
    ledgers that reach them once. *)

From S2P Require Import Prelude Serializer Hex ShaMapNode Bloom LogFilter BloomProps MatcherProps FilterProps FilterApi FilterApiProps.

#[local] Open Scope Z_scope.

(** The indexer of a node that has saved its first ledger and nothing else. *)
Definition index_start (start : Z) : BloomIndexer * NodeStore := (setBloomStartSeq (Some start) BloomIndexer_new, ∅).

Section Start.

Context {HA : Hashers} (chain : Z -> option Ledger) (start : Z) (Hk : keys_distinct chain start) (Hs : 0 <= start < 2 ^ 32).

Lemma index_start_ok : Index_ok chain start (index_start start).
Proof.
  split; [|unfold sec_start; simpl; lia]. split; simpl; [done | unfold sec_start; lia | done | lia | done].
Qed.

Lemma index_reachable st : rtc (index_step chain start) (index_start start) st -> Index_ok chain start st.
Proof.
  intros Hr. enough (forall a b, rtc (index_step chain start) a b -> Index_ok chain start a -> Index_ok chain start b) as Hgen
    by (apply (Hgen _ _ Hr), index_start_ok).
  induction 1 as [|a b c Hab _ IH]; intros Ha; [done|]. apply IH. by apply (index_step_ok chain start a b).
Qed.

End Start.

(** C12: whatever ledgers are published, whenever the job runs and however often the node
    restarts, the store holds for every stored section the transposed filters of its
    ledgers and nothing of other sections.  From any such state the job returns; it has
    then stored every known section or met one whose ledgers are not complete, and a
    restart finds as many sections stored.  The store is one that overwrites. *)
Theorem log_index_maintained {HA : Hashers} chain start bi db :
  keys_distinct chain start -> 0 <= start < 2 ^ 32 ->
  rtc (index_step chain start) (index_start start) (bi, db) ->
  Indexed chain start bi db /\
  (forall lm, view_of chain lm -> exists bi' db', processSections lm bi db = Some (bi', db') /\
     storedSections_ bi <= storedSections_ bi' /\
     (storedSections_ bi' < knownSections_ bi ->
        haveLedger lm (sec_start start (storedSections_ bi')) (sec_start start (storedSections_ bi' + 1) - 1) = false)) /\
  exists bi', BloomIndexer_init (Some start) db BloomIndexer_new = Some bi' /\ storedSections_ bi' = storedSections_ bi.
Proof.
  intros Hk Hs Hr. apply (index_reachable chain start Hk Hs) in Hr. split; [apply Hr|]. split.
  - intros lm Hv. destruct (processSections_ok chain start lm bi db Hk Hv Hr) as (bi' & db' & E & _ & H1 & H2). by exists bi', db'.
  - destruct (restart_ok chain start bi db (proj1 Hr)) as (bi' & E & _ & H1 & _). by exists bi'.
Qed.

(** C11: on a node whose first indexed ledger is a multiple of 8, [eth_getLogs] over a range
    from that ledger on returns the logs the query selects of all the ledgers of the range
    that can be read, in order and each once, whichever of them the index covers; the
    filters of the ledgers must cover their logs, every log must be of the contract its
    transaction calls, and the query must name an address or a topic, no block hash, and a
    last ledger below 2^32 - 8192. *)
Theorem log_query_exact {HA : Hashers} {HX : HexText} fetch chain start lm db bm query :
  getLedgerBySeq lm = chain -> sound_chain fetch chain -> bm_bloomStartSeq bm = Some start ->
  Indexed chain start (bloomIndexer bm) db -> start mod 8 = 0 -> 1 <= start ->
  q_blockHash query = 0 -> start <= q_fromBlock query <= q_toBlock query -> q_toBlock query + 8192 < 2 ^ 32 ->
  Forall (Forall uint256) (q_topics query) -> constrained (q_addresses query) (q_topics query) ->
  doEthGetLogs fetch lm db bm query =
    Some (range (q_fromBlock query) (q_toBlock query) ≫= selected fetch chain (q_addresses query) (q_topics query)).
Proof.
  intros Hlm Hsound Hbm Hix Ha Hs1 Hb Hft Hto Ht Hc. unfold doEthGetLogs. rewrite Hbm, Hb. cbn [Z.eqb negb].
  destruct (Z.ltb_spec (q_toBlock query) start); [lia|].
  rewrite (Logs_spec fetch chain start lm db bm Hlm _ _ _ _ Hsound Ht Hbm Hix Ha Hs1 Hft Hto).
  rewrite bool_decide_false by (by apply constrained_filters). simpl. by rewrite app_nil_r.
Qed.

(** C38: where the first indexed ledger is 1, the search of a stored section that comes to a
    multiple of 8, other than one of 4096, skips the seven ledgers that follow it whenever the
    eight ledgers up to it have no match: an [eth_getLogs] query that starts at one of these
    eight and ends at one of the following seven returns nothing, whatever logs the latter
    have. *)
Theorem unaligned_index_loses_logs {HA : Hashers} {HX : HexText} fetch chain lm db bm query j :
  getLedgerBySeq lm = chain -> sound_chain fetch chain -> bm_bloomStartSeq bm = Some 1 ->
  Indexed chain 1 (bloomIndexer bm) db -> j mod 8 = 0 -> j mod 4096 <> 0 -> 0 < j < 4096 * storedSections_ (bloomIndexer bm) ->
  q_blockHash query = 0 -> j - 7 <= q_fromBlock query <= j -> j <= q_toBlock query <= j + 7 -> j + 8199 < 2 ^ 32 ->
  Forall (Forall uint256) (q_topics query) ->
  (forall i, j - 7 <= i <= j -> all_match chain (filters_ (range_matcher (q_addresses query) (q_topics query))) i = false) ->
  doEthGetLogs fetch lm db bm query = Some [].
Proof.
  intros Hlm Hsound Hbm Hix Hj8 Hj4 Hj Hb Hf Ht Hbig Htop Hmiss. unfold doEthGetLogs. rewrite Hbm, Hb. cbn [Z.eqb negb].
  destruct (Z.ltb_spec (q_toBlock query) 1); [lia|].
  assert (j + 7 <= indexed 1 bm) as Hin by (unfold indexed, sec_start; dlia).
  rewrite (Logs_parts fetch chain 1 lm db bm Hlm _ _ _ _ Hsound Htop Hix []); [|dlia..| |done].
  - rewrite (proj2 (Z.leb_le _ _)) by lia. rewrite range_nil by lia. done.
  - intros _. rewrite (indexedLogs_parts fetch chain 1 lm db bm Hlm _ _ _ _ Hsound Htop []); [done| |lia..].
    apply (execute_skips chain 1 lm db bm Hlm Hbm Hix (range_matcher _ _) eq_refl (range_matcher_wf _ _) _ _ j ((j - 1) / 4096));
      unfold sec_in_range, sec_start; try dlia; try lia; try done.
    intros i Hi. apply Hmiss. dlia.
Qed.

(** C32: a client that installs a filter for logs and polls it gets, over all its polls,
    the logs of the ledgers published since that can be read and that its filter selects,
    each once and in the order of publication, whatever other clients install, poll or
    uninstall in between and however often the timer runs; a second poll in a row gets
    nothing.  The timer must never find the filter more than ten minutes after its last poll,
    for then it drops it, and of the ledgers only those count that are published while the
    timer's handler does not hold the filters: those published in between are lost. *)
Theorem polls_deliver {HA : Hashers} {HX : HexText} fetch lm bm query id now now' now'' api evs :
  Api_ok api -> sweep_ api = None -> keeps_all fetch id (mkWatch false now) evs ->
  exists got api' rest api'',
    api_run fetch lm bm id evs (installFilter bm query id now api) = Some (got, api') /\
    doEthGetFilterChanges lm id now' api' = (LogsOf rest, api'') /\
    got ++ rest = filterLogs (delivered fetch id (mkWatch false now) evs)
      (if q_blockHash query =? 0 then q_fromBlock query else 0) (if q_blockHash query =? 0 then q_toBlock query else 0)
      (q_addresses query) (q_topics query) /\
    (doEthGetFilterChanges lm id now'' api'').1 = LogsOf [].
Proof.
  intros Hok Hsw Hk. pose proof (installed_followed bm query id now api Hok Hsw) as Hfo.
  set (f := if negb _ then _ else _) in Hfo.
  destruct (run_followed fetch lm bm id _ f evs _ [] _ Hfo Hk) as (got & api1 & logs & last & Er & Hfo1 & E).
  pose proof (poll_followed lm id _ f _ logs id now' api1 Hfo1) as Hp.
  destruct (doEthGetFilterChanges lm id now' api1) as [r api2] eqn:E2. rewrite Z.eqb_refl in Hp. destruct Hp as [-> Hfo2].
  pose proof (poll_followed lm id _ f _ [] id now'' api2 Hfo2) as Hp.
  destruct (doEthGetFilterChanges lm id now'' api2) as [r3 api3] eqn:E3. rewrite Z.eqb_refl in Hp. destruct Hp as [-> _].
  exists got, api1, (select f logs), api2. split; [done|]. split; [done|]. split; [|by rewrite E3].
  rewrite <- E. unfold select, f. by destruct (q_blockHash query =? 0).
Qed.

(** Between the two critical sections of the timer's handler no filter is installed: a
    client that uninstalls one is told that there is none, a ledger published then reaches
    no filter, and afterwards the filter is installed as before. *)
Lemma sweep_window {HA : Hashers} {HX : HexText} fetch id p api ledger now :
  filters_api api !! id = Some p -> expired now api p = false ->
  let taken := check_take api in
  uninstallFilter id taken = (false, taken) /\
  exists taken', handlePubLedger fetch ledger taken = Some taken' /\ heap_ taken' = heap_ api /\
    filters_api (check_put now taken') !! id = Some p.
Proof.
  intros Ef He. simpl. split; [done|]. exists (check_take api). split.
  - unfold handlePubLedger. simpl. rewrite map_to_list_empty. done.
  - split; [done|]. simpl. rewrite lookup_union_l by apply lookup_empty. by apply map_lookup_filter_Some.
Qed.

(** The filter of a ledger has the contract a transaction calls, not the one that emits
    the log: a query for the latter is turned down by the filter, although it selects the
    log. *)
Lemma inner_contract_missed {HA : Hashers} {HX : HexText} fetch l f inner logs ls log :
  addresses_ f = [inner] -> topics_ f = [] -> uint160 inner -> bloomLookup (bl_bloom l) (be_bytes 20 inner) = false ->
  getLogsByLedger fetch l = Some (logs, true) -> ls ∈ logs -> log ∈ ls -> lg_address log = hex_0x ++ to_string 20 inner ->
  blockLogs fetch f l = Some None /\ log ∈ ledger_logs fetch l [inner] [].
Proof.
  intros Ha Ht Hu Hb Hg Hls Hlog Ead. split.
  - unfold blockLogs, bloomFilter. rewrite Ha. cbn [existsb]. by rewrite Hb.
  - unfold ledger_logs. rewrite Hg. unfold filterLogs. apply list_elem_of_bind. exists ls. split; [|done].
    apply list_elem_of_filter. split; [|done]. unfold keep_log. change (0 <? 0) with false. cbn [andb length]. rewrite Ead.
    change (to_string 20 inner) with (id (to_string 20 inner)). rewrite from_hex_text_written by (done || (by right) || by left).
    unfold includes. cbn [existsb].
    by rewrite Z.eqb_refl.
Qed.

(** ** An instance *)

(** Digests that do not collide: the data behind a leading 1, as a number. *)
#[local] Instance demo_index_hashers : Hashers := {| hasher := fun _ bs => be_value (1 :: bs); chainHashTypeG := sha |}.

#[local] Instance demo_hex : HexText := {| hex_text := fun bs => bs ≫= fun b => [charHex (b / 16); charHex (b mod 16)];
                                           hex_text_spec := fun _ _ => eq_refl |}.

Lemma text_bytes s : Forall is_byte (text s).
Proof.
  unfold text. apply Forall_fmap, Forall_true. intros c. unfold compose, is_byte. pose proof (Ascii.N_ascii_bounded c). lia.
Qed.

Lemma append_string_bytes s : Forall is_byte s -> Forall is_byte (append_string s).
Proof. intros Hs. apply Forall_app. split; [done | apply be_bytes_bytes]. Qed.

Lemma demo_keys chain start : (forall seq l, chain seq = Some l -> uint256 (bl_hash l)) -> keys_distinct chain start.
Proof.
  intros Hu s s' n n' l l' Hs Hs' Hn Hn' Hl Hl'. unfold bloomBitsKey, bloomSectionCountKey. cbn [hasher demo_index_hashers].
  pose proof (append_string_bytes _ (text_bytes "BLOOM-FILTER_")) as Hp. split.
  - intros E. apply be_value_one_inj in E;
      [|apply Forall_app; split; [done|]; rewrite !Forall_app; split; [|split]; apply be_bytes_bytes..].
    apply app_inv_head in E. apply app_inj_1 in E as [E1 E]; [|by rewrite !be_bytes_length].
    apply app_inj_1 in E as [E2 _]; [|by rewrite !be_bytes_length].
    unfold sec_in_range, sec_start in *. split; [apply (be_bytes_inj 4) in E1; lia | apply (be_bytes_inj 4) in E2; lia].
  - intros E. apply be_value_one_inj in E.
    + apply (f_equal length) in E. unfold append_string in E. rewrite !length_app, !be_bytes_length in E.
      change (length BLOOM_PREFIX) with 13%nat in E. change (length BLOOM_SAVED_SECTION_COUNT) with 19%nat in E. lia.
    + apply Forall_app. split; [done|]. rewrite !Forall_app. split; [|split]; apply be_bytes_bytes.
    + apply append_string_bytes, Forall_app. split; apply text_bytes.
Qed.

(** Ledger 9 has one log, of contract 5 with topic 7. *)
Definition demo_log : RawLog := mkRawLog (Some 5) [to_string 32 7] [].
Definition demo_fetch (key : Z) : option Transaction :=
  if key =? 1 then Some (mkTransaction true 9 (Some 5) (Some [demo_log])) else None.
Definition demo_ledger (seq : Z) : Ledger :=
  if seq =? 9 then mkLedger 9 9 (calcBloom [(5, [demo_log])]) [1] false else mkLedger seq (u32 seq) (calcBloom []) [] false.
Definition demo_chain (seq : Z) : option Ledger := Some (demo_ledger seq).
Definition demo_lm : LedgerMaster := mkLedgerMaster demo_chain (fun _ => None) [(1, 100000)] None.

Lemma demo_distinct start : keys_distinct demo_chain start.
Proof.
  apply demo_keys. intros seq l [= <-]. unfold demo_ledger, uint256. destruct (seq =? 9); cbn [bl_hash]; [lia|].
  pose proof (u32_range seq). lia.
Qed.

Lemma demo_sound : sound_chain demo_fetch demo_chain.
Proof.
  intros seq l [= <-]. unfold demo_ledger. destruct (seq =? 9).
  - assert (forall contract logs, logging demo_fetch (mkLedger 9 9 (calcBloom [(5, [demo_log])]) [1] false) contract logs ->
      contract = 5 /\ logs = [demo_log]) as Hg.
    { intros c ls (key & txn & ->%list_elem_of_singleton & [= <-] & _ & [= <-] & [= <-]). done. }
    split; [|split].
    + exists [(5, [demo_log])]. split; [done|]. intros c ls [-> ->]%Hg. split; [unfold uint160; lia|]. intros _. by left.
    + intros c ls raw [-> ->]%Hg ->%list_elem_of_singleton. by right.
    + intros key txn ->%list_elem_of_singleton [= <-] _. done.
  - split; [|split].
    + exists []. split; [done|]. intros c ls (key & txn & Hin & _). by apply elem_of_nil in Hin.
    + intros c ls raw (key & txn & Hin & _). by apply elem_of_nil in Hin.
    + intros key txn Hin. by apply elem_of_nil in Hin.
Qed.

Lemma demo_view : view_of demo_chain demo_lm.
Proof. split; [done|]. apply Forall_singleton. intros seq _. done. Qed.

(** A node that has stored the section of its first 4096 ledgers. *)
Lemma demo_indexed :
  exists bi db, rtc (index_step demo_chain 1) (index_start 1) (bi, db) /\ 1 <= storedSections_ bi.
Proof.
  assert (Index_ok demo_chain 1 (index_start 1)) as H0 by (by apply index_start_ok).
  destruct (publish_ok demo_chain 1 4096 _ ∅ H0) as (H1 & _ & Hk); [lia|].
  destruct (processSections_ok demo_chain 1 demo_lm _ ∅ (demo_distinct 1) demo_view H1) as (bi & db & E & _ & Hle & Hstop).
  exists bi, db. split.
  - eapply rtc_l; [by apply (index_publish demo_chain 1 4096); lia|]. eapply rtc_l; [|apply rtc_refl].
    by apply (index_process demo_chain 1 demo_lm); [apply demo_view|].
  - destruct (decide (1 <= storedSections_ bi)) as [|Hn]; [done|]. simpl in Hle. exfalso.
    assert (storedSections_ bi = 0) as E0 by lia. rewrite Hk, E0 in Hstop.
    specialize (Hstop ltac:(done)). done.
Qed.

Lemma log_index_maintained_witness :
  exists bi db, 1 <= storedSections_ bi /\ Indexed demo_chain 1 bi db /\
    exists bi', BloomIndexer_init (Some 1) db BloomIndexer_new = Some bi' /\ storedSections_ bi' = storedSections_ bi.
Proof.
  destruct demo_indexed as (bi & db & Hr & Hs). exists bi, db. split; [done|].
  destruct (log_index_maintained demo_chain 1 bi db) as (H1 & _ & H2); [apply demo_distinct | lia | done|]. by split.
Defined.

Definition demo_query (from to : Z) : FilterQuery := mkFilterQuery 0 from to [5] [].

(** Ledger 9 has a log that the query selects. *)
Lemma demo_selected : selected demo_fetch demo_chain [5] [] 9 <> [].
Proof. by vm_compute. Qed.

Lemma log_query_exact_witness :
  doEthGetLogs demo_fetch demo_lm ∅ (mkBloomManager true (Some 8) (index_start 8).1) (demo_query 8 16) =
    Some (range 8 16 ≫= selected demo_fetch demo_chain [5] []).
Proof.
  apply (log_query_exact demo_fetch demo_chain 8 demo_lm ∅ (mkBloomManager true (Some 8) (index_start 8).1) (demo_query 8 16));
    [done | apply demo_sound | done | by apply (index_start_ok demo_chain 8) | done | done | done | simpl; lia | simpl; lia | constructor | by left].
Defined.

Lemma unaligned_index_loses_logs_witness :
  exists db bi, doEthGetLogs demo_fetch demo_lm db (mkBloomManager true (Some 1) bi) (demo_query 5 12) = Some [] /\
    selected demo_fetch demo_chain [5] [] 9 <> [].
Proof.
  destruct demo_indexed as (bi & db & Hr & Hs). exists db, bi. split; [|apply demo_selected].
  apply (unaligned_index_loses_logs demo_fetch demo_chain demo_lm db (mkBloomManager true (Some 1) bi) (demo_query 5 12) 8);
    [done | apply demo_sound | done | | done | done | simpl; lia | done | simpl; lia | simpl; lia | lia | constructor|].
  - by apply (index_reachable demo_chain 1 (demo_distinct 1) ltac:(lia) (bi, db)).
  - intros i Hi. rewrite (matcher_bloomFilter demo_chain [5] [] i (demo_ledger i) eq_refl). unfold demo_ledger.
    destruct (Z.eqb_spec i 9); [lia|]. by vm_compute.
Defined.

(** The timer runs between two polls; ledger 9 comes before and, once more, while its handler
    holds the filters. *)
Definition demo_events : list api_event :=
  [EvPublish (demo_ledger 9); EvPoll 3 (5 * 10 ^ 9); EvTake; EvPublish (demo_ledger 9); EvPut (600 * 10 ^ 9); EvPublish (demo_ledger 10)].

Lemma polls_deliver_witness :
  (exists got api' rest api'',
    api_run demo_fetch demo_lm (mkBloomManager true (Some 1) (index_start 1).1) 3 demo_events
      (installFilter (mkBloomManager true (Some 1) (index_start 1).1) (demo_query 0 0) 3 0 FilterApi_new) = Some (got, api') /\
    doEthGetFilterChanges demo_lm 3 (700 * 10 ^ 9) api' = (LogsOf rest, api'') /\
    got ++ rest = filterLogs (delivered demo_fetch 3 (mkWatch false 0) demo_events) 0 0 [5] [] /\
    (doEthGetFilterChanges demo_lm 3 (700 * 10 ^ 9) api'').1 = LogsOf [])
  /\ length (filterLogs (delivered demo_fetch 3 (mkWatch false 0) demo_events) 0 0 [5] []) = 1%nat.
Proof.
  split; [|by vm_compute]. apply (polls_deliver demo_fetch demo_lm _ (demo_query 0 0) 3 0 (700 * 10 ^ 9) (700 * 10 ^ 9) FilterApi_new).
  - apply FilterApi_new_ok.
  - done.
  - assert (forall n, contracts_known demo_fetch (demo_ledger n)) as Hc by (intros n; by apply (demo_sound n)). unfold demo_events. cbn [keeps_all keeps].
    split_and!; first [apply Hc | done | by vm_compute].
Defined.
